(* ===== verification/_CoqProject ===== *)
-Q . S2P
Prelude.v
Decimal.v
Errors.v
Json.v
Model.v
TransactionJson.v
TransactionTypes.v
Config.v
StellarXdr.v
SolanaSdk.v
Repository.v
Counter.v
RedisBase.v
CounterRedis.v
Lock.v
RedisTransaction.v
RedisDocuments.v
RedisRefinement.v
Jobs.v
Effects.v
Sample.v
RedisSample.v
RedisRuns.v
RedisIndexes.v
RedisCodec.v
RedisAnswers.v
Health.v
Selector.v
Retry.v
EvmUtils.v
Price.v
EvmTransaction.v
EvmStatus.v
Lifecycle.v
NonceAssignment.v
EvmProperties.v
EvmRelayer.v
NonceHealth.v
JobHandlers.v
JobProperties.v
Stellar.v
StellarSample.v
StellarProperties.v
StellarPrepare.v
StellarSystem.v
StellarDeviations.v
SolanaValidator.v
Solana.v
SolanaSample.v
SolanaProperties.v
SolanaRequest.v
SolanaResubmission.v
SolanaChecks.v
SolanaDeviations.v
Idempotency.v
Cleanup.v
System.v
