(* ===== verification/Prelude.v ===== *)
(** * OpenZeppelin Relayer: a verification development

    The relayer accepts transaction requests over HTTP, stores them, and takes each through
    preparation (pricing, nonce, signature), submission and confirmation on its chain, driven
    by jobs on queues.  This library models the EVM, Stellar and Solana sides of that pipeline and
    the stores they work on, in memory and in Redis, from the Rust sources under [src/src], and
    proves what makes it correct.

    ** The program and the files

    - [Prelude] (this file): machine integers with the wrap-around of the release profile,
      the [result] type, the state-and-error monad [M] the handlers are written in, its
      program logic ([wp], [preserves], [keeps]), strings, stable sorting, the iteration order
      of hash maps as a parameter.
    - [Decimal]: [Display] and [FromStr] of unsigned integers, and the string comparison of
      the Redis scripts.
    - [Errors]: the error enums ([models/error], [services/provider/mod.rs]), their messages
      and their classification as retriable, transient or a provider's fault.
    - [Model]: transactions as stored ([models/transaction/repository.rs]).
    - [Json], [TransactionJson], [TransactionTypes]: JSON documents, the integers kept as
      strings ([utils/serde]), what lua-cjson and the text edits of the scripts do to a
      document, and the serde codecs of the stored EVM, Solana and Stellar models.
    - [Config]: networks and relayers ([models/network], [models/relayer]).
    - [Repository]: the interface class [TransactionRepository] with its laws, and the
      in-memory repository ([repositories/transaction/transaction_in_memory.rs]) operation by
      operation, which discharges them.  Two further classes state what only some stores
      promise: [NonceIndex], exact lookups by nonce, and [ReliableRepository] (in
      [StellarProperties]), accesses that succeed; the theorems that need them say so.
    - [Counter]: the same for the nonce counters ([repositories/transaction_counter]), the
      counter in memory and the counter service.
    - [RedisBase]: a Redis server with a primary and a replica over any keyspace, and the
      connections to it ([repositories/redis_base.rs]).  A schedule of events decides which
      connections are refused, which commands fail before or after they took effect.
    - [CounterRedis]: the Redis counter over such a server, its commands and scripts.
    - [RedisTransaction]: the Redis repository of transactions
      ([repositories/transaction/transaction_redis.rs]) - keys, commands, pipelines and Lua
      scripts over a typed keyspace.
    - [RedisDocuments], [RedisRefinement], [RedisRuns]: the documents stand for models, and
      any run of calls is simulated by an abstract store whatever fails.
    - [RedisIndexes], [RedisAnswers]: without failures the indexes are exact, and the finders
      answer from them what a scan of the store would find.
    - [RedisCodec]: round trips, keys, and what gets lost.  [RedisSample] has the instances.
    - [Jobs]: queue messages ([jobs/job.rs]).
    - [Effects]: the world a handler acts on - repository, counters, queues, raw bytes
      broadcast, Stellar lanes and envelopes, Solana transactions broadcast, debounce table -
      and the environment [Env] that answers its questions: RPC node, signer, clock, queue and
      network store.  Every question is answered from a tick
      that advances, so answers may differ from one call to the next, and nothing is assumed
      about them unless a theorem says so.
    - [EvmUtils], [Price], [EvmTransaction], [EvmStatus]: [domain/transaction/evm], the pure
      helpers, the price calculator and replacement pricing, preparation/submission/
      resubmission, and status handling with cancellation and replacement.  Each [async fn] is
      one definition (large ones are split where the map says so), its early returns and error
      paths kept; logging and metrics are dropped.
    - [Lifecycle], [NonceAssignment], [EvmProperties]: theorems about these handlers.
    - [EvmRelayer], [NonceHealth]: the EVM relayer ([domain/relayer/evm]) - intake of
      requests, nonce synchronisation, gap detection and filling, counter rewind, deletion of
      pending transactions, health checks - and the theorems about nonce health.
    - [JobHandlers], [JobProperties]: the workers of [jobs/handlers] that take requests,
      submissions and status checks off the queues and run the transaction handlers, with the
      decision whether a job is done, retried or aborted; the theorems also cover intake.
    - [StellarXdr], [Stellar]: the Stellar side ([domain/transaction/stellar],
      [domain/relayer/stellar/xdr_utils.rs]).  [StellarXdr] has envelopes, conversions, fees,
      the resubmission ladder and the reading of on-chain results, over the codec of the
      Stellar crates as a class ([StellarSdk], with the laws the code relies on);
      [Stellar] has the lane gate, the sequence counter's synchronisation, preparation of the
      four kinds of input, submission and status handling, in the monad and world of the EVM
      handlers, with a class for the node, the signer and the DEX services ([StellarEnv]).
    - [StellarProperties], [StellarPrepare], [StellarSystem], [StellarDeviations]: the theorems
      about them; [StellarSample] has the instances.
    - [SolanaSdk], [SolanaValidator], [Solana], [SolanaRequest]: the Solana side
      ([domain/transaction/solana], [services/provider/solana/mod.rs],
      [domain/relayer/solana/token.rs], [models/transaction/request/solana.rs]).  [SolanaSdk]
      has messages and transactions with the codecs and token layouts of the Solana crates as
      a class with its laws; [SolanaValidator] the classification of node errors and every
      check of the policy, [Solana] preparation, submission, resubmission under a fresh
      blockhash and the status handler, [SolanaRequest] the validation of requests.  Where the
      source indexes an array the model panics ([abrupt]) when the index is out of range.
    - [SolanaProperties], [SolanaResubmission], [SolanaChecks], [SolanaDeviations]: the theorems
      about them; [SolanaSample] has the instances.
    - [Idempotency]: creation under an [Idempotency-Key] ([api/controllers/idempotency.rs]),
      one request at a time and with the accesses of all requests interleaved, over an
      interface both repositories implement.
    - [Lock], [Cleanup]: the distributed lock ([utils/redis.rs]) and the cron job that deletes
      expired transactions ([jobs/handlers/transaction_cleanup_handler.rs]).
    - [System]: the entry points of the service as one step relation.
    - [Health], [Selector], [Retry]: RPC endpoints ([services/provider]) - the health store
      with expiring failures and pauses, weighted and round-robin selection, and the retry and
      failover loops around every RPC call.  These have a world of their own ([RpcWorld]) and
      an environment ([RpcEnv]: clock, random generator); the handlers see their outcome as
      one answer of [Env].
    - [Sample]: concrete instances used to evaluate the theorems on examples.

    ** What the theorems show

    - Handlers and lifecycle: each handler, with arbitrary answers of the outside world,
      touches only its own transaction and moves it along the status graph, never changes a
      nonce, a finalized transaction or the identity of a transaction ([Lifecycle]); nonces
      are never assigned twice however handlers interleave ([NonceAssignment]).
    - Effects: what cancellation, the circuit breaker, submission, resubmission, nonce
      reconciliation, gap detection and the job debounce do on every branch ([EvmProperties]).
    - Prices: bumped and replacement prices satisfy the mempool's replacement rule, prepared
      prices respect the relayer's cap, the minimum bump does not overflow ([Price]).
    - Stores: the in-memory repository keeps its invariant and its pages are complete
      ([Repository]); the Redis counter is simulated by the in-memory one, call by call, up to
      the calls that fail and the reads of a replica that lags, and without them answers as it
      does ([CounterRedis]).
    - The Redis repository: calls against a server that refuses and loses commands have the
      effects of the abstract store, each at most as often as the scripts are sent
      ([RedisRuns]); finalized transactions keep their status; without failures the finders
      are exact ([RedisAnswers]); documents are read back as the models they were written
      from, through the scripts too, and keys never collide ([RedisCodec]).
    - The system: intake, workers, API calls, health checks and nonce health runs (which lower
      counters and pick nonces themselves), taking turns in any order, leave every nonce in use
      below its counter, so that preparation never hands out a nonce in use ([System]).  The
      repository and counter are those that answer what they hold; a health run that overlaps a
      preparation is outside the theorem.
    - Nonce health: the gaps a run reports are exactly the slots nobody is filling; it adds
      fillers and changes nothing else ([NonceHealth]).
    - Intake: a stored transaction is Pending with a status check queued, or Failed, or the
      write that would have failed it was refused ([JobProperties]).
    - Stellar runs: with intakes, handler runs and clean-ups taking turns in any order, over a
      store whose accesses do not fail and within the life of one process, a relayer that takes
      one transaction at a time has at most one in flight and its lane is never left to a
      finished transaction; active transactions never share a sequence number, across resets,
      synchronisation and rewinds of the counter; finished transactions stay as they are and
      retries are bounded ([StellarSystem], by the invariant of [StellarProperties]).
    - Stellar envelopes: a prepared transaction is submitted as one envelope with one
      signature over the sequence number it was given, or as a fee bump of the user's
      envelope; the fee of a fee bump satisfies CAP-0015; the resubmission ladder is the
      documented one ([StellarPrepare]).
    - Solana runs: with intakes, handler runs and clean-ups in any order, finished transactions
      stay as they are and the others move along the status graph with well-formed data
      ([SolanaProperties]); a resubmission is queued only when no recorded signature was found
      on chain and the blockhash has expired, and what is broadcast is the prepared
      transaction, but for blockhash and the relayer's signature ([SolanaResubmission]);
      preparation signs only what passed every check of the policy, where a simulation passes
      when the node answers, whatever its result ([SolanaChecks]); accepted
      requests build ([SolanaRequest]).
    - Idempotency: of the requests with one key at most one stores a transaction, however they
      interleave and whatever fails; the others replay it, or report the conflict, or the
      access that failed ([Idempotency]).
    - Cleanup: at most one instance holds a lock ([Lock]); a cleanup run deletes only final
      transactions that have expired, and in memory all of them ([Cleanup]).
    - Endpoints: the health store implements its history-based specification; selection finds
      an admissible endpoint whenever there is one and prefers healthy ones; an RPC call makes
      a bounded number of attempts and reaches a working endpoint within its failovers
      ([Health], [Selector], [Retry]).
    - Deviations: theorems that exhibit where the code does not do what its comments say, for
      instance the Sent transaction replaced by a NOOP whose original bytes are submitted, the
      Mined one that the circuit breaker keeps Mined for ever, the cancellation that
      broadcasts, the lane that a finished Stellar transaction keeps after a failed read
      ([StellarDeviations]), or the Solana transaction that is sent again after it was executed
      ([SolanaDeviations]).

    ** Bounds and fuel

    Loops run over lists, except five.  The sweep over a status index ([reconcile_loop]) and the
    pages of a cleanup ([status_cleanup_loop]) have the iteration limit of the source as their
    fuel.  The downward scan of the counter rewind ([scan_down]) gets as fuel the width of the
    region; every round removes at least one slot, and the
    lemma on it shows that the scan then covers the region.  The failover loop
    ([failover_loop]) gets [max_failovers + 2]; every round that goes on counts a failover, and
    the termination theorem shows that the fuel is never used up.  The tiers of the Stellar
    resubmission ladder ([tier_loop]) get twice the age in seconds; the theorem on the ladder
    shows that the tiers pass the age by then.  Widths are those of the
    source ([u64] nonces and counters, [u128] prices, [U256] costs); a theorem that needs a
    counter not to have reached the end of its range says so.

    ** What is not modelled

    The Solana and Stellar relayers (intake, gasless quotes and RPC methods, token swaps); the
    workers take the handlers of the networks other than EVM as a parameter.  Of the Solana
    checks those that only the RPC methods use; the ones that preparation joins ask the node one
    after the other, and which of several failures is reported is a choice of the environment.
    Of the Stellar transactions the
    conversion of single operations, the validation of user-paid transactions, token balances
    and the DEX services are answers of the environment.  The relayer, signer and network
    repositories, the gas price services, the queue back ends, the HTTP API
    (but for idempotent creation), signers, plugins and start-up.  The ladder's floating-point
    products are exact in the model, as they are in the code in the range of a transaction's
    lifetime.  Interleaving is at the
    granularity of a handler run; a handler runs on the stored version of its transaction.
    Idempotent requests and locks interleave at every access to the store.
    The Redis repository and counter are modelled call by call; commands of different calls are
    not interleaved, and a replica is read only where the source reads it.  The decoders read the
    documents that the encoders write; of the other forms that serde accepts, [TransactionJson]
    says which are left out.
    Timestamps are instants with an abstract printer and parser ([Chrono]). *)

From Stdlib Require Export ZArith Lia String Ascii Permutation Sorting.Sorted.
From stdpp Require Export base option list gmap strings.

Open Scope Z_scope.

(** ** Machine integers

    The release profile of the crate sets [overflow-checks = false], so [+], [-] and [*] on
    machine integers wrap.  A value of an unsigned type of width [w] is a [Z] in [0, 2^w); a
    signed value is a [Z] in [-2^(w-1), 2^(w-1)).  The operations below are the ones the code
    uses, each written at its width. *)

Definition u32_max : Z := 2 ^ 32 - 1.
Definition u64_max : Z := 2 ^ 64 - 1.
Definition u128_max : Z := 2 ^ 128 - 1.
Definition u256_max : Z := 2 ^ 256 - 1.
Definition i64_max : Z := 2 ^ 63 - 1.

(** [x as uN] of an out-of-range mathematical result: wrap-around. *)
Definition wrapu (w : Z) (x : Z) : Z := x mod 2 ^ w.

(** Two's complement wrap-around at width [w]. *)
Definition wrapi (w : Z) (x : Z) : Z := (x + 2 ^ (w - 1)) mod 2 ^ w - 2 ^ (w - 1).

Definition in_u (w : Z) (x : Z) : Prop := 0 <= x < 2 ^ w.

(** [saturating_add], [saturating_sub] and [saturating_mul] of an unsigned type with maximum
    [mx]. *)
Definition sat_add (mx x y : Z) : Z := Z.min mx (x + y).
Definition sat_sub (x y : Z) : Z := Z.max 0 (x - y).
Definition sat_mul (mx x y : Z) : Z := Z.min mx (x * y).

(** [checked_mul] and [checked_add]. *)
Definition checked (mx x : Z) : option Z := if x <=? mx then Some x else None.

Lemma wrapu_small w x : in_u w x -> wrapu w x = x.
Proof. intros H. apply Z.mod_small, H. Qed.

Lemma wrapu_in_u w x : 0 <= w -> in_u w (wrapu w x).
Proof. intros H. apply Z.mod_pos_bound. apply Z.pow_pos_nonneg; lia. Qed.

Lemma wrapi_small w x : 0 < w -> - 2 ^ (w - 1) <= x < 2 ^ (w - 1) -> wrapi w x = x.
Proof.
  intros Hw H. unfold wrapi. rewrite Z.mod_small; [lia|].
  replace (2 ^ w) with (2 * 2 ^ (w - 1)); [lia|].
  rewrite <- Z.pow_succ_r by lia. f_equal. lia.
Qed.

(** ** Results

    [Result<A, E>] of the source. *)

Inductive result (E A : Type) : Type :=
| Ok (a : A)
| Err (e : E).
Arguments Ok {E A} a.
Arguments Err {E A} e.

Definition is_ok {E A} (r : result E A) : bool :=
  match r with Ok _ => true | Err _ => false end.

Definition result_map_err {E E' A} (f : E -> E') (r : result E A) : result E' A :=
  match r with Ok a => Ok a | Err e => Err (f e) end.

Definition result_bind {E A B} (r : result E A) (k : A -> result E B) : result E B :=
  match r with Ok a => k a | Err e => Err e end.

Definition ok_or {E A} (o : option A) (e : E) : result E A :=
  match o with Some a => Ok a | None => Err e end.

(** [Result::ok()] *)
Definition result_ok {E A} (r : result E A) : option A :=
  match r with Ok a => Some a | Err _ => None end.

#[global] Instance result_inhabited E A `{Inhabited A} : Inhabited (result E A) :=
  populate (Ok inhabitant).

(** ** The effect monad

    An [async fn] returning [Result<A, E>] and acting on the stores, queues and remote
    services is a function from a world to a result and the world after it.  An error keeps
    the effects performed before it, as the code does. *)

Definition M (W E A : Type) : Type := W -> result E A * W.

Definition retM {W E A} (a : A) : M W E A := fun w => (Ok a, w).
Definition failM {W E A} (e : E) : M W E A := fun w => (Err e, w).

Definition bindM {W E A B} (c : M W E A) (k : A -> M W E B) : M W E B :=
  fun w => match c w with
           | (Ok a, w') => k a w'
           | (Err e, w') => (Err e, w')
           end.

(** Observe a [Result] instead of propagating it with [?]. *)
Definition try_ {W E E' A} (c : M W E A) : M W E' (result E A) :=
  fun w => let '(r, w') := c w in (Ok r, w').

Definition liftM {W E A} (r : result E A) : M W E A := fun w => (r, w).

Definition map_errM {W E E' A} (f : E -> E') (c : M W E A) : M W E' A :=
  fun w => let '(r, w') := c w in (result_map_err f r, w').

Definition getsM {W E A} (f : W -> A) : M W E A := fun w => (Ok (f w), w).
Definition modifyM {W E} (f : W -> W) : M W E unit := fun w => (Ok tt, f w).

Declare Scope relayer_scope.
Delimit Scope relayer_scope with relayer.
Notation "'let*' x := c 'in' k" := (bindM c (fun x => k))
  (at level 10, x pattern, c at level 100, k at level 200)
  : relayer_scope.
Notation "'do*' c 'in' k" := (bindM c (fun _ => k))
  (at level 10, c at level 100, k at level 200) : relayer_scope.
Notation "'let?' x := c 'in' k" := (result_bind c (fun x => k))
  (at level 10, x pattern, c at level 100, k at level 200)
  : relayer_scope.
Open Scope relayer_scope.

(** ** A program logic for the monad

    [wp c Q w]: running [c] from [w] ends in a result and a world satisfying [Q].  As [c] is a
    total function this is total correctness. *)

Definition wp {W E A} (c : M W E A) (Q : result E A -> W -> Prop) (w : W) : Prop :=
  Q (fst (c w)) (snd (c w)).

(** [preserves R c]: every run of [c], failing or not, relates its initial and final worlds
    by [R]. *)
Definition preserves {W E A} (R : W -> W -> Prop) (c : M W E A) : Prop :=
  forall w, R w (snd (c w)).

(** [ensures P c]: every successful run of [c] returns a value satisfying [P]. *)
Definition ensures {W E A} (P : A -> Prop) (c : M W E A) : Prop :=
  forall w a w', c w = (Ok a, w') -> P a.

Section Logic.
Context {W E : Type}.

Lemma wp_mono {A} (c : M W E A) (P Q : result E A -> W -> Prop) w :
  (forall r w', P r w' -> Q r w') -> wp c P w -> wp c Q w.
Proof. firstorder. Qed.

Lemma wp_ret {A} (a : A) (Q : result E A -> W -> Prop) w : Q (Ok a) w -> wp (retM a) Q w.
Proof. easy. Qed.

Lemma wp_fail {A} e (Q : result E A -> W -> Prop) w : Q (Err e) w -> wp (failM e) Q w.
Proof. easy. Qed.

Lemma wp_lift {A} (r : result E A) (Q : result E A -> W -> Prop) w :
  Q r w -> wp (liftM r) Q w.
Proof. easy. Qed.

Lemma wp_bind {A B} (c : M W E A) (k : A -> M W E B) (Q : result E B -> W -> Prop) w :
  wp c (fun r w' => match r with
                    | Ok a => wp (k a) Q w'
                    | Err e => Q (Err e) w'
                    end) w -> wp (bindM c k) Q w.
Proof. unfold wp, bindM. destruct (c w) as [[a|e] w']; easy. Qed.

Lemma wp_try {A E'} (c : M W E' A) (Q : result E (result E' A) -> W -> Prop) w :
  wp c (fun r w' => Q (Ok r) w') w -> wp (try_ c) Q w.
Proof. unfold wp, try_. destruct (c w); easy. Qed.

Lemma wp_map_err {A E'} (f : E' -> E) (c : M W E' A) (Q : result E A -> W -> Prop) w :
  wp c (fun r w' => Q (result_map_err f r) w') w -> wp (map_errM f c) Q w.
Proof. unfold wp, map_errM. destruct (c w); easy. Qed.

Lemma wp_gets {A} (f : W -> A) (Q : result E A -> W -> Prop) w :
  Q (Ok (f w)) w -> wp (getsM f) Q w.
Proof. easy. Qed.

Lemma wp_modify (f : W -> W) (Q : result E unit -> W -> Prop) w :
  Q (Ok tt) (f w) -> wp (modifyM f) Q w.
Proof. easy. Qed.

(** A [preserves] fact used inside a [wp] proof. *)
Lemma wp_preserves {A} (R : W -> W -> Prop) (c : M W E A) w :
  preserves R c -> wp c (fun _ w' => R w w') w.
Proof. intros H. exact (H w). Qed.

(** A specification of the successful runs, at a run that succeeds. *)
Lemma wp_ok_elim {A} (c : M W E A) (P : A -> W -> Prop) w :
  wp c (fun r w' => forall a, r = Ok a -> P a w') w -> is_ok (fst (c w)) = true ->
  exists a, fst (c w) = Ok a /\ P a (snd (c w)).
Proof. unfold wp. destruct (c w) as [[a|e] w']; simpl; [|done]. eauto. Qed.

Lemma wp_conj {A} (c : M W E A) (P Q : result E A -> W -> Prop) w :
  wp c P w -> wp c Q w -> wp c (fun r w' => P r w' /\ Q r w') w.
Proof. unfold wp. easy. Qed.
End Logic.

Section Preserves.
Context {W : Type} (R : W -> W -> Prop) `{!PreOrder R}.

Lemma preserves_ret {E A} (a : A) : preserves R (retM (E := E) a).
Proof. intros w. reflexivity. Qed.

Lemma preserves_fail {E A} (e : E) : preserves R (failM (A := A) e).
Proof. intros w. reflexivity. Qed.

Lemma preserves_lift {E A} (r : result E A) : preserves R (liftM r).
Proof. intros w. reflexivity. Qed.

Lemma preserves_gets {E A} (f : W -> A) : preserves R (getsM (E := E) f).
Proof. intros w. reflexivity. Qed.

Lemma preserves_bind {E A B} (c : M W E A) (k : A -> M W E B) :
  preserves R c -> (forall a, preserves R (k a)) -> preserves R (bindM c k).
Proof.
  intros Hc Hk w. unfold bindM. specialize (Hc w).
  destruct (c w) as [[a|e] w']; simpl in *; [|easy].
  etransitivity; [exact Hc | apply Hk].
Qed.

Lemma preserves_try {E E' A} (c : M W E A) : preserves R c -> preserves R (try_ (E' := E') c).
Proof. intros Hc w. specialize (Hc w). unfold try_. destruct (c w); easy. Qed.

Lemma preserves_map_err {E E' A} (f : E -> E') (c : M W E A) :
  preserves R c -> preserves R (map_errM f c).
Proof. intros Hc w. specialize (Hc w). unfold map_errM. destruct (c w); easy. Qed.

Lemma preserves_modify {E} (f : W -> W) :
  (forall w, R w (f w)) -> preserves R (modifyM (E := E) f).
Proof. intros H w. apply H. Qed.
End Preserves.

Lemma preserves_weaken {W E A} (R R' : W -> W -> Prop) (c : M W E A) :
  (forall w w', R w w' -> R' w w') -> preserves R c -> preserves R' c.
Proof. intros H Hc w. apply H, Hc. Qed.

(** ** Loops *)

Section Loops.
Context {W E A B : Type}.

(** A [for] loop that threads an accumulator and may return early with an error. *)
Fixpoint foldM (f : B -> A -> M W E B) (b : B) (l : list A) : M W E B :=
  match l with
  | [] => retM b
  | x :: l => let* b' := f b x in foldM f b' l
  end.

Lemma preserves_foldM_in (R : W -> W -> Prop) `{!PreOrder R} (f : B -> A -> M W E B) b l :
  (forall b x, x ∈ l -> preserves R (f b x)) -> preserves R (foldM f b l).
Proof.
  revert b. induction l as [|x l IH]; intros b Hf; simpl; [by apply preserves_ret|].
  apply preserves_bind; [done|by apply Hf; left|]. intros b'. apply IH. intros ???. apply Hf. by right.
Qed.

Lemma preserves_foldM (R : W -> W -> Prop) `{!PreOrder R} (f : B -> A -> M W E B) b l :
  (forall b x, preserves R (f b x)) -> preserves R (foldM f b l).
Proof. intros Hf. apply preserves_foldM_in; auto. Qed.
End Loops.

(** ** Invariants

    [keeps I c Q]: run from a world satisfying [I], [c] ends in one satisfying [I], whether it
    fails or not, and the values it returns satisfy [Q]. *)

Definition keeps {W E A} (I : W -> Prop) (c : M W E A) (Q : A -> Prop) : Prop :=
  forall w, I w -> I (snd (c w)) /\ forall a, fst (c w) = Ok a -> Q a.

Section Keeps.
Context {W : Type} (I : W -> Prop).

Lemma keeps_ret {E A} (a : A) (Q : A -> Prop) : Q a -> keeps I (retM (E := E) a) Q.
Proof. intros Ha w Hw. split; [done|]. by intros ? [= <-]. Qed.

Lemma keeps_fail {E A} (e : E) (Q : A -> Prop) : keeps I (failM e) Q.
Proof. intros w Hw. done. Qed.

Lemma keeps_lift {E A} (r : result E A) (Q : A -> Prop) :
  (forall a, r = Ok a -> Q a) -> keeps I (liftM r) Q.
Proof. intros Hr w Hw. split; [done|]. simpl. by apply Hr. Qed.

Lemma keeps_gets {E A} (f : W -> A) (Q : A -> Prop) :
  (forall w, I w -> Q (f w)) -> keeps I (getsM (E := E) f) Q.
Proof. intros Hf w Hw. split; [done|]. intros a [= <-]. by apply Hf. Qed.

Lemma keeps_bind {E A B} (c : M W E A) (k : A -> M W E B) (P : A -> Prop) (Q : B -> Prop) :
  keeps I c P -> (forall a, P a -> keeps I (k a) Q) -> keeps I (bindM c k) Q.
Proof.
  intros Hc Hk w Hw. unfold bindM. destruct (Hc w Hw) as [Hw' Ha].
  destruct (c w) as [[a|e] w']; simpl in *; [|done]. apply Hk; auto.
Qed.

Lemma keeps_try {E E' A} (c : M W E A) (P : A -> Prop) :
  keeps I c P -> keeps I (try_ (E' := E') c) (fun r => forall a, r = Ok a -> P a).
Proof.
  intros Hc w Hw. unfold try_. destruct (Hc w Hw) as [Hw' Ha].
  destruct (c w) as [r w']; simpl in *. split; [done|]. by intros ? [= <-].
Qed.

Lemma keeps_map_err {E E' A} (f : E -> E') (c : M W E A) (Q : A -> Prop) :
  keeps I c Q -> keeps I (map_errM f c) Q.
Proof.
  intros Hc w Hw. unfold map_errM. destruct (Hc w Hw) as [Hw' Ha].
  destruct (c w) as [[a|e] w']; simpl in *; split; try done. intros ? [= <-]. by apply Ha.
Qed.

Lemma keeps_mono {E A} (c : M W E A) (P Q : A -> Prop) :
  keeps I c P -> (forall a, P a -> Q a) -> keeps I c Q.
Proof. intros Hc HPQ w Hw. destruct (Hc w Hw). eauto. Qed.

Lemma keeps_foldM {E A B} (f : B -> A -> M W E B) (b : B) (l : list A) (Q : B -> Prop) :
  Q b -> (forall b x, Q b -> keeps I (f b x) Q) -> keeps I (foldM f b l) Q.
Proof.
  intros Hb Hf. revert b Hb. induction l as [|x l IH]; intros b Hb; simpl.
  - by apply keeps_ret.
  - eapply keeps_bind; [by apply Hf | auto].
Qed.
End Keeps.

(** A relation preserved by every run gives an invariant kept. *)
Lemma keeps_of_preserves {W E A} (I : W -> Prop) (R : W -> W -> Prop) (c : M W E A) :
  (forall w w', R w w' -> I w -> I w') -> preserves R c -> keeps I c (fun _ => True).
Proof. intros HR Hc w Hw. split; [|done]. eapply HR; [apply Hc | done]. Qed.

(** A program that keeps [I], followed by a continuation run under [I]. *)
Lemma wp_bind_keeps {W E A B} (I : W -> Prop) (c : M W E A) (P : A -> Prop)
    (k : A -> M W E B) (Q : result E B -> W -> Prop) w :
  keeps I c P -> I w -> (forall e w', I w' -> Q (Err e) w') ->
  (forall a w', P a -> I w' -> wp (k a) Q w') -> wp (bindM c k) Q w.
Proof.
  intros Hc Hw He Hk. apply wp_bind. unfold wp at 1. destruct (Hc w Hw) as [Hw' Ha].
  destruct (c w) as [[a|e] w']; simpl in *; auto.
Qed.

Lemma wp_keeps {W E A} (I : W -> Prop) (c : M W E A) (P : A -> Prop)
    (Q : result E A -> W -> Prop) w :
  keeps I c P -> I w -> (forall e w', I w' -> Q (Err e) w') ->
  (forall a w', P a -> I w' -> Q (Ok a) w') -> wp c Q w.
Proof.
  intros Hc Hw He Ha. unfold wp. destruct (Hc w Hw) as [Hw' HP].
  destruct (c w) as [[a|e] w']; simpl in *; auto.
Qed.


(** ** Automation

    [preserves_db] holds the preservation lemmas of the operations; the tactic [preserve]
    walks a program, splitting binds and conditionals, and closes the leaves from it. *)

Create HintDb preserves_db.
#[export] Hint Resolve preserves_ret preserves_fail preserves_lift preserves_gets
  preserves_foldM : preserves_db.
#[export] Hint Extern 0 (PreOrder _) => exact _ : preserves_db.

Ltac case_program :=
  match goal with
  | |- context [match ?x with _ => _ end] =>
      lazymatch x with
      | context [match _ with _ => _ end] => fail
      | _ => destruct x eqn:?
      end
  end.

Ltac preserve_step :=
  first
    [ progress intros
    | solve [eauto 2 with preserves_db]
    | lazymatch goal with
      | |- preserves _ (bindM _ _) => apply preserves_bind; [exact _| |intros ?]
      | |- preserves _ (try_ _) => apply preserves_try
      | |- preserves _ (map_errM _ _) => apply preserves_map_err
      | |- preserves _ (foldM _ _ _) => apply preserves_foldM; [exact _|]
      | |- preserves _ (modifyM _) => apply preserves_modify; intros ?
      | |- preserves _ (if ?b then _ else _) => destruct b eqn:?
      | |- preserves _ (match ?x with _ => _ end) => destruct x eqn:?
      end ].

Ltac preserve := repeat preserve_step.

(** Symbolic execution: one step of a [wp] goal. *)
Ltac wp_step :=
  lazymatch goal with
  | |- wp (bindM _ _) _ _ => apply wp_bind
  | |- wp (retM _) _ _ => apply wp_ret
  | |- wp (failM _) _ _ => apply wp_fail
  | |- wp (liftM _) _ _ => apply wp_lift
  | |- wp (try_ _) _ _ => apply wp_try
  | |- wp (map_errM _ _) _ _ => apply wp_map_err
  | |- wp (getsM _) _ _ => apply wp_gets
  | |- wp (modifyM _) _ _ => apply wp_modify
  | |- wp (if ?b then _ else _) _ _ => destruct b eqn:?
  | |- wp (match ?x with _ => _ end) _ _ => destruct x eqn:?
  | |- wp (let _ := _ in _) _ _ => cbv zeta
  end; cbv beta; cbn [result_map_err fst snd].

(** Split a boolean hypothesis or goal into its atoms. *)
Ltac bool_simpl :=
  repeat match goal with
  | H : _ && _ = true |- _ => apply andb_true_iff in H as [? ?]
  | H : _ || _ = false |- _ => apply orb_false_iff in H as [? ?]
  | H : negb _ = true |- _ => apply negb_true_iff in H
  | H : negb _ = false |- _ => apply negb_false_iff in H
  | H : bool_decide _ = true |- _ => apply bool_decide_eq_true in H
  | H : bool_decide _ = false |- _ => apply bool_decide_eq_false in H
  end.

(** ** Strings

    Rust strings are byte strings here.  [contains], [to_lowercase] and [starts_with] are the
    standard library's; lower-casing acts on the ASCII letters. *)

Fixpoint str_contains (hay needle : string) : bool :=
  String.prefix needle hay ||
  match hay with
  | EmptyString => false
  | String _ hay' => str_contains hay' needle
  end.

Definition starts_with (s p : string) : bool := String.prefix p s.

Definition lower_ascii (c : ascii) : ascii :=
  let n := N_of_ascii c in
  if (65 <=? n)%N && (n <=? 90)%N then ascii_of_N (n + 32)%N else c.

Fixpoint to_lowercase (s : string) : string :=
  match s with
  | EmptyString => EmptyString
  | String c s' => String (lower_ascii c) (to_lowercase s')
  end.

Fixpoint str_drop (n : nat) (s : string) : string :=
  match n, s with
  | S n', String _ s' => str_drop n' s'
  | _, _ => s
  end.

Fixpoint str_take (n : nat) (s : string) : string :=
  match n, s with
  | S n', String c s' => String c (str_take n' s')
  | _, _ => EmptyString
  end.

Definition strip_prefix (s p : string) : option string :=
  if starts_with s p then Some (str_drop (String.length p) s) else None.

Lemma string_app_assoc a b c : a +:+ (b +:+ c) = (a +:+ b) +:+ c.
Proof.
  induction a as [|x a IH]; [done|].
  change (String x (a +:+ (b +:+ c)) = String x ((a +:+ b) +:+ c)). by rewrite IH.
Qed.

(** Strings joined by colons, as Redis keys are. *)
Fixpoint no_colon (s : string) : bool :=
  match s with
  | EmptyString => true
  | String c s' => negb (Ascii.eqb c ":") && no_colon s'
  end.

Lemma app_colon_inj a b a' b' :
  no_colon a = true -> no_colon a' = true ->
  a +:+ ":" +:+ b = a' +:+ ":" +:+ b' -> a = a' /\ b = b'.
Proof.
  revert a'. induction a as [|c a IH]; intros [|c' a'] Ha Ha' Heq; simpl in *; bool_simpl.
  - by injection Heq.
  - injection Heq as <- _. done.
  - injection Heq as -> _. done.
  - injection Heq as -> Heq. destruct (IH a') as [-> ->]; done.
Qed.

(** ** Stable sorting

    [sorted_by] of itertools (a stable sort by a comparison function), as insertion sort. *)

Section Sort.
Context {A : Type} (cmp : A -> A -> comparison).

Fixpoint insert_by (x : A) (l : list A) : list A :=
  match l with
  | [] => [x]
  | y :: l' => match cmp x y with
               | Gt => y :: insert_by x l'
               | _ => x :: y :: l'
               end
  end.

Fixpoint sorted_by (l : list A) : list A :=
  match l with
  | [] => []
  | x :: l' => insert_by x (sorted_by l')
  end.

Lemma insert_by_perm x l : insert_by x l ≡ₚ x :: l.
Proof.
  induction l as [|y l IH]; simpl; [done|].
  destruct (cmp x y); try done. rewrite IH. apply Permutation_swap.
Qed.

Lemma sorted_by_perm l : sorted_by l ≡ₚ l.
Proof. induction l as [|x l IH]; simpl; [done|]. by rewrite insert_by_perm, IH. Qed.

(** [cmp] behaves as a total preorder. *)
Hypothesis cmp_antisym : forall x y, cmp y x = CompOpp (cmp x y).

Lemma insert_by_sorted x l :
  Sorted (fun a b => cmp a b <> Gt) l -> Sorted (fun a b => cmp a b <> Gt) (insert_by x l).
Proof.
  induction 1 as [|y l Hs IH Hd]; simpl; [by repeat constructor|].
  destruct (cmp x y) eqn:Hxy; try by (repeat constructor; try congruence).
  constructor; [done|].
  assert (cmp y x <> Gt) by (rewrite cmp_antisym, Hxy; done).
  destruct l as [|z l]; simpl; [by constructor|].
  inversion Hd; subst. destruct (cmp x z); by constructor.
Qed.

Lemma sorted_by_sorted l : Sorted (fun a b => cmp a b <> Gt) (sorted_by l).
Proof. induction l; simpl; [constructor | by apply insert_by_sorted]. Qed.

Lemma sorted_by_idemp l : sorted_by (sorted_by l) = sorted_by l.
Proof.
  induction (sorted_by_sorted l) as [|x l' _ IH Hd]; simpl; [done|]. rewrite IH.
  destruct Hd as [|y l' Hxy]; simpl; [done|]. by destruct (cmp x y).
Qed.
End Sort.

Lemma Permutation_filter_bool {A} (f : A -> bool) (l1 l2 : list A) :
  l1 ≡ₚ l2 -> List.filter f l1 ≡ₚ List.filter f l2.
Proof.
  induction 1 as [|x l1 l2 _ IH|x y l|l1 l2 l3 _ IH1 _ IH2]; simpl; [done| | |].
  - destruct (f x); [by rewrite IH | done].
  - destruct (f x), (f y); try done. apply Permutation_swap.
  - by etransitivity.
Qed.

(** Lexicographic combination: [a.cmp(b).then_with(|| c)]. *)
Definition then_with (c1 c2 : comparison) : comparison :=
  match c1 with Eq => c2 | _ => c1 end.

(** ** HashMap iteration

    [HashMap::values] yields the values in an unspecified order: a parameter of the model,
    of which only the documented fact is used, that every value is visited exactly once. *)

Class HashOrder (V : Type) := {
  hash_values : gmap string V -> list V;
  hash_values_perm : forall m, hash_values m ≡ₚ (map_to_list m).*2;
}.

Definition map_order_instance (V : Type) : HashOrder V :=
  {| hash_values := fun m => (map_to_list m).*2; hash_values_perm := fun m => reflexivity _ |}.

Lemma elem_of_hash_values `{HashOrder V} (m : gmap string V) v :
  v ∈ hash_values m <-> exists k, m !! k = Some v.
Proof.
  rewrite hash_values_perm, list_elem_of_fmap. split.
  - intros ([k v'] & -> & Hin). exists k. by apply elem_of_map_to_list.
  - intros [k Hk]. exists (k, v). split; [done|]. by apply elem_of_map_to_list.
Qed.
