(* ===== verification/Decimal.v ===== *)
(** * Decimal strings

    Integers as they are written to queues, logs and Redis: [Display] and [FromStr] of the
    unsigned machine integers, and the comparison of canonical decimals by length and then
    byte order that the Lua scripts of the Redis counter use instead of numbers. *)

From S2P Require Import Prelude.
Open Scope Z_scope.

(** Digits, most significant first; [fuel] bounds their number. *)
Fixpoint digits_fuel (fuel : nat) (z : Z) (acc : list Z) : list Z :=
  match fuel with
  | O => acc
  | S f => if z <? 10 then z :: acc else digits_fuel f (z / 10) (z mod 10 :: acc)
  end.

(** 80 digits hold every [u256]. *)
Definition max_digits : nat := 80.

Definition digits (z : Z) : list Z := digits_fuel max_digits z [].

Definition digit_char (d : Z) : ascii := ascii_of_N (Z.to_N (48 + d)).

Fixpoint string_of_digits (l : list Z) : string :=
  match l with
  | [] => EmptyString
  | d :: l' => String (digit_char d) (string_of_digits l')
  end.

(** [to_string()] of an unsigned integer. *)
Definition print_dec (z : Z) : string := string_of_digits (digits z).

Definition char_digit (c : ascii) : option Z :=
  let n := Z.of_N (N_of_ascii c) in
  if (48 <=? n) && (n <=? 57) then Some (n - 48) else None.

Fixpoint digits_of_string (s : string) : option (list Z) :=
  match s with
  | EmptyString => Some []
  | String c s' =>
      match char_digit c, digits_of_string s' with
      | Some d, Some l => Some (d :: l)
      | _, _ => None
      end
  end.

Definition digits_value (l : list Z) : Z := fold_left (fun v d => v * 10 + d) l 0.

(** [s.parse::<u64>()]: an optional plus sign, at least one digit, no overflow. *)
Definition parse_unsigned (mx : Z) (s : string) : option Z :=
  let body := match s with
              | String c s' => if Ascii.eqb c "+" then s' else s
              | EmptyString => s
              end in
  match digits_of_string body with
  | Some (d :: l) => checked mx (digits_value (d :: l))
  | _ => None
  end.

Definition parse_u64 : string -> option Z := parse_unsigned u64_max.

(** [numlt] of the Lua scripts: shorter is smaller, equal lengths compare bytewise. *)
Definition numlt (a b : string) : bool :=
  if negb (String.length a =? String.length b)%nat
  then (String.length a <? String.length b)%nat
  else match String.compare a b with Lt => true | _ => false end.

(** ** Values of digit lists *)

Definition is_digit (d : Z) : Prop := 0 <= d <= 9.

Lemma fold_digits_acc l v :
  fold_left (fun v d => v * 10 + d) l v = v * 10 ^ Z.of_nat (length l) + digits_value l.
Proof.
  unfold digits_value. revert v. induction l as [|d l IH]; intros v; cbn [fold_left length]; [lia|].
  rewrite IH, (IH (0 * 10 + d)). rewrite Nat2Z.inj_succ, Z.pow_succ_r by lia. lia.
Qed.

Lemma digits_value_cons d l :
  digits_value (d :: l) = d * 10 ^ Z.of_nat (length l) + digits_value l.
Proof. unfold digits_value at 1. simpl. apply fold_digits_acc. Qed.

Lemma digits_value_bound l :
  Forall is_digit l -> 0 <= digits_value l < 10 ^ Z.of_nat (length l).
Proof.
  induction 1 as [|d l Hd _ IH]; [done|].
  rewrite digits_value_cons. simpl length. rewrite Nat2Z.inj_succ, Z.pow_succ_r by lia.
  unfold is_digit in Hd. nia.
Qed.

Lemma digits_fuel_spec fuel z acc :
  0 <= z < 10 ^ Z.of_nat fuel -> Forall is_digit acc ->
  Forall is_digit (digits_fuel fuel z acc) /\
  digits_value (digits_fuel fuel z acc) = z * 10 ^ Z.of_nat (length acc) + digits_value acc.
Proof.
  revert z acc. induction fuel as [|f IH]; intros z acc Hz Hacc; cbn [digits_fuel].
  - change (10 ^ Z.of_nat 0) with 1 in Hz. split; [done|]. replace z with 0 by lia. lia.
  - destruct (Z.ltb_spec z 10).
    + split; [constructor; [unfold is_digit; lia | done] | apply digits_value_cons].
    + rewrite Nat2Z.inj_succ, Z.pow_succ_r in Hz by lia.
      pose proof (Z.mod_pos_bound z 10 ltac:(lia)) as Hm.
      destruct (IH (z / 10) (z mod 10 :: acc)) as [Hd Hv].
      * split; [apply Z.div_pos; lia | apply Z.div_lt_upper_bound; lia].
      * constructor; [unfold is_digit; lia | done].
      * split; [done|]. rewrite Hv, digits_value_cons. simpl length.
        rewrite Nat2Z.inj_succ, Z.pow_succ_r by lia.
        rewrite (Z.div_mod z 10) at 3 by lia. nia.
Qed.

Definition printable (z : Z) : Prop := 0 <= z < 10 ^ Z.of_nat max_digits.

Lemma digits_spec z :
  printable z -> Forall is_digit (digits z) /\ digits_value (digits z) = z.
Proof.
  intros Hz. destruct (digits_fuel_spec max_digits z [] Hz) as [Hd Hv]; [constructor|].
  split; [done|]. unfold digits. rewrite Hv. unfold digits_value. simpl. lia.
Qed.

(** No leading zero: the leading digit is positive, unless the number is zero. *)
Lemma digits_fuel_head fuel z acc :
  0 <= z < 10 ^ Z.of_nat fuel -> (0 < fuel)%nat ->
  exists d l, digits_fuel fuel z acc = d :: l /\ (0 < d \/ (z = 0 /\ d = 0 /\ l = acc)).
Proof.
  revert z acc. induction fuel as [|f IH]; intros z acc Hz Hf; [lia|]. cbn [digits_fuel].
  destruct (Z.ltb_spec z 10) as [Hlt|Hge].
  - exists z, acc. split; [done|]. destruct (decide (z = 0)); [by right | left; lia].
  - rewrite Nat2Z.inj_succ, Z.pow_succ_r in Hz by lia.
    assert (0 < f)%nat as Hf'.
    { destruct f; [change (10 ^ Z.of_nat 0) with 1 in Hz; lia | lia]. }
    assert (1 <= z / 10) by (apply Z.div_le_lower_bound; lia).
    destruct (IH (z / 10) (z mod 10 :: acc)) as (d & l & -> & Hd); [|done|].
    { split; [lia | apply Z.div_lt_upper_bound; lia]. }
    exists d, l. split; [done|]. left. destruct Hd as [Hd|[Hd _]]; lia.
Qed.

Lemma digits_head z :
  printable z -> exists d l, digits z = d :: l /\ (0 < d \/ (d = 0 /\ l = [])).
Proof.
  intros Hz. destruct (digits_fuel_head max_digits z [] Hz) as (d & l & He & Hd);
    [unfold max_digits; lia|].
  exists d, l. split; [exact He|]. destruct Hd as [?|(_ & ? & ?)]; auto.
Qed.

(** ** Strings of digits *)

Lemma digit_char_ascii d : is_digit d -> Z.of_N (N_of_ascii (digit_char d)) = 48 + d.
Proof.
  intros Hd. unfold digit_char. rewrite N_ascii_embedding; unfold is_digit in Hd; lia.
Qed.

Lemma char_digit_char d : is_digit d -> char_digit (digit_char d) = Some d.
Proof.
  intros Hd. unfold char_digit. rewrite digit_char_ascii by done. unfold is_digit in Hd.
  rewrite (proj2 (Z.leb_le _ _)), (proj2 (Z.leb_le _ _)) by lia. simpl. f_equal. lia.
Qed.

Lemma digits_of_string_of_digits l :
  Forall is_digit l -> digits_of_string (string_of_digits l) = Some l.
Proof. induction 1 as [|d l Hd _ IH]; simpl; [done|]. by rewrite char_digit_char, IH. Qed.

Lemma string_of_digits_length l : String.length (string_of_digits l) = length l.
Proof. induction l; simpl; congruence. Qed.

Lemma digit_char_compare d e :
  is_digit d -> is_digit e -> Ascii.compare (digit_char d) (digit_char e) = (d ?= e).
Proof.
  intros Hd He. unfold Ascii.compare. rewrite <- N2Z.inj_compare.
  rewrite !digit_char_ascii by done. apply Zcompare_plus_compat.
Qed.

Lemma string_of_digits_compare l1 l2 :
  length l1 = length l2 -> Forall is_digit l1 -> Forall is_digit l2 ->
  String.compare (string_of_digits l1) (string_of_digits l2) =
  (digits_value l1 ?= digits_value l2).
Proof.
  intros Hlen H1. revert l2 Hlen. induction H1 as [|d l1 Hd Hl1 IH]; intros [|e l2] Hlen H2;
    simplify_eq/=; [done|].
  inversion H2 as [|?? He Hl2]; subst. rewrite digit_char_compare by done.
  rewrite !digits_value_cons, Hlen.
  pose proof (digits_value_bound _ Hl1) as B1. pose proof (digits_value_bound _ Hl2) as B2.
  rewrite Hlen in B1.
  destruct (Z.compare_spec d e) as [->|Hlt|Hgt].
  - rewrite IH by done. symmetry. apply Zcompare_plus_compat.
  - symmetry. apply Z.compare_lt_iff. nia.
  - symmetry. apply Z.compare_gt_iff. nia.
Qed.

(** ** Printing, parsing and comparing *)

Lemma u64_printable z : 0 <= z <= u64_max -> printable z.
Proof.
  intros Hz. unfold printable. split; [lia|].
  apply Z.le_lt_trans with u64_max; [lia | by vm_compute].
Qed.

Lemma parse_print_unsigned mx z :
  printable z -> z <= mx -> parse_unsigned mx (print_dec z) = Some z.
Proof.
  intros Hz Hmx. destruct (digits_spec z Hz) as [Hd Hv].
  destruct (digits_head z Hz) as (d & l & He & _).
  unfold parse_unsigned, print_dec. rewrite He in *. cbn [string_of_digits].
  assert (is_digit d) as Hd0 by by inversion Hd.
  assert (Ascii.eqb (digit_char d) "+" = false) as Hne.
  { destruct (Ascii.eqb_spec (digit_char d) "+") as [Hc|]; [|done].
    pose proof (digit_char_ascii d Hd0) as Hn. rewrite Hc in Hn. change (43 = 48 + d) in Hn.
    unfold is_digit in Hd0. lia. }
  rewrite Hne. change (String (digit_char d) (string_of_digits l))
    with (string_of_digits (d :: l)).
  rewrite digits_of_string_of_digits, Hv by done. unfold checked.
  by rewrite (proj2 (Z.leb_le _ _)).
Qed.

Lemma print_dec_inj a b : printable a -> printable b -> print_dec a = print_dec b -> a = b.
Proof.
  intros Ha Hb Heq.
  assert (Some a = Some b) as [= ?]; [|done].
  rewrite <- (parse_print_unsigned (10 ^ Z.of_nat max_digits) a) by (done || apply Z.lt_le_incl, Ha).
  rewrite <- (parse_print_unsigned (10 ^ Z.of_nat max_digits) b) by (done || apply Z.lt_le_incl, Hb).
  by rewrite Heq.
Qed.

(** A canonical decimal of [n] digits is at least [10^(n-1)], unless it is zero. *)
Lemma digits_lower z :
  printable z -> z <> 0 -> 10 ^ (Z.of_nat (length (digits z)) - 1) <= z.
Proof.
  intros Hz Hne. destruct (digits_spec z Hz) as [Hd Hv].
  destruct (digits_head z Hz) as (d & l & He & Hh). rewrite He in *.
  rewrite digits_value_cons in Hv. inversion Hd as [|?? Hd0 Hl]; subst.
  pose proof (digits_value_bound _ Hl).
  destruct Hh as [Hpos|[-> ->]]; [|unfold digits_value in Hne; simpl in Hne; lia].
  simpl length. rewrite Nat2Z.inj_succ.
  replace (Z.succ (Z.of_nat (length l)) - 1) with (Z.of_nat (length l)) by lia. nia.
Qed.

Lemma digits_upper z : printable z -> z < 10 ^ Z.of_nat (length (digits z)).
Proof.
  intros Hz. destruct (digits_spec z Hz) as [Hd Hv].
  rewrite <- Hv at 1. by apply digits_value_bound.
Qed.

Lemma digits_length_pos z : printable z -> (1 <= length (digits z))%nat.
Proof. intros Hz. destruct (digits_head z Hz) as (d & l & -> & _). simpl. lia. Qed.

Lemma digits_length_lt a b :
  printable a -> printable b -> (length (digits a) < length (digits b))%nat -> a < b.
Proof.
  intros Ha Hb Hlt. pose proof (digits_upper a Ha). pose proof (digits_length_pos a Ha).
  assert (length (digits 0) = 1%nat) as Hzero by reflexivity.
  destruct (decide (b = 0)) as [->|Hb0]; [lia|].
  pose proof (digits_lower b Hb Hb0).
  assert (10 ^ Z.of_nat (length (digits a)) <= 10 ^ (Z.of_nat (length (digits b)) - 1))
    by (apply Z.pow_le_mono_r; lia).
  lia.
Qed.

(** The string comparison of the Lua scripts is the comparison of the numbers: it does not
    go through Lua's double-precision numbers, so it is exact on the whole range. *)
Lemma numlt_correct a b :
  printable a -> printable b -> numlt (print_dec a) (print_dec b) = (a <? b).
Proof.
  intros Ha Hb. unfold numlt, print_dec. rewrite !string_of_digits_length.
  destruct (Nat.eqb_spec (length (digits a)) (length (digits b))) as [He|Hne]; simpl.
  - destruct (digits_spec a Ha) as [Hda Hva]. destruct (digits_spec b Hb) as [Hdb Hvb].
    rewrite string_of_digits_compare, Hva, Hvb by done. reflexivity.
  - destruct (Nat.ltb_spec (length (digits a)) (length (digits b))).
    + symmetry. apply Z.ltb_lt. by apply digits_length_lt.
    + symmetry. apply Z.ltb_ge. apply Z.lt_le_incl, digits_length_lt; [done..|lia].
Qed.
