(* ===== verification/Errors.v ===== *)
(** * Error types

    The error enums of [models/error/transaction.rs], [models/error/repository.rs] and
    [services/provider/mod.rs], with the classification of provider errors into retriable and
    permanent ones and the RPC message patterns of [constants/evm_transaction.rs].  An enum
    whose constructors clash with another's is in a module of its own, so that constructors
    read as they do in the source. *)

From S2P Require Import Prelude Decimal.
Open Scope Z_scope.

#[local] Set Warnings "-register-all".

(** [serde_json::Value]; numbers are kept as their text. *)
Inductive json : Type :=
| JNull
| JBool (b : bool)
| JNumber (n : string)
| JString (s : string)
| JArray (l : list json)
| JObject (fields : list (string * json)).

Module RpcSelectorError.
Inductive t : Type :=
| NoProviders
| ClientInitializationError (msg : string)
| WeightedIndexError (msg : string)
| AllProvidersFailed.
End RpcSelectorError.

Module SolanaProviderError.
Inductive t : Type :=
| NetworkError (msg : string)
| RpcError (msg : string)
| RequestError (error : string) (status_code : Z)
| InvalidAddress (msg : string)
| SelectorError (e : RpcSelectorError.t)
| NetworkConfiguration (msg : string)
| InsufficientFunds (msg : string)
| BlockhashNotFound (msg : string)
| InvalidTransaction (msg : string)
| AlreadyProcessed (msg : string).
End SolanaProviderError.

Module ProviderError.
Inductive t : Type :=
| SolanaRpcError (e : SolanaProviderError.t)
| InvalidAddress (msg : string)
| NetworkConfiguration (msg : string)
| Timeout
| RateLimited
| BadGateway
| RequestError (error : string) (status_code : Z)
| RpcErrorCode (code : Z) (message : string) (data : option json)
| TransportError (msg : string)
| Other (msg : string).
End ProviderError.

Module RepositoryError.
Inductive t : Type :=
| NotFound (msg : string)
| LockError (msg : string)
| ConnectionError (msg : string)
| ConstraintViolation (msg : string)
| InvalidData (msg : string)
| TransactionFailure (msg : string)
| ConcurrentUpdateConflict (msg : string)
| TransactionValidationFailed (msg : string)
| PermissionDenied (msg : string)
| Unknown (msg : string)
| NotSupported (msg : string)
| UnexpectedError (msg : string)
| Other (msg : string).
End RepositoryError.

Module JobProducerError.
Inductive t : Type :=
| QueueError (msg : string).
End JobProducerError.

Module SolanaTransactionValidationError.
Inductive t : Type :=
| DecodeError (msg : string)
| DeserializeError (msg : string)
| SigningError (msg : string)
| PolicyViolation (msg : string)
| ExpiredBlockhash (msg : string)
| ValidationError (msg : string)
| FeePayer (msg : string)
| InsufficientFunds (msg : string)
| InsufficientBalance (msg : string)
| UnderlyingSolanaProvider (e : SolanaProviderError.t).
End SolanaTransactionValidationError.

Module StellarTransactionValidationError.
Inductive t : Type :=
| ValidationError (msg : string)
| PolicyViolation (msg : string)
| InvalidAssetIdentifier (msg : string)
| TokenNotAllowed (msg : string)
| InsufficientTokenPayment (expected got : Z)
| MaxFeeExceeded (fee : Z).
End StellarTransactionValidationError.

Module TransactionError.
Inductive t : Type :=
| ValidationError (msg : string)
| SolanaValidation (e : SolanaTransactionValidationError.t)
| NetworkConfiguration (msg : string)
| JobProducerError (e : JobProducerError.t)
| InvalidType (msg : string)
| UnderlyingProvider (e : ProviderError.t)
| UnderlyingSolanaProvider (e : SolanaProviderError.t)
| StellarTransactionValidationError (e : StellarTransactionValidationError.t)
| UnexpectedError (msg : string)
| ConcurrentUpdateConflict (msg : string)
| NotSupported (msg : string)
| SignerError (msg : string)
| InsufficientBalance (msg : string)
| SimulationFailed (msg : string).
End TransactionError.

(** [impl From<RepositoryError> for TransactionError] *)
Definition transaction_error_of_repository (e : RepositoryError.t) : TransactionError.t :=
  match e with
  | RepositoryError.NotFound msg
  | RepositoryError.InvalidData msg
  | RepositoryError.ConstraintViolation msg
  | RepositoryError.TransactionValidationFailed msg => TransactionError.ValidationError msg
  | RepositoryError.ConcurrentUpdateConflict msg =>
      TransactionError.ConcurrentUpdateConflict msg
  | RepositoryError.TransactionFailure msg
  | RepositoryError.LockError msg
  | RepositoryError.ConnectionError msg
  | RepositoryError.PermissionDenied msg
  | RepositoryError.Unknown msg
  | RepositoryError.UnexpectedError msg
  | RepositoryError.Other msg => TransactionError.UnexpectedError msg
  | RepositoryError.NotSupported msg => TransactionError.NotSupported msg
  end.

(** ** RPC message patterns *)

Definition ALREADY_SUBMITTED_PATTERNS : list string :=
  ["nonce too low"; "nonce is too low"; "already known";
   "replacement transaction underpriced"; "same hash was already imported"]%string.

Definition NONCE_TOO_HIGH_PATTERNS : list string :=
  ["nonce too high"; "nonce is too high"; "nonce too far in the future";
   "exceeds next nonce"; "nonce out of range"; "tx-nonce-too-high"]%string.

(** The byte position of the first occurrence: [str::find]. *)
Fixpoint str_find (hay needle : string) : option nat :=
  if String.prefix needle hay then Some O
  else match hay with
       | EmptyString => None
       | String _ hay' => S <$> str_find hay' needle
       end.

Definition ends_with (s suffix : string) : bool :=
  (String.length suffix <=? String.length s)%nat &&
  String.eqb (str_drop (String.length s - String.length suffix) s) suffix.

(** Only the first occurrence is inspected, as in the source. *)
Definition matches_known_transaction (msg_lower : string) : bool :=
  match str_find msg_lower "known transaction" with
  | Some pos => negb (ends_with (str_take pos msg_lower) "un")
  | None => false
  end.

Definition is_non_retriable_transaction_rpc_message (message : string) : bool :=
  let msg_lower := to_lowercase message in
  existsb (str_contains msg_lower) ALREADY_SUBMITTED_PATTERNS
  || existsb (str_contains msg_lower) NONCE_TOO_HIGH_PATTERNS
  || matches_known_transaction msg_lower.

(** The HTTP status table shared by the EVM and Solana classifications. *)
Definition is_retriable_status_code (c : Z) : bool :=
  if (c =? 501) || (c =? 505) then false
  else if (c =? 500) || ((502 <=? c) && (c <=? 504)) || ((506 <=? c) && (c <=? 599)) then true
  else if (c =? 408) || (c =? 425) || (c =? 429) then true
  else false.

Definition solana_provider_error_is_transient (e : SolanaProviderError.t) : bool :=
  match e with
  | SolanaProviderError.NetworkError _
  | SolanaProviderError.RpcError _
  | SolanaProviderError.BlockhashNotFound _
  | SolanaProviderError.SelectorError _ => true
  | SolanaProviderError.RequestError _ code => is_retriable_status_code code
  | SolanaProviderError.InsufficientFunds _
  | SolanaProviderError.InvalidTransaction _
  | SolanaProviderError.AlreadyProcessed _
  | SolanaProviderError.InvalidAddress _
  | SolanaProviderError.NetworkConfiguration _ => false
  end.

(** ** [Display] *)

Definition print_signed (z : Z) : string :=
  if z <? 0 then "-" +:+ print_dec (- z) else print_dec z.

Definition rpc_selector_error_display (e : RpcSelectorError.t) : string :=
  match e with
  | RpcSelectorError.NoProviders => "No providers available"
  | RpcSelectorError.ClientInitializationError msg => "Client initialization failed: " +:+ msg
  | RpcSelectorError.WeightedIndexError msg => "Weighted index error: " +:+ msg
  | RpcSelectorError.AllProvidersFailed => "All available providers have failed"
  end.

Definition solana_provider_error_display (e : SolanaProviderError.t) : string :=
  match e with
  | SolanaProviderError.NetworkError msg => "Network error: " +:+ msg
  | SolanaProviderError.RpcError msg => "RPC error: " +:+ msg
  | SolanaProviderError.RequestError error code =>
      "Request error (HTTP " +:+ print_dec code +:+ "): " +:+ error
  | SolanaProviderError.InvalidAddress msg => "Invalid address: " +:+ msg
  | SolanaProviderError.SelectorError e => "RPC selector error: " +:+ rpc_selector_error_display e
  | SolanaProviderError.NetworkConfiguration msg => "Network configuration error: " +:+ msg
  | SolanaProviderError.InsufficientFunds msg => "Insufficient funds for transaction: " +:+ msg
  | SolanaProviderError.BlockhashNotFound msg => "Blockhash not found or expired: " +:+ msg
  | SolanaProviderError.InvalidTransaction msg => "Invalid transaction: " +:+ msg
  | SolanaProviderError.AlreadyProcessed msg => "Transaction already processed: " +:+ msg
  end.

Definition provider_error_display (e : ProviderError.t) : string :=
  match e with
  | ProviderError.SolanaRpcError e => "RPC client error: " +:+ solana_provider_error_display e
  | ProviderError.InvalidAddress msg => "Invalid address: " +:+ msg
  | ProviderError.NetworkConfiguration msg => "Network configuration error: " +:+ msg
  | ProviderError.Timeout => "Request timeout"
  | ProviderError.RateLimited => "Rate limited (HTTP 429)"
  | ProviderError.BadGateway => "Bad gateway (HTTP 502)"
  | ProviderError.RequestError error code =>
      "Request error (HTTP " +:+ print_dec code +:+ "): " +:+ error
  | ProviderError.RpcErrorCode code message _ =>
      "JSON-RPC error (code " +:+ print_signed code +:+ "): " +:+ message
  | ProviderError.TransportError msg => "Transport error: " +:+ msg
  | ProviderError.Other msg => "Other provider error: " +:+ msg
  end.

Definition repository_error_display (e : RepositoryError.t) : string :=
  match e with
  | RepositoryError.NotFound msg => "Entity not found: " +:+ msg
  | RepositoryError.LockError msg => "Entity already exists: " +:+ msg
  | RepositoryError.ConnectionError msg => "Failed to connect to the database: " +:+ msg
  | RepositoryError.ConstraintViolation msg => "Constraint violated: " +:+ msg
  | RepositoryError.InvalidData msg => "Invalid data: " +:+ msg
  | RepositoryError.TransactionFailure msg => "Transaction failure: " +:+ msg
  | RepositoryError.ConcurrentUpdateConflict msg => "Concurrent update conflict: " +:+ msg
  | RepositoryError.TransactionValidationFailed msg => "Transaction validation failed: " +:+ msg
  | RepositoryError.PermissionDenied msg => "Permission denied: " +:+ msg
  | RepositoryError.Unknown msg => "An unknown error occurred: " +:+ msg
  | RepositoryError.NotSupported msg => "Not supported: " +:+ msg
  | RepositoryError.UnexpectedError msg => "Unexpected error: " +:+ msg
  | RepositoryError.Other msg => "Other error: " +:+ msg
  end.

Definition job_producer_error_display (e : JobProducerError.t) : string :=
  match e with JobProducerError.QueueError msg => "Queue error: " +:+ msg end.

(** ** Retriable errors *)

Definition is_retriable_error (error : ProviderError.t) : bool :=
  match error with
  | ProviderError.Timeout
  | ProviderError.RateLimited
  | ProviderError.BadGateway
  | ProviderError.TransportError _ => true
  | ProviderError.RequestError _ status_code => is_retriable_status_code status_code
  | ProviderError.RpcErrorCode code message _ =>
      if code =? -32002 then negb (is_non_retriable_transaction_rpc_message message)
      else if code =? -32005 then true
      else if code =? -32603 then negb (is_non_retriable_transaction_rpc_message message)
      else false
  | ProviderError.SolanaRpcError err => solana_provider_error_is_transient err
  | _ =>
      let msg_lower := to_lowercase (provider_error_display error) in
      str_contains msg_lower "timeout" || str_contains msg_lower "connection"
      || str_contains msg_lower "reset"
  end.

Definition should_mark_provider_failed_by_status_code (c : Z) : bool :=
  ((500 <=? c) && (c <=? 599)) || (c =? 401) || (c =? 403) || (c =? 404) || (c =? 410).

Definition should_mark_provider_failed (error : ProviderError.t) : bool :=
  match error with
  | ProviderError.RequestError _ status_code =>
      should_mark_provider_failed_by_status_code status_code
  | _ => false
  end.

Definition solana_validation_error_is_transient (e : SolanaTransactionValidationError.t)
  : bool :=
  match e with
  | SolanaTransactionValidationError.PolicyViolation _
  | SolanaTransactionValidationError.FeePayer _
  | SolanaTransactionValidationError.DecodeError _
  | SolanaTransactionValidationError.DeserializeError _
  | SolanaTransactionValidationError.ExpiredBlockhash _
  | SolanaTransactionValidationError.SigningError _ => false
  | SolanaTransactionValidationError.UnderlyingSolanaProvider err =>
      solana_provider_error_is_transient err
  | SolanaTransactionValidationError.ValidationError msg =>
      existsb (str_contains msg)
        ["RPC"; "timeout"; "timed out"; "connection"; "network"; "Failed to check";
         "Failed to get"; "node behind"; "rate limit"]%string
  | SolanaTransactionValidationError.InsufficientBalance msg
  | SolanaTransactionValidationError.InsufficientFunds msg =>
      existsb (str_contains msg) ["Failed to get balance"; "RPC"; "timeout"; "network"]%string
  end.

(** [TransactionError::is_transient] *)
Definition is_transient (e : TransactionError.t) : bool :=
  match e with
  | TransactionError.SolanaValidation err => solana_validation_error_is_transient err
  | TransactionError.UnderlyingSolanaProvider err => solana_provider_error_is_transient err
  | TransactionError.UnderlyingProvider err => is_retriable_error err
  | TransactionError.UnexpectedError _
  | TransactionError.ConcurrentUpdateConflict _
  | TransactionError.JobProducerError _ => true
  | TransactionError.ValidationError _
  | TransactionError.InsufficientBalance _
  | TransactionError.NetworkConfiguration _
  | TransactionError.InvalidType _
  | TransactionError.NotSupported _
  | TransactionError.SignerError _
  | TransactionError.SimulationFailed _
  | TransactionError.StellarTransactionValidationError _ => false
  end.

(** [TransactionError::is_concurrent_update_conflict] *)
Definition is_concurrent_update_conflict (e : TransactionError.t) : bool :=
  match e with TransactionError.ConcurrentUpdateConflict _ => true | _ => false end.
