(* ===== verification/Json.v ===== *)
(** * JSON documents

    What the stores write are JSON texts.  A document is a value of [json]; writing and reading
    its text is serde_json's and lua-cjson's.  This file has the reading of an object's fields
    as serde's derived deserializers do it, the integer helpers of [utils/serde] (an integer
    kept as a string, read back from a string, a number or a float), the canonical form of a
    document, and what the Lua scripts of the Redis repository do to a document: cjson's
    decoding and encoding, which turn every empty array into an empty object, and the textual
    repairs the scripts make. *)

From stdpp Require Import sorting.
From S2P Require Import Prelude Decimal Errors.
Open Scope Z_scope.

Abbreviation field := (string * json)%type (only parsing).

(** Induction on documents, through the lists. *)
Section Induction.
Variable P : json -> Prop.
Hypothesis Hnull : P JNull.
Hypothesis Hbool : forall b, P (JBool b).
Hypothesis Hnumber : forall n, P (JNumber n).
Hypothesis Hstring : forall s, P (JString s).
Hypothesis Harray : forall l, Forall P l -> P (JArray l).
Hypothesis Hobject : forall fs, Forall (fun kv : field => P (snd kv)) fs -> P (JObject fs).

Fixpoint json_induction (j : json) : P j :=
  match j with
  | JNull => Hnull
  | JBool b => Hbool b
  | JNumber n => Hnumber n
  | JString s => Hstring s
  | JArray l =>
      Harray l ((fix go (l : list json) : Forall P l :=
        match l with
        | [] => @List.Forall_nil _ _
        | x :: l' => @List.Forall_cons _ _ x l' (json_induction x) (go l')
        end) l)
  | JObject fs =>
      Hobject fs ((fix go (fs : list field) : Forall (fun kv => P (snd kv)) fs :=
        match fs with
        | [] => @List.Forall_nil _ _
        | (k, v) :: fs' => @List.Forall_cons _ _ (k, v) fs' (json_induction v) (go fs')
        end) fs)
  end.
End Induction.

(** ** Fields

    A derived deserializer takes the fields it knows by name, in any order, ignores the others
    and rejects a repeated one. *)

Definition fields_named (k : string) (fs : list field) : list field :=
  List.filter (fun kv => String.eqb (fst kv) k) fs.

(** [missing] is what an absent field means: [Some None] for an [Option] or a field with
    [#[serde(default)]], [None] (an error) otherwise. *)
Definition get_field {A} (dec : json -> option A) (missing : option A) (k : string)
    (fs : list field) : option A :=
  match fields_named k fs with
  | [] => missing
  | [(_, v)] => dec v
  | _ => None
  end.

(** ** Primitive types *)

Definition of_json_string (j : json) : option string :=
  match j with JString s => Some s | _ => None end.

Definition of_json_bool (j : json) : option bool :=
  match j with JBool b => Some b | _ => None end.

Definition of_json_option {A} (dec : json -> option A) (j : json) : option (option A) :=
  match j with JNull => Some None | _ => Some <$> dec j end.

Definition of_json_list {A} (dec : json -> option A) (j : json) : option (list A) :=
  match j with JArray l => mapM dec l | _ => None end.

Definition json_option {A} (enc : A -> json) (o : option A) : json :=
  match o with Some a => enc a | None => JNull end.

Definition json_list {A} (enc : A -> json) (l : list A) : json := JArray (enc <$> l).

(** The integer a number literal denotes, when it is written without fraction and exponent;
    [-0] is read as a float. *)
Definition unsigned_literal (s : string) : option Z :=
  match digits_of_string s with
  | Some (d :: l) => Some (digits_value (d :: l))
  | _ => None
  end.

Definition integer_literal (s : string) : option Z :=
  match s with
  | String c s' =>
      if Ascii.eqb c "-" then
        match unsigned_literal s' with
        | Some 0 => None
        | o => Z.opp <$> o
        end
      else unsigned_literal s
  | EmptyString => None
  end.

Definition json_uint (n : Z) : json := JNumber (print_dec n).

(** [u8], [u32] and [u64] as serde reads them: an integer literal in range. *)
Definition of_json_uint (mx : Z) (j : json) : option Z :=
  match j with
  | JNumber s =>
      match integer_literal s with
      | Some n => if (0 <=? n) && (n <=? mx) then Some n else None
      | None => None
      end
  | _ => None
  end.

(** ** Integers kept as strings ([utils/serde])

    The float reading of a number literal is the standard library's: [float_integral s] is
    the integer the [f64] of literal [s] is, if it is one. *)

Class JsonFloat := {
  float_integral : string -> option Z;
}.

Definition MAX_SAFE_INTEGER_F64 : Z := 9007199254740991.

(** [s.parse::<i64>()] *)
Definition parse_i64 (s : string) : option Z :=
  match s with
  | String c s' =>
      if Ascii.eqb c "-" then
        match unsigned_literal s' with
        | Some n => if n <=? 2 ^ 63 then Some (- n) else None
        | None => None
        end
      else parse_unsigned i64_max s
  | EmptyString => None
  end.

Section Helpers.
Context `{JsonFloat}.

Definition f64_to_safe_integer (value : option Z) : option Z :=
  match value with
  | Some n => if Z.abs n <=? MAX_SAFE_INTEGER_F64 then Some n else None
  | None => None
  end.

(** [deserialize_any] of a number: the visitor method serde_json calls for the literal. *)
Definition visit_number {A} (visit_u64 visit_i64 : Z -> option A)
    (visit_f64 : option Z -> option A) (s : string) : option A :=
  match integer_literal s with
  | Some n =>
      if 0 <=? n then if n <=? u64_max then visit_u64 n else visit_f64 (float_integral s)
      else if - 2 ^ 63 <=? n then visit_i64 n else visit_f64 (float_integral s)
  | None => visit_f64 (float_integral s)
  end.

Definition serialize_i64 (value : Z) : json := JString (print_signed value).

Definition deserialize_i64 (j : json) : option Z :=
  match j with
  | JString s => parse_i64 s
  | JNumber s =>
      visit_number (fun n => if n <=? i64_max then Some n else None) Some f64_to_safe_integer s
  | _ => None
  end.

Definition serialize_optional_i64 (value : option Z) : json := json_option serialize_i64 value.
Definition deserialize_optional_i64 (j : json) : option (option Z) :=
  of_json_option deserialize_i64 j.

Definition serialize_u64 (value : Z) : json := JString (print_dec value).

Definition deserialize_u64 (j : json) : option Z :=
  match j with
  | JString s => parse_u64 s
  | JNumber s =>
      visit_number Some (fun n => if n <? 0 then None else Some n)
        (fun v => match f64_to_safe_integer v with
                  | Some n => if n <? 0 then None else Some n
                  | None => None
                  end) s
  | _ => None
  end.

Definition serialize_u128 (value : Z) : json := JString (print_dec value).

(** [U128Visitor] has no [visit_f64]. *)
Definition deserialize_u128 (j : json) : option Z :=
  match j with
  | JString s => parse_unsigned u128_max s
  | JNumber s => visit_number Some (fun n => if n <? 0 then None else Some n) (fun _ => None) s
  | _ => None
  end.

Definition serialize_optional_u128 (value : option Z) : json :=
  json_option serialize_u128 value.
Definition deserialize_optional_u128 (j : json) : option (option Z) :=
  of_json_option deserialize_u128 j.
End Helpers.

(** ** Canonical form

    [serde_json::Value] keeps an object as a map ordered by key.  Two documents that differ in
    the order of fields have the same canonical form. *)

Definition key_cmp (a b : field) : comparison := String.compare (fst a) (fst b).

Fixpoint norm (j : json) : json :=
  match j with
  | JArray l => JArray (map norm l)
  | JObject fs => JObject (sorted_by key_cmp (map (fun '(k, v) => (k, norm v)) fs))
  | _ => j
  end.

Definition norm_fields (fs : list field) : list field :=
  sorted_by key_cmp (map (fun '(k, v) => (k, norm v)) fs).

(** Replacing the values of an object, key by key. *)
Definition map_values (f : string -> json -> json) (fs : list field) : list field :=
  map (fun '(k, v) => (k, f k v)) fs.

Lemma map_values_keys f fs : (map_values f fs).*1 = fs.*1.
Proof. induction fs as [|[k v] fs IH]; simpl; [done|]. by f_equal. Qed.

Lemma insert_by_map_values f k v fs :
  insert_by key_cmp (k, f k v) (map_values f fs) = map_values f (insert_by key_cmp (k, v) fs).
Proof.
  induction fs as [|[k' v'] fs IH]; simpl; [done|]. unfold key_cmp at 1 3. simpl.
  destruct (String.compare k k'); simpl; [done..|]. by rewrite IH.
Qed.

Lemma sorted_by_map_values f fs :
  sorted_by key_cmp (map_values f fs) = map_values f (sorted_by key_cmp fs).
Proof. induction fs as [|[k v] fs IH]; simpl; [done|]. by rewrite IH, insert_by_map_values. Qed.

Lemma norm_object fs : norm (JObject fs) = JObject (norm_fields fs).
Proof. done. Qed.

Lemma norm_fields_eq fs : norm_fields fs = map_values (fun _ => norm) (sorted_by key_cmp fs).
Proof. apply (sorted_by_map_values (fun _ => norm)). Qed.

Lemma Forall_norm_fields (P : field -> Prop) fs :
  Forall P (norm_fields fs) <-> Forall (fun kv => P (fst kv, norm (snd kv))) fs.
Proof.
  unfold norm_fields. rewrite sorted_by_perm. induction fs as [|[k v] fs IH]; simpl;
    [split; constructor|]. by rewrite !Forall_cons, IH.
Qed.

Lemma fields_named_insert k x fs :
  fields_named k (insert_by key_cmp x fs) = fields_named k (x :: fs).
Proof.
  induction fs as [|y fs IH]; simpl; [done|]. unfold key_cmp at 1.
  destruct (String.compare (fst x) (fst y)) eqn:E; try done. simpl. rewrite IH. simpl.
  destruct (String.eqb_spec (fst x) k) as [Hx|]; [|done].
  destruct (String.eqb_spec (fst y) k) as [Hy|]; [|done].
  exfalso. rewrite Hx, Hy in E. pose proof (String.compare_antisym k k) as Ha.
  rewrite E in Ha. done.
Qed.

Lemma fields_named_sorted k fs : fields_named k (sorted_by key_cmp fs) = fields_named k fs.
Proof.
  induction fs as [|x fs IH]; simpl; [done|].
  rewrite fields_named_insert. simpl. by rewrite IH.
Qed.

Lemma fields_named_map_values f k fs :
  fields_named k (map_values f fs) = map_values f (fields_named k fs).
Proof.
  induction fs as [|[k' v] fs IH]; simpl; [done|]. rewrite IH.
  by destruct (String.eqb k' k).
Qed.

Lemma fields_named_norm k fs :
  fields_named k (norm_fields fs) = map_values (fun _ => norm) (fields_named k fs).
Proof. unfold norm_fields. rewrite fields_named_sorted. apply fields_named_map_values. Qed.

(** A decoder that does not see the order of fields. *)
Definition order_blind {A} (dec : json -> option A) : Prop := forall j, dec (norm j) = dec j.

Lemma get_field_norm {A} (dec : json -> option A) m k fs :
  order_blind dec -> get_field dec m k (norm_fields fs) = get_field dec m k fs.
Proof.
  intros Hd. unfold get_field. rewrite fields_named_norm.
  destruct (fields_named k fs) as [|[k' v] [|[k'' v'] l]]; simpl; [done| |done]. apply Hd.
Qed.

Create HintDb blind_db.

Lemma blind_string : order_blind of_json_string.
Proof. by intros []. Qed.
Lemma blind_bool : order_blind of_json_bool.
Proof. by intros []. Qed.
Lemma blind_uint mx : order_blind (of_json_uint mx).
Proof. by intros []. Qed.
Lemma blind_i64 `{JsonFloat} : order_blind deserialize_i64.
Proof. by intros []. Qed.
Lemma blind_u64 `{JsonFloat} : order_blind deserialize_u64.
Proof. by intros []. Qed.
Lemma blind_u128 `{JsonFloat} : order_blind deserialize_u128.
Proof. by intros []. Qed.

Lemma blind_option {A} (dec : json -> option A) :
  order_blind dec -> order_blind (of_json_option dec).
Proof.
  intros Hd j. destruct j; try done; unfold of_json_option; simpl norm; cbv iota;
    f_equal; apply (Hd (JArray l)) || apply (Hd (JObject fields)).
Qed.

Lemma blind_list {A} (dec : json -> option A) :
  order_blind dec -> order_blind (of_json_list dec).
Proof.
  intros Hd j. destruct j as [| | | |l|fs]; try done. simpl.
  induction l as [|x l IH]; [done|]. simpl. rewrite Hd. destruct (dec x); [|done].
  simpl. unfold of_json_list in IH. by rewrite IH.
Qed.

#[export] Hint Resolve blind_string blind_bool blind_uint blind_i64 blind_u64 blind_u128
  blind_option blind_list : blind_db.

(** Close [order_blind dec] for a decoder that reads the fields of an object. *)
Ltac solve_blind :=
  intros j; destruct j as [| | | | |fs]; try done;
  rewrite norm_object; cbn beta iota delta -[get_field norm_fields norm];
  rewrite ?get_field_norm by eauto with blind_db; try done.

(** ** Sorting by key *)

Lemma ascii_compare_lt_trans a b c :
  Ascii.compare a b = Lt -> Ascii.compare b c = Lt -> Ascii.compare a c = Lt.
Proof. unfold Ascii.compare. rewrite !N.compare_lt_iff. apply N.lt_trans. Qed.

Lemma ascii_compare_refl a : Ascii.compare a a = Eq.
Proof. apply N.compare_refl. Qed.

Lemma string_compare_refl s : String.compare s s = Eq.
Proof. induction s; simpl; [done|]. by rewrite ascii_compare_refl. Qed.

Lemma string_compare_lt_trans a b c :
  String.compare a b = Lt -> String.compare b c = Lt -> String.compare a c = Lt.
Proof.
  revert b c. induction a as [|x a IH]; intros [|y b] [|z c]; simpl; try done.
  destruct (Ascii.compare x y) eqn:Exy; try done;
    destruct (Ascii.compare y z) eqn:Eyz; try done; intros H1 H2.
  - apply Ascii.compare_eq_iff in Exy as ->, Eyz as ->. rewrite ascii_compare_refl. eauto.
  - apply Ascii.compare_eq_iff in Exy as ->. by rewrite Eyz.
  - apply Ascii.compare_eq_iff in Eyz as ->. by rewrite Exy.
  - by rewrite (ascii_compare_lt_trans _ _ _ Exy Eyz).
Qed.

Definition key_le (a b : field) : Prop := key_cmp a b <> Gt.

#[export] Instance key_le_trans : Transitive key_le.
Proof.
  intros a b c. unfold key_le, key_cmp.
  destruct (String.compare (fst a) (fst b)) eqn:E1;
    destruct (String.compare (fst b) (fst c)) eqn:E2; try done; intros _ _.
  - apply String.compare_eq_iff in E1 as ->. by rewrite E2.
  - apply String.compare_eq_iff in E1 as ->. by rewrite E2.
  - apply String.compare_eq_iff in E2 as <-. by rewrite E1.
  - by rewrite (string_compare_lt_trans _ _ _ E1 E2).
Qed.

Lemma key_cmp_antisym a b : key_cmp b a = CompOpp (key_cmp a b).
Proof. apply String.compare_antisym. Qed.

Lemma nodup_keys_eq (fs : list field) (a b : field) :
  NoDup fs.*1 -> a ∈ fs -> b ∈ fs -> fst a = fst b -> a = b.
Proof.
  intros Hnd Ha Hb He. destruct a as [k v], b as [k' v']. simpl in He. subst k'. f_equal.
  induction fs as [|[k0 v0] fs IH]; [by apply elem_of_nil in Ha|].
  apply NoDup_cons in Hnd as [Hk Hnd].
  assert (forall w, (k, w) ∈ fs -> k ∈ fs.*1) as Hin
    by (intros w Hw; apply list_elem_of_fmap; by exists (k, w)).
  apply elem_of_cons in Ha as [Ha|Ha]; apply elem_of_cons in Hb as [Hb|Hb]; simplify_eq;
    [done|exfalso; apply Hk; eauto..|auto].
Qed.

Lemma sorted_by_unique (l1 l2 : list field) :
  l1 ≡ₚ l2 -> NoDup l1.*1 -> sorted_by key_cmp l1 = sorted_by key_cmp l2.
Proof.
  intros Hp Hnd. apply (Sorted_unique_strong key_le).
  - intros a b Ha Hb H1 H2. rewrite sorted_by_perm in Ha, Hb. rewrite <- Hp in Hb.
    apply (nodup_keys_eq l1); [done..|]. unfold key_le in *.
    rewrite (key_cmp_antisym a b) in H2. unfold key_cmp in *.
    destruct (String.compare (fst a) (fst b)) eqn:E; try done.
    by apply String.compare_eq_iff.
  - apply sorted_by_sorted, key_cmp_antisym.
  - apply sorted_by_sorted, key_cmp_antisym.
  - by rewrite !sorted_by_perm.
Qed.

Lemma norm_idemp j : norm (norm j) = norm j.
Proof.
  induction j as [| | | |l IH|fs IH] using json_induction; try done.
  - simpl. f_equal. rewrite map_map. apply map_ext_in. by rewrite List.Forall_forall in IH.
  - rewrite !norm_object. f_equal. unfold norm_fields.
    change (map (fun '(k, v) => (k, norm v))) with (map_values (fun _ => norm)).
    rewrite <- sorted_by_map_values, sorted_by_idemp by apply key_cmp_antisym.
    f_equal. unfold map_values. rewrite map_map. apply map_ext_in. intros [k v] Hin.
    f_equal. rewrite List.Forall_forall in IH. apply (IH _ Hin).
Qed.

(** ** lua-cjson

    [cjson.decode] turns an object and an array into a Lua table, so an empty array can no
    longer be told from an empty object, and reads numbers as doubles; [cjson.encode] writes
    the fields of a table in the order of its hash part and numbers with 14 significant
    digits.  [lua_number n] is the text a literal [n] becomes, [lua_order] the order of the
    fields. *)

Class LuaJson := {
  lua_order : list (string * json) -> list (string * json);
  lua_order_perm : forall fs, lua_order fs ≡ₚ fs;
  lua_number : string -> string;
  lua_number_small : forall n, 0 <= n < 10 ^ 14 -> lua_number (print_dec n) = print_dec n;
}.

Definition is_empty_object (j : json) : bool := match j with JObject [] => true | _ => false end.
Definition is_object (j : json) : bool := match j with JObject _ => true | _ => false end.
Definition is_null (j : json) : bool := match j with JNull => true | _ => false end.
Definition is_string (j : json) : bool := match j with JString _ => true | _ => false end.

Section Lua.
Context `{LuaJson}.

Fixpoint cjson_decode (j : json) : json :=
  match j with
  | JNumber n => JNumber (lua_number n)
  | JArray [] => JObject []
  | JArray l => JArray (map cjson_decode l)
  | JObject fs => JObject (map (fun '(k, v) => (k, cjson_decode v)) fs)
  | _ => j
  end.

Fixpoint cjson_encode (j : json) : json :=
  match j with
  | JArray l => JArray (map cjson_encode l)
  | JObject fs => JObject (lua_order (map (fun '(k, v) => (k, cjson_encode v)) fs))
  | _ => j
  end.

(** [t[k] = v] on a table. *)
Definition set_field (k : string) (v : json) (fs : list field) : list field :=
  if existsb (fun kv => String.eqb (fst kv) k) fs
  then map_values (fun k' v' => if String.eqb k' k then v else v') fs
  else fs ++ [(k, v)].

(** The keys [string.gmatch] finds in front of an empty array. *)
Fixpoint empty_keys (j : json) : list string :=
  match j with
  | JArray l => concat (map empty_keys l)
  | JObject fs =>
      concat (map (fun '(k, v) => match v with JArray [] => [k] | _ => empty_keys v end) fs)
  | _ => []
  end.

(** [string.gsub] of one occurrence of a field in the text: the first field named [k], in text
    order, whose value satisfies [p] gets the value [w]; [None] if there is none. *)
Fixpoint replace_first (p : json -> bool) (k : string) (w : json) (j : json) : option json :=
  match j with
  | JArray l =>
      JArray <$> (fix go (l : list json) : option (list json) :=
        match l with
        | [] => None
        | x :: l' => match replace_first p k w x with
                     | Some x' => Some (x' :: l')
                     | None => cons x <$> go l'
                     end
        end) l
  | JObject fs =>
      JObject <$> (fix go (fs : list field) : option (list field) :=
        match fs with
        | [] => None
        | (k', v) :: fs' =>
            if String.eqb k' k && p v then Some ((k', w) :: fs')
            else match replace_first p k w v with
                 | Some v' => Some ((k', v') :: fs')
                 | None => cons (k', v) <$> go fs'
                 end
        end) fs
  | _ => None
  end.

(** [string.gsub(updated, '"'..k..'"%s*:%s*{}', '"'..k..'":[]', 1)] *)
Definition restore_array (j : json) (k : string) : json :=
  default j (replace_first is_empty_object k (JArray []) j).

(** The repair loop of the script, over the keys recorded before. *)
Definition restore_arrays (ks : list string) (j : json) : json := fold_left restore_array ks j.

(** *** Documents the scripts preserve

    Numbers that keep their text, no key twice in an object, no empty object as a field, and
    empty arrays only as fields. *)
Fixpoint lua_stable (j : json) : bool :=
  match j with
  | JNumber n => String.eqb (lua_number n) n
  | JArray [] => false
  | JArray l => forallb lua_stable l
  | JObject fs =>
      bool_decide (NoDup fs.*1) &&
      forallb (fun '(k, v) => negb (is_empty_object v) &&
                              match v with JArray [] => true | _ => lua_stable v end) fs
  | _ => true
  end.

(** No two empty arrays under the same key: the repair restores one occurrence per key. *)
Definition lua_safe (j : json) : Prop := lua_stable j = true /\ NoDup (empty_keys j).

(** *** The repair, occurrence by occurrence *)

(** Every empty object under one of the keys [ks] becomes an array. *)
Fixpoint fill (ks : list string) (j : json) : json :=
  match j with
  | JArray l => JArray (map (fill ks) l)
  | JObject fs =>
      JObject (map (fun '(k, v) =>
        (k, if is_empty_object v && bool_decide (k ∈ ks) then JArray [] else fill ks v)) fs)
  | _ => j
  end.

(** How many empty objects are under key [k]. *)
Fixpoint occ (k : string) (j : json) : nat :=
  match j with
  | JArray l => list_sum (map (occ k) l)
  | JObject fs =>
      list_sum (map (fun '(k', v) =>
        ((if String.eqb k' k && is_empty_object v then 1 else 0) + occ k v)%nat) fs)
  | _ => 0%nat
  end.

(** No key occurs twice in an object. *)
Fixpoint keys_ok (j : json) : bool :=
  match j with
  | JArray l => forallb keys_ok l
  | JObject fs => bool_decide (NoDup fs.*1) && forallb (fun '(k, v) => keys_ok v) fs
  | _ => true
  end.

Lemma map_ext_Forall {A B} (f g : A -> B) l : Forall (fun x => f x = g x) l -> map f l = map g l.
Proof. induction 1; simpl; congruence. Qed.

Lemma map_values_ext f g (fs : list field) :
  Forall (fun kv => f (fst kv) (snd kv) = g (fst kv) (snd kv)) fs ->
  map_values f fs = map_values g fs.
Proof. intros Hf. apply map_ext_Forall. eapply Forall_impl; [exact Hf|]. intros []. simpl. congruence. Qed.

Lemma map_values_comp f g (fs : list field) :
  map_values f (map_values g fs) = map_values (fun k v => f k (g k v)) fs.
Proof. unfold map_values. rewrite map_map. apply map_ext. by intros []. Qed.

Lemma forallb_Forall {A} (f : A -> bool) l : forallb f l = true -> Forall (fun x => f x = true) l.
Proof. rewrite forallb_forall. intros Hf. apply List.Forall_forall, Hf. Qed.

Lemma forallb_fields (f : string -> json -> bool) (fs : list field) :
  forallb (fun '(k, v) => f k v) fs = true -> Forall (fun kv => f (fst kv) (snd kv) = true) fs.
Proof. intros Hf%forallb_Forall. eapply Forall_impl; [exact Hf|]. by intros []. Qed.

Lemma Forall_conj {A} (P Q R : A -> Prop) l :
  (forall x, P x -> Q x -> R x) -> Forall P l -> Forall Q l -> Forall R l.
Proof. intros HR HP. induction HP; inversion 1; subst; constructor; auto. Qed.

Lemma norm_encode j : keys_ok j = true -> norm (cjson_encode j) = norm j.
Proof.
  induction j as [| | | |l IH|fs IH] using json_induction; try done.
  - intros Hk%forallb_Forall. simpl. f_equal. rewrite map_map. apply map_ext_Forall.
    revert IH Hk. apply Forall_conj. auto.
  - intros [Hnd%bool_decide_eq_true Hk%(forallb_fields (fun _ => keys_ok))]%andb_true_iff.
    change (JObject (sorted_by key_cmp (map_values (fun _ => norm)
              (lua_order (map_values (fun _ => cjson_encode) fs)))) = norm (JObject fs)).
    rewrite norm_object. f_equal. apply sorted_by_unique.
    + unfold map_values at 1. rewrite lua_order_perm. fold (map_values (fun _ => norm)).
      apply Permutation_refl'.
      change (map_values (fun _ => norm) (map_values (fun _ => cjson_encode) fs) =
              map_values (fun _ => norm) fs).
      rewrite map_values_comp. apply map_values_ext. revert IH Hk. apply Forall_conj. auto.
    + rewrite map_values_keys, lua_order_perm, map_values_keys. done.
Qed.

Lemma is_empty_object_norm v : is_empty_object (norm v) = is_empty_object v.
Proof.
  destruct v as [| | | |l|[|[k' v'] fs']]; try done. simpl.
  pose proof (insert_by_perm key_cmp (k', norm v')
    (sorted_by key_cmp (map (fun '(k, v) => (k, norm v)) fs'))) as Hp.
  destruct (insert_by _ _ _); [|done]. by apply Permutation_nil in Hp.
Qed.

Lemma norm_fill ks j : norm (fill ks j) = fill ks (norm j).
Proof.
  induction j as [| | | |l IH|fs IH] using json_induction; try done.
  - simpl. f_equal. rewrite !map_map. by apply map_ext_Forall.
  - set (g := fun k v => if is_empty_object v && bool_decide (k ∈ ks) then JArray []
                         else fill ks v).
    change (JObject (norm_fields (map_values g fs)) =
            JObject (map_values g (norm_fields fs))). f_equal.
    unfold norm_fields. change (map (fun '(k, v) => (k, norm v))) with (map_values (fun _ => norm)).
    rewrite <- sorted_by_map_values. f_equal. rewrite !map_values_comp. apply map_values_ext.
    eapply Forall_impl; [exact IH|]. intros [k v] Hv. simpl in *. unfold g.
    rewrite is_empty_object_norm. by destruct (_ && _).
Qed.

Lemma list_sum_perm (l1 l2 : list nat) : l1 ≡ₚ l2 -> list_sum l1 = list_sum l2.
Proof. induction 1; simpl; lia. Qed.

Lemma occ_norm k j : occ k (norm j) = occ k j.
Proof.
  induction j as [| | | |l IH|fs IH] using json_induction; try done.
  - simpl. f_equal. rewrite !map_map. by apply map_ext_Forall.
  - set (g := fun '(k', v) =>
      ((if String.eqb k' k && is_empty_object v then 1 else 0) + occ k v)%nat).
    change (list_sum (map g (norm_fields fs)) = list_sum (map g fs)).
    etransitivity; [apply list_sum_perm, Permutation_map, sorted_by_perm|].
    rewrite map_map. f_equal. apply map_ext_Forall. eapply Forall_impl; [exact IH|].
    intros [k' v] Hv. simpl in *. by rewrite is_empty_object_norm, Hv.
Qed.
Lemma list_sum_zero l : list_sum l = 0%nat -> Forall (fun n => n = 0%nat) l.
Proof. induction l as [|n l IH]; simpl; intros Hs; constructor; [lia | apply IH; lia]. Qed.

Lemma fill_absent k j : occ k j = 0%nat -> fill [k] j = j.
Proof.
  induction j as [| | | |l IH|fs IH] using json_induction; try done; simpl.
  - intros Hs%list_sum_zero%List.Forall_map. f_equal.
    transitivity (map id l); [|apply map_id]. apply map_ext_Forall.
    revert IH Hs. apply Forall_conj. auto.
  - intros Hs%list_sum_zero%List.Forall_map. f_equal.
    transitivity (map id fs); [|apply map_id]. apply map_ext_Forall.
    revert IH Hs. apply Forall_conj. intros [k' v] Hv Ho. simpl in *. unfold id. f_equal.
    destruct (is_empty_object v) eqn:He; simpl; [|apply Hv; destruct (_ && _); lia].
    rewrite andb_true_r in Ho. destruct (String.eqb_spec k' k); [lia|].
    rewrite bool_decide_eq_false_2; [by apply Hv|]. set_solver.
Qed.

Lemma fill_absent_fields k fs :
  occ k (JObject fs) = 0%nat ->
  map (fun '(k', v) => (k', if is_empty_object v && bool_decide (k' ∈ [k]) then JArray []
                           else fill [k] v)) fs = fs.
Proof. intros Ho%fill_absent. by injection Ho. Qed.

Lemma replace_first_spec k j :
  match replace_first is_empty_object k (JArray []) j with
  | None => occ k j = 0%nat
  | Some j' => (1 <= occ k j)%nat /\ (occ k j = 1%nat -> j' = fill [k] j)
  end.
Proof.
  induction j as [| | | |l IH|fs IH] using json_induction; try done; simpl.
  - induction IH as [|x l Hx _ IHl]; [done|]. simpl.
    destruct (replace_first _ k _ x) as [x'|]; simpl.
    + destruct Hx as [Hx1 Hx2]. split; [lia|]. intros Hs. f_equal. f_equal; [apply Hx2; lia|].
      symmetry. assert (fill [k] (JArray l) = JArray l) as [= ->]; [|done].
      apply fill_absent. simpl. lia.
    + destruct ((fix go (l : list json) : option (list json) := _) l) as [l'|]; simpl in *;
        [|lia].
      destruct IHl as [H1 H2]. split; [lia|]. intros Hs. rewrite (fill_absent k x) by done.
      specialize (H2 ltac:(lia)) as [= ->]. done.
  - induction IH as [|[k' v] fs Hx _ IHl]; [done|]. simpl in *.
    destruct (String.eqb k' k && is_empty_object v) eqn:Hm; simpl.
    + apply andb_true_iff in Hm as [->%String.eqb_eq He].
      split; [lia|]. intros Hs. rewrite He. rewrite bool_decide_eq_true_2 by set_solver.
      simpl. rewrite fill_absent_fields by (simpl; lia). done.
    + assert ((if is_empty_object v && bool_decide (k' ∈ [k]) then JArray [] else fill [k] v) =
              fill [k] v) as ->.
      { destruct (is_empty_object v); simpl in *; [|done].
        rewrite andb_true_r in Hm. apply String.eqb_neq in Hm.
        rewrite bool_decide_eq_false_2; [done|]. set_solver. }
      destruct (replace_first _ k _ v) as [v'|]; simpl.
      * destruct Hx as [Hx1 Hx2]. split; [lia|]. intros Hs. rewrite <- Hx2 by lia.
        rewrite fill_absent_fields by (simpl; lia). done.
      * destruct ((fix go (fs : list field) : option (list field) := _) fs) as [fs'|];
          simpl in *; [|lia].
        destruct IHl as [H1 H2]. split; [lia|]. intros Hs. rewrite (fill_absent k v) by done.
        specialize (H2 ltac:(lia)) as [= ->]. done.
Qed.

Lemma restore_fill k j : (occ k j <= 1)%nat -> restore_array j k = fill [k] j.
Proof.
  intros Hocc. unfold restore_array. pose proof (replace_first_spec k j) as Hr.
  destruct (replace_first _ k _ j) as [j'|]; simpl.
  - apply Hr. lia.
  - by rewrite fill_absent.
Qed.

Lemma is_empty_object_fill ks v : is_empty_object (fill ks v) = is_empty_object v.
Proof. by destruct v as [| | | | |[|[k v] fs]]. Qed.

Lemma occ_fill_le k ks j : (occ k (fill ks j) <= occ k j)%nat.
Proof.
  induction j as [| | | |l IH|fs IH] using json_induction; try (simpl; lia); simpl.
  - rewrite map_map. induction IH; simpl; lia.
  - rewrite map_map. induction IH as [|[k' v] fs Hv _ IH]; simpl in *; [lia|].
    destruct (is_empty_object v && bool_decide (k' ∈ ks)) eqn:E.
    + simpl. rewrite andb_false_r. lia.
    + rewrite is_empty_object_fill. lia.
Qed.

Lemma fill_fill ks ks' j : fill ks (fill ks' j) = fill (ks' ++ ks) j.
Proof.
  induction j as [| | | |l IH|fs IH] using json_induction; try done; simpl.
  - f_equal. rewrite map_map. by apply map_ext_Forall.
  - f_equal. rewrite map_map. apply map_ext_Forall. eapply Forall_impl; [exact IH|].
    intros [k v] Hv. simpl in *. f_equal.
    rewrite (bool_decide_ext (k ∈ ks' ++ ks) (k ∈ ks' \/ k ∈ ks)) by apply elem_of_app.
    rewrite bool_decide_or. destruct (is_empty_object v) eqn:He; simpl.
    + destruct (bool_decide (k ∈ ks')); simpl; [done|]. rewrite is_empty_object_fill, He. simpl.
      by destruct (bool_decide (k ∈ ks)).
    + by rewrite is_empty_object_fill, He.
Qed.

Lemma fill_nil j : fill [] j = j.
Proof.
  induction j as [| | | |l IH|fs IH] using json_induction; try done; simpl; f_equal.
  - transitivity (map id l); [|apply map_id]. by apply map_ext_Forall.
  - transitivity (map id fs); [|apply map_id]. apply map_ext_Forall.
    eapply Forall_impl; [exact IH|]. intros [k v] Hv. cbn [snd] in *. rewrite Hv.
    by rewrite andb_false_r.
Qed.

Lemma restore_arrays_fill ks j :
  (forall k, occ k j <= 1)%nat -> restore_arrays ks j = fill ks j.
Proof.
  unfold restore_arrays. revert j. induction ks as [|k ks IH]; intros j Hocc; simpl.
  - by rewrite fill_nil.
  - rewrite restore_fill by done. rewrite IH.
    + apply fill_fill.
    + intros k'. etransitivity; [apply occ_fill_le | apply Hocc].
Qed.

(** The value of a field, decoded: an empty array becomes an empty object, and nothing else
    does. *)
Lemma is_empty_object_decode v :
  is_empty_object v = false ->
  is_empty_object (cjson_decode v) = match v with JArray [] => true | _ => false end.
Proof. by destruct v as [| | | |[]|[|[k v] fs]]. Qed.

Lemma stable_field (k : string) v :
  negb (is_empty_object v) && match v with JArray [] => true | _ => lua_stable v end = true ->
  is_empty_object v = false /\ (v = JArray [] \/ lua_stable v = true).
Proof. intros [?%negb_true_iff Hv]%andb_true_iff. split; [done|]. destruct v as [| | | |[]|]; auto. Qed.

Lemma keys_ok_decode j : lua_stable j = true -> keys_ok (cjson_decode j) = true.
Proof.
  induction j as [| | | |l IH|fs IH] using json_induction; try done.
  - intros Hs. destruct l as [|x l]; [done|].
    change (forallb keys_ok (map cjson_decode (x :: l)) = true).
    apply forallb_forall, List.Forall_forall, List.Forall_map.
    apply forallb_Forall in Hs. revert IH Hs. apply Forall_conj. auto.
  - intros [Hnd%bool_decide_eq_true Hs]%andb_true_iff.
    change (bool_decide (NoDup (map_values (fun _ => cjson_decode) fs).*1) &&
            forallb (fun '(k, v) => keys_ok v) (map_values (fun _ => cjson_decode) fs) = true).
    rewrite map_values_keys. apply andb_true_iff. split; [by apply bool_decide_eq_true|].
    apply forallb_forall, List.Forall_forall, List.Forall_map.
    apply forallb_Forall in Hs. revert IH Hs. apply Forall_conj.
    intros [k v] Hv Hf. simpl in *. destruct (stable_field k v Hf) as [_ [->|]]; auto.
Qed.

Lemma elem_of_concat_map {A B} (f : A -> list B) l y k :
  y ∈ l -> k ∈ f y -> k ∈ concat (map f l).
Proof.
  intros Hy Hk. apply list_elem_of_In, in_concat. exists (f y).
  split; [by apply in_map, list_elem_of_In | by apply list_elem_of_In].
Qed.

Lemma fill_decode ks j :
  lua_stable j = true -> (forall k, k ∈ empty_keys j -> k ∈ ks) -> fill ks (cjson_decode j) = j.
Proof.
  induction j as [| |n| |l IH|fs IH] using json_induction; try done.
  - intros Hs _. simpl in *. apply String.eqb_eq in Hs. by rewrite Hs.
  - intros Hs Hk. destruct l as [|x l]; [done|].
    change (JArray (map (fill ks) (map cjson_decode (x :: l))) = JArray (x :: l)). f_equal.
    rewrite map_map. transitivity (map id (x :: l)); [|apply map_id]. apply map_ext_Forall.
    apply forallb_Forall in Hs. apply Forall_forall. intros y Hy.
    rewrite Forall_forall in IH, Hs. apply IH; [done|by apply Hs|].
    intros k Hin. apply Hk. by apply (elem_of_concat_map empty_keys (x :: l) y).
  - intros [_ Hs%forallb_Forall]%andb_true_iff Hk.
    set (g := fun k v => if is_empty_object v && bool_decide (k ∈ ks) then JArray []
                         else fill ks v).
    change (JObject (map_values g (map_values (fun _ => cjson_decode) fs)) = JObject fs). f_equal.
    rewrite map_values_comp. transitivity (map id fs); [|apply map_id]. apply map_ext_Forall.
    apply Forall_forall. intros [k v] Hin. rewrite Forall_forall in IH, Hs.
    specialize (IH _ Hin). specialize (Hs _ Hin). simpl in *. unfold id. f_equal.
    assert (forall k', k' ∈ match v with JArray [] => [k] | _ => empty_keys v end -> k' ∈ ks) as Hk'.
    { intros k' Hk'. by apply Hk, (elem_of_concat_map _ fs (k, v)). }
    destruct (stable_field k v Hs) as [He Hv]. unfold g. rewrite is_empty_object_decode by done.
    destruct Hv as [->|Hv]; [rewrite bool_decide_eq_true_2; set_solver|].
    assert (match v with JArray [] => true | _ => false end = false) as -> by by destruct v as [| | | |[]|].
    simpl. apply IH; [done|]. intros k' ?. apply Hk'. by destruct v as [| | | |[]|].
Qed.
(** The empty objects of a decoded document are the empty arrays of the original. *)
Definition count (k : string) (ks : list string) : nat := length (List.filter (String.eqb k) ks).

Lemma count_app k l1 l2 : count k (l1 ++ l2) = (count k l1 + count k l2)%nat.
Proof. unfold count. by rewrite List.filter_app, length_app. Qed.

Lemma count_concat_map {A} k (f : A -> list string) (g : A -> nat) l :
  Forall (fun x => g x = count k (f x)) l ->
  list_sum (map g l) = count k (concat (map f l)).
Proof. induction 1 as [|x l Hx _ IH]; simpl; [done|]. by rewrite count_app, Hx, IH. Qed.

Lemma nodup_count k ks : NoDup ks -> (count k ks <= 1)%nat.
Proof.
  unfold count. induction 1 as [|x ks Hx _ IH]; simpl; [lia|].
  destruct (String.eqb_spec k x) as [->|]; simpl; [|done].
  assert (List.filter (String.eqb x) ks = []) as ->; [|done].
  clear IH. induction ks as [|y ks IH]; simpl; [done|]. apply not_elem_of_cons in Hx as [Hne Hx].
  destruct (String.eqb_spec x y); [done|]. auto.
Qed.

Lemma occ_decode k j : lua_stable j = true -> occ k (cjson_decode j) = count k (empty_keys j).
Proof.
  induction j as [| | | |l IH|fs IH] using json_induction; try done.
  - intros Hs. destruct l as [|x l]; [done|].
    change (list_sum (map (occ k) (map cjson_decode (x :: l))) =
            count k (concat (map empty_keys (x :: l)))).
    rewrite map_map. apply count_concat_map. apply forallb_Forall in Hs.
    revert IH Hs. apply Forall_conj. auto.
  - intros [_ Hs%forallb_Forall]%andb_true_iff.
    set (g := fun '(k', v) =>
      ((if String.eqb k' k && is_empty_object v then 1 else 0) + occ k v)%nat).
    change (list_sum (map g (map (fun '(k, v) => (k, cjson_decode v)) fs)) =
            count k (empty_keys (JObject fs))).
    rewrite map_map. apply count_concat_map. revert IH Hs. apply Forall_conj.
    intros [k' v] Hv Hf. cbn [snd] in Hv. unfold g. destruct (stable_field k' v Hf) as [He Hs].
    rewrite is_empty_object_decode by done. destruct Hs as [->|Hs].
    + simpl. rewrite andb_true_r, (String.eqb_sym k' k). unfold count. simpl.
      by destruct (String.eqb k k').
    + assert (match v with JArray [] => true | _ => false end = false) as ->
        by by destruct v as [| | | |[]|].
      rewrite andb_false_r, (Hv Hs). by destruct v as [| | | |[]|].
Qed.

(** Decoding, encoding and repairing a document gives it back, up to the order of fields, if
    the repaired keys include those of its empty arrays. *)
Lemma cjson_roundtrip ks j :
  lua_safe j -> (forall k, k ∈ empty_keys j -> k ∈ ks) ->
  norm (restore_arrays ks (cjson_encode (cjson_decode j))) = norm j.
Proof.
  intros [Hs Hnd] Hks. pose proof (norm_encode _ (keys_ok_decode j Hs)) as Hn.
  rewrite restore_arrays_fill.
  - by rewrite norm_fill, Hn, <- norm_fill, fill_decode.
  - intros k. rewrite <- occ_norm, Hn, occ_norm, occ_decode by done. by apply nodup_count.
Qed.

Lemma forallb_perm {A} (f : A -> bool) l1 l2 : l1 ≡ₚ l2 -> forallb f l1 = forallb f l2.
Proof. induction 1; simpl; [done|congruence| |congruence]. by destruct (f x), (f y). Qed.

Lemma forallb_ext_Forall {A} (f g : A -> bool) l :
  Forall (fun x => f x = g x) l -> forallb f l = forallb g l.
Proof. induction 1; simpl; congruence. Qed.

Lemma forallb_map {A B} (f : B -> bool) (g : A -> B) l :
  forallb f (map g l) = forallb (fun x => f (g x)) l.
Proof. induction l; simpl; congruence. Qed.

(** *** Fields of a table *)

(** [t[k]] *)
Definition lua_get (k : string) (fs : list field) : option json :=
  snd <$> head (fields_named k fs).

(** [for k, v in pairs(patch) do t[k] = v end] *)
Definition set_all (ps fs : list field) : list field :=
  fold_left (fun fs '(k, v) => set_field k v fs) ps fs.

Lemma has_key k (fs : list field) :
  k ∈ fs.*1 -> existsb (fun kv => String.eqb (fst kv) k) fs = true.
Proof.
  intros ([k' v'] & -> & Hin)%list_elem_of_fmap. apply existsb_exists.
  exists (k', v'). split; [by apply list_elem_of_In | apply String.eqb_refl].
Qed.

Lemma set_field_present k v fs :
  k ∈ fs.*1 -> set_field k v fs = map_values (fun k' v' => if String.eqb k' k then v else v') fs.
Proof. intros Hk. unfold set_field. by rewrite has_key. Qed.

Lemma set_field_keys k v fs : k ∈ fs.*1 -> (set_field k v fs).*1 = fs.*1.
Proof. intros Hk. rewrite set_field_present by done. apply map_values_keys. Qed.

Lemma norm_fields_keys fs : (norm_fields fs).*1 ≡ₚ fs.*1.
Proof.
  unfold norm_fields. rewrite sorted_by_perm. fold (map_values (fun _ => norm) fs).
  by rewrite map_values_keys.
Qed.

(** Setting fields that are there does not depend on their order. *)
Lemma norm_fields_set_field k v fs :
  k ∈ fs.*1 -> norm_fields (set_field k v fs) = set_field k (norm v) (norm_fields fs).
Proof.
  intros Hk. rewrite !set_field_present by (rewrite ?norm_fields_keys; done).
  rewrite !norm_fields_eq, sorted_by_map_values, !map_values_comp. apply map_values_ext.
  apply Forall_forall. intros [k' v'] _. simpl. by destruct (String.eqb k' k).
Qed.

Lemma norm_fields_set_all ps fs :
  Forall (fun kv => fst kv ∈ fs.*1) ps ->
  norm_fields (set_all ps fs) = set_all (map_values (fun _ => norm) ps) (norm_fields fs).
Proof.
  revert fs. induction ps as [|[k v] ps IH]; intros fs Hps; [done|]. simpl in *.
  inversion Hps as [|?? Hk Hps']; subst. simpl in Hk.
  rewrite IH, norm_fields_set_field; [done..|].
  eapply Forall_impl; [exact Hps'|]. simpl. intros ?. by rewrite set_field_keys.
Qed.

Lemma set_all_norm_ext ps fs fs' :
  Forall (fun kv => fst kv ∈ fs.*1) ps -> norm_fields fs = norm_fields fs' ->
  norm_fields (set_all ps fs) = norm_fields (set_all ps fs').
Proof.
  intros Hps He.
  assert (Forall (fun kv => fst kv ∈ fs'.*1) ps).
  { eapply Forall_impl; [exact Hps|]. simpl. intros ?.
    by rewrite <- (norm_fields_keys fs), He, norm_fields_keys. }
  by rewrite !norm_fields_set_all, He.
Qed.

Lemma set_all_keys ps fs : Forall (fun kv => fst kv ∈ fs.*1) ps -> (set_all ps fs).*1 = fs.*1.
Proof.
  revert fs. induction ps as [|[k v] ps IH]; intros fs Hps; [done|]. simpl in *.
  inversion Hps as [|?? Hk Hps']; subst. simpl in Hk.
  rewrite IH; [by apply set_field_keys|]. by rewrite set_field_keys.
Qed.

Lemma set_field_decode k v fs :
  map_values (fun _ => cjson_decode) (set_field k v fs) =
  set_field k (cjson_decode v) (map_values (fun _ => cjson_decode) fs).
Proof.
  unfold set_field.
  assert (existsb (fun kv => String.eqb (fst kv) k) (map_values (fun _ => cjson_decode) fs) =
          existsb (fun kv => String.eqb (fst kv) k) fs) as ->
    by (induction fs as [|[k' v'] fs IH]; simpl; congruence).
  destruct (existsb _ fs).
  - rewrite !map_values_comp. apply map_values_ext, Forall_forall. intros [k' v'] _. simpl.
    by destruct (String.eqb k' k).
  - unfold map_values. by rewrite map_app.
Qed.

Lemma set_all_decode ps fs :
  map_values (fun _ => cjson_decode) (set_all ps fs) =
  set_all (map_values (fun _ => cjson_decode) ps) (map_values (fun _ => cjson_decode) fs).
Proof.
  revert fs. induction ps as [|[k v] ps IH]; intros fs; [done|]. simpl.
  by rewrite IH, set_field_decode.
Qed.

(** The fields after setting come from the table or from the patch. *)
Lemma elem_of_set_field k v fs kv : kv ∈ set_field k v fs -> kv ∈ fs \/ kv = (k, v).
Proof.
  unfold set_field. destruct (existsb _ fs).
  - unfold map_values. intros ([k' v'] & -> & Hin)%list_elem_of_fmap.
    destruct (String.eqb_spec k' k) as [->|]; auto.
  - rewrite elem_of_app, list_elem_of_singleton. tauto.
Qed.

Lemma elem_of_set_all ps fs kv : kv ∈ set_all ps fs -> kv ∈ fs \/ kv ∈ ps.
Proof.
  revert fs. induction ps as [|[k v] ps IH]; intros fs; simpl; [auto|].
  intros [Hin|Hin]%IH; [|set_solver]. apply elem_of_set_field in Hin. set_solver.
Qed.

(** The keys of empty arrays in one field. *)
Definition field_empty_keys (kv : field) : list string :=
  let '(k, v) := kv in match v with JArray [] => [k] | _ => empty_keys v end.

Lemma elem_of_empty_keys k fs :
  k ∈ empty_keys (JObject fs) <-> exists kv, kv ∈ fs /\ k ∈ field_empty_keys kv.
Proof.
  change (empty_keys (JObject fs)) with (concat (map field_empty_keys fs)). split.
  - intros (l & Hl & Hk)%list_elem_of_In%in_concat. apply in_map_iff in Hl as (kv & <- & Hin).
    exists kv. split; by apply list_elem_of_In.
  - intros (kv & Hin & Hk). by apply (elem_of_concat_map field_empty_keys fs kv).
Qed.

Lemma empty_keys_set_all ps fs k :
  k ∈ empty_keys (JObject (set_all ps fs)) ->
  k ∈ empty_keys (JObject fs) ++ empty_keys (JObject ps).
Proof.
  rewrite elem_of_app, !elem_of_empty_keys. intros (kv & Hin & Hk).
  apply elem_of_set_all in Hin as [?|?]; eauto.
Qed.

Lemma lua_get_norm k fs : lua_get k (norm_fields fs) = norm <$> lua_get k fs.
Proof.
  unfold lua_get. rewrite fields_named_norm. by destruct (fields_named k fs) as [|[]].
Qed.

Lemma fields_named_set_field_ne k k' v fs :
  k <> k' -> fields_named k (set_field k' v fs) = fields_named k fs.
Proof.
  intros Hne. unfold set_field. destruct (existsb _ fs).
  - induction fs as [|[k0 v0] fs IH]; [done|]. simpl. rewrite IH.
    destruct (String.eqb_spec k0 k) as [->|]; [|done].
    by rewrite (proj2 (String.eqb_neq k k') Hne).
  - unfold fields_named. rewrite List.filter_app. simpl.
    rewrite (proj2 (String.eqb_neq k' k)) by done. by rewrite app_nil_r.
Qed.

Lemma fields_named_nodup k v fs :
  NoDup fs.*1 -> (k, v) ∈ fs -> fields_named k fs = [(k, v)].
Proof.
  induction fs as [|[k0 v0] fs IH]; intros Hnd Hin; [by apply elem_of_nil in Hin|].
  apply NoDup_cons in Hnd as [Hk0 Hnd]. simpl.
  destruct (String.eqb_spec k0 k) as [->|Hne].
  - apply elem_of_cons in Hin as [[= ->]|Hin];
      [|exfalso; apply Hk0, list_elem_of_fmap; by exists (k, v)].
    f_equal. clear IH. induction fs as [|[k1 v1] fs IH]; [done|]. simpl.
    apply not_elem_of_cons in Hk0 as [Hne Hk0]. apply NoDup_cons in Hnd as [_ Hnd].
    rewrite (proj2 (String.eqb_neq k1 k)); [by apply IH|]. simpl in Hne. congruence.
  - apply elem_of_cons in Hin as [[= ]|Hin]; [done|]. by apply IH.
Qed.

Lemma set_field_nodup k v fs : NoDup fs.*1 -> NoDup (set_field k v fs).*1.
Proof.
  intros Hnd. unfold set_field. destruct (existsb _ fs) eqn:E; [by rewrite map_values_keys|].
  rewrite fmap_app. apply NoDup_app. split_and!; [done| |apply NoDup_singleton].
  intros k' Hin Hk. apply list_elem_of_singleton in Hk. simpl in Hk. subst k'.
  by rewrite has_key in E.
Qed.

Lemma fields_named_set_field_eq k v fs :
  NoDup fs.*1 -> fields_named k (set_field k v fs) = [(k, v)].
Proof.
  intros Hnd. apply fields_named_nodup; [by apply set_field_nodup|].
  unfold set_field. destruct (existsb _ fs) eqn:E.
  - apply existsb_exists in E as ([k' v'] & Hin & Hk%String.eqb_eq). simpl in Hk. subst k'.
    apply list_elem_of_In, in_map_iff. exists (k, v'). by rewrite String.eqb_refl.
  - apply elem_of_app. right. apply list_elem_of_singleton. done.
Qed.

(** *** Editing the text in place *)

(** No field is named [k], at any depth. *)
Fixpoint key_free (k : string) (j : json) : bool :=
  match j with
  | JArray l => forallb (key_free k) l
  | JObject fs => forallb (fun '(k', v) => negb (String.eqb k' k) && key_free k v) fs
  | _ => true
  end.

Lemma replace_first_free p k w j : key_free k j = true -> replace_first p k w j = None.
Proof.
  induction j as [| | | |l IH|fs IH] using json_induction; try done; simpl.
  - intros Hf%forallb_Forall.
    assert ((fix go (l : list json) : option (list json) :=
        match l with
        | [] => None
        | x :: l' => match replace_first p k w x with
                     | Some x' => Some (x' :: l')
                     | None => cons x <$> go l'
                     end
        end) l = None) as ->; [|done].
    induction IH as [|x l Hx _ IHl]; [done|]. inversion Hf; subst. by rewrite Hx, IHl.
  - intros Hf%forallb_Forall.
    match goal with |- JObject <$> ?o = None => assert (o = None) as ->; [|done] end.
    induction IH as [|[k' v] fs Hv _ IHl]; [done|]. inversion Hf as [|?? Hkv Hf']; subst.
    apply andb_true_iff in Hkv as [Hne%negb_true_iff Hk]. rewrite Hne. simpl in *.
    by rewrite Hv, IHl.
Qed.

(** The field to replace is a root field, and the only one of that name. *)
Definition root_only (k : string) (fs : list field) : Prop :=
  NoDup fs.*1 /\ Forall (fun kv => key_free k (snd kv) = true) fs.

Lemma set_field_absent k v fs : k ∉ fs.*1 -> map_values (fun k' v' => if String.eqb k' k then v else v') fs = fs.
Proof.
  induction fs as [|[k' v'] fs IH]; intros Hk; [done|]. simpl in *.
  apply not_elem_of_cons in Hk as [Hne Hk]. rewrite IH by done.
  by rewrite (proj2 (String.eqb_neq k' k)).
Qed.

Lemma replace_first_root p k v w fs :
  root_only k fs -> lua_get k fs = Some v ->
  replace_first p k w (JObject fs) = if p v then Some (JObject (set_field k w fs)) else None.
Proof.
  intros [Hnd Hf] Hg.
  assert (k ∈ fs.*1) as Hk.
  { unfold lua_get in Hg. destruct (fields_named k fs) as [|[k' v'] l] eqn:E; [done|].
    assert ((k', v') ∈ fields_named k fs) as Hin by (rewrite E; left).
    unfold fields_named in Hin. apply list_elem_of_In, filter_In in Hin as [Hin He%String.eqb_eq].
    simpl in He. subst. apply list_elem_of_fmap. exists (k, v'). by rewrite list_elem_of_In. }
  rewrite set_field_present by done. simpl.
  match goal with |- JObject <$> ?o = _ =>
    assert (o = if p v then Some (map_values (fun k' v' => if String.eqb k' k then w else v') fs)
                else None) as ->; [|by destruct (p v)] end.
  clear Hk. unfold lua_get in Hg.
  induction fs as [|[k' v'] fs IH]; [done|]. inversion Hf as [|?? Hv Hf']; subst.
  apply NoDup_cons in Hnd as [Hk' Hnd]. simpl in *.
  destruct (String.eqb_spec k' k) as [->|Hne]; simpl in *.
  - simplify_eq. destruct (p v); [by rewrite set_field_absent|].
    rewrite replace_first_free by done.
    assert (key_free k (JObject fs) = true) as Hfree.
    { simpl. apply forallb_forall. intros [k1 v1] Hin. rewrite List.Forall_forall in Hf'.
      specialize (Hf' _ Hin). simpl in Hf'. rewrite Hf', andb_true_r. apply negb_true_iff.
      apply String.eqb_neq. intros ->. apply Hk', list_elem_of_fmap. exists (k, v1).
      by rewrite list_elem_of_In. }
    pose proof (replace_first_free p k w _ Hfree) as Hn. simpl in Hn.
    destruct ((fix go (fs : list field) : option (list field) := _) fs); done.
  - rewrite replace_first_free by done. rewrite IH by done. by destruct (p v).
Qed.

Lemma key_free_norm k j : key_free k (norm j) = key_free k j.
Proof.
  induction j as [| | | |l IH|fs IH] using json_induction; try done.
  - simpl. rewrite forallb_map. by apply forallb_ext_Forall.
  - rewrite norm_object. cbn [key_free]. unfold norm_fields.
    rewrite (forallb_perm _ _ _ (sorted_by_perm _ _)), forallb_map.
    apply forallb_ext_Forall. eapply Forall_impl; [exact IH|]. intros [k' v] Hv. simpl in *.
    by rewrite Hv.
Qed.

(** *** Safety does not depend on the order of fields *)

Lemma is_empty_array_norm v :
  match norm v with JArray [] => true | _ => false end =
  match v with JArray [] => true | _ => false end.
Proof. by destruct v as [| | | |[]|]. Qed.

Lemma lua_stable_norm j : lua_stable (norm j) = lua_stable j.
Proof.
  induction j as [| | | |l IH|fs IH] using json_induction; try done.
  - destruct l as [|x l]; [done|]. change (norm (JArray (x :: l))) with (JArray (map norm (x :: l))).
    change (forallb lua_stable (map norm (x :: l)) = forallb lua_stable (x :: l)).
    rewrite forallb_map. by apply forallb_ext_Forall.
  - rewrite norm_object.
    set (f := fun kv : field => let '(k, v) := kv in negb (is_empty_object v) &&
                match v with JArray [] => true | _ => lua_stable v end).
    change (bool_decide (NoDup (norm_fields fs).*1) && forallb f (norm_fields fs) =
            bool_decide (NoDup fs.*1) && forallb f fs).
    rewrite (bool_decide_ext (NoDup (norm_fields fs).*1) (NoDup fs.*1))
      by by rewrite norm_fields_keys. f_equal.
    unfold norm_fields. rewrite (forallb_perm f _ _ (sorted_by_perm _ _)), forallb_map.
    apply forallb_ext_Forall. eapply Forall_impl; [exact IH|]. intros [k v] Hv. simpl in *.
    rewrite is_empty_object_norm. f_equal. destruct v as [| | | |[]|]; done.
Qed.

Lemma empty_keys_norm j : empty_keys (norm j) ≡ₚ empty_keys j.
Proof.
  induction j as [| | | |l IH|fs IH] using json_induction; try done.
  - change (concat (map empty_keys (map norm l)) ≡ₚ concat (map empty_keys l)).
    rewrite map_map. induction IH as [|x l Hx _ IHl]; simpl; [done|]. by rewrite Hx, IHl.
  - rewrite norm_object.
    change (concat (map field_empty_keys (norm_fields fs)) ≡ₚ concat (map field_empty_keys fs)).
    transitivity (concat (map field_empty_keys (map_values (fun _ => norm) fs))).
    + unfold norm_fields. rewrite <- !flat_map_concat_map.
      apply Permutation_flat_map, sorted_by_perm.
    + unfold map_values. rewrite map_map. induction IH as [|[k v] fs Hv _ IHl]; simpl; [done|].
      rewrite IHl. apply Permutation_app_tail. destruct v as [| | | |[]|]; done.
Qed.

Lemma lua_safe_norm j j' : norm j = norm j' -> lua_safe j' -> lua_safe j.
Proof.
  intros He [Hs Hnd]. split.
  - by rewrite <- lua_stable_norm, He, lua_stable_norm.
  - by rewrite <- empty_keys_norm, He, empty_keys_norm.
Qed.
End Lua.

(** ** Round trips of the primitive types *)

Lemma unsigned_literal_print n : printable n -> unsigned_literal (print_dec n) = Some n.
Proof.
  intros Hn. destruct (digits_spec n Hn) as [Hd Hv]. unfold unsigned_literal, print_dec.
  rewrite digits_of_string_of_digits by done.
  destruct (digits_head n Hn) as (d & l & He & _). rewrite He in *. by rewrite Hv.
Qed.

Lemma print_dec_first n :
  printable n -> exists c s, print_dec n = String c s /\ c <> "-"%char /\ c <> "+"%char.
Proof.
  intros Hn. destruct (digits_spec n Hn) as [Hd _].
  destruct (digits_head n Hn) as (d & l & He & _). unfold print_dec. rewrite He in *. simpl.
  inversion Hd as [|?? Hd0 _]; subst. pose proof (digit_char_ascii d Hd0) as Hc.
  unfold is_digit in Hd0. eexists _, _. split; [done|].
  split; intros Heq; rewrite Heq in Hc;
    [change (45 = 48 + d) in Hc | change (43 = 48 + d) in Hc]; lia.
Qed.

Lemma integer_literal_print n : printable n -> integer_literal (print_dec n) = Some n.
Proof.
  intros Hn. destruct (print_dec_first n Hn) as (c & s & He & Hc & _).
  rewrite <- (unsigned_literal_print n Hn), He. simpl.
  by destruct (Ascii.eqb_spec c "-").
Qed.

Lemma u_printable mx n : 0 <= n <= mx -> mx < 10 ^ Z.of_nat max_digits -> printable n.
Proof. unfold printable. lia. Qed.

Lemma of_json_uint_print mx n :
  0 <= n <= mx -> mx <= u64_max -> of_json_uint mx (json_uint n) = Some n.
Proof.
  intros Hn Hmx. unfold of_json_uint, json_uint.
  rewrite integer_literal_print by (apply u64_printable; lia).
  by rewrite (proj2 (Z.leb_le 0 n)), (proj2 (Z.leb_le n mx)) by lia.
Qed.

Lemma parse_i64_print_signed n : - 2 ^ 63 <= n <= i64_max -> parse_i64 (print_signed n) = Some n.
Proof.
  intros Hn. unfold print_signed, i64_max in *. destruct (Z.ltb_spec n 0) as [Hneg|Hpos].
  - assert (printable (- n)) as Hp by (apply u64_printable; unfold u64_max; lia).
    change (match unsigned_literal (print_dec (- n)) with
            | Some m => if m <=? 2 ^ 63 then Some (- m) else None
            | None => None
            end = Some n).
    rewrite unsigned_literal_print by done.
    rewrite (proj2 (Z.leb_le (- n) (2 ^ 63))) by lia. f_equal. lia.
  - assert (printable n) as Hp by (apply u64_printable; unfold u64_max; lia).
    destruct (print_dec_first n Hp) as (c & s & He & Hc & _).
    transitivity (parse_unsigned i64_max (print_dec n)).
    + rewrite He. simpl. by destruct (Ascii.eqb_spec c "-").
    + apply parse_print_unsigned; [done|]. unfold i64_max. lia.
Qed.

Section RoundTrips.
Context `{JsonFloat}.

Lemma i64_roundtrip n : - 2 ^ 63 <= n <= i64_max -> deserialize_i64 (serialize_i64 n) = Some n.
Proof. apply parse_i64_print_signed. Qed.

Lemma u64_roundtrip n : 0 <= n <= u64_max -> deserialize_u64 (serialize_u64 n) = Some n.
Proof. intros Hn. apply parse_print_unsigned; [by apply u64_printable | lia]. Qed.

Lemma u128_roundtrip n : 0 <= n <= u128_max -> deserialize_u128 (serialize_u128 n) = Some n.
Proof.
  intros Hn. apply parse_print_unsigned; [|lia]. eapply u_printable; [exact Hn|]. by vm_compute.
Qed.

Lemma option_roundtrip {A} (enc : A -> json) (dec : json -> option A) o :
  (forall a, o = Some a -> enc a <> JNull /\ dec (enc a) = Some a) ->
  of_json_option dec (json_option enc o) = Some o.
Proof.
  intros Ho. destruct o as [a|]; [|done]. destruct (Ho a eq_refl) as [Hn Hd]. simpl.
  unfold of_json_option. destruct (enc a) eqn:He; try done; by rewrite Hd.
Qed.

Lemma list_roundtrip {A} (enc : A -> json) (dec : json -> option A) l :
  Forall (fun a => dec (enc a) = Some a) l -> of_json_list dec (json_list enc l) = Some l.
Proof.
  intros Hl. unfold of_json_list, json_list. apply mapM_Some. rewrite Forall2_fmap_l.
  induction Hl; constructor; auto.
Qed.
End RoundTrips.
