(* ===== verification/Model.v ===== *)
(** * Transactions as the repository stores them

    The data of [models/transaction/repository.rs]: transaction status, metadata, the stored
    model and the partial update request, with the network data of the three chains, and the
    methods that act on them ([apply_partial_update], the EVM data builders, the reset
    request).  Timestamps are RFC 3339 strings as in the source; reading and printing them is
    chrono's, the class [Chrono]. *)

From S2P Require Import Prelude Decimal Errors.
Open Scope Z_scope.

(** ** Time

    Instants are nanoseconds since the Unix epoch.  [parse_rfc3339] and [to_rfc3339] stand for
    [DateTime::parse_from_rfc3339] and [DateTime::to_rfc3339]; printing then parsing an
    instant of the years 1970 to 9999 gives it back. *)

Definition rfc3339_end : Z := 253402300800 * 10 ^ 9.

Class Chrono := {
  parse_rfc3339 : string -> option Z;
  (** The message of the parse error, when there is one. *)
  parse_rfc3339_error : string -> string;
  to_rfc3339 : Z -> string;
  parse_to_rfc3339 : forall t, 0 <= t < rfc3339_end -> parse_rfc3339 (to_rfc3339 t) = Some t;
  to_rfc3339_nonempty : forall t, to_rfc3339 t <> ""%string;
}.

(** [ServerConfig::get_transaction_expiration_hours()] converted to whole seconds,
    [(expiration_hours * 3600.0) as i64]. *)
Class ServerConfig := {
  transaction_expiration_seconds : Z;
}.

(** ** Status *)

Inductive TransactionStatus : Type :=
| Canceled | Pending | Sent | Submitted | Mined | Confirmed | Failed | Expired.

#[global] Instance TransactionStatus_eq_dec : EqDecision TransactionStatus.
Proof. solve_decision. Defined.

Definition status_eqb (a b : TransactionStatus) : bool := bool_decide (a = b).

Definition status_in (s : TransactionStatus) (l : list TransactionStatus) : bool :=
  existsb (status_eqb s) l.

Definition FINAL_TRANSACTION_STATUSES : list TransactionStatus :=
  [Canceled; Confirmed; Failed; Expired].

Definition PENDING_TRANSACTION_STATUSES : list TransactionStatus :=
  [Pending; Sent; Submitted].

(** [is_final_state] of [domain/transaction/common.rs] *)
Definition is_final_state (s : TransactionStatus) : bool :=
  match s with
  | Confirmed | Failed | Expired | Canceled => true
  | _ => false
  end.

(** [is_pending_transaction] of [domain/transaction/common.rs] *)
Definition is_pending_transaction (s : TransactionStatus) : bool :=
  match s with
  | Pending | Sent | Submitted => true
  | _ => false
  end.

Inductive NetworkType : Type := NtEvm | NtSolana | NtStellar.

#[global] Instance NetworkType_eq_dec : EqDecision NetworkType.
Proof. solve_decision. Defined.

Module Speed.
Inductive t : Type := Fastest | Fast | Average | SafeLow.
End Speed.

Definition DEFAULT_TRANSACTION_SPEED : Speed.t := Speed.Fast.

(** ** Network data *)

Record EvmTransactionDataSignature := {
  sig_r : string;
  sig_s : string;
  sig_v : Z;
  sig_sig : string;
}.

Record EvmTransactionData := {
  evm_gas_price : option Z;
  evm_gas_limit : option Z;
  evm_nonce : option Z;
  evm_value : Z;
  evm_data : option string;
  evm_from : string;
  evm_to : option string;
  evm_chain_id : Z;
  evm_hash : option string;
  evm_signature : option EvmTransactionDataSignature;
  evm_speed : option Speed.t;
  evm_max_fee_per_gas : option Z;
  evm_max_priority_fee_per_gas : option Z;
  evm_raw : option (list Byte.byte);
}.

Record SolanaAccountMeta := {
  sam_pubkey : string;
  sam_is_signer : bool;
  sam_is_writable : bool;
}.

Record SolanaInstructionSpec := {
  sis_program_id : string;
  sis_accounts : list SolanaAccountMeta;
  sis_data : string;
}.

Record SolanaTransactionData := {
  sol_transaction : option string;
  sol_instructions : option (list SolanaInstructionSpec);
  sol_signature : option string;
}.

Inductive AssetSpec : Type :=
| AssetNative
| AssetCredit4 (code issuer : string)
| AssetCredit12 (code issuer : string).

Inductive AuthSpec : Type :=
| AuthNone
| AuthSourceAccount
| AuthAddresses (signers : list string)
| AuthXdr (entries : list string).

Inductive ContractSource : Type :=
| FromAddress (address : string)
| FromContract (contract : string).

Inductive WasmSource : Type :=
| WasmHex (hex : string)
| WasmBase64 (base64 : string).

Inductive OperationSpec : Type :=
| Payment (destination : string) (amount : Z) (asset : AssetSpec)
| InvokeContract (contract_address function_name : string) (args : list json)
    (auth : option AuthSpec)
| CreateContract (source : ContractSource) (wasm_hash : string) (salt : option string)
    (constructor_args : option (list json)) (auth : option AuthSpec)
| UploadWasm (wasm : WasmSource) (auth : option AuthSpec).

Inductive MemoSpec : Type :=
| MemoNone
| MemoText (value : string)
| MemoId (value : Z)
| MemoHash (value : list Byte.byte)
| MemoReturn (value : list Byte.byte).

(** [stellar_xdr::DecoratedSignature]: a hint and a signature, both byte strings. *)
Record DecoratedSignature := {
  ds_hint : list Byte.byte;
  ds_signature : list Byte.byte;
}.

Inductive TransactionInput : Type :=
| Operations (ops : list OperationSpec)
| UnsignedXdr (xdr : string)
| SignedXdr (xdr : string) (max_fee : Z)
| SorobanGasAbstraction (xdr signed_auth_entry : string).

Record StellarTransactionData := {
  st_source_account : string;
  st_fee : option Z;
  st_sequence_number : option Z;
  st_memo : option MemoSpec;
  st_valid_until : option string;
  st_network_passphrase : string;
  st_signatures : list DecoratedSignature;
  st_hash : option string;
  st_simulation_transaction_data : option string;
  st_transaction_input : TransactionInput;
  st_signed_envelope_xdr : option string;
  st_transaction_result_xdr : option string;
}.

Definition reset_to_pre_prepare_state (d : StellarTransactionData) : StellarTransactionData :=
  {| st_source_account := st_source_account d;
     st_fee := None;
     st_sequence_number := None;
     st_memo := st_memo d;
     st_valid_until := st_valid_until d;
     st_network_passphrase := st_network_passphrase d;
     st_signatures := [];
     st_hash := None;
     st_simulation_transaction_data := None;
     st_transaction_input := st_transaction_input d;
     st_signed_envelope_xdr := None;
     st_transaction_result_xdr := st_transaction_result_xdr d |}.

Inductive NetworkTransactionData : Type :=
| EvmData (d : EvmTransactionData)
| SolanaData (d : SolanaTransactionData)
| StellarData (d : StellarTransactionData).

Definition get_evm_transaction_data (n : NetworkTransactionData)
  : result TransactionError.t EvmTransactionData :=
  match n with
  | EvmData d => Ok d
  | _ => Err (TransactionError.InvalidType "Expected EVM transaction")
  end.

Definition get_solana_transaction_data (n : NetworkTransactionData)
  : result TransactionError.t SolanaTransactionData :=
  match n with
  | SolanaData d => Ok d
  | _ => Err (TransactionError.InvalidType "Expected Solana transaction")
  end.

Definition get_stellar_transaction_data (n : NetworkTransactionData)
  : result TransactionError.t StellarTransactionData :=
  match n with
  | StellarData d => Ok d
  | _ => Err (TransactionError.InvalidType "Expected Stellar transaction")
  end.

(** ** Stored model and partial update *)

Record TransactionMetadata := {
  consecutive_failures : Z;
  total_failures : Z;
  insufficient_fee_retries : Z;
  try_again_later_retries : Z;
  nonce_too_high_retries : Z;
}.

Definition metadata_default : TransactionMetadata :=
  {| consecutive_failures := 0; total_failures := 0; insufficient_fee_retries := 0;
     try_again_later_retries := 0; nonce_too_high_retries := 0 |}.

Definition with_nonce_retries_reset (m : TransactionMetadata) : option TransactionMetadata :=
  if nonce_too_high_retries m =? 0 then None
  else Some {| consecutive_failures := consecutive_failures m;
               total_failures := total_failures m;
               insufficient_fee_retries := insufficient_fee_retries m;
               try_again_later_retries := try_again_later_retries m;
               nonce_too_high_retries := 0 |}.

Record TransactionUpdateRequest := {
  upd_status : option TransactionStatus;
  upd_status_reason : option string;
  upd_sent_at : option string;
  upd_confirmed_at : option string;
  upd_network_data : option NetworkTransactionData;
  upd_priced_at : option string;
  upd_hashes : option (list string);
  upd_noop_count : option Z;
  upd_is_canceled : option bool;
  upd_delete_at : option string;
  upd_metadata : option TransactionMetadata;
}.

(** [TransactionUpdateRequest::default()] *)
Definition upd_default : TransactionUpdateRequest :=
  {| upd_status := None; upd_status_reason := None; upd_sent_at := None;
     upd_confirmed_at := None; upd_network_data := None; upd_priced_at := None;
     upd_hashes := None; upd_noop_count := None; upd_is_canceled := None;
     upd_delete_at := None; upd_metadata := None |}.

Record TransactionRepoModel := {
  tx_id : string;
  tx_relayer_id : string;
  tx_status : TransactionStatus;
  tx_status_reason : option string;
  tx_created_at : string;
  tx_sent_at : option string;
  tx_confirmed_at : option string;
  tx_valid_until : option string;
  tx_delete_at : option string;
  tx_network_data : NetworkTransactionData;
  tx_priced_at : option string;
  tx_hashes : list string;
  tx_network_type : NetworkType;
  tx_noop_count : option Z;
  tx_is_canceled : option bool;
  tx_metadata : option TransactionMetadata;
}.

Definition set_tx_id (id : string) (t : TransactionRepoModel) : TransactionRepoModel :=
  let 'Build_TransactionRepoModel _ a b c d e f g h i j k l m n o := t in
  Build_TransactionRepoModel id a b c d e f g h i j k l m n o.

Definition set_tx_network_data (nd : NetworkTransactionData) (t : TransactionRepoModel)
  : TransactionRepoModel :=
  let 'Build_TransactionRepoModel a b c d e f g h i _ k l m n o p := t in
  Build_TransactionRepoModel a b c d e f g h i nd k l m n o p.

Definition set_tx_confirmed_at (x : option string) (t : TransactionRepoModel)
  : TransactionRepoModel :=
  let 'Build_TransactionRepoModel a b c d e f _ h i j k l m n o p := t in
  Build_TransactionRepoModel a b c d e f x h i j k l m n o p.

Definition set_tx_sent_at (x : option string) (t : TransactionRepoModel)
  : TransactionRepoModel :=
  let 'Build_TransactionRepoModel a b c d e _ g h i j k l m n o p := t in
  Build_TransactionRepoModel a b c d e x g h i j k l m n o p.

Definition set_tx_metadata (x : option TransactionMetadata) (t : TransactionRepoModel)
  : TransactionRepoModel :=
  let 'Build_TransactionRepoModel a b c d e f g h i j k l m n o _ := t in
  Build_TransactionRepoModel a b c d e f g h i j k l m n o x.

(** [x.or(y)] with the update first: what [if let Some(v) = update.f { self.f = Some(v) }]
    leaves in an optional field. *)
Definition opt_or {A} (x y : option A) : option A :=
  match x with Some a => Some a | None => y end.

Section PartialUpdate.
Context `{Chrono} `{ServerConfig}.

(** [Utc::now()] is the argument [now]. *)
Definition calculate_delete_at (now : Z) : option string :=
  Some (to_rfc3339 (now + transaction_expiration_seconds * 10 ^ 9)).

Definition update_delete_at_if_final_status (now : Z) (status : TransactionStatus)
    (delete_at : option string) : option string :=
  match delete_at with
  | None => if status_in status FINAL_TRANSACTION_STATUSES then calculate_delete_at now
            else None
  | Some d => Some d
  end.

Definition apply_partial_update (now : Z) (u : TransactionUpdateRequest)
    (t : TransactionRepoModel) : TransactionRepoModel :=
  {| tx_id := tx_id t;
     tx_relayer_id := tx_relayer_id t;
     tx_status := default (tx_status t) (upd_status u);
     tx_status_reason := opt_or (upd_status_reason u) (tx_status_reason t);
     tx_created_at := tx_created_at t;
     tx_sent_at := opt_or (upd_sent_at u) (tx_sent_at t);
     tx_confirmed_at := opt_or (upd_confirmed_at u) (tx_confirmed_at t);
     tx_valid_until := tx_valid_until t;
     tx_delete_at :=
       opt_or (upd_delete_at u)
         match upd_status u with
         | Some s => update_delete_at_if_final_status now s (tx_delete_at t)
         | None => tx_delete_at t
         end;
     tx_network_data := default (tx_network_data t) (upd_network_data u);
     tx_priced_at := opt_or (upd_priced_at u) (tx_priced_at t);
     tx_hashes := default (tx_hashes t) (upd_hashes u);
     tx_network_type := tx_network_type t;
     tx_noop_count := opt_or (upd_noop_count u) (tx_noop_count t);
     tx_is_canceled := opt_or (upd_is_canceled u) (tx_is_canceled t);
     tx_metadata := opt_or (upd_metadata u) (tx_metadata t) |}.
End PartialUpdate.

Definition create_reset_update_request (t : TransactionRepoModel)
  : result TransactionError.t TransactionUpdateRequest :=
  Ok {| upd_status := Some Pending;
        upd_status_reason := None;
        upd_sent_at := None;
        upd_confirmed_at := None;
        upd_network_data :=
          match tx_network_data t with
          | StellarData d => Some (StellarData (reset_to_pre_prepare_state d))
          | _ => None
          end;
        upd_priced_at := None;
        upd_hashes := Some [];
        upd_noop_count := None;
        upd_is_canceled := None;
        upd_delete_at := None;
        upd_metadata := None |}.

(** ** EVM request and EVM data builders *)

Record EvmTransactionRequest := {
  req_to : option string;
  req_value : Z;
  req_data : option string;
  req_gas_limit : option Z;
  req_gas_price : option Z;
  req_speed : option Speed.t;
  req_max_fee_per_gas : option Z;
  req_max_priority_fee_per_gas : option Z;
  req_valid_until : option string;
}.

Record PriceParams := {
  pp_gas_price : option Z;
  pp_max_fee_per_gas : option Z;
  pp_max_priority_fee_per_gas : option Z;
  pp_is_min_bumped : option bool;
  pp_extra_fee : option Z;
  pp_total_cost : Z;
}.

Record SignTransactionResponseEvm := {
  sr_hash : string;
  sr_signature : EvmTransactionDataSignature;
  sr_raw : list Byte.byte;
}.

Definition for_replacement (old_data : EvmTransactionData) (request : EvmTransactionRequest)
  : EvmTransactionData :=
  {| evm_chain_id := evm_chain_id old_data;
     evm_from := evm_from old_data;
     evm_nonce := evm_nonce old_data;
     evm_to := req_to request;
     evm_value := req_value request;
     evm_data := req_data request;
     evm_gas_limit := req_gas_limit request;
     evm_speed := opt_or (opt_or (req_speed request) (evm_speed old_data))
                    (Some DEFAULT_TRANSACTION_SPEED);
     evm_gas_price := None;
     evm_max_fee_per_gas := None;
     evm_max_priority_fee_per_gas := None;
     evm_signature := None;
     evm_hash := None;
     evm_raw := None |}.

Definition with_price_params (d : EvmTransactionData) (p : PriceParams) : EvmTransactionData :=
  let 'Build_EvmTransactionData _ gl n v da fr to ci h s sp _ _ r := d in
  Build_EvmTransactionData (pp_gas_price p) gl n v da fr to ci h s sp
    (pp_max_fee_per_gas p) (pp_max_priority_fee_per_gas p) r.

Definition with_gas_estimate (d : EvmTransactionData) (gas_limit : Z) : EvmTransactionData :=
  let 'Build_EvmTransactionData gp _ n v da fr to ci h s sp mf mp r := d in
  Build_EvmTransactionData gp (Some gas_limit) n v da fr to ci h s sp mf mp r.

Definition with_nonce (d : EvmTransactionData) (nonce : Z) : EvmTransactionData :=
  let 'Build_EvmTransactionData gp gl _ v da fr to ci h s sp mf mp r := d in
  Build_EvmTransactionData gp gl (Some nonce) v da fr to ci h s sp mf mp r.

Definition with_signed_transaction_data (d : EvmTransactionData)
    (sig : SignTransactionResponseEvm) : EvmTransactionData :=
  let 'Build_EvmTransactionData gp gl n v da fr to ci _ _ sp mf mp _ := d in
  Build_EvmTransactionData gp gl n v da fr to ci (Some (sr_hash sig))
    (Some (sr_signature sig)) sp mf mp (Some (sr_raw sig)).

Definition is_legacy (d : EvmTransactionData) : bool := bool_decide (is_Some (evm_gas_price d)).

Definition is_eip1559 (d : EvmTransactionData) : bool :=
  bool_decide (is_Some (evm_max_fee_per_gas d)) &&
  bool_decide (is_Some (evm_max_priority_fee_per_gas d)).

Definition is_speed (d : EvmTransactionData) : bool := bool_decide (is_Some (evm_speed d)).

(** The EVM nonce of a stored transaction, if it has one. *)
Definition tx_nonce (t : TransactionRepoModel) : option Z :=
  match tx_network_data t with EvmData d => evm_nonce d | _ => None end.

(** ** Lemmas on partial updates *)

Lemma is_final_state_spec s :
  is_final_state s = status_in s FINAL_TRANSACTION_STATUSES.
Proof. by destruct s. Qed.

Lemma status_in_spec s l : status_in s l = true <-> s ∈ l.
Proof.
  unfold status_in. rewrite existsb_exists, list_elem_of_In. unfold status_eqb.
  split; [intros (x & Hin & Hx) | intros Hin; exists s]; rewrite bool_decide_eq_true in *;
    naive_solver.
Qed.

(** A finalized transaction carries its deletion time.  This is the type invariant of the
    stored model: the clean-up worker relies on it. *)
Definition wf_tx (t : TransactionRepoModel) : Prop :=
  is_final_state (tx_status t) = true -> is_Some (tx_delete_at t).

Section PartialUpdateLemmas.
Context `{Chrono} `{ServerConfig}.

Lemma apply_partial_update_id now u t :
  tx_id (apply_partial_update now u t) = tx_id t /\
  tx_relayer_id (apply_partial_update now u t) = tx_relayer_id t /\
  tx_created_at (apply_partial_update now u t) = tx_created_at t.
Proof. done. Qed.

Lemma apply_partial_update_wf now u t :
  wf_tx t -> wf_tx (apply_partial_update now u t).
Proof.
  unfold wf_tx. simpl. intros Hwf Hf.
  destruct (upd_delete_at u) as [d|]; simpl; [by eexists|].
  destruct (upd_status u) as [s|]; simpl in *; [|by apply Hwf].
  destruct (tx_delete_at t) as [d|]; simpl; [by eexists|].
  destruct s; simplify_eq/=; by eexists.
Qed.

(** An expiry that was set is never moved by a status change. *)
Lemma apply_partial_update_delete_at_kept now u t d :
  tx_delete_at t = Some d -> upd_delete_at u = None ->
  tx_delete_at (apply_partial_update now u t) = Some d.
Proof. intros Ht Hu. simpl. rewrite Hu, Ht. simpl. by destruct (upd_status u). Qed.
End PartialUpdateLemmas.

(** ** A sample clock

    Timestamps that print as decimal numbers of nanoseconds; used to instantiate theorems. *)

#[program] Definition sample_chrono : Chrono := {|
  parse_rfc3339 := parse_unsigned u128_max;
  parse_rfc3339_error := fun _ => "premature end of input"%string;
  to_rfc3339 := print_dec;
|}.
Next Obligation.
  intros t [Ht Ht']. apply parse_print_unsigned.
  - split; [done|]. eapply Z.lt_le_trans; [exact Ht' | by vm_compute].
  - unfold rfc3339_end, u128_max in *. lia.
Qed.
Next Obligation.
  assert (forall f z acc, (0 < f)%nat \/ acc <> [] -> digits_fuel f z acc <> []) as Hd.
  { induction f as [|f IH]; simpl; intros z acc Hf; [by destruct Hf; [lia|]|].
    destruct (z <? 10); [done|]. apply IH. by right. }
  intros t Ht. unfold print_dec, digits in Ht.
  destruct (digits_fuel max_digits t []) eqn:E; [|done].
  apply (Hd max_digits t []) in E; [done|]. left. unfold max_digits. lia.
Qed.

Definition sample_config : ServerConfig := {| transaction_expiration_seconds := 14400 |}.

Definition sample_order : HashOrder TransactionRepoModel := map_order_instance _.
