(* ===== verification/TransactionJson.v ===== *)
(** * Transactions as JSON documents

    The JSON form of the stored models of [models/transaction/repository.rs],
    [models/transaction/solana], [models/transaction/stellar] and [models/transaction/request/evm.rs],
    field by field and attribute by attribute, as serde's derived code writes and reads it, and
    the patch document of an update request.  The main results are that reading what was
    written gives the model back, whatever the order of the fields, and that the patch of an
    update, set over a document, is the document of the updated model.

    The readers accept the forms the writers write, in any order of fields.  Forms that serde
    accepts beside them and that nothing here writes are not read: a struct given as the array of
    its fields, a variant without data given as an object with a null, a [U256] given as a
    number. *)

From S2P Require Import Prelude Decimal Errors Json Model.
Open Scope Z_scope.

(** ** Codecs of other crates

    [hex::serde] and the hexadecimal strings of stellar-xdr, and the string alloy writes for a
    [U256]. *)

Class ForeignSerde := {
  hex_encode : list Byte.byte -> string;
  hex_decode : string -> option (list Byte.byte);
  hex_roundtrip : forall l, hex_decode (hex_encode l) = Some l;
  u256_string : Z -> string;
  u256_of_string : string -> option Z;
  u256_roundtrip : forall n, 0 <= n <= u256_max -> u256_of_string (u256_string n) = Some n;
  u256_bounds : forall s n, u256_of_string s = Some n -> 0 <= n <= u256_max;
}.

(** ** Enumerations without data *)

(** [#[serde(rename_all = "lowercase")]] *)
Definition status_string (s : TransactionStatus) : string :=
  match s with
  | Canceled => "canceled" | Pending => "pending" | Sent => "sent" | Submitted => "submitted"
  | Mined => "mined" | Confirmed => "confirmed" | Failed => "failed" | Expired => "expired"
  end.

Definition ALL_TRANSACTION_STATUSES : list TransactionStatus :=
  [Canceled; Pending; Sent; Submitted; Mined; Confirmed; Failed; Expired].

(** The variant whose name is [s]. *)
Definition by_name {A} (name : A -> string) (l : list A) (s : string) : option A :=
  find (fun a => String.eqb (name a) s) l.

Definition enum_of_json {A} (name : A -> string) (l : list A) (j : json) : option A :=
  match j with JString s => by_name name l s | _ => None end.

Definition status_json (s : TransactionStatus) : json := JString (status_string s).
Definition status_of_json : json -> option TransactionStatus :=
  enum_of_json status_string ALL_TRANSACTION_STATUSES.

Definition network_type_string (n : NetworkType) : string :=
  match n with NtEvm => "evm" | NtSolana => "solana" | NtStellar => "stellar" end.
Definition network_type_json (n : NetworkType) : json := JString (network_type_string n).
Definition network_type_of_json : json -> option NetworkType :=
  enum_of_json network_type_string [NtEvm; NtSolana; NtStellar].

Definition speed_string (s : Speed.t) : string :=
  match s with
  | Speed.Fastest => "fastest" | Speed.Fast => "fast" | Speed.Average => "average"
  | Speed.SafeLow => "safeLow"
  end.
Definition speed_json (s : Speed.t) : json := JString (speed_string s).
Definition speed_of_json : json -> option Speed.t :=
  enum_of_json speed_string [Speed.Fastest; Speed.Fast; Speed.Average; Speed.SafeLow].

Section Codecs.
Context `{JsonFloat} `{ForeignSerde}.

Definition json_str (s : string) : json := JString s.

(** Shorthands for the field kinds of the models. *)
Definition req {A} (dec : json -> option A) (k : string) (fs : list field) : option A :=
  get_field dec None k fs.
Definition opt {A} (dec : json -> option A) (k : string) (fs : list field)
  : option (option A) := get_field (of_json_option dec) (Some None) k fs.

(** ** EVM *)

Definition u8_max : Z := 255.

Definition evm_signature_json (s : EvmTransactionDataSignature) : json :=
  JObject [("r", JString (sig_r s)); ("s", JString (sig_s s)); ("v", json_uint (sig_v s));
           ("sig", JString (sig_sig s))].

Definition evm_signature_of_json (j : json) : option EvmTransactionDataSignature :=
  match j with
  | JObject fs =>
      r ← req of_json_string "r" fs; s ← req of_json_string "s" fs;
      v ← req (of_json_uint u8_max) "v" fs; sg ← req of_json_string "sig" fs;
      Some {| sig_r := r; sig_s := s; sig_v := v; sig_sig := sg |}
  | _ => None
  end.

(** A [Vec<u8>] is an array of numbers. *)
Definition byte_json (b : Byte.byte) : json := json_uint (Z.of_N (Byte.to_N b)).
Definition byte_of_json (j : json) : option Byte.byte :=
  n ← of_json_uint u8_max j; Byte.of_N (Z.to_N n).

Definition u256_json (n : Z) : json := JString (u256_string n).
Definition u256_of_json (j : json) : option Z :=
  match j with JString s => u256_of_string s | _ => None end.

Definition evm_data_json (d : EvmTransactionData) : json :=
  JObject
    [("gas_price", serialize_optional_u128 (evm_gas_price d));
     ("gas_limit", json_option json_uint (evm_gas_limit d));
     ("nonce", json_option json_uint (evm_nonce d));
     ("value", u256_json (evm_value d));
     ("data", json_option json_str (evm_data d));
     ("from", JString (evm_from d));
     ("to", json_option json_str (evm_to d));
     ("chain_id", json_uint (evm_chain_id d));
     ("hash", json_option json_str (evm_hash d));
     ("signature", json_option evm_signature_json (evm_signature d));
     ("speed", json_option speed_json (evm_speed d));
     ("max_fee_per_gas", serialize_optional_u128 (evm_max_fee_per_gas d));
     ("max_priority_fee_per_gas", serialize_optional_u128 (evm_max_priority_fee_per_gas d));
     ("raw", json_option (json_list byte_json) (evm_raw d))].

Definition evm_data_of_json (j : json) : option EvmTransactionData :=
  match j with
  | JObject fs =>
      gas_price ← opt deserialize_u128 "gas_price" fs;
      gas_limit ← opt (of_json_uint u64_max) "gas_limit" fs;
      nonce ← opt (of_json_uint u64_max) "nonce" fs;
      value ← req u256_of_json "value" fs;
      data ← opt of_json_string "data" fs;
      from ← req of_json_string "from" fs;
      to ← opt of_json_string "to" fs;
      chain_id ← req (of_json_uint u64_max) "chain_id" fs;
      hash ← opt of_json_string "hash" fs;
      signature ← opt evm_signature_of_json "signature" fs;
      speed ← opt speed_of_json "speed" fs;
      max_fee ← opt deserialize_u128 "max_fee_per_gas" fs;
      max_priority ← opt deserialize_u128 "max_priority_fee_per_gas" fs;
      raw ← opt (of_json_list byte_of_json) "raw" fs;
      Some {| evm_gas_price := gas_price; evm_gas_limit := gas_limit; evm_nonce := nonce;
              evm_value := value; evm_data := data; evm_from := from; evm_to := to;
              evm_chain_id := chain_id; evm_hash := hash; evm_signature := signature;
              evm_speed := speed; evm_max_fee_per_gas := max_fee;
              evm_max_priority_fee_per_gas := max_priority; evm_raw := raw |}
  | _ => None
  end.

(** ** Solana *)

Definition account_meta_json (a : SolanaAccountMeta) : json :=
  JObject [("pubkey", JString (sam_pubkey a)); ("is_signer", JBool (sam_is_signer a));
           ("is_writable", JBool (sam_is_writable a))].

Definition account_meta_of_json (j : json) : option SolanaAccountMeta :=
  match j with
  | JObject fs =>
      k ← req of_json_string "pubkey" fs; s ← req of_json_bool "is_signer" fs;
      w ← req of_json_bool "is_writable" fs;
      Some {| sam_pubkey := k; sam_is_signer := s; sam_is_writable := w |}
  | _ => None
  end.

Definition instruction_json (i : SolanaInstructionSpec) : json :=
  JObject [("program_id", JString (sis_program_id i));
           ("accounts", json_list account_meta_json (sis_accounts i));
           ("data", JString (sis_data i))].

Definition instruction_of_json (j : json) : option SolanaInstructionSpec :=
  match j with
  | JObject fs =>
      p ← req of_json_string "program_id" fs;
      a ← req (of_json_list account_meta_of_json) "accounts" fs;
      d ← req of_json_string "data" fs;
      Some {| sis_program_id := p; sis_accounts := a; sis_data := d |}
  | _ => None
  end.

Definition solana_data_json (d : SolanaTransactionData) : json :=
  JObject [("transaction", json_option json_str (sol_transaction d));
           ("instructions", json_option (json_list instruction_json) (sol_instructions d));
           ("signature", json_option json_str (sol_signature d))].

Definition solana_data_of_json (j : json) : option SolanaTransactionData :=
  match j with
  | JObject fs =>
      t ← opt of_json_string "transaction" fs;
      i ← opt (of_json_list instruction_of_json) "instructions" fs;
      s ← opt of_json_string "signature" fs;
      Some {| sol_transaction := t; sol_instructions := i; sol_signature := s |}
  | _ => None
  end.

(** ** Stellar *)

(** [#[serde(tag = "type", rename_all = "snake_case")]] *)
Definition asset_json (a : AssetSpec) : json :=
  match a with
  | AssetNative => JObject [("type", JString "native")]
  | AssetCredit4 code issuer =>
      JObject [("type", JString "credit4"); ("code", JString code); ("issuer", JString issuer)]
  | AssetCredit12 code issuer =>
      JObject [("type", JString "credit12"); ("code", JString code); ("issuer", JString issuer)]
  end.

Definition asset_of_json (j : json) : option AssetSpec :=
  match j with
  | JObject fs =>
      ty ← req of_json_string "type" fs;
      if String.eqb ty "native" then Some AssetNative
      else if String.eqb ty "credit4" then
        c ← req of_json_string "code" fs; i ← req of_json_string "issuer" fs;
        Some (AssetCredit4 c i)
      else if String.eqb ty "credit12" then
        c ← req of_json_string "code" fs; i ← req of_json_string "issuer" fs;
        Some (AssetCredit12 c i)
      else None
  | _ => None
  end.

Definition auth_json (a : AuthSpec) : json :=
  match a with
  | AuthNone => JObject [("type", JString "none")]
  | AuthSourceAccount => JObject [("type", JString "source_account")]
  | AuthAddresses signers =>
      JObject [("type", JString "addresses"); ("signers", json_list json_str signers)]
  | AuthXdr entries =>
      JObject [("type", JString "xdr"); ("entries", json_list json_str entries)]
  end.

Definition auth_of_json (j : json) : option AuthSpec :=
  match j with
  | JObject fs =>
      ty ← req of_json_string "type" fs;
      if String.eqb ty "none" then Some AuthNone
      else if String.eqb ty "source_account" then Some AuthSourceAccount
      else if String.eqb ty "addresses" then
        s ← req (of_json_list of_json_string) "signers" fs; Some (AuthAddresses s)
      else if String.eqb ty "xdr" then
        e ← req (of_json_list of_json_string) "entries" fs; Some (AuthXdr e)
      else None
  | _ => None
  end.

(** [#[serde(tag = "from", rename_all = "snake_case")]] *)
Definition contract_source_json (c : ContractSource) : json :=
  match c with
  | FromAddress a => JObject [("from", JString "address"); ("address", JString a)]
  | FromContract c => JObject [("from", JString "contract"); ("contract", JString c)]
  end.

Definition contract_source_of_json (j : json) : option ContractSource :=
  match j with
  | JObject fs =>
      ty ← req of_json_string "from" fs;
      if String.eqb ty "address" then a ← req of_json_string "address" fs; Some (FromAddress a)
      else if String.eqb ty "contract" then
        c ← req of_json_string "contract" fs; Some (FromContract c)
      else None
  | _ => None
  end.

(** [#[serde(untagged)]]: the first variant that fits. *)
Definition wasm_source_json (w : WasmSource) : json :=
  match w with
  | WasmHex h => JObject [("hex", JString h)]
  | WasmBase64 b => JObject [("base64", JString b)]
  end.

Definition wasm_source_of_json (j : json) : option WasmSource :=
  match j with
  | JObject fs =>
      match req of_json_string "hex" fs with
      | Some h => Some (WasmHex h)
      | None => WasmBase64 <$> req of_json_string "base64" fs
      end
  | _ => None
  end.

(** A [serde_json::Value]. *)
Definition value_of_json (j : json) : option json := Some (norm j).

(** [#[serde(skip_serializing_if = "Option::is_none")]] *)
Definition skip_none {A} (k : string) (enc : A -> json) (o : option A) : list field :=
  match o with Some a => [(k, enc a)] | None => [] end.

Definition operation_json (o : OperationSpec) : json :=
  match o with
  | Payment destination amount asset =>
      JObject [("type", JString "payment"); ("destination", JString destination);
               ("amount", serialize_i64 amount); ("asset", asset_json asset)]
  | InvokeContract contract_address function_name args auth =>
      JObject ([("type", JString "invoke_contract");
                ("contract_address", JString contract_address);
                ("function_name", JString function_name); ("args", JArray args)] ++
               skip_none "auth" auth_json auth)
  | CreateContract source wasm_hash salt constructor_args auth =>
      JObject ([("type", JString "create_contract"); ("source", contract_source_json source);
                ("wasm_hash", JString wasm_hash)] ++
               skip_none "salt" json_str salt ++
               skip_none "constructor_args" JArray constructor_args ++
               skip_none "auth" auth_json auth)
  | UploadWasm wasm auth =>
      JObject ([("type", JString "upload_wasm"); ("wasm", wasm_source_json wasm)] ++
               skip_none "auth" auth_json auth)
  end.

Definition operation_of_json (j : json) : option OperationSpec :=
  match j with
  | JObject fs =>
      ty ← req of_json_string "type" fs;
      if String.eqb ty "payment" then
        d ← req of_json_string "destination" fs; a ← req deserialize_i64 "amount" fs;
        s ← req asset_of_json "asset" fs; Some (Payment d a s)
      else if String.eqb ty "invoke_contract" then
        c ← req of_json_string "contract_address" fs; f ← req of_json_string "function_name" fs;
        a ← req (of_json_list value_of_json) "args" fs; u ← opt auth_of_json "auth" fs;
        Some (InvokeContract c f a u)
      else if String.eqb ty "create_contract" then
        c ← req contract_source_of_json "source" fs; w ← req of_json_string "wasm_hash" fs;
        s ← opt of_json_string "salt" fs;
        a ← opt (of_json_list value_of_json) "constructor_args" fs;
        u ← opt auth_of_json "auth" fs;
        Some (CreateContract c w s a u)
      else if String.eqb ty "upload_wasm" then
        w ← req wasm_source_of_json "wasm" fs; u ← opt auth_of_json "auth" fs;
        Some (UploadWasm w u)
      else None
  | _ => None
  end.

(** [#[serde(with = "hex::serde")]] of a [[u8; 32]] *)
Definition bytes32_json (l : list Byte.byte) : json := JString (hex_encode l).
Definition bytes32_of_json (j : json) : option (list Byte.byte) :=
  match j with
  | JString s =>
      l ← hex_decode s; if (length l =? 32)%nat then Some l else None
  | _ => None
  end.

Definition memo_json (m : MemoSpec) : json :=
  match m with
  | MemoNone => JObject [("type", JString "none")]
  | MemoText v => JObject [("type", JString "text"); ("value", JString v)]
  | MemoId v => JObject [("type", JString "id"); ("value", serialize_u64 v)]
  | MemoHash v => JObject [("type", JString "hash"); ("value", bytes32_json v)]
  | MemoReturn v => JObject [("type", JString "return"); ("value", bytes32_json v)]
  end.

Definition memo_of_json (j : json) : option MemoSpec :=
  match j with
  | JObject fs =>
      ty ← req of_json_string "type" fs;
      if String.eqb ty "none" then Some MemoNone
      else if String.eqb ty "text" then MemoText <$> req of_json_string "value" fs
      else if String.eqb ty "id" then MemoId <$> req deserialize_u64 "value" fs
      else if String.eqb ty "hash" then MemoHash <$> req bytes32_of_json "value" fs
      else if String.eqb ty "return" then MemoReturn <$> req bytes32_of_json "value" fs
      else None
  | _ => None
  end.

(** [stellar_xdr::DecoratedSignature]: two hexadecimal strings, of a hint of 4 bytes and a
    signature of at most 64. *)
Definition hex_of_json (j : json) : option (list Byte.byte) :=
  match j with JString s => hex_decode s | _ => None end.

Definition decorated_signature_json (s : DecoratedSignature) : json :=
  JObject [("hint", JString (hex_encode (ds_hint s)));
           ("signature", JString (hex_encode (ds_signature s)))].

Definition decorated_signature_of_json (j : json) : option DecoratedSignature :=
  match j with
  | JObject fs =>
      h ← req hex_of_json "hint" fs; s ← req hex_of_json "signature" fs;
      if (length h =? 4)%nat && (length s <=? 64)%nat
      then Some {| ds_hint := h; ds_signature := s |} else None
  | _ => None
  end.

(** An externally tagged enum: an object with one field, named after the variant. *)
Definition transaction_input_json (i : TransactionInput) : json :=
  match i with
  | Operations ops => JObject [("Operations", json_list operation_json ops)]
  | UnsignedXdr xdr => JObject [("UnsignedXdr", JString xdr)]
  | SignedXdr xdr max_fee =>
      JObject [("SignedXdr", JObject [("xdr", JString xdr); ("max_fee", serialize_i64 max_fee)])]
  | SorobanGasAbstraction xdr signed_auth_entry =>
      JObject [("SorobanGasAbstraction",
                JObject [("xdr", JString xdr); ("signed_auth_entry", JString signed_auth_entry)])]
  end.

Definition transaction_input_of_json (j : json) : option TransactionInput :=
  match j with
  | JObject [(tag, v)] =>
      if String.eqb tag "Operations" then Operations <$> of_json_list operation_of_json v
      else if String.eqb tag "UnsignedXdr" then UnsignedXdr <$> of_json_string v
      else if String.eqb tag "SignedXdr" then
        match v with
        | JObject fs =>
            x ← req of_json_string "xdr" fs; m ← req deserialize_i64 "max_fee" fs;
            Some (SignedXdr x m)
        | _ => None
        end
      else if String.eqb tag "SorobanGasAbstraction" then
        match v with
        | JObject fs =>
            x ← req of_json_string "xdr" fs; s ← req of_json_string "signed_auth_entry" fs;
            Some (SorobanGasAbstraction x s)
        | _ => None
        end
      else None
  | _ => None
  end.

Definition stellar_data_json (d : StellarTransactionData) : json :=
  JObject
    [("source_account", JString (st_source_account d));
     ("fee", json_option json_uint (st_fee d));
     ("sequence_number", serialize_optional_i64 (st_sequence_number d));
     ("memo", json_option memo_json (st_memo d));
     ("valid_until", json_option json_str (st_valid_until d));
     ("network_passphrase", JString (st_network_passphrase d));
     ("signatures", json_list decorated_signature_json (st_signatures d));
     ("hash", json_option json_str (st_hash d));
     ("simulation_transaction_data", json_option json_str (st_simulation_transaction_data d));
     ("transaction_input", transaction_input_json (st_transaction_input d));
     ("signed_envelope_xdr", json_option json_str (st_signed_envelope_xdr d));
     ("transaction_result_xdr", json_option json_str (st_transaction_result_xdr d))].

Definition stellar_data_of_json (j : json) : option StellarTransactionData :=
  match j with
  | JObject fs =>
      source ← req of_json_string "source_account" fs;
      fee ← opt (of_json_uint u32_max) "fee" fs;
      seq ← opt deserialize_i64 "sequence_number" fs;
      memo ← opt memo_of_json "memo" fs;
      valid ← opt of_json_string "valid_until" fs;
      pass ← req of_json_string "network_passphrase" fs;
      sigs ← req (of_json_list decorated_signature_of_json) "signatures" fs;
      hash ← opt of_json_string "hash" fs;
      sim ← opt of_json_string "simulation_transaction_data" fs;
      input ← req transaction_input_of_json "transaction_input" fs;
      env ← opt of_json_string "signed_envelope_xdr" fs;
      res ← opt of_json_string "transaction_result_xdr" fs;
      Some {| st_source_account := source; st_fee := fee; st_sequence_number := seq;
              st_memo := memo; st_valid_until := valid; st_network_passphrase := pass;
              st_signatures := sigs; st_hash := hash; st_simulation_transaction_data := sim;
              st_transaction_input := input; st_signed_envelope_xdr := env;
              st_transaction_result_xdr := res |}
  | _ => None
  end.

(** ** The stored model *)

(** [#[serde(tag = "network_data", content = "data")]] *)
Definition network_data_json (n : NetworkTransactionData) : json :=
  match n with
  | EvmData d => JObject [("network_data", JString "Evm"); ("data", evm_data_json d)]
  | SolanaData d => JObject [("network_data", JString "Solana"); ("data", solana_data_json d)]
  | StellarData d => JObject [("network_data", JString "Stellar"); ("data", stellar_data_json d)]
  end.

Definition network_data_of_json (j : json) : option NetworkTransactionData :=
  match j with
  | JObject fs =>
      ty ← req of_json_string "network_data" fs;
      if String.eqb ty "Evm" then EvmData <$> req evm_data_of_json "data" fs
      else if String.eqb ty "Solana" then SolanaData <$> req solana_data_of_json "data" fs
      else if String.eqb ty "Stellar" then StellarData <$> req stellar_data_of_json "data" fs
      else None
  | _ => None
  end.

Definition metadata_json (m : TransactionMetadata) : json :=
  JObject [("consecutive_failures", json_uint (consecutive_failures m));
           ("total_failures", json_uint (total_failures m));
           ("insufficient_fee_retries", json_uint (insufficient_fee_retries m));
           ("try_again_later_retries", json_uint (try_again_later_retries m));
           ("nonce_too_high_retries", json_uint (nonce_too_high_retries m))].

(** [#[serde(default)]] on every counter. *)
Definition counter_field (k : string) (fs : list field) : option Z :=
  get_field (of_json_uint u32_max) (Some 0) k fs.

Definition metadata_of_json (j : json) : option TransactionMetadata :=
  match j with
  | JObject fs =>
      a ← counter_field "consecutive_failures" fs; b ← counter_field "total_failures" fs;
      c ← counter_field "insufficient_fee_retries" fs;
      d ← counter_field "try_again_later_retries" fs;
      e ← counter_field "nonce_too_high_retries" fs;
      Some {| consecutive_failures := a; total_failures := b; insufficient_fee_retries := c;
              try_again_later_retries := d; nonce_too_high_retries := e |}
  | _ => None
  end.

(** The fields of a model but for its metadata, and with a given document for it. *)
Definition tx_body_fields (t : TransactionRepoModel) : list field :=
  [("id", JString (tx_id t));
   ("relayer_id", JString (tx_relayer_id t));
   ("status", status_json (tx_status t));
   ("status_reason", json_option json_str (tx_status_reason t));
   ("created_at", JString (tx_created_at t));
   ("sent_at", json_option json_str (tx_sent_at t));
   ("confirmed_at", json_option json_str (tx_confirmed_at t));
   ("valid_until", json_option json_str (tx_valid_until t));
   ("delete_at", json_option json_str (tx_delete_at t));
   ("network_data", network_data_json (tx_network_data t));
   ("priced_at", json_option json_str (tx_priced_at t));
   ("hashes", json_list json_str (tx_hashes t));
   ("network_type", network_type_json (tx_network_type t));
   ("noop_count", json_option json_uint (tx_noop_count t));
   ("is_canceled", json_option JBool (tx_is_canceled t))].

Definition tx_fields_with (meta : json) (t : TransactionRepoModel) : list field :=
  tx_body_fields t ++ [("metadata", meta)].

Definition tx_fields (t : TransactionRepoModel) : list field :=
  tx_fields_with (json_option metadata_json (tx_metadata t)) t.

Definition tx_json (t : TransactionRepoModel) : json := JObject (tx_fields t).

Definition tx_of_json (j : json) : option TransactionRepoModel :=
  match j with
  | JObject fs =>
      id ← req of_json_string "id" fs;
      rid ← req of_json_string "relayer_id" fs;
      status ← req status_of_json "status" fs;
      reason ← opt of_json_string "status_reason" fs;
      created ← req of_json_string "created_at" fs;
      sent ← opt of_json_string "sent_at" fs;
      confirmed ← opt of_json_string "confirmed_at" fs;
      valid ← opt of_json_string "valid_until" fs;
      deleted ← opt of_json_string "delete_at" fs;
      data ← req network_data_of_json "network_data" fs;
      priced ← opt of_json_string "priced_at" fs;
      hashes ← req (of_json_list of_json_string) "hashes" fs;
      ntype ← req network_type_of_json "network_type" fs;
      noops ← opt (of_json_uint u32_max) "noop_count" fs;
      canceled ← opt of_json_bool "is_canceled" fs;
      meta ← opt metadata_of_json "metadata" fs;
      Some {| tx_id := id; tx_relayer_id := rid; tx_status := status;
              tx_status_reason := reason; tx_created_at := created; tx_sent_at := sent;
              tx_confirmed_at := confirmed; tx_valid_until := valid; tx_delete_at := deleted;
              tx_network_data := data; tx_priced_at := priced; tx_hashes := hashes;
              tx_network_type := ntype; tx_noop_count := noops; tx_is_canceled := canceled;
              tx_metadata := meta |}
  | _ => None
  end.

(** ** The update request: only the fields that are set are written *)

Definition update_fields (u : TransactionUpdateRequest) : list field :=
  skip_none "status" status_json (upd_status u) ++
  skip_none "status_reason" json_str (upd_status_reason u) ++
  skip_none "sent_at" json_str (upd_sent_at u) ++
  skip_none "confirmed_at" json_str (upd_confirmed_at u) ++
  skip_none "network_data" network_data_json (upd_network_data u) ++
  skip_none "priced_at" json_str (upd_priced_at u) ++
  skip_none "hashes" (json_list json_str) (upd_hashes u) ++
  skip_none "noop_count" json_uint (upd_noop_count u) ++
  skip_none "is_canceled" JBool (upd_is_canceled u) ++
  skip_none "delete_at" json_str (upd_delete_at u) ++
  skip_none "metadata" metadata_json (upd_metadata u).

Definition update_json (u : TransactionUpdateRequest) : json := JObject (update_fields u).
End Codecs.

(** ** Readers do not see the order of fields *)

Section Blind.
Context `{JsonFloat} `{ForeignSerde}.

Lemma blind_enum {A} (name : A -> string) l : order_blind (enum_of_json name l).
Proof. by intros []. Qed.

Lemma req_norm {A} (dec : json -> option A) k fs :
  order_blind dec -> req dec k (norm_fields fs) = req dec k fs.
Proof. apply get_field_norm. Qed.

Lemma opt_norm {A} (dec : json -> option A) k fs :
  order_blind dec -> opt dec k (norm_fields fs) = opt dec k fs.
Proof. intros Hd. apply get_field_norm. by apply blind_option. Qed.

Lemma counter_field_norm k fs : counter_field k (norm_fields fs) = counter_field k fs.
Proof. apply get_field_norm, blind_uint. Qed.

Lemma blind_byte : order_blind byte_of_json.
Proof. by intros []. Qed.
Lemma blind_u256 : order_blind u256_of_json.
Proof. by intros []. Qed.
Lemma blind_bytes32 : order_blind bytes32_of_json.
Proof. by intros []. Qed.
Lemma blind_hex : order_blind hex_of_json.
Proof. by intros []. Qed.

Lemma blind_value : order_blind value_of_json.
Proof. intros j. unfold value_of_json. by rewrite norm_idemp. Qed.

#[local] Hint Resolve blind_enum blind_byte blind_u256 blind_bytes32 blind_hex blind_value
  : blind_db.
#[local] Hint Unfold status_of_json network_type_of_json speed_of_json : blind_db.

(** A reader of an object: its fields are read blindly. *)
Ltac solve_reader :=
  intros j; destruct j as [| | | | |fs]; try done; rewrite norm_object; cbv iota beta;
  rewrite ?req_norm, ?opt_norm, ?counter_field_norm by eauto with blind_db; try done.

Lemma blind_evm_signature : order_blind evm_signature_of_json.
Proof. unfold evm_signature_of_json. solve_reader. Qed.
Lemma blind_account_meta : order_blind account_meta_of_json.
Proof. unfold account_meta_of_json. solve_reader. Qed.
#[local] Hint Resolve blind_evm_signature blind_account_meta : blind_db.
Lemma blind_evm_data : order_blind evm_data_of_json.
Proof. unfold evm_data_of_json. solve_reader. Qed.

Lemma blind_instruction : order_blind instruction_of_json.
Proof. unfold instruction_of_json. solve_reader. Qed.
#[local] Hint Resolve blind_evm_data blind_instruction : blind_db.
Lemma blind_solana_data : order_blind solana_data_of_json.
Proof. unfold solana_data_of_json. solve_reader. Qed.
Lemma blind_asset : order_blind asset_of_json.
Proof. unfold asset_of_json. solve_reader. Qed.
Lemma blind_auth : order_blind auth_of_json.
Proof. unfold auth_of_json. solve_reader. Qed.
Lemma blind_contract_source : order_blind contract_source_of_json.
Proof. unfold contract_source_of_json. solve_reader. Qed.
Lemma blind_wasm_source : order_blind wasm_source_of_json.
Proof. unfold wasm_source_of_json. solve_reader. Qed.
#[local] Hint Resolve blind_asset blind_auth blind_contract_source blind_wasm_source : blind_db.
Lemma blind_operation : order_blind operation_of_json.
Proof. unfold operation_of_json. solve_reader. Qed.
Lemma blind_memo : order_blind memo_of_json.
Proof. unfold memo_of_json. solve_reader. Qed.
Lemma blind_decorated_signature : order_blind decorated_signature_of_json.
Proof. unfold decorated_signature_of_json. solve_reader. Qed.
#[local] Hint Resolve blind_solana_data blind_operation blind_memo blind_decorated_signature
  : blind_db.

Lemma blind_transaction_input : order_blind transaction_input_of_json.
Proof.
  intros j. destruct j as [| | | | |fs]; try done.
  destruct fs as [|[tag v] [|[tag' v'] fs]]; try done.
  - change (norm (JObject [(tag, v)])) with (JObject [(tag, norm v)]). cbv iota beta.
    unfold transaction_input_of_json.
    rewrite (blind_list _ blind_operation), blind_string.
    destruct v as [| | | | |fs]; try done. rewrite norm_object. cbv iota.
    by rewrite !req_norm by eauto with blind_db.
  - rewrite norm_object. cbv [transaction_input_of_json].
    pose proof (sorted_by_perm key_cmp
      (map (fun '(k, v) => (k, norm v)) ((tag, v) :: (tag', v') :: fs))) as Hp.
    unfold norm_fields. apply Permutation_length in Hp.
    destruct (sorted_by _ _) as [|[? ?] [|? ?]]; try done.
Qed.
#[local] Hint Resolve blind_transaction_input : blind_db.

Lemma blind_stellar_data : order_blind stellar_data_of_json.
Proof. unfold stellar_data_of_json. solve_reader. Qed.
#[local] Hint Resolve blind_stellar_data : blind_db.
Lemma blind_network_data : order_blind network_data_of_json.
Proof. unfold network_data_of_json. solve_reader. Qed.
Lemma blind_metadata : order_blind metadata_of_json.
Proof. unfold metadata_of_json. solve_reader. Qed.
#[local] Hint Resolve blind_network_data blind_metadata : blind_db.
Lemma blind_tx : order_blind tx_of_json.
Proof. unfold tx_of_json. solve_reader. Qed.
End Blind.

(** ** Reading back what was written

    The models the program can hold: integers in the range of their type, [serde_json::Value]s
    in canonical form, hashes of 32 bytes. *)

Definition in_range_opt (mx : Z) (o : option Z) : Prop := forall n, o = Some n -> 0 <= n <= mx.
Definition all_opt {A} (P : A -> Prop) (o : option A) : Prop := forall a, o = Some a -> P a.

Definition is_i64 (n : Z) : Prop := - 2 ^ 63 <= n <= i64_max.
Definition canonical (j : json) : Prop := norm j = j.

Definition evm_data_ok (d : EvmTransactionData) : Prop :=
  in_range_opt u128_max (evm_gas_price d) /\ in_range_opt u64_max (evm_gas_limit d) /\
  in_range_opt u64_max (evm_nonce d) /\ 0 <= evm_value d <= u256_max /\
  0 <= evm_chain_id d <= u64_max /\
  all_opt (fun s => 0 <= sig_v s <= u8_max) (evm_signature d) /\
  in_range_opt u128_max (evm_max_fee_per_gas d) /\
  in_range_opt u128_max (evm_max_priority_fee_per_gas d).

Definition operation_ok (o : OperationSpec) : Prop :=
  match o with
  | Payment _ amount _ => is_i64 amount
  | InvokeContract _ _ args _ => Forall canonical args
  | CreateContract _ _ _ args _ => all_opt (Forall canonical) args
  | UploadWasm _ _ => True
  end.

Definition memo_ok (m : MemoSpec) : Prop :=
  match m with
  | MemoId v => 0 <= v <= u64_max
  | MemoHash v | MemoReturn v => length v = 32%nat
  | _ => True
  end.

Definition input_ok (i : TransactionInput) : Prop :=
  match i with
  | Operations ops => Forall operation_ok ops
  | SignedXdr _ max_fee => is_i64 max_fee
  | _ => True
  end.

Definition decorated_signature_ok (s : DecoratedSignature) : Prop :=
  length (ds_hint s) = 4%nat /\ (length (ds_signature s) <= 64)%nat.

Definition stellar_data_ok (d : StellarTransactionData) : Prop :=
  in_range_opt u32_max (st_fee d) /\ all_opt is_i64 (st_sequence_number d) /\
  all_opt memo_ok (st_memo d) /\ input_ok (st_transaction_input d) /\
  Forall decorated_signature_ok (st_signatures d).

Definition network_data_ok (n : NetworkTransactionData) : Prop :=
  match n with
  | EvmData d => evm_data_ok d
  | SolanaData _ => True
  | StellarData d => stellar_data_ok d
  end.

Definition metadata_ok (m : TransactionMetadata) : Prop :=
  (0 <= consecutive_failures m <= u32_max /\ 0 <= total_failures m <= u32_max) /\
  0 <= insufficient_fee_retries m <= u32_max /\ 0 <= try_again_later_retries m <= u32_max /\
  0 <= nonce_too_high_retries m <= u32_max.

Definition tx_ok (t : TransactionRepoModel) : Prop :=
  network_data_ok (tx_network_data t) /\ in_range_opt u32_max (tx_noop_count t) /\
  all_opt metadata_ok (tx_metadata t).

Section RoundTrip.
Context `{JsonFloat} `{ForeignSerde}.

Lemma bind_some {A B} (o : option A) a (k : A -> option B) r :
  o = Some a -> k a = r -> (o ≫= k) = r.
Proof. by intros ->. Qed.

Lemma fmap_some {A B} (o : option A) a (f : A -> B) : o = Some a -> f <$> o = Some (f a).
Proof. by intros ->. Qed.

Lemma rt_opt {A} (enc : A -> json) (dec : json -> option A) (P : A -> Prop) o :
  (forall a, P a -> enc a <> JNull /\ dec (enc a) = Some a) -> all_opt P o ->
  of_json_option dec (json_option enc o) = Some o.
Proof. intros He Ho. apply option_roundtrip. intros a Ha. apply He, Ho, Ha. Qed.

Lemma rt_opt_all {A} (enc : A -> json) (dec : json -> option A) o :
  (forall a, enc a <> JNull /\ dec (enc a) = Some a) ->
  of_json_option dec (json_option enc o) = Some o.
Proof. intros He. apply option_roundtrip. auto. Qed.

Lemma rt_list {A} (enc : A -> json) (dec : json -> option A) l :
  (forall a, dec (enc a) = Some a) -> of_json_list dec (json_list enc l) = Some l.
Proof. intros He. apply list_roundtrip, Forall_forall. auto. Qed.

Lemma rt_opt_string o : of_json_option of_json_string (json_option json_str o) = Some o.
Proof. by apply rt_opt_all. Qed.

Lemma rt_opt_bool o : of_json_option of_json_bool (json_option JBool o) = Some o.
Proof. by apply rt_opt_all. Qed.

Lemma rt_opt_uint mx o :
  in_range_opt mx o -> mx <= u64_max ->
  of_json_option (of_json_uint mx) (json_option json_uint o) = Some o.
Proof.
  intros Ho Hmx. apply option_roundtrip. intros n Hn. split; [done|].
  by apply of_json_uint_print; [apply Ho|].
Qed.

Lemma rt_opt_u128 o :
  in_range_opt u128_max o ->
  of_json_option deserialize_u128 (serialize_optional_u128 o) = Some o.
Proof.
  intros Ho. apply option_roundtrip. intros n Hn. split; [done|]. by apply u128_roundtrip, Ho.
Qed.

Lemma rt_opt_i64 o :
  all_opt is_i64 o -> of_json_option deserialize_i64 (serialize_optional_i64 o) = Some o.
Proof.
  intros Ho. apply option_roundtrip. intros n Hn. split; [done|]. by apply i64_roundtrip, Ho.
Qed.

Lemma rt_status s : status_of_json (status_json s) = Some s.
Proof. by destruct s. Qed.
Lemma rt_network_type n : network_type_of_json (network_type_json n) = Some n.
Proof. by destruct n. Qed.
Lemma rt_speed o : of_json_option speed_of_json (json_option speed_json o) = Some o.
Proof. apply rt_opt_all. by intros []. Qed.

Lemma byte_to_N_bound b : (Byte.to_N b <= 255)%N.
Proof. by destruct b. Qed.

Lemma rt_byte b : byte_of_json (byte_json b) = Some b.
Proof.
  unfold byte_of_json, byte_json. pose proof (byte_to_N_bound b).
  rewrite of_json_uint_print by (unfold u8_max, u64_max; lia). simpl.
  rewrite N2Z.id. apply Byte.of_to_N.
Qed.

Lemma rt_raw o :
  of_json_option (of_json_list byte_of_json) (json_option (json_list byte_json) o) = Some o.
Proof. apply rt_opt_all. intros l. split; [done|]. apply rt_list, rt_byte. Qed.

Lemma rt_strings l : of_json_list of_json_string (json_list json_str l) = Some l.
Proof. by apply rt_list. Qed.

Lemma rt_u256 n : 0 <= n <= u256_max -> u256_of_json (u256_json n) = Some n.
Proof. apply u256_roundtrip. Qed.

Create HintDb rt_db.
#[local] Hint Resolve rt_opt_string rt_opt_bool rt_opt_uint rt_opt_u128 rt_opt_i64 rt_status
  rt_network_type rt_speed rt_raw rt_strings rt_u256 of_json_uint_print : rt_db.
#[local] Hint Extern 1 (_ <= u64_max) => (by vm_compute) : rt_db.
#[local] Hint Extern 1 (_ = Some _) => reflexivity : rt_db.

(** Read the fields of a literal object one by one. *)
Ltac read_fields :=
  repeat (cbv [req opt counter_field get_field fields_named List.filter String.eqb Ascii.eqb
               Bool.eqb eqb fst app skip_none];
          eapply bind_some; [solve [eauto 3 with rt_db] | cbv beta]);
  try (apply fmap_some; solve [eauto 3 with rt_db]).

Lemma rt_evm_signature s : 0 <= sig_v s <= u8_max ->
  evm_signature_json s <> JNull /\ evm_signature_of_json (evm_signature_json s) = Some s.
Proof.
  intros Hv. split; [done|]. unfold evm_signature_of_json, evm_signature_json. read_fields.
  by destruct s.
Qed.

Lemma rt_opt_evm_signature o :
  all_opt (fun s => 0 <= sig_v s <= u8_max) o ->
  of_json_option evm_signature_of_json (json_option evm_signature_json o) = Some o.
Proof. apply rt_opt, rt_evm_signature. Qed.
#[local] Hint Resolve rt_opt_evm_signature : rt_db.

Lemma rt_evm_data d : evm_data_ok d -> evm_data_of_json (evm_data_json d) = Some d.
Proof.
  intros (? & ? & ? & ? & ? & ? & ? & ?). unfold evm_data_of_json, evm_data_json. read_fields.
  by destruct d.
Qed.

Lemma rt_account_meta a : account_meta_of_json (account_meta_json a) = Some a.
Proof. unfold account_meta_of_json, account_meta_json. read_fields. by destruct a. Qed.

Lemma rt_accounts l : of_json_list account_meta_of_json (json_list account_meta_json l) = Some l.
Proof. apply rt_list, rt_account_meta. Qed.
#[local] Hint Resolve rt_accounts : rt_db.

Lemma rt_instruction i : instruction_of_json (instruction_json i) = Some i.
Proof. unfold instruction_of_json, instruction_json. read_fields. by destruct i. Qed.

Lemma rt_instructions o :
  of_json_option (of_json_list instruction_of_json)
    (json_option (json_list instruction_json) o) = Some o.
Proof. apply rt_opt_all. intros l. split; [done|]. apply rt_list, rt_instruction. Qed.
#[local] Hint Resolve rt_instructions : rt_db.

Lemma rt_solana_data d : solana_data_of_json (solana_data_json d) = Some d.
Proof. unfold solana_data_of_json, solana_data_json. read_fields. by destruct d. Qed.

Lemma rt_asset a : asset_of_json (asset_json a) = Some a.
Proof. by destruct a. Qed.

Lemma rt_auth a : auth_json a <> JNull /\ auth_of_json (auth_json a) = Some a.
Proof.
  split; [by destruct a|]. destruct a as [| |l|l]; try done;
    unfold auth_of_json, auth_json; by read_fields.
Qed.

Lemma rt_opt_auth o : of_json_option auth_of_json (json_option auth_json o) = Some o.
Proof. apply rt_opt_all, rt_auth. Qed.

Lemma rt_contract_source c : contract_source_of_json (contract_source_json c) = Some c.
Proof. by destruct c. Qed.

Lemma rt_wasm_source w : wasm_source_of_json (wasm_source_json w) = Some w.
Proof. by destruct w. Qed.

Lemma rt_values l : Forall canonical l -> of_json_list value_of_json (JArray l) = Some l.
Proof.
  intros Hl. unfold of_json_list. apply mapM_Some. induction Hl as [|j l Hj]; constructor; auto.
  unfold value_of_json. by rewrite Hj.
Qed.

#[local] Hint Resolve rt_opt_auth rt_asset rt_contract_source rt_wasm_source rt_values
  i64_roundtrip u64_roundtrip : rt_db.

Lemma rt_operation o : operation_ok o -> operation_of_json (operation_json o) = Some o.
Proof.
  destruct o as [d a s|c f args u|c w salt args u|w u]; simpl operation_ok; intros Ho.
  - unfold operation_of_json, operation_json. by read_fields.
  - pose proof (rt_opt_auth u) as Hu. unfold operation_of_json, operation_json.
    destruct u as [u|]; by read_fields.
  - assert (of_json_option (of_json_list value_of_json) (json_option JArray args) = Some args)
      as Ha by (eapply rt_opt; [|exact Ho]; intros l Hl; split; [done | by apply rt_values]).
    pose proof (rt_opt_auth u) as Hu. pose proof (rt_opt_string salt) as Hs.
    unfold operation_of_json, operation_json.
    destruct u as [u|], salt as [salt|], args as [args|]; by read_fields.
  - pose proof (rt_opt_auth u) as Hu. unfold operation_of_json, operation_json.
    destruct u as [u|]; by read_fields.
Qed.

Lemma rt_bytes32 l : length l = 32%nat -> bytes32_of_json (bytes32_json l) = Some l.
Proof. intros Hl. unfold bytes32_of_json, bytes32_json. rewrite hex_roundtrip. simpl. by rewrite Hl. Qed.

#[local] Hint Resolve rt_bytes32 : rt_db.

Lemma rt_memo m : memo_ok m -> memo_json m <> JNull /\ memo_of_json (memo_json m) = Some m.
Proof.
  intros Hm. split; [by destruct m|]. destruct m as [|v|v|v|v]; try done; simpl in Hm;
    unfold memo_of_json, memo_json; by read_fields.
Qed.

Lemma rt_opt_memo o :
  all_opt memo_ok o -> of_json_option memo_of_json (json_option memo_json o) = Some o.
Proof. apply rt_opt, rt_memo. Qed.

Lemma rt_hex l : hex_of_json (JString (hex_encode l)) = Some l.
Proof. apply hex_roundtrip. Qed.
#[local] Hint Resolve rt_hex : rt_db.

Lemma rt_decorated_signatures l :
  Forall decorated_signature_ok l ->
  of_json_list decorated_signature_of_json (json_list decorated_signature_json l) = Some l.
Proof.
  intros Hl. apply list_roundtrip. eapply Forall_impl; [exact Hl|]. intros s [Hh Hs].
  unfold decorated_signature_of_json, decorated_signature_json. read_fields.
  rewrite (proj2 (Nat.eqb_eq _ _) Hh), (proj2 (Nat.leb_le _ _) Hs). by destruct s.
Qed.

Lemma rt_transaction_input i :
  input_ok i -> transaction_input_of_json (transaction_input_json i) = Some i.
Proof.
  intros Hi. destruct i as [ops|x|x m|x e]; try done.
  - unfold transaction_input_of_json, transaction_input_json. simpl String.eqb. cbv iota.
    rewrite list_roundtrip; [done|]. simpl in Hi. eapply Forall_impl; [exact Hi|].
    apply rt_operation.
  - unfold transaction_input_of_json, transaction_input_json. simpl String.eqb. cbv iota.
    by read_fields.
Qed.
#[local] Hint Resolve rt_opt_memo rt_decorated_signatures rt_transaction_input : rt_db.

Lemma rt_stellar_data d : stellar_data_ok d -> stellar_data_of_json (stellar_data_json d) = Some d.
Proof.
  intros (? & ? & ? & ? & ?). unfold stellar_data_of_json, stellar_data_json. read_fields.
  by destruct d.
Qed.

#[local] Hint Resolve rt_evm_data rt_solana_data rt_stellar_data : rt_db.

Lemma rt_network_data n :
  network_data_ok n -> network_data_of_json (network_data_json n) = Some n.
Proof.
  intros Hn. destruct n as [d|d|d]; simpl in Hn; unfold network_data_of_json, network_data_json;
    by read_fields.
Qed.

Lemma rt_metadata m : metadata_ok m ->
  metadata_json m <> JNull /\ metadata_of_json (metadata_json m) = Some m.
Proof.
  intros ([? ?] & ? & ? & ?). split; [done|]. unfold metadata_of_json, metadata_json.
  read_fields. by destruct m.
Qed.

Lemma rt_opt_metadata o :
  all_opt metadata_ok o -> of_json_option metadata_of_json (json_option metadata_json o) = Some o.
Proof. apply rt_opt, rt_metadata. Qed.
#[local] Hint Resolve rt_network_data rt_opt_metadata : rt_db.

Lemma rt_tx_with meta t :
  network_data_ok (tx_network_data t) -> in_range_opt u32_max (tx_noop_count t) ->
  of_json_option metadata_of_json meta = Some (tx_metadata t) ->
  tx_of_json (JObject (tx_fields_with meta t)) = Some t.
Proof. intros ? ? ?. unfold tx_of_json, tx_fields_with, tx_body_fields. read_fields. by destruct t. Qed.

Lemma rt_tx t : tx_ok t -> tx_of_json (tx_json t) = Some t.
Proof. intros (? & ? & ?). apply rt_tx_with; eauto with rt_db. Qed.
End RoundTrip.

(** ** Patching a document *)

Section Patch.
Context `{JsonFloat} `{ForeignSerde}.

(** The fields of an update set over a model. *)
Definition patch_tx (u : TransactionUpdateRequest) (t : TransactionRepoModel)
  : TransactionRepoModel :=
  {| tx_id := tx_id t;
     tx_relayer_id := tx_relayer_id t;
     tx_status := default (tx_status t) (upd_status u);
     tx_status_reason := opt_or (upd_status_reason u) (tx_status_reason t);
     tx_created_at := tx_created_at t;
     tx_sent_at := opt_or (upd_sent_at u) (tx_sent_at t);
     tx_confirmed_at := opt_or (upd_confirmed_at u) (tx_confirmed_at t);
     tx_valid_until := tx_valid_until t;
     tx_delete_at := opt_or (upd_delete_at u) (tx_delete_at t);
     tx_network_data := default (tx_network_data t) (upd_network_data u);
     tx_priced_at := opt_or (upd_priced_at u) (tx_priced_at t);
     tx_hashes := default (tx_hashes t) (upd_hashes u);
     tx_network_type := tx_network_type t;
     tx_noop_count := opt_or (upd_noop_count u) (tx_noop_count t);
     tx_is_canceled := opt_or (upd_is_canceled u) (tx_is_canceled t);
     tx_metadata := opt_or (upd_metadata u) (tx_metadata t) |}.

(** One optional field of a patch. *)
Lemma set_all_skip_none {A} k (enc : A -> json) o fs :
  k ∈ fs.*1 ->
  set_all (skip_none k enc o) fs =
  map_values (fun k' v => if String.eqb k' k then match o with Some a => enc a | None => v end
                          else v) fs.
Proof.
  intros Hk. destruct o as [a|]; simpl; [by apply set_field_present|].
  symmetry. transitivity (map id fs); [|apply map_id]. apply map_ext. intros [k' v].
  by destruct (String.eqb k' k).
Qed.

Lemma set_all_app ps ps' fs : set_all (ps ++ ps') fs = set_all ps' (set_all ps fs).
Proof. apply fold_left_app. Qed.

Definition tx_keys : list string :=
  ["id"; "relayer_id"; "status"; "status_reason"; "created_at"; "sent_at"; "confirmed_at";
   "valid_until"; "delete_at"; "network_data"; "priced_at"; "hashes"; "network_type";
   "noop_count"; "is_canceled"; "metadata"]%string.

Lemma tx_fields_keys meta t : (tx_fields_with meta t).*1 = tx_keys.
Proof. done. Qed.

Lemma update_fields_keys u : Forall (fun kv => fst kv ∈ tx_keys) (update_fields u).
Proof.
  assert (forall A (k : string) (enc : A -> json) o,
    bool_decide (k ∈ tx_keys) = true ->
    Forall (fun kv => fst kv ∈ tx_keys) (skip_none k enc o)) as Hs.
  { intros A k enc [a|] Hk%bool_decide_eq_true; constructor; done || constructor. }
  unfold update_fields. rewrite !Forall_app. split_and!; by apply Hs.
Qed.

Lemma set_all_update u meta t :
  set_all (update_fields u) (tx_fields_with meta t) =
  tx_fields_with (default meta (metadata_json <$> upd_metadata u)) (patch_tx u t).
Proof.
  unfold update_fields. rewrite !set_all_app.
  rewrite (set_all_skip_none "status"), (set_all_skip_none "status_reason"),
    (set_all_skip_none "sent_at"), (set_all_skip_none "confirmed_at"),
    (set_all_skip_none "network_data"), (set_all_skip_none "priced_at"),
    (set_all_skip_none "hashes"), (set_all_skip_none "noop_count"),
    (set_all_skip_none "is_canceled"), (set_all_skip_none "delete_at"),
    (set_all_skip_none "metadata")
    by (rewrite ?map_values_keys, tx_fields_keys; by apply (bool_decide_unpack _)).
  unfold tx_fields_with, tx_body_fields.
  cbv [app map_values map String.eqb Ascii.eqb Bool.eqb eqb].
  cbn [tx_id tx_relayer_id tx_status tx_status_reason tx_created_at tx_sent_at tx_confirmed_at
       tx_valid_until tx_delete_at tx_network_data tx_priced_at tx_hashes tx_network_type
       tx_noop_count tx_is_canceled tx_metadata patch_tx].
  repeat f_equal.
  - by destruct (upd_status u).
  - by destruct (upd_status_reason u).
  - by destruct (upd_sent_at u).
  - by destruct (upd_confirmed_at u).
  - by destruct (upd_delete_at u).
  - by destruct (upd_network_data u).
  - by destruct (upd_priced_at u).
  - by destruct (upd_hashes u).
  - by destruct (upd_noop_count u).
  - by destruct (upd_is_canceled u).
  - by destruct (upd_metadata u).
Qed.

End Patch.
