(* ===== verification/TransactionTypes.v ===== *)
(** * What the decoder of a transaction accepts

    Stored documents come from outside the program: they may have been written by another
    version, by a script, or by hand.  Whatever document the decoder accepts, the model it
    returns has its integers in the range of their machine types, its hashes and memos at their
    width, and is the model a second reading of its own document gives. *)

From S2P Require Import Prelude Decimal Errors Json Model TransactionJson.
Open Scope Z_scope.

Create HintDb type_db discriminated.

(** Every value the decoder returns satisfies [P]. *)
Definition returns {A} (P : A -> Prop) (dec : json -> option A) : Prop :=
  forall j a, dec j = Some a -> P a.

Section Fields.
Context {A : Type} (P : A -> Prop) (dec : json -> option A).

Lemma returns_req k fs a : returns P dec -> req dec k fs = Some a -> P a.
Proof.
  intros Hd. unfold req, get_field. destruct (fields_named k fs) as [|[k' v] []]; try done. apply Hd.
Qed.

Lemma returns_option : returns P dec -> returns (all_opt P) (of_json_option dec).
Proof.
  intros Hd j o. unfold of_json_option.
  destruct j; try (intros (a & Ha & ->)%fmap_Some a' [= <-]; by eapply Hd). by intros [= <-].
Qed.

Lemma returns_list : returns P dec -> returns (Forall P) (of_json_list dec).
Proof.
  intros Hd j l. unfold of_json_list. destruct j as [| | | |js|]; try done. intros Hm%mapM_Some.
  induction Hm; constructor; eauto.
Qed.
End Fields.

Lemma returns_opt {A} (P : A -> Prop) dec k fs o : returns P dec -> opt dec k fs = Some o -> all_opt P o.
Proof.
  intros Hd. unfold opt, get_field.
  destruct (fields_named k fs) as [|[k' v] []]; [by intros [= <-]| |done].
  by apply returns_option.
Qed.

(** Take a chain of field readings apart. *)
Ltac unbind H :=
  repeat (apply bind_Some in H as (? & ? & H)).

(** ** Integers *)

Lemma digits_of_string_digits s l : digits_of_string s = Some l -> Forall is_digit l.
Proof.
  revert l. induction s as [|c s IH]; intros l; simpl; [intros [= <-]; constructor|].
  destruct (char_digit c) as [d|] eqn:Ec; [|done]. destruct (digits_of_string s); [|done].
  intros [= <-]. constructor; [|by apply IH]. unfold char_digit in Ec.
  destruct (_ && _) eqn:E; [|done]. injection Ec as <-. bool_simpl. unfold is_digit. lia.
Qed.

Lemma unsigned_literal_nonneg s n : unsigned_literal s = Some n -> 0 <= n.
Proof.
  unfold unsigned_literal. destruct (digits_of_string s) as [[|d l]|] eqn:E; try done.
  intros [= <-]. apply digits_of_string_digits, digits_value_bound in E. lia.
Qed.

Lemma parse_unsigned_bounds mx s n : parse_unsigned mx s = Some n -> 0 <= n <= mx.
Proof.
  unfold parse_unsigned. cbv zeta. destruct (digits_of_string _) as [[|d l]|] eqn:E; try done.
  apply digits_of_string_digits, digits_value_bound in E. unfold checked.
  destruct (_ <=? _) eqn:El; [|done]. intros [= <-]. bool_simpl. lia.
Qed.

Section Types.
Context `{JsonFloat} `{ForeignSerde}.

Lemma returns_uint mx : returns (fun n => 0 <= n <= mx) (of_json_uint mx).
Proof.
  intros j n. unfold of_json_uint. destruct j; try done. destruct (integer_literal _); [|done].
  destruct (_ && _) eqn:E; [|done]. intros [= <-]. bool_simpl. lia.
Qed.

Lemma safe_integer_bounds o n : f64_to_safe_integer o = Some n -> Z.abs n <= MAX_SAFE_INTEGER_F64.
Proof.
  unfold f64_to_safe_integer. destruct o; [|done]. destruct (_ <=? _) eqn:E; [|done].
  intros [= <-]. bool_simpl. lia.
Qed.

Lemma visit_number_some {A} (vu vi : Z -> option A) vf s a :
  visit_number vu vi vf s = Some a ->
  (exists n, 0 <= n <= u64_max /\ vu n = Some a) \/
  (exists n, - 2 ^ 63 <= n < 0 /\ vi n = Some a) \/ exists o, vf o = Some a.
Proof.
  unfold visit_number. destruct (integer_literal s) as [n|]; [|by eauto].
  destruct (Z.leb_spec 0 n).
  - destruct (Z.leb_spec n u64_max); eauto 6.
  - destruct (Z.leb_spec (- 2 ^ 63) n); eauto 6.
Qed.

Lemma returns_i64 : returns is_i64 deserialize_i64.
Proof.
  intros j n. unfold deserialize_i64, is_i64. destruct j as [| |s|s| |]; try done.
  - intros [(m & ? & Hm)|[(m & ? & [= <-])|(o & Ho%safe_integer_bounds)]]%visit_number_some.
    + destruct (Z.leb_spec m i64_max); [|done]. simplify_eq. lia.
    + unfold i64_max. lia.
    + unfold MAX_SAFE_INTEGER_F64, i64_max in *. lia.
  - unfold parse_i64. destruct s as [|c s]; [done|]. destruct (Ascii.eqb c "-").
    + destruct (unsigned_literal s) as [m|] eqn:E; [|done]. destruct (Z.leb_spec m (2 ^ 63)); [|done].
      intros [= <-]. apply unsigned_literal_nonneg in E. unfold i64_max. lia.
    + intros Hp%parse_unsigned_bounds. lia.
Qed.

Lemma returns_u64 : returns (fun n => 0 <= n <= u64_max) deserialize_u64.
Proof.
  intros j n. unfold deserialize_u64. destruct j as [| |s|s| |]; try done.
  - intros [(m & ? & [= <-])|[(m & ? & Hm)|(o & Ho)]]%visit_number_some; [done|..].
    + destruct (Z.ltb_spec m 0); [done|lia].
    + destruct (f64_to_safe_integer o) as [m|] eqn:E; [|done]. apply safe_integer_bounds in E.
      destruct (Z.ltb_spec m 0); [done|]. simplify_eq. unfold MAX_SAFE_INTEGER_F64, u64_max in *. lia.
  - apply parse_unsigned_bounds.
Qed.

Lemma returns_u128 : returns (fun n => 0 <= n <= u128_max) deserialize_u128.
Proof.
  intros j n. unfold deserialize_u128. destruct j as [| |s|s| |]; try done.
  - intros [(m & ? & [= <-])|[(m & ? & Hm)|(o & Ho)]]%visit_number_some; [|destruct (Z.ltb_spec m 0)..|done].
    + unfold u64_max, u128_max in *. lia.
    + done.
    + lia.
  - apply parse_unsigned_bounds.
Qed.

Lemma returns_u256 : returns (fun n => 0 <= n <= u256_max) u256_of_json.
Proof. intros j n. destruct j as [| | |s| |]; try done. apply u256_bounds. Qed.

Lemma returns_value : returns canonical value_of_json.
Proof. intros j a [= <-]. apply norm_idemp. Qed.

Lemma returns_bytes32 : returns (fun l => length l = 32%nat) bytes32_of_json.
Proof.
  intros j l Hl. destruct j as [| | |s| |]; try done. simpl in Hl. unbind Hl.
  destruct (Nat.eqb_spec (length x) 32); [by simplify_eq|done].
Qed.

Hint Resolve returns_uint returns_i64 returns_u64 returns_u128 returns_u256 returns_value
  returns_bytes32 returns_list : type_db.

(** A field that was read satisfies what its decoder returns. *)
Ltac typed :=
  repeat match goal with
  | H : req _ _ _ = Some _ |- _ => eapply returns_req in H; [|solve [eauto 3 with type_db]]
  | H : opt _ _ _ = Some _ |- _ => eapply returns_opt in H; [|solve [eauto 3 with type_db]]
  end; cbv beta in *; solve [done | tauto].

(** ** The models *)

Lemma returns_signature : returns (fun s => 0 <= sig_v s <= u8_max) evm_signature_of_json.
Proof. intros j s Hs. destruct j as [| | | | |fs]; try done. simpl in Hs. unbind Hs. simplify_eq. simpl. typed. Qed.
Hint Resolve returns_signature : type_db.

Lemma returns_evm_data : returns evm_data_ok evm_data_of_json.
Proof.
  intros j d Hd. destruct j as [| | | | |fs]; try done. unfold evm_data_of_json in Hd. unbind Hd. simplify_eq.
  unfold evm_data_ok, in_range_opt. simpl. split_and!; typed.
Qed.

Lemma returns_operation : returns operation_ok operation_of_json.
Proof.
  intros j o Ho. destruct j as [| | | | |fs]; try done. unfold operation_of_json in Ho. unbind Ho.
  repeat (destruct (String.eqb _ _); [unbind Ho; simplify_eq; simpl; try done; typed|]). done.
Qed.

Lemma returns_memo : returns memo_ok memo_of_json.
Proof.
  intros j m Hm. destruct j as [| | | | |fs]; try done. unfold memo_of_json in Hm. unbind Hm.
  repeat (destruct (String.eqb _ _);
    [first [injection Hm as <- | apply fmap_Some in Hm as (? & ? & ->)]; simpl; try done; typed|]).
  done.
Qed.
Hint Resolve returns_operation returns_memo : type_db.

Lemma returns_input : returns input_ok transaction_input_of_json.
Proof.
  intros j i. unfold transaction_input_of_json.
  destruct j as [| | | | |[|[tag v] []]]; try done.
  repeat (destruct (String.eqb _ _)); try done.
  - intros (ops & Hops & ->)%fmap_Some. simpl. eapply returns_list; eauto with type_db.
  - by intros (x & _ & ->)%fmap_Some.
  - destruct v as [| | | | |fs]; try done. intros Hi. unbind Hi. simplify_eq. simpl. typed.
  - destruct v as [| | | | |fs]; try done. intros Hi. unbind Hi. by simplify_eq.
Qed.
Hint Resolve returns_input : type_db.

Lemma returns_decorated_signature : returns decorated_signature_ok decorated_signature_of_json.
Proof.
  intros j s Hs. destruct j as [| | | | |fs]; try done. unfold decorated_signature_of_json in Hs.
  unbind Hs. destruct (_ && _) eqn:E; [|done]. injection Hs as <-.
  apply andb_true_iff in E as [Hh%Nat.eqb_eq Hl%Nat.leb_le]. done.
Qed.
Hint Resolve returns_decorated_signature : type_db.

Lemma returns_stellar_data : returns stellar_data_ok stellar_data_of_json.
Proof.
  intros j d Hd. destruct j as [| | | | |fs]; try done. unfold stellar_data_of_json in Hd. unbind Hd. simplify_eq.
  unfold stellar_data_ok, in_range_opt. simpl. split_and!; typed.
Qed.
Hint Resolve returns_evm_data returns_stellar_data : type_db.

Lemma returns_network_data : returns network_data_ok network_data_of_json.
Proof.
  intros j n Hn. destruct j as [| | | | |fs]; try done. unfold network_data_of_json in Hn. unbind Hn.
  repeat (destruct (String.eqb _ _);
    [apply fmap_Some in Hn as (? & ? & ->); simpl; try done; typed|]). done.
Qed.

Lemma returns_counter k fs n : counter_field k fs = Some n -> 0 <= n <= u32_max.
Proof.
  unfold counter_field, get_field. destruct (fields_named k fs) as [|[? v] []]; try done.
  - intros [= <-]. unfold u32_max. lia.
  - apply returns_uint.
Qed.

Lemma returns_metadata : returns metadata_ok metadata_of_json.
Proof.
  intros j m Hm. destruct j as [| | | | |fs]; try done. unfold metadata_of_json in Hm. unbind Hm. simplify_eq.
  unfold metadata_ok. simpl. split_and!; by eapply returns_counter.
Qed.
Hint Resolve returns_network_data returns_metadata : type_db.

Lemma returns_tx : returns tx_ok tx_of_json.
Proof.
  intros j t Ht. destruct j as [| | | | |fs]; try done. unfold tx_of_json in Ht. unbind Ht. simplify_eq.
  unfold tx_ok, in_range_opt. cbn [tx_network_data tx_noop_count tx_metadata]. split_and!; typed.
Qed.
End Types.
