(* ===== verification/Config.v ===== *)
(** * Network and relayer models

    [models/network/evm/network.rs] with the stored configuration it is built from
    ([config/config_file/network]), and the relayer model with its EVM policy
    ([models/relayer]). *)

From S2P Require Import Prelude Decimal Errors Model.
Open Scope Z_scope.

Record RpcConfig := {
  rpc_url : string;
  rpc_weight : Z;
}.

(** ** Networks *)

Record GasPriceCacheConfig := {
  gpc_enabled : bool;
  gpc_stale_after_ms : Z;
  gpc_expire_after_ms : Z;
}.

Record StatusCheckConfig := {
  sc_initial_delay_seconds : option Z;
  sc_retry_delay_seconds : option Z;
}.

Record NetworkConfigCommon := {
  ncc_network : string;
  ncc_from : option string;
  ncc_rpc_urls : option (list RpcConfig);
  ncc_explorer_urls : option (list string);
  ncc_average_blocktime_ms : option Z;
  ncc_is_testnet : option bool;
  ncc_tags : option (list string);
}.

Record EvmNetworkConfig := {
  enc_common : NetworkConfigCommon;
  enc_chain_id : option Z;
  enc_required_confirmations : option Z;
  enc_status_check : option StatusCheckConfig;
  enc_features : option (list string);
  enc_symbol : option string;
  enc_gas_price_cache : option GasPriceCacheConfig;
}.

(** The Solana and Stellar payloads are not read by the code modelled here. *)
Inductive NetworkConfigData : Type :=
| EvmConfig (c : EvmNetworkConfig)
| SolanaConfig
| StellarConfig.

Record NetworkRepoModel := {
  nrm_id : string;
  nrm_name : string;
  nrm_network_type : NetworkType;
  nrm_config : NetworkConfigData;
}.

Record EvmNetwork := {
  net_network : string;
  net_rpc_urls : list RpcConfig;
  net_explorer_urls : option (list string);
  net_average_blocktime_ms : Z;
  net_is_testnet : bool;
  net_tags : list string;
  net_chain_id : Z;
  net_required_confirmations : Z;
  net_status_check_initial_delay_seconds : Z;
  net_status_check_retry_delay_seconds : Z;
  net_features : list string;
  net_symbol : string;
  net_gas_price_cache : option GasPriceCacheConfig;
}.

Definition DEFAULT_EVM_STATUS_CHECK_INITIAL_DELAY_SECONDS : Z := 8.
Definition MIN_EVM_STATUS_CHECK_INITIAL_DELAY_SECONDS : Z := 1.
Definition DEFAULT_EVM_STATUS_CHECK_RETRY_DELAY_SECONDS : Z := 8.
Definition MIN_EVM_STATUS_CHECK_RETRY_DELAY_SECONDS : Z := 5.
Definition MAX_EVM_STATUS_CHECK_DELAY_SECONDS : Z := 100.

(** [option.is_some_and(|d| !(lo..=hi).contains(&d))] *)
Definition out_of_range (o : option Z) (lo hi : Z) : bool :=
  match o with Some d => negb ((lo <=? d) && (d <=? hi)) | None => false end.

(** [StatusCheckConfig::validate] *)
Definition status_check_validate (c : StatusCheckConfig) : result string unit :=
  if out_of_range (sc_initial_delay_seconds c) MIN_EVM_STATUS_CHECK_INITIAL_DELAY_SECONDS
       MAX_EVM_STATUS_CHECK_DELAY_SECONDS
  then Err "status_check.initial_delay_seconds must be between 1 and 100 seconds"
  else if out_of_range (sc_retry_delay_seconds c) MIN_EVM_STATUS_CHECK_RETRY_DELAY_SECONDS
            MAX_EVM_STATUS_CHECK_DELAY_SECONDS
  then Err "status_check.retry_delay_seconds must be between 5 and 100 seconds"
  else Ok tt.

Definition status_check_initial_delay_seconds (c : EvmNetworkConfig) : Z :=
  default DEFAULT_EVM_STATUS_CHECK_INITIAL_DELAY_SECONDS
    (enc_status_check c ≫= sc_initial_delay_seconds).

Definition status_check_retry_delay_seconds (c : EvmNetworkConfig) : Z :=
  default DEFAULT_EVM_STATUS_CHECK_RETRY_DELAY_SECONDS
    (enc_status_check c ≫= sc_retry_delay_seconds).

Definition missing {A} (name what : string) : result RepositoryError.t A :=
  Err (RepositoryError.InvalidData ("EVM network '" +:+ name +:+ "' has no " +:+ what)).

(** [EvmNetwork::try_from(NetworkRepoModel)] *)
Definition evm_network_try_from (m : NetworkRepoModel) : result RepositoryError.t EvmNetwork :=
  let name := nrm_name m in
  match nrm_config m with
  | EvmConfig c =>
      let common := enc_common c in
      let? chain_id := match enc_chain_id c with
                       | Some x => Ok x | None => missing name "chain_id" end in
      let? required_confirmations :=
        match enc_required_confirmations c with
        | Some x => Ok x | None => missing name "required_confirmations" end in
      let? symbol := match enc_symbol c with
                     | Some x => Ok x | None => missing name "symbol" end in
      let? average_blocktime_ms :=
        match ncc_average_blocktime_ms common with
        | Some x => Ok x | None => missing name "average_blocktime_ms" end in
      let? _ := match enc_status_check c with
                | Some sc => result_map_err (fun e => RepositoryError.InvalidData
                     ("EVM network '" +:+ name +:+ "' has an invalid status_check: " +:+ e))
                     (status_check_validate sc)
                | None => Ok tt
                end in
      Ok {| net_network := ncc_network common;
            net_rpc_urls := default [] (ncc_rpc_urls common);
            net_explorer_urls := ncc_explorer_urls common;
            net_average_blocktime_ms := average_blocktime_ms;
            net_is_testnet := default false (ncc_is_testnet common);
            net_tags := default [] (ncc_tags common);
            net_chain_id := chain_id;
            net_required_confirmations := required_confirmations;
            net_status_check_initial_delay_seconds := status_check_initial_delay_seconds c;
            net_status_check_retry_delay_seconds := status_check_retry_delay_seconds c;
            net_features := default [] (enc_features c);
            net_symbol := symbol;
            net_gas_price_cache := enc_gas_price_cache c |}
  | _ => Err (RepositoryError.InvalidData ("Network '" +:+ name +:+ "' is not an EVM network"))
  end.

Definition has_tag (n : EvmNetwork) (tag : string) : bool :=
  existsb (fun t => String.eqb t tag) (net_tags n).

Definition NO_MEMPOOL_TAG : string := "no-mempool".
Definition ARBITRUM_BASED_TAG : string := "arbitrum-based".
Definition OPTIMISM_BASED_TAG : string := "optimism-based".
Definition POLYGON_ZKEVM_TAG : string := "polygon-zkevm-based".
Definition OPTIMISM_TAG : string := "optimism".
Definition ROLLUP_TAG : string := "rollup".
Definition LACKS_MEMPOOL_TAGS : list string :=
  [NO_MEMPOOL_TAG; ARBITRUM_BASED_TAG; OPTIMISM_BASED_TAG; OPTIMISM_TAG].

Definition is_optimism (n : EvmNetwork) : bool :=
  existsb (fun t => String.eqb t OPTIMISM_BASED_TAG || String.eqb t OPTIMISM_TAG) (net_tags n).
Definition is_rollup (n : EvmNetwork) : bool := has_tag n ROLLUP_TAG.
Definition lacks_mempool (n : EvmNetwork) : bool :=
  existsb (fun t => existsb (String.eqb t) LACKS_MEMPOOL_TAGS) (net_tags n).
Definition is_arbitrum (n : EvmNetwork) : bool := has_tag n ARBITRUM_BASED_TAG.
Definition is_polygon_zkevm (n : EvmNetwork) : bool := has_tag n POLYGON_ZKEVM_TAG.
Definition net_is_legacy (n : EvmNetwork) : bool :=
  negb (existsb (String.eqb "eip1559") (net_features n)).

(** ** Relayers *)

Record RelayerEvmPolicy := {
  pol_min_balance : option Z;
  pol_gas_limit_estimation : option bool;
  pol_gas_price_cap : option Z;
  pol_whitelist_receivers : option (list string);
  pol_eip1559_pricing : option bool;
  pol_private_transactions : option bool;
  pol_include_revert_data : option bool;
}.

Definition evm_policy_default : RelayerEvmPolicy :=
  {| pol_min_balance := None; pol_gas_limit_estimation := None; pol_gas_price_cap := None;
     pol_whitelist_receivers := None; pol_eip1559_pricing := None;
     pol_private_transactions := None; pol_include_revert_data := None |}.

Inductive StellarFeePaymentStrategy : Type := FeeUser | FeeRelayer.

(** Decimals and swap settings of a token are read by the DEX services only. *)
Record StellarAllowedTokensPolicy := {
  sat_asset : string;
  sat_max_allowed_fee : option Z;
}.

(** Without the floating-point percentages and the swap settings, which are read by the DEX
    services only. *)
Record RelayerStellarPolicy := {
  spol_min_balance : option Z;
  spol_max_fee : option Z;
  spol_timeout_seconds : option Z;
  spol_concurrent_transactions : option bool;
  spol_allowed_tokens : option (list StellarAllowedTokensPolicy);
  spol_fee_payment_strategy : option StellarFeePaymentStrategy;
}.

Definition stellar_policy_default : RelayerStellarPolicy :=
  {| spol_min_balance := None; spol_max_fee := None; spol_timeout_seconds := None;
     spol_concurrent_transactions := None; spol_allowed_tokens := None;
     spol_fee_payment_strategy := None |}.

Definition get_allowed_tokens (p : RelayerStellarPolicy) : list StellarAllowedTokensPolicy :=
  default [] (spol_allowed_tokens p).

Definition get_allowed_token_entry (p : RelayerStellarPolicy) (asset : string)
  : option StellarAllowedTokensPolicy :=
  List.find (fun entry => String.eqb (sat_asset entry) asset) (get_allowed_tokens p).

Definition is_user_fee_payment (p : RelayerStellarPolicy) : bool :=
  match spol_fee_payment_strategy p with Some FeeUser => true | _ => false end.

(** The symbol and the swap settings of a token are read by the DEX services only. *)
Record SolanaAllowedTokensPolicy := {
  slt_mint : string;
  slt_decimals : option Z;
  slt_max_allowed_fee : option Z;
}.

(** Without the fee strategy, the floating-point margin and the swap settings, which are read
    by the gasless RPC methods and the DEX services only. *)
Record RelayerSolanaPolicy := {
  slpol_allowed_programs : option (list string);
  slpol_max_signatures : option Z;
  slpol_max_tx_data_size : option Z;
  slpol_min_balance : option Z;
  slpol_allowed_tokens : option (list SolanaAllowedTokensPolicy);
  slpol_allowed_accounts : option (list string);
  slpol_disallowed_accounts : option (list string);
  slpol_max_allowed_fee_lamports : option Z;
}.

Definition solana_policy_default : RelayerSolanaPolicy :=
  {| slpol_allowed_programs := None; slpol_max_signatures := None;
     slpol_max_tx_data_size := None; slpol_min_balance := None; slpol_allowed_tokens := None;
     slpol_allowed_accounts := None; slpol_disallowed_accounts := None;
     slpol_max_allowed_fee_lamports := None |}.

Inductive RelayerNetworkPolicy : Type :=
| EvmPolicy (p : RelayerEvmPolicy)
| SolanaPolicy (p : RelayerSolanaPolicy)
| StellarPolicy (p : RelayerStellarPolicy).

Definition get_evm_policy (p : RelayerNetworkPolicy) : RelayerEvmPolicy :=
  match p with EvmPolicy p => p | _ => evm_policy_default end.

Definition get_solana_policy (p : RelayerNetworkPolicy) : RelayerSolanaPolicy :=
  match p with SolanaPolicy p => p | _ => solana_policy_default end.

Definition get_stellar_policy (p : RelayerNetworkPolicy) : RelayerStellarPolicy :=
  match p with StellarPolicy p => p | _ => stellar_policy_default end.

Definition DEFAULT_SOLANA_MIN_BALANCE : Z := 10000000.
Definition DEFAULT_SOLANA_MAX_TX_DATA_SIZE : Z := 1232.
Definition DEFAULT_STELLAR_CONCURRENT_TRANSACTIONS : bool := false.

#[local] Set Warnings "-register-all".
Inductive DisabledReason : Type :=
| NonceSyncFailed (msg : string)
| RpcValidationFailed (msg : string)
| BalanceCheckFailed (msg : string)
| SequenceSyncFailed (msg : string)
| MultipleReasons (l : list DisabledReason).

Record RelayerRepoModel := {
  rel_id : string;
  rel_name : string;
  rel_network : string;
  rel_paused : bool;
  rel_network_type : NetworkType;
  rel_signer_id : string;
  rel_policies : RelayerNetworkPolicy;
  rel_address : string;
  rel_notification_id : option string;
  rel_system_disabled : bool;
  rel_disabled_reason : option DisabledReason;
  rel_custom_rpc_urls : option (list RpcConfig);
}.

Definition DEFAULT_EVM_MIN_BALANCE : Z := 1.
Definition DEFAULT_EVM_GAS_PRICE_CAP : Z := 100000000000.
Definition DEFAULT_EVM_EIP1559_ENABLED : bool := true.
Definition DEFAULT_EVM_GAS_LIMIT_ESTIMATION : bool := true.
Definition DEFAULT_EVM_INCLUDE_REVERT_DATA : bool := false.

Lemma out_of_range_false o lo hi d :
  out_of_range o lo hi = false -> o = Some d -> lo <= d <= hi.
Proof. intros Ho ->. simpl in Ho. bool_simpl. lia. Qed.

Lemma status_check_validate_ok sc u :
  status_check_validate sc = Ok u ->
  (forall d, sc_initial_delay_seconds sc = Some d -> 1 <= d <= 100) /\
  (forall d, sc_retry_delay_seconds sc = Some d -> 5 <= d <= 100).
Proof.
  unfold status_check_validate. intros H. repeat (case_match; [done|]).
  split; intros d; by apply out_of_range_false.
Qed.

(** A converted network has delays in the configured range: the retry backoff derived from it
    never starts below 5 seconds nor above 100. *)
Lemma evm_network_try_from_delays m n :
  evm_network_try_from m = Ok n ->
  1 <= net_status_check_initial_delay_seconds n <= 100 /\
  5 <= net_status_check_retry_delay_seconds n <= 100.
Proof.
  unfold evm_network_try_from. destruct (nrm_config m) as [c| |]; [|done..].
  destruct (enc_chain_id c); [|done]. destruct (enc_required_confirmations c); [|done].
  destruct (enc_symbol c); [|done]. destruct (ncc_average_blocktime_ms (enc_common c)); [|done].
  simpl. unfold status_check_initial_delay_seconds, status_check_retry_delay_seconds.
  destruct (enc_status_check c) as [sc|]; simpl.
  - destruct (status_check_validate sc) eqn:Hv; simpl; [|done]. intros [= <-]. simpl.
    destruct (status_check_validate_ok _ _ Hv) as [Hi Hr].
    destruct (sc_initial_delay_seconds sc), (sc_retry_delay_seconds sc); simpl;
      split; eauto; unfold DEFAULT_EVM_STATUS_CHECK_RETRY_DELAY_SECONDS,
        DEFAULT_EVM_STATUS_CHECK_INITIAL_DELAY_SECONDS; lia.
  - intros [= <-]. simpl. unfold DEFAULT_EVM_STATUS_CHECK_RETRY_DELAY_SECONDS,
        DEFAULT_EVM_STATUS_CHECK_INITIAL_DELAY_SECONDS. lia.
Qed.
