(* ===== verification/StellarXdr.v ===== *)
(** * Stellar envelopes

    The part of [stellar_xdr]'s data the Stellar code looks into, the parser, printer and
    address encodings of that crate and of [stellar_strkey] as the class [StellarSdk], and the
    pure functions over envelopes: [domain/relayer/stellar/xdr_utils.rs], the conversions of
    [models/transaction/stellar] and [models/transaction/repository.rs], the fee arithmetic of
    [domain/transaction/stellar/prepare/common.rs] and the helpers of
    [domain/transaction/stellar/utils.rs].  Parts of the data nothing looks into are kept as
    bytes. *)

From S2P Require Import Prelude Decimal Errors Json Model Config.
Open Scope Z_scope.

(** ** Data of [stellar_xdr] *)

Module Xdr.

(** A muxed account; keys are the 32 bytes of an Ed25519 public key. *)
Inductive MuxedAccount : Type :=
| Ed25519 (key : list Byte.byte)
| MuxedEd25519 (id : Z) (key : list Byte.byte).

Inductive Asset : Type :=
| Native
| CreditAlphanum4 (code issuer : list Byte.byte)
| CreditAlphanum12 (code issuer : list Byte.byte).

Inductive ChangeTrustAsset : Type :=
| CtNative
| CtCreditAlphanum4 (code issuer : list Byte.byte)
| CtCreditAlphanum12 (code issuer : list Byte.byte)
| CtPoolShare (parameters : list Byte.byte).

Inductive ScErrorKind : Type :=
| WasmVm | Context_ | Storage | Object | Crypto | Events | Budget | Value | Auth.

(** A contract error carries a number, the others a code, here by its name. *)
Inductive ScError : Type :=
| ScContract (n : Z)
| ScCoded (kind : ScErrorKind) (code : string).

Inductive ScAddress : Type :=
| Account (key : list Byte.byte)
| Contract (id : list Byte.byte)
| OtherAddress (xdr : list Byte.byte).

Inductive ScVal : Type :=
| VError (e : ScError)
| VString (bytes : list Byte.byte)
| VSymbol (bytes : list Byte.byte)
| VVec (items : option (list ScVal))
| VAddress (a : ScAddress)
| VI128 (hi lo : Z)
| VOther (xdr : list Byte.byte).

Inductive AuthorizedFunction : Type :=
| ContractFn (contract : ScAddress) (function_name : list Byte.byte) (args : list ScVal)
| CreateContractFn (xdr : list Byte.byte).

Inductive Credentials : Type :=
| SourceAccount
| AddressCredentials (xdr : list Byte.byte).

Record AuthorizationEntry := {
  ae_credentials : Credentials;
  ae_function : AuthorizedFunction;
  ae_sub_invocations : list Byte.byte;
}.

Inductive HostFunction : Type :=
| InvokeContract (contract : ScAddress) (function_name : list Byte.byte) (args : list ScVal)
| OtherHostFunction (xdr : list Byte.byte).

Inductive OperationBody : Type :=
| InvokeHostFunction (host_function : HostFunction) (auth : list AuthorizationEntry)
| ChangeTrust (line : ChangeTrustAsset) (limit : Z)
| PathPaymentStrictSend (send_asset : Asset) (send_amount : Z) (destination : MuxedAccount)
    (dest_asset : Asset) (dest_min : Z) (path : list Asset)
| Payment (destination : MuxedAccount) (asset : Asset) (amount : Z)
| OtherBody (xdr : list Byte.byte).

Record Operation := {
  op_source_account : option MuxedAccount;
  op_body : OperationBody;
}.

Record TimeBounds := { min_time : Z; max_time : Z }.

Inductive Preconditions : Type :=
| PreNone
| PreTime (tb : TimeBounds)
| PreV2 (time_bounds : option TimeBounds) (rest : list Byte.byte).

Inductive Memo : Type :=
| NoMemo
| Text (value : string)
| Id (value : Z)
| Hash (value : list Byte.byte)
| Return (value : list Byte.byte).

Record Resources := {
  res_footprint : list Byte.byte;
  res_instructions : Z;
  res_disk_read_bytes : Z;
  res_write_bytes : Z;
}.

Record SorobanTransactionData := {
  sd_ext : list Byte.byte;
  sd_resources : Resources;
  sd_resource_fee : Z;
}.

Inductive TransactionExt : Type :=
| ExtV0
| ExtV1 (data : SorobanTransactionData).

Record Transaction := {
  tx_source_account : MuxedAccount;
  tx_fee : Z;
  tx_seq_num : Z;
  tx_cond : Preconditions;
  tx_memo : Memo;
  tx_operations : list Operation;
  tx_ext : TransactionExt;
}.

Record TransactionV0 := {
  v0_source_account : list Byte.byte;
  v0_fee : Z;
  v0_seq_num : Z;
  v0_time_bounds : option TimeBounds;
  v0_memo : Memo;
  v0_operations : list Operation;
}.

Record FeeBumpTransaction := {
  fb_fee_source : MuxedAccount;
  fb_fee : Z;
  fb_inner : Transaction;
  fb_inner_signatures : list DecoratedSignature;
}.

Inductive TransactionEnvelope : Type :=
| TxV0 (tx : TransactionV0) (signatures : list DecoratedSignature)
| Tx (tx : Transaction) (signatures : list DecoratedSignature)
| TxFeeBump (tx : FeeBumpTransaction) (signatures : list DecoratedSignature).

Definition set_fee (fee : Z) (t : Transaction) : Transaction :=
  {| tx_source_account := tx_source_account t; tx_fee := fee; tx_seq_num := tx_seq_num t;
     tx_cond := tx_cond t; tx_memo := tx_memo t; tx_operations := tx_operations t;
     tx_ext := tx_ext t |}.

Definition set_seq_num (seq : Z) (t : Transaction) : Transaction :=
  {| tx_source_account := tx_source_account t; tx_fee := tx_fee t; tx_seq_num := seq;
     tx_cond := tx_cond t; tx_memo := tx_memo t; tx_operations := tx_operations t;
     tx_ext := tx_ext t |}.

Definition set_operations (ops : list Operation) (t : Transaction) : Transaction :=
  {| tx_source_account := tx_source_account t; tx_fee := tx_fee t; tx_seq_num := tx_seq_num t;
     tx_cond := tx_cond t; tx_memo := tx_memo t; tx_operations := ops; tx_ext := tx_ext t |}.

Definition set_ext (ext : TransactionExt) (t : Transaction) : Transaction :=
  {| tx_source_account := tx_source_account t; tx_fee := tx_fee t; tx_seq_num := tx_seq_num t;
     tx_cond := tx_cond t; tx_memo := tx_memo t; tx_operations := tx_operations t;
     tx_ext := ext |}.

Definition set_cond (cond : Preconditions) (t : Transaction) : Transaction :=
  {| tx_source_account := tx_source_account t; tx_fee := tx_fee t; tx_seq_num := tx_seq_num t;
     tx_cond := cond; tx_memo := tx_memo t; tx_operations := tx_operations t;
     tx_ext := tx_ext t |}.
End Xdr.
Export Xdr(TxV0, Tx, TxFeeBump).
Notation TransactionEnvelope := Xdr.TransactionEnvelope.

(** ** Constants ([constants/stellar_transaction.rs]) *)

Definition STELLAR_DEFAULT_TRANSACTION_FEE : Z := 100.
Definition STELLAR_DEFAULT_MAX_FEE : Z := 1000000.
Definition STELLAR_MAX_OPERATIONS : Z := 100.
Definition STELLAR_SPONSORED_TRANSACTION_VALIDITY_MINUTES : Z := 2.
Definition STELLAR_MAX_STUCK_TRANSACTION_LIFETIME_MINUTES : Z := 15.
Definition STELLAR_PENDING_RECOVERY_TRIGGER_SECONDS : Z := 10.
Definition STELLAR_RESUBMIT_BASE_INTERVAL_SECONDS : Z := 10.
Definition STELLAR_RESUBMIT_MAX_INTERVAL_SECONDS : Z := 120.
Definition STELLAR_INSUFFICIENT_FEE_MAX_RETRIES : Z := 6.
Definition STELLAR_FAST_RESUBMIT_BASE_DELAY_SECONDS : Z := 5.
Definition STELLAR_TRY_AGAIN_LATER_FAST_RETRIES : Z := 3.

(** ** Strings of the standard library *)

Definition byte_z (b : Byte.byte) : Z := Z.of_N (Byte.to_N b).

Definition byte_in (lo hi : Z) (b : Byte.byte) : bool := (lo <=? byte_z b) && (byte_z b <=? hi).

(** The range of the second byte of a sequence of three or four bytes, by its first one. *)
Definition utf8_second (b : Byte.byte) : Z * Z :=
  let n := byte_z b in
  if n =? 0xE0 then (0xA0, 0xBF) else if n =? 0xED then (0x80, 0x9F)
  else if n =? 0xF0 then (0x90, 0xBF) else if n =? 0xF4 then (0x80, 0x8F) else (0x80, 0xBF).

(** Where [std::str::from_utf8] finds the first error, with the length of the invalid
    sequence, or without one when the input ends inside a sequence. *)
Fixpoint utf8_error (i : Z) (l : list Byte.byte) : option (Z * option Z) :=
  match l with
  | [] => None
  | b :: l1 =>
      if byte_in 0 0x7F b then utf8_error (i + 1) l1
      else if byte_in 0xC2 0xDF b then
        match l1 with
        | [] => Some (i, None)
        | c :: l2 => if byte_in 0x80 0xBF c then utf8_error (i + 2) l2 else Some (i, Some 1)
        end
      else if byte_in 0xE0 0xF4 b then
        match l1 with
        | [] => Some (i, None)
        | c :: l2 =>
            if negb (byte_in (fst (utf8_second b)) (snd (utf8_second b)) c) then Some (i, Some 1)
            else match l2 with
            | [] => Some (i, None)
            | d :: l3 =>
                if negb (byte_in 0x80 0xBF d) then Some (i, Some 2)
                else if byte_in 0xE0 0xEF b then utf8_error (i + 3) l3
                else match l3 with
                | [] => Some (i, None)
                | e :: l4 => if byte_in 0x80 0xBF e then utf8_error (i + 4) l4
                             else Some (i, Some 3)
                end
            end
        end
      else Some (i, Some 1)
  end.

(** [String::from_utf8], with the text of its error. *)
Definition from_utf8 (l : list Byte.byte) : result string string :=
  match utf8_error 0 l with
  | None => Ok (String.string_of_list_byte l)
  | Some (i, Some n) => Err ("invalid utf-8 sequence of " +:+ print_dec n +:+
                             " bytes from index " +:+ print_dec i)
  | Some (i, None) => Err ("incomplete utf-8 byte sequence from index " +:+ print_dec i)
  end.

Definition upper_ascii (c : ascii) : ascii :=
  let n := N_of_ascii c in
  if (97 <=? n)%N && (n <=? 122)%N then ascii_of_N (n - 32)%N else c.

Fixpoint to_uppercase (s : string) : string :=
  match s with
  | EmptyString => EmptyString
  | String c s' => String (upper_ascii c) (to_uppercase s')
  end.

Definition eq_ignore_ascii_case (a b : string) : bool :=
  String.eqb (to_lowercase a) (to_lowercase b).

(** ** Errors *)

Module StellarValidationError.
Inductive t : Type :=
| SourceAccountMismatch (expected actual : string)
| UnexpectedSignedXdr
| UnexpectedUnsignedXdr
| InvalidMaxFee
| InvalidXdr (msg : string)
| EmptyOperations
| TooManyOperations (count max : Z)
| MultipleSorobanOperations
| SorobanNotExclusive
| SorobanWithMemo.

Definition display (e : t) : string :=
  match e with
  | SourceAccountMismatch expected actual =>
      "XDR source account " +:+ actual +:+ " does not match relayer account " +:+ expected
  | UnexpectedSignedXdr => "Expected unsigned XDR but received signed XDR"
  | UnexpectedUnsignedXdr => "Expected signed XDR but received unsigned XDR"
  | InvalidMaxFee => "max_fee must be greater than 0 for signed XDR"
  | InvalidXdr m => "Invalid XDR: " +:+ m
  | EmptyOperations => "Transaction must have at least one operation"
  | TooManyOperations count max =>
      "Transaction has " +:+ print_dec count +:+ " operations, but maximum allowed is " +:+
      print_dec max
  | MultipleSorobanOperations => "Transaction can contain at most one Soroban operation"
  | SorobanNotExclusive =>
      "Soroban operations must be exclusive - no other operations allowed in the same transaction"
  | SorobanWithMemo => "Soroban operations cannot have a memo (except MemoNone)"
  end.
End StellarValidationError.

Definition transaction_error_of_stellar_validation (e : StellarValidationError.t)
  : TransactionError.t :=
  TransactionError.ValidationError (StellarValidationError.display e).

(** [SignerError::ConversionError], by what it prints. *)
Definition conversion_error (msg : string) : string := "Transaction conversion error: " +:+ msg.

(** ** The crates

    [stellar_xdr]'s base64 codec, [stellar_strkey]'s addresses, and the conversion of one
    requested operation ([models/transaction/stellar/operation.rs], not modelled).  Errors are
    the texts they print. *)
Class StellarSdk := {
  envelope_from_xdr : string -> result string TransactionEnvelope;
  envelope_to_xdr : TransactionEnvelope -> result string string;
  soroban_data_from_xdr : string -> result string Xdr.SorobanTransactionData;
  auth_entry_from_xdr : string -> result string Xdr.AuthorizationEntry;
  scval_to_xdr : Xdr.ScVal -> result string string;
  (** The name of the result of an encoded [TransactionResult]. *)
  result_name_from_xdr : string -> option string;
  (** [Hash::from_str]: the text of the error, if any. *)
  hash_parse_error : string -> option string;
  scval_debug : Xdr.ScVal -> string;

  strkey_public_key : list Byte.byte -> string;
  strkey_contract : list Byte.byte -> string;
  public_key_from_string : string -> result string (list Byte.byte);
  muxed_account_from_string : string -> option (Z * list Byte.byte);

  operation_try_from : OperationSpec -> result string Xdr.Operation;
  (** [StringM::<28>::try_from]: the text of the error, if any. *)
  memo_text_error : string -> option string;
}.

(** What the code relies on: printing an envelope and parsing the text gives it back, and so
    does printing a public key; a printed public key is no muxed account. *)
Class StellarSdkLaws `{StellarSdk} := {
  envelope_roundtrip e s : envelope_to_xdr e = Ok s -> envelope_from_xdr s = Ok e;
  public_key_roundtrip k :
    length k = 32%nat -> public_key_from_string (strkey_public_key k) = Ok k;
  public_key_not_muxed k : muxed_account_from_string (strkey_public_key k) = None;
}.

Section WithSdk.
Context `{StellarSdk}.

(** ** Envelopes ([xdr_utils.rs]) *)

Definition is_signed (envelope : TransactionEnvelope) : bool :=
  match envelope with
  | TxV0 _ signatures | Tx _ signatures | TxFeeBump _ signatures =>
      match signatures with [] => false | _ => true end
  end.

Definition parse_transaction_xdr (xdr : string) (expect_signed : bool)
  : result string TransactionEnvelope :=
  let? envelope := result_map_err
    (fun e => StellarValidationError.display (StellarValidationError.InvalidXdr e))
    (envelope_from_xdr xdr) in
  if expect_signed && negb (is_signed envelope)
  then Err (StellarValidationError.display StellarValidationError.UnexpectedUnsignedXdr)
  else Ok envelope.

(** The underlying key of a muxed account is printed. *)
Definition muxed_account_to_string (muxed : Xdr.MuxedAccount) : string :=
  match muxed with
  | Xdr.Ed25519 key => strkey_public_key key
  | Xdr.MuxedEd25519 _ key => strkey_public_key key
  end.

Definition string_to_muxed_account (address : string) : result string Xdr.MuxedAccount :=
  match muxed_account_from_string address with
  | Some (id, key) => Ok (Xdr.MuxedEd25519 id key)
  | None =>
      let? key := result_map_err (fun e => "Failed to decode account ID: " +:+ e)
                    (public_key_from_string address) in
      Ok (Xdr.Ed25519 key)
  end.

Definition extract_source_account (envelope : TransactionEnvelope) : string :=
  match envelope with
  | TxV0 tx _ => strkey_public_key (Xdr.v0_source_account tx)
  | Tx tx _ => muxed_account_to_string (Xdr.tx_source_account tx)
  | TxFeeBump tx _ => muxed_account_to_string (Xdr.fb_fee_source tx)
  end.

Definition validate_source_account (envelope : TransactionEnvelope) (expected : string)
  : result string unit :=
  let source := extract_source_account envelope in
  if String.eqb source expected then Ok tt
  else Err ("Source account mismatch: expected " +:+ expected +:+ ", got " +:+ source).

Definition convert_v0_to_v1_transaction (v0_tx : Xdr.TransactionV0) : Xdr.Transaction :=
  {| Xdr.tx_source_account := Xdr.Ed25519 (Xdr.v0_source_account v0_tx);
     Xdr.tx_fee := Xdr.v0_fee v0_tx;
     Xdr.tx_seq_num := Xdr.v0_seq_num v0_tx;
     Xdr.tx_cond := match Xdr.v0_time_bounds v0_tx with
                    | Some tb => Xdr.PreTime tb
                    | None => Xdr.PreNone
                    end;
     Xdr.tx_memo := Xdr.v0_memo v0_tx;
     Xdr.tx_operations := Xdr.v0_operations v0_tx;
     Xdr.tx_ext := Xdr.ExtV0 |}.

Definition build_fee_bump_envelope (inner_envelope : TransactionEnvelope) (fee_source : string)
    (max_fee : Z) : result string TransactionEnvelope :=
  if negb (is_signed inner_envelope)
  then Err "Inner transaction must be signed before fee-bumping"
  else if String.eqb (extract_source_account inner_envelope) fee_source
  then Err "Fee-bump source cannot be the same as inner transaction source"
  else
    let? fee_source_muxed := string_to_muxed_account fee_source in
    let? inner := match inner_envelope with
                  | TxV0 tx signatures => Ok (convert_v0_to_v1_transaction tx, signatures)
                  | Tx tx signatures => Ok (tx, signatures)
                  | TxFeeBump _ _ => Err "Cannot fee-bump a fee-bump transaction"
                  end in
    Ok (TxFeeBump {| Xdr.fb_fee_source := fee_source_muxed; Xdr.fb_fee := max_fee;
                     Xdr.fb_inner := fst inner; Xdr.fb_inner_signatures := snd inner |} []).

Definition extract_operations (envelope : TransactionEnvelope) : list Xdr.Operation :=
  match envelope with
  | TxV0 tx _ => Xdr.v0_operations tx
  | Tx tx _ => Xdr.tx_operations tx
  | TxFeeBump tx _ => Xdr.tx_operations (Xdr.fb_inner tx)
  end.

Definition is_invoke_host_function (op : Xdr.Operation) : bool :=
  match Xdr.op_body op with Xdr.InvokeHostFunction _ _ => true | _ => false end.

Definition xdr_needs_simulation (envelope : TransactionEnvelope) : bool :=
  existsb is_invoke_host_function (extract_operations envelope).

Definition extract_soroban_resource_fee (envelope : TransactionEnvelope) : option Z :=
  let of_ext ext :=
    match ext with
    | Xdr.ExtV1 soroban_data =>
        let fee := Xdr.sd_resource_fee soroban_data in
        if 0 <? fee then Some fee else None
    | Xdr.ExtV0 => None
    end in
  match envelope with
  | TxV0 _ _ => None
  | Tx tx _ => of_ext (Xdr.tx_ext tx)
  | TxFeeBump tx _ => of_ext (Xdr.tx_ext (Xdr.fb_inner tx))
  end.

(** A [VecM<DecoratedSignature, 20>]. *)
Definition fits_signatures (signatures : list DecoratedSignature) : bool :=
  (length signatures <=? 20)%nat.

Definition attach_signatures_to_envelope (envelope : TransactionEnvelope)
    (signatures : list DecoratedSignature) : result string TransactionEnvelope :=
  if negb (fits_signatures signatures) then Err "Too many signatures (max 20)"
  else Ok match envelope with
          | TxV0 tx _ => TxV0 tx signatures
          | Tx tx _ => Tx tx signatures
          | TxFeeBump tx _ => TxFeeBump tx signatures
          end.

Definition set_v0_seq_num (seq : Z) (t : Xdr.TransactionV0) : Xdr.TransactionV0 :=
  {| Xdr.v0_source_account := Xdr.v0_source_account t; Xdr.v0_fee := Xdr.v0_fee t;
     Xdr.v0_seq_num := seq; Xdr.v0_time_bounds := Xdr.v0_time_bounds t;
     Xdr.v0_memo := Xdr.v0_memo t; Xdr.v0_operations := Xdr.v0_operations t |}.

Definition set_v0_fee (fee : Z) (t : Xdr.TransactionV0) : Xdr.TransactionV0 :=
  {| Xdr.v0_source_account := Xdr.v0_source_account t; Xdr.v0_fee := fee;
     Xdr.v0_seq_num := Xdr.v0_seq_num t; Xdr.v0_time_bounds := Xdr.v0_time_bounds t;
     Xdr.v0_memo := Xdr.v0_memo t; Xdr.v0_operations := Xdr.v0_operations t |}.

Definition update_xdr_sequence (envelope : TransactionEnvelope) (sequence : Z)
  : result string TransactionEnvelope :=
  match envelope with
  | TxV0 tx signatures => Ok (TxV0 (set_v0_seq_num sequence tx) signatures)
  | Tx tx signatures => Ok (Tx (Xdr.set_seq_num sequence tx) signatures)
  | TxFeeBump _ _ => Err "Cannot set sequence number on fee-bump transaction"
  end.

Definition update_xdr_fee (envelope : TransactionEnvelope) (fee : Z)
  : result string TransactionEnvelope :=
  match envelope with
  | TxV0 tx signatures => Ok (TxV0 (set_v0_fee fee tx) signatures)
  | Tx tx signatures => Ok (Tx (Xdr.set_fee fee tx) signatures)
  | TxFeeBump _ _ => Err "Cannot set fee on fee-bump transaction - use max_fee instead"
  end.

(** ** Assets ([models/transaction/stellar/asset.rs], [utils.rs]) *)

Definition pad_code (n : nat) (code : string) : list Byte.byte :=
  let b := String.list_byte_of_string code in b ++ replicate (n - length b) Byte.x00.

Definition asset_try_from (a : AssetSpec) : result string Xdr.Asset :=
  let issuer_key issuer :=
    result_map_err (fun e => conversion_error ("Invalid issuer: " +:+ e))
      (public_key_from_string issuer) in
  match a with
  | AssetNative => Ok Xdr.Native
  | AssetCredit4 code issuer =>
      let n := String.length code in
      if negb ((1 <=? n)%nat && (n <=? 4)%nat) then Err (conversion_error "asset code 1-4 chars")
      else let? key := issuer_key issuer in Ok (Xdr.CreditAlphanum4 (pad_code 4 code) key)
  | AssetCredit12 code issuer =>
      let n := String.length code in
      if negb ((5 <=? n)%nat && (n <=? 12)%nat) then Err (conversion_error "asset code 5-12 chars")
      else let? key := issuer_key issuer in Ok (Xdr.CreditAlphanum12 (pad_code 12 code) key)
  end.

(** The bytes before the first zero. *)
Fixpoint trim_code (l : list Byte.byte) : list Byte.byte :=
  match l with
  | [] => []
  | b :: l' => if Byte.eqb b Byte.x00 then [] else b :: trim_code l'
  end.

Definition credit_to_asset_id (code_bytes issuer : list Byte.byte) : result string string :=
  let? code := result_map_err
    (fun e => "Invalid asset identifier format: Invalid asset code: " +:+ e)
    (from_utf8 (trim_code code_bytes)) in
  Ok (code +:+ ":" +:+ strkey_public_key issuer).

Definition asset_to_asset_id (asset : Xdr.Asset) : result string string :=
  match asset with
  | Xdr.Native => Ok "native"
  | Xdr.CreditAlphanum4 code issuer => credit_to_asset_id code issuer
  | Xdr.CreditAlphanum12 code issuer => credit_to_asset_id code issuer
  end.

Definition change_trust_asset_to_asset_id (line : Xdr.ChangeTrustAsset)
  : result string (option string) :=
  match line with
  | Xdr.CtNative | Xdr.CtPoolShare _ => Ok None
  | Xdr.CtCreditAlphanum4 code issuer =>
      let? id := asset_to_asset_id (Xdr.CreditAlphanum4 code issuer) in Ok (Some id)
  | Xdr.CtCreditAlphanum12 code issuer =>
      let? id := asset_to_asset_id (Xdr.CreditAlphanum12 code issuer) in Ok (Some id)
  end.

(** ** Helpers ([utils.rs]) *)

Definition needs_simulation (operations : list OperationSpec) : bool :=
  existsb (fun op => match op with
                     | Payment _ _ _ => false
                     | InvokeContract _ _ _ _ | CreateContract _ _ _ _ _ | UploadWasm _ _ => true
                     end) operations.

Definition is_bad_sequence_error (error_msg : string) : bool :=
  str_contains (to_lowercase error_msg) "txbadseq".

Definition decode_transaction_result_code (xdr_base64 : string) : option string :=
  result_name_from_xdr xdr_base64.

Definition is_insufficient_fee_error (result_code : string) : bool :=
  eq_ignore_ascii_case result_code "TxInsufficientFee"
  || eq_ignore_ascii_case result_code "tx_insufficient_fee".

Definition update_envelope_sequence (envelope : TransactionEnvelope) (sequence : Z)
  : result string TransactionEnvelope :=
  match envelope with
  | Tx tx signatures => Ok (Tx (Xdr.set_seq_num sequence tx) signatures)
  | TxV0 _ _ => Err "V0 transactions are not supported"
  | TxFeeBump _ _ => Err "Cannot update sequence number on fee bump transaction"
  end.

Definition envelope_fee_in_stroops (envelope : TransactionEnvelope) : result string Z :=
  match envelope with
  | Tx tx _ => Ok (Xdr.tx_fee tx)
  | _ => Err "Invalid transaction format: Expected V1 transaction envelope"
  end.

Definition cond_time_bounds (cond : Xdr.Preconditions) : option Xdr.TimeBounds :=
  match cond with
  | Xdr.PreTime tb => Some tb
  | Xdr.PreV2 tb _ => tb
  | Xdr.PreNone => None
  end.

Definition extract_time_bounds (envelope : TransactionEnvelope) : option Xdr.TimeBounds :=
  match envelope with
  | TxV0 tx _ => Xdr.v0_time_bounds tx
  | Tx tx _ => cond_time_bounds (Xdr.tx_cond tx)
  | TxFeeBump tx _ => cond_time_bounds (Xdr.tx_cond (Xdr.fb_inner tx))
  end.

(** ** Transactions from operations ([conversion.rs], [memo.rs]) *)

Definition memo_try_from (m : MemoSpec) : result string Xdr.Memo :=
  match m with
  | MemoNone => Ok Xdr.NoMemo
  | MemoText value =>
      match memo_text_error value with
      | Some e => Err (conversion_error ("Invalid memo text: " +:+ e))
      | None => Ok (Xdr.Text value)
      end
  | MemoId value => Ok (Xdr.Id value)
  | MemoHash value => Ok (Xdr.Hash value)
  | MemoReturn value => Ok (Xdr.Return value)
  end.

Definition valid_until_to_time_bounds `{Chrono} (valid_until : option string)
  : option Xdr.TimeBounds :=
  match valid_until with
  | None => None
  | Some expiry =>
      match parse_u64 expiry with
      | Some expiry_time => Some {| Xdr.min_time := 0; Xdr.max_time := expiry_time |}
      | None =>
          match parse_rfc3339 expiry with
          | Some dt => Some {| Xdr.min_time := 0; Xdr.max_time := wrapu 64 (dt / 10 ^ 9) |}
          | None => None
          end
      end
  end.

(** Collecting into a [Result]: the first error, if any. *)
Fixpoint operations_try_from (ops : list OperationSpec) : result string (list Xdr.Operation) :=
  match ops with
  | [] => Ok []
  | op :: ops' =>
      let? x := operation_try_from op in
      let? xs := operations_try_from ops' in
      Ok (x :: xs)
  end.

Definition transaction_try_from `{Chrono} (data : StellarTransactionData)
  : result string Xdr.Transaction :=
  match st_transaction_input data with
  | Operations ops =>
      let? operations := operations_try_from ops in
      if (100 <? length operations)%nat then Err (conversion_error "op count > 100")
      else
        let cond := match valid_until_to_time_bounds (st_valid_until data) with
                    | None => Xdr.PreNone
                    | Some tb => Xdr.PreTime tb
                    end in
        let? memo := match st_memo data with
                     | Some memo_spec => memo_try_from memo_spec
                     | None => Ok Xdr.NoMemo
                     end in
        let fee := default STELLAR_DEFAULT_TRANSACTION_FEE (st_fee data) in
        let sequence := default 0 (st_sequence_number data) in
        let? source_account := result_map_err
          (fun e => conversion_error ("Invalid source account: " +:+ e))
          (string_to_muxed_account (st_source_account data)) in
        let ext := match st_simulation_transaction_data data with
                   | Some xdr_data =>
                       match soroban_data_from_xdr xdr_data with
                       | Ok tx_data => Xdr.ExtV1 tx_data
                       | Err _ => Xdr.ExtV0
                       end
                   | None => Xdr.ExtV0
                   end in
        Ok {| Xdr.tx_source_account := source_account; Xdr.tx_fee := fee;
              Xdr.tx_seq_num := sequence; Xdr.tx_cond := cond; Xdr.tx_memo := memo;
              Xdr.tx_operations := operations; Xdr.tx_ext := ext |}
  | UnsignedXdr _ | SignedXdr _ _ | SorobanGasAbstraction _ _ =>
      Err (conversion_error
        "XDR inputs should not be converted to Transaction - use envelope directly")
  end.

(** ** Builders of the stored data ([models/transaction/repository.rs]) *)

Definition with_sequence_number (sequence_number : Z) (d : StellarTransactionData)
  : StellarTransactionData :=
  let 'Build_StellarTransactionData a b _ e f g h i j k l m := d in
  Build_StellarTransactionData a b (Some sequence_number) e f g h i j k l m.

Definition with_fee (fee : Z) (d : StellarTransactionData) : StellarTransactionData :=
  let 'Build_StellarTransactionData a _ c e f g h i j k l m := d in
  Build_StellarTransactionData a (Some fee) c e f g h i j k l m.

Definition with_hash (hash : string) (d : StellarTransactionData) : StellarTransactionData :=
  let 'Build_StellarTransactionData a b c e f g h _ j k l m := d in
  Build_StellarTransactionData a b c e f g h (Some hash) j k l m.

Definition with_transaction_result_xdr (xdr : string) (d : StellarTransactionData)
  : StellarTransactionData :=
  let 'Build_StellarTransactionData a b c e f g h i j k l _ := d in
  Build_StellarTransactionData a b c e f g h i j k l (Some xdr).

Definition attach_signature (sig : DecoratedSignature) (d : StellarTransactionData)
  : StellarTransactionData :=
  let 'Build_StellarTransactionData a b c e f g h i j k l m := d in
  Build_StellarTransactionData a b c e f g (h ++ [sig]) i j k l m.

Definition set_signed_envelope_xdr (xdr : string) (d : StellarTransactionData)
  : StellarTransactionData :=
  let 'Build_StellarTransactionData a b c e f g h i j k _ m := d in
  Build_StellarTransactionData a b c e f g h i j k (Some xdr) m.

Definition set_transaction_input (input : TransactionInput) (d : StellarTransactionData)
  : StellarTransactionData :=
  let 'Build_StellarTransactionData a b c e f g h i j _ l m := d in
  Build_StellarTransactionData a b c e f g h i j input l m.

Definition set_simulation_transaction_data (data : string) (d : StellarTransactionData)
  : StellarTransactionData :=
  let 'Build_StellarTransactionData a b c e f g h i _ k l m := d in
  Build_StellarTransactionData a b c e f g h i (Some data) k l m.

(** What the code reads of a simulation: an error, the data and the fee of the resources, and
    the authorization entries of the results that can be decoded. *)
Record SimulateTransactionResponse := {
  sim_error : option string;
  sim_transaction_data : string;
  sim_min_resource_fee : Z;
  sim_results_auth : result string (list (list Xdr.AuthorizationEntry));
}.

Definition with_simulation_data (sim_response : SimulateTransactionResponse)
    (operations_count : Z) (d : StellarTransactionData) : result string StellarTransactionData :=
  let inclusion_fee := wrapu 64 (operations_count * STELLAR_DEFAULT_TRANSACTION_FEE) in
  let resource_fee := sim_min_resource_fee sim_response in
  let? fee := ok_or (checked u32_max (wrapu 64 (inclusion_fee + resource_fee)))
                (conversion_error "Fee too high") in
  let updated_fee := Z.max fee STELLAR_DEFAULT_TRANSACTION_FEE in
  Ok (set_simulation_transaction_data (sim_transaction_data sim_response)
        (with_fee updated_fee d)).

Definition parse_xdr_envelope (xdr : string) : result string TransactionEnvelope :=
  result_map_err (fun e => conversion_error ("Invalid XDR: " +:+ e)) (envelope_from_xdr xdr).

Definition data_attach_signatures (d : StellarTransactionData) (envelope : TransactionEnvelope)
  : result string TransactionEnvelope :=
  let? envelope_xdr := result_map_err
    (fun e => conversion_error ("Failed to serialize envelope: " +:+ e))
    (envelope_to_xdr envelope) in
  let? envelope := result_map_err
    (fun e => conversion_error ("Failed to parse envelope: " +:+ e))
    (envelope_from_xdr envelope_xdr) in
  if negb (fits_signatures (st_signatures d)) then Err (conversion_error "too many signatures")
  else match envelope with
       | Tx v1 _ => Ok (Tx v1 (st_signatures d))
       | TxV0 v0 _ => Ok (TxV0 v0 (st_signatures d))
       | TxFeeBump _ _ =>
           Err (conversion_error "Cannot attach signatures to fee-bump transaction directly")
       end.

Definition build_unsigned_envelope `{Chrono} (d : StellarTransactionData)
  : result string TransactionEnvelope :=
  match st_transaction_input d with
  | Operations _ => let? tx := transaction_try_from d in Ok (Tx tx [])
  | UnsignedXdr xdr => parse_xdr_envelope xdr
  | SignedXdr xdr _ => parse_xdr_envelope xdr
  | SorobanGasAbstraction xdr _ => parse_xdr_envelope xdr
  end.

Definition get_envelope_for_simulation `{Chrono} (d : StellarTransactionData)
  : result string TransactionEnvelope := build_unsigned_envelope d.

Definition build_signed_envelope `{Chrono} (d : StellarTransactionData)
  : result string TransactionEnvelope :=
  match st_signed_envelope_xdr d with
  | Some xdr => parse_xdr_envelope xdr
  | None =>
      match st_transaction_input d with
      | Operations _ =>
          let? tx := transaction_try_from d in
          if negb (fits_signatures (st_signatures d))
          then Err (conversion_error "too many signatures")
          else Ok (Tx tx (st_signatures d))
      | UnsignedXdr xdr =>
          let? envelope := parse_xdr_envelope xdr in data_attach_signatures d envelope
      | SignedXdr xdr _ => parse_xdr_envelope xdr
      | SorobanGasAbstraction xdr _ =>
          let? envelope := parse_xdr_envelope xdr in data_attach_signatures d envelope
      end
  end.

Definition get_envelope_for_submission `{Chrono} (d : StellarTransactionData)
  : result string TransactionEnvelope := build_signed_envelope d.

Definition create_signing_data (source_account envelope_xdr network_passphrase : string)
  : StellarTransactionData :=
  {| st_source_account := source_account; st_fee := None; st_sequence_number := None;
     st_memo := None; st_valid_until := None; st_network_passphrase := network_passphrase;
     st_signatures := []; st_hash := None; st_simulation_transaction_data := None;
     st_transaction_input := UnsignedXdr envelope_xdr; st_signed_envelope_xdr := None;
     st_transaction_result_xdr := None |}.

(** ** Fees ([prepare/common.rs]) *)

Definition extract_inner_transaction_fee (inner_envelope : TransactionEnvelope) : Z :=
  match inner_envelope with
  | TxV0 tx _ => Xdr.v0_fee tx
  | Tx tx _ => Xdr.tx_fee tx
  | TxFeeBump tx _ => Xdr.tx_fee (Xdr.fb_inner tx)
  end.

(** [i64] division truncates. *)
Definition ceil_div (value divisor : Z) : Z := Z.quot (wrapi 64 (value + divisor - 1)) divisor.

Definition sat_sub_i64 (x y : Z) : Z := Z.max (- 2 ^ 63) (Z.min i64_max (x - y)).

Definition checked_i64 (x : Z) : option Z :=
  if (- 2 ^ 63 <=? x) && (x <=? i64_max) then Some x else None.

Definition calculate_fee_bump_fee (inner_tx_fee resource_fee inner_num_ops fee_bump_num_ops : Z)
  : result TransactionError.t Z :=
  if (inner_num_ops <=? 0) || (fee_bump_num_ops <=? 0) then
    Err (TransactionError.ValidationError
      ("Invalid operation counts: inner_num_ops=" +:+ print_signed inner_num_ops +:+
       ", fee_bump_num_ops=" +:+ print_signed fee_bump_num_ops))
  else if (inner_tx_fee <? 0) || (resource_fee <? 0) then
    Err (TransactionError.ValidationError
      ("Invalid fee inputs: inner_tx_fee=" +:+ print_signed inner_tx_fee +:+
       ", resource_fee=" +:+ print_signed resource_fee))
  else
    let inner_inclusion_total := sat_sub_i64 inner_tx_fee resource_fee in
    let inner_fee_rate :=
      Z.max (ceil_div inner_inclusion_total inner_num_ops) STELLAR_DEFAULT_TRANSACTION_FEE in
    let? base := ok_or (checked_i64 (inner_fee_rate * fee_bump_num_ops))
      (TransactionError.ValidationError
         ("Fee overflow computing fee-bump base fee for " +:+ print_signed inner_fee_rate +:+
          " * " +:+ print_signed fee_bump_num_ops)) in
    ok_or (checked_i64 (base + resource_fee))
      (TransactionError.ValidationError
         ("Fee overflow adding resource fee (" +:+ print_signed resource_fee +:+
          ") to fee-bump fee")).

Definition validated_max_fee_as_u32 (max_fee required_fee : Z) : result TransactionError.t Z :=
  if max_fee <? required_fee then
    Err (TransactionError.ValidationError
      ("max_fee (" +:+ print_signed max_fee +:+ ") is insufficient. Required fee-bump fee: " +:+
       print_signed required_fee))
  else if (0 <=? max_fee) && (max_fee <=? u32_max) then Ok max_fee
  else Err (TransactionError.ValidationError
    ("Fee conversion overflow: max_fee (" +:+ print_signed max_fee +:+ ") exceeds u32::MAX")).

Definition ensure_minimum_fee (envelope : TransactionEnvelope)
  : result TransactionError.t TransactionEnvelope :=
  let? current := match envelope with
                  | TxV0 tx _ => Ok (Xdr.v0_fee tx, length (Xdr.v0_operations tx))
                  | Tx tx _ => Ok (Xdr.tx_fee tx, length (Xdr.tx_operations tx))
                  | TxFeeBump _ _ => Err (TransactionError.ValidationError
                      "Unexpected envelope type for fee validation")
                  end in
  let min_fee := wrapu 32 (STELLAR_DEFAULT_TRANSACTION_FEE * Z.of_nat (snd current)) in
  if fst current <? min_fee then
    result_map_err (fun e => TransactionError.ValidationError ("Failed to update fee: " +:+ e))
      (update_xdr_fee envelope min_fee)
  else Ok envelope.

(** ** The resubmission ladder ([utils.rs])

    A floating-point number is a pair [(n, e)] for [n / 2 ^ e].  Products are exact here; with
    the growth factor 3/2 the code's are too, up to intervals and tiers far beyond the lifetime
    of a transaction. *)

Definition dyadic : Type := Z * Z.
Definition dy_int (n : Z) : dyadic := (n, 0).
Definition dy_mul (a b : dyadic) : dyadic := (fst a * fst b, snd a + snd b).
Definition dy_le (a b : dyadic) : bool := fst a * 2 ^ snd b <=? fst b * 2 ^ snd a.
Definition dy_min (a b : dyadic) : dyadic := if dy_le a b then a else b.
Definition dy_floor (a : dyadic) : Z := fst a / 2 ^ snd a.

Definition STELLAR_RESUBMIT_GROWTH_FACTOR : dyadic := (3, 1).

Fixpoint tier_loop (fuel : nat) (age_secs max_interval_secs : Z) (growth_factor : dyadic)
    (interval tier_end : dyadic) : option dyadic :=
  if dy_le tier_end (dy_int age_secs) then
    match fuel with
    | O => None
    | S fuel' =>
        tier_loop fuel' age_secs max_interval_secs growth_factor
          (dy_min (dy_mul interval growth_factor) (dy_int max_interval_secs))
          (dy_mul tier_end growth_factor)
    end
  else Some interval.

(** Every round multiplies the tier by at least [1 + 1 / 2 ^ e]. *)
Definition tier_fuel (age_secs : Z) (growth_factor : dyadic) : nat :=
  Z.to_nat (age_secs * 2 ^ snd growth_factor).

(** Durations are in nanoseconds; [num_seconds] truncates. *)
Definition compute_resubmit_backoff_interval (total_age base_interval_secs max_interval_secs : Z)
    (growth_factor : dyadic) : option Z :=
  let age_secs := Z.quot total_age (10 ^ 9) in
  if (age_secs <? base_interval_secs) || (base_interval_secs <=? 0) || (max_interval_secs <=? 0)
  then None
  else if dy_le growth_factor (dy_int 1)
  then Some (Z.min base_interval_secs max_interval_secs * 10 ^ 9)
  else
    let interval := dy_int base_interval_secs in
    let tier_end := dy_mul (dy_int base_interval_secs) growth_factor in
    match tier_loop (tier_fuel age_secs growth_factor) age_secs max_interval_secs growth_factor
            interval tier_end with
    | Some interval => Some (Z.min (dy_floor interval) max_interval_secs * 10 ^ 9)
    | None => None
    end.

(** ** On-chain results ([status.rs], [utils.rs]) *)

(** A result and its name; only the results of these operations are looked into. *)
Inductive OperationResultTr : Type :=
| RInvokeHostFunction (name : string)
| RExtendFootprintTtl (name : string)
| RRestoreFootprint (name : string)
| ROtherTr (name : string).

Inductive OperationResult : Type :=
| OpInner (tr : OperationResultTr)
| OpOther (name : string).

Inductive InnerResult : Type :=
| InnerTxFailed (ops : list OperationResult)
| InnerOther (name : string).

Inductive TransactionResultResult : Type :=
| TxFeeBumpInnerFailed (inner : InnerResult)
| TxFailed (ops : list OperationResult)
| TxOther (name : string).

Definition result_name (r : TransactionResultResult) : string :=
  match r with
  | TxFeeBumpInnerFailed _ => "TxFeeBumpInnerFailed"
  | TxFailed _ => "TxFailed"
  | TxOther name => name
  end.

Definition inner_name (r : InnerResult) : string :=
  match r with InnerTxFailed _ => "TxFailed" | InnerOther name => name end.

Inductive TransactionMeta : Type :=
| MetaV3 (return_value : option Xdr.ScVal)
| MetaV4 (soroban_meta : option (option Xdr.ScVal))
| MetaOther.

Definition extract_return_value_from_meta (result_meta : TransactionMeta) : option Xdr.ScVal :=
  match result_meta with
  | MetaV3 soroban_meta => soroban_meta
  | MetaV4 soroban_meta => match soroban_meta with Some v => v | None => None end
  | MetaOther => None
  end.

Record GetTransactionResponse := {
  gt_status : string;
  gt_result : option (Z * TransactionResultResult);
  gt_result_meta : option TransactionMeta;
  (** The diagnostic events: topics and data. *)
  gt_diagnostic_events : list (list Xdr.ScVal * Xdr.ScVal);
}.

Definition op_failed (op : OperationResult) : bool :=
  match op with
  | OpInner tr =>
      match tr with
      | RInvokeHostFunction name => negb (String.eqb name "Success")
      | RExtendFootprintTtl name => negb (String.eqb name "Success")
      | RRestoreFootprint name => negb (String.eqb name "Success")
      | ROtherTr _ => false
      end
  | OpOther _ => true
  end.

Definition op_name (op : OperationResult) : string :=
  match op with
  | OpInner (RInvokeHostFunction name | RExtendFootprintTtl name | RRestoreFootprint name
            | ROtherTr name) => name
  | OpOther name => name
  end.

Definition first_failing_op (ops : list OperationResult) : option string :=
  op_name <$> List.find op_failed ops.

Definition QUOTE : string := String (Ascii.ascii_of_nat 34) EmptyString.

(** Control characters are dropped (C0, DEL, and C1 in two bytes), quotes escaped. *)
Fixpoint sanitize_bytes (l : list Byte.byte) : list Byte.byte :=
  match l with
  | [] => []
  | b :: l1 =>
      if byte_in 0 0x1F b || byte_in 0x7F 0x7F b then sanitize_bytes l1
      else match l1 with
      | c :: l2 =>
          if byte_in 0xC2 0xC2 b && byte_in 0x80 0x9F c then sanitize_bytes l2
          else if byte_in 34 34 b then Byte.x5c :: b :: sanitize_bytes l1
          else b :: sanitize_bytes l1
      | [] => if byte_in 34 34 b then [Byte.x5c; b] else [b]
      end
  end.

Definition sanitize_message (s : string) : string :=
  String.string_of_list_byte (sanitize_bytes (String.list_byte_of_string s)).

Definition sc_error_name (e : Xdr.ScError) : string :=
  match e with
  | Xdr.ScContract _ => "Contract"
  | Xdr.ScCoded kind _ =>
      match kind with
      | Xdr.WasmVm => "WasmVm" | Xdr.Context_ => "Context" | Xdr.Storage => "Storage"
      | Xdr.Object => "Object" | Xdr.Crypto => "Crypto" | Xdr.Events => "Events"
      | Xdr.Budget => "Budget" | Xdr.Value => "Value" | Xdr.Auth => "Auth"
      end
  end.

Definition found : Type := option string * option string.

(** The two [&mut Option<String>] are threaded as a pair: the error and the message. *)
Fixpoint scan_scval (v : Xdr.ScVal) (acc : found) : found :=
  match v with
  | Xdr.VError e =>
      match fst acc with
      | None =>
          let payload := match e with Xdr.ScContract n => print_dec n | Xdr.ScCoded _ c => c end in
          (Some (sc_error_name e +:+ "(" +:+ payload +:+ ")"), snd acc)
      | Some _ => acc
      end
  | Xdr.VString bytes =>
      match snd acc, from_utf8 bytes with
      | None, Ok text => if String.eqb text "" then acc else (fst acc, Some text)
      | _, _ => acc
      end
  | Xdr.VSymbol bytes =>
      match snd acc, from_utf8 bytes with
      | None, Ok text =>
          if String.eqb text "" || String.eqb text "error" then acc else (fst acc, Some text)
      | _, _ => acc
      end
  | Xdr.VVec (Some items) =>
      (fix go (items : list Xdr.ScVal) (acc : found) : found :=
         match items with
         | [] => acc
         | inner :: items' =>
             match scan_scval inner acc with
             | (Some e, Some m) => (Some e, Some m)
             | acc' => go items' acc'
             end
         end) items acc
  | _ => acc
  end.

(** The loop over the topics and the data of one event. *)
Fixpoint scan_event (vals : list Xdr.ScVal) (acc : found) : found :=
  match vals with
  | [] => acc
  | v :: vals' =>
      match scan_scval v acc with
      | (Some e, Some m) => (Some e, Some m)
      | acc' => scan_event vals' acc'
      end
  end.

Fixpoint extract_contract_error (events : list (list Xdr.ScVal * Xdr.ScVal)) : option string :=
  match events with
  | [] => None
  | (topics, data) :: events' =>
      match scan_event (topics ++ [data]) (None, None) with
      | (Some err, Some m) =>
          Some (err +:+ " message=" +:+ QUOTE +:+ sanitize_message m +:+ QUOTE)
      | (Some err, None) => Some err
      | (None, _) => extract_contract_error events'
      end
  end.

Definition format_failure_reason (outer : string) (inner op contract_error : option string)
  : string :=
  let add label o := match o with Some x => label +:+ x | None => EmptyString end in
  "Transaction failed on-chain. reason=" +:+ outer +:+ add " inner=" inner +:+ add " op=" op +:+
  add " contract_error=" contract_error.

(** The reason [handle_stellar_failed] writes. *)
Definition failure_reason (response : GetTransactionResponse) : string :=
  let result := snd <$> gt_result response in
  let result_code := match result with Some r => result_name r | None => "unknown" end in
  let '(inner_result_code, op_result_code) :=
    match result with
    | Some (TxFeeBumpInnerFailed inner) =>
        (Some (inner_name inner),
         match inner with InnerTxFailed ops => first_failing_op ops | InnerOther _ => None end)
    | Some (TxFailed ops) => (None, first_failing_op ops)
    | _ => (None, None)
    end in
  format_failure_reason result_code inner_result_code op_result_code
    (extract_contract_error (gt_diagnostic_events response)).
End WithSdk.
