(* ===== verification/SolanaSdk.v ===== *)
(** * Solana transactions and the libraries that read them

    The legacy transaction of [solana_sdk] as the relayer reads it, the interface [SolanaSdk]
    of the library functions it calls (codecs, parsers, the message compiler and the two token
    programs), and the repository's own wrappers around them: the base64 encoding of
    [models/rpc/solana/mod.rs] and the token program helpers of [domain/relayer/solana/token.rs].

    Public keys, hashes and signatures are kept in their printed base58 form, which is unique;
    [Pubkey::from_str] and [Signature::from_str] then only check the text. *)

From S2P Require Import Prelude Decimal Errors Model.
Open Scope Z_scope.

(** ** The legacy transaction *)

Definition Pubkey : Type := string.
Definition Hash : Type := string.
Definition Signature : Type := string.

(** [CompiledInstruction]: [u8] indices into the account keys of the message. *)
Record CompiledInstruction := {
  ci_program_id_index : Z;
  ci_accounts : list Z;
  ci_data : list Byte.byte;
}.

Record MessageHeader := {
  mh_num_required_signatures : Z;
  mh_num_readonly_signed_accounts : Z;
  mh_num_readonly_unsigned_accounts : Z;
}.

Record Message := {
  msg_header : MessageHeader;
  msg_account_keys : list Pubkey;
  msg_recent_blockhash : Hash;
  msg_instructions : list CompiledInstruction;
}.

Record SolanaTransaction := {
  stx_signatures : list Signature;
  stx_message : Message;
}.

(** [Instruction] and [AccountMeta] before they are compiled into a message. *)
Record AccountMeta := {
  am_pubkey : Pubkey;
  am_is_signer : bool;
  am_is_writable : bool;
}.

Record Instruction := {
  ins_program_id : Pubkey;
  ins_accounts : list AccountMeta;
  ins_data : list Byte.byte;
}.

(** The account of a token program after unpacking, and its instructions: the fields and
    variants the relayer distinguishes. *)
Record TokenAccount := {
  ta_mint : Pubkey;
  ta_owner : Pubkey;
  ta_amount : Z;
  ta_is_frozen : bool;
}.

Inductive TokenInstruction : Type :=
| Transfer (amount : Z)
| TransferChecked (amount decimals : Z)
| OtherInstruction.

(** One token program: its id, and how it unpacks instructions and accounts. *)
Record TokenProgram := {
  tp_id : Pubkey;
  tp_unpack_instruction : list Byte.byte -> result string TokenInstruction;
  tp_unpack_account : list Byte.byte -> result string TokenAccount;
}.

(** ** The libraries *)

Class SolanaSdk := {
  (** The message of the parse error, if the text is not a public key or a signature. *)
  pubkey_parse_error : string -> option string;
  signature_parse_error : string -> option string;
  (** [Pubkey::default()] *)
  default_pubkey : Pubkey;

  (** [bincode] on transactions, and the standard base64 engine. *)
  bincode_serialize : SolanaTransaction -> result string (list Byte.byte);
  bincode_deserialize : list Byte.byte -> result string SolanaTransaction;
  base64_encode : list Byte.byte -> string;
  base64_decode : string -> result string (list Byte.byte);

  (** [Transaction::message_data], [Transaction::new_with_payer] *)
  message_data : Message -> list Byte.byte;
  new_with_payer : list Instruction -> Pubkey -> SolanaTransaction;

  (** [Message::is_signer], [Message::is_maybe_writable] without reserved keys *)
  is_signer : Message -> nat -> bool;
  is_maybe_writable : Message -> nat -> bool;

  spl_token : TokenProgram;
  spl_token_2022 : TokenProgram;
}.

(** What their documentation says of the codecs: decoding is the inverse of encoding. *)
Class SolanaSdkLaws `{SolanaSdk} : Prop := {
  bincode_roundtrip t b : bincode_serialize t = Ok b -> bincode_deserialize b = Ok t;
  base64_roundtrip b : base64_decode (base64_encode b) = Ok b;
}.

(** ** Token program errors *)

Module TokenError.
Inductive t : Type :=
| InvalidTokenInstruction (msg : string)
| InvalidTokenMint (msg : string)
| InvalidTokenProgram (msg : string)
| InstructionError (msg : string)
| AccountError (msg : string).
End TokenError.

Definition token_error_display (e : TokenError.t) : string :=
  match e with
  | TokenError.InvalidTokenInstruction m => "Invalid token instruction: " +:+ m
  | TokenError.InvalidTokenMint m => "Invalid token mint: " +:+ m
  | TokenError.InvalidTokenProgram m => "Invalid token program: " +:+ m
  | TokenError.InstructionError m => "Instruction error: " +:+ m
  | TokenError.AccountError m => "Account error: " +:+ m
  end.

Section Sdk.
Context `{SolanaSdk}.

Definition pubkey_from_str (s : string) : result string Pubkey :=
  match pubkey_parse_error s with Some e => Err e | None => Ok s end.

Definition signature_from_str (s : string) : result string Signature :=
  match signature_parse_error s with Some e => Err e | None => Ok s end.

(** ** [EncodedSerializedTransaction] *)

(** [TryFrom<&Transaction>], with the display of its error. *)
Definition encode_transaction (transaction : SolanaTransaction) : result string string :=
  let? serialized := result_map_err (fun e => "Failed to serialize transaction: " +:+ e)
                       (bincode_serialize transaction) in
  Ok (base64_encode serialized).

(** [TryFrom<EncodedSerializedTransaction>] *)
Definition decode_transaction (encoded : string) : result string SolanaTransaction :=
  let? tx_bytes := result_map_err (fun e => "Failed to decode base64: " +:+ e)
                     (base64_decode encoded) in
  result_map_err (fun e => "Failed to deserialize transaction: " +:+ e)
    (bincode_deserialize tx_bytes).

Lemma transaction_roundtrip `{!SolanaSdkLaws} t s :
  encode_transaction t = Ok s -> decode_transaction s = Ok t.
Proof.
  unfold encode_transaction, decode_transaction.
  destruct (bincode_serialize t) as [b|] eqn:Hb; simpl; [|done]. intros [= <-].
  by rewrite base64_roundtrip; simpl; rewrite (bincode_roundtrip _ _ Hb).
Qed.

(** ** [SolanaTokenProgram] *)

Definition is_token_program (program_id : Pubkey) : bool :=
  String.eqb program_id (tp_id spl_token) || String.eqb program_id (tp_id spl_token_2022).

Definition unpack_account (program_id : Pubkey) (data : list Byte.byte)
  : result TokenError.t TokenAccount :=
  if negb (is_token_program program_id) then
    Err (TokenError.InvalidTokenProgram ("Unknown token program: " +:+ program_id))
  else if String.eqb program_id (tp_id spl_token) then
    result_map_err (fun e => TokenError.AccountError ("Invalid token account1: " +:+ e))
      (tp_unpack_account spl_token data)
  else if String.eqb program_id (tp_id spl_token_2022) then
    result_map_err (fun e => TokenError.AccountError ("Invalid token account2: " +:+ e))
      (tp_unpack_account spl_token_2022 data)
  else Err (TokenError.InvalidTokenProgram ("Unknown token program: " +:+ program_id)).

Definition unpack_instruction (program_id : Pubkey) (data : list Byte.byte)
  : result TokenError.t TokenInstruction :=
  if negb (is_token_program program_id) then
    Err (TokenError.InvalidTokenProgram ("Unknown token program: " +:+ program_id))
  else if String.eqb program_id (tp_id spl_token) then
    result_map_err TokenError.InvalidTokenInstruction (tp_unpack_instruction spl_token data)
  else if String.eqb program_id (tp_id spl_token_2022) then
    result_map_err TokenError.InvalidTokenInstruction (tp_unpack_instruction spl_token_2022 data)
  else Err (TokenError.InvalidTokenProgram ("Unknown token program: " +:+ program_id)).
End Sdk.
