(* ===== verification/Repository.v ===== *)
(** * The transaction repository

    [TransactionRepository] is what the rest of the service relies on: the operations of the
    trait of [repositories/transaction/mod.rs] it calls, with laws about an abstract view of
    the stored transactions.  [InMemory] is the implementation of
    [repositories/transaction/transaction_in_memory.rs], operation by operation; its instance
    at the end discharges the laws. *)

From S2P Require Import Prelude Errors Model.
Open Scope Z_scope.

(** ** Pagination ([models/pagination.rs], [repositories/mod.rs]) *)

Record PaginationQuery := {
  page : Z;
  per_page : Z;
}.

Record PaginatedResult (A : Type) := {
  pr_items : list A;
  pr_total : Z;
  pr_page : Z;
  pr_per_page : Z;
}.
Arguments pr_items {A} _.
Arguments pr_total {A} _.
Arguments pr_page {A} _.
Arguments pr_per_page {A} _.
Arguments Build_PaginatedResult {A} _ _ _ _.

(** [items.skip(start).take(per_page)] *)
Definition page_slice {A} (start per_page : Z) (l : list A) : list A :=
  take (Z.to_nat per_page) (drop (Z.to_nat start) l).

Record IdempotencyRecord := {
  ir_fingerprint : string;
  ir_tx_id : string;
  ir_created_at : string;
}.

Record BatchDeleteResult := {
  deleted_count : Z;
  failed : list (string * string);
}.

Record TransactionDeleteRequest := {
  dr_id : string;
  dr_relayer_id : string;
  dr_nonce : option Z;
}.

Definition not_found {A} (id : string) : result RepositoryError.t A :=
  Err (RepositoryError.NotFound ("Transaction with ID " +:+ id +:+ " not found")).

(** ** The interface *)

(** What a partial update may do to the stored transaction: apply the update, or refuse a
    status change of an already finalized transaction and leave it as it is. *)
Definition upd_result `{Chrono} `{ServerConfig} (now : Z) (u : TransactionUpdateRequest)
    (t t' : TransactionRepoModel) : Prop :=
  t' = apply_partial_update now u t \/
  (is_final_state (tx_status t) = true /\ is_Some (upd_status u) /\ t' = t).

(** [nonces_upto from to]: the loop range [from..to]. *)
Definition nonce_range (from to : Z) : list Z :=
  (fun i => from + Z.of_nat i) <$> seq 0 (Z.to_nat (to - from)).

(** The two failure counters of the status checks. *)
Definition failures_of (m : TransactionMetadata) : Z * Z :=
  (consecutive_failures m, total_failures m).

Class TransactionRepository `{Chrono} `{ServerConfig} (S : Type) := {
  repo_view : S -> gmap string TransactionRepoModel;

  repo_create : TransactionRepoModel -> M S RepositoryError.t TransactionRepoModel;
  repo_get_by_id : string -> M S RepositoryError.t TransactionRepoModel;
  repo_partial_update :
    Z -> string -> TransactionUpdateRequest -> M S RepositoryError.t TransactionRepoModel;
  repo_update_network_data :
    string -> NetworkTransactionData -> M S RepositoryError.t TransactionRepoModel;
  repo_find_by_nonce : string -> Z -> M S RepositoryError.t (option TransactionRepoModel);
  repo_get_nonce_occupancy :
    string -> Z -> Z -> M S RepositoryError.t (list (Z * option TransactionStatus));
  repo_find_by_status :
    string -> list TransactionStatus -> M S RepositoryError.t (list TransactionRepoModel);

  repo_increment_status_check_failures : string -> M S RepositoryError.t TransactionRepoModel;
  repo_reset_status_check_consecutive_failures :
    string -> M S RepositoryError.t TransactionRepoModel;

  (** A successful creation stores the model under a fresh id; a failed one may at most have
      stored it. *)
  repo_create_spec t s :
    wp (repo_create t) (fun r s' =>
      (repo_view s !! tx_id t = None /\ repo_view s' = <[tx_id t := t]> (repo_view s) /\
       (forall t', r = Ok t' -> t' = t)) \/
      (repo_view s' = repo_view s /\ exists e, r = Err e)) s;

  repo_get_by_id_spec id s :
    wp (repo_get_by_id id) (fun r s' =>
      repo_view s' = repo_view s /\ forall t, r = Ok t -> repo_view s !! id = Some t) s;

  (** A partial update changes the addressed transaction only, and only as the update says.
      A failed one may have been applied (the error is then in what follows the write). *)
  repo_partial_update_spec now id u s :
    wp (repo_partial_update now id u) (fun r s' =>
      (exists t t', repo_view s !! id = Some t /\ upd_result now u t t' /\
         repo_view s' = <[id := t']> (repo_view s) /\ (forall t'', r = Ok t'' -> t'' = t')) \/
      (repo_view s' = repo_view s /\ exists e, r = Err e)) s;

  repo_update_network_data_spec id nd s :
    wp (repo_update_network_data id nd) (fun r s' =>
      (exists t t', repo_view s !! id = Some t /\
         (tx_id t = id -> t' = set_tx_network_data nd t) /\
         repo_view s' = <[id := t']> (repo_view s) /\ (forall t'', r = Ok t'' -> t'' = t')) \/
      (repo_view s' = repo_view s /\ exists e, r = Err e)) s;

  (** What the nonce lookups answer is left to [NonceIndex]. *)
  repo_find_by_nonce_spec rid n s :
    wp (repo_find_by_nonce rid n) (fun _ s' => repo_view s' = repo_view s) s;

  repo_get_nonce_occupancy_spec rid from to s :
    wp (repo_get_nonce_occupancy rid from to) (fun _ s' => repo_view s' = repo_view s) s;

  repo_find_by_status_spec rid sts s :
    wp (repo_find_by_status rid sts) (fun r s' =>
      repo_view s' = repo_view s /\
      forall l t, r = Ok l -> t ∈ l ->
        (exists id, repo_view s !! id = Some t) /\ tx_relayer_id t = rid /\
        status_in (tx_status t) sts = true) s;

  (** The failure counters are part of the metadata; those of a finalized transaction are
      left alone. *)
  repo_increment_status_check_failures_spec id s :
    wp (repo_increment_status_check_failures id) (fun _ s' =>
      (exists t m, repo_view s !! id = Some t /\ is_final_state (tx_status t) = false /\
         failures_of m =
           (let m0 := default metadata_default (tx_metadata t) in
            (sat_add u32_max (consecutive_failures m0) 1, sat_add u32_max (total_failures m0) 1)) /\
         repo_view s' = <[id := set_tx_metadata (Some m) t]> (repo_view s)) \/
      repo_view s' = repo_view s) s;

  repo_reset_status_check_consecutive_failures_spec id s :
    wp (repo_reset_status_check_consecutive_failures id) (fun _ s' =>
      (exists t m, repo_view s !! id = Some t /\ is_final_state (tx_status t) = false /\
         failures_of m = (0, snd (failures_of (default metadata_default (tx_metadata t)))) /\
         repo_view s' = <[id := set_tx_metadata (Some m) t]> (repo_view s)) \/
      repo_view s' = repo_view s) s;
}.

(** The nonce lookups are exact: they find a transaction of the relayer with the nonce if there
    is one.  The in-memory repository scans its transactions and is exact; the Redis repository
    keeps a key per nonce, which the removal of another transaction with the same nonce deletes
    ([RedisCodec]), so it is exact only while no two transactions share a nonce
    ([RedisAnswers]).  Nothing but the theorems on nonce gaps relies on it. *)
Class NonceIndex `{Chrono} `{ServerConfig} (S : Type) `{!TransactionRepository S} : Prop := {
  find_by_nonce_exact rid n s :
    (forall t, fst (repo_find_by_nonce rid n s) = Ok (Some t) ->
       (exists id, repo_view s !! id = Some t) /\ tx_relayer_id t = rid /\
       tx_nonce t = Some n) /\
    (fst (repo_find_by_nonce rid n s) = Ok None ->
       forall id t, repo_view s !! id = Some t -> tx_relayer_id t = rid ->
       tx_nonce t <> Some n);

  nonce_occupancy_exact rid from to s l :
    fst (repo_get_nonce_occupancy rid from to s) = Ok l ->
    l.*1 = nonce_range from to /\
    forall n o, (n, o) ∈ l ->
      match o with
      | Some st => exists id t, repo_view s !! id = Some t /\ tx_relayer_id t = rid /\
                     tx_nonce t = Some n /\ tx_status t = st
      | None => forall id t, repo_view s !! id = Some t -> tx_relayer_id t = rid ->
                  tx_nonce t <> Some n
      end;
}.

(** ** The in-memory implementation *)

Module InMemory.

(** The two mutex-protected maps.  An [Instant] is a number of nanoseconds. *)
Record state := {
  store : gmap string TransactionRepoModel;
  idempotency : gmap string (IdempotencyRecord * Z);
}.

Definition set_store (m : gmap string TransactionRepoModel) (s : state) : state :=
  {| store := m; idempotency := idempotency s |}.

Definition set_idempotency (m : gmap string (IdempotencyRecord * Z)) (s : state) : state :=
  {| store := store s; idempotency := m |}.

(** [InMemoryTransactionRepository::new] *)
Definition new : state := {| store := ∅; idempotency := ∅ |}.

Definition Repo (A : Type) : Type := M state RepositoryError.t A.

Section Ops.
Context `{Chrono} `{ServerConfig} `{HashOrder TransactionRepoModel}.

Definition get_sort_key (tx : TransactionRepoModel) : string * bool :=
  if status_eqb (tx_status tx) Confirmed then
    match tx_confirmed_at tx with
    | Some confirmed_at => (confirmed_at, true)
    | None => (tx_created_at tx, false)
    end
  else (tx_created_at tx, false).

Definition compare_for_sort (a b : TransactionRepoModel) : comparison :=
  then_with (String.compare (fst (get_sort_key b)) (fst (get_sort_key a)))
            (String.compare (tx_id b) (tx_id a)).

(** The ascending comparison written inline in the paginated finders. *)
Definition compare_oldest_first (a b : TransactionRepoModel) : comparison :=
  then_with (String.compare (fst (get_sort_key a)) (fst (get_sort_key b)))
            (String.compare (tx_id a) (tx_id b)).

Definition create (tx : TransactionRepoModel) : Repo TransactionRepoModel := fun s =>
  match store s !! tx_id tx with
  | Some _ =>
      (Err (RepositoryError.ConstraintViolation
              ("Transaction with ID " +:+ tx_id tx +:+ " already exists")), s)
  | None => (Ok tx, set_store (<[tx_id tx := tx]> (store s)) s)
  end.

Definition get_by_id (id : string) : Repo TransactionRepoModel := fun s =>
  match store s !! id with
  | Some tx => (Ok tx, s)
  | None => (not_found id, s)
  end.

Definition update (id : string) (tx : TransactionRepoModel) : Repo TransactionRepoModel :=
  fun s =>
  match store s !! id with
  | Some _ => let updated_tx := set_tx_id id tx in
              (Ok updated_tx, set_store (<[id := updated_tx]> (store s)) s)
  | None => (not_found id, s)
  end.

Definition delete_by_id (id : string) : Repo unit := fun s =>
  match store s !! id with
  | Some _ => (Ok tt, set_store (delete id (store s)) s)
  | None => (not_found id, s)
  end.

Definition list_all : Repo (list TransactionRepoModel) := fun s =>
  (Ok (hash_values (store s)), s).

Definition count : Repo Z := fun s => (Ok (Z.of_nat (size (store s))), s).

Definition has_entries : Repo bool := fun s =>
  (Ok (negb (bool_decide (store s = ∅))), s).

Definition drop_all_entries : Repo unit := fun s => (Ok tt, set_store ∅ s).

(** [((query.page - 1) * query.per_page) as usize] on [u32]s: both operations wrap. *)
Definition start_of (q : PaginationQuery) : Z :=
  wrapu 32 (wrapu 32 (page q - 1) * per_page q).

(** [((query.page.saturating_sub(1)) * query.per_page) as usize] *)
Definition start_of_saturating (q : PaginationQuery) : Z :=
  wrapu 32 (sat_sub (page q) 1 * per_page q).

Definition list_paginated (q : PaginationQuery) : Repo (PaginatedResult TransactionRepoModel) :=
  let* total := count in
  fun s =>
  (Ok {| pr_items := page_slice (start_of q) (per_page q) (hash_values (store s));
         pr_total := total; pr_page := page q; pr_per_page := per_page q |}, s).

(** Newest first by creation time only. *)
Definition by_created_desc (a b : TransactionRepoModel) : comparison :=
  String.compare (tx_created_at b) (tx_created_at a).

Definition find_by_relayer_id (relayer_id : string) (q : PaginationQuery)
  : Repo (PaginatedResult TransactionRepoModel) := fun s =>
  let filtered :=
    List.filter (fun tx => String.eqb (tx_relayer_id tx) relayer_id) (hash_values (store s)) in
  let total := Z.of_nat (length filtered) in
  if total =? 0 then
    (Ok {| pr_items := []; pr_total := 0; pr_page := page q; pr_per_page := per_page q |}, s)
  else
    (Ok {| pr_items := page_slice (start_of q) (per_page q) (sorted_by by_created_desc filtered);
           pr_total := total; pr_page := page q; pr_per_page := per_page q |}, s).

Definition matches_status (relayer_id : string) (statuses : list TransactionStatus)
    (tx : TransactionRepoModel) : bool :=
  String.eqb (tx_relayer_id tx) relayer_id && status_in (tx_status tx) statuses.

Definition find_by_status (relayer_id : string) (statuses : list TransactionStatus)
  : Repo (list TransactionRepoModel) := fun s =>
  (Ok (sorted_by by_created_desc
         (List.filter (matches_status relayer_id statuses) (hash_values (store s)))), s).

(** The sort direction shared by the two paginated finders. *)
Definition status_order (oldest_first : bool)
  : TransactionRepoModel -> TransactionRepoModel -> comparison :=
  if oldest_first then compare_oldest_first else compare_for_sort.

Definition find_by_status_paginated (relayer_id : string) (statuses : list TransactionStatus)
    (q : PaginationQuery) (oldest_first : bool)
  : Repo (PaginatedResult TransactionRepoModel) := fun s =>
  let filtered := List.filter (matches_status relayer_id statuses) (hash_values (store s)) in
  (Ok {| pr_items := page_slice (start_of_saturating q) (per_page q)
                       (sorted_by (status_order oldest_first) filtered);
         pr_total := Z.of_nat (length filtered);
         pr_page := page q; pr_per_page := per_page q |}, s).

Definition find_by_status_paginated_filtered (relayer_id : string)
    (statuses : list TransactionStatus) (q : PaginationQuery)
    (oldest_first exclude_canceled : bool)
  : Repo (PaginatedResult TransactionRepoModel) :=
  if negb exclude_canceled then find_by_status_paginated relayer_id statuses q oldest_first
  else fun s =>
  let filtered :=
    List.filter (fun tx => matches_status relayer_id statuses tx &&
                           negb (bool_decide (tx_is_canceled tx = Some true)))
      (hash_values (store s)) in
  (Ok {| pr_items := page_slice (start_of_saturating q) (per_page q)
                       (sorted_by (status_order oldest_first) filtered);
         pr_total := Z.of_nat (length filtered);
         pr_page := page q; pr_per_page := per_page q |}, s).

Definition matches_nonce (relayer_id : string) (nonce : Z) (tx : TransactionRepoModel) : bool :=
  String.eqb (tx_relayer_id tx) relayer_id &&
  match tx_network_data tx with
  | EvmData data => bool_decide (evm_nonce data = Some nonce)
  | _ => false
  end.

Definition find_by_nonce (relayer_id : string) (nonce : Z)
  : Repo (option TransactionRepoModel) := fun s =>
  (Ok (head (List.filter (matches_nonce relayer_id nonce) (hash_values (store s)))), s).

Definition get_nonce_occupancy (relayer_id : string) (from_nonce to_nonce : Z)
  : Repo (list (Z * option TransactionStatus)) :=
  foldM (fun results nonce =>
           let* tx := find_by_nonce relayer_id nonce in
           retM (results ++ [(nonce, tx_status <$> tx)]))
        [] (nonce_range from_nonce to_nonce).

(** [now] is the clock read by [update_delete_at_if_final_status]. *)
Definition partial_update (now : Z) (id : string) (u : TransactionUpdateRequest)
  : Repo TransactionRepoModel := fun s =>
  match store s !! id with
  | Some tx => let tx' := apply_partial_update now u tx in
               (Ok tx', set_store (<[id := tx']> (store s)) s)
  | None => (not_found id, s)
  end.

Definition update_status (now : Z) (id : string) (status : TransactionStatus)
  : Repo TransactionRepoModel :=
  partial_update now id
    {| upd_status := Some status; upd_status_reason := None; upd_sent_at := None;
       upd_confirmed_at := None; upd_network_data := None; upd_priced_at := None;
       upd_hashes := None; upd_noop_count := None; upd_is_canceled := None;
       upd_delete_at := None; upd_metadata := None |}.

Definition update_network_data (id : string) (nd : NetworkTransactionData)
  : Repo TransactionRepoModel :=
  let* tx := get_by_id id in
  update id (set_tx_network_data nd tx).

Definition set_sent_at (now : Z) (id sent_at : string) : Repo TransactionRepoModel :=
  partial_update now id
    {| upd_status := None; upd_status_reason := None; upd_sent_at := Some sent_at;
       upd_confirmed_at := None; upd_network_data := None; upd_priced_at := None;
       upd_hashes := None; upd_noop_count := None; upd_is_canceled := None;
       upd_delete_at := None; upd_metadata := None |}.

Definition set_confirmed_at (id confirmed_at : string) : Repo TransactionRepoModel :=
  let* tx := get_by_id id in
  update id (set_tx_confirmed_at (Some confirmed_at) tx).

(** The shape of the four atomic metadata updates: nothing for a finalized transaction,
    otherwise [f] applied to the stored model in place. *)
Definition update_if_active (id : string) (f : TransactionRepoModel -> TransactionRepoModel)
  : Repo TransactionRepoModel := fun s =>
  match store s !! id with
  | Some tx => if is_final_state (tx_status tx) then (Ok tx, s)
               else (Ok (f tx), set_store (<[id := f tx]> (store s)) s)
  | None => (not_found id, s)
  end.

Definition increment_status_check_failures (id : string) : Repo TransactionRepoModel :=
  update_if_active id (fun tx =>
    let m := default metadata_default (tx_metadata tx) in
    set_tx_metadata (Some {|
      consecutive_failures := sat_add u32_max (consecutive_failures m) 1;
      total_failures := sat_add u32_max (total_failures m) 1;
      insufficient_fee_retries := insufficient_fee_retries m;
      try_again_later_retries := try_again_later_retries m;
      nonce_too_high_retries := nonce_too_high_retries m |}) tx).

Definition reset_status_check_consecutive_failures (id : string) : Repo TransactionRepoModel :=
  update_if_active id (fun tx =>
    let m := default metadata_default (tx_metadata tx) in
    set_tx_metadata (Some {|
      consecutive_failures := 0;
      total_failures := total_failures m;
      insufficient_fee_retries := insufficient_fee_retries m;
      try_again_later_retries := try_again_later_retries m;
      nonce_too_high_retries := nonce_too_high_retries m |}) tx).

Definition record_stellar_insufficient_fee_retry (id sent_at : string)
  : Repo TransactionRepoModel :=
  update_if_active id (fun tx =>
    let m := default metadata_default (tx_metadata tx) in
    set_tx_sent_at (Some sent_at) (set_tx_metadata (Some {|
      consecutive_failures := consecutive_failures m;
      total_failures := total_failures m;
      insufficient_fee_retries := sat_add u32_max (insufficient_fee_retries m) 1;
      try_again_later_retries := try_again_later_retries m;
      nonce_too_high_retries := nonce_too_high_retries m |}) tx)).

Definition record_stellar_try_again_later_retry (id sent_at : string)
  : Repo TransactionRepoModel :=
  update_if_active id (fun tx =>
    let m := default metadata_default (tx_metadata tx) in
    set_tx_sent_at (Some sent_at) (set_tx_metadata (Some {|
      consecutive_failures := consecutive_failures m;
      total_failures := total_failures m;
      insufficient_fee_retries := insufficient_fee_retries m;
      try_again_later_retries := sat_add u32_max (try_again_later_retries m) 1;
      nonce_too_high_retries := nonce_too_high_retries m |}) tx)).

Definition count_by_status (relayer_id : string) (statuses : list TransactionStatus) : Repo Z :=
  fun s =>
  (Ok (Z.of_nat (length
     (List.filter (matches_status relayer_id statuses) (hash_values (store s))))), s).

(** The body of the loop of [delete_by_ids]. *)
Definition delete_one (acc : gmap string TransactionRepoModel * BatchDeleteResult) (id : string)
  : gmap string TransactionRepoModel * BatchDeleteResult :=
  let '(m, r) := acc in
  match m !! id with
  | Some _ => (delete id m,
               {| deleted_count := deleted_count r + 1; failed := failed r |})
  | None => (m, {| deleted_count := deleted_count r;
                   failed := failed r ++
                     [(id, "Transaction with ID " +:+ id +:+ " not found")] |})
  end.

Definition delete_by_ids (ids : list string) : Repo BatchDeleteResult := fun s =>
  match ids with
  | [] => (Ok {| deleted_count := 0; failed := [] |}, s)
  | _ => let '(m, r) := fold_left delete_one ids
                          (store s, {| deleted_count := 0; failed := [] |}) in
         (Ok r, set_store m s)
  end.

Definition delete_by_requests (requests : list TransactionDeleteRequest)
  : Repo BatchDeleteResult :=
  match requests with
  | [] => retM {| deleted_count := 0; failed := [] |}
  | _ => delete_by_ids (dr_id <$> requests)
  end.

Definition idempotency_map_key (relayer_id key : string) : string :=
  relayer_id +:+ ":" +:+ key.

Definition purge_expired_idempotency (now : Z) (m : gmap string (IdempotencyRecord * Z))
  : gmap string (IdempotencyRecord * Z) :=
  filter (fun kv => now < kv.2.2) m.

(** [now] is the clock of the purge, [now'] the later read that starts the new TTL. *)
Definition reserve_idempotency_key (now now' : Z) (relayer_id key : string)
    (record : IdempotencyRecord) (ttl_seconds : Z) : Repo bool := fun s =>
  let m := purge_expired_idempotency now (idempotency s) in
  let map_key := idempotency_map_key relayer_id key in
  match m !! map_key with
  | Some _ => (Ok false, set_idempotency m s)
  | None =>
      let expires_at := now' + ttl_seconds * 10 ^ 9 in
      (Ok true, set_idempotency (<[map_key := (record, expires_at)]> m) s)
  end.

Definition get_idempotency_record (now : Z) (relayer_id key : string)
  : Repo (option IdempotencyRecord) := fun s =>
  let m := purge_expired_idempotency now (idempotency s) in
  (Ok (fst <$> m !! idempotency_map_key relayer_id key), set_idempotency m s).

Definition release_idempotency_key_if_unused (relayer_id key id : string) : Repo bool := fun s =>
  match store s !! id with
  | Some _ => (Ok false, s)
  | None =>
      let map_key := idempotency_map_key relayer_id key in
      match idempotency s !! map_key with
      | Some (record, _) =>
          if String.eqb (ir_tx_id record) id
          then (Ok true, set_idempotency (delete map_key (idempotency s)) s)
          else (Ok false, s)
      | None => (Ok false, s)
      end
  end.
End Ops.

(** *** Finders *)

Section Finders.
Context `{Chrono} `{ServerConfig} `{HashOrder TransactionRepoModel}.

Lemma elem_of_list_filter {A} (f : A -> bool) l x :
  x ∈ List.filter f l <-> x ∈ l /\ f x = true.
Proof. by rewrite !list_elem_of_In, filter_In. Qed.

Lemma then_with_antisym c1 c2 : CompOpp (then_with c1 c2) = then_with (CompOpp c1) (CompOpp c2).
Proof. by destruct c1. Qed.

Lemma status_order_antisym oldest a b :
  status_order oldest b a = CompOpp (status_order oldest a b).
Proof.
  destruct oldest; simpl; unfold compare_oldest_first, compare_for_sort;
    rewrite then_with_antisym; f_equal; apply String.compare_antisym.
Qed.

Lemma matches_nonce_spec rid n tx :
  matches_nonce rid n tx = true <-> tx_relayer_id tx = rid /\ tx_nonce tx = Some n.
Proof.
  unfold matches_nonce, tx_nonce. rewrite andb_true_iff, String.eqb_eq.
  destruct (tx_network_data tx); rewrite ?bool_decide_eq_true;
    split; intros [? ?]; simplify_eq; auto.
Qed.

(** The transaction [find_by_nonce] returns on a given store. *)
Definition nonce_slot (m : gmap string TransactionRepoModel) (rid : string) (n : Z)
  : option TransactionRepoModel :=
  head (List.filter (matches_nonce rid n) (hash_values m)).

Lemma nonce_slot_some m rid n t :
  nonce_slot m rid n = Some t ->
  (exists id, m !! id = Some t) /\ tx_relayer_id t = rid /\ tx_nonce t = Some n.
Proof.
  unfold nonce_slot. intros Hh.
  assert (t ∈ List.filter (matches_nonce rid n) (hash_values m)) as Hin.
  { destruct (List.filter _ _); simplify_eq/=. by left. }
  apply elem_of_list_filter in Hin as [Hin Hm].
  apply elem_of_hash_values in Hin. by apply matches_nonce_spec in Hm.
Qed.

Lemma nonce_slot_none m rid n id t :
  nonce_slot m rid n = None -> m !! id = Some t -> tx_relayer_id t = rid ->
  tx_nonce t <> Some n.
Proof.
  unfold nonce_slot. intros Hh Hid Hr Hn.
  assert (t ∈ List.filter (matches_nonce rid n) (hash_values m)) as Hin.
  { apply elem_of_list_filter. rewrite elem_of_hash_values, matches_nonce_spec. eauto. }
  destruct (List.filter _ _); simplify_eq/=. by apply elem_of_nil in Hin.
Qed.

Lemma get_nonce_occupancy_eq rid from to s :
  get_nonce_occupancy rid from to s =
  (Ok ((fun n => (n, tx_status <$> nonce_slot (store s) rid n)) <$> nonce_range from to), s).
Proof.
  unfold get_nonce_occupancy.
  assert (forall l acc,
    foldM (fun results nonce =>
             let* tx := find_by_nonce rid nonce in
             retM (results ++ [(nonce, tx_status <$> tx)])) acc l s =
    (Ok (acc ++ ((fun n => (n, tx_status <$> nonce_slot (store s) rid n)) <$> l)), s)) as Hl.
  { induction l as [|n l IH]; intros acc; simpl; [by rewrite app_nil_r|].
    unfold bindM at 1. simpl. rewrite IH. by rewrite <- app_assoc. }
  apply Hl.
Qed.

(** The list the pages of a status query are cut from. *)
Definition status_listing (rid : string) (sts : list TransactionStatus) (oldest : bool)
    (s : state) : list TransactionRepoModel :=
  sorted_by (status_order oldest)
    (List.filter (matches_status rid sts) (hash_values (store s))).

Definition page_items {A} (r : result RepositoryError.t (PaginatedResult A)) : list A :=
  match r with Ok p => pr_items p | Err _ => [] end.

Lemma page_slice_concat {A} (pp : nat) (l : list A) k :
  (length l <= k * pp)%nat ->
  concat ((fun i => take pp (drop (i * pp) l)) <$> seq 0 k) = l.
Proof.
  revert l. induction k as [|k IH]; intros l Hl.
  - simpl in *. by destruct l; [|simpl in *; lia].
  - rewrite <- cons_seq, fmap_cons, concat_cons. simpl (0 * pp)%nat. rewrite drop_0.
    transitivity (take pp l ++ drop pp l); [f_equal | apply take_drop].
    etransitivity; [|apply (IH (drop pp l)); rewrite length_drop; lia].
    rewrite <- fmap_S_seq, <- list_fmap_compose.
    f_equal. apply list_fmap_ext. intros i x _. simpl. by rewrite drop_drop.
Qed.

Lemma start_of_saturating_small i pp :
  0 <= pp -> Z.of_nat i * pp < 2 ^ 32 ->
  Z.to_nat (start_of_saturating {| page := Z.of_nat i + 1; per_page := pp |}) =
  (i * Z.to_nat pp)%nat.
Proof.
  intros Hpp Hb. unfold start_of_saturating, sat_sub. simpl.
  replace (Z.max 0 (Z.of_nat i + 1 - 1)) with (Z.of_nat i) by lia.
  rewrite wrapu_small by (unfold in_u; nia). rewrite Z2Nat.inj_mul by lia. lia.
Qed.

(** Paginated status queries: as long as page offsets fit a [u32], the pages 1 to [k] of a
    query, for [k] large enough to reach the end, concatenate to exactly the matching
    transactions, each once, in the requested order, and every page reports their number. *)
Theorem find_by_status_pages_complete rid sts oldest (pp : Z) (k : nat) s :
  0 < pp -> Z.of_nat k * pp < 2 ^ 32 ->
  Z.of_nat (length (status_listing rid sts oldest s)) <= Z.of_nat k * pp ->
  let query i :=
    fst (find_by_status_paginated rid sts {| page := Z.of_nat i + 1; per_page := pp |} oldest s) in
  concat ((fun i => page_items (query i)) <$> seq 0 k) = status_listing rid sts oldest s /\
  status_listing rid sts oldest s ≡ₚ
    List.filter (matches_status rid sts) (map_to_list (store s)).*2 /\
  Sorted (fun a b => status_order oldest a b <> Gt) (status_listing rid sts oldest s) /\
  (forall i p, query i = Ok p -> pr_total p = Z.of_nat (length (status_listing rid sts oldest s))).
Proof.
  intros Hpp Hb Hlen query. split_and!.
  - etransitivity; [|apply (page_slice_concat (Z.to_nat pp) _ k); lia].
    f_equal. apply list_fmap_ext. intros j i Hi.
    apply lookup_seq in Hi as [-> Hi]. subst query. simpl. unfold page_slice.
    rewrite <- start_of_saturating_small by nia. done.
  - unfold status_listing. rewrite sorted_by_perm.
    apply Permutation_filter_bool, hash_values_perm.
  - apply sorted_by_sorted, status_order_antisym.
  - intros i p [= <-]. simpl. unfold status_listing.
    by rewrite (sorted_by_perm _ (List.filter _ _)).
Qed.
End Finders.

(** *** Idempotency keys *)

(** The operations that can interleave with a request holding a reservation. *)
Inductive op : Type :=
| OpReserve (now now' : Z) (rid key : string) (rec : IdempotencyRecord) (ttl : Z)
| OpGet (now : Z) (rid key : string)
| OpRelease (rid key id : string)
| OpCreate (tx : TransactionRepoModel)
| OpPartialUpdate (now : Z) (id : string) (u : TransactionUpdateRequest).

Section Idempotency.
Context `{Chrono} `{ServerConfig}.

Definition exec (o : op) (s : state) : state :=
  match o with
  | OpReserve now now' rid key rec ttl =>
      snd (reserve_idempotency_key now now' rid key rec ttl s)
  | OpGet now rid key => snd (get_idempotency_record now rid key s)
  | OpRelease rid key id => snd (release_idempotency_key_if_unused rid key id s)
  | OpCreate tx => snd (create tx s)
  | OpPartialUpdate now id u => snd (partial_update now id u s)
  end.

Definition run (ops : list op) (s : state) : state := fold_left (fun s o => exec o s) ops s.

(** Every clock the operation purges with is before [t]. *)
Definition clock_before (t : Z) (o : op) : Prop :=
  match o with
  | OpReserve now _ _ _ _ _ | OpGet now _ _ => now < t
  | _ => True
  end.

Definition releases (id : string) (o : op) : Prop :=
  match o with OpRelease _ _ id' => id' = id | _ => False end.

Lemma purge_keeps now m k (rec : IdempotencyRecord) exp :
  m !! k = Some (rec, exp) -> now < exp ->
  purge_expired_idempotency now m !! k = Some (rec, exp).
Proof. intros Hk Hlt. unfold purge_expired_idempotency. by apply map_lookup_filter_Some. Qed.

Lemma exec_keeps_key o s k rec exp :
  idempotency s !! k = Some (rec, exp) -> clock_before exp o ->
  (releases (ir_tx_id rec) o -> is_Some (store s !! ir_tx_id rec)) ->
  idempotency (exec o s) !! k = Some (rec, exp).
Proof.
  intros Hk Hc Hr. destruct o as [now now' rid key rec' ttl|now rid key|rid key id|tx|now id u];
    simpl in *.
  - unfold reserve_idempotency_key. destruct (purge_expired_idempotency _ _ !! _) eqn:Hp; simpl.
    + by apply purge_keeps.
    + rewrite lookup_insert_ne; [by apply purge_keeps|]. intros <-.
      erewrite purge_keeps in Hp by eauto. done.
  - by apply purge_keeps.
  - unfold release_idempotency_key_if_unused. destruct (store s !! id) eqn:Hs; simpl; [done|].
    destruct (idempotency s !! idempotency_map_key rid key) as [[rec' exp']|] eqn:Hi; simpl; [|done].
    destruct (String.eqb_spec (ir_tx_id rec') id) as [Heq|Hne]; simpl; [|done].
    rewrite lookup_delete_ne; [done|]. intros Hkk. rewrite Hkk in Hi. simplify_eq.
    destruct (Hr eq_refl) as [? ?]. congruence.
  - unfold create. by destruct (store s !! tx_id tx).
  - unfold partial_update. by destruct (store s !! id).
Qed.

Lemma exec_keeps_store o s id : is_Some (store s !! id) -> is_Some (store (exec o s) !! id).
Proof.
  intros Hs. destruct o as [now now' rid key rec' ttl|now rid key|rid key id'|tx|now id' u]; simpl.
  - unfold reserve_idempotency_key. by destruct (purge_expired_idempotency _ _ !! _).
  - done.
  - unfold release_idempotency_key_if_unused. destruct (store s !! id'); [done|].
    destruct (idempotency s !! _) as [[? ?]|]; [|done]. by case_match.
  - unfold create. destruct (store s !! tx_id tx); simpl; [done|].
    rewrite lookup_insert_is_Some'. by right.
  - unfold partial_update. destruct (store s !! id') eqn:Hid; simpl; [|done].
    rewrite lookup_insert_is_Some'. by right.
Qed.

Lemma run_keeps_key ops s k rec exp :
  idempotency s !! k = Some (rec, exp) -> Forall (clock_before exp) ops ->
  (is_Some (store s !! ir_tx_id rec) \/ Forall (fun o => ~ releases (ir_tx_id rec) o) ops) ->
  idempotency (run ops s) !! k = Some (rec, exp).
Proof.
  unfold run. revert s. induction ops as [|o ops IH]; intros s Hk Hc Hr; simpl; [done|].
  inversion Hc; subst. apply IH; [| done |].
  - apply exec_keeps_key; [done..|]. intros Ho. destruct Hr as [?|Hr]; [done|].
    by inversion Hr; subst.
  - destruct Hr as [Hr|Hr]; [left; by apply exec_keeps_store | right; by inversion Hr].
Qed.

(** Idempotency keys are exclusive: once a request reserved a key and stored the
    transaction the record names, then, whatever reservations, releases, reads, creations and
    updates other requests interleave before the record expires, a retry finds the record and
    cannot reserve the key again, so it replays that transaction.  Only the owner may release
    the key, and not once its transaction is stored. *)
Theorem idempotency_key_exclusive s0 now now' rid key rec ttl s1 ops0 tx ops1 t t' rec' ttl' :
  let expiry := now' + ttl * 10 ^ 9 in
  reserve_idempotency_key now now' rid key rec ttl s0 = (Ok true, s1) ->
  Forall (clock_before expiry) ops0 ->
  Forall (fun o => ~ releases (ir_tx_id rec) o) ops0 ->
  tx_id tx = ir_tx_id rec ->
  Forall (clock_before expiry) ops1 -> t < expiry ->
  let s2 := run ops1 (exec (OpCreate tx) (run ops0 s1)) in
  fst (get_idempotency_record t rid key s2) = Ok (Some rec) /\
  fst (reserve_idempotency_key t t' rid key rec' ttl' s2) = Ok false.
Proof.
  intros expiry Hres Hc0 Hr0 Hid Hc1 Ht s2.
  set (k := idempotency_map_key rid key).
  assert (idempotency s1 !! k = Some (rec, expiry)) as H1.
  { unfold reserve_idempotency_key in Hres. case_match; simplify_eq/=.
    by rewrite lookup_insert_eq. }
  assert (idempotency (run ops0 s1) !! k = Some (rec, expiry)) as H2
    by (apply run_keeps_key; auto).
  assert (idempotency s2 !! k = Some (rec, expiry)) as H3.
  { apply run_keeps_key; [|done|left].
    - by apply exec_keeps_key.
    - rewrite <- Hid. simpl. unfold create. destruct (store (run ops0 s1) !! tx_id tx) eqn:E;
        simpl; rewrite ?lookup_insert_eq, ?E; eauto. }
  unfold get_idempotency_record, reserve_idempotency_key. fold k.
  rewrite (purge_keeps _ _ _ _ _ H3 Ht). done.
Qed.
End Idempotency.

(** *** The store invariant *)

Section Invariant.
Context `{Chrono} `{ServerConfig}.

(** Each transaction is stored under its own id, and finalized ones carry [delete_at]. *)
Definition wf_store (m : gmap string TransactionRepoModel) : Prop :=
  map_Forall (fun id t => tx_id t = id /\ wf_tx t) m.

(** The mutating operations of the repository, as transitions.  [update] is reached through
    [update_network_data] and [set_confirmed_at], its only callers. *)
Inductive step : state -> state -> Prop :=
| step_create tx s : wf_tx tx -> step s (snd (create tx s))
| step_delete id s : step s (snd (delete_by_id id s))
| step_drop_all s : step s (snd (drop_all_entries s))
| step_partial_update now id u s : step s (snd (partial_update now id u s))
| step_update_status now id st s : step s (snd (update_status now id st s))
| step_network_data id nd s : step s (snd (update_network_data id nd s))
| step_sent_at now id x s : step s (snd (set_sent_at now id x s))
| step_confirmed_at id x s : step s (snd (set_confirmed_at id x s))
| step_increment id s : step s (snd (increment_status_check_failures id s))
| step_reset id s : step s (snd (reset_status_check_consecutive_failures id s))
| step_fee_retry id x s : step s (snd (record_stellar_insufficient_fee_retry id x s))
| step_later_retry id x s : step s (snd (record_stellar_try_again_later_retry id x s))
| step_delete_many ids s : step s (snd (delete_by_ids ids s))
| step_delete_requests rs s : step s (snd (delete_by_requests rs s))
| step_reserve now now' rid key rec ttl s :
    step s (snd (reserve_idempotency_key now now' rid key rec ttl s))
| step_get_idem now rid key s : step s (snd (get_idempotency_record now rid key s))
| step_release rid key id s : step s (snd (release_idempotency_key_if_unused rid key id s)).

Lemma wf_store_insert m id t :
  wf_store m -> tx_id t = id -> wf_tx t -> wf_store (<[id := t]> m).
Proof. intros Hm Hid Ht. by apply map_Forall_insert_2. Qed.

Lemma wf_store_delete m id : wf_store m -> wf_store (delete id m).
Proof. by apply map_Forall_delete. Qed.

Lemma wf_partial_update now id u s :
  wf_store (store s) -> wf_store (store (snd (partial_update now id u s))).
Proof.
  intros Hwf. unfold partial_update. destruct (store s !! id) as [t|] eqn:Ht; simpl; [|done].
  destruct (Hwf _ _ Ht). apply wf_store_insert; auto using apply_partial_update_wf.
Qed.

Lemma wf_update_if_active id f s :
  (forall t, tx_id (f t) = tx_id t /\ (wf_tx t -> wf_tx (f t))) ->
  wf_store (store s) -> wf_store (store (snd (update_if_active id f s))).
Proof.
  intros Hf Hwf. unfold update_if_active. destruct (store s !! id) as [t|] eqn:Ht; [|done].
  destruct (Hwf _ _ Ht) as [Hid ?]. destruct (is_final_state _); [done|]. simpl.
  destruct (Hf t) as [Hft ?]. apply wf_store_insert; auto. by rewrite Hft.
Qed.

Lemma wf_get_update id f s :
  (forall t, wf_tx t -> wf_tx (set_tx_id id (f t))) ->
  wf_store (store s) ->
  wf_store (store (snd ((let* tx := get_by_id id in update id (f tx)) s))).
Proof.
  intros Hf Hwf. unfold bindM, get_by_id. destruct (store s !! id) as [t|] eqn:Ht; [|done].
  unfold update. rewrite Ht. simpl. destruct (Hwf _ _ Ht).
  apply wf_store_insert; [done| |by apply Hf]. by destruct (f t).
Qed.

Lemma wf_delete_fold ids m r :
  wf_store m -> wf_store (fst (fold_left delete_one ids (m, r))).
Proof.
  revert m r. induction ids as [|id ids IH]; intros m r Hm; simpl; [done|].
  destruct (m !! id); apply IH; auto using wf_store_delete.
Qed.

Lemma wf_delete_by_ids ids s :
  wf_store (store s) -> wf_store (store (snd (delete_by_ids ids s))).
Proof.
  intros Hwf. destruct ids as [|id ids]; [done|]. unfold delete_by_ids.
  pose proof (wf_delete_fold (id :: ids) (store s) {| deleted_count := 0; failed := [] |} Hwf).
  by destruct (fold_left _ _ _).
Qed.

Lemma idempotency_ops_store s :
  (forall now now' rid key rec ttl,
     store (snd (reserve_idempotency_key now now' rid key rec ttl s)) = store s) /\
  (forall rid key id, store (snd (release_idempotency_key_if_unused rid key id s)) = store s).
Proof.
  split; intros; [unfold reserve_idempotency_key | unfold release_idempotency_key_if_unused];
    repeat case_match; done.
Qed.

Lemma wf_step s s' : step s s' -> wf_store (store s) -> wf_store (store s').
Proof.
  intros Hstep Hwf. destruct Hstep; try by apply wf_partial_update.
  - unfold create. destruct (store s !! tx_id tx); [done|]. by apply wf_store_insert.
  - unfold delete_by_id. destruct (store s !! id); [by apply wf_store_delete | done].
  - apply map_Forall_empty.
  - apply wf_get_update; [|done]. by intros [].
  - apply wf_get_update; [|done]. by intros [].
  - apply wf_update_if_active; [|done]. by intros [].
  - apply wf_update_if_active; [|done]. by intros [].
  - apply wf_update_if_active; [|done]. by intros [].
  - apply wf_update_if_active; [|done]. by intros [].
  - by apply wf_delete_by_ids.
  - destruct rs; [done | by apply wf_delete_by_ids].
  - by rewrite (proj1 (idempotency_ops_store s)).
  - done.
  - by rewrite (proj2 (idempotency_ops_store s)).
Qed.

(** Every state the in-memory repository reaches from an empty one by its mutating
    operations stores each transaction under its own id, and every stored transaction whose
    status is final carries a deletion time, so the clean-up can find it. *)
Theorem store_invariant s : rtc step new s -> wf_store (store s).
Proof.
  assert (forall s0, rtc step s0 s -> wf_store (store s0) -> wf_store (store s)) as Hr.
  { induction 1; eauto using wf_step. }
  intros Hreach. apply (Hr new Hreach). apply map_Forall_empty.
Qed.
End Invariant.

(** *** Instances *)

Section Witnesses.
#[local] Existing Instances sample_chrono sample_config sample_order.

Definition demo_tx (id : string) (s : TransactionStatus) (created : string)
  : TransactionRepoModel :=
  {| tx_id := id; tx_relayer_id := "r"; tx_status := s; tx_status_reason := None;
     tx_created_at := created; tx_sent_at := None; tx_confirmed_at := None;
     tx_valid_until := None; tx_delete_at := None;
     tx_network_data := SolanaData {| sol_transaction := None; sol_instructions := None;
                                      sol_signature := None |};
     tx_priced_at := None; tx_hashes := []; tx_network_type := NtSolana;
     tx_noop_count := None; tx_is_canceled := None; tx_metadata := None |}.

Definition demo_state : state :=
  set_store {["a"%string := demo_tx "a" Pending "1"; "b"%string := demo_tx "b" Sent "3";
              "c"%string := demo_tx "c" Pending "2"]} new.

Lemma find_by_status_pages_complete_witness :
  concat ((fun i => page_items (fst (find_by_status_paginated "r" [Pending]
     {| page := Z.of_nat i + 1; per_page := 1 |} true demo_state))) <$> seq 0 2) =
  [demo_tx "a" Pending "1"; demo_tx "c" Pending "2"].
Proof.
  destruct (find_by_status_pages_complete "r" [Pending] true 1 2 demo_state) as [Hc _];
    [reflexivity..|vm_compute; discriminate|].
  rewrite Hc. vm_compute. reflexivity.
Defined.

Definition demo_record : IdempotencyRecord :=
  {| ir_fingerprint := "f"; ir_tx_id := "a"; ir_created_at := "1" |}.

(** Between reservation and creation another request tries the key; afterwards the owner's
    release comes too late. *)
Lemma idempotency_key_exclusive_witness :
  let s1 := snd (reserve_idempotency_key 1 2 "r" "key" demo_record 60 new) in
  let s2 := run [OpRelease "r" "key" "a"] (exec (OpCreate (demo_tx "a" Pending "1"))
              (run [OpReserve 3 4 "r" "key" demo_record 60] s1)) in
  fst (get_idempotency_record 5 "r" "key" s2) = Ok (Some demo_record) /\
  fst (reserve_idempotency_key 5 6 "r" "key" demo_record 60 s2) = Ok false.
Proof.
  apply (idempotency_key_exclusive new 1 2 "r" "key" demo_record 60 _
           [OpReserve 3 4 "r" "key" demo_record 60] (demo_tx "a" Pending "1")
           [OpRelease "r" "key" "a"] 5 6 demo_record 60).
  - vm_compute. reflexivity.
  - constructor; [|constructor]. vm_compute. reflexivity.
  - constructor; [|constructor]. intros [].
  - reflexivity.
  - repeat constructor.
  - vm_compute. reflexivity.
Defined.

Lemma store_invariant_witness :
  wf_store (store (snd (partial_update 7 "a"
    {| upd_status := Some Failed; upd_status_reason := None; upd_sent_at := None;
       upd_confirmed_at := None; upd_network_data := None; upd_priced_at := None;
       upd_hashes := None; upd_noop_count := None; upd_is_canceled := None;
       upd_delete_at := None; upd_metadata := None |}
    (snd (create (demo_tx "a" Pending "1") new))))).
Proof.
  apply store_invariant. eapply rtc_l; [by apply (step_create (demo_tx "a" Pending "1"))|].
  eapply rtc_l; [apply step_partial_update|apply rtc_refl].
Defined.
End Witnesses.

(** *** The in-memory repository implements the interface *)

#[global, program] Instance repository `{Chrono} `{ServerConfig} `{HashOrder TransactionRepoModel}
  : TransactionRepository state := {|
  repo_view := store;
  repo_create := create;
  repo_get_by_id := get_by_id;
  repo_partial_update := partial_update;
  repo_update_network_data := update_network_data;
  repo_find_by_nonce := find_by_nonce;
  repo_get_nonce_occupancy := get_nonce_occupancy;
  repo_find_by_status := find_by_status;
  repo_increment_status_check_failures := increment_status_check_failures;
  repo_reset_status_check_consecutive_failures := reset_status_check_consecutive_failures;
|}.
Next Obligation.
  intros ??? t s. unfold wp, create. destruct (store s !! tx_id t) eqn:E; simpl; [by eauto|].
  left. split_and!; [done..|]. by intros ? [= <-].
Qed.
Next Obligation.
  intros ??? id s. unfold wp, get_by_id. destruct (store s !! id) eqn:E; simpl; split; try done.
  by intros ? [= <-].
Qed.
Next Obligation.
  intros ??? now id u s. unfold wp, partial_update.
  destruct (store s !! id) as [t|] eqn:E; simpl; [|by right; eauto].
  left. exists t, (apply_partial_update now u t). split_and!; [done|by left|done|].
  by intros ? [= <-].
Qed.
Next Obligation.
  intros ??? id nd s. unfold wp, update_network_data, bindM, get_by_id.
  destruct (store s !! id) as [t|] eqn:E; simpl; [|by right; eauto].
  unfold update. rewrite E. simpl. left. exists t, (set_tx_id id (set_tx_network_data nd t)).
  split_and!; [done| |done|by intros ? [= <-]]. destruct t; simpl. by intros ->.
Qed.
Next Obligation. done. Qed.
Next Obligation. intros ??? rid from to s. unfold wp. by rewrite get_nonce_occupancy_eq. Qed.
Next Obligation.
  intros ??? rid sts s. unfold wp. simpl. split; [done|]. intros l t [= <-] Hin.
  rewrite sorted_by_perm, elem_of_list_filter, elem_of_hash_values in Hin.
  destruct Hin as [? [?%String.eqb_eq ?]%andb_true_iff]. done.
Qed.
Next Obligation.
  intros ??? id s. unfold wp. simpl. unfold increment_status_check_failures, update_if_active.
  destruct (store s !! id) as [t|] eqn:E; simpl; [|by right].
  destruct (is_final_state (tx_status t)) eqn:Hf; simpl; [by right|].
  left. eexists _, _. split_and!; [done|done| |reflexivity]. reflexivity.
Qed.
Next Obligation.
  intros ??? id s. unfold wp. simpl.
  unfold reset_status_check_consecutive_failures, update_if_active.
  destruct (store s !! id) as [t|] eqn:E; simpl; [|by right].
  destruct (is_final_state (tx_status t)) eqn:Hf; simpl; [by right|].
  left. eexists _, _. split_and!; [done|done| |reflexivity]. reflexivity.
Qed.

#[global] Instance nonce_index `{Chrono} `{ServerConfig} `{HashOrder TransactionRepoModel}
  : NonceIndex state.
Proof.
  split.
  - intros rid n s. simpl. split.
    + intros t [= Ht]. by apply nonce_slot_some in Ht.
    + intros [= Ht] id t. by apply nonce_slot_none.
  - intros rid from to s l. simpl. rewrite get_nonce_occupancy_eq. intros [= <-]. split.
    + rewrite <- list_fmap_compose. apply list_fmap_id.
    + intros n o (n' & Hn & _)%list_elem_of_fmap. simplify_eq.
      destruct (nonce_slot (store s) rid n') as [t|] eqn:Hs; simpl.
      * apply nonce_slot_some in Hs as ([id ?] & ? & ?). by exists id, t.
      * intros id t. by apply nonce_slot_none.
Qed.
End InMemory.
