(* ===== verification/Counter.v ===== *)
(** * Transaction counters

    The nonce and sequence counters of [repositories/transaction_counter]: the interface the
    transaction code relies on and the in-memory implementation
    ([transaction_counter_in_memory.rs]); the Redis implementation is in [CounterRedis].  The
    service of [services/transaction_counter/mod.rs] fixes the relayer and address and renames
    errors. *)

From S2P Require Import Prelude Decimal Errors.
Open Scope Z_scope.

Abbreviation CounterKey := (string * string)%type (only parsing).

(** ** The interface

    A failed call may leave the counter untouched or may have reached the store before the
    failure was reported. *)
Class TransactionCounter (C : Type) := {
  ctr_view : C -> gmap CounterKey Z;

  ctr_get : string -> string -> M C RepositoryError.t (option Z);
  ctr_get_and_increment : string -> string -> M C RepositoryError.t Z;
  ctr_decrement : string -> string -> M C RepositoryError.t Z;
  ctr_set : string -> string -> Z -> M C RepositoryError.t unit;
  ctr_sync_floor : string -> string -> Z -> M C RepositoryError.t Z;
  ctr_set_if_equals : string -> string -> Z -> Z -> M C RepositoryError.t bool;

  ctr_get_spec rid addr c :
    wp (ctr_get rid addr) (fun r c' =>
      ctr_view c' = ctr_view c /\ forall o, r = Ok o -> o = ctr_view c !! (rid, addr)) c;

  ctr_get_and_increment_spec rid addr c :
    wp (ctr_get_and_increment rid addr) (fun r c' =>
      let n := default 0 (ctr_view c !! (rid, addr)) in
      (ctr_view c' = <[(rid, addr) := wrapu 64 (n + 1)]> (ctr_view c) /\
         forall n', r = Ok n' -> n' = n) \/
      (ctr_view c' = ctr_view c /\ exists e, r = Err e)) c;

  ctr_decrement_spec rid addr c :
    wp (ctr_decrement rid addr) (fun r c' =>
      (exists n, ctr_view c !! (rid, addr) = Some n /\
         let n1 := if 0 <? n then n - 1 else n in
         ctr_view c' = <[(rid, addr) := n1]> (ctr_view c) /\
         forall n', r = Ok n' -> n' = n1) \/
      (ctr_view c' = ctr_view c /\ exists e, r = Err e)) c;

  ctr_set_spec rid addr value c :
    wp (ctr_set rid addr value) (fun r c' =>
      ctr_view c' = <[(rid, addr) := value]> (ctr_view c) \/
      (ctr_view c' = ctr_view c /\ exists e, r = Err e)) c;

  ctr_sync_floor_spec rid addr floor c :
    wp (ctr_sync_floor rid addr floor) (fun r c' =>
      let n := match ctr_view c !! (rid, addr) with
               | Some cur => Z.max cur floor
               | None => floor
               end in
      (ctr_view c' = <[(rid, addr) := n]> (ctr_view c) /\ forall n', r = Ok n' -> n' = n) \/
      (ctr_view c' = ctr_view c /\ exists e, r = Err e)) c;

  ctr_set_if_equals_spec rid addr expected value c :
    wp (ctr_set_if_equals rid addr expected value) (fun r c' =>
      (ctr_view c !! (rid, addr) = Some expected /\ value < expected /\
         ctr_view c' = <[(rid, addr) := value]> (ctr_view c) /\
         forall b, r = Ok b -> b = true) \/
      (ctr_view c' = ctr_view c /\ r <> Ok true)) c;
}.

(** ** In memory *)

Module MemCounter.
Abbreviation state := (gmap CounterKey Z) (only parsing).
Definition C (A : Type) : Type := M state RepositoryError.t A.

Definition get (rid addr : string) : C (option Z) := fun s => (Ok (s !! (rid, addr)), s).

(** [*entry += 1] on a [u64] wraps. *)
Definition get_and_increment (rid addr : string) : C Z := fun s =>
  let current := default 0 (s !! (rid, addr)) in
  (Ok current, <[(rid, addr) := wrapu 64 (current + 1)]> s).

Definition decrement (rid addr : string) : C Z := fun s =>
  match s !! (rid, addr) with
  | None => (Err (RepositoryError.NotFound ("Counter not found for " +:+ addr)), s)
  | Some entry =>
      let entry' := if 0 <? entry then entry - 1 else entry in
      (Ok entry', <[(rid, addr) := entry']> s)
  end.

Definition set (rid addr : string) (value : Z) : C unit := fun s =>
  (Ok tt, <[(rid, addr) := value]> s).

Definition sync_floor (rid addr : string) (floor : Z) : C Z := fun s =>
  let entry := default floor (s !! (rid, addr)) in
  let entry' := if entry <? floor then floor else entry in
  (Ok entry', <[(rid, addr) := entry']> s).

Definition set_if_equals (rid addr : string) (expected value : Z) : C bool := fun s =>
  match s !! (rid, addr) with
  | Some entry =>
      if (entry =? expected) && (value <? expected)
      then (Ok true, <[(rid, addr) := value]> s)
      else (Ok false, s)
  | None => (Ok false, s)
  end.

Definition drop_all_entries : C unit := fun _ => (Ok tt, ∅).

#[global, program] Instance counter : TransactionCounter state := {|
  ctr_view := fun s => s;
  ctr_get := get;
  ctr_get_and_increment := get_and_increment;
  ctr_decrement := decrement;
  ctr_set := set;
  ctr_sync_floor := sync_floor;
  ctr_set_if_equals := set_if_equals;
|}.
Next Obligation. intros rid addr c. unfold wp; simpl. split; [done|]. by intros ? [= <-]. Qed.
Next Obligation.
  intros rid addr c. unfold wp; simpl. left. split; [done|]. by intros ? [= <-].
Qed.
Next Obligation.
  intros rid addr c. unfold wp, decrement.
  destruct (c !! (rid, addr)) as [n|] eqn:Hn; [left|right; eauto].
  exists n. split_and!; [done|done|]. by intros ? [= <-].
Qed.
Next Obligation. intros rid addr v c. left. done. Qed.
Next Obligation.
  intros rid addr floor c. unfold wp; simpl. left.
  assert ((if default floor (c !! (rid, addr)) <? floor then floor
           else default floor (c !! (rid, addr))) =
          match c !! (rid, addr) with Some cur => Z.max cur floor | None => floor end) as ->.
  { destruct (c !! (rid, addr)); simpl; [destruct (Z.ltb_spec z floor); lia|].
    by rewrite Z.ltb_irrefl. }
  split; [done|]. by intros ? [= <-].
Qed.
Next Obligation.
  intros rid addr e v c. unfold wp, set_if_equals.
  destruct (c !! (rid, addr)) as [n|] eqn:Hn; [|right; done].
  destruct (Z.eqb_spec n e) as [->|]; [|right; done].
  destruct (Z.ltb_spec v e); [|right; done].
  left. split_and!; [done|lia|done|]. by intros ? [= <-].
Qed.
End MemCounter.

(** ** The service ([services/transaction_counter/mod.rs]) *)

Module CounterService.
Section Service.
Context `{TransactionCounter C} (relayer_id address : string).

Inductive TransactionCounterError : Type :=
| SequenceNotFound (relayer_id address : string)
| NotFound (msg : string).

Definition not_found_of (e : RepositoryError.t) : TransactionCounterError :=
  NotFound (repository_error_display e).

Definition get : M C TransactionCounterError (option Z) :=
  map_errM not_found_of (ctr_get relayer_id address).
Definition get_and_increment : M C TransactionCounterError Z :=
  map_errM not_found_of (ctr_get_and_increment relayer_id address).
Definition decrement : M C TransactionCounterError Z :=
  map_errM not_found_of (ctr_decrement relayer_id address).
Definition set (value : Z) : M C TransactionCounterError unit :=
  map_errM not_found_of (ctr_set relayer_id address value).
Definition sync_floor (floor : Z) : M C TransactionCounterError Z :=
  map_errM not_found_of (ctr_sync_floor relayer_id address floor).
Definition set_if_equals (expected value : Z) : M C TransactionCounterError bool :=
  map_errM not_found_of (ctr_set_if_equals relayer_id address expected value).
End Service.
End CounterService.
