(* ===== verification/RedisBase.v ===== *)
(** * Redis

    The part of Redis the repositories use, and [repositories/redis_base.rs].  A keyspace holds
    the key families of the transaction repository, each under the parameters of its key
    builder ([Keys], with the proof that the built keys never collide); the commands are those
    the code sends, with their documented effect.  Connections and commands can fail: the state
    carries a schedule of events, consumed one per connection and one per round trip, that says
    which of them fail and whether the server had already executed the command. *)

From S2P Require Import Prelude Decimal Errors Json Model.
Open Scope Z_scope.

#[global] Instance TransactionStatus_countable : Countable TransactionStatus.
Proof.
  refine (inj_countable'
    (fun s => match s with
              | Canceled => 0 | Pending => 1 | Sent => 2 | Submitted => 3 | Mined => 4
              | Confirmed => 5 | Failed => 6 | Expired => 7 end)
    (fun n => if n =? 0 then Canceled else if n =? 1 then Pending else if n =? 2 then Sent
              else if n =? 3 then Submitted else if n =? 4 then Mined
              else if n =? 5 then Confirmed else if n =? 6 then Failed else Expired) _).
  by intros [].
Defined.

(** ** Errors ([repositories/redis_base.rs]) *)

Module ErrorKind.
Inductive t : Type :=
| TypeError | AuthenticationFailed | NoScriptError | ReadOnly | ExecAbortError
| BusyLoadingError | ExtensionError | OtherKind.
End ErrorKind.

Record RedisError := {
  err_kind : ErrorKind.t;
  err_display : string;
}.

Inductive TimeoutType : Type := Wait | Create | Recycle.

Inductive PoolError : Type :=
| PoolTimeout (t : TimeoutType)
| PoolBackend (e : RedisError)
| PoolClosed
| PoolNoRuntimeSpecified
| PoolOther (display : string).

Definition map_redis_error (e : RedisError) (context : string) : RepositoryError.t :=
  let error := err_display e in
  match err_kind e with
  | ErrorKind.TypeError =>
      RepositoryError.InvalidData
        ("Redis data type error in operation '" +:+ context +:+ "': " +:+ error)
  | ErrorKind.AuthenticationFailed =>
      RepositoryError.InvalidData "Redis authentication failed"
  | ErrorKind.NoScriptError =>
      RepositoryError.InvalidData
        ("Redis script error in operation '" +:+ context +:+ "': " +:+ error)
  | ErrorKind.ReadOnly =>
      RepositoryError.InvalidData
        ("Redis is read-only in operation '" +:+ context +:+ "': " +:+ error)
  | ErrorKind.ExecAbortError =>
      RepositoryError.InvalidData
        ("Redis transaction aborted in operation '" +:+ context +:+ "': " +:+ error)
  | ErrorKind.BusyLoadingError =>
      RepositoryError.InvalidData
        ("Redis is busy in operation '" +:+ context +:+ "': " +:+ error)
  | ErrorKind.ExtensionError =>
      RepositoryError.InvalidData
        ("Redis extension error in operation '" +:+ context +:+ "': " +:+ error)
  | ErrorKind.OtherKind =>
      RepositoryError.Other ("Redis operation '" +:+ context +:+ "' failed: " +:+ error)
  end.

Definition map_pool_error (e : PoolError) (context : string) : RepositoryError.t :=
  match e with
  | PoolTimeout timeout =>
      let detail := match timeout with
                    | Wait => "waiting for an available connection"
                    | Create => "creating a new connection"
                    | Recycle => "recycling a connection"
                    end in
      RepositoryError.ConnectionError
        ("Redis pool timeout while " +:+ detail +:+ " in operation '" +:+ context +:+ "'")
  | PoolBackend redis_err => map_redis_error redis_err context
  | PoolClosed => RepositoryError.ConnectionError "Redis pool is closed"
  | PoolNoRuntimeSpecified =>
      RepositoryError.ConnectionError "Redis pool has no runtime specified"
  | PoolOther display =>
      RepositoryError.ConnectionError
        ("Redis pool error in operation '" +:+ context +:+ "': " +:+ display)
  end.

(** The message of a failed [serde_json::from_str] and the length of a document's text. *)
Class JsonText := {
  serde_message : json -> string;
  json_length : json -> Z;
}.

Definition deserialize_entity `{JsonText} {A} (dec : json -> option A) (j : json)
    (entity_id entity_type : string) : result RepositoryError.t A :=
  match dec j with
  | Some a => Ok a
  | None =>
      Err (RepositoryError.InvalidData
        ("Failed to deserialize " +:+ entity_type +:+ " " +:+ entity_id +:+ ": " +:+
         serde_message j +:+ " (JSON length: " +:+ print_dec (json_length j) +:+ ")"))
  end.

(** ** Keys ([RedisTransactionRepository]'s key builders) *)

(** [Display] of a status is the name of the variant. *)
Definition status_display (s : TransactionStatus) : string :=
  match s with
  | Canceled => "Canceled" | Pending => "Pending" | Sent => "Sent" | Submitted => "Submitted"
  | Mined => "Mined" | Confirmed => "Confirmed" | Failed => "Failed" | Expired => "Expired"
  end.

Module Keys.
Definition RELAYER_PREFIX : string := "relayer".
Definition TX_PREFIX : string := "tx".
Definition STATUS_PREFIX : string := "status".
Definition STATUS_SORTED_PREFIX : string := "status_sorted".
Definition NONCE_PREFIX : string := "nonce".
Definition IDEMPOTENCY_PREFIX : string := "idempotency".
Definition TX_TO_RELAYER_PREFIX : string := "tx_to_relayer".
Definition RELAYER_LIST_KEY : string := "relayer_list".
Definition TX_BY_CREATED_AT_PREFIX : string := "tx_by_created_at".

Section Builders.
Context (key_prefix : string).

Definition tx_key (relayer_id tx_id : string) : string :=
  key_prefix +:+ ":" +:+ RELAYER_PREFIX +:+ ":" +:+ relayer_id +:+ ":" +:+ TX_PREFIX +:+ ":" +:+
  tx_id.

Definition tx_to_relayer_key (tx_id : string) : string :=
  key_prefix +:+ ":" +:+ RELAYER_PREFIX +:+ ":" +:+ TX_TO_RELAYER_PREFIX +:+ ":" +:+ tx_id.

Definition relayer_status_key_suffix (status : TransactionStatus) : string :=
  ":" +:+ STATUS_PREFIX +:+ ":" +:+ status_display status.

Definition relayer_status_sorted_key_suffix (status : TransactionStatus) : string :=
  ":" +:+ STATUS_SORTED_PREFIX +:+ ":" +:+ status_display status.

Definition relayer_status_key (relayer_id : string) (status : TransactionStatus) : string :=
  key_prefix +:+ ":" +:+ RELAYER_PREFIX +:+ ":" +:+ relayer_id +:+
  relayer_status_key_suffix status.

Definition relayer_status_sorted_key (relayer_id : string) (status : TransactionStatus)
  : string :=
  key_prefix +:+ ":" +:+ RELAYER_PREFIX +:+ ":" +:+ relayer_id +:+
  relayer_status_sorted_key_suffix status.

Definition relayer_nonce_key (relayer_id : string) (nonce : Z) : string :=
  key_prefix +:+ ":" +:+ RELAYER_PREFIX +:+ ":" +:+ relayer_id +:+ ":" +:+ NONCE_PREFIX +:+
  ":" +:+ print_dec nonce.

Definition relayer_idempotency_key (relayer_id key : string) : string :=
  key_prefix +:+ ":" +:+ RELAYER_PREFIX +:+ ":" +:+ relayer_id +:+ ":" +:+
  IDEMPOTENCY_PREFIX +:+ ":" +:+ key.

Definition relayer_list_key : string := key_prefix +:+ ":" +:+ RELAYER_LIST_KEY.

Definition relayer_tx_by_created_at_key_suffix : string := ":" +:+ TX_BY_CREATED_AT_PREFIX.

Definition relayer_tx_by_created_at_key (relayer_id : string) : string :=
  key_prefix +:+ ":" +:+ RELAYER_PREFIX +:+ ":" +:+ relayer_id +:+
  relayer_tx_by_created_at_key_suffix.

(** What the scripts build the transaction key from: the lookup key, and the text before and
    after the relayer id they read there. *)
Definition tx_key_parts (tx_id : string) : string * string * string :=
  (tx_to_relayer_key tx_id, key_prefix +:+ ":" +:+ RELAYER_PREFIX +:+ ":",
   ":" +:+ TX_PREFIX +:+ ":" +:+ tx_id).

(** *** Keys do not collide *)

(** The keys of the repository, by family. *)
Inductive key : Type :=
| KTx (relayer_id tx_id : string)
| KReverse (tx_id : string)
| KStatus (relayer_id : string) (status : TransactionStatus)
| KSorted (relayer_id : string) (status : TransactionStatus)
| KNonce (relayer_id : string) (nonce : Z)
| KIdempotency (relayer_id key : string)
| KList
| KCreated (relayer_id : string).

Definition key_string (k : key) : string :=
  match k with
  | KTx rid id => tx_key rid id
  | KReverse id => tx_to_relayer_key id
  | KStatus rid st => relayer_status_key rid st
  | KSorted rid st => relayer_status_sorted_key rid st
  | KNonce rid n => relayer_nonce_key rid n
  | KIdempotency rid k => relayer_idempotency_key rid k
  | KList => relayer_list_key
  | KCreated rid => relayer_tx_by_created_at_key rid
  end.

(** The script's concatenation is the key. *)
Lemma tx_key_parts_resolve relayer_id tx_id :
  let '(lookup, before, after) := tx_key_parts tx_id in
  lookup = tx_to_relayer_key tx_id /\ before +:+ relayer_id +:+ after = tx_key relayer_id tx_id.
Proof. split; [done|]. unfold tx_key. by rewrite !string_app_assoc. Qed.

(** Relayer ids match [^[a-zA-Z0-9-_]+$] and transaction ids are UUIDs: neither has a colon,
    and no transaction id is the suffix of the creation index. *)
Definition valid_key (k : key) : Prop :=
  match k with
  | KTx rid id => no_colon rid = true /\ no_colon id = true
  | KReverse id => no_colon id = true /\ id <> TX_BY_CREATED_AT_PREFIX
  | KStatus rid _ | KSorted rid _ | KIdempotency rid _ | KCreated rid => no_colon rid = true
  | KNonce rid n => no_colon rid = true /\ 0 <= n <= u64_max
  | KList => True
  end.

(** A key other than the list of relayers, after the common prefix: up to the first colon, and
    the rest. *)
Definition key_parts (k : key) : option (string * string) :=
  match k with
  | KTx rid id => Some (rid, TX_PREFIX +:+ ":" +:+ id)
  | KReverse id => Some (TX_TO_RELAYER_PREFIX, id)
  | KStatus rid st => Some (rid, STATUS_PREFIX +:+ ":" +:+ status_display st)
  | KSorted rid st => Some (rid, STATUS_SORTED_PREFIX +:+ ":" +:+ status_display st)
  | KNonce rid n => Some (rid, NONCE_PREFIX +:+ ":" +:+ print_dec n)
  | KIdempotency rid k => Some (rid, IDEMPOTENCY_PREFIX +:+ ":" +:+ k)
  | KList => None
  | KCreated rid => Some (rid, TX_BY_CREATED_AT_PREFIX)
  end.

Lemma key_string_parts k :
  key_string k =
  key_prefix +:+ ":" +:+
  match key_parts k with
  | Some (a, b) => RELAYER_PREFIX +:+ ":" +:+ a +:+ ":" +:+ b
  | None => RELAYER_LIST_KEY
  end.
Proof. by destruct k. Qed.

Lemma key_parts_no_colon k a b : valid_key k -> key_parts k = Some (a, b) -> no_colon a = true.
Proof. destruct k; simpl; intros Hv Hp; simplify_eq; try done; apply Hv. Qed.

Lemma status_display_inj a b : status_display a = status_display b -> a = b.
Proof. by destruct a, b. Qed.

Lemma key_parts_inj k k' :
  valid_key k -> valid_key k' -> key_parts k = key_parts k' -> k = k'.
Proof.
  intros Hk Hk' Hp. destruct k, k'; simpl in Hk, Hk', Hp; try done; simplify_eq/=;
    try (by destruct_and?; simplify_eq).
  - f_equal. by apply status_display_inj.
  - f_equal. by apply status_display_inj.
  - f_equal. apply print_dec_inj; [apply u64_printable; lia..|done].
Qed.

(** Distinct keys of the repository are distinct strings. *)
Lemma key_string_inj k k' :
  valid_key k -> valid_key k' -> key_string k = key_string k' -> k = k'.
Proof.
  intros Hk Hk'. rewrite !key_string_parts. intros He.
  do 2 apply (inj (String.append _)) in He.
  destruct (key_parts k) as [[a b]|] eqn:E; destruct (key_parts k') as [[a' b']|] eqn:E'; try done.
  - apply key_parts_inj; [done..|]. do 2 apply (inj (String.append _)) in He.
    destruct (app_colon_inj a b a' b') as [-> ->]; [..|done|congruence].
    + exact (key_parts_no_colon k a b Hk E).
    + exact (key_parts_no_colon k' a' b' Hk' E').
  - destruct k, k'; simpl in *; simplify_eq; done.
Qed.
End Builders.
End Keys.

(** ** The keyspace

    A sorted set maps members to scores; scores are whole milliseconds, exact as [f64].  A
    missing set or sorted set is an empty one, as Redis has it. *)

Abbreviation zset := (gmap string Z) (only parsing).

Record keyspace := {
  bodies : gmap (string * string) json;
  reverse : gmap string string;
  legacy : gmap (string * TransactionStatus) (gset string);
  sorted : gmap (string * TransactionStatus) zset;
  created : gmap string zset;
  nonce_index : gmap (string * Z) string;
  idem : gmap (string * string) (json * Z);
  relayer_list : gset string;
}.

Definition empty_keyspace : keyspace :=
  {| bodies := ∅; reverse := ∅; legacy := ∅; sorted := ∅; created := ∅; nonce_index := ∅;
     idem := ∅; relayer_list := ∅ |}.

Definition set_bodies f (k : keyspace) : keyspace :=
  {| bodies := f (bodies k); reverse := reverse k; legacy := legacy k; sorted := sorted k;
     created := created k; nonce_index := nonce_index k; idem := idem k;
     relayer_list := relayer_list k |}.
Definition set_reverse f (k : keyspace) : keyspace :=
  {| bodies := bodies k; reverse := f (reverse k); legacy := legacy k; sorted := sorted k;
     created := created k; nonce_index := nonce_index k; idem := idem k;
     relayer_list := relayer_list k |}.
Definition set_legacy f (k : keyspace) : keyspace :=
  {| bodies := bodies k; reverse := reverse k; legacy := f (legacy k); sorted := sorted k;
     created := created k; nonce_index := nonce_index k; idem := idem k;
     relayer_list := relayer_list k |}.
Definition set_sorted f (k : keyspace) : keyspace :=
  {| bodies := bodies k; reverse := reverse k; legacy := legacy k; sorted := f (sorted k);
     created := created k; nonce_index := nonce_index k; idem := idem k;
     relayer_list := relayer_list k |}.
Definition set_created f (k : keyspace) : keyspace :=
  {| bodies := bodies k; reverse := reverse k; legacy := legacy k; sorted := sorted k;
     created := f (created k); nonce_index := nonce_index k; idem := idem k;
     relayer_list := relayer_list k |}.
Definition set_nonce_index f (k : keyspace) : keyspace :=
  {| bodies := bodies k; reverse := reverse k; legacy := legacy k; sorted := sorted k;
     created := created k; nonce_index := f (nonce_index k); idem := idem k;
     relayer_list := relayer_list k |}.
Definition set_idem f (k : keyspace) : keyspace :=
  {| bodies := bodies k; reverse := reverse k; legacy := legacy k; sorted := sorted k;
     created := created k; nonce_index := nonce_index k; idem := f (idem k);
     relayer_list := relayer_list k |}.
Definition set_relayer_list f (k : keyspace) : keyspace :=
  {| bodies := bodies k; reverse := reverse k; legacy := legacy k; sorted := sorted k;
     created := created k; nonce_index := nonce_index k; idem := idem k;
     relayer_list := f (relayer_list k) |}.

(** *** Commands, as updates of the keyspace *)

Definition cmd : Type := keyspace -> keyspace.

Definition SET_body rid id (v : json) : cmd := set_bodies (insert (rid, id) v).
Definition DEL_body rid id : cmd := set_bodies (delete (rid, id)).
Definition SET_reverse id rid : cmd := set_reverse (insert id rid).
Definition DEL_reverse id : cmd := set_reverse (delete id).
Definition SET_nonce rid n id : cmd := set_nonce_index (insert (rid, n) id).
Definition DEL_nonce rid n : cmd := set_nonce_index (delete (rid, n)).
Definition SREM_legacy rid st id : cmd :=
  set_legacy (fun m => <[(rid, st) := (m !!! (rid, st)) ∖ {[id]}]> m).
Definition DEL_legacy rid st : cmd := set_legacy (delete (rid, st)).
Definition ZADD_sorted rid st id score : cmd :=
  set_sorted (fun m => <[(rid, st) := <[id := score]> (m !!! (rid, st))]> m).
Definition ZREM_sorted rid st id : cmd :=
  set_sorted (fun m => <[(rid, st) := delete id (m !!! (rid, st))]> m).
Definition ZADD_created rid id score : cmd :=
  set_created (fun m => <[rid := <[id := score]> (m !!! rid)]> m).
Definition ZREM_created rid id : cmd :=
  set_created (fun m => <[rid := delete id (m !!! rid)]> m).
Definition DEL_created rid : cmd := set_created (delete rid).
Definition SADD_relayer rid : cmd := set_relayer_list (fun s => {[rid]} ∪ s).
Definition DEL_relayer_list : cmd := set_relayer_list (fun _ => ∅).

(** A pipeline ([MULTI]/[EXEC]): all its commands at once. *)
Definition pipeline (cmds : list cmd) : cmd := fun k => fold_left (fun k c => c k) cmds k.

(** [ZRANGE key start stop]: the members by score, then by name; a negative index counts from
    the end. *)
Definition zorder (a b : string * Z) : comparison :=
  then_with (snd a ?= snd b) (String.compare (fst a) (fst b)).

Definition zmembers (z : zset) : list (string * Z) := sorted_by zorder (map_to_list z).

Definition zrange {A} (start stop : Z) (l : list A) : list A :=
  let len := Z.of_nat (length l) in
  let start := if start <? 0 then Z.max 0 (len + start) else start in
  let stop := if stop <? 0 then len + stop else Z.min stop (len - 1) in
  if stop <? start then [] else
  take (Z.to_nat (stop - start + 1)) (drop (Z.to_nat start) l).

Definition ZRANGE (z : zset) (start stop : Z) (rev : bool) : list string :=
  zrange start stop ((if rev then List.rev (zmembers z) else zmembers z).*1).

(** [ZRANGEBYSCORE key -inf max LIMIT offset count] *)
Definition ZRANGEBYSCORE (z : zset) (max : Z) (offset count : nat) : list string :=
  take count (drop offset (List.filter (fun kv => snd kv <=? max) (zmembers z)).*1).

Definition ZCARD (z : zset) : Z := Z.of_nat (size z).

(** [SMEMBERS] lists a set in no specified order. *)
Class SetOrder := {
  SMEMBERS : gset string -> list string;
  SMEMBERS_perm : forall X, SMEMBERS X ≡ₚ elements X;
}.

(** ** Connections

    Writes, scripts and reads that must be fresh go to the primary; the other reads go to the
    reader pool, which is the primary unless a replica is configured. *)

Inductive event : Type :=
| EvOk
| EvPool (e : PoolError)
| EvBefore (e : RedisError)
| EvAfter (e : RedisError).

Inductive pool : Type := Primary | Reader.

Module Redis.
(** A server whose keyspace is [K]. *)
Record server (K : Type) := {
  primary : K;
  replica : option K;
  events : list event;
}.
Arguments primary {K} _.
Arguments replica {K} _.
Arguments events {K} _.

Abbreviation state := (server keyspace).
End Redis.

Section Connections.
Context {K : Type}.

Definition set_primary (k : K) (s : Redis.server K) : Redis.server K :=
  {| Redis.primary := k; Redis.replica := Redis.replica s; Redis.events := Redis.events s |}.

(** The next event; an exhausted schedule means no failure. *)
Definition next_event (s : Redis.server K) : event * Redis.server K :=
  match Redis.events s with
  | [] => (EvOk, s)
  | e :: es => (e, {| Redis.primary := Redis.primary s; Redis.replica := Redis.replica s;
                      Redis.events := es |})
  end.

Definition keyspace_of (p : pool) (s : Redis.server K) : K :=
  match p, Redis.replica s with
  | Reader, Some k => k
  | _, _ => Redis.primary s
  end.

Definition get_connection (context : string) : M (Redis.server K) RepositoryError.t unit := fun s =>
  match next_event s with
  | (EvPool e, s') => (Err (map_pool_error e context), s')
  | (_, s') => (Ok tt, s')
  end.

(** A round trip that runs [f] on the primary. *)
Definition invoke {A} (f : K -> result RedisError A * K)
  : M (Redis.server K) RedisError A := fun s =>
  match next_event s with
  | (EvBefore e, s') => (Err e, s')
  | (EvAfter e, s') => (Err e, set_primary (snd (f (Redis.primary s'))) s')
  | (_, s') => let '(r, k) := f (Redis.primary s') in (r, set_primary k s')
  end.

(** A round trip that only reads. *)
Definition query {A} (p : pool) (f : K -> A) (context : string)
  : M (Redis.server K) RepositoryError.t A := fun s =>
  match next_event s with
  | (EvBefore e, s') | (EvAfter e, s') => (Err (map_redis_error e context), s')
  | (_, s') => (Ok (f (keyspace_of p s')), s')
  end.

(** *** Round trips *)

(** [moves R]: the keyspace of the primary moves by [R]; the replica is as it was. *)
Definition moves (R : K -> K -> Prop) (s s' : Redis.server K) : Prop :=
  R (Redis.primary s) (Redis.primary s') /\ Redis.replica s' = Redis.replica s.

#[global] Instance moves_preorder R `{!PreOrder R} : PreOrder (moves R).
Proof.
  split.
  - intros s. split; reflexivity.
  - intros a b c [HR He] [HR' He']. split; [by etransitivity|congruence].
Qed.

Lemma next_event_same (s : Redis.server K) e s' :
  next_event s = (e, s') ->
  Redis.primary s' = Redis.primary s /\ Redis.replica s' = Redis.replica s.
Proof. unfold next_event. destruct (Redis.events s); intros [= <- <-]; done. Qed.

Lemma wp_get_connection context (Q : result RepositoryError.t unit -> Redis.server K -> Prop) s :
  (forall r s', moves eq s s' -> Q r s') -> wp (get_connection context) Q s.
Proof.
  intros HQ. unfold wp, get_connection. destruct (next_event s) as [e s'] eqn:E.
  apply next_event_same in E as [Hp Hr]. destruct e; apply HQ; by split.
Qed.

Lemma wp_query {A} p (f : K -> A) context
    (Q : result RepositoryError.t A -> Redis.server K -> Prop) s :
  (forall e s', moves eq s s' -> Q (Err e) s') ->
  (forall s', moves eq s s' -> Q (Ok (f (keyspace_of p s))) s') -> wp (query p f context) Q s.
Proof.
  intros He Hq. unfold wp, query. destruct (next_event s) as [e s'] eqn:E.
  apply next_event_same in E as [Hp Hr].
  assert (moves eq s s') as Hm by by split.
  assert (keyspace_of p s' = keyspace_of p s) as Hk by (unfold keyspace_of; by rewrite Hp, Hr).
  destruct e; simpl; rewrite ?Hk; auto.
Qed.

(** The server may not have run the command, or have run it and lost its reply. *)
Lemma wp_invoke {A} (f : K -> result RedisError A * K)
    (Q : result RedisError A -> Redis.server K -> Prop) s :
  (forall e s', moves eq s s' -> Q (Err e) s') ->
  (forall r s', moves (fun k k' => k' = snd (f k)) s s' ->
     (exists e, r = Err e) \/ r = fst (f (Redis.primary s)) -> Q r s') ->
  wp (invoke f) Q s.
Proof.
  intros He Hq. unfold wp, invoke. destruct (next_event s) as [e s'] eqn:E.
  apply next_event_same in E as [Hp Hr].
  destruct e; [| |by apply He|]; rewrite ?Hp; try (destruct (f (Redis.primary s)) as [r k] eqn:Ef);
    simpl; apply Hq; try (split; simpl; [|done]); rewrite ?Ef; eauto.
Qed.
End Connections.

(** The programs of the transaction repository. *)
Definition Repo (A : Type) : Type := M Redis.state RepositoryError.t A.

Definition exec (cmds : list cmd) (context : string) : Repo unit :=
  map_errM (fun e => map_redis_error e context) (invoke (fun k => (Ok tt, pipeline cmds k))).
