(* ===== verification/CounterRedis.v ===== *)
(** * The Redis transaction counter

    [transaction_counter_redis.rs]: INCR/DECR commands and Lua scripts on decimal strings, with
    connections and commands that fail, and a replica that answers reads; and the proof that the
    counter behaves as the in-memory one, but for failed calls, which may have reached the store
    or not, and for reads, which may lag. *)

From S2P Require Import Prelude Decimal Errors Json Model Counter RedisBase.
Open Scope Z_scope.

(** ** Operations *)

Module RedisCounter.

Abbreviation keys := (gmap string string) (only parsing).
Abbreviation state := (Redis.server (gmap string string)) (only parsing).

(** What the server and the client library answer.  The server refuses [INCR] and [DECR] on a
    value that is no signed 64-bit integer, or whose result is none; the library refuses a reply
    it cannot convert.  A full [SCAN] takes some number of rounds, and has returned every key
    there is. *)
Class RedisReplies := {
  not_an_integer : RedisError;
  conversion_error : string -> RedisError;
  SCAN : gmap string string -> list (list string);
  SCAN_complete : forall k key, key ∈ concat (SCAN k) <-> is_Some (k !! key);
}.

(** The server reads only canonical decimals as integers. *)
Definition string2ll (s : string) : option Z :=
  match parse_i64 s with
  | Some n => if String.eqb (print_signed n) s then Some n else None
  | None => None
  end.

Section Redis.
Context `{RedisReplies} (key_prefix : string).

Definition C (A : Type) : Type := M state RepositoryError.t A.

Definition COUNTER_PREFIX : string := "transaction_counter".

Definition counter_key (rid addr : string) : string :=
  key_prefix +:+ ":" +:+ COUNTER_PREFIX +:+ ":" +:+ rid +:+ ":" +:+ addr.

(** [INCR] and [DECR]; a missing key counts as 0. *)
Definition INCRBY (key : string) (d : Z) (k : keys) : result RedisError Z * keys :=
  match string2ll (default "0"%string (k !! key)) with
  | Some n =>
      if (- 2 ^ 63 <=? n + d) && (n + d <=? i64_max)
      then (Ok (n + d), <[key := print_signed (n + d)]> k)
      else (Err not_an_integer, k)
  | None => (Err not_an_integer, k)
  end.

Definition SET (key value : string) (k : keys) : result RedisError unit * keys :=
  (Ok tt, <[key := value]> k).

(** A command on the primary. *)
Definition command {A} (f : keys -> result RedisError A * keys) (context : string) : C A :=
  map_errM (fun e => map_redis_error e context) (invoke f).

(** A string reply read as a [u64]. *)
Definition to_u64 (context reply : string) : result RepositoryError.t Z :=
  ok_or (parse_u64 reply) (map_redis_error (conversion_error reply) context).

(** The argument checks that open every operation. *)
Definition check_args {A} (rid addr : string) (k : C A) : C A :=
  if String.eqb rid "" then
    failM (RepositoryError.InvalidData "Relayer ID cannot be empty")
  else if String.eqb addr "" then
    failM (RepositoryError.InvalidData "Address cannot be empty")
  else k.

Definition get (rid addr : string) : C (option Z) :=
  check_args rid addr (
    let key := counter_key rid addr in
    do* get_connection "get" in
    let* value := query Reader (fun k => k !! key) "get_counter" in
    match value with
    | None => retM None
    | Some v => let* n := liftM (to_u64 "get_counter" v) in retM (Some n)
    end).

(** The library converts an integer reply with [as u64]. *)
Definition get_and_increment (rid addr : string) : C Z :=
  check_args rid addr (
    let key := counter_key rid addr in
    do* get_connection "get_and_increment" in
    let* reply := command (INCRBY key 1) "get_and_increment" in
    let new_value := wrapu 64 reply in
    retM (sat_sub new_value 1)).

Definition decrement (rid addr : string) : C Z :=
  check_args rid addr (
    let key := counter_key rid addr in
    do* get_connection "decrement" in
    let* exists_ := query Primary (fun k => bool_decide (is_Some (k !! key))) "check_counter_exists" in
    if negb exists_ then
      failM (RepositoryError.NotFound
        ("Counter not found for relayer " +:+ rid +:+ " and address " +:+ addr))
    else
    let* new_value := command (INCRBY key (-1)) "decrement_counter" in
    if new_value <? 0 then
      do* command (SET key (print_dec 0)) "correct_negative_counter" in
      retM 0
    else retM new_value).

Definition set (rid addr : string) (value : Z) : C unit :=
  check_args rid addr (
    let key := counter_key rid addr in
    do* get_connection "set" in
    command (SET key (print_dec value)) "set_counter").

(** [SYNC_FLOOR_LUA] *)
Definition sync_floor_lua (key arg : string) (k : keys) : result RedisError string * keys :=
  match k !! key with
  | None => (Ok arg, <[key := arg]> k)
  | Some cur => if numlt cur arg then (Ok arg, <[key := arg]> k) else (Ok cur, k)
  end.

Definition sync_floor (rid addr : string) (floor : Z) : C Z :=
  check_args rid addr (
    let key := counter_key rid addr in
    do* get_connection "sync_floor" in
    let* reply := command (sync_floor_lua key (print_dec floor)) "sync_floor" in
    liftM (to_u64 "sync_floor" reply)).

(** [SET_IF_EQUALS_LUA] *)
Definition set_if_equals_lua (key expected value : string) (k : keys)
  : result RedisError bool * keys :=
  match k !! key with
  | Some cur =>
      if String.eqb cur expected && numlt value expected
      then (Ok true, <[key := value]> k)
      else (Ok false, k)
  | None => (Ok false, k)
  end.

Definition set_if_equals (rid addr : string) (expected value : Z) : C bool :=
  check_args rid addr (
    let key := counter_key rid addr in
    do* get_connection "set_if_equals" in
    command (set_if_equals_lua key (print_dec expected) (print_dec value)) "set_if_equals").

(** [MATCH prefix:transaction_counter:*]; the key prefix has no character that is special in a
    pattern. *)
Definition matches (key : string) : bool :=
  starts_with key (key_prefix +:+ ":" +:+ COUNTER_PREFIX +:+ ":").

Definition scan (rounds : list (list string)) : C (list string) :=
  foldM (fun all_keys round =>
    let* keys := query Primary (fun _ => List.filter matches round) "drop_all_entries_scan" in
    retM (all_keys ++ keys)) [] rounds.

Definition drop_all_entries : C unit :=
  do* get_connection "drop_all_entries" in
  let* rounds := getsM (fun s => SCAN (Redis.primary s)) in
  let* all_keys := scan rounds in
  match all_keys with
  | [] => retM tt
  | _ => command (fun k => (Ok tt, foldr delete k all_keys)) "drop_all_entries_delete"
  end.
End Redis.
End RedisCounter.

(** ** The abstract counter

    Two maps: what writers work on, and what readers see if there is a replica.  A call is done
    as the in-memory counter does it, or fails, and then has had no effect or the effect of the
    call. *)

Section Refinement.
Context `{RedisCounter.RedisReplies} (key_prefix : string).

(** The calls of the trait, with their results in one type. *)
Inductive ctr_op : Type :=
| CGet (rid addr : string)
| CIncr (rid addr : string)
| CDecr (rid addr : string)
| CSet (rid addr : string) (value : Z)
| CFloor (rid addr : string) (floor : Z)
| CCas (rid addr : string) (expected value : Z)
| CDrop.

Inductive ctr_reply : Type :=
| ROpt (o : option Z)
| RNum (n : Z)
| RBool (b : bool)
| RUnit
| RErr.

Definition reply_of {A} (f : A -> ctr_reply) (r : result RepositoryError.t A) : ctr_reply :=
  match r with Ok a => f a | Err _ => RErr end.

Definition run_op {S A} (f : A -> ctr_reply) (c : M S RepositoryError.t A) (s : S)
  : ctr_reply * S := let '(r, s') := c s in (reply_of f r, s').

Definition mem_exec (o : ctr_op) : MemCounter.state -> ctr_reply * MemCounter.state :=
  match o with
  | CGet rid addr => run_op ROpt (MemCounter.get rid addr)
  | CIncr rid addr => run_op RNum (MemCounter.get_and_increment rid addr)
  | CDecr rid addr => run_op RNum (MemCounter.decrement rid addr)
  | CSet rid addr v => run_op (fun _ => RUnit) (MemCounter.set rid addr v)
  | CFloor rid addr f => run_op RNum (MemCounter.sync_floor rid addr f)
  | CCas rid addr e v => run_op RBool (MemCounter.set_if_equals rid addr e v)
  | CDrop => run_op (fun _ => RUnit) MemCounter.drop_all_entries
  end.

Definition redis_exec (o : ctr_op) : RedisCounter.state -> ctr_reply * RedisCounter.state :=
  match o with
  | CGet rid addr => run_op ROpt (RedisCounter.get key_prefix rid addr)
  | CIncr rid addr => run_op RNum (RedisCounter.get_and_increment key_prefix rid addr)
  | CDecr rid addr => run_op RNum (RedisCounter.decrement key_prefix rid addr)
  | CSet rid addr v => run_op (fun _ => RUnit) (RedisCounter.set key_prefix rid addr v)
  | CFloor rid addr f => run_op RNum (RedisCounter.sync_floor key_prefix rid addr f)
  | CCas rid addr e v => run_op RBool (RedisCounter.set_if_equals key_prefix rid addr e v)
  | CDrop => run_op (fun _ => RUnit) (RedisCounter.drop_all_entries key_prefix)
  end.

Record counters := {
  written : MemCounter.state;
  lagging : option MemCounter.state;
}.

Definition set_written (v : MemCounter.state) (c : counters) : counters :=
  {| written := v; lagging := lagging c |}.

(** The replica catches up. *)
Definition caught_up (c : counters) : counters :=
  {| written := written c; lagging := (fun _ => written c) <$> lagging c |}.

Definition seen_by (o : ctr_op) (c : counters) : MemCounter.state :=
  match o with CGet _ _ => default (written c) (lagging c) | _ => written c end.

Definition after (o : ctr_op) (c : counters) : counters :=
  set_written (snd (mem_exec o (written c))) c.

Inductive action : Type :=
| Call (o : ctr_op)
| Replicate.

(** [abstract_run n c acts rs c']: from [c], the actions [acts] may get the replies [rs] and lead
    to [c'], with [n] calls failing. *)
Inductive abstract_run : nat -> counters -> list action -> list ctr_reply -> counters -> Prop :=
| run_nil c : abstract_run 0 c [] [] c
| run_done n c o acts rs c' :
    abstract_run n (after o c) acts rs c' ->
    abstract_run n c (Call o :: acts) (fst (mem_exec o (seen_by o c)) :: rs) c'
| run_refused n c o acts rs c' :
    abstract_run n c acts rs c' -> abstract_run (S n) c (Call o :: acts) (RErr :: rs) c'
| run_lost n c o acts rs c' :
    abstract_run n (after o c) acts rs c' ->
    abstract_run (S n) c (Call o :: acts) (RErr :: rs) c'
| run_replicate n c acts rs c' :
    abstract_run n (caught_up c) acts rs c' -> abstract_run n c (Replicate :: acts) rs c'.

(** ** Runs of the Redis counter *)

Definition replicate_now (s : RedisCounter.state) : RedisCounter.state :=
  {| Redis.primary := Redis.primary s; Redis.replica := (fun _ => Redis.primary s) <$> Redis.replica s;
     Redis.events := Redis.events s |}.

Fixpoint redis_run (acts : list action) (s : RedisCounter.state)
  : list ctr_reply * RedisCounter.state :=
  match acts with
  | [] => ([], s)
  | Call o :: acts' =>
      let '(r, s') := redis_exec o s in
      let '(rs, s'') := redis_run acts' s' in (r :: rs, s'')
  | Replicate :: acts' => redis_run acts' (replicate_now s)
  end.

Definition is_failure (e : event) : bool := match e with EvOk => false | _ => true end.
Definition failures (s : RedisCounter.state) : nat :=
  length (List.filter is_failure (Redis.events s)).

(** Relayer ids contain no colon (they match [^[a-zA-Z0-9-_]+$]), and neither part is empty. *)
Definition valid_key (rid addr : string) : Prop :=
  rid <> "" /\ addr <> "" /\ no_colon rid = true.

Definition is_u64 (n : Z) : Prop := 0 <= n <= u64_max.

(** The value of a counter on the primary. *)
Definition value_of (rid addr : string) (s : RedisCounter.state) : option Z :=
  Redis.primary s !! RedisCounter.counter_key key_prefix rid addr ≫= parse_u64.

(** Arguments are well formed, and [INCR]/[DECR] stay within the 64-bit signed range; a counter
    that is at 0 is decremented only if nothing fails, because a failure between the [DECR] and
    the [SET] would leave it at -1. *)
Definition op_ok (o : ctr_op) (s : RedisCounter.state) : Prop :=
  match o with
  | CGet rid addr => valid_key rid addr
  | CIncr rid addr => valid_key rid addr /\ default 0 (value_of rid addr s) < i64_max
  | CDecr rid addr => valid_key rid addr /\ default 0 (value_of rid addr s) <= i64_max /\
      (value_of rid addr s = Some 0 -> failures s = 0%nat)
  | CSet rid addr n | CFloor rid addr n => valid_key rid addr /\ is_u64 n
  | CCas rid addr e n => valid_key rid addr /\ is_u64 e /\ is_u64 n
  | CDrop => True
  end.

Fixpoint acts_ok (acts : list action) (s : RedisCounter.state) : Prop :=
  match acts with
  | [] => True
  | Call o :: acts' => op_ok o s /\ acts_ok acts' (snd (redis_exec o s))
  | Replicate :: acts' => acts_ok acts' (replicate_now s)
  end.

(** ** Representation *)

(** The keyspace holds exactly the decimal form of each counter. *)
Definition refines (m : RedisCounter.keys) (v : MemCounter.state) : Prop :=
  (forall rid addr, valid_key rid addr ->
     m !! RedisCounter.counter_key key_prefix rid addr = print_dec <$> v !! (rid, addr)) /\
  map_Forall (fun _ n => is_u64 n) v.

Definition represents (s : RedisCounter.state) (c : counters) : Prop :=
  refines (Redis.primary s) (written c) /\
  match Redis.replica s, lagging c with
  | None, None => True
  | Some m, Some v => refines m v
  | _, _ => False
  end.

Lemma counter_key_inj rid addr rid' addr' :
  valid_key rid addr -> valid_key rid' addr' ->
  RedisCounter.counter_key key_prefix rid addr = RedisCounter.counter_key key_prefix rid' addr' ->
  (rid, addr) = (rid', addr').
Proof.
  intros (_ & _ & H1) (_ & _ & H2) Heq. unfold RedisCounter.counter_key in Heq.
  repeat (apply (inj (String.append _)) in Heq). destruct (app_colon_inj _ _ _ _ H1 H2 Heq).
  congruence.
Qed.

Lemma refines_insert m v rid addr n :
  refines m v -> valid_key rid addr -> is_u64 n ->
  refines (<[RedisCounter.counter_key key_prefix rid addr := print_dec n]> m)
          (<[(rid, addr) := n]> v).
Proof.
  intros [Hm Hv] Hk Hn. split; [|by apply map_Forall_insert_2].
  intros rid' addr' Hk'. destruct (decide ((rid, addr) = (rid', addr'))) as [[= <- <-]|Hne].
  - by rewrite !lookup_insert_eq.
  - rewrite !lookup_insert_ne; [by apply Hm|done|].
    intros Heq. apply Hne. by apply counter_key_inj.
Qed.

Lemma check_args_valid {A} rid addr (k : RedisCounter.C A) :
  valid_key rid addr -> RedisCounter.check_args rid addr k = k.
Proof.
  intros (Hr & Ha & _). unfold RedisCounter.check_args.
  by rewrite (proj2 (String.eqb_neq rid "") Hr), (proj2 (String.eqb_neq addr "") Ha).
Qed.

Lemma refines_lookup m v rid addr n :
  refines m v -> v !! (rid, addr) = Some n -> is_u64 n.
Proof. intros [_ Hv] Hn. exact (Hv _ _ Hn). Qed.

Lemma parse_u64_print n : is_u64 n -> parse_u64 (print_dec n) = Some n.
Proof. intros Hn. apply parse_print_unsigned; [by apply u64_printable | apply Hn]. Qed.

Lemma print_signed_nonneg n : 0 <= n -> print_signed n = print_dec n.
Proof. intros Hn. unfold print_signed. by rewrite (proj2 (Z.ltb_ge n 0)). Qed.

Lemma string2ll_print n : 0 <= n <= i64_max -> RedisCounter.string2ll (print_dec n) = Some n.
Proof.
  intros Hn. unfold RedisCounter.string2ll. rewrite <- (print_signed_nonneg n) by lia.
  rewrite parse_i64_print_signed by lia. by rewrite String.eqb_refl.
Qed.

Lemma value_of_refines rid addr s v :
  refines (Redis.primary s) v -> valid_key rid addr -> value_of rid addr s = v !! (rid, addr).
Proof.
  intros Href Hk. unfold value_of. rewrite (proj1 Href) by done.
  destruct (v !! (rid, addr)) as [n|] eqn:Hn; [|done]. simpl.
  apply parse_u64_print. by eapply refines_lookup.
Qed.

(** [INCR] and [DECR] on a counter in range. *)
Lemma incrby_refines m v rid addr d :
  refines m v -> valid_key rid addr -> let n := default 0 (v !! (rid, addr)) in
  n <= i64_max -> 0 <= n + d <= i64_max ->
  RedisCounter.INCRBY (RedisCounter.counter_key key_prefix rid addr) d m =
    (Ok (n + d), <[RedisCounter.counter_key key_prefix rid addr := print_dec (n + d)]> m).
Proof.
  intros Href Hk n Hn Hd. unfold RedisCounter.INCRBY. rewrite (proj1 Href) by done.
  assert (Hu : is_u64 n).
  { subst n. destruct (v !! (rid, addr)) eqn:E; simpl;
      [by eapply refines_lookup | unfold is_u64, u64_max; lia]. }
  assert (default "0"%string (print_dec <$> v !! (rid, addr)) = print_dec n) as ->
    by (subst n; by destruct (v !! (rid, addr))).
  unfold is_u64 in Hu. rewrite string2ll_print by lia.
  rewrite (proj2 (Z.leb_le (- 2 ^ 63) _)) by lia. rewrite (proj2 (Z.leb_le _ i64_max)) by lia.
  simpl. by rewrite print_signed_nonneg by lia.
Qed.

(** ** One call *)

(** [simulates o s c x]: the call [o] on [s], which represents [c], ended with [x] as the abstract
    counter allows. *)
Definition simulates (o : ctr_op) (s : RedisCounter.state) (c : counters)
    (x : ctr_reply * RedisCounter.state) : Prop :=
  (represents (snd x) (after o c) /\ (failures (snd x) <= failures s)%nat /\
     fst x = fst (mem_exec o (seen_by o c))) \/
  (fst x = RErr /\ (S (failures (snd x)) <= failures s)%nat /\
     (represents (snd x) c \/ represents (snd x) (after o c))).

Lemma next_event_failures s e s' :
  next_event s = (e, s') ->
  failures s = ((if is_failure e then 1 else 0) + failures s')%nat /\
  Redis.primary s' = Redis.primary s /\ Redis.replica s' = Redis.replica s.
Proof.
  unfold next_event, failures. destruct (Redis.events s) as [|e0 es] eqn:He; intros [= <- <-]; simpl.
  - by rewrite He.
  - by destruct e0.
Qed.

Lemma represents_same s s' c :
  Redis.primary s' = Redis.primary s -> Redis.replica s' = Redis.replica s ->
  represents s c -> represents s' c.
Proof. unfold represents. by intros -> ->. Qed.

Lemma represents_write m s c v :
  represents s c -> refines m v -> represents (set_primary m s) (set_written v c).
Proof. by intros [_ Hr] Hm. Qed.

(** A connection, or a failed call. *)
Lemma connect {A} ctx (f : A -> ctr_reply) (k : RedisCounter.C A) o s c :
  represents s c ->
  (forall s', represents s' c -> Redis.primary s' = Redis.primary s -> Redis.replica s' = Redis.replica s ->
     (failures s' <= failures s)%nat -> simulates o s' c (run_op f k s')) ->
  simulates o s c (run_op f (do* get_connection ctx in k) s).
Proof.
  intros Hs Hk. unfold run_op, bindM, get_connection. destruct (next_event s) as [e s'] eqn:He.
  destruct (next_event_failures s e s' He) as (Hf & Hp & Hr).
  assert (Hs' : represents s' c) by by eapply represents_same.
  assert (Hgo : simulates o s c (run_op f k s')).
  { destruct (Hk s') as [(? & ? & ?)|(? & ? & ?)]; [done..|lia| |]; [left|right]; split_and!; try done; lia. }
  unfold run_op in Hgo. destruct e; try exact Hgo.
  right. simpl. split_and!; [done|simpl in Hf; lia|by left].
Qed.

(** A command on the primary that does what the in-memory counter does. *)
Lemma one_command {A B} (g : RedisCounter.keys -> result RedisError A * RedisCounter.keys) ctx
    (post : A -> RedisCounter.C B) (f : B -> ctr_reply) a b o s c :
  represents s c -> (forall w : RedisCounter.state, post a w = (Ok b, w)) ->
  fst (g (Redis.primary s)) = Ok a -> refines (snd (g (Redis.primary s))) (snd (mem_exec o (written c))) ->
  f b = fst (mem_exec o (seen_by o c)) ->
  simulates o s c (run_op f (let* x := RedisCounter.command g ctx in post x) s).
Proof.
  intros Hs Hpost Hg Hm Hb.
  unfold run_op, bindM, RedisCounter.command, map_errM, invoke. destruct (next_event s) as [e s'] eqn:He.
  destruct (next_event_failures s e s' He) as (Hf & Hp & Hr). rewrite Hp.
  assert (Hs' : represents s' c) by by eapply represents_same.
  destruct (g (Redis.primary s)) as [x k] eqn:Hgk. simpl in Hg, Hm. subst x.
  assert (Hw : represents (set_primary k s') (after o c)) by by apply represents_write.
  destruct e; simpl in *; rewrite ?Hpost; simpl.
  - left. simpl. split_and!; [done|unfold failures in *; simpl; lia|done].
  - left. simpl. split_and!; [done|unfold failures in *; simpl; lia|done].
  - right. simpl. split_and!; [done|unfold failures in *; simpl; lia|by left].
  - right. simpl. split_and!; [done|unfold failures in *; simpl; lia|by right].
Qed.

(** A read, or a failed call. *)
Lemma read {A B} p (g : RedisCounter.keys -> A) ctx (k : A -> RedisCounter.C B) f o s c :
  represents s c ->
  (forall s', represents s' c -> Redis.primary s' = Redis.primary s -> Redis.replica s' = Redis.replica s ->
     (failures s' <= failures s)%nat -> simulates o s' c (run_op f (k (g (keyspace_of p s))) s')) ->
  simulates o s c (run_op f (let* x := query p g ctx in k x) s).
Proof.
  intros Hs Hk. unfold run_op, bindM, query. destruct (next_event s) as [e s'] eqn:He.
  destruct (next_event_failures s e s' He) as (Hf & Hp & Hr).
  assert (Hs' : represents s' c) by by eapply represents_same.
  assert (Hks : keyspace_of p s' = keyspace_of p s) by (unfold keyspace_of; by rewrite Hp, Hr).
  assert (Hgo : simulates o s c (run_op f (k (g (keyspace_of p s))) s')).
  { destruct (Hk s') as [(? & ? & ?)|(? & ? & ?)]; [done..|lia| |]; [left|right]; split_and!; try done; lia. }
  unfold run_op in Hgo. destruct e; rewrite ?Hks; try exact Hgo;
    right; simpl; (split_and!; [done|simpl in Hf; lia|by left]).
Qed.

(** *** The operations *)

Lemma simulates_get rid addr s c :
  represents s c -> valid_key rid addr -> simulates (CGet rid addr) s c (redis_exec (CGet rid addr) s).
Proof.
  intros Hs Hk. unfold redis_exec, RedisCounter.get. rewrite check_args_valid by done.
  apply connect; [done|]. clear Hs. intros s1 Hs _ _ _. apply read; [done|].
  intros s2 Hs2 _ _ _. left. cbn [snd fst].
  assert (Hv : keyspace_of Reader s1 !! RedisCounter.counter_key key_prefix rid addr =
    print_dec <$> seen_by (CGet rid addr) c !! (rid, addr) /\
    map_Forall (fun _ n => is_u64 n) (seen_by (CGet rid addr) c)).
  { destruct Hs as [Hp Hr]. unfold keyspace_of, seen_by. simpl.
    destruct (Redis.replica s1), (lagging c); simpl; try done;
      [split; [by apply Hr|apply Hr] | split; [by apply Hp|apply Hp]]. }
  destruct Hv as [Hv Hu]. rewrite Hv.
  destruct (seen_by (CGet rid addr) c !! (rid, addr)) as [n|] eqn:Hn; simpl in *.
  - unfold run_op, bindM, liftM, RedisCounter.to_u64. rewrite parse_u64_print by exact (Hu _ _ Hn).
    simpl. rewrite Hn. split_and!; [by destruct c|done|done].
  - rewrite Hn. split_and!; [by destruct c|done|done].
Qed.

Lemma simulates_incr rid addr s c :
  represents s c -> op_ok (CIncr rid addr) s ->
  simulates (CIncr rid addr) s c (redis_exec (CIncr rid addr) s).
Proof.
  intros Hs [Hk Hlt]. rewrite (value_of_refines _ _ _ (written c)) in Hlt by (done || apply Hs).
  unfold redis_exec, RedisCounter.get_and_increment. rewrite check_args_valid by done.
  apply connect; [done|]. clear Hs. intros s1 Hs _ _ _. cbv zeta.
  set (n := default 0 (written c !! (rid, addr))) in *.
  assert (Hn : is_u64 n).
  { subst n. destruct (written c !! (rid, addr)) eqn:E; simpl;
      [eapply refines_lookup; [apply Hs|done] | unfold is_u64, u64_max; lia]. }
  unfold is_u64, u64_max, i64_max in *.
  pose proof (incrby_refines _ _ rid addr 1 (proj1 Hs) Hk) as Hi. fold n in Hi. cbv zeta in Hi.
  rewrite Hi || (specialize (Hi ltac:(unfold i64_max; lia) ltac:(unfold i64_max; lia))).
  apply (one_command _ _ _ RNum (n + 1) n); [done| |by rewrite Hi| |done].
  - intros w. rewrite wrapu_small by (unfold in_u; lia). unfold sat_sub.
    by replace (Z.max 0 (n + 1 - 1)) with n by lia.
  - rewrite Hi. simpl. fold n. rewrite wrapu_small by (unfold in_u; lia).
    apply refines_insert; [apply Hs|done|]. unfold is_u64, u64_max. lia.
Qed.

(** Without failures, the two commands that a decrement at 0 takes. *)
Lemma command_calm {A} (g : RedisCounter.keys -> result RedisError A * RedisCounter.keys) ctx s a :
  failures s = 0%nat -> fst (g (Redis.primary s)) = Ok a -> exists s',
    RedisCounter.command g ctx s = (Ok a, s') /\ failures s' = 0%nat /\
    Redis.primary s' = snd (g (Redis.primary s)) /\ Redis.replica s' = Redis.replica s.
Proof.
  intros Hf Hg. unfold RedisCounter.command, map_errM, invoke. destruct (next_event s) as [e s'] eqn:He.
  destruct (next_event_failures s e s' He) as (Hf' & Hp & Hr). rewrite Hp.
  destruct (g (Redis.primary s)) as [x k]. simpl in Hg. subst x.
  destruct e; simpl in Hf'; try lia. exists (set_primary k s'). split_and!; [done|unfold failures in *; simpl; lia|done..].
Qed.

Lemma decr_at_zero rid addr s c :
  represents s c -> valid_key rid addr -> written c !! (rid, addr) = Some 0 -> failures s = 0%nat ->
  simulates (CDecr rid addr) s c (run_op RNum (
    let* new_value := RedisCounter.command
      (RedisCounter.INCRBY (RedisCounter.counter_key key_prefix rid addr) (-1)) "decrement_counter" in
    if new_value <? 0 then
      do* RedisCounter.command (RedisCounter.SET (RedisCounter.counter_key key_prefix rid addr) (print_dec 0))
            "correct_negative_counter" in
      retM 0
    else retM new_value) s).
Proof.
  intros Hs Hk Hn Hf. set (key := RedisCounter.counter_key key_prefix rid addr).
  assert (Hi : RedisCounter.INCRBY key (-1) (Redis.primary s) =
    (Ok (-1), <[key := print_signed (-1)]> (Redis.primary s))).
  { unfold RedisCounter.INCRBY, key. rewrite (proj1 (proj1 Hs)), Hn by done. reflexivity. }
  destruct (command_calm (RedisCounter.INCRBY key (-1)) "decrement_counter" s (-1) Hf) as (s1 & E1 & Hf1 & Hp1 & Hr1);
    [by rewrite Hi|].
  destruct (command_calm (RedisCounter.SET key (print_dec 0)) "correct_negative_counter" s1 tt Hf1)
    as (s2 & E2 & Hf2 & Hp2 & Hr2); [done|].
  left. unfold run_op, bindM. rewrite E1. change (-1 <? 0) with true. cbv beta iota. rewrite E2. simpl.
  unfold after. simpl. unfold MemCounter.decrement, run_op. rewrite Hn. simpl.
  split_and!; [|lia|done]. split; simpl.
  - rewrite Hp2, Hp1, Hi. simpl. rewrite insert_insert_eq. apply refines_insert; [apply Hs|done|].
    unfold is_u64, u64_max. lia.
  - rewrite Hr2, Hr1. apply Hs.
Qed.

Lemma simulates_decr rid addr s c :
  represents s c -> op_ok (CDecr rid addr) s ->
  simulates (CDecr rid addr) s c (redis_exec (CDecr rid addr) s).
Proof.
  intros Hs (Hk & Hle & Hzero). rewrite (value_of_refines _ _ _ (written c)) in Hle, Hzero by (done || apply Hs).
  unfold redis_exec, RedisCounter.decrement. rewrite check_args_valid by done.
  apply connect; [done|]. clear Hs. intros s1 Hs _ _ Hf1. cbv zeta. apply read; [done|].
  cbn [keyspace_of]. intros s2 Hs2 Hp2 _ Hf2. rewrite (proj1 (proj1 Hs)) by done.
  destruct (written c !! (rid, addr)) as [n|] eqn:Hn; simpl.
  2: { left. simpl. unfold after. simpl. unfold MemCounter.decrement, run_op. rewrite Hn. simpl.
       split_and!; [by destruct c|done|done]. }
  simpl in Hle. pose proof (refines_lookup _ _ _ _ _ (proj1 Hs) Hn) as Hu. unfold is_u64 in Hu.
  pose proof (incrby_refines _ _ rid addr (-1) (proj1 Hs2) Hk) as Hi. rewrite Hn in Hi. simpl in Hi.
  destruct (decide (n = 0)) as [->|Hne].
  - apply decr_at_zero; [done..|]. specialize (Hzero eq_refl). lia.
  - specialize (Hi ltac:(lia) ltac:(lia)).
    apply (one_command _ _ _ RNum (n + -1) (n + -1)); [done| |by rewrite Hi| |].
    + intros w. by rewrite (proj2 (Z.ltb_ge _ _)) by lia.
    + rewrite Hi. simpl. unfold MemCounter.decrement, run_op. rewrite Hn.
      rewrite (proj2 (Z.ltb_lt _ _)) by lia. apply refines_insert; [apply Hs2|done|].
      unfold is_u64. lia.
    + simpl. unfold MemCounter.decrement, run_op. rewrite Hn. rewrite (proj2 (Z.ltb_lt _ _)) by lia. done.
Qed.

Lemma run_op_ret {A} f (k : RedisCounter.C A) s : run_op f (let* x := k in retM x) s = run_op f k s.
Proof. unfold run_op, bindM. by destruct (k s) as [[]]. Qed.

Lemma simulates_set rid addr n s c :
  represents s c -> op_ok (CSet rid addr n) s ->
  simulates (CSet rid addr n) s c (redis_exec (CSet rid addr n) s).
Proof.
  intros Hs [Hk Hn]. unfold redis_exec, RedisCounter.set. rewrite check_args_valid by done.
  apply connect; [done|]. clear Hs. intros s1 Hs _ _ _. cbv zeta.
  rewrite <- run_op_ret. apply (one_command _ _ _ (fun _ => RUnit) tt tt); [done..| |done].
  apply refines_insert; [apply Hs|done|done].
Qed.

Lemma simulates_floor rid addr f s c :
  represents s c -> op_ok (CFloor rid addr f) s ->
  simulates (CFloor rid addr f) s c (redis_exec (CFloor rid addr f) s).
Proof.
  intros Hs [Hk Hf]. unfold redis_exec, RedisCounter.sync_floor. rewrite check_args_valid by done.
  apply connect; [done|]. clear Hs. intros s1 Hs _ _ _. cbv zeta. pose proof (proj1 Hs) as Href.
  set (n := match written c !! (rid, addr) with Some cur => Z.max cur f | None => f end).
  assert (Hn : is_u64 n).
  { subst n. destruct (written c !! (rid, addr)) eqn:E; [|done].
    pose proof (refines_lookup _ _ _ _ _ Href E). unfold is_u64 in *. lia. }
  assert (Hlua : exists k, RedisCounter.sync_floor_lua (RedisCounter.counter_key key_prefix rid addr)
      (print_dec f) (Redis.primary s1) = (Ok (print_dec n), k) /\
    refines k (<[(rid, addr) := n]> (written c))).
  { unfold RedisCounter.sync_floor_lua. rewrite (proj1 Href) by done. subst n.
    destruct (written c !! (rid, addr)) as [cur|] eqn:E; simpl; [|eauto using refines_insert].
    pose proof (refines_lookup _ _ _ _ _ Href E) as Hu. rewrite numlt_correct by by apply u64_printable.
    destruct (Z.ltb_spec cur f); [rewrite Z.max_r by lia; eauto using refines_insert|].
    rewrite Z.max_l by lia. eexists. split; [done|]. by rewrite insert_id. }
  destruct Hlua as (k & Hlua & Hrk).
  assert (Hmem : mem_exec (CFloor rid addr f) (written c) = (RNum n, <[(rid, addr) := n]> (written c))).
  { simpl. unfold run_op, MemCounter.sync_floor. subst n.
    destruct (written c !! (rid, addr)) as [cur|]; simpl; [|by rewrite Z.ltb_irrefl].
    destruct (Z.ltb_spec cur f); [by rewrite Z.max_r by lia|by rewrite Z.max_l by lia]. }
  apply (one_command _ _ _ RNum (print_dec n) n); [done| |by rewrite Hlua| |].
  - intros w. unfold liftM, RedisCounter.to_u64. by rewrite parse_u64_print.
  - by rewrite Hlua, Hmem.
  - unfold seen_by. by rewrite Hmem.
Qed.

Lemma simulates_cas rid addr e n s c :
  represents s c -> op_ok (CCas rid addr e n) s ->
  simulates (CCas rid addr e n) s c (redis_exec (CCas rid addr e n) s).
Proof.
  intros Hs (Hk & He & Hn). unfold redis_exec, RedisCounter.set_if_equals. rewrite check_args_valid by done.
  apply connect; [done|]. clear Hs. intros s1 Hs _ _ _. cbv zeta. pose proof (proj1 Hs) as Href.
  assert (Hlua : exists b k, RedisCounter.set_if_equals_lua (RedisCounter.counter_key key_prefix rid addr)
      (print_dec e) (print_dec n) (Redis.primary s1) = (Ok b, k) /\
    fst (mem_exec (CCas rid addr e n) (written c)) = RBool b /\
    refines k (snd (mem_exec (CCas rid addr e n) (written c)))).
  { unfold RedisCounter.set_if_equals_lua. rewrite (proj1 Href) by done. simpl.
    unfold run_op, MemCounter.set_if_equals.
    destruct (written c !! (rid, addr)) as [cur|] eqn:E; simpl; [|eauto].
    pose proof (refines_lookup _ _ _ _ _ Href E) as Hu.
    assert (String.eqb (print_dec cur) (print_dec e) = (cur =? e)) as ->.
    { destruct (Z.eqb_spec cur e) as [->|Hne]; [apply String.eqb_refl|].
      apply String.eqb_neq. intros Heq. apply Hne. by apply print_dec_inj; [apply u64_printable..|]. }
    rewrite numlt_correct by by apply u64_printable.
    destruct ((cur =? e) && (n <? e)); simpl; [|eauto].
    do 2 eexists. split_and!; [done|done|by apply refines_insert]. }
  destruct Hlua as (b & k & Hlua & Hb & Hrk). rewrite <- run_op_ret.
  apply (one_command _ _ _ RBool b b); [done|done|by rewrite Hlua|by rewrite Hlua|done].
Qed.

(** *** Dropping all counters *)

Lemma prefix_append p s : String.prefix p (p +:+ s) = true.
Proof.
  induction p as [|a p IH]; [by destruct s|]. simpl. by destruct (ascii_dec a a).
Qed.

Lemma counter_key_matches rid addr :
  RedisCounter.matches key_prefix (RedisCounter.counter_key key_prefix rid addr) = true.
Proof.
  unfold RedisCounter.matches, starts_with.
  assert (RedisCounter.counter_key key_prefix rid addr =
    (key_prefix +:+ ":" +:+ RedisCounter.COUNTER_PREFIX +:+ ":") +:+ rid +:+ ":" +:+ addr) as ->
    by (unfold RedisCounter.counter_key; by rewrite !string_app_assoc).
  apply prefix_append.
Qed.

Lemma lookup_foldr_delete (m : RedisCounter.keys) l key :
  foldr delete m l !! key = if decide (key ∈ l) then None else m !! key.
Proof.
  induction l as [|x l IH]; simpl; [done|].
  destruct (decide (x = key)) as [->|Hne].
  - rewrite lookup_delete_eq. by rewrite decide_True by by left.
  - rewrite lookup_delete_ne by done. rewrite IH.
    destruct (decide (key ∈ l)); [by rewrite decide_True by by right|].
    rewrite decide_False; [done|]. by intros [->|?]%elem_of_cons.
Qed.

Lemma scan_rounds rounds acc (k : list string -> RedisCounter.C unit) f o s c :
  represents s c ->
  (forall s' ks, represents s' c -> Redis.primary s' = Redis.primary s ->
     (failures s' <= failures s)%nat ->
     (forall key, key ∈ ks <-> key ∈ acc \/ (key ∈ concat rounds /\ RedisCounter.matches key_prefix key = true)) ->
     simulates o s' c (run_op f (k ks) s')) ->
  simulates o s c (run_op f (let* ks := foldM (fun all_keys round =>
    let* keys := query Primary (fun _ => List.filter (RedisCounter.matches key_prefix) round)
                   "drop_all_entries_scan" in
    retM (all_keys ++ keys)) acc rounds in k ks) s).
Proof.
  revert acc s. induction rounds as [|r rounds IH]; intros acc s Hs Hk; simpl.
  { apply (Hk s acc); [done..|]. simpl. set_solver. }
  set (go := foldM _).
  assert (Hassoc : forall s0, run_op f (let* ks := (let* b := (let* keys := query Primary
      (fun _ => List.filter (RedisCounter.matches key_prefix) r) "drop_all_entries_scan" in
      retM (acc ++ keys)) in go b rounds) in k ks) s0 =
    run_op f (let* keys := query Primary (fun _ => List.filter (RedisCounter.matches key_prefix) r)
      "drop_all_entries_scan" in let* ks := go (acc ++ keys) rounds in k ks) s0).
  { intros s0. unfold run_op, bindM. by destruct (query _ _ _ s0) as [[] ?]. }
  rewrite Hassoc. apply read; [done|]. intros s1 Hs1 Hp1 _ Hf1. apply IH; [done|].
  intros s2 ks Hs2 Hp2 Hf2 Hks. apply Hk; [done|congruence|lia|]. intros key. rewrite Hks.
  simpl. rewrite !elem_of_app, !list_elem_of_In, filter_In. tauto.
Qed.

Lemma simulates_drop s c : represents s c -> simulates CDrop s c (redis_exec CDrop s).
Proof.
  intros Hs. unfold redis_exec, RedisCounter.drop_all_entries. apply connect; [done|].
  clear Hs. intros s1 Hs _ _ _. unfold RedisCounter.scan.
  change (run_op ?f (let* rounds := getsM ?g in ?k rounds) s1) with (run_op f (k (g s1)) s1).
  apply scan_rounds; [done|]. intros s2 ks Hs2 Hp2 Hf2 Hks.
  assert (Hgone : forall l, (forall key, key ∈ ks -> key ∈ l) -> refines (foldr delete (Redis.primary s2) l) ∅).
  { intros l Hl. split; [|apply map_Forall_empty]. intros rid addr _.
    rewrite lookup_foldr_delete, lookup_empty. simpl.
    destruct (decide _) as [|Hno]; [done|]. apply eq_None_not_Some. intros Hin. apply Hno, Hl, Hks. right.
    split; [|apply counter_key_matches]. apply RedisCounter.SCAN_complete. by rewrite <- Hp2. }
  destruct ks as [|key ks'].
  - left. simpl. split_and!; [|done|done]. split; [apply (Hgone []); set_solver|apply Hs2].
  - rewrite <- run_op_ret. apply (one_command _ _ _ (fun _ => RUnit) tt tt); [done..| |done].
    simpl. apply (Hgone (key :: ks')). done.
Qed.

Lemma simulates_call o s c : represents s c -> op_ok o s -> simulates o s c (redis_exec o s).
Proof.
  intros Hs Ho. destruct o; [by apply simulates_get|by apply simulates_incr|by apply simulates_decr
    |by apply simulates_set|by apply simulates_floor|by apply simulates_cas|by apply simulates_drop].
Qed.

(** ** Runs *)

Lemma counter_run_simulates acts s c :
  represents s c -> acts_ok acts s -> exists n c',
    (n <= failures s)%nat /\ abstract_run n c acts (fst (redis_run acts s)) c' /\
    represents (snd (redis_run acts s)) c'.
Proof.
  revert s c. induction acts as [|[o|] acts IH]; intros s c Hs Hok; simpl in *.
  - exists 0%nat, c. split_and!; [lia|constructor|done].
  - destruct Hok as [Ho Hok]. pose proof (simulates_call o s c Hs Ho) as Hsim.
    destruct (redis_exec o s) as [r s1]. unfold simulates in Hsim. simpl in *.
    destruct Hsim as [(Hs1 & Hf & ->)|(-> & Hf & [Hs1|Hs1])];
      destruct (IH _ _ Hs1 Hok) as (n & c' & Hn & Hrun & Hc');
      destruct (redis_run acts s1) as [rs s2]; simpl in *.
    + exists n, c'. split_and!; [lia|by constructor|done].
    + exists (S n), c'. split_and!; [lia|by constructor|done].
    + exists (S n), c'. split_and!; [lia|by apply run_lost|done].
  - destruct (IH (replicate_now s) (caught_up c)) as (n & c' & Hn & Hrun & Hc'); [|done|].
    { destruct Hs as [Hp Hr]. split; [done|]. simpl.
      destruct (Redis.replica s), (lagging c); simpl in *; done. }
    exists n, c'. split_and!; [done|by constructor|done].
Qed.

(** The calls of a run, and the replies of the in-memory counter to them. *)
Definition calls (acts : list action) : list ctr_op :=
  omap (fun a => match a with Call o => Some o | Replicate => None end) acts.

Fixpoint replies (ops : list ctr_op) (v : MemCounter.state) : list ctr_reply :=
  match ops with
  | [] => []
  | o :: ops' => let '(r, v') := mem_exec o v in r :: replies ops' v'
  end.

Lemma faultless_run n c acts rs c' :
  abstract_run n c acts rs c' -> n = 0%nat -> lagging c = None -> rs = replies (calls acts) (written c).
Proof.
  induction 1 as [| n c o acts rs c' Hr IH | | |n c acts rs c' Hr IH]; intros Hn Hl; simpl; try done.
  - rewrite IH by done. unfold after, set_written. simpl.
    assert (seen_by o c = written c) as -> by (destruct o; simpl; by rewrite ?Hl).
    by destruct (mem_exec o (written c)).
  - apply IH; [done|]. simpl. by rewrite Hl.
Qed.

(** C13. The Redis counter, whose scripts compare decimal strings, implements the in-memory one.
    Take any sequence of calls on well-formed keys, with a replica, if there is one, catching up
    at any points, and with any schedule of refused connections, failing commands and lost
    answers.  The replies and the final values are those of the in-memory counter, except that a
    call may fail, and then had no effect or its whole effect, at most once for each failure in
    the schedule; and that a read may answer from the replica.  With neither failures nor a
    replica the replies are exactly those of the in-memory counter.  No counter may leave the
    signed 64-bit range of [INCR], and a counter at 0 may be decremented only when nothing fails
    any more. *)
Theorem redis_counter_refines_memory acts s c :
  represents s c -> acts_ok acts s ->
  (exists n c', (n <= failures s)%nat /\ abstract_run n c acts (fst (redis_run acts s)) c' /\
     represents (snd (redis_run acts s)) c') /\
  (failures s = 0%nat -> Redis.replica s = None ->
     fst (redis_run acts s) = replies (calls acts) (written c)).
Proof.
  intros Hs Hok. destruct (counter_run_simulates acts s c Hs Hok) as (n & c' & Hn & Hrun & Hc').
  split; [by exists n, c'|]. intros Hf Hr. eapply faultless_run; [exact Hrun|lia|].
  destruct Hs as [_ Hl]. rewrite Hr in Hl. by destruct (lagging c).
Qed.
End Refinement.

(** ** An instance *)

#[program] Definition sample_replies : RedisCounter.RedisReplies := {|
  RedisCounter.not_an_integer :=
    {| err_kind := ErrorKind.OtherKind; err_display := "value is not an integer or out of range" |};
  RedisCounter.conversion_error := fun s =>
    {| err_kind := ErrorKind.TypeError; err_display := "Could not convert from string: " +:+ s |};
  RedisCounter.SCAN := fun k => [elements (dom k)];
|}.
Next Obligation.
  intros k key. simpl. rewrite app_nil_r. rewrite elem_of_elements. apply elem_of_dom.
Qed.

Section Instance.
#[local] Existing Instance sample_replies.

Definition counter_server (evs : list event) : RedisCounter.state :=
  {| Redis.primary := ∅; Redis.replica := Some ∅; Redis.events := evs |}.
Definition no_counters : counters := {| written := ∅; lagging := Some ∅ |}.

Definition broken_pipe : RedisError :=
  {| err_kind := ErrorKind.OtherKind; err_display := "broken pipe" |}.

(** The answer to the first increment is lost; a read lags behind until the replica catches up. *)
Definition sample_acts : list action :=
  [Call (CIncr "r" "0xa"); Call (CFloor "r" "0xa" 9); Call (CGet "r" "0xa"); Replicate;
   Call (CCas "r" "0xa" 9 4); Call (CIncr "r" "0xa"); Call (CGet "r" "0xa")].

Lemma redis_counter_refines_memory_witness :
  fst (redis_run "pfx" sample_acts (counter_server [EvOk; EvAfter broken_pipe])) =
    [RErr; RNum 9; ROpt None; RBool true; RNum 4; ROpt (Some 9)] /\
  exists n c', (n <= 1)%nat /\
    abstract_run n no_counters sample_acts
      [RErr; RNum 9; ROpt None; RBool true; RNum 4; ROpt (Some 9)] c'.
Proof.
  assert (Hr : fst (redis_run "pfx" sample_acts (counter_server [EvOk; EvAfter broken_pipe])) =
    [RErr; RNum 9; ROpt None; RBool true; RNum 4; ROpt (Some 9)]) by (vm_compute; reflexivity).
  split; [exact Hr|].
  destruct (redis_counter_refines_memory "pfx" sample_acts
    (counter_server [EvOk; EvAfter broken_pipe]) no_counters) as [(n & c' & Hn & Hrun & _) _].
  - split; (split; [intros; simpl; by rewrite !lookup_empty|apply map_Forall_empty]).
  - repeat split; try discriminate; vm_compute; discriminate || reflexivity.
  - exists n, c'. split; [exact Hn|]. rewrite <- Hr. exact Hrun.
Defined.

(** ** A decrement at 0 that fails half way

    The [DECR] is carried out and the [SET] is not: the counter is left at -1.  Reads then fail,
    and the next two increments both hand out 0. *)
Lemma failed_decrement_repeats_zero :
  fst (redis_run "pfx" [Call (CSet "r" "0xa" 0); Call (CDecr "r" "0xa"); Call (CGet "r" "0xa");
                        Call (CIncr "r" "0xa"); Call (CIncr "r" "0xa")]
    {| Redis.primary := ∅; Redis.replica := None;
       Redis.events := [EvOk; EvOk; EvOk; EvOk; EvOk; EvBefore broken_pipe] |}) =
  [RUnit; RErr; RErr; RNum 0; RNum 0].
Proof. vm_compute. reflexivity. Qed.
End Instance.
