(* ===== verification/Lock.v ===== *)
(** * Distributed locks

    The lock of [utils/redis.rs] ([DistributedLock], [LockGuard]): [SET key value NX EX ttl] to
    acquire, and a script that deletes the key if it still has the holder's value to release.
    A guard that is dropped is released by a task of its own, some time later or never.
    Connections may be refused and replies lost. *)

From S2P Require Import Prelude Decimal Errors Json Model TransactionJson RedisBase.
Open Scope Z_scope.

(** The keys of the locks, each with its value and expiry, and what happens to the next round
    trips. *)
Record lock_server := { locks : gmap string (string * Z); lock_events : list event }.

Definition set_locks (m : gmap string (string * Z)) (s : lock_server) : lock_server :=
  {| locks := m; lock_events := lock_events s |}.

Definition next_lock_event (s : lock_server) : event * lock_server :=
  match lock_events s with
  | [] => (EvOk, s)
  | e :: es => (e, {| locks := locks s; lock_events := es |})
  end.

(** An [eyre::Report] of the pool or of the server. *)
Inductive LockError : Type :=
| LockPool (e : PoolError)
| LockRedis (e : RedisError).

Definition lock_connection : M lock_server LockError unit := fun s =>
  match next_lock_event s with
  | (EvPool e, s') => (Err (LockPool e), s')
  | (_, s') => (Ok tt, s')
  end.

Definition lock_command {A} (f : gmap string (string * Z) -> A * gmap string (string * Z))
  : M lock_server LockError A := fun s =>
  match next_lock_event s with
  | (EvBefore e, s') => (Err (LockRedis e), s')
  | (EvAfter e, s') => (Err (LockRedis e), set_locks (snd (f (locks s'))) s')
  | (_, s') => let '(a, m) := f (locks s') in (Ok a, set_locks m s')
  end.

(** [GET]: the value of a key that has not expired at [now], the server's clock. *)
Definition lock_value_at (now : Z) (key : string) (m : gmap string (string * Z)) : option string :=
  '(v, e) ← m !! key; if now <? e then Some v else None.

(** [timestamp] is the clock in nanoseconds, [counter] the value of the process's counter. *)
Definition generate_lock_value (process_id timestamp counter : Z) : string :=
  print_dec process_id +:+ ":" +:+ print_dec timestamp +:+ ":" +:+ print_dec counter.

Record LockGuard := { lg_key : string; lg_value : string }.

Definition try_acquire (now : Z) (lock_key : string) (ttl : Z) (lock_value : string)
  : M lock_server LockError (option LockGuard) :=
  do* lock_connection in
  let* result := lock_command (fun m =>
    match lock_value_at now lock_key m with
    | Some _ => (false, m)
    | None => (true, <[lock_key := (lock_value, now + ttl * 10 ^ 9)]> m)
    end) in
  retM (if result : bool then Some {| lg_key := lock_key; lg_value := lock_value |} else None).

Definition do_release (now : Z) (info : LockGuard) : M lock_server LockError bool :=
  do* lock_connection in
  lock_command (fun m =>
    if bool_decide (lock_value_at now (lg_key info) m = Some (lg_value info))
    then (true, delete (lg_key info) m) else (false, m)).

(** ** Values are unique *)

Lemma no_colon_digits l : Forall is_digit l -> no_colon (string_of_digits l) = true.
Proof.
  induction 1 as [|d l Hd _ IH]; [done|]. cbn. rewrite IH, andb_true_r. apply negb_true_iff.
  unfold is_digit in Hd. assert (d = 0 \/ d = 1 \/ d = 2 \/ d = 3 \/ d = 4 \/ d = 5 \/ d = 6 \/
    d = 7 \/ d = 8 \/ d = 9) as Hcases by lia.
  by repeat destruct Hcases as [->|Hcases]; subst.
Qed.

Lemma no_colon_print z : printable z -> no_colon (print_dec z) = true.
Proof. intros Hz. apply no_colon_digits, digits_spec, Hz. Qed.

(** Process id, time and counter of an attempt. *)
Definition stamp : Type := Z * Z * Z.

Definition stamp_ok (x : stamp) : Prop :=
  printable (fst (fst x)) /\ printable (snd (fst x)) /\ printable (snd x).

Definition stamp_value (x : stamp) : string :=
  generate_lock_value (fst (fst x)) (snd (fst x)) (snd x).

Lemma stamp_value_inj x y : stamp_ok x -> stamp_ok y -> stamp_value x = stamp_value y -> x = y.
Proof.
  destruct x as [[p t] c], y as [[p' t'] c']. intros (Hp & Ht & Hc) (Hp' & Ht' & Hc') He.
  unfold stamp_value, generate_lock_value in He. cbn [fst snd] in *.
  apply app_colon_inj in He as [He1 He]; [|by apply no_colon_print..].
  apply app_colon_inj in He as [He2 He3]; [|by apply no_colon_print..].
  apply print_dec_inj in He1, He2, He3; [congruence|done..].
Qed.

(** ** The service *)

Inductive lock_phase : Type := NotHeld | Holding | Dropped.

(** An attempt: its lock, when the server ran it, and what became of the guard. *)
Record attempt := {
  at_stamp : stamp; at_key : string; at_ttl : Z; at_time : Z; at_phase : lock_phase;
}.

Definition at_expiry (a : attempt) : Z := at_time a + at_ttl a * 10 ^ 9.

Definition at_guard (a : attempt) : LockGuard :=
  {| lg_key := at_key a; lg_value := stamp_value (at_stamp a) |}.

Definition set_dropped (a : attempt) : attempt :=
  {| at_stamp := at_stamp a; at_key := at_key a; at_ttl := at_ttl a; at_time := at_time a;
     at_phase := Dropped |}.

Record lock_system := { ly_server : lock_server; ly_now : Z; ly_attempts : list attempt }.

(** Time passes, an instance tries to acquire a lock, drops a guard, and the task of a dropped
    guard runs. *)
Inductive lock_step : lock_system -> lock_system -> Prop :=
| lock_time y now :
    ly_now y <= now ->
    lock_step y {| ly_server := ly_server y; ly_now := now; ly_attempts := ly_attempts y |}
| lock_acquire y x key ttl now r s' :
    stamp_ok x -> x ∉ at_stamp <$> ly_attempts y -> ly_now y <= now ->
    try_acquire now key ttl (stamp_value x) (ly_server y) = (r, s') ->
    lock_step y {| ly_server := s'; ly_now := now;
                   ly_attempts := ly_attempts y ++
                     [{| at_stamp := x; at_key := key; at_ttl := ttl; at_time := now;
                         at_phase := match r with Ok (Some _) => Holding | _ => NotHeld end |}] |}
| lock_drop y i a :
    ly_attempts y !! i = Some a -> at_phase a = Holding ->
    lock_step y {| ly_server := ly_server y; ly_now := ly_now y;
                   ly_attempts := <[i := set_dropped a]> (ly_attempts y) |}
| lock_release y i a now r s' :
    ly_attempts y !! i = Some a -> at_phase a = Dropped -> ly_now y <= now ->
    do_release now (at_guard a) (ly_server y) = (r, s') ->
    lock_step y {| ly_server := s'; ly_now := now; ly_attempts := ly_attempts y |}.

(** A guard that is held has its value under the key until it expires. *)
Definition attempt_ok (s : lock_server) (now : Z) (a : attempt) : Prop :=
  stamp_ok (at_stamp a) /\
  (at_phase a = Holding -> now < at_expiry a ->
   locks s !! at_key a = Some (stamp_value (at_stamp a), at_expiry a)).

Definition lock_ok (y : lock_system) : Prop :=
  NoDup (at_stamp <$> ly_attempts y) /\
  forall i a, ly_attempts y !! i = Some a -> attempt_ok (ly_server y) (ly_now y) a.

Lemma next_lock_event_same s e s' : next_lock_event s = (e, s') -> locks s' = locks s.
Proof. unfold next_lock_event. by destruct (lock_events s); intros [= <- <-]. Qed.

Lemma wp_lock_connection (Q : result LockError unit -> lock_server -> Prop) s :
  (forall r s', locks s' = locks s -> Q r s') -> wp lock_connection Q s.
Proof.
  intros HQ. unfold wp, lock_connection. destruct (next_lock_event s) as [e s'] eqn:E.
  apply next_lock_event_same in E. destruct e; by apply HQ.
Qed.

Lemma wp_lock_command {A} (f : gmap string (string * Z) -> A * gmap string (string * Z))
    (Q : result LockError A -> lock_server -> Prop) s :
  (forall e s', locks s' = locks s -> Q (Err e) s') ->
  (forall r s', locks s' = snd (f (locks s)) ->
     (forall a, r = Ok a -> a = fst (f (locks s))) -> Q r s') ->
  wp (lock_command f) Q s.
Proof.
  intros He Hq. unfold wp, lock_command. destruct (next_lock_event s) as [e s'] eqn:E.
  apply next_lock_event_same in E. destruct e; [| |by apply He|];
    rewrite ?E; try (destruct (f (locks s)) as [a m] eqn:Ef); apply Hq; rewrite ?Ef; try done;
    by intros a' [= <-].
Qed.

(** What an attempt does to the keys. *)
Lemma try_acquire_spec now key ttl v s :
  wp (try_acquire now key ttl v) (fun r s' =>
    (locks s' = locks s /\ forall g, r <> Ok (Some g)) \/
    (lock_value_at now key (locks s) = None /\
     locks s' = <[key := (v, now + ttl * 10 ^ 9)]> (locks s))) s.
Proof.
  unfold try_acquire. wp_step. apply wp_lock_connection. intros [[]|e] s1 Hs1; [|by left].
  wp_step. apply wp_lock_command; [intros e s2 Hs2; left; split; [congruence|done]|].
  intros r s2 Hs2 Hr. rewrite Hs1 in *. destruct (lock_value_at now key (locks s)) eqn:El.
  - destruct r as [b|e]; [|by left]. specialize (Hr b eq_refl). cbn in Hr. subst b. wp_step. by left.
  - destruct r as [b|e]; [wp_step|]; by right.
Qed.

Lemma do_release_spec now g s :
  wp (do_release now g) (fun _ s' =>
    locks s' = locks s \/
    (lock_value_at now (lg_key g) (locks s) = Some (lg_value g) /\
     locks s' = delete (lg_key g) (locks s))) s.
Proof.
  unfold do_release. wp_step. apply wp_lock_connection. intros [[]|e] s1 Hs1; [|by left].
  apply wp_lock_command; [intros e s2 Hs2; left; congruence|].
  intros r s2 Hs2 _. rewrite Hs1 in *. case_bool_decide; [by right|by left].
Qed.

Lemma attempt_ok_keeps s s' now now' a :
  now <= now' ->
  (now' < at_expiry a -> at_phase a = Holding -> locks s' !! at_key a = locks s !! at_key a) ->
  attempt_ok s now a -> attempt_ok s' now' a.
Proof.
  intros Hn Hl [Hst Hh]. split; [done|]. intros Hp He. rewrite Hl by done. apply Hh; [done|lia].
Qed.

Lemma stamps_inj (l : list attempt) (i j : nat) a b :
  NoDup (at_stamp <$> l) -> l !! i = Some a -> l !! j = Some b -> at_stamp a = at_stamp b -> i = j.
Proof.
  intros Hnd Hi Hj He. eapply NoDup_lookup; [exact Hnd|..]; rewrite list_lookup_fmap.
  - by rewrite Hi.
  - rewrite Hj. cbn. by rewrite He.
Qed.

Lemma lock_ok_step y y' : lock_step y y' -> lock_ok y -> lock_ok y'.
Proof.
  intros Hstep [Hnd Hok]. destruct Hstep as [y now Hn|y x key ttl now r s' Hx Hfresh Hn Ha
    |y i a Hi Hp|y i a now r s' Hi Hp Hn Ha].
  - split; [done|]. intros i a Hi. eapply attempt_ok_keeps; [exact Hn|done|by eapply Hok].
  - pose proof (try_acquire_spec now key ttl (stamp_value x) (ly_server y)) as Hs.
    unfold wp in Hs. rewrite Ha in Hs. cbn [fst snd] in Hs. split.
    + cbn [ly_attempts]. rewrite fmap_app. apply NoDup_app. split; [done|].
      split; [|apply NoDup_singleton]. by intros z Hz ->%list_elem_of_singleton.
    + intros i a [Hi|[_ Hi]]%lookup_app_Some.
      * eapply attempt_ok_keeps; [exact Hn| |by eapply Hok]. cbn [ly_server ly_now].
        intros He Hp. destruct Hs as [[-> _]|[Hv ->]]; [done|].
        apply lookup_insert_ne. intros ->. destruct (Hok _ _ Hi) as [_ Hh].
        unfold lock_value_at in Hv. rewrite Hh in Hv by (done || lia). cbn in Hv.
        by rewrite (proj2 (Z.ltb_lt _ _) He) in Hv.
      * apply list_lookup_singleton_Some in Hi as [_ <-]. split; [done|]. cbn.
        destruct Hs as [[_ Hg]|[_ ->]].
        -- destruct r as [[g|]|e]; try done. by destruct (Hg g).
        -- intros _ _. by rewrite lookup_insert_eq.
  - split.
    + cbn [ly_attempts]. rewrite list_fmap_insert. rewrite list_insert_id; [done|].
      by rewrite list_lookup_fmap, Hi.
    + intros j b [(<- & <- & _)|[_ Hj]]%list_lookup_insert_Some; [|by eapply Hok].
      split; [apply (Hok _ _ Hi)|done].
  - pose proof (do_release_spec now (at_guard a) (ly_server y)) as Hs.
    unfold wp in Hs. rewrite Ha in Hs. cbn [fst snd] in Hs. split; [done|].
    intros j b Hj. cbn [ly_attempts] in Hj.
    eapply attempt_ok_keeps; [exact Hn| |by eapply Hok]. cbn [ly_server ly_now].
    intros He Hb. destruct Hs as [->|[Hv ->]]; [done|]. cbn in *. apply lookup_delete_ne. intros Hk.
    destruct (Hok _ _ Hj) as [Hsb Hh]. destruct (Hok _ _ Hi) as [Hsa _].
    unfold lock_value_at in Hv. rewrite Hk, Hh in Hv by (done || lia). cbn in Hv.
    rewrite (proj2 (Z.ltb_lt _ _) He) in Hv. injection Hv as Hv.
    apply stamp_value_inj in Hv; [|done..].
    assert (j = i) as -> by by eapply stamps_inj. congruence.
Qed.

(** C28. At most one instance holds a lock: when two guards of one key are held, the lifetime of
    one of the locks has passed.  Attempts, drops and the release tasks of dropped guards
    interleave in any order, a release task may run when the lock has long been somebody
    else's, connections are refused and replies get lost. *)
Theorem lock_exclusive s now y i j a b :
  rtc lock_step {| ly_server := s; ly_now := now; ly_attempts := [] |} y ->
  ly_attempts y !! i = Some a -> ly_attempts y !! j = Some b -> i <> j -> at_key a = at_key b ->
  at_phase a = Holding -> at_phase b = Holding ->
  at_expiry a <= ly_now y \/ at_expiry b <= ly_now y.
Proof.
  intros Hr Hi Hj Hne Hk Ha Hb.
  assert (lock_ok y) as [Hnd Hok].
  { eapply (rtc_ind_r lock_ok) in Hr; [done| |].
    - split; [constructor|]. intros k c Hc. by apply list_elem_of_lookup_2, not_elem_of_nil in Hc.
    - intros y1 y2 _ Hs Hy. by eapply lock_ok_step. }
  destruct (Z.le_gt_cases (at_expiry a) (ly_now y)) as [?|Hea]; [by left|].
  destruct (Z.le_gt_cases (at_expiry b) (ly_now y)) as [?|Heb]; [by right|]. exfalso.
  destruct (Hok _ _ Hi) as [Hsa Hla], (Hok _ _ Hj) as [Hsb Hlb].
  specialize (Hla Ha Hea). specialize (Hlb Hb Heb). rewrite Hk, Hlb in Hla. injection Hla as Hv _.
  apply stamp_value_inj in Hv; [|done..]. apply Hne. by eapply stamps_inj.
Qed.

(** The first lock expires before the second instance gets it. *)
Lemma lock_exclusive_witness :
  let a := {| at_stamp := (1, 10, 0); at_key := "lock"; at_ttl := 60; at_time := 0;
              at_phase := Holding |} in
  let b := {| at_stamp := (1, 20, 0); at_key := "lock"; at_ttl := 60; at_time := 60 * 10 ^ 9;
              at_phase := Holding |} in
  at_expiry a <= 60 * 10 ^ 9 \/ at_expiry b <= 60 * 10 ^ 9.
Proof.
  intros a b. set (s := {| locks := ∅; lock_events := [] |}).
  set (s1 := snd (try_acquire 0 "lock" 60 (stamp_value (1, 10, 0)) s)).
  set (s2 := snd (try_acquire (60 * 10 ^ 9) "lock" 60 (stamp_value (1, 20, 0)) s1)).
  refine (lock_exclusive s 0 {| ly_server := s2; ly_now := 60 * 10 ^ 9; ly_attempts := [a; b] |}
    0 1 a b _ eq_refl eq_refl _ eq_refl eq_refl eq_refl); [|done].
  eapply rtc_l; [|eapply rtc_l; [|apply rtc_refl]].
  - refine (lock_acquire _ (1, 10, 0) "lock" 60 0 (Ok (Some (at_guard a))) s1 _ _ _ _);
      [by vm_compute|apply not_elem_of_nil|done|by vm_compute].
  - refine (lock_acquire {| ly_server := s1; ly_now := 0; ly_attempts := [a] |} (1, 20, 0) "lock" 60
      (60 * 10 ^ 9) (Ok (Some (at_guard b))) s2 _ _ _ _);
      [by vm_compute|by apply (bool_decide_unpack _); vm_compute|done|by vm_compute].
Defined.
