(* ===== verification/RedisTransaction.v ===== *)
(** * The Redis transaction repository

    [repositories/transaction/transaction_redis.rs], operation by operation: the body of a
    transaction, the reverse lookup from its id to its relayer, the status, nonce and creation
    indexes, and the Lua scripts that update a body and its status index in one step.  Metrics
    and log lines are left out. *)

From S2P Require Import Prelude Decimal Errors Json Model TransactionJson Repository RedisBase.
Open Scope Z_scope.

Definition NON_FINAL_STATUS_INDEXES : list TransactionStatus := [Pending; Sent; Submitted; Mined].
Definition STALE_INDEX_MIN_AGE_SECS : Z := 3600.
Definition STALE_INDEX_PAGE_SIZE : nat := 100.
Definition MAX_STALE_INDEX_RECONCILE_ITERATIONS_PER_STATUS : nat := 1500.

Inductive ReconcileMode : Type := Promote | PurgeOrphans.

Record BatchRetrievalResult := {
  br_results : list TransactionRepoModel;
  br_failed_ids : list string;
}.

(** [HashMap::into_iter], in no specified order. *)
Class HashEntries (V : Type) := {
  hash_entries : gmap string V -> list (string * V);
  hash_entries_perm : forall m, hash_entries m ≡ₚ map_to_list m;
}.

(** Adjacent duplicates: [Vec::dedup]. *)
Fixpoint dedup (l : list string) : list string :=
  match l with
  | x :: ((y :: _) as l') => if String.eqb x y then dedup l' else x :: dedup l'
  | _ => l
  end.

Module RedisTx.
Section Ops.
Context `{Chrono} `{ServerConfig} `{JsonFloat} `{ForeignSerde} `{LuaJson} `{JsonText}
  `{SetOrder} `{HashEntries Z} (key_prefix : string).

(** ** Scores and nonces *)

Definition timestamp_to_score (timestamp : string) : Z :=
  match parse_rfc3339 timestamp with
  | Some t => t / 10 ^ 6
  | None => 0
  end.

Definition status_sorted_score (tx : TransactionRepoModel) : Z :=
  if status_eqb (tx_status tx) Confirmed then
    match tx_confirmed_at tx with
    | Some confirmed_at => timestamp_to_score confirmed_at
    | None => timestamp_to_score (tx_created_at tx)
    end
  else timestamp_to_score (tx_created_at tx).

Definition extract_nonce (nd : NetworkTransactionData) : option Z :=
  match get_evm_transaction_data nd with
  | Ok tx_data => evm_nonce tx_data
  | Err _ => None
  end.

(** ** Scripts with retries *)

Definition MAX_RETRIES : nat := 3.

(** The attempts that are left; a connection or script failure is retried except on the last
    one. *)
Fixpoint script_attempts {A} (n : nat) (script : keyspace -> result RedisError A * keyspace)
    (op_name : string) : Repo A :=
  match n with
  | O => failM (RepositoryError.UnexpectedError ("retry loop exhausted for " +:+ op_name))
  | S n' =>
      let* conn := try_ (get_connection op_name) in
      match conn with
      | Err e => match n' with O => failM e | _ => script_attempts n' script op_name end
      | Ok _ =>
          let* reply := try_ (invoke script) in
          match reply with
          | Ok a => retM a
          | Err e => match n' with
                     | O => failM (map_redis_error e op_name)
                     | _ => script_attempts n' script op_name
                     end
          end
      end
  end.

Definition run_script_with_retry_vec
    (script : keyspace -> result RedisError (option (json * json)) * keyspace)
    (op_name : string) : Repo (option (json * json)) :=
  script_attempts MAX_RETRIES script op_name.

Definition deserialize_tx (j : json) (id : string) : result RepositoryError.t TransactionRepoModel :=
  deserialize_entity tx_of_json j id "transaction".

Definition run_atomic_script
    (script : keyspace -> result RedisError (option json) * keyspace)
    (id op_name : string) : Repo TransactionRepoModel :=
  let* reply := script_attempts MAX_RETRIES script op_name in
  match reply with
  | Some j => liftM (deserialize_tx j id)
  | None => liftM (not_found id)
  end.

(** ** Reading *)

Definition empty_id {A} : Repo A :=
  failM (RepositoryError.InvalidData "Transaction ID cannot be empty").

Definition get_by_id_on (p : pool) (id context : string) : Repo TransactionRepoModel :=
  if String.eqb id "" then empty_id else
  do* get_connection context in
  let* relayer_id := query p (fun k => reverse k !! id) "get_transaction_reverse_lookup" in
  match relayer_id with
  | None => liftM (not_found id)
  | Some relayer_id =>
      let* value := query p (fun k => bodies k !! (relayer_id, id)) "get_transaction_by_id" in
      match value with
      | Some j => liftM (deserialize_tx j id)
      | None => liftM (not_found id)
      end
  end.

Definition get_by_id (id : string) : Repo TransactionRepoModel :=
  get_by_id_on Reader id "get_by_id".

Definition get_by_id_on_primary (id : string) : Repo TransactionRepoModel :=
  get_by_id_on Primary id "get_by_id_on_primary".

(** [MGET] of the reverse lookups: the ids that have a relayer, with it, and the others. *)
Definition split_known (rids : list (option string)) (ids : list string)
  : list (string * string) * list string :=
  fold_right (fun '(rid, id) '(known, unknown) =>
                match rid with
                | Some rid => ((rid, id) :: known, unknown)
                | None => (known, id :: unknown)
                end) ([], []) (zip rids ids).

(** [MGET] of the bodies: those that can be read, and the ids of the missing ones. *)
Definition split_bodies (values : list (option json)) (keys : list (string * string))
  : list TransactionRepoModel * list string :=
  fold_right (fun '(value, (_, id)) '(txs, missing) =>
                match value with
                | Some j => match tx_of_json j with
                            | Some tx => (tx :: txs, missing)
                            | None => (txs, missing)
                            end
                | None => (txs, id :: missing)
                end) ([], []) (zip values keys).

Definition get_transactions_by_ids_on (p : pool) (ids : list string)
  : Repo BatchRetrievalResult :=
  match ids with
  | [] => retM {| br_results := []; br_failed_ids := [] |}
  | _ =>
      do* get_connection "batch_fetch_transactions" in
      let* rids := query p (fun k => (fun id => reverse k !! id) <$> ids)
                     "batch_fetch_relayer_ids" in
      let '(keys, failed_ids) := split_known rids ids in
      match keys with
      | [] => retM {| br_results := []; br_failed_ids := failed_ids |}
      | _ =>
          let* values := query p (fun k => (fun key => bodies k !! key) <$> keys)
                           "batch_fetch_transactions" in
          let '(txs, missing) := split_bodies values keys in
          retM {| br_results := txs; br_failed_ids := failed_ids ++ missing |}
      end
  end.

Definition get_transactions_by_ids (ids : list string) : Repo BatchRetrievalResult :=
  get_transactions_by_ids_on Reader ids.

(** ** Indexes *)

(** The commands of the pipeline. *)
Definition update_index_cmds (tx : TransactionRepoModel) (old_tx : option TransactionRepoModel)
    (include_status_indexes : bool) : list cmd :=
  [SADD_relayer (tx_relayer_id tx)] ++
  (if include_status_indexes
   then [ZADD_sorted (tx_relayer_id tx) (tx_status tx) (tx_id tx) (status_sorted_score tx)]
   else []) ++
  match extract_nonce (tx_network_data tx) with
  | Some nonce => [SET_nonce (tx_relayer_id tx) nonce (tx_id tx)]
  | None => []
  end ++
  [ZADD_created (tx_relayer_id tx) (tx_id tx) (timestamp_to_score (tx_created_at tx))] ++
  match old_tx with
  | None => []
  | Some old =>
      (if include_status_indexes && negb (status_eqb (tx_status old) (tx_status tx))
       then [ZREM_sorted (tx_relayer_id old) (tx_status old) (tx_id tx);
             SREM_legacy (tx_relayer_id old) (tx_status old) (tx_id tx)]
       else []) ++
      match extract_nonce (tx_network_data old) with
      | Some old_nonce =>
          if bool_decide (Some old_nonce = extract_nonce (tx_network_data tx)) then []
          else [DEL_nonce (tx_relayer_id old) old_nonce]
      | None => []
      end
  end.

Definition update_indexes (tx : TransactionRepoModel) (old_tx : option TransactionRepoModel)
    (include_status_indexes : bool) : Repo unit :=
  do* get_connection "update_indexes" in
  exec (update_index_cmds tx old_tx include_status_indexes)
    ("update_indexes_for_tx_" +:+ tx_id tx).

(** The status indexes of one transaction, cleared. *)
Definition clear_status_indexes (relayer_id id : string) : list cmd :=
  concat ((fun status => [ZREM_sorted relayer_id status id; SREM_legacy relayer_id status id])
            <$> ALL_TRANSACTION_STATUSES).

Definition clear_nonce (relayer_id : string) (nonce : option Z) : list cmd :=
  match nonce with Some nonce => [DEL_nonce relayer_id nonce] | None => [] end.

Definition remove_all_indexes (tx : TransactionRepoModel) : Repo unit :=
  do* get_connection "remove_all_indexes" in
  exec
    (clear_status_indexes (tx_relayer_id tx) (tx_id tx) ++
     clear_nonce (tx_relayer_id tx) (extract_nonce (tx_network_data tx)) ++
     [ZREM_created (tx_relayer_id tx) (tx_id tx); DEL_reverse (tx_id tx)])
    ("remove_indexes_for_tx_" +:+ tx_id tx).

Definition ensure_status_sorted_set (relayer_id : string) (status : TransactionStatus)
  : Repo Z :=
  do* get_connection "ensure_status_sorted_set_check" in
  let* legacy_count :=
    query Primary (fun k => Z.of_nat (size (legacy k !!! (relayer_id, status))))
      "ensure_status_sorted_set_scard" in
  if legacy_count =? 0 then
    query Primary (fun k => ZCARD (sorted k !!! (relayer_id, status)))
      "ensure_status_sorted_set_zcard"
  else
    let* legacy_ids :=
      query Primary (fun k => SMEMBERS (legacy k !!! (relayer_id, status)))
        "ensure_status_sorted_set_smembers" in
    match legacy_ids with
    | [] => retM 0
    | _ =>
        let* transactions := get_transactions_by_ids legacy_ids in
        do* get_connection "ensure_status_sorted_set_migrate" in
        match br_results transactions with
        | [] =>
            do* exec [DEL_legacy relayer_id status] "ensure_status_sorted_set_del_stale" in
            retM 0
        | txs =>
            do* exec (((fun tx => ZADD_sorted relayer_id status (tx_id tx)
                                    (status_sorted_score tx)) <$> txs) ++
                      [DEL_legacy relayer_id status])
                  "ensure_status_sorted_set_migrate" in
            retM (Z.of_nat (length txs))
        end
    end.

(** ** The repository trait *)

Definition create (entity : TransactionRepoModel) : Repo TransactionRepoModel :=
  if String.eqb (tx_id entity) "" then empty_id else
  do* get_connection "create" in
  let* existing := query Primary (fun k => reverse k !! tx_id entity) "create_transaction_check" in
  match existing with
  | Some _ =>
      failM (RepositoryError.ConstraintViolation
               ("Transaction with ID " +:+ tx_id entity +:+ " already exists"))
  | None =>
      do* exec [SET_body (tx_relayer_id entity) (tx_id entity) (tx_json entity);
                SET_reverse (tx_id entity) (tx_relayer_id entity)] "create_transaction" in
      do* update_indexes entity None true in
      retM entity
  end.

Definition update (id : string) (entity : TransactionRepoModel) : Repo TransactionRepoModel :=
  if String.eqb id "" then empty_id else
  let* old_tx := get_by_id id in
  do* get_connection "update" in
  do* exec [SET_body (tx_relayer_id entity) id (tx_json entity)] "update_transaction" in
  do* update_indexes entity (Some old_tx) true in
  retM entity.

Definition delete_by_id (id : string) : Repo unit :=
  if String.eqb id "" then empty_id else
  let* tx := get_by_id id in
  do* get_connection "delete_by_id" in
  do* exec [DEL_body (tx_relayer_id tx) id; DEL_reverse id] "delete_transaction" in
  do* try_ (remove_all_indexes tx) in
  retM tt.

(** Newest first by creation time. *)
Definition by_created_desc (a b : TransactionRepoModel) : comparison :=
  String.compare (tx_created_at b) (tx_created_at a).

(** The ids of every relayer's creation index, newest first. *)
Definition collect_created_ids (context : string) (relayer_ids : list string)
  : Repo (list string) :=
  foldM (fun all_tx_ids relayer_id =>
           let* tx_ids :=
             query Reader (fun k => ZRANGE (created k !!! relayer_id) 0 (-1) true) context in
           retM (all_tx_ids ++ tx_ids)) [] relayer_ids.

Definition list_all : Repo (list TransactionRepoModel) :=
  do* get_connection "list_all" in
  let* relayer_ids := query Reader (fun k => SMEMBERS (relayer_list k)) "list_all_relayer_ids" in
  let* all_tx_ids := collect_created_ids "list_all_relayer_sorted" relayer_ids in
  let* batch_result := get_transactions_by_ids all_tx_ids in
  retM (sorted_by by_created_desc (br_results batch_result)).

Definition empty_page {A} (total : Z) (q : PaginationQuery) : PaginatedResult A :=
  {| pr_items := []; pr_total := total; pr_page := page q; pr_per_page := per_page q |}.

Definition list_paginated (q : PaginationQuery) : Repo (PaginatedResult TransactionRepoModel) :=
  if per_page q =? 0 then
    failM (RepositoryError.InvalidData "per_page must be greater than 0")
  else
  do* get_connection "list_paginated" in
  let* relayer_ids :=
    query Reader (fun k => SMEMBERS (relayer_list k)) "list_paginated_relayer_ids" in
  let* all_tx_ids := collect_created_ids "list_paginated_relayer_sorted" relayer_ids in
  let* batch_result := get_transactions_by_ids all_tx_ids in
  let all_transactions := sorted_by by_created_desc (br_results batch_result) in
  let total := Z.of_nat (length all_transactions) in
  let start := InMemory.start_of q in
  if total <=? start then retM (empty_page total q)
  else retM {| pr_items := page_slice start (per_page q) all_transactions; pr_total := total;
               pr_page := page q; pr_per_page := per_page q |}.

Definition count : Repo Z :=
  do* get_connection "count" in
  let* relayer_ids := query Reader (fun k => SMEMBERS (relayer_list k)) "count_relayer_ids" in
  foldM (fun total relayer_id =>
           let* n := query Reader (fun k => ZCARD (created k !!! relayer_id))
                       "count_relayer_transactions" in
           retM (total + n)) 0 relayer_ids.

Definition has_entries : Repo bool :=
  do* get_connection "has_entries" in
  query Reader (fun k => negb (bool_decide (relayer_list k = ∅))) "has_entries_check".

(** The ids [SCAN MATCH prefix:relayer:{relayer_id}:tx:*] finds; the iteration is one read. *)
Definition scan_tx_ids (relayer_id : string) (k : keyspace) : list string :=
  (List.filter (fun key => String.eqb (fst key) relayer_id) (map_to_list (bodies k)).*1).*2.

Definition drop_relayer (relayer_id : string) (tx_ids : list string) : list cmd :=
  (DEL_body relayer_id <$> tx_ids) ++
  concat ((fun id => DEL_reverse id :: clear_status_indexes relayer_id id) <$> tx_ids) ++
  [DEL_created relayer_id].

Definition drop_all_entries : Repo unit :=
  do* get_connection "drop_all_entries" in
  let* relayer_ids :=
    query Primary (fun k => SMEMBERS (relayer_list k)) "drop_all_entries_get_relayer_ids" in
  match relayer_ids with
  | [] => retM tt
  | _ =>
      let* cmds :=
        foldM (fun cmds relayer_id =>
                 let* tx_ids := query Primary (scan_tx_ids relayer_id) "drop_all_entries_scan" in
                 retM (cmds ++ drop_relayer relayer_id tx_ids)) [] relayer_ids in
      exec (cmds ++ [DEL_relayer_list]) "drop_all_entries_pipeline"
  end.

(** ** Finders *)

Definition find_by_relayer_id (relayer_id : string) (q : PaginationQuery)
  : Repo (PaginatedResult TransactionRepoModel) :=
  do* get_connection "find_by_relayer_id" in
  let* total := query Reader (fun k => ZCARD (created k !!! relayer_id))
                  "find_by_relayer_id_count" in
  if total =? 0 then retM (empty_page 0 q) else
  let start := InMemory.start_of q in
  let stop := start + per_page q - 1 in
  if total <=? start then retM (empty_page total q) else
  let* page_ids := query Reader (fun k => ZRANGE (created k !!! relayer_id) start stop true)
                     "find_by_relayer_id_sorted" in
  let* items := get_transactions_by_ids page_ids in
  retM {| pr_items := br_results items; pr_total := total; pr_page := page q;
          pr_per_page := per_page q |}.

Definition ensure_all (relayer_id : string) (statuses : list TransactionStatus) : Repo unit :=
  foldM (fun _ status => do* ensure_status_sorted_set relayer_id status in retM tt) tt statuses.

Definition find_by_status (relayer_id : string) (statuses : list TransactionStatus)
  : Repo (list TransactionRepoModel) :=
  do* ensure_all relayer_id statuses in
  do* get_connection "find_by_status" in
  let* all_ids :=
    foldM (fun all_ids status =>
             let* ids := query Primary (fun k => ZRANGE (sorted k !!! (relayer_id, status)) 0 (-1) true)
                           "find_by_status" in
             retM (all_ids ++ ids)) [] statuses in
  match all_ids with
  | [] => retM []
  | _ =>
      let all_ids := dedup (sorted_by String.compare all_ids) in
      let* transactions := get_transactions_by_ids_on Primary all_ids in
      retM (sorted_by by_created_desc (br_results transactions))
  end.

(** The merged ids of several statuses, each with its extreme score. *)
Definition merge_score (oldest_first : bool) (m : gmap string Z) (entry : string * Z)
  : gmap string Z :=
  let '(id, score) := entry in
  match m !! id with
  | Some s =>
      if oldest_first then if score <? s then <[id := score]> m else m
      else if s <? score then <[id := score]> m else m
  | None => <[id := score]> m
  end.

Definition by_score (oldest_first : bool) (a b : string * Z) : comparison :=
  if oldest_first then snd a ?= snd b else snd b ?= snd a.

Definition merged_ids (oldest_first : bool) (all_ids : list (string * Z)) : list string :=
  (sorted_by (by_score oldest_first)
     (hash_entries (fold_left (merge_score oldest_first) all_ids ∅))).*1.

Definition collect_scored (relayer_id context : string) (statuses : list TransactionStatus)
  : Repo (list (string * Z)) :=
  foldM (fun all_ids status =>
           let* ids := query Reader (fun k => zmembers (sorted k !!! (relayer_id, status))) context in
           retM (all_ids ++ ids)) [] statuses.

Definition find_by_status_paginated (relayer_id : string) (statuses : list TransactionStatus)
    (q : PaginationQuery) (oldest_first : bool) : Repo (PaginatedResult TransactionRepoModel) :=
  do* ensure_all relayer_id statuses in
  do* get_connection "find_by_status_paginated" in
  let start := InMemory.start_of_saturating q in
  match statuses with
  | [status] =>
      let* total := query Reader (fun k => ZCARD (sorted k !!! (relayer_id, status)))
                      "find_by_status_paginated_count" in
      if total =? 0 then retM (empty_page 0 q) else
      let stop := start + per_page q - 1 in
      let* page_ids :=
        query Reader (fun k => ZRANGE (sorted k !!! (relayer_id, status)) start stop
                                 (negb oldest_first)) "find_by_status_paginated" in
      let* transactions := get_transactions_by_ids page_ids in
      retM {| pr_items := br_results transactions; pr_total := total; pr_page := page q;
              pr_per_page := per_page q |}
  | _ =>
      let* all_ids := collect_scored relayer_id "find_by_status_paginated_multi" statuses in
      let sorted_ids := merged_ids oldest_first all_ids in
      let total := Z.of_nat (length sorted_ids) in
      if total =? 0 then retM (empty_page 0 q) else
      let* transactions := get_transactions_by_ids (page_slice start (per_page q) sorted_ids) in
      retM {| pr_items := br_results transactions; pr_total := total; pr_page := page q;
              pr_per_page := per_page q |}
  end.

(** [by_id.remove(id)] for each id in turn. *)
Fixpoint take_by_id (by_id : gmap string TransactionRepoModel) (ids : list string)
  : list TransactionRepoModel :=
  match ids with
  | [] => []
  | id :: ids' => match by_id !! id with
                  | Some t => t :: take_by_id (delete id by_id) ids'
                  | None => take_by_id by_id ids'
                  end
  end.

Definition find_by_status_paginated_filtered (relayer_id : string)
    (statuses : list TransactionStatus) (q : PaginationQuery)
    (oldest_first exclude_canceled : bool) : Repo (PaginatedResult TransactionRepoModel) :=
  if negb exclude_canceled then find_by_status_paginated relayer_id statuses q oldest_first else
  do* ensure_all relayer_id statuses in
  do* get_connection "find_by_status_paginated_filtered" in
  let* all_ids := collect_scored relayer_id "find_by_status_paginated_filtered" statuses in
  let ordered_ids := merged_ids oldest_first all_ids in
  let* fetched := get_transactions_by_ids ordered_ids in
  let by_id := list_to_map ((fun t => (tx_id t, t)) <$> rev (br_results fetched)) in
  let filtered :=
    List.filter (fun t => negb (bool_decide (tx_is_canceled t = Some true)))
      (take_by_id by_id ordered_ids) in
  retM {| pr_items := page_slice (InMemory.start_of_saturating q) (per_page q) filtered;
          pr_total := Z.of_nat (length filtered); pr_page := page q; pr_per_page := per_page q |}.

Definition find_by_nonce (relayer_id : string) (nonce : Z)
  : Repo (option TransactionRepoModel) :=
  do* get_connection "find_by_nonce" in
  let* id := query Reader (fun k => nonce_index k !! (relayer_id, nonce)) "find_by_nonce" in
  match id with
  | Some id =>
      let* r := try_ (get_by_id id) in
      match r with
      | Ok tx => retM (Some tx)
      | Err (RepositoryError.NotFound _) => retM None
      | Err e => failM e
      end
  | None => retM None
  end.

(** The statuses of the slots that hold an id, by position. *)
Definition slot_status (values : list (option json)) (slots : list (option string))
  : list (option TransactionStatus) :=
  snd (fold_left (fun '(values, acc) slot =>
                    match slot, values with
                    | Some _, v :: values' =>
                        (values', acc ++ [v ≫= (fun j => tx_status <$> tx_of_json j)])
                    | _, _ => (values, acc ++ [None])
                    end) slots (values, [])).

Definition get_nonce_occupancy (relayer_id : string) (from_nonce to_nonce : Z)
  : Repo (list (Z * option TransactionStatus)) :=
  if to_nonce <=? from_nonce then retM [] else
  let nonces := nonce_range from_nonce to_nonce in
  do* get_connection "get_nonce_occupancy" in
  let* tx_ids := query Primary (fun k => (fun n => nonce_index k !! (relayer_id, n)) <$> nonces)
                   "get_nonce_occupancy:mget_nonces" in
  let keys := omap (fun o => (fun id => (relayer_id, id)) <$> o) tx_ids in
  let* values :=
    match keys with
    | [] => retM []
    | _ => query Primary (fun k => (fun key => bodies k !! key) <$> keys)
             "get_nonce_occupancy:mget_txs"
    end in
  retM (zip nonces (slot_status values tx_ids)).

Definition count_by_status (relayer_id : string) (statuses : list TransactionStatus) : Repo Z :=
  do* get_connection "count_by_status" in
  foldM (fun total status =>
           do* ensure_status_sorted_set relayer_id status in
           let* n := query Reader (fun k => ZCARD (sorted k !!! (relayer_id, status)))
                       "count_by_status" in
           retM (total + n)) 0 statuses.

(** ** The scripts

    A script runs on the primary, alone.  It reads the relayer of the transaction, builds the
    key of the body and reads it; [false] (here [None]) is its reply when either is missing. *)

Definition lua_error : RedisError :=
  {| err_kind := ErrorKind.OtherKind; err_display := "An error was signalled by the server" |}.

Definition with_body {A} (id : string)
    (k : string -> list field -> keyspace -> result RedisError (option A) * keyspace)
    (ks : keyspace) : result RedisError (option A) * keyspace :=
  match reverse ks !! id with
  | None => (Ok None, ks)
  | Some relayer_id =>
      match bodies ks !! (relayer_id, id) with
      | None => (Ok None, ks)
      | Some (JObject current) => k relayer_id current ks
      | Some _ => (Err lua_error, ks)
      end
  end.

(** [cjson.decode] of the fields of an object. *)
Definition decode_fields : list field -> list field := map_values (fun _ => cjson_decode).

(** [tx["status"]] *)
Definition status_name (fs : list field) : option string :=
  match lua_get "status" fs with Some (JString s) => Some s | _ => None end.

(** [final_states[...]] *)
Definition is_final_name (o : option string) : bool :=
  match o with
  | Some s => bool_decide (s ∈ ["confirmed"; "failed"; "expired"; "canceled"]%string)
  | None => false
  end.

(** The document passed to the script: key suffixes by status name (a suffix is kept as the
    status it is built from), the names of the non-final statuses, and the score of a
    confirmation. *)
Record IndexMetadata := {
  im_sorted : list (string * TransactionStatus);
  im_legacy : list (string * TransactionStatus);
  im_nonfinal : list string;
  im_confirmed_score : option Z;
  im_tx_id : string;
}.

(** A status is serialized as its lower-case name. *)
Definition status_json_key (status : TransactionStatus) : string := status_string status.

Definition partial_update_index_metadata (id : string) (u : TransactionUpdateRequest)
  : IndexMetadata :=
  let suffixes := (fun status => (status_json_key status, status)) <$> ALL_TRANSACTION_STATUSES in
  {| im_sorted := suffixes;
     im_legacy := suffixes;
     im_nonfinal := status_json_key <$> NON_FINAL_STATUS_INDEXES;
     im_confirmed_score :=
       if bool_decide (upd_status u = Some Confirmed)
       then timestamp_to_score <$> upd_confirmed_at u else None;
     im_tx_id := id |}.

(** [index_meta["sorted"][name]] *)
Definition suffix_of (l : list (string * TransactionStatus)) (name : string)
  : option TransactionStatus :=
  snd <$> find (fun kv => String.eqb (fst kv) name) l.

(** [ZREM] and [SREM] of the entry under a status name. *)
Definition leave_status (relayer_id : string) (im : IndexMetadata) (name : string) : list cmd :=
  match suffix_of (im_sorted im) name with
  | Some status => [ZREM_sorted relayer_id status (im_tx_id im)]
  | None => []
  end ++
  match suffix_of (im_legacy im) name with
  | Some status => [SREM_legacy relayer_id status (im_tx_id im)]
  | None => []
  end.

(** Moving the entry of the status index. *)
Definition move_status_index (relayer_id : string) (im : IndexMetadata)
    (old_status new_status : option string) (ks : keyspace) : keyspace :=
  pipeline
    (match new_status ≫= suffix_of (im_sorted im) with
     | Some status =>
         let score :=
           match im_confirmed_score im with
           | Some score =>
               if bool_decide (new_status = Some "confirmed"%string) then score
               else default 0 ((created ks !!! relayer_id) !! im_tx_id im)
           | None => default 0 ((created ks !!! relayer_id) !! im_tx_id im)
           end in
         [ZADD_sorted relayer_id status (im_tx_id im) score]
     | None => []
     end ++
     match old_status with
     | Some name => leave_status relayer_id im name
     | None => []
     end ++
     (if is_final_name new_status
      then concat (leave_status relayer_id im <$> im_nonfinal im) else [])) ks.

(** The patched table: the fields of the patch, and [delete_at] when it is given and not set. *)
Definition patch_table (tx patch : list field) (delete_at : string) : list field :=
  let tx := set_all patch tx in
  if negb (String.eqb delete_at "") &&
     match lua_get "delete_at" tx with None | Some JNull => true | _ => false end
  then set_field "delete_at" (JString delete_at) tx
  else tx.

Definition patch_script (id : string) (patch : list field) (delete_at : string)
    (index_meta : option IndexMetadata)
  : keyspace -> result RedisError (option (json * json)) * keyspace :=
  with_body id (fun relayer_id current ks =>
    let tx := decode_fields current in
    let old_status := status_name tx in
    let status_patched := negb (bool_decide (lua_get "status" patch = None)) in
    if is_final_name old_status && status_patched
    then (Ok (Some (JObject current, JObject current)), ks)
    else
      let empty_arrs := remove_dups (empty_keys (JObject current) ++ empty_keys (JObject patch)) in
      let tx := patch_table tx (decode_fields patch) delete_at in
      let new_status := status_name tx in
      let updated := restore_arrays empty_arrs (cjson_encode (JObject tx)) in
      let ks := SET_body relayer_id id updated ks in
      let ks := match index_meta with
                | Some im =>
                    if status_patched && negb (bool_decide (new_status = old_status))
                    then move_status_index relayer_id im old_status new_status ks else ks
                | None => ks
                end in
      (Ok (Some (JObject current, updated)), ks)).

(** The deletion time passed to the script when the update sets a final status; [now] is the
    clock. *)
Definition delete_at_arg (now : Z) (u : TransactionUpdateRequest) : string :=
  match upd_status u with
  | Some status =>
      if status_in status FINAL_TRANSACTION_STATUSES
      then to_rfc3339 (now + transaction_expiration_seconds * 10 ^ 9) else ""
  | None => ""
  end.

Definition partial_update (now : Z) (id : string) (u : TransactionUpdateRequest)
  : Repo TransactionRepoModel :=
  let index_meta :=
    match upd_status u with
    | Some _ => Some (partial_update_index_metadata id u)
    | None => None
    end in
  let* reply :=
    run_script_with_retry_vec (patch_script id (update_fields u) (delete_at_arg now u) index_meta)
      "partial_update" in
  match reply with
  | None => liftM (not_found id)
  | Some (old_json, new_json) =>
      let* original_tx := liftM (deserialize_tx old_json id) in
      let* updated_tx := liftM (deserialize_tx new_json id) in
      do* update_indexes updated_tx (Some original_tx) false in
      retM updated_tx
  end.

Definition update_status (now : Z) (id : string) (status : TransactionStatus)
  : Repo TransactionRepoModel :=
  partial_update now id
    {| upd_status := Some status; upd_status_reason := None; upd_sent_at := None;
       upd_confirmed_at := None; upd_network_data := None; upd_priced_at := None;
       upd_hashes := None; upd_noop_count := None; upd_is_canceled := None;
       upd_delete_at := None; upd_metadata := None |}.

Definition update_network_data (now : Z) (id : string) (nd : NetworkTransactionData)
  : Repo TransactionRepoModel :=
  partial_update now id
    {| upd_status := None; upd_status_reason := None; upd_sent_at := None;
       upd_confirmed_at := None; upd_network_data := Some nd; upd_priced_at := None;
       upd_hashes := None; upd_noop_count := None; upd_is_canceled := None;
       upd_delete_at := None; upd_metadata := None |}.

Definition set_sent_at (now : Z) (id sent_at : string) : Repo TransactionRepoModel :=
  partial_update now id
    {| upd_status := None; upd_status_reason := None; upd_sent_at := Some sent_at;
       upd_confirmed_at := None; upd_network_data := None; upd_priced_at := None;
       upd_hashes := None; upd_noop_count := None; upd_is_canceled := None;
       upd_delete_at := None; upd_metadata := None |}.

Definition set_confirmed_at (now : Z) (id confirmed_at : string) : Repo TransactionRepoModel :=
  partial_update now id
    {| upd_status := None; upd_status_reason := None; upd_sent_at := None;
       upd_confirmed_at := Some confirmed_at; upd_network_data := None; upd_priced_at := None;
       upd_hashes := None; upd_noop_count := None; upd_is_canceled := None;
       upd_delete_at := None; upd_metadata := None |}.

(** *** The scripts that edit the text in place *)

(** [set_obj] and [set_str]: replace the field where it is, with the expected kind of value or
    [null], or append it. *)
Definition set_text (p : json -> bool) (key : string) (enc : json) (j : json) : json :=
  match replace_first p key enc j with
  | Some j' => j'
  | None =>
      match replace_first is_null key enc j with
      | Some j' => j'
      | None => match j with JObject fs => JObject (fs ++ [(key, enc)]) | _ => j end
      end
  end.

Definition set_obj (key : string) (tbl : list field) (j : json) : json :=
  set_text is_object key (cjson_encode (JObject tbl)) j.

Definition set_str (key val : string) (j : json) : json :=
  set_text is_string key (JString val) j.

(** [(t[k] or 0) + 1]; arithmetic on anything but a number is a script error. *)
Definition lua_increment (k : string) (fs : list field) : option (list field) :=
  match lua_get k fs with
  | None => Some (set_field k (JNumber (lua_number (print_dec 1))) fs)
  | Some (JNumber s) =>
      match integer_literal s with
      | Some n => Some (set_field k (JNumber (lua_number (print_signed (n + 1)))) fs)
      | None => None
      end
  | Some _ => None
  end.

(** The shape of the four scripts: nothing for a finalized transaction; otherwise [edit] the
    decoded metadata and [retouch] the text. *)
Definition metadata_script (id : string) (edit : list field -> option (list field))
    (retouch : json -> json) : keyspace -> result RedisError (option json) * keyspace :=
  with_body id (fun relayer_id current ks =>
    let tx := decode_fields current in
    if is_final_name (status_name tx) then (Ok (Some (JObject current)), ks)
    else
      let metadata := match lua_get "metadata" tx with Some (JObject m) => m | _ => [] end in
      match edit metadata with
      | None => (Err lua_error, ks)
      | Some metadata =>
          let updated := set_obj "metadata" metadata (retouch (JObject current)) in
          (Ok (Some updated), SET_body relayer_id id updated ks)
      end).

Definition increment_status_check_failures (id : string) : Repo TransactionRepoModel :=
  run_atomic_script
    (metadata_script id
       (fun m => m ← lua_increment "consecutive_failures" m; lua_increment "total_failures" m)
       (fun j => j))
    id "increment_status_check_failures".

Definition reset_status_check_consecutive_failures (id : string) : Repo TransactionRepoModel :=
  run_atomic_script
    (metadata_script id
       (fun m => Some (set_field "consecutive_failures" (JNumber (lua_number (print_dec 0))) m))
       (fun j => j))
    id "reset_status_check_consecutive_failures".

Definition record_stellar_insufficient_fee_retry (id sent_at : string)
  : Repo TransactionRepoModel :=
  run_atomic_script
    (metadata_script id (lua_increment "insufficient_fee_retries") (set_str "sent_at" sent_at))
    id "record_stellar_insufficient_fee_retry".

Definition record_stellar_try_again_later_retry (id sent_at : string)
  : Repo TransactionRepoModel :=
  run_atomic_script
    (metadata_script id (lua_increment "try_again_later_retries") (set_str "sent_at" sent_at))
    id "record_stellar_try_again_later_retry".

(** ** Deletion *)

(** What one request removes. *)
Definition delete_request_cmds (req : TransactionDeleteRequest) : list cmd :=
  [DEL_body (dr_relayer_id req) (dr_id req); DEL_reverse (dr_id req)] ++
  clear_status_indexes (dr_relayer_id req) (dr_id req) ++
  clear_nonce (dr_relayer_id req) (dr_nonce req) ++
  [ZREM_created (dr_relayer_id req) (dr_id req)].

Definition delete_by_requests (requests : list TransactionDeleteRequest)
  : Repo BatchDeleteResult :=
  match requests with
  | [] => retM {| deleted_count := 0; failed := [] |}
  | _ =>
      do* get_connection "batch_delete_no_fetch" in
      let* r := try_ (invoke (fun k => (Ok tt, pipeline (concat (delete_request_cmds <$> requests)) k))) in
      match r with
      | Ok _ => retM {| deleted_count := Z.of_nat (length requests); failed := [] |}
      | Err e =>
          retM {| deleted_count := 0;
                  failed := (fun req => (dr_id req, "Redis pipeline error: " +:+ err_display e))
                              <$> requests |}
      end
  end.

Definition delete_by_ids (ids : list string) : Repo BatchDeleteResult :=
  match ids with
  | [] => retM {| deleted_count := 0; failed := [] |}
  | _ =>
      let* batch_result := get_transactions_by_ids ids in
      let requests :=
        (fun tx => {| dr_id := tx_id tx; dr_relayer_id := tx_relayer_id tx;
                      dr_nonce := extract_nonce (tx_network_data tx) |})
          <$> br_results batch_result in
      let* result := delete_by_requests requests in
      retM {| deleted_count := deleted_count result;
              failed := failed result ++
                ((fun id => (id, "Transaction with ID " +:+ id +:+ " not found"))
                   <$> br_failed_ids batch_result) |}
  end.

(** ** Stale status indexes *)

(** What the sweep does with one entry of a page: the commands, and whether it was repaired. *)
Definition reconcile_entry (relayer_id : string) (index_status : TransactionStatus)
    (mode : ReconcileMode) (batch : BatchRetrievalResult) (id : string) : list cmd :=
  let drop := [ZREM_sorted relayer_id index_status id; SREM_legacy relayer_id index_status id] in
  if bool_decide (id ∈ br_failed_ids batch) then drop
  else match mode with
  | PurgeOrphans => []
  | Promote =>
      match find (fun tx => String.eqb (tx_id tx) id) (rev (br_results batch)) with
      | None => []
      | Some tx =>
          if status_in (tx_status tx) FINAL_TRANSACTION_STATUSES &&
             negb (status_eqb (tx_status tx) index_status)
          then drop ++ [ZADD_sorted (tx_relayer_id tx) (tx_status tx) id (status_sorted_score tx)]
          else []
      end
  end.

(** The loop: a page is scanned from [offset]; a page with repairs is scanned again, one
    without is skipped.  [fuel] counts the iterations that are left. *)
Fixpoint reconcile_loop (fuel : nat) (relayer_id : string) (index_status : TransactionStatus)
    (cutoff_ms : Z) (mode : ReconcileMode) (offset : nat) (total_repaired : Z) : Repo Z :=
  match fuel with
  | O => retM total_repaired
  | S fuel' =>
      do* get_connection "reconcile_stale_status_indexes_scan" in
      let* ids :=
        query Primary (fun k => ZRANGEBYSCORE (sorted k !!! (relayer_id, index_status)) cutoff_ms
                                  offset STALE_INDEX_PAGE_SIZE)
          "reconcile_stale_status_indexes_scan" in
      match ids with
      | [] => retM total_repaired
      | _ =>
          let* batch := get_transactions_by_ids ids in
          let repairs := reconcile_entry relayer_id index_status mode batch <$> ids in
          let repaired_on_page :=
            length (List.filter (fun cmds => negb (length cmds =? 0)%nat) repairs) in
          if (0 <? repaired_on_page)%nat then
            do* get_connection "reconcile_stale_status_indexes_update" in
            do* exec (concat repairs) "reconcile_stale_status_indexes_update" in
            reconcile_loop fuel' relayer_id index_status cutoff_ms mode offset
              (total_repaired + Z.of_nat repaired_on_page)
          else
            reconcile_loop fuel' relayer_id index_status cutoff_ms mode (offset + length ids)
              total_repaired
      end
  end.

Definition reconcile_status_index (relayer_id : string) (index_status : TransactionStatus)
    (cutoff_ms : Z) (mode : ReconcileMode) : Repo Z :=
  reconcile_loop MAX_STALE_INDEX_RECONCILE_ITERATIONS_PER_STATUS relayer_id index_status
    cutoff_ms mode 0 0.

Definition reconcile_stale_status_indexes (now : Z) (relayer_id : string) : Repo Z :=
  let cutoff_ms := (now - STALE_INDEX_MIN_AGE_SECS * 10 ^ 9) / 10 ^ 6 in
  let* total :=
    foldM (fun total status =>
             let* repaired := reconcile_status_index relayer_id status cutoff_ms Promote in
             retM (total + repaired)) 0 NON_FINAL_STATUS_INDEXES in
  foldM (fun total status =>
           let* repaired := reconcile_status_index relayer_id status cutoff_ms PurgeOrphans in
           retM (total + repaired)) total FINAL_TRANSACTION_STATUSES.

(** ** Idempotency keys

    [now] is the server's clock: a key whose time to live has passed is gone. *)

Definition idempotency_json (r : IdempotencyRecord) : json :=
  JObject [("fingerprint", JString (ir_fingerprint r)); ("tx_id", JString (ir_tx_id r));
           ("created_at", JString (ir_created_at r))].

Definition idempotency_of_json (j : json) : option IdempotencyRecord :=
  match j with
  | JObject fs =>
      f ← req of_json_string "fingerprint" fs; i ← req of_json_string "tx_id" fs;
      c ← req of_json_string "created_at" fs;
      Some {| ir_fingerprint := f; ir_tx_id := i; ir_created_at := c |}
  | _ => None
  end.

(** [GET] of an idempotency key. *)
Definition live_record (now : Z) (relayer_id key : string) (k : keyspace) : option json :=
  match idem k !! (relayer_id, key) with
  | Some (j, expiry) => if now <? expiry then Some j else None
  | None => None
  end.

(** [SET key value NX EX ttl] *)
Definition reserve_idempotency_key (now : Z) (relayer_id key : string)
    (record : IdempotencyRecord) (ttl_seconds : Z) : Repo bool :=
  do* get_connection "reserve_idempotency_key" in
  map_errM (fun e => map_redis_error e "reserve_idempotency_key")
    (invoke (fun k =>
       match live_record now relayer_id key k with
       | Some _ => (Ok false, k)
       | None => (Ok true, set_idem (insert (relayer_id, key)
                    (idempotency_json record, now + ttl_seconds * 10 ^ 9)) k)
       end)).

Definition get_idempotency_record (now : Z) (relayer_id key : string)
  : Repo (option IdempotencyRecord) :=
  do* get_connection "get_idempotency_record" in
  let* value := query Primary (live_record now relayer_id key) "get_idempotency_record" in
  match value with
  | Some j =>
      let redis_key := Keys.relayer_idempotency_key key_prefix relayer_id key in
      let* r := liftM (deserialize_entity idempotency_of_json j redis_key "IdempotencyRecord") in
      retM (Some r)
  | None => retM None
  end.

(** The script: delete the key if it still holds this request's reservation and the
    transaction was never stored. *)
Definition release_script (now : Z) (relayer_id key id : string) (k : keyspace)
  : result RedisError bool * keyspace :=
  match live_record now relayer_id key k with
  | None => (Ok false, k)
  | Some (JObject fs) =>
      match lua_get "tx_id" fs with
      | Some (JString owner) =>
          if negb (String.eqb owner id) then (Ok false, k)
          else if bool_decide (is_Some (reverse k !! id)) then (Ok false, k)
          else (Ok true, set_idem (delete (relayer_id, key)) k)
      | _ => (Ok false, k)
      end
  | Some _ => (Err lua_error, k)
  end.

Definition release_idempotency_key_if_unused (now : Z) (relayer_id key id : string) : Repo bool :=
  do* get_connection "release_idempotency_key_if_unused" in
  map_errM (fun e => map_redis_error e "release_idempotency_key_if_unused")
    (invoke (release_script now relayer_id key id)).
End Ops.
End RedisTx.
