(* ===== verification/RedisDocuments.v ===== *)
(** * Stored documents

    The body of a transaction in Redis is a JSON document the scripts decode, edit and encode
    again, or edit in place.  [fields_of] says that the fields of a document stand for a model,
    whatever their order; a document of a [storable] model is read back as the model, and the
    scripts' edits of its text are the updates of the model. *)

From S2P Require Import Prelude Decimal Errors Json Model TransactionJson Repository RedisBase.
From S2P Require Import RedisTransaction.
Open Scope Z_scope.
Import RedisTx.

(** ** Documents *)

Section Documents.
Context `{Chrono} `{ServerConfig} `{JsonFloat} `{ForeignSerde} `{LuaJson}.

(** A counter document: numbers in range, under distinct known keys. *)
Definition metadata_keys : list string :=
  ["consecutive_failures"; "total_failures"; "insufficient_fee_retries";
   "try_again_later_retries"; "nonce_too_high_retries"]%string.

Definition counter_entry (kv : field) : Prop :=
  fst kv ∈ metadata_keys /\ exists n, snd kv = json_uint n /\ 0 <= n <= u32_max.

Definition counters_doc (fs : list field) : Prop :=
  fs <> [] /\ NoDup fs.*1 /\ Forall counter_entry fs.

(** The documents of the metadata: [null], or the counters, missing ones being 0. *)
Definition meta_doc (j : json) (o : option TransactionMetadata) : Prop :=
  match j, o with
  | JNull, None => True
  | JObject fs, Some m => counters_doc fs /\ metadata_of_json (JObject fs) = Some m
  | _, _ => False
  end.

(** Network data the scripts leave intact: its numbers survive Lua, no object in it is empty, no
    two empty arrays have the same key, and no key in it is one the scripts look for in the
    text. *)
Definition safe_data (nd : NetworkTransactionData) : Prop :=
  let j := network_data_json nd in
  network_data_ok nd /\ lua_stable j = true /\ NoDup ("hashes"%string :: empty_keys j) /\
  key_free "metadata" j = true /\ key_free "sent_at" j = true.

(** A model whose document survives the scripts. *)
Definition storable (t : TransactionRepoModel) : Prop :=
  safe_data (tx_network_data t) /\ in_range_opt u32_max (tx_noop_count t).

(** The fields of a document stand for a model. *)
Definition fields_of (fs : list field) (t : TransactionRepoModel) : Prop :=
  exists meta, meta_doc meta (tx_metadata t) /\
               norm_fields fs = norm_fields (tx_fields_with meta t).

Lemma json_uint_stable n : 0 <= n <= u32_max -> lua_stable (json_uint n) = true.
Proof.
  intros Hn. simpl. rewrite lua_number_small; [apply String.eqb_refl|].
  unfold u32_max in Hn. lia.
Qed.

(** A field [cjson] leaves intact. *)
Definition stable_field (kv : field) : bool :=
  let '(k, v) := kv in
  negb (is_empty_object v) && match v with JArray [] => true | _ => lua_stable v end.

Lemma stable_object fs :
  lua_stable (JObject fs) = bool_decide (NoDup fs.*1) && forallb stable_field fs.
Proof. done. Qed.

Lemma stable_strings k l : stable_field (k, json_list json_str l) = true.
Proof.
  destruct l as [|x l]; [done|]. simpl. apply forallb_forall.
  intros j Hj. by apply in_map_iff in Hj as (y & <- & _).
Qed.

Lemma network_data_object nd : exists kv fs, network_data_json nd = JObject (kv :: fs).
Proof. destruct nd; eauto. Qed.

Lemma storable_body_stable t : storable t -> forallb stable_field (tx_body_fields t) = true.
Proof.
  intros ((_ & Hs & _) & Hn).
  assert (forall k (o : option string), stable_field (k, json_option json_str o) = true) as Hstr
    by (by intros k []).
  unfold tx_body_fields. cbn [forallb]. rewrite !Hstr, stable_strings.
  assert (stable_field ("network_data"%string, network_data_json (tx_network_data t)) = true) as ->.
  { destruct (network_data_object (tx_network_data t)) as (kv & fs & E).
    unfold stable_field. rewrite Hs. by rewrite E. }
  assert (stable_field ("noop_count"%string, json_option json_uint (tx_noop_count t)) = true) as ->.
  { destruct (tx_noop_count t) as [n|]; [|done]. unfold stable_field, json_option.
    by rewrite json_uint_stable by by apply Hn. }
  by destruct (tx_status t), (tx_network_type t), (tx_is_canceled t).
Qed.

Lemma storable_safe t : storable t -> lua_safe (JObject (tx_fields_with JNull t)).
Proof.
  intros Hst. split.
  - rewrite stable_object, tx_fields_keys. unfold tx_fields_with.
    by rewrite forallb_app, storable_body_stable.
  - destruct Hst as ((_ & _ & Hnd & _) & _). apply NoDup_cons in Hnd as [Hh Hnd].
    change (NoDup (concat (map field_empty_keys (tx_fields_with JNull t)))).
    assert (forall k (o : option string), field_empty_keys (k, json_option json_str o) = [])
      as Hstr by (by intros k []).
    assert (field_empty_keys ("network_data"%string, network_data_json (tx_network_data t)) =
            empty_keys (network_data_json (tx_network_data t))) as Hd.
    { destruct (network_data_object (tx_network_data t)) as (kv & fs & E). by rewrite E. }
    unfold tx_fields_with, tx_body_fields. cbn [map app concat]. rewrite !Hstr, Hd.
    assert (field_empty_keys ("noop_count"%string, json_option json_uint (tx_noop_count t)) = [])
      as -> by (by destruct (tx_noop_count t)).
    assert (field_empty_keys ("hashes"%string, json_list json_str (tx_hashes t)) = [] \/
            field_empty_keys ("hashes"%string, json_list json_str (tx_hashes t)) =
              ["hashes"%string]) as He.
    { destruct (tx_hashes t) as [|h l]; [by right|left].
      unfold field_empty_keys. clear. simpl. by induction l. }
    assert (forall l, l = [] -> NoDup (empty_keys (network_data_json (tx_network_data t)) ++
             field_empty_keys ("hashes"%string, json_list json_str (tx_hashes t)) ++ l)) as Hgoal.
    { intros l ->. rewrite app_nil_r. destruct He as [-> | ->]; [by rewrite app_nil_r|].
      apply NoDup_app. split_and!; [done|set_solver|apply NoDup_singleton]. }
    apply Hgoal. by destruct (tx_status t), (tx_network_type t), (tx_is_canceled t).
Qed.

Lemma meta_doc_safe meta o :
  meta_doc meta o ->
  lua_stable meta = true /\ empty_keys meta = [] /\ is_empty_object meta = false /\
  meta <> JArray [].
Proof.
  destruct meta as [| | | | |fs], o as [m|]; try done. intros [(Hne & Hnd & Hf) _].
  split_and!; [| |by destruct fs|done].
  - rewrite stable_object, bool_decide_eq_true_2 by done. simpl. apply forallb_forall. intros [k v] Hin.
    rewrite List.Forall_forall in Hf. destruct (Hf _ Hin) as (_ & n & Hv & Hn).
    simpl in Hv. subst v. by apply json_uint_stable.
  - change (concat (map field_empty_keys fs) = []). clear Hne Hnd.
    induction Hf as [|[k v] fs (_ & n & Hv & _) _ IH]; simpl in *; [done|]. by rewrite Hv, IH.
Qed.

Lemma meta_doc_decodes meta o :
  meta_doc meta o -> of_json_option metadata_of_json meta = Some o.
Proof.
  destruct meta as [| | | | |fs], o as [m|]; try done. intros [_ Hm]. simpl in *.
  unfold of_json_option. simpl. by rewrite Hm.
Qed.

Lemma lua_safe_with meta o t :
  meta_doc meta o -> storable t -> lua_safe (JObject (tx_fields_with meta t)).
Proof.
  intros Hm Hst. destruct (meta_doc_safe _ _ Hm) as (Hs & He & Ho & Ha).
  pose proof (storable_safe t Hst) as [_ Hnd]. split.
  - rewrite stable_object, tx_fields_keys. unfold tx_fields_with.
    rewrite forallb_app, storable_body_stable by done. simpl. rewrite Ho. simpl.
    destruct meta as [| | | |[]|]; try done; by rewrite Hs.
  - change (NoDup (concat (map field_empty_keys (tx_body_fields t ++ [("metadata"%string, JNull)]))))
      in Hnd.
    change (NoDup (concat (map field_empty_keys (tx_body_fields t ++ [("metadata"%string, meta)])))).
    rewrite map_app, concat_app in *.
    assert (field_empty_keys ("metadata"%string, meta) = []) as Hf
      by (simpl; destruct meta as [| | | |[]|]; done).
    cbn [map concat]. rewrite Hf. done.
Qed.

Lemma fields_of_keys fs t : fields_of fs t -> forall k, k ∈ tx_keys -> k ∈ fs.*1.
Proof.
  intros (meta & _ & Hf) k Hk.
  by rewrite <- (norm_fields_keys fs), Hf, norm_fields_keys, tx_fields_keys.
Qed.

Lemma fields_of_decodes fs t : storable t -> fields_of fs t -> tx_of_json (JObject fs) = Some t.
Proof.
  intros ((Hn & _) & Hc) (meta & Hm & Hf). rewrite <- blind_tx, norm_object, Hf, <- norm_object, blind_tx.
  apply rt_tx_with; [done..|]. by apply meta_doc_decodes.
Qed.

(** A document equal to that of a model up to order is an object. *)
Lemma norm_is_object j fs : norm j = norm (JObject fs) ->
  exists fs', j = JObject fs' /\ norm_fields fs' = norm_fields fs.
Proof.
  rewrite norm_object. destruct j as [| | | | |fs']; try done.
  rewrite norm_object. intros [= Hf]. by exists fs'.
Qed.

Lemma get_norm_ext k fs fs' :
  norm_fields fs = norm_fields fs' -> norm <$> lua_get k fs = norm <$> lua_get k fs'.
Proof. intros Hf. by rewrite <- !lua_get_norm, Hf. Qed.

Lemma status_name_of fs t :
  fields_of fs t -> status_name (decode_fields fs) = Some (status_string (tx_status t)).
Proof.
  intros (meta & _ & Hf). apply (get_norm_ext "status") in Hf.
  change (lua_get "status" (tx_fields_with meta t)) with (Some (status_json (tx_status t))) in Hf.
  unfold status_name, decode_fields, lua_get in *. rewrite fields_named_map_values.
  destruct (fields_named "status" fs) as [|[k' v] l]; [done|]. cbn [head snd fmap] in Hf |- *.
  destruct v; simplify_eq/=; done.
Qed.

Lemma is_final_name_status s : is_final_name (Some (status_string s)) = is_final_state s.
Proof. by destruct s. Qed.

Lemma status_string_inj a b : status_string a = status_string b -> a = b.
Proof. by destruct a, b. Qed.

(** *** The patch script's document *)

Lemma lua_get_null_decode k fs :
  match lua_get k (decode_fields fs) with None | Some JNull => true | _ => false end =
  match lua_get k fs with None | Some JNull => true | _ => false end.
Proof.
  unfold decode_fields, lua_get. rewrite fields_named_map_values.
  destruct (fields_named k fs) as [|[k' v] l]; simpl; [done|].
  by destruct v as [| | | |[]|].
Qed.

Lemma lua_get_null_norm k fs :
  match lua_get k (norm_fields fs) with None | Some JNull => true | _ => false end =
  match lua_get k fs with None | Some JNull => true | _ => false end.
Proof. rewrite lua_get_norm. by destruct (lua_get k fs) as [[]|]. Qed.

Lemma patch_table_decode fs ps arg :
  patch_table (decode_fields fs) (decode_fields ps) arg = decode_fields (patch_table fs ps arg).
Proof.
  unfold patch_table.
  assert (set_all (decode_fields ps) (decode_fields fs) = decode_fields (set_all ps fs)) as ->
    by (unfold decode_fields; by rewrite set_all_decode).
  rewrite lua_get_null_decode. destruct (_ && _); [|done].
  unfold decode_fields. by rewrite set_field_decode.
Qed.

(** The model the script computes. *)
Definition set_tx_delete_at (x : option string) (t : TransactionRepoModel)
  : TransactionRepoModel :=
  let 'Build_TransactionRepoModel a b c d e f g h _ j k l m n o p := t in
  Build_TransactionRepoModel a b c d e f g h x j k l m n o p.

Definition patched (u : TransactionUpdateRequest) (arg : string) (t : TransactionRepoModel)
  : TransactionRepoModel :=
  let t := patch_tx u t in
  if String.eqb arg "" then t else
  match tx_delete_at t with
  | None => set_tx_delete_at (Some arg) t
  | Some _ => t
  end.

Lemma patched_apply now u t : patched u (delete_at_arg now u) t = apply_partial_update now u t.
Proof.
  unfold patched, apply_partial_update, patch_tx, delete_at_arg, set_tx_delete_at,
    update_delete_at_if_final_status, calculate_delete_at.
  destruct (upd_status u) as [st|]; [|simpl; by destruct (upd_delete_at u)].
  destruct (status_in st FINAL_TRANSACTION_STATUSES) eqn:Hst.
  - rewrite (proj2 (String.eqb_neq _ _) (to_rfc3339_nonempty _)). simpl.
    by destruct (upd_delete_at u), (tx_delete_at t).
  - simpl. by destruct (upd_delete_at u), (tx_delete_at t).
Qed.

Lemma meta_doc_json m : metadata_ok m -> meta_doc (metadata_json m) (Some m).
Proof.
  intros Hm. split; [|by apply (rt_metadata m)]. destruct Hm as ([? ?] & ? & ? & ?).
  split_and!; [done|by apply (bool_decide_unpack _)|].
  repeat constructor; try (by apply (bool_decide_unpack _)); eexists; (split; [reflexivity|done]).
Qed.

(** The metadata document after a patch. *)
Lemma meta_doc_patch meta u t :
  meta_doc meta (tx_metadata t) -> all_opt metadata_ok (upd_metadata u) ->
  meta_doc (default meta (metadata_json <$> upd_metadata u)) (tx_metadata (patch_tx u t)).
Proof.
  intros Hm Hu. simpl. destruct (upd_metadata u) as [m|]; simpl; [|done].
  by apply meta_doc_json, Hu.
Qed.

Lemma patch_table_fields fs t u arg :
  all_opt metadata_ok (upd_metadata u) -> fields_of fs t ->
  fields_of (patch_table fs (update_fields u) arg) (patched u arg t).
Proof.
  intros Hu Hfs. assert (Forall (fun kv => fst kv ∈ fs.*1) (update_fields u)) as Hk.
  { eapply Forall_impl; [apply update_fields_keys|]. simpl. intros kv. by eapply fields_of_keys. }
  destruct Hfs as (meta & Hm & Hf).
  set (meta' := default meta (metadata_json <$> upd_metadata u)).
  assert (norm_fields (set_all (update_fields u) fs) =
          norm_fields (tx_fields_with meta' (patch_tx u t))) as Hs.
  { rewrite (set_all_norm_ext _ _ (tx_fields_with meta t)) by done. by rewrite set_all_update. }
  exists meta'. split.
  { unfold patched. assert (forall x t0, tx_metadata (set_tx_delete_at x t0) = tx_metadata t0)
      as Hd by by intros ? [].
    destruct (String.eqb arg ""); [|destruct (tx_delete_at _)]; rewrite ?Hd;
      by apply meta_doc_patch. }
  unfold patch_table, patched. destruct (String.eqb arg ""); [done|]. simpl negb.
  rewrite andb_true_l, <- lua_get_null_norm, Hs, lua_get_null_norm.
  change (lua_get "delete_at" (tx_fields_with meta' (patch_tx u t)))
    with (Some (json_option json_str (tx_delete_at (patch_tx u t)))).
  destruct (tx_delete_at (patch_tx u t)) as [d|] eqn:Hd; cbn [json_option]; [done|].
  rewrite norm_fields_set_field, Hs, <- norm_fields_set_field.
  - by f_equal.
  - rewrite tx_fields_keys. by apply (bool_decide_unpack _).
  - rewrite set_all_keys by done.
    apply (fields_of_keys fs t); [by exists meta|]. by apply (bool_decide_unpack _).
Qed.

Lemma empty_keys_patch_table fs ps arg k :
  k ∈ empty_keys (JObject (patch_table fs ps arg)) ->
  k ∈ empty_keys (JObject fs) ++ empty_keys (JObject ps).
Proof.
  intros Hk. apply (empty_keys_set_all ps fs). unfold patch_table in Hk.
  destruct (_ && _); [|done]. apply elem_of_empty_keys in Hk as (kv & Hin & Hk).
  apply elem_of_empty_keys. apply elem_of_set_field in Hin as [Hin| ->]; [by eauto|].
  simpl in Hk. by apply elem_of_nil in Hk.
Qed.

(** Decoding, patching, encoding and repairing the document of a model gives the document of
    the patched model. *)
Lemma patch_script_document fs t u arg :
  all_opt metadata_ok (upd_metadata u) -> fields_of fs t -> storable (patched u arg t) ->
  exists fs',
    restore_arrays (remove_dups (empty_keys (JObject fs) ++ empty_keys (JObject (update_fields u))))
      (cjson_encode (JObject (patch_table (decode_fields fs) (decode_fields (update_fields u)) arg)))
    = JObject fs' /\ fields_of fs' (patched u arg t).
Proof.
  intros Hu Hf Hst. destruct (patch_table_fields fs t u arg Hu Hf) as (meta & Hm & Hp).
  rewrite patch_table_decode.
  change (JObject (decode_fields (patch_table fs (update_fields u) arg)))
    with (cjson_decode (JObject (patch_table fs (update_fields u) arg))).
  edestruct norm_is_object as (fs' & -> & Hfs').
  - apply cjson_roundtrip; [|intros k; rewrite elem_of_remove_dups; apply empty_keys_patch_table].
    eapply lua_safe_norm; [|eapply lua_safe_with; [exact Hm|exact Hst]].
    by rewrite !norm_object, Hp.
  - exists fs'. split; [done|]. exists meta. split; [done|]. by rewrite Hfs'.
Qed.

(** *** The counter scripts' document *)

(** The table the scripts work on: the counters, or an empty table. *)
Definition counters (fs : list field) (m : TransactionMetadata) : Prop :=
  NoDup fs.*1 /\ Forall counter_entry fs /\ metadata_of_json (JObject fs) = Some m.

(** No field of the network data is named [k]. *)
Definition network_free (k : string) (t : TransactionRepoModel) : Prop :=
  key_free k (network_data_json (tx_network_data t)) = true.

Lemma norm_uint v n : norm v = json_uint n -> v = json_uint n.
Proof. by destruct v. Qed.

Lemma counters_doc_perm fs fs' :
  norm_fields fs = norm_fields fs' -> counters_doc fs' -> counters_doc fs.
Proof.
  intros He (Hne & Hnd & Hf). split_and!.
  - intros ->. apply (f_equal (fun l => l.*1)) in He. pose proof (norm_fields_keys fs') as Hk.
    rewrite <- He in Hk. simpl in Hk. apply Permutation_nil_l in Hk. by destruct fs'.
  - by rewrite <- norm_fields_keys, He, norm_fields_keys.
  - assert (Forall counter_entry (norm_fields fs)) as Hn.
    { rewrite He. apply Forall_norm_fields. eapply Forall_impl; [exact Hf|].
      intros [k v] (? & n & Hv & Hn). simpl in *. subst. split; [done|by exists n]. }
    rewrite Forall_norm_fields in Hn.
    eapply Forall_impl; [exact Hn|]. intros [k v] (? & n & Hv & ?). simpl in *.
    split; [done|]. exists n. split; [by apply norm_uint|done].
Qed.

Lemma decode_counters fs : Forall counter_entry fs -> decode_fields fs = fs.
Proof.
  intros Hf. transitivity (map id fs); [|apply map_id]. apply map_ext_Forall.
  eapply Forall_impl; [exact Hf|]. intros [k v] (_ & n & Hv & Hn). simpl in *. subst v.
  unfold id, json_uint. simpl. rewrite lua_number_small; [done|]. unfold u32_max in Hn. lia.
Qed.

Lemma metadata_table fs t :
  fields_of fs t ->
  exists meta, lua_get "metadata" fs = Some meta /\ meta_doc meta (tx_metadata t) /\
    counters (match lua_get "metadata" (decode_fields fs) with Some (JObject m) => m | _ => [] end)
      (default metadata_default (tx_metadata t)).
Proof.
  intros (meta & Hm & Hf). apply (get_norm_ext "metadata") in Hf.
  change (lua_get "metadata" (tx_fields_with meta t)) with (Some meta) in Hf.
  unfold decode_fields, lua_get in *. rewrite fields_named_map_values.
  destruct (fields_named "metadata" fs) as [|[k' v] l]; [done|].
  cbn [head snd fmap option_fmap option_map map_values map] in Hf |- *. simplify_eq.
  destruct meta as [| | | | |mfs], (tx_metadata t) as [m|] eqn:Et; try done.
  - destruct v; try done. exists JNull. split_and!; [done..|].
    split_and!; [constructor|constructor|done].
  - destruct v as [| | | | |vfs]; try done. rewrite !norm_object in Hf. injection Hf as Hf.
    destruct Hm as [Hd Hr].
    assert (metadata_of_json (JObject vfs) = Some m) as Hv
      by (rewrite <- blind_metadata, norm_object, Hf, <- norm_object, blind_metadata; done).
    pose proof (counters_doc_perm _ _ Hf Hd) as Hv'. exists (JObject vfs).
    split_and!; [done|done|]. simpl. change (map _ vfs) with (decode_fields vfs).
    destruct Hv' as (_ & ? & ?). rewrite decode_counters by done. done.
Qed.

(** Incrementing a counter of the table. *)
Lemma lua_increment_counters k fs m n :
  counters fs m -> counter_field k fs = Some n -> n < u32_max ->
  lua_increment k fs = Some (set_field k (json_uint (n + 1)) fs).
Proof.
  intros (Hnd & Hf & _) Hc Hn. unfold lua_increment, counter_field, get_field, lua_get in *.
  destruct (fields_named k fs) as [|[k' v] l] eqn:E; simpl in *.
  - simplify_eq. rewrite lua_number_small by lia. done.
  - assert ((k', v) ∈ fs) as Hin.
    { assert ((k', v) ∈ fields_named k fs) as Hin by (rewrite E; left).
      apply list_elem_of_In, filter_In in Hin as [Hin _]. by apply list_elem_of_In. }
    rewrite Forall_forall in Hf. destruct (Hf _ Hin) as (_ & n' & Hv & Hn'). simpl in Hv. subst v.
    destruct l; [|done]. unfold json_uint in *. cbn [of_json_uint] in Hc.
    assert (printable n') by (apply u64_printable; unfold u32_max, u64_max in *; lia).
    rewrite integer_literal_print in * by done.
    rewrite (proj2 (Z.leb_le 0 n')), (proj2 (Z.leb_le n' u32_max)) in Hc by lia. simplify_eq/=.
    unfold print_signed. rewrite (proj2 (Z.ltb_ge (n + 1) 0)) by lia.
    rewrite lua_number_small; [done|]. unfold u32_max in *. lia.
Qed.

Lemma counter_field_set k k' n fs :
  NoDup fs.*1 -> 0 <= n <= u32_max ->
  counter_field k (set_field k' (json_uint n) fs) =
  if String.eqb k k' then Some n else counter_field k fs.
Proof.
  intros Hnd Hn. unfold counter_field, get_field. destruct (String.eqb_spec k k') as [->|Hne].
  - rewrite fields_named_set_field_eq by done. apply of_json_uint_print; [lia|by vm_compute].
  - by rewrite fields_named_set_field_ne.
Qed.

Lemma set_counter_forall k n fs :
  Forall counter_entry fs -> k ∈ metadata_keys -> 0 <= n <= u32_max ->
  Forall counter_entry (set_field k (json_uint n) fs).
Proof.
  intros Hf Hk Hn. apply Forall_forall.
  intros kv [Hin| ->]%elem_of_set_field; [|split; [done|by exists n]].
  rewrite Forall_forall in Hf. by apply Hf.
Qed.

Lemma body_key_free k t :
  network_free k t -> Forall (fun kv => key_free k (snd kv) = true) (tx_body_fields t).
Proof.
  intros Hn. assert (forall A (enc : A -> json) o,
    (forall a, key_free k (enc a) = true) -> key_free k (json_option enc o) = true) as Ho
    by (intros A enc [a|] Ha; [apply Ha|done]).
  unfold tx_body_fields. repeat constructor; cbn [snd]; try (by apply Ho); try exact Hn; try done.
  simpl. apply forallb_forall. intros x Hx. apply in_map_iff in Hx as (h & <- & _). done.
Qed.

Lemma meta_key_free k meta o : meta_doc meta o -> k ∉ metadata_keys -> key_free k meta = true.
Proof.
  destruct meta as [| | | | |fs], o as [m|]; try done. intros [(_ & _ & Hf) _] Hk. simpl.
  apply forallb_forall. intros [k' v] Hin. rewrite List.Forall_forall in Hf.
  destruct (Hf _ Hin) as (Hk' & n & Hv & _). simpl in *. subst v.
  rewrite andb_true_r. apply negb_true_iff, String.eqb_neq. by intros ->.
Qed.

Lemma fields_root_only fs t k :
  fields_of fs t -> network_free k t -> k ∉ metadata_keys -> root_only k fs.
Proof.
  intros (meta & Hm & Hf) Hfree Hk. split.
  - rewrite <- norm_fields_keys, Hf, norm_fields_keys, tx_fields_keys.
    by apply (bool_decide_unpack _).
  - assert (Forall (fun kv => key_free k (snd kv) = true) (norm_fields fs)) as Hn.
    { rewrite Hf. apply Forall_norm_fields. cbn [snd]. unfold tx_fields_with.
      apply Forall_app. split; [|constructor; [|constructor]].
      - eapply Forall_impl; [by apply body_key_free|]. intros kv. by rewrite key_free_norm.
      - cbn [snd]. rewrite key_free_norm. by eapply meta_key_free. }
    rewrite Forall_norm_fields in Hn.
    eapply Forall_impl; [exact Hn|]. intros [k' v]. simpl. by rewrite key_free_norm.
Qed.

Lemma encode_counters tbl m :
  counters tbl m -> tbl <> [] -> meta_doc (cjson_encode (JObject tbl)) (Some m).
Proof.
  intros (Hnd & Hf & Hr) Hne.
  assert (keys_ok (JObject tbl) = true) as Hk.
  { simpl. rewrite bool_decide_eq_true_2 by done. apply forallb_forall. intros [k v] Hin.
    rewrite List.Forall_forall in Hf. destruct (Hf _ Hin) as (_ & n & Hv & _). simpl in Hv.
    by subst v. }
  apply norm_encode in Hk. destruct (cjson_encode (JObject tbl)) as [| | | | |fs]; try done.
  rewrite !norm_object in Hk. injection Hk as Hk. split.
  - by eapply counters_doc_perm.
  - by rewrite <- blind_metadata, norm_object, Hk, <- norm_object, blind_metadata.
Qed.

(** Encoding the table and putting it in place of the metadata gives the document of the model
    with the new counters. *)
Lemma set_obj_document fs t tbl m :
  fields_of fs t -> network_free "metadata" t -> counters tbl m -> tbl <> [] ->
  exists fs', set_obj "metadata" tbl (JObject fs) = JObject fs' /\
              fields_of fs' (set_tx_metadata (Some m) t).
Proof.
  intros Hfs Hfree Hc Hne. destruct (metadata_table fs t Hfs) as (meta & Hg & Hm & _).
  assert (root_only "metadata" fs) as Hroot
    by (by eapply fields_root_only; [..|apply (bool_decide_unpack _)]).
  pose proof (encode_counters tbl m Hc Hne) as He. set (enc := cjson_encode (JObject tbl)) in *.
  exists (set_field "metadata" enc fs). split.
  - unfold set_obj, set_text. rewrite !(replace_first_root _ _ meta) by done.
    by destruct meta, (tx_metadata t).
  - assert ("metadata"%string ∈ tx_keys) as Hk by by apply (bool_decide_unpack _).
    pose proof (fields_of_keys fs t Hfs _ Hk) as Hkf. destruct Hfs as (meta' & _ & Hf).
    exists enc. split; [by destruct t|].
    rewrite norm_fields_set_field, Hf, <- norm_fields_set_field; [|by rewrite tx_fields_keys|done].
    f_equal. by destruct t.
Qed.

(** [set_str] on the time of sending. *)
Lemma set_sent_at_document fs t v :
  fields_of fs t -> network_free "sent_at" t ->
  exists fs', set_str "sent_at" v (JObject fs) = JObject fs' /\
              fields_of fs' (set_tx_sent_at (Some v) t).
Proof.
  intros Hfs Hfree. assert (root_only "sent_at" fs) as Hroot
    by (by eapply fields_root_only; [..|apply (bool_decide_unpack _)]).
  assert ("sent_at"%string ∈ tx_keys) as Hk by by apply (bool_decide_unpack _).
  pose proof (fields_of_keys fs t Hfs _ Hk) as Hkf. destruct Hfs as (meta & Hm & Hf).
  exists (set_field "sent_at" (JString v) fs). split.
  - pose proof (get_norm_ext "sent_at" _ _ Hf) as Hg.
    change (lua_get "sent_at" (tx_fields_with meta t))
      with (Some (json_option json_str (tx_sent_at t))) in Hg.
    destruct (lua_get "sent_at" fs) as [o|] eqn:Ho; [|done]. injection Hg as Hg.
    unfold set_str, set_text. rewrite !(replace_first_root _ _ o) by done.
    destruct (tx_sent_at t), o; simplify_eq/=; done.
  - exists meta. split; [by destruct t|].
    rewrite norm_fields_set_field, Hf, <- norm_fields_set_field; [|by rewrite tx_fields_keys|done].
    f_equal. by destruct t.
Qed.

(** *** Edits of the counters *)

Lemma counters_fields tbl m :
  counters tbl m <->
  (NoDup tbl.*1 /\ Forall counter_entry tbl) /\
  counter_field "consecutive_failures" tbl = Some (consecutive_failures m) /\
  counter_field "total_failures" tbl = Some (total_failures m) /\
  counter_field "insufficient_fee_retries" tbl = Some (insufficient_fee_retries m) /\
  counter_field "try_again_later_retries" tbl = Some (try_again_later_retries m) /\
  counter_field "nonce_too_high_retries" tbl = Some (nonce_too_high_retries m).
Proof.
  unfold counters, metadata_of_json. split.
  - intros (Hnd & Hf & Hm). split; [done|].
    repeat (match type of Hm with context [counter_field ?k tbl] =>
              destruct (counter_field k tbl); [|done] end; simpl in Hm).
    by injection Hm as <-.
  - intros ((? & ?) & -> & -> & -> & -> & ->). by destruct m.
Qed.

(** All counters are at most [B]. *)
Definition counters_le (B : Z) (m : TransactionMetadata) : Prop :=
  (0 <= consecutive_failures m <= B /\ 0 <= total_failures m <= B) /\
  0 <= insufficient_fee_retries m <= B /\ 0 <= try_again_later_retries m <= B /\
  0 <= nonce_too_high_retries m <= B.

(** [edit] computes [f] on the tables of metadata whose counters are at most [B]. *)
Definition edits (B : Z) (edit : list field -> option (list field))
    (f : TransactionMetadata -> TransactionMetadata) : Prop :=
  forall tbl m, counters tbl m -> counters_le B m ->
  exists tbl', edit tbl = Some tbl' /\ tbl' <> [] /\ counters tbl' (f m).

Definition bump_failures (m : TransactionMetadata) : TransactionMetadata :=
  {| consecutive_failures := consecutive_failures m + 1; total_failures := total_failures m + 1;
     insufficient_fee_retries := insufficient_fee_retries m;
     try_again_later_retries := try_again_later_retries m;
     nonce_too_high_retries := nonce_too_high_retries m |}.

Definition clear_failures (m : TransactionMetadata) : TransactionMetadata :=
  {| consecutive_failures := 0; total_failures := total_failures m;
     insufficient_fee_retries := insufficient_fee_retries m;
     try_again_later_retries := try_again_later_retries m;
     nonce_too_high_retries := nonce_too_high_retries m |}.

Definition bump_fee_retries (m : TransactionMetadata) : TransactionMetadata :=
  {| consecutive_failures := consecutive_failures m; total_failures := total_failures m;
     insufficient_fee_retries := insufficient_fee_retries m + 1;
     try_again_later_retries := try_again_later_retries m;
     nonce_too_high_retries := nonce_too_high_retries m |}.

Definition bump_later_retries (m : TransactionMetadata) : TransactionMetadata :=
  {| consecutive_failures := consecutive_failures m; total_failures := total_failures m;
     insufficient_fee_retries := insufficient_fee_retries m;
     try_again_later_retries := try_again_later_retries m + 1;
     nonce_too_high_retries := nonce_too_high_retries m |}.

Lemma set_field_nonempty k v fs : set_field k v fs <> [].
Proof.
  unfold set_field. destruct (existsb _ fs) eqn:E; [|by destruct fs]. by destruct fs.
Qed.

Lemma set_counter_wf k n tbl :
  NoDup tbl.*1 /\ Forall counter_entry tbl -> k ∈ metadata_keys -> 0 <= n <= u32_max ->
  NoDup (set_field k (json_uint n) tbl).*1 /\ Forall counter_entry (set_field k (json_uint n) tbl).
Proof. intros [Hnd Hf] Hk Hn. split; [by apply set_field_nodup|by apply set_counter_forall]. Qed.

Ltac edit_counter :=
  rewrite !counter_field_set by (first [tauto | apply set_field_nodup; tauto | done | simpl; lia]);
  simpl; destruct_and?; split_and!; done.

Lemma edit_increment B :
  B < u32_max ->
  edits B (fun m => m ← lua_increment "consecutive_failures" m; lua_increment "total_failures" m)
    bump_failures.
Proof.
  intros HB tbl m Hc ((Hb1 & Hb2) & _). pose proof Hc as (Hwf & Ha & Hb & Hr)%counters_fields.
  rewrite (lua_increment_counters _ _ _ _ Hc Ha) by lia. simpl.
  assert (counters (set_field "consecutive_failures" (json_uint (consecutive_failures m + 1)) tbl)
            {| consecutive_failures := consecutive_failures m + 1;
               total_failures := total_failures m;
               insufficient_fee_retries := insufficient_fee_retries m;
               try_again_later_retries := try_again_later_retries m;
               nonce_too_high_retries := nonce_too_high_retries m |}) as Hc'.
  { apply counters_fields. split.
    - apply set_counter_wf; [done|by apply (bool_decide_unpack _)|lia].
    - edit_counter. }
  pose proof Hc' as (Hwf' & Ha' & Hb' & Hr')%counters_fields.
  rewrite (lua_increment_counters _ _ _ _ Hc' Hb') by (simpl; lia).
  eexists. split_and!; [done|apply set_field_nonempty|]. apply counters_fields. split.
  - apply set_counter_wf; [done|by apply (bool_decide_unpack _)|simpl; lia].
  - simpl in *. edit_counter.
Qed.

Lemma edit_reset B :
  edits B (fun m => Some (set_field "consecutive_failures" (JNumber (lua_number (print_dec 0))) m))
    clear_failures.
Proof.
  intros tbl m (Hwf & Ha & Hb & Hr)%counters_fields _. rewrite lua_number_small by done.
  change (JNumber (print_dec 0)) with (json_uint 0).
  eexists. split_and!; [done|apply set_field_nonempty|]. apply counters_fields. split.
  - apply set_counter_wf; [done|by apply (bool_decide_unpack _)|done].
  - edit_counter.
Qed.

Lemma edit_fee_retry B :
  B < u32_max -> edits B (lua_increment "insufficient_fee_retries") bump_fee_retries.
Proof.
  intros HB tbl m Hc (_ & Hb1 & _). pose proof Hc as (Hwf & Ha & Hb & Hr & Hs)%counters_fields.
  rewrite (lua_increment_counters _ _ _ _ Hc Hr) by lia.
  eexists. split_and!; [done|apply set_field_nonempty|]. apply counters_fields. split.
  - apply set_counter_wf; [done|by apply (bool_decide_unpack _)|lia].
  - edit_counter.
Qed.

Lemma edit_later_retry B :
  B < u32_max -> edits B (lua_increment "try_again_later_retries") bump_later_retries.
Proof.
  intros HB tbl m Hc (_ & _ & Hb1 & _).
  pose proof Hc as (Hwf & Ha & Hb & Hr & Hs & Hl)%counters_fields.
  rewrite (lua_increment_counters _ _ _ _ Hc Hs) by lia.
  eexists. split_and!; [done|apply set_field_nonempty|]. apply counters_fields. split.
  - apply set_counter_wf; [done|by apply (bool_decide_unpack _)|lia].
  - edit_counter.
Qed.

(** The text of an edited transaction: [retouch] computes [g]. *)
Definition retouches (retouch : json -> json)
    (g : TransactionRepoModel -> TransactionRepoModel) : Prop :=
  forall fs t, storable t -> fields_of fs t ->
  exists fs', retouch (JObject fs) = JObject fs' /\ fields_of fs' (g t).

Lemma retouch_id : retouches (fun j => j) (fun t => t).
Proof. intros fs t _ Hf. by exists fs. Qed.

Lemma retouch_sent_at v : retouches (set_str "sent_at" v) (set_tx_sent_at (Some v)).
Proof. intros fs t ((_ & _ & _ & _ & Hs) & _) Hf. by apply set_sent_at_document. Qed.

Lemma metadata_edit_document B edit f retouch g fs t :
  edits B edit f -> retouches retouch g -> (forall t, tx_network_data (g t) = tx_network_data t) ->
  storable t -> fields_of fs t -> counters_le B (default metadata_default (tx_metadata t)) ->
  exists tbl fs',
    edit (match lua_get "metadata" (decode_fields fs) with Some (JObject m) => m | _ => [] end)
      = Some tbl /\
    set_obj "metadata" tbl (retouch (JObject fs)) = JObject fs' /\
    fields_of fs'
      (set_tx_metadata (Some (f (default metadata_default (tx_metadata t)))) (g t)).
Proof.
  intros He Hr Hg Hst Hf HB. destruct (metadata_table fs t Hf) as (meta & _ & _ & Hc).
  destruct (He _ _ Hc HB) as (tbl & Hed & Hne & Hc'). destruct (Hr fs t Hst Hf) as (fs1 & Hre & Hf1).
  assert (network_free "metadata" (g t)) as Hfree
    by (unfold network_free; rewrite Hg; by destruct Hst as ((_ & _ & _ & Hm & _) & _)).
  destruct (set_obj_document fs1 (g t) tbl _ Hf1 Hfree Hc' Hne) as (fs' & Hset & Hf').
  exists tbl, fs'. by rewrite Hre.
Qed.

(** *** EVM transactions

    Gas limits, nonces and chain ids below 10^14 survive Lua's numbers, and the data has no
    empty object and one array. *)
Definition evm_storable (d : EvmTransactionData) : Prop :=
  evm_data_ok d /\ all_opt (fun n => n < 10 ^ 14) (evm_gas_limit d) /\
  all_opt (fun n => n < 10 ^ 14) (evm_nonce d) /\ evm_chain_id d < 10 ^ 14.

Lemma stable_uint k n : n < 10 ^ 14 -> 0 <= n -> stable_field (k, json_uint n) = true.
Proof. intros Hn Hn'. simpl. rewrite lua_number_small by lia. apply String.eqb_refl. Qed.

Lemma stable_option {A} (enc : A -> json) k o :
  (forall a, o = Some a -> stable_field (k, enc a) = true) ->
  stable_field (k, json_option enc o) = true.
Proof. destruct o; simpl; auto. Qed.

Lemma stable_bytes k l : stable_field (k, json_list byte_json l) = true.
Proof.
  destruct l as [|x l]; [done|].
  change (forallb lua_stable (map byte_json (x :: l)) = true). apply forallb_forall.
  intros j Hj. apply in_map_iff in Hj as (y & <- & _). apply json_uint_stable.
  pose proof (Byte.to_N_bounded y). unfold u32_max. lia.
Qed.

Lemma bytes_empty_keys l : empty_keys (json_list byte_json l) = [].
Proof. simpl. by induction l. Qed.

Lemma bytes_key_free k l : key_free k (json_list byte_json l) = true.
Proof. simpl. apply forallb_forall. intros j Hj. by apply in_map_iff in Hj as (y & <- & _). Qed.

Lemma empty_keys_option {A} (enc : A -> json) k o :
  (forall a, field_empty_keys (k, enc a) = []) -> field_empty_keys (k, json_option enc o) = [].
Proof. destruct o; simpl; auto. Qed.

Lemma key_free_option {A} (enc : A -> json) k o :
  (forall a, key_free k (enc a) = true) -> key_free k (json_option enc o) = true.
Proof. destruct o; simpl; auto. Qed.

Lemma evm_data_stable d : evm_storable d -> lua_stable (evm_data_json d) = true.
Proof.
  intros ((_ & Hgl & Hn & _ & Hc & Hsig & _) & Hgl' & Hn' & Hc'). unfold evm_data_json.
  rewrite stable_object, bool_decide_eq_true_2 by by apply (bool_decide_unpack _).
  cbn [forallb andb]. rewrite !andb_true_iff.
  split_and!; try (apply stable_option; intros a Ha); try done.
  - apply stable_uint; [by apply Hgl'|by apply Hgl].
  - apply stable_uint; [by apply Hn'|by apply Hn].
  - apply stable_uint; lia.
  - simpl. rewrite lua_number_small; [by rewrite String.eqb_refl|].
    specialize (Hsig a Ha). simpl in Hsig. unfold u8_max in Hsig. lia.
  - apply stable_bytes.
Qed.

Lemma evm_data_empty_keys d :
  empty_keys (evm_data_json d) = [] \/ empty_keys (evm_data_json d) = ["raw"%string].
Proof.
  change (empty_keys (evm_data_json d)) with (concat (map field_empty_keys
    (match evm_data_json d with JObject fs => fs | _ => [] end))).
  unfold evm_data_json, serialize_optional_u128. cbn [map concat].
  rewrite !(empty_keys_option serialize_u128), !(empty_keys_option json_uint),
    !(empty_keys_option json_str), (empty_keys_option evm_signature_json),
    (empty_keys_option speed_json) by done.
  destruct (evm_raw d) as [[|b l]|]; [by right|left|by left].
  simpl. clear. by induction l.
Qed.

Lemma evm_data_free k d :
  k ∈ ["metadata"; "sent_at"]%string -> key_free k (evm_data_json d) = true.
Proof.
  intros Hk. unfold evm_data_json, serialize_optional_u128.
  cbn [key_free forallb]. rewrite !andb_true_iff.
  split_and!; try (apply key_free_option; intros a); try done; try apply bytes_key_free;
    apply list_elem_of_In in Hk as [<-|[<-|[]]]; done.
Qed.

Lemma evm_safe_data d : evm_storable d -> safe_data (EvmData d).
Proof.
  intros Hok. split_and!.
  - apply Hok.
  - change (lua_stable (network_data_json (EvmData d))) with (lua_stable (evm_data_json d) && true).
    by rewrite evm_data_stable.
  - change (empty_keys (network_data_json (EvmData d))) with (empty_keys (evm_data_json d) ++ []).
    rewrite app_nil_r. destruct (evm_data_empty_keys d) as [-> | ->]; by apply (bool_decide_unpack _).
  - change (true && (true && key_free "metadata" (evm_data_json d) && true) = true).
    by rewrite evm_data_free by by apply (bool_decide_unpack _).
  - change (true && (true && key_free "sent_at" (evm_data_json d) && true) = true).
    by rewrite evm_data_free by by apply (bool_decide_unpack _).
Qed.
End Documents.
