(* ===== verification/RedisRefinement.v ===== *)
(** * The Redis repository as a map of transactions

    A keyspace stands for a map from ids to transactions: [encodes] says that the bodies and the
    reverse lookup hold exactly these transactions.  Every operation, whatever connection or
    command fails in it and whether or not the server had executed it, takes a keyspace that
    encodes a map to one that encodes a successor of it; a script that is sent again because its
    reply was lost is part of the account. *)

From S2P Require Import Prelude Decimal Errors Json Model TransactionJson Repository RedisBase.
From S2P Require Import RedisTransaction RedisDocuments.
Open Scope Z_scope.
Import RedisTx.

Abbreviation store := (gmap string TransactionRepoModel) (only parsing).

(** ** Round trips *)

Lemma wp_exec cmds context (Q : result RepositoryError.t unit -> Redis.state -> Prop) s :
  (forall e s', moves eq s s' -> Q (Err e) s') ->
  (forall r s', moves (fun k k' => k' = pipeline cmds k) s s' -> Q r s') ->
  wp (exec cmds context) Q s.
Proof.
  intros He Hq. unfold exec. apply wp_map_err, wp_invoke; simpl; intros; [by apply He|].
  by apply Hq.
Qed.

Section Moves.
Context (R : keyspace -> keyspace -> Prop) `{!PreOrder R}.

Lemma moves_eq s s' : moves eq s s' -> moves R s s'.
Proof. intros [Hp Hr]. split; [by rewrite Hp|done]. Qed.

Lemma preserves_get_connection context : preserves (moves R) (get_connection context).
Proof. intros s. apply (wp_get_connection _ (fun _ s' => moves R s s')). intros. by apply moves_eq. Qed.

Lemma preserves_query {A} p (f : keyspace -> A) context : preserves (moves R) (query p f context).
Proof. intros s. apply (wp_query _ _ _ (fun _ s' => moves R s s')); intros; by apply moves_eq. Qed.

Lemma preserves_invoke {A} (f : keyspace -> result RedisError A * keyspace) :
  (forall k, R k (snd (f k))) -> preserves (moves R) (invoke f).
Proof.
  intros Hf s. apply (wp_invoke _ (fun _ s' => moves R s s')); [intros; by apply moves_eq|].
  intros r s' [Hp Hr] _. split; [by rewrite Hp|done].
Qed.

Lemma preserves_exec cmds context :
  (forall k, R k (pipeline cmds k)) -> preserves (moves R) (exec cmds context).
Proof. intros Hc. apply preserves_map_err. by apply preserves_invoke. Qed.
End Moves.
#[export] Hint Resolve preserves_get_connection preserves_query : preserves_db.

Lemma pipeline_app a b k : pipeline (a ++ b) k = pipeline b (pipeline a k).
Proof. apply fold_left_app. Qed.

(** A pipeline of commands that move by [R] moves by [R]. *)
Lemma pipeline_moves (R : keyspace -> keyspace -> Prop) `{!PreOrder R} (cmds : list cmd) k :
  Forall (fun c => forall k, R k (c k)) cmds -> R k (pipeline cmds k).
Proof.
  intros Hf. revert k. induction Hf as [|c cmds Hc _ IH]; intros k; simpl; [reflexivity|].
  etransitivity; [apply Hc|apply IH].
Qed.

(** *** Commands on the indexes *)

Definition same_store (k k' : keyspace) : Prop :=
  bodies k' = bodies k /\ reverse k' = reverse k.

(** The entry of an id in a status index. *)
Definition listed (k : keyspace) (rid : string) (st : TransactionStatus) (id : string) : Prop :=
  is_Some ((sorted k !!! (rid, st)) !! id).

(** No entry is added to a status index. *)
Definition no_new (k k' : keyspace) : Prop :=
  (forall rid st id, listed k' rid st id -> listed k rid st id) /\
  (forall p, legacy k !!! p = ∅ -> legacy k' !!! p = ∅).

Definition quiet (k k' : keyspace) : Prop := same_store k k' /\ no_new k k'.

#[global] Instance same_store_preorder : PreOrder same_store.
Proof. split; [done|]. intros a b c [] []. split; congruence. Qed.

#[global] Instance no_new_preorder : PreOrder no_new.
Proof. split; [done|]. intros a b c [] []. split; eauto. Qed.

#[global] Instance quiet_preorder : PreOrder quiet.
Proof.
  split; [done|]. intros a b c [Hs Hn] [Hs' Hn']. split; [by transitivity b|by transitivity b].
Qed.

(** A command on the indexes that adds no entry to a status index. *)
Definition index_cmd (c : cmd) : Prop := forall k, quiet k (c k).

Lemma listed_ZADD k rid st id x rid' st' id' :
  listed (ZADD_sorted rid st id x k) rid' st' id' ->
  listed k rid' st' id' \/ (rid' = rid /\ st' = st /\ id' = id).
Proof.
  unfold listed. simpl. destruct (decide ((rid', st') = (rid, st))) as [E|E].
  - injection E as -> ->. rewrite lookup_total_insert_eq. intros [y Hy].
    apply lookup_insert_Some in Hy as [[<- _]|[_ Hy]]; [by right|left; by eexists].
  - rewrite lookup_total_insert_ne by done. by left.
Qed.

Lemma listed_ZREM k rid st id rid' st' id' :
  listed (ZREM_sorted rid st id k) rid' st' id' ->
  listed k rid' st' id' /\ ~ (rid' = rid /\ st' = st /\ id' = id).
Proof.
  unfold listed. simpl. destruct (decide ((rid', st') = (rid, st))) as [E|E].
  - injection E as -> ->. rewrite lookup_total_insert_eq. intros [y Hy].
    apply lookup_delete_Some in Hy as [Hne Hy]. split; [by eexists|]. naive_solver.
  - rewrite lookup_total_insert_ne by done. split; [done|]. naive_solver.
Qed.

Create HintDb index_db.
Lemma index_SADD_relayer rid : index_cmd (SADD_relayer rid). Proof. done. Qed.
Lemma index_ZREM_sorted rid st id : index_cmd (ZREM_sorted rid st id).
Proof. intros k. split; [done|]. split; [|done]. by intros rid' st' id' [Hl _]%listed_ZREM. Qed.
Lemma index_SREM_legacy rid st id : index_cmd (SREM_legacy rid st id).
Proof.
  intros k. split; [done|]. split; [done|]. intros p Hp. simpl.
  destruct (decide (p = (rid, st))) as [->|Hne].
  - rewrite lookup_total_insert_eq, Hp. set_solver.
  - by rewrite lookup_total_insert_ne.
Qed.
Lemma index_DEL_legacy rid st : index_cmd (DEL_legacy rid st).
Proof.
  intros k. split; [done|]. split; [done|]. intros p Hp. simpl. unfold lookup_total, map_lookup_total.
  destruct (decide (p = (rid, st))) as [->|Hne].
  - by rewrite lookup_delete_eq.
  - by rewrite lookup_delete_ne.
Qed.
Lemma index_ZADD_created rid id x : index_cmd (ZADD_created rid id x). Proof. done. Qed.
Lemma index_ZREM_created rid id : index_cmd (ZREM_created rid id). Proof. done. Qed.
Lemma index_DEL_created rid : index_cmd (DEL_created rid). Proof. done. Qed.
Lemma index_SET_nonce rid n id : index_cmd (SET_nonce rid n id). Proof. done. Qed.
Lemma index_DEL_nonce rid n : index_cmd (DEL_nonce rid n). Proof. done. Qed.
Lemma index_DEL_relayer_list : index_cmd DEL_relayer_list. Proof. done. Qed.
#[export] Hint Resolve index_SADD_relayer index_ZREM_sorted index_SREM_legacy
  index_DEL_legacy index_ZADD_created index_ZREM_created index_DEL_created index_SET_nonce
  index_DEL_nonce index_DEL_relayer_list : index_db.
#[export] Hint Constructors Forall : index_db.
#[export] Hint Resolve Forall_app_2 : index_db.

Lemma index_clear_nonce rid n : Forall index_cmd (clear_nonce rid n).
Proof. destruct n; eauto with index_db. Qed.
Lemma index_clear_status rid id : Forall index_cmd (clear_status_indexes rid id).
Proof.
  apply Forall_concat, Forall_fmap, Forall_true. intros st. simpl. eauto with index_db.
Qed.
#[export] Hint Resolve index_clear_nonce index_clear_status : index_db.

Lemma index_pipeline cmds k : Forall index_cmd cmds -> quiet k (pipeline cmds k).
Proof. apply (pipeline_moves quiet). Qed.
#[export] Hint Resolve index_pipeline : index_db.

(** ** The encoded map *)

Section Store.
Context `{Chrono} `{ServerConfig} `{JsonFloat} `{ForeignSerde} `{LuaJson} `{JsonText}
  `{SetOrder}.

(** The ids in use so far: they are never given to another transaction. *)
Context (U : gset string).

(** What the keyspace holds for one id. *)
Definition slot (B : Z) (k : keyspace) (id : string) (o : option TransactionRepoModel) : Prop :=
  match o with
  | Some t =>
      tx_id t = id /\ storable t /\ counters_le B (default metadata_default (tx_metadata t)) /\
      reverse k !! id = Some (tx_relayer_id t) /\
      exists fs, bodies k !! (tx_relayer_id t, id) = Some (JObject fs) /\ fields_of fs t
  | None => reverse k !! id = None
  end.

(** The status indexes list no stored transaction under a status it does not have; the sets of
    the earlier layout are empty. *)
Definition sound (k : keyspace) (v : store) : Prop :=
  (forall p, legacy k !!! p = ∅) /\
  (forall rid st id, listed k rid st id ->
     id ∈ U /\ forall t, v !! id = Some t -> tx_relayer_id t = rid /\ tx_status t = st) /\
  (forall id t, v !! id = Some t -> id ∈ U).

(** [encodes B k v]: the keyspace holds the transactions of [v], with counters up to [B], and
    its status indexes are sound. *)
Definition encodes (B : Z) (k : keyspace) (v : store) : Prop :=
  (forall id, slot B k id (v !! id)) /\ sound k v.

Lemma encodes_slot {B k v} id : encodes B k v -> slot B k id (v !! id).
Proof. by intros [Hs _]. Qed.

Lemma sound_no_new k k' v : no_new k k' -> sound k v -> sound k' v.
Proof. intros [Hn Hl] (Hs & Hv & Hd). split; [eauto|]. split; [eauto|done]. Qed.

Lemma counters_le_mono B B' m : B <= B' -> counters_le B m -> counters_le B' m.
Proof. unfold counters_le. lia. Qed.

Lemma encodes_mono B B' k v : B <= B' -> encodes B k v -> encodes B' k v.
Proof.
  intros HB [He Hx]. split; [|done]. intros id. specialize (He id). destruct (v !! id); [|done].
  destruct He as (Hi & Hs & Hc & Hr). split; [done|]. split; [done|]. split; [|done].
  by eapply counters_le_mono.
Qed.

Lemma encodes_same B k k' v : quiet k k' -> encodes B k v -> encodes B k' v.
Proof.
  intros [[Hb Hr] Hn] [He Hx]. split; [|by eapply sound_no_new].
  intros id. specialize (He id). unfold slot in *. by rewrite Hb, Hr.
Qed.

Lemma encodes_unique B k v v' : encodes B k v -> encodes B k v' -> v = v'.
Proof.
  intros [He _] [He' _]. apply map_eq. intros id. specialize (He id). specialize (He' id).
  destruct (v !! id) as [t|], (v' !! id) as [t'|]; simpl in *; [| |  |done].
  - destruct He as (_ & Hs & _ & Hr & fs & Hb & Hf).
    destruct He' as (_ & Hs' & _ & Hr' & fs' & Hb' & Hf').
    rewrite Hr in Hr'. injection Hr' as Hr'. rewrite Hr' in Hb. rewrite Hb in Hb'.
    injection Hb' as ->.
    apply fields_of_decodes in Hf; [|done]. apply fields_of_decodes in Hf'; [|done]. congruence.
  - destruct He as (_ & _ & _ & Hr & _). congruence.
  - destruct He' as (_ & _ & _ & Hr & _). congruence.
Qed.

(** The status indexes after the transaction [id] became [t]. *)
Definition relisted (k k' : keyspace) (id : string) (t : TransactionRepoModel) : Prop :=
  (forall p, legacy k !!! p = ∅ -> legacy k' !!! p = ∅) /\
  forall rid st id', listed k' rid st id' ->
    (id' <> id /\ listed k rid st id') \/
    (id' = id /\ tx_relayer_id t = rid /\ tx_status t = st).

Lemma listing_sound_insert k k' v id t :
  sound k v -> id ∈ U -> relisted k k' id t -> sound k' (<[id := t]> v).
Proof.
  intros (Hl & Hv & Hd) HU [Hl' Hr]. split; [eauto|]. split.
  - intros rid st id' Hlist. destruct (Hr rid st id' Hlist) as [[Hne Hk]|(-> & Hrid & Hst)].
    + rewrite lookup_insert_ne by done. by apply Hv.
    + rewrite lookup_insert_eq. split; [done|]. by intros t' [= <-].
  - intros id' t' Ht'. apply lookup_insert_Some in Ht' as [[<- _]|[_ Ht']]; [done|by eapply Hd].
Qed.

(** Writing one body, and with [SET_reverse] for a new id. *)
Lemma encodes_insert B k k' v id t fs :
  encodes B k v -> tx_id t = id -> storable t ->
  counters_le B (default metadata_default (tx_metadata t)) -> fields_of fs t -> id ∈ U ->
  bodies k' = <[(tx_relayer_id t, id) := JObject fs]> (bodies k) ->
  reverse k' = <[id := tx_relayer_id t]> (reverse k) -> relisted k k' id t ->
  encodes B k' (<[id := t]> v).
Proof.
  intros [He Hx] Hid Hs Hc Hf HU Hb Hr Hrel. split; [|by eapply listing_sound_insert].
  intros id'. unfold slot. rewrite Hb, Hr. destruct (decide (id' = id)) as [->|Hne].
  - rewrite !lookup_insert_eq. do 4 (split; [done|]). by exists fs.
  - rewrite !lookup_insert_ne by done. specialize (He id'). destruct (v !! id'); [|done].
    rewrite lookup_insert_ne by congruence. done.
Qed.

Lemma encodes_patch B k k' v id t t' fs :
  encodes B k v -> v !! id = Some t -> tx_id t' = id -> tx_relayer_id t' = tx_relayer_id t ->
  storable t' -> counters_le B (default metadata_default (tx_metadata t')) -> fields_of fs t' ->
  same_store (SET_body (tx_relayer_id t) id (JObject fs) k) k' -> relisted k k' id t' ->
  encodes B k' (<[id := t']> v).
Proof.
  intros He Hv Hid Hrel Hs Hc Hf [Hb Hr] Hl. pose proof (encodes_slot id He) as Hi. rewrite Hv in Hi.
  destruct Hi as (_ & _ & _ & Hrev & _).
  eapply encodes_insert; eauto; rewrite ?Hrel; [by eapply He|done|]. rewrite Hr. simpl. by rewrite insert_id.
Qed.

(** A change that does not touch the status. *)
Lemma relisted_same B k k' v id t t' :
  encodes B k v -> v !! id = Some t -> tx_relayer_id t' = tx_relayer_id t ->
  tx_status t' = tx_status t -> no_new k k' -> relisted k k' id t'.
Proof.
  intros (_ & _ & Hv & _) Ht Hrel Hst [Hn Hl]. split; [done|]. intros rid st id' Hlist.
  apply Hn in Hlist. destruct (decide (id' = id)) as [->|Hne]; [right|by left].
  split; [done|]. rewrite Hrel, Hst. by apply (Hv _ _ _ Hlist).
Qed.

(** *** Deletions *)

Definition without (X : gset string) (v : store) : store := filter (fun kv => kv.1 ∉ X) v.

(** Only ids of [X] lose their documents, and no id becomes known or listed. *)
Definition within (X : gset string) (k k' : keyspace) : Prop :=
  no_new k k' /\ forall id,
  (id ∉ X -> reverse k' !! id = reverse k !! id /\
             forall rid, bodies k' !! (rid, id) = bodies k !! (rid, id)) /\
  (reverse k !! id = None -> reverse k' !! id = None).

#[global] Instance within_preorder X : PreOrder (within X).
Proof.
  split; [done|]. intros a b c [Hn Hab] [Hn' Hbc]. split; [by transitivity b|]. intros id.
  destruct (Hab id) as [Ha Hna], (Hbc id) as [Hc Hnc].
  split; [|auto]. intros Hid. destruct (Ha Hid) as [Hr Hb], (Hc Hid) as [Hr' Hb'].
  split; [congruence|]. intros rid. by rewrite Hb', Hb.
Qed.

Lemma within_same X k k' : quiet k k' -> within X k k'.
Proof. intros [[Hb Hr] Hn]. split; [done|]. intros id. by rewrite Hb, Hr. Qed.

Lemma within_DEL_body X rid id k : id ∈ X -> within X k (DEL_body rid id k).
Proof.
  intros Hid. split; [done|]. intros id'. split; [|done]. intros Hne. split; [done|]. intros rid'.
  apply lookup_delete_ne. intros [= _ ->]. done.
Qed.

Lemma within_DEL_reverse X id k : id ∈ X -> within X k (DEL_reverse id k).
Proof.
  intros Hid. split; [done|]. intros id'. split.
  - intros Hne. split; [|done]. apply lookup_delete_ne. by intros ->.
  - intros Hn. simpl. apply lookup_delete_None. auto.
Qed.

Lemma encodes_without B k k' v X :
  encodes B k v -> within X k k' -> (forall id, id ∈ X -> reverse k' !! id = None) ->
  encodes B k' (without X v).
Proof.
  intros [He Hx] [Hn Hw] HX. split.
  2:{ apply (sound_no_new k k' _ Hn). destruct Hx as (Hl & Hv & Hd). split; [done|]. split.
      - intros rid st id Hlist. destruct (Hv _ _ _ Hlist) as [HU Ht]. split; [done|].
        intros t [Ht' _]%map_lookup_filter_Some. by apply Ht.
      - intros id t [Ht _]%map_lookup_filter_Some. by eapply Hd. }
  intros id. destruct (Hw id) as [Hid _]. unfold without.
  destruct (decide (id ∈ X)) as [Hin|Hin].
  - rewrite (map_lookup_filter_None_2 _ v id) by (right; simpl; auto). by apply HX.
  - specialize (He id). destruct (Hid Hin) as [Hr Hb]. destruct (v !! id) as [t|] eqn:Ev.
    + rewrite (map_lookup_filter_Some_2 _ v id t) by done. simpl in *. by rewrite Hr, Hb.
    + rewrite (map_lookup_filter_None_2 _ v id) by auto. simpl in *. congruence.
Qed.

(** A pipeline of deletions, with the reverse lookups of [X] among them. *)
Lemma encodes_pipeline_without B k v X (cmds : list cmd) :
  encodes B k v -> Forall (fun c => forall k, within X k (c k)) cmds ->
  (forall id, id ∈ X -> DEL_reverse id ∈ cmds) -> encodes B (pipeline cmds k) (without X v).
Proof.
  intros He Hf HX. eapply encodes_without; [done|by apply (pipeline_moves (within X))|].
  intros id Hid. apply HX in Hid. clear HX He.
  apply list_elem_of_split in Hid as (l1 & l2 & ->). rewrite Forall_app, Forall_cons in Hf.
  destruct Hf as (_ & _ & Hf). rewrite pipeline_app. simpl.
  change (fold_left (fun k c => c k) l2) with (pipeline l2).
  destruct (pipeline_moves (within X) l2 (DEL_reverse id (pipeline l1 k)) Hf) as [_ Hw].
  destruct (Hw id) as [_ Hn].
  apply Hn. apply lookup_delete_eq.
Qed.

Lemma without_empty v : without ∅ v = v.
Proof. apply map_filter_id. set_solver. Qed.

(** ** Reading

    Reads that go to the reader pool are read from the primary when no replica is
    configured. *)

Definition holds (B : Z) (v : store) (s : Redis.state) : Prop :=
  Redis.replica s = None /\ encodes B (Redis.primary s) v.

Lemma holds_moves B v s s' : moves quiet s s' -> holds B v s -> holds B v s'.
Proof. intros [Hm Hr] [Hn He]. split; [congruence|by eapply encodes_same]. Qed.

Lemma holds_eq B v s s' : moves eq s s' -> holds B v s -> holds B v s'.
Proof. intros Hm. apply holds_moves. by apply (moves_eq quiet). Qed.

Lemma keyspace_of_primary p B v s : holds B v s -> keyspace_of p s = Redis.primary s.
Proof. intros [Hn _]. unfold keyspace_of. rewrite Hn. by destruct p. Qed.

Lemma slot_decodes B k id t j :
  slot B k id (Some t) -> bodies k !! (tx_relayer_id t, id) = Some j -> tx_of_json j = Some t.
Proof. intros (_ & Hs & _ & _ & fs & Hb & Hf) Hj. simplify_eq. by apply fields_of_decodes. Qed.

Lemma get_by_id_on_spec p id context B v s :
  holds B v s ->
  wp (get_by_id_on p id context) (fun r s' => moves eq s s' /\
    (forall t, r = Ok t -> v !! id = Some t)) s.
Proof.
  intros Hs. unfold get_by_id_on. wp_step; [by split|].
  wp_step. apply wp_get_connection. intros [[]|e] s1 Hm1; [|done].
  assert (holds B v s1) as Hs1 by by eapply holds_eq.
  wp_step. apply wp_query.
  { intros e s2 Hm2. split; [by etransitivity|done]. }
  intros s2 Hm2. rewrite (keyspace_of_primary _ _ _ _ Hs1).
  assert (holds B v s2) as Hs2 by by eapply holds_eq.
  assert (Redis.primary s1 = Redis.primary s2) as Hp by apply Hm2.
  assert (moves eq s s2) as Hm by by etransitivity.
  pose proof (encodes_slot id (proj2 Hs2)) as Hi. rewrite Hp.
  destruct (v !! id) as [t|] eqn:Ev; [|simpl in Hi; rewrite Hi; by wp_step].
  pose proof Hi as (_ & _ & _ & Hr & fs & Hb & _). rewrite Hr.
  wp_step. apply wp_query.
  { intros e s3 Hm3. split; [by etransitivity|done]. }
  intros s3 Hm3. rewrite (keyspace_of_primary _ _ _ _ Hs2), Hb. wp_step.
  split; [by etransitivity|]. intros t'. unfold deserialize_tx, deserialize_entity.
  rewrite (slot_decodes _ _ _ _ _ Hi Hb). by intros [= <-].
Qed.

(** What a batch read finds. *)
Definition found (v : store) (ids : list string) : list TransactionRepoModel :=
  omap (fun id => v !! id) ids.
Definition unknown (v : store) (ids : list string) : list string :=
  List.filter (fun id => bool_decide (v !! id = None)) ids.

Lemma split_known_spec B k v ids :
  encodes B k v ->
  split_known ((fun id => reverse k !! id) <$> ids) ids =
  ((fun t => (tx_relayer_id t, tx_id t)) <$> found v ids, unknown v ids).
Proof.
  intros He. unfold split_known. induction ids as [|id ids IH]; [done|].
  unfold found, unknown in *. csimpl. rewrite IH. pose proof (encodes_slot id He) as Hi.
  destruct (v !! id) as [t|] eqn:Ev; simpl in Hi.
  - destruct Hi as (Hid & _ & _ & Hr & _). rewrite Hr. csimpl. by rewrite Hid.
  - by rewrite Hi.
Qed.

Lemma found_elem v ids t : t ∈ found v ids <-> exists id, id ∈ ids /\ v !! id = Some t.
Proof. apply list_elem_of_omap. Qed.

Lemma split_bodies_spec B k v ids :
  encodes B k v ->
  split_bodies
    ((fun key => bodies k !! key) <$> ((fun t => (tx_relayer_id t, tx_id t)) <$> found v ids))
    ((fun t => (tx_relayer_id t, tx_id t)) <$> found v ids) = (found v ids, []).
Proof.
  intros He. assert (Forall (fun t => v !! tx_id t = Some t) (found v ids)) as Hf.
  { apply Forall_forall. intros t (id & _ & Ht)%found_elem. pose proof (encodes_slot id He) as Hi.
    rewrite Ht in Hi. destruct Hi as [-> _]. done. }
  unfold split_bodies. induction Hf as [|t l Ht _ IH]; [done|]. csimpl. rewrite IH.
  pose proof (encodes_slot (tx_id t) He) as Hi. rewrite Ht in Hi. pose proof Hi as (_ & _ & _ & _ & fs & Hb & _).
  rewrite Hb. by rewrite (slot_decodes _ _ _ _ _ Hi Hb).
Qed.

Lemma get_transactions_by_ids_on_spec p ids B v s :
  holds B v s ->
  wp (get_transactions_by_ids_on p ids) (fun r s' => moves eq s s' /\
    (forall b, r = Ok b -> b = {| br_results := found v ids; br_failed_ids := unknown v ids |})) s.
Proof.
  intros Hs. unfold get_transactions_by_ids_on. destruct ids as [|id0 ids0] eqn:Eids.
  { wp_step. split; [done|]. by intros b [= <-]. }
  rewrite <- Eids. clear Eids. wp_step. apply wp_get_connection. intros [[]|e] s1 Hm1; [|done].
  assert (holds B v s1) as Hs1 by by eapply holds_eq.
  wp_step. apply wp_query.
  { intros e s2 Hm2. split; [by etransitivity|done]. }
  intros s2 Hm2. rewrite (keyspace_of_primary _ _ _ _ Hs1).
  rewrite (split_known_spec B _ v) by apply Hs1.
  assert (holds B v s2) as Hs2 by by eapply holds_eq.
  assert (moves eq s s2) as Hm by by etransitivity.
  destruct ((fun t => (tx_relayer_id t, tx_id t)) <$> found v ids) as [|key keys] eqn:Ek.
  { wp_step. split; [done|]. intros b [= <-]. by destruct (found v ids). }
  rewrite <- Ek. wp_step. apply wp_query.
  { intros e s3 Hm3. split; [by etransitivity|done]. }
  intros s3 Hm3. rewrite (keyspace_of_primary _ _ _ _ Hs2), (split_bodies_spec B _ v) by apply Hs2.
  wp_step. split; [by etransitivity|]. intros b [= <-]. by rewrite app_nil_r.
Qed.

(** ** Scripts

    [implements]: on a keyspace that encodes [v], the script is the update [F] of the stored
    transaction, and replies [false] when there is none. *)

Definition implements {A} (B0 : Z) (id : string)
    (script : keyspace -> result RedisError (option A) * keyspace)
    (F : TransactionRepoModel -> TransactionRepoModel)
    (reply : A -> TransactionRepoModel -> TransactionRepoModel -> Prop) : Prop :=
  forall B k v, B0 <= B < u32_max -> encodes B k v ->
  match v !! id with
  | None => script k = (Ok None, k)
  | Some t => exists a k', script k = (Ok (Some a), k') /\ reply a t (F t) /\
                           encodes (B + 1) k' (alter F id v)
  end.

(** What is known of a script's reply after [i] executions. *)
Definition replied {A} (F : TransactionRepoModel -> TransactionRepoModel) (id : string)
    (reply : A -> TransactionRepoModel -> TransactionRepoModel -> Prop) (v : store) (i : nat)
    (o : option A) : Prop :=
  match o with
  | None => v !! id = None
  | Some a => exists j t, i = S j /\ Nat.iter j (alter F id) v !! id = Some t /\ reply a t (F t)
  end.

Lemma alter_Some F id (v : store) t : v !! id = Some t -> alter F id v = <[id := F t]> v.
Proof.
  intros Ht. apply map_eq. intros id'. destruct (decide (id' = id)) as [->|Hne].
  - by rewrite lookup_alter_eq, lookup_insert_eq, Ht.
  - by rewrite lookup_alter_ne, lookup_insert_ne.
Qed.

Lemma alter_None F id (v : store) : v !! id = None -> alter F id v = v.
Proof.
  intros Ht. apply map_eq. intros id'. destruct (decide (id' = id)) as [->|Hne].
  - by rewrite lookup_alter_eq, Ht.
  - by rewrite lookup_alter_ne.
Qed.

Lemma iter_alter_shift F id i (v : store) :
  Nat.iter i (alter F id) (alter F id v) = Nat.iter (S i) (alter F id) v.
Proof. by rewrite Nat.iter_succ_r. Qed.

Lemma replied_shift {A} F id (reply : A -> _ -> _ -> Prop) (v : store) i o :
  replied F id reply (alter F id v) i o -> replied F id reply v (S i) o.
Proof.
  destruct o as [a|]; simpl.
  - intros (j & t & -> & Ht & Hr). exists (S j), t. by rewrite <- iter_alter_shift.
  - rewrite lookup_alter_eq. by destruct (v !! id).
Qed.

Lemma holds_mono B B' v s : B <= B' -> holds B v s -> holds B' v s.
Proof. intros HB [Hr He]. split; [done|by eapply encodes_mono]. Qed.

Lemma implements_runs {A} B0 id (script : keyspace -> result RedisError (option A) * keyspace)
    F reply B v s s' r :
  implements B0 id script F reply -> holds B v s -> B0 <= B < u32_max ->
  moves (fun k k' => k' = snd (script k)) s s' ->
  (exists e, r = Err e) \/ r = fst (script (Redis.primary s)) ->
  holds (B + 1) (alter F id v) s' /\ forall o, r = Ok o -> replied F id reply v 1 o.
Proof.
  intros Himp [Hn He] HB [Hp Hr] Hres. pose proof (Himp B _ v HB He) as Hi.
  destruct (v !! id) as [t|] eqn:Ev.
  - destruct Hi as (a & k' & Hs & Hrep & He'). rewrite Hs in *. simpl in *. split.
    + split; [congruence|by rewrite Hp].
    + intros o Ho. destruct Hres as [[e Hres]|Hres]; [congruence|].
      rewrite Hres in Ho. injection Ho as <-. exists 0%nat, t. done.
  - rewrite Hi in *. simpl in *. rewrite alter_None by done. split.
    + split; [congruence|]. rewrite Hp. eapply encodes_mono; [|done]. lia.
    + intros o Ho. destruct Hres as [[e Hres]|Hres]; [congruence|].
      rewrite Hres in Ho. by injection Ho as <-.
Qed.

(** A script sent up to [n] times is executed at most [n] times. *)
Lemma script_attempts_spec {A} B0 id (script : keyspace -> result RedisError (option A) * keyspace)
    F reply op_name n B v s :
  implements B0 id script F reply -> holds B v s -> B0 <= B -> B + Z.of_nat n <= u32_max ->
  wp (script_attempts n script op_name) (fun r s' =>
    exists i, (i <= n)%nat /\ holds (B + Z.of_nat n) (Nat.iter i (alter F id) v) s' /\
      forall o, r = Ok o -> replied F id reply v i o) s.
Proof.
  intros Himp. revert B v s. induction n as [|n IH]; intros B v s Hs HB Hn.
  { exists 0%nat. simpl. rewrite Z.add_0_r. done. }
  set (Q := fun (r : result RepositoryError.t (option A)) s' =>
    exists i, (i <= S n)%nat /\ holds (B + Z.of_nat (S n)) (Nat.iter i (alter F id) v) s' /\
      forall o, r = Ok o -> replied F id reply v i o).
  assert (forall e s2, holds B v s2 -> wp (match n with
     | O => failM e | _ => script_attempts n script op_name end) Q s2) as Hagain.
  { intros e s2 Hs2. destruct n as [|n'].
    { exists 0%nat. split_and!; [lia|apply (holds_mono B); [lia|done]|done]. }
    eapply wp_mono; [|apply (IH B v s2); [done|done|lia]].
    intros r' s' (i & Hi & Hh & Hr'). exists i. split_and!; [lia| |done].
    eapply holds_mono; [|done]. lia. }
  assert (forall e s2, holds (B + 1) (alter F id v) s2 -> wp (match n with
     | O => failM e | _ => script_attempts n script op_name end) Q s2) as Hlost.
  { intros e s2 Hs2. destruct n as [|n'].
    { exists 1%nat. split_and!; [lia|apply (holds_mono (B + 1)); [lia|done]|done]. }
    eapply wp_mono; [|apply (IH (B + 1) (alter F id v) s2); [done|lia|lia]].
    intros r' s' (i & Hi & Hh & Hr'). exists (S i). split_and!; [lia| |].
    - rewrite <- iter_alter_shift. eapply holds_mono; [|done]. lia.
    - intros o Ho. by apply replied_shift, Hr'. }
  simpl script_attempts. do 2 wp_step. apply wp_get_connection. intros [[]|e] s1 Hm1;
    (assert (holds B v s1) as Hs1 by by eapply holds_eq); [|by apply Hagain].
  do 2 wp_step. apply wp_invoke.
  { intros e s2 Hm2. apply Hagain. by eapply holds_eq. }
  intros r s2 Hm2 Hr. destruct (implements_runs _ _ _ _ _ _ _ _ _ _ Himp Hs1 ltac:(lia) Hm2 Hr)
    as [Hs2 Hrep].
  destruct r as [o|e]; [|by apply Hlost]. wp_step. exists 1%nat. split_and!; [lia| |].
  - apply (holds_mono (B + 1)); [lia|done].
  - intros o' [= <-]. by apply Hrep.
Qed.

(** *** The patch script *)

(** A partial update as the script applies it: a status change of a finalized transaction is
    refused. *)
Definition guarded (now : Z) (u : TransactionUpdateRequest) (t : TransactionRepoModel)
  : TransactionRepoModel :=
  if is_final_state (tx_status t) && bool_decide (is_Some (upd_status u)) then t
  else apply_partial_update now u t.

(** Updates whose documents survive the scripts. *)
Definition update_ok (B : Z) (u : TransactionUpdateRequest) : Prop :=
  all_opt safe_data (upd_network_data u) /\ in_range_opt u32_max (upd_noop_count u) /\
  all_opt (counters_le B) (upd_metadata u).

Lemma guarded_upd_result now u t : upd_result now u t (guarded now u t).
Proof.
  unfold upd_result, guarded. destruct (is_final_state (tx_status t)) eqn:E; simpl; [|by left].
  case_bool_decide; [by right|by left].
Qed.

Lemma opt_or_twice {A} (x y : option A) : opt_or x (opt_or x y) = opt_or x y.
Proof. by destruct x. Qed.

Lemma default_twice {A} (x : option A) (y : A) : default (default y x) x = default y x.
Proof. by destruct x. Qed.

Lemma apply_partial_update_twice now u t :
  apply_partial_update now u (apply_partial_update now u t) = apply_partial_update now u t.
Proof.
  unfold apply_partial_update at 1 3. f_equal; try apply opt_or_twice; try apply default_twice.
  simpl. destruct (upd_delete_at u), (upd_status u); simpl; try done.
  unfold update_delete_at_if_final_status. destruct (tx_delete_at t); [done|].
  by destruct (status_in _ _).
Qed.

(** Executing the script again changes nothing. *)
Lemma guarded_twice now u t : guarded now u (guarded now u t) = guarded now u t.
Proof.
  unfold guarded. case_bool_decide as Hu; [|rewrite !andb_false_r; apply apply_partial_update_twice].
  rewrite !andb_true_r. destruct (is_final_state (tx_status t)) eqn:E; [by rewrite E|].
  destruct (is_final_state (tx_status (apply_partial_update now u t))); [done|].
  apply apply_partial_update_twice.
Qed.

Lemma guarded_storable B now u t :
  update_ok B u -> storable t -> counters_le B (default metadata_default (tx_metadata t)) ->
  storable (guarded now u t) /\
  counters_le B (default metadata_default (tx_metadata (guarded now u t))).
Proof.
  intros (Hd & Hn & Hm) [Hs Hc] Hle. unfold guarded. destruct (_ && _); [done|].
  split; [split|]; simpl.
  - destruct (upd_network_data u) as [nd|]; [by apply Hd|done].
  - destruct (upd_noop_count u); [done|exact Hc].
  - destruct (upd_metadata u) as [m|]; [by apply Hm|done].
Qed.

Lemma guarded_ids now u t :
  tx_id (guarded now u t) = tx_id t /\ tx_relayer_id (guarded now u t) = tx_relayer_id t.
Proof. unfold guarded. by destruct (_ && _). Qed.

Lemma update_sets_status u :
  negb (bool_decide (lua_get "status" (update_fields u) = None)) =
  bool_decide (is_Some (upd_status u)).
Proof.
  unfold update_fields.
  destruct u as [[st|] ur us uc und up uh un uic ud um]; [done|].
  by destruct ur, us, uc, und, up, uh, un, uic, ud, um.
Qed.

(** What the reply of the patch script holds: the documents before and after. *)
Definition patch_reply (docs : json * json) (t t' : TransactionRepoModel) : Prop :=
  tx_of_json (fst docs) = Some t /\ tx_of_json (snd docs) = Some t'.

Lemma counters_le_ok B m : B <= u32_max -> counters_le B m -> metadata_ok m.
Proof. unfold counters_le, metadata_ok. lia. Qed.

Lemma index_leave_status rid im name : Forall index_cmd (leave_status rid im name).
Proof.
  unfold leave_status. apply Forall_app_2; destruct (suffix_of _ _); eauto with index_db.
Qed.

Lemma suffix_of_status u id st :
  suffix_of (im_sorted (partial_update_index_metadata id u)) (status_string st) = Some st /\
  suffix_of (im_legacy (partial_update_index_metadata id u)) (status_string st) = Some st.
Proof. by destruct st. Qed.

(** The move leaves the entry of the transaction under its new status only. *)
Lemma move_status_index_relisted B k k1 v id u t t' :
  encodes B k v -> v !! id = Some t -> tx_relayer_id t' = tx_relayer_id t ->
  tx_status t' <> tx_status t -> no_new k k1 ->
  let k' := move_status_index (tx_relayer_id t) (partial_update_index_metadata id u)
              (Some (status_string (tx_status t))) (Some (status_string (tx_status t'))) k1 in
  same_store k1 k' /\ relisted k k' id t'.
Proof.
  intros (_ & _ & Hv & _) Ht Hrel Hst [Hn Hl]. unfold move_status_index. cbn [mbind option_bind].
  destruct (suffix_of_status u id (tx_status t')) as [-> _].
  assert (leave_status (tx_relayer_id t) (partial_update_index_metadata id u)
    (status_string (tx_status t)) = [ZREM_sorted (tx_relayer_id t) (tx_status t) id;
                                     SREM_legacy (tx_relayer_id t) (tx_status t) id]) as ->.
  { unfold leave_status. by destruct (suffix_of_status u id (tx_status t)) as [-> ->]. }
  set (score := match im_confirmed_score _ with Some _ => _ | None => _ end).
  set (rest := if is_final_name _ then _ else _).
  change (im_tx_id (partial_update_index_metadata id u)) with id.
  assert (Forall index_cmd rest) as Hrest.
  { unfold rest. destruct (is_final_name _); [|constructor].
    apply Forall_concat, Forall_fmap, Forall_true. intros name. apply index_leave_status. }
  set (rid := tx_relayer_id t) in *. set (st := tx_status t) in *.
  set (k2 := SREM_legacy rid st id (ZREM_sorted rid st id (ZADD_sorted rid (tx_status t') id score k1))).
  change (pipeline _ k1) with (pipeline rest k2). destruct (index_pipeline rest k2 Hrest) as [Hs Hq].
  destruct (index_SREM_legacy rid st id (ZREM_sorted rid st id
    (ZADD_sorted rid (tx_status t') id score k1))) as [_ Hr]. fold k2 in Hr.
  split; [transitivity k2; [done|exact Hs]|]. split.
  - intros p Hp. by apply Hq, Hr, Hl.
  - intros rid' st' id' Hlist. apply Hq, Hr, listed_ZREM in Hlist as [Hlist Hne].
    apply listed_ZADD in Hlist as [Hlist|(-> & -> & ->)]; [|right; by rewrite Hrel].
    apply Hn in Hlist. destruct (decide (id' = id)) as [->|]; [|by left]. exfalso.
    apply Hne. destruct (Hv _ _ _ Hlist) as [_ Hv']. destruct (Hv' t Ht) as [<- <-]. done.
Qed.

(** The index document of an update. *)
Definition index_meta_of (id : string) (u : TransactionUpdateRequest) : option IndexMetadata :=
  match upd_status u with
  | Some _ => Some (partial_update_index_metadata id u)
  | None => None
  end.

(** The keyspace after the script: the new body, and the entry moved when the status
    changed. *)
Definition patch_effect (now : Z) (id : string) (u : TransactionUpdateRequest)
    (t : TransactionRepoModel) (fs : list field) (k : keyspace) : keyspace :=
  let t' := guarded now u t in
  let k1 := SET_body (tx_relayer_id t) id (JObject fs) k in
  if bool_decide (tx_status t' = tx_status t) then k1
  else move_status_index (tx_relayer_id t) (partial_update_index_metadata id u)
         (Some (status_string (tx_status t))) (Some (status_string (tx_status t'))) k1.

Lemma SET_body_id rid id j k : bodies k !! (rid, id) = Some j -> SET_body rid id j k = k.
Proof. intros Hb. unfold SET_body, set_bodies. rewrite insert_id by done. by destruct k. Qed.

Lemma guarded_keeps_status now u t : upd_status u = None -> tx_status (guarded now u t) = tx_status t.
Proof. intros Eu. unfold guarded. destruct (_ && _); [done|]. simpl. by rewrite Eu. Qed.

Lemma patch_script_run B k v now id u t :
  encodes B k v -> v !! id = Some t -> update_ok B u -> B < u32_max ->
  exists fs fs',
    patch_script id (update_fields u) (delete_at_arg now u) (index_meta_of id u) k =
      (Ok (Some (JObject fs, JObject fs')), patch_effect now id u t fs' k) /\
    fields_of fs t /\ fields_of fs' (guarded now u t).
Proof.
  intros He Ev Hu HB. pose proof (encodes_slot id He) as Hi. rewrite Ev in Hi.
  destruct Hi as (Hid & Hst & Hle & Hr & fs & Hb & Hf). unfold patch_script, with_body. rewrite Hr, Hb.
  destruct (guarded_storable B now u t Hu Hst Hle) as [Hst' _]. exists fs. unfold patch_effect.
  rewrite (status_name_of fs t Hf), is_final_name_status, update_sets_status.
  assert (guarded now u t = if is_final_state (tx_status t) && bool_decide (is_Some (upd_status u))
    then t else patched u (delete_at_arg now u) t) as Hg by (unfold guarded; by rewrite patched_apply).
  destruct (is_final_state (tx_status t) && bool_decide (is_Some (upd_status u))).
  { exists fs. rewrite Hg, bool_decide_eq_true_2, SET_body_id by done. done. }
  assert (all_opt metadata_ok (upd_metadata u)) as Hm
    by (intros m Em; eapply counters_le_ok; [|by apply Hu]; lia).
  destruct (patch_script_document fs t u (delete_at_arg now u)) as (fs' & Hdoc & Hf');
    [done|done|by rewrite <- Hg|].
  pose proof (patch_table_fields fs t u (delete_at_arg now u) Hm Hf) as Htab.
  exists fs'. cbv zeta. rewrite Hdoc, patch_table_decode, (status_name_of _ _ Htab), <- Hg in *.
  split; [|done]. f_equal. unfold index_meta_of. destruct (upd_status u) as [st|] eqn:Eu.
  - rewrite (bool_decide_eq_true_2 (is_Some (Some st))) by by eexists. simpl andb.
    rewrite (bool_decide_ext (Some _ = Some _) (tx_status (guarded now u t) = tx_status t)).
    2:{ split; [intros [= E]; by apply status_string_inj|by intros ->]. }
    by case_bool_decide.
  - by rewrite guarded_keeps_status, bool_decide_eq_true_2.
Qed.

Lemma patch_script_implements B0 now id u :
  update_ok B0 u ->
  implements B0 id
    (patch_script id (update_fields u) (delete_at_arg now u) (index_meta_of id u))
    (guarded now u) patch_reply.
Proof.
  intros Hu B k v [HB HB'] He. destruct (v !! id) as [t|] eqn:Ev.
  2:{ pose proof (encodes_slot id He) as Hi. rewrite Ev in Hi. unfold patch_script, with_body.
      simpl in Hi. by rewrite Hi. }
  assert (update_ok B u) as HuB
    by (destruct Hu as (? & ? & Hm); split_and!; try done; intros m E;
        eapply counters_le_mono; [done|by apply Hm]).
  destruct (patch_script_run B k v now id u t He Ev HuB HB') as (fs & fs' & Hrun & Hf & Hf').
  pose proof (encodes_slot id He) as Hi. rewrite Ev in Hi. destruct Hi as (Hid & Hst & Hle & _).
  destruct (guarded_storable B now u t HuB Hst Hle) as [Hst' Hle'].
  destruct (guarded_ids now u t) as [Hgid Hrel].
  eexists _, _. split; [exact Hrun|]. split; [split; by apply fields_of_decodes|].
  rewrite (alter_Some _ _ _ t) by done.
  assert (same_store (SET_body (tx_relayer_id t) id (JObject fs') k)
            (patch_effect now id u t fs' k) /\
          relisted k (patch_effect now id u t fs' k) id (guarded now u t)) as [Hss Hrl].
  { unfold patch_effect. case_bool_decide as Es.
    - split; [done|]. by eapply (relisted_same B).
    - by eapply move_status_index_relisted. }
  eapply encodes_mono; [|eapply (encodes_patch B)]; eauto; [lia|congruence].
Qed.

(** *** The counter scripts *)

Definition count_edit (f : TransactionMetadata -> TransactionMetadata)
    (g : TransactionRepoModel -> TransactionRepoModel) (t : TransactionRepoModel)
  : TransactionRepoModel :=
  if is_final_state (tx_status t) then t
  else set_tx_metadata (Some (f (default metadata_default (tx_metadata t)))) (g t).

Lemma metadata_script_implements B0 id edit f retouch g :
  (forall B, B < u32_max -> edits B edit f) -> retouches retouch g ->
  (forall t, tx_network_data (g t) = tx_network_data t /\ tx_noop_count (g t) = tx_noop_count t /\
             tx_id (g t) = tx_id t /\ tx_relayer_id (g t) = tx_relayer_id t /\
             tx_status (g t) = tx_status t) ->
  (forall B m, counters_le B m -> counters_le (B + 1) (f m)) ->
  implements B0 id (metadata_script id edit retouch) (count_edit f g)
    (fun j _ t' => tx_of_json j = Some t').
Proof.
  intros Hed Hre Hg Hf1 B k v [HB HB'] He. pose proof (encodes_slot id He) as Hi.
  unfold metadata_script, with_body.
  destruct (v !! id) as [t|] eqn:Ev; [|simpl in Hi; by rewrite Hi].
  pose proof Hi as (Hid & Hst & Hle & Hr & fs & Hb & Hf). rewrite Hr, Hb.
  rewrite (status_name_of fs t Hf), is_final_name_status.
  assert (count_edit f g t = if is_final_state (tx_status t) then t else
    set_tx_metadata (Some (f (default metadata_default (tx_metadata t)))) (g t)) as Hc by done.
  destruct (is_final_state (tx_status t)).
  - exists (JObject fs), k. rewrite Hc. split_and!; [done|by apply fields_of_decodes|].
    rewrite (alter_Some _ _ _ t), Hc, insert_id by done. eapply encodes_mono; [|done]. lia.
  - destruct (metadata_edit_document B edit f retouch g fs t) as (tbl & fs' & Htbl & Hset & Hf');
      [by apply Hed|done|apply Hg|done..|].
    assert (forall t0 m, tx_network_data (set_tx_metadata m t0) = tx_network_data t0 /\
      tx_noop_count (set_tx_metadata m t0) = tx_noop_count t0 /\
      tx_metadata (set_tx_metadata m t0) = m /\ tx_id (set_tx_metadata m t0) = tx_id t0 /\
      tx_relayer_id (set_tx_metadata m t0) = tx_relayer_id t0 /\
      tx_status (set_tx_metadata m t0) = tx_status t0) as Hsm by by intros [].
    cbv zeta. rewrite Htbl, Hset. rewrite <- Hc in Hf'.
    assert (storable (count_edit f g t)) as Hst'.
    { rewrite Hc. unfold storable. destruct (Hsm (g t) (Some (f (default metadata_default
        (tx_metadata t))))) as (-> & -> & _). destruct (Hg t) as (-> & -> & _). done. }
    eexists _, _. split; [reflexivity|]. split; [by apply fields_of_decodes|].
    destruct (Hsm (g t) (Some (f (default metadata_default (tx_metadata t)))))
      as (_ & _ & Hmd & Hmi & Hmr & Hms). destruct (Hg t) as (_ & _ & Hgi & Hgr & Hgs).
    rewrite (alter_Some _ _ _ t) by done.
    eapply (encodes_patch _ k);
      [eapply encodes_mono; [|exact He]; lia|done|rewrite Hc; congruence|rewrite Hc; congruence
      |done|rewrite Hc, Hmd; by apply Hf1|exact Hf'|done|].
    eapply (relisted_same B); eauto; [rewrite Hc; congruence..|done].
Qed.

Lemma increment_implements B0 id :
  implements B0 id
    (metadata_script id
       (fun m => m ← lua_increment "consecutive_failures" m; lua_increment "total_failures" m)
       (fun j => j))
    (count_edit bump_failures (fun t => t)) (fun j _ t' => tx_of_json j = Some t').
Proof.
  apply metadata_script_implements; [|apply retouch_id|done|].
  - intros. by apply edit_increment.
  - unfold counters_le. simpl. lia.
Qed.

Lemma reset_implements B0 id :
  implements B0 id
    (metadata_script id
       (fun m => Some (set_field "consecutive_failures" (JNumber (lua_number (print_dec 0))) m))
       (fun j => j))
    (count_edit clear_failures (fun t => t)) (fun j _ t' => tx_of_json j = Some t').
Proof.
  apply metadata_script_implements; [|apply retouch_id|done|].
  - intros. by apply edit_reset.
  - unfold counters_le. simpl. lia.
Qed.

Lemma fee_retry_implements B0 id sent_at :
  implements B0 id
    (metadata_script id (lua_increment "insufficient_fee_retries") (set_str "sent_at" sent_at))
    (count_edit bump_fee_retries (set_tx_sent_at (Some sent_at)))
    (fun j _ t' => tx_of_json j = Some t').
Proof.
  apply metadata_script_implements; [|apply retouch_sent_at|by intros []|].
  - intros. by apply edit_fee_retry.
  - unfold counters_le. simpl. lia.
Qed.

Lemma later_retry_implements B0 id sent_at :
  implements B0 id
    (metadata_script id (lua_increment "try_again_later_retries") (set_str "sent_at" sent_at))
    (count_edit bump_later_retries (set_tx_sent_at (Some sent_at)))
    (fun j _ t' => tx_of_json j = Some t').
Proof.
  apply metadata_script_implements; [|apply retouch_sent_at|by intros []|].
  - intros. by apply edit_later_retry.
  - unfold counters_le. simpl. lia.
Qed.

(** ** The operations *)

(** [stays B v]: a state that holds [v] is taken to one that holds it. *)
Definition stays (B : Z) (v : store) (s s' : Redis.state) : Prop := holds B v s -> holds B v s'.

#[global] Instance stays_preorder B v : PreOrder (stays B v).
Proof. split; [by intros s Hs|]. intros a b c Hab Hbc Ha. by apply Hbc, Hab. Qed.

Lemma stays_quiet {A E} B v (c : M Redis.state E A) :
  preserves (moves quiet) c -> preserves (stays B v) c.
Proof. intros Hc s Hs. eapply holds_moves; [apply Hc|done]. Qed.

Lemma wp_stays {A E} B v (c : M Redis.state E A) s :
  preserves (stays B v) c -> holds B v s -> wp c (fun _ s' => holds B v s') s.
Proof. intros Hc Hs. exact (Hc s Hs). Qed.

Lemma stays_get_connection B v context : preserves (stays B v) (get_connection context).
Proof. apply stays_quiet, preserves_get_connection, _. Qed.

Lemma stays_query {A} B v p (f : keyspace -> A) context :
  preserves (stays B v) (query p f context).
Proof. apply stays_quiet, preserves_query, _. Qed.

Lemma stays_invoke {A} B v (f : keyspace -> result RedisError A * keyspace) :
  (forall k, quiet k (snd (f k))) -> preserves (stays B v) (invoke f).
Proof. intros Hf. apply stays_quiet, preserves_invoke; [exact _|done]. Qed.

Lemma stays_exec B v cmds context : Forall index_cmd cmds -> preserves (stays B v) (exec cmds context).
Proof.
  intros Hf. apply stays_quiet. apply preserves_exec; [exact _|]. intros k. by apply index_pipeline.
Qed.
Hint Resolve stays_get_connection stays_query : preserves_db.

Lemma stays_get_transactions_by_ids_on B v p ids :
  preserves (stays B v) (get_transactions_by_ids_on p ids).
Proof. unfold get_transactions_by_ids_on. preserve. Qed.

Lemma stays_get_transactions_by_ids B v ids : preserves (stays B v) (get_transactions_by_ids ids).
Proof. apply stays_get_transactions_by_ids_on. Qed.
Hint Resolve stays_get_transactions_by_ids_on stays_get_transactions_by_ids : preserves_db.

(** A stored transaction may be listed under its status. *)
Definition may_list (v : store) (c : cmd) : Prop :=
  index_cmd c \/ exists id t x, c = ZADD_sorted (tx_relayer_id t) (tx_status t) id x /\ v !! id = Some t.

Lemma encodes_pipeline B k v cmds :
  encodes B k v -> Forall (may_list v) cmds -> encodes B (pipeline cmds k) v.
Proof.
  intros He Hf. revert k He. induction Hf as [|c cmds Hc _ IH]; intros k He; [done|].
  simpl. apply IH. destruct Hc as [Hc|(id & t & x & -> & Ht)];
    [eapply encodes_same; [apply Hc|done]|].
  destruct He as (He & Hl & Hv & Hd). do 2 (split; [done|]). split; [|done].
  intros rid st id' Hlist. apply listed_ZADD in Hlist as [Hlist|(-> & -> & ->)]; [by apply Hv|].
  split; [by eapply Hd|]. intros t' Ht'. by simplify_eq.
Qed.

Lemma stays_exec_list B v cmds context :
  Forall (may_list v) cmds -> preserves (stays B v) (exec cmds context).
Proof.
  intros Hf s Hs. apply (wp_exec cmds context (fun _ s' => holds B v s')).
  - intros e s' Hm. by eapply holds_eq.
  - intros r s' [Hp Hr]. destruct Hs as [Hn He]. split; [congruence|]. rewrite Hp.
    by apply encodes_pipeline.
Qed.

Lemma may_list_index v cmds : Forall index_cmd cmds -> Forall (may_list v) cmds.
Proof. intros Hf. eapply Forall_impl; [exact Hf|]. intros c. by left. Qed.

Lemma stays_update_indexes B v tx old (inc : bool) :
  (inc = true -> v !! tx_id tx = Some tx) -> preserves (stays B v) (update_indexes tx old inc).
Proof.
  intros Hinc. unfold update_indexes, update_index_cmds. preserve. apply stays_exec_list.
  repeat apply Forall_app_2.
  - apply may_list_index. eauto with index_db.
  - destruct inc; [|constructor]. constructor; [|constructor]. right. eauto 6.
  - destruct (extract_nonce _); apply may_list_index; eauto with index_db.
  - apply may_list_index. eauto with index_db.
  - destruct old as [old|]; [|constructor]. apply may_list_index, Forall_app_2.
    + destruct (_ && _); eauto with index_db.
    + destruct (extract_nonce _); [destruct (bool_decide _)|]; eauto with index_db.
Qed.

(** The sets of the earlier layout are empty: there is nothing to migrate. *)
Lemma stays_ensure_status_sorted_set B v rid st :
  preserves (stays B v) (ensure_status_sorted_set rid st).
Proof.
  intros s Hs. unfold ensure_status_sorted_set. fold (holds B v).
  apply (wp_bind (get_connection _) _ (fun _ s' => holds B v s')). apply wp_get_connection.
  intros [[]|e] s1 Hm1; (assert (holds B v s1) as Hs1 by by eapply holds_eq); [|done].
  wp_step. apply wp_query; [intros e s2 Hm2; by eapply holds_eq|]. intros s2 Hm2.
  assert (holds B v s2) as Hs2 by by eapply holds_eq.
  rewrite (keyspace_of_primary _ _ _ _ Hs1). destruct Hs1 as [_ [_ [Hl _]]]. rewrite Hl.
  change (Z.of_nat (size (∅ : gset string)) =? 0) with true. simpl.
  by apply (wp_stays B v); [apply stays_query|].
Qed.
Hint Resolve stays_ensure_status_sorted_set : preserves_db.

Lemma reconcile_entry_lists B k v rid st mode ids id :
  encodes B k v ->
  Forall (may_list v)
    (reconcile_entry rid st mode {| br_results := found v ids; br_failed_ids := unknown v ids |} id).
Proof.
  intros He. unfold reconcile_entry. case_bool_decide; [apply may_list_index; eauto with index_db|].
  destruct mode; [|constructor]. destruct (find _ _) as [tx|] eqn:Ef; [|constructor].
  destruct (_ && _); [|constructor]. apply Forall_app_2; [apply may_list_index; eauto with index_db|].
  constructor; [|constructor]. right. apply find_some in Ef as [Hin Heq%String.eqb_eq].
  apply in_rev, list_elem_of_In, found_elem in Hin as (id' & _ & Ht).
  pose proof (encodes_slot id' He) as Hi. rewrite Ht in Hi. destruct Hi as [Hi _].
  eexists id, tx, _. split; [done|]. congruence.
Qed.

Lemma stays_reconcile_loop B v fuel rid st cutoff mode offset total :
  preserves (stays B v) (reconcile_loop fuel rid st cutoff mode offset total).
Proof.
  revert offset total. induction fuel as [|fuel IH]; intros offset total s Hs; [done|].
  simpl reconcile_loop. apply (wp_bind _ _ (fun _ s' => holds B v s')), wp_get_connection.
  intros [[]|e] s1 Hm1; (assert (holds B v s1) as Hs1 by by eapply holds_eq); [|done].
  wp_step. apply wp_query; [intros e s2 Hm2; by eapply holds_eq|]. intros s2 Hm2.
  assert (holds B v s2) as Hs2 by by eapply holds_eq. set (ids := ZRANGEBYSCORE _ _ _ _).
  destruct ids as [|id0 ids0] eqn:Eids; [done|]. rewrite <- Eids. clear Eids.
  wp_step. eapply wp_mono; [|by apply (get_transactions_by_ids_on_spec _ _ B v)].
  intros [b|e] s3 [Hm3 Hb]; (assert (holds B v s3) as Hs3 by by eapply holds_eq); [|done].
  rewrite (Hb b eq_refl). cbv zeta. destruct (_ <? _)%nat; [|by apply IH].
  wp_step. apply wp_get_connection.
  intros [[]|e] s4 Hm4; (assert (holds B v s4) as Hs4 by by eapply holds_eq); [|done].
  wp_step. eapply wp_mono; [|apply (wp_stays B v); [apply stays_exec_list|exact Hs4]].
  - intros [[]|e] s5 Hs5; [by apply IH|done].
  - apply Forall_concat, Forall_fmap, Forall_true. intros id.
    eapply reconcile_entry_lists. apply Hs4.
Qed.
Hint Resolve stays_reconcile_loop : preserves_db.

Lemma stays_reconcile_stale_status_indexes B v now rid :
  preserves (stays B v) (reconcile_stale_status_indexes now rid).
Proof. unfold reconcile_stale_status_indexes, reconcile_status_index. preserve. Qed.

Lemma iter_alter_idemp F id (v : store) i :
  (forall t, F (F t) = F t) ->
  (v !! id = None \/ i = 0%nat) /\ Nat.iter i (alter F id) v = v \/
  exists t, v !! id = Some t /\ Nat.iter i (alter F id) v = <[id := F t]> v.
Proof.
  intros HF. destruct (v !! id) as [t|] eqn:Ev.
  - destruct i as [|i]; [left; auto|right]. exists t. split; [done|].
    rewrite <- (alter_Some _ _ _ t) by done. clear Ev. induction i as [|i IH]; [done|].
    simpl in *. rewrite IH. apply map_eq. intros id'. destruct (decide (id' = id)) as [->|Hne].
    + rewrite !lookup_alter_eq. destruct (v !! id); simpl; [|done]. by rewrite HF.
    + by rewrite !lookup_alter_ne.
  - left. split; [auto|]. induction i as [|i IH]; simpl; [done|]. rewrite IH. by apply alter_None.
Qed.

(** A partial update is applied as a whole or not at all; a successful one returns what is then
    stored. *)
Lemma partial_update_spec now id u B v s :
  holds B v s -> update_ok B u -> B + 3 <= u32_max ->
  wp (partial_update now id u) (fun r s' =>
    (holds (B + 3) v s' /\ exists e, r = Err e) \/
    (exists t, v !! id = Some t /\ holds (B + 3) (<[id := guarded now u t]> v) s' /\
               forall t', r = Ok t' -> t' = guarded now u t)) s.
Proof.
  intros Hs Hu HB. unfold partial_update, run_script_with_retry_vec. wp_step.
  eapply wp_mono; [|eapply (script_attempts_spec B id _ (guarded now u) patch_reply _ _ B v s);
    [by apply patch_script_implements|done|lia|done]].
  change (Z.of_nat MAX_RETRIES) with 3. intros r s1 (i & Hi & Hs1 & Hr).
  destruct r as [o|e].
  2:{ destruct (iter_alter_idemp (guarded now u) id v i (guarded_twice now u))
        as [[_ Ei]|(t & Ht & Ei)]; rewrite Ei in Hs1; [left; eauto|right; by exists t]. }
  specialize (Hr o eq_refl). destruct o as [[old new]|].
  2:{ wp_step. left. split; [|by eexists]. simpl in Hr.
      destruct (iter_alter_idemp (guarded now u) id v i (guarded_twice now u))
        as [[_ Ei]|(t & Ht & Ei)]; [by rewrite Ei in Hs1|congruence]. }
  destruct Hr as (j & t & -> & Ht & Hold & Hnew). simpl in Hold, Hnew.
  destruct (iter_alter_idemp (guarded now u) id v (S j) (guarded_twice now u))
    as [[Hn Ei]|(t0 & Ht0 & Ei)].
  { destruct Hn as [Hn|Hn]; [|done]. clear -Hn Ht. exfalso. revert t Ht.
    induction j as [|j IH]; intros t Ht; simpl in Ht; [congruence|].
    rewrite lookup_alter_eq in Ht. destruct (Nat.iter j (alter (guarded now u) id) v !! id) eqn:E;
      [by eapply IH|done]. }
  rewrite Ei in Hs1. assert (guarded now u t = guarded now u t0) as Hg.
  { simpl in Ei. apply (f_equal (lookup id)) in Ei.
    rewrite lookup_alter_eq, lookup_insert_eq, Ht in Ei. by injection Ei. }
  unfold deserialize_tx, deserialize_entity. rewrite Hold, Hnew. do 4 wp_step. wp_step.
  eapply wp_mono; [|apply wp_stays; [by apply stays_update_indexes|exact Hs1]].
  intros [[]|e] s2 Hs2; right; exists t0; split_and!; try done. by intros t' [= <-].
Qed.

(** A counter script is executed up to three times; a successful one returns what is then
    stored. *)
Lemma run_atomic_script_spec id script F op_name B v s :
  implements B id script F (fun j _ t' => tx_of_json j = Some t') ->
  holds B v s -> B + 3 <= u32_max ->
  wp (run_atomic_script script id op_name) (fun r s' =>
    exists i, (i <= 3)%nat /\ holds (B + 3) (Nat.iter i (alter F id) v) s' /\
      forall t, r = Ok t -> Nat.iter i (alter F id) v !! id = Some t) s.
Proof.
  intros Himp Hs HB. unfold run_atomic_script. wp_step.
  eapply wp_mono; [|by eapply (script_attempts_spec B id script F _ op_name _ B v s)].
  change (Z.of_nat MAX_RETRIES) with 3. intros [o|e] s1 (i & Hi & Hs1 & Hr).
  2:{ exists i. done. }
  specialize (Hr o eq_refl). destruct o as [j|]; wp_step; exists i; (split_and!; [done..|]).
  - destruct Hr as (n & t & -> & Ht & Hj). unfold deserialize_tx, deserialize_entity.
    rewrite Hj. intros t' [= <-]. simpl. by rewrite lookup_alter_eq, Ht.
  - done.
Qed.

Lemma holds_pipeline_without B v s s' X cmds :
  holds B v s -> moves (fun k k' => k' = pipeline cmds k) s s' ->
  Forall (fun c => forall k, within X k (c k)) cmds ->
  (forall id, id ∈ X -> DEL_reverse id ∈ cmds) -> holds B (without X v) s'.
Proof.
  intros [Hn He] [Hp Hr] Hf HX. split; [congruence|]. rewrite Hp. by apply encodes_pipeline_without.
Qed.

Lemma index_within X (cmds : list cmd) :
  Forall index_cmd cmds -> Forall (fun c => forall k, within X k (c k)) cmds.
Proof. intros Hf. eapply Forall_impl; [exact Hf|]. intros c Hc k. apply within_same, Hc. Qed.

Lemma delete_by_id_spec id B v s :
  holds B v s ->
  wp (delete_by_id id) (fun r s' =>
    (holds B v s' /\ exists e, r = Err e) \/
    (is_Some (v !! id) /\ holds B (without {[id]} v) s')) s.
Proof.
  intros Hs. unfold delete_by_id. wp_step; [left; split; [done|by eexists]|].
  wp_step. eapply wp_mono; [|by apply (get_by_id_on_spec _ _ _ B v)].
  intros [t|e] s1 [Hm1 Ht].
  2:{ left. split; [by eapply holds_eq|by eexists]. }
  specialize (Ht t eq_refl). assert (holds B v s1) as Hs1 by by eapply holds_eq.
  pose proof (encodes_slot id (proj2 Hs1)) as Hi. rewrite Ht in Hi. destruct Hi as [Hid _].
  wp_step. apply wp_get_connection. intros [[]|e] s2 Hm2.
  2:{ left. split; [by eapply holds_eq|by eexists]. }
  assert (holds B v s2) as Hs2 by by eapply holds_eq.
  wp_step. apply wp_exec.
  { intros e s3 Hm3. left. split; [by eapply holds_eq|by eexists]. }
  intros r s3 Hm3. assert (holds B (without {[id]} v) s3) as Hs3.
  { eapply holds_pipeline_without; [exact Hs2|exact Hm3| |].
    - apply Forall_cons_2; [|apply Forall_cons_2; [|apply Forall_nil_2]]; intros k;
        [apply within_DEL_body|apply within_DEL_reverse]; set_solver.
    - intros id' ->%elem_of_singleton. set_solver. }
  destruct r as [[]|e]; [|right; eauto]. do 2 wp_step. unfold remove_all_indexes.
  wp_step. apply wp_get_connection. intros [[]|e] s4 Hm4;
    (assert (holds B (without {[id]} v) s4) as Hs4 by by eapply holds_eq); [|wp_step; right; eauto].
  apply wp_exec.
  { intros e s5 Hm5. wp_step. right. split; [eauto|by eapply holds_eq]. }
  intros r s5 Hm5. wp_step. right. split; [eauto|].
  assert (without {[id]} (without {[id]} v) = without {[id]} v) as <-.
  { apply map_filter_id. intros i x Hx. apply map_lookup_filter_Some in Hx as [_ Hx]. done. }
  eapply holds_pipeline_without; [exact Hs4|exact Hm5| |].
  - repeat apply Forall_app_2; try (by apply index_within; eauto with index_db).
    apply Forall_cons_2; [|apply Forall_cons_2; [|apply Forall_nil_2]]; intros k;
      [by apply within_same|apply within_DEL_reverse; set_solver].
  - intros id' ->%elem_of_singleton. rewrite Hid. set_solver.
Qed.

Lemma holds_delete_requests reqs B v s s' :
  holds B v s ->
  moves (fun k k' => k' = pipeline (concat (delete_request_cmds <$> reqs)) k) s s' ->
  holds B (without (list_to_set (dr_id <$> reqs)) v) s'.
Proof.
  intros Hs Hm. eapply holds_pipeline_without; [exact Hs|exact Hm| |].
  - apply Forall_concat, Forall_fmap, Forall_forall. intros req Hreq. simpl.
    assert (dr_id req ∈ (list_to_set (dr_id <$> reqs) : gset string)) as Hin
      by (apply elem_of_list_to_set, list_elem_of_fmap; eauto).
    constructor; [intros k; by apply within_DEL_body|].
    constructor; [intros k; by apply within_DEL_reverse|].
    repeat apply Forall_app_2; apply index_within; eauto with index_db.
  - intros id (req & -> & Hin)%elem_of_list_to_set%list_elem_of_fmap.
    apply list_elem_of_In, in_concat. exists (delete_request_cmds req). split.
    + apply in_map_iff. exists req. split; [done|by apply list_elem_of_In].
    + right. left. done.
Qed.

Lemma delete_by_requests_spec reqs B v s :
  holds B v s ->
  wp (delete_by_requests reqs) (fun r s' =>
    holds B v s' \/ holds B (without (list_to_set (dr_id <$> reqs)) v) s') s.
Proof.
  intros Hs. unfold delete_by_requests. destruct reqs as [|r0 reqs0] eqn:Er; [by left|].
  rewrite <- Er. clear Er. wp_step. apply wp_get_connection. intros [[]|e] s1 Hm1;
    (assert (holds B v s1) as Hs1 by by eapply holds_eq); [|by left].
  do 2 wp_step. apply wp_invoke.
  { intros e s2 Hm2. left. by eapply holds_eq. }
  intros r s2 Hm2 _. destruct r as [[]|e]; wp_step; right; by eapply holds_delete_requests.
Qed.

Lemma without_found v ids B k :
  encodes B k v ->
  without (list_to_set (tx_id <$> found v ids)) v = without (list_to_set ids) v.
Proof.
  intros He. apply map_filter_ext. intros id t Ht. simpl.
  rewrite !elem_of_list_to_set, list_elem_of_fmap. split.
  - intros Hn Hin. apply Hn. exists t. pose proof (encodes_slot id He) as Hi. rewrite Ht in Hi.
    split; [symmetry; apply Hi|]. apply found_elem. eauto.
  - intros Hn (t' & -> & (id' & Hin & Ht')%found_elem). pose proof (encodes_slot id' He) as Hi.
    rewrite Ht' in Hi. destruct Hi as [Hi _]. by rewrite Hi in Hn.
Qed.

Lemma delete_by_ids_spec ids B v s :
  holds B v s ->
  wp (delete_by_ids ids) (fun r s' =>
    holds B v s' \/ holds B (without (list_to_set ids) v) s') s.
Proof.
  intros Hs. unfold delete_by_ids. destruct ids as [|id0 ids0] eqn:Er; [by left|].
  rewrite <- Er. clear Er. wp_step.
  eapply wp_mono; [|by apply (get_transactions_by_ids_on_spec _ _ B v)].
  intros [b|e] s1 [Hm1 Hb]; (assert (holds B v s1) as Hs1 by by eapply holds_eq); [|by left].
  rewrite (Hb b eq_refl). cbn [br_results br_failed_ids]. wp_step.
  eapply wp_mono; [|by apply (delete_by_requests_spec _ B v)].
  rewrite <- list_fmap_compose. rewrite <- (without_found v ids B (Redis.primary s)) by apply Hs.
  intros [r|e] s2 Hs2; [wp_step|]; done.
Qed.

(** Commands that delete some transactions. *)
Definition drops (cmds : list cmd) : Prop :=
  exists X, Forall (fun c => forall k, within X k (c k)) cmds /\
            forall id, id ∈ X -> DEL_reverse id ∈ cmds.

Lemma within_mono X Y k k' : X ⊆ Y -> within X k k' -> within Y k k'.
Proof.
  intros HXY [Hnew Hw]. split; [done|]. intros id. destruct (Hw id) as [Hi Hn]. split; [|done].
  set_solver.
Qed.

Lemma drops_app a b : drops a -> drops b -> drops (a ++ b).
Proof.
  intros (X & Ha & HX) (Y & Hb & HY). exists (X ∪ Y). split; [|set_solver]. apply Forall_app_2.
  - eapply Forall_impl; [exact Ha|]. intros c Hc k. eapply within_mono; [|apply Hc]. set_solver.
  - eapply Forall_impl; [exact Hb|]. intros c Hc k. eapply within_mono; [|apply Hc]. set_solver.
Qed.

Lemma drops_relayer rid ids : drops (drop_relayer rid ids).
Proof.
  exists (list_to_set ids). split.
  - unfold drop_relayer. repeat apply Forall_app_2.
    + apply Forall_fmap, Forall_forall. intros id Hid k. apply within_DEL_body. by apply elem_of_list_to_set.
    + apply Forall_concat, Forall_fmap, Forall_forall. intros id Hid. simpl. constructor.
      * intros k. apply within_DEL_reverse. by apply elem_of_list_to_set.
      * apply index_within. eauto with index_db.
    + apply index_within. eauto with index_db.
  - intros id Hid%elem_of_list_to_set. unfold drop_relayer. rewrite !elem_of_app. right. left.
    apply list_elem_of_In, in_concat. exists (DEL_reverse id :: clear_status_indexes rid id).
    split; [|by left]. apply in_map_iff. exists id. split; [done|by apply list_elem_of_In].
Qed.

Lemma drop_all_entries_spec B v s :
  holds B v s -> wp drop_all_entries (fun _ s' => exists X, holds B (without X v) s') s.
Proof.
  intros Hs. assert (forall s', holds B v s' -> exists X, holds B (without X v) s') as Hsame
    by (intros s' Hs'; exists ∅; by rewrite without_empty).
  unfold drop_all_entries. wp_step. apply wp_get_connection. intros [[]|e] s1 Hm1;
    (assert (holds B v s1) as Hs1 by by eapply holds_eq); [|by apply Hsame].
  wp_step. apply wp_query; intros; [apply Hsame; by eapply holds_eq|].
  assert (holds B v s') as Hs2 by by eapply holds_eq.
  destruct (SMEMBERS _) as [|rid rids]; [by apply Hsame|].
  eapply (wp_bind_keeps (holds B v) _ drops); [|done|by intros; apply Hsame|].
  - apply keeps_foldM.
    + exists ∅. split; [constructor|set_solver].
    + intros cmds rid' Hd s2 Hs3. pose proof (wp_query Primary (scan_tx_ids rid')
        "drop_all_entries_scan" (fun _ s3 => holds B v s3) s2
        ltac:(intros; by eapply holds_eq) ltac:(intros; by eapply holds_eq)) as Hq.
      unfold wp in Hq. unfold bindM. destruct (query _ _ _ s2) as [[ids|e] s3]; simpl in *;
        (split; [done|]); [|done]. intros a [= <-]. by apply drops_app, drops_relayer.
  - intros cmds s2 Hd Hs3. assert (drops (cmds ++ [DEL_relayer_list])) as (X & HX & HX').
    { apply drops_app; [done|]. exists ∅. split; [|set_solver]. apply index_within.
      eauto with index_db. }
    apply wp_exec; [intros; apply Hsame; by eapply holds_eq|].
    intros r s3 Hm3. exists X. by eapply holds_pipeline_without.
Qed.
End Store.

(** ** Creation

    The id of a new transaction has not been used before. *)

Section Create.
Context `{Chrono} `{ServerConfig} `{JsonFloat} `{ForeignSerde} `{LuaJson} `{JsonText}
  `{SetOrder}.

Lemma encodes_grow U U' B k v : U ⊆ U' -> encodes U B k v -> encodes U' B k v.
Proof.
  intros HU (He & Hl & Hv & Hd). split; [done|]. split; [done|]. split.
  - intros rid st id Hlist. destruct (Hv _ _ _ Hlist) as [Hin Ht]. split; [set_solver|done].
  - intros id t Ht. apply HU. by eapply Hd.
Qed.

Lemma holds_grow U U' B v s : U ⊆ U' -> holds U B v s -> holds U' B v s.
Proof. intros HU [Hr He]. split; [done|by eapply encodes_grow]. Qed.

Lemma create_spec U t B v s :
  holds U B v s -> tx_id t ∉ U -> B <= u32_max -> storable t ->
  counters_le B (default metadata_default (tx_metadata t)) ->
  wp (create t) (fun r s' =>
    (holds U B v s' /\ exists e, r = Err e) \/
    (v !! tx_id t = None /\ holds ({[tx_id t]} ∪ U) B (<[tx_id t := t]> v) s' /\
     forall t', r = Ok t' -> t' = t)) s.
Proof.
  intros Hs HU HB Hst Hc. unfold create. wp_step; [left; split; [done|by eexists]|].
  wp_step. apply wp_get_connection. intros [[]|e] s1 Hm1.
  2:{ left. split; [by eapply holds_eq|by eexists]. }
  assert (holds U B v s1) as Hs1 by by eapply holds_eq.
  wp_step. apply wp_query.
  { intros e s2 Hm2. left. split; [by eapply holds_eq|by eexists]. }
  intros s2 Hm2. assert (holds U B v s2) as Hs2 by by eapply holds_eq.
  rewrite (keyspace_of_primary _ _ _ _ _ Hs1). pose proof (encodes_slot U (tx_id t) (proj2 Hs1)) as Hi.
  destruct (v !! tx_id t) as [t0|] eqn:Ev.
  { destruct Hi as (_ & _ & _ & -> & _). wp_step. left. split; [done|by eexists]. }
  simpl in Hi. rewrite Hi. wp_step. apply wp_exec.
  { intros e s3 Hm3. left. split; [by eapply holds_eq|by eexists]. }
  intros r s3 [Hp Hr].
  assert (holds ({[tx_id t]} ∪ U) B (<[tx_id t := t]> v) s3) as Hs3.
  { split; [rewrite Hr; apply Hs2|]. eapply (encodes_insert _ B _ _ v (tx_id t) t (tx_fields t));
      [|done|done|done| |set_solver|by rewrite Hp|by rewrite Hp|].
    { eapply encodes_grow; [|apply Hs2]. set_solver. }
    2:{ rewrite Hp. split; [done|]. intros rid st id' Hl.
        change (listed (Redis.primary s2) rid st id') in Hl. left. split; [|done].
        intros ->. destruct Hs2 as (_ & _ & _ & Hv & _). by destruct (Hv _ _ _ Hl). }
    exists (json_option metadata_json (tx_metadata t)). split; [|done].
    destruct (tx_metadata t) as [m|] eqn:Em; [|done]. simpl in Hc.
    by eapply meta_doc_json, counters_le_ok. }
  destruct r as [[]|e]; [|right; done]. wp_step.
  eapply wp_mono; [|eapply wp_stays; [|exact Hs3]; apply stays_update_indexes; intros _;
    apply lookup_insert_eq].
  intros [[]|e] s4 Hs4; right; split_and!; try done. by intros t' [= <-].
Qed.
End Create.
