(* ===== verification/Jobs.v ===== *)
(** * Jobs

    The messages of [jobs/job.rs] that the transaction code puts on the queues, with their
    builders.  The envelope ([message_id], [timestamp], [request_id]) is added by the producer
    and carries no information the handlers use. *)

From S2P Require Import Prelude Decimal Errors Model Config.
Open Scope Z_scope.

Record TransactionRequest := {
  jr_transaction_id : string;
  jr_relayer_id : string;
  jr_network_type : option NetworkType;
  jr_metadata : option (gmap string string);
}.

Definition transaction_request (tx_id relayer_id : string) : TransactionRequest :=
  {| jr_transaction_id := tx_id; jr_relayer_id := relayer_id; jr_network_type := None;
     jr_metadata := None |}.

Module TransactionCommand.
Inductive t : Type :=
| Submit
| Cancel (reason : string)
| Resubmit
| Resend.
End TransactionCommand.

Record TransactionSend := {
  js_transaction_id : string;
  js_relayer_id : string;
  js_command : TransactionCommand.t;
  js_network_type : option NetworkType;
  js_metadata : option (gmap string string);
}.

Definition send_with (c : TransactionCommand.t) (tx_id relayer_id : string) : TransactionSend :=
  {| js_transaction_id := tx_id; js_relayer_id := relayer_id; js_command := c;
     js_network_type := None; js_metadata := None |}.

Definition send_submit : string -> string -> TransactionSend := send_with TransactionCommand.Submit.
Definition send_cancel (tx_id relayer_id reason : string) : TransactionSend :=
  send_with (TransactionCommand.Cancel reason) tx_id relayer_id.
Definition send_resubmit : string -> string -> TransactionSend :=
  send_with TransactionCommand.Resubmit.
Definition send_resend : string -> string -> TransactionSend := send_with TransactionCommand.Resend.

Record TransactionStatusCheck := {
  jc_transaction_id : string;
  jc_relayer_id : string;
  jc_network_type : option NetworkType;
  jc_status_check_retry_delay_seconds : Z;
  jc_metadata : option (gmap string string);
}.

Definition status_check_new (tx_id relayer_id : string) (nt : NetworkType)
  : TransactionStatusCheck :=
  {| jc_transaction_id := tx_id; jc_relayer_id := relayer_id; jc_network_type := Some nt;
     jc_status_check_retry_delay_seconds := DEFAULT_EVM_STATUS_CHECK_RETRY_DELAY_SECONDS;
     jc_metadata := None |}.

Definition with_status_check_retry_delay_seconds (delay : Z) (j : TransactionStatusCheck)
  : TransactionStatusCheck :=
  {| jc_transaction_id := jc_transaction_id j; jc_relayer_id := jc_relayer_id j;
     jc_network_type := jc_network_type j;
     jc_status_check_retry_delay_seconds := delay; jc_metadata := jc_metadata j |}.

Definition status_check_with_metadata (m : gmap string string) (j : TransactionStatusCheck)
  : TransactionStatusCheck :=
  {| jc_transaction_id := jc_transaction_id j; jc_relayer_id := jc_relayer_id j;
     jc_network_type := jc_network_type j;
     jc_status_check_retry_delay_seconds := jc_status_check_retry_delay_seconds j;
     jc_metadata := Some m |}.

Definition status_check_for_evm_network (tx_id relayer_id : string) (network : EvmNetwork)
  : TransactionStatusCheck :=
  with_status_check_retry_delay_seconds (net_status_check_retry_delay_seconds network)
    (status_check_new tx_id relayer_id NtEvm).

Record RelayerHealthCheck := {
  jh_relayer_id : string;
  jh_retry_count : Z;
  jh_metadata : option (gmap string string);
}.

Definition HEALTH_CHECK_ACTION_KEY : string := "health_check_action".
Definition HEALTH_CHECK_ACTION_NONCE_HEALTH : string := "nonce_health".
Definition HEALTH_CHECK_NONCE_HINT_KEY : string := "nonce_hint".

Definition nonce_health (relayer_id : string) : RelayerHealthCheck :=
  {| jh_relayer_id := relayer_id; jh_retry_count := 0;
     jh_metadata := Some {[ HEALTH_CHECK_ACTION_KEY := HEALTH_CHECK_ACTION_NONCE_HEALTH ]} |}.

Definition nonce_health_with_hint (relayer_id : string) (nonce_hint : Z) : RelayerHealthCheck :=
  let job := nonce_health relayer_id in
  {| jh_relayer_id := jh_relayer_id job; jh_retry_count := jh_retry_count job;
     jh_metadata :=
       (fun m : gmap string string => <[HEALTH_CHECK_NONCE_HINT_KEY := print_dec nonce_hint]> m)
       <$> jh_metadata job |}.

(** What is on the queues, each with the Unix time it becomes available, if delayed.  A
    notification carries the transaction it reports. *)
Inductive QueuedJob : Type :=
| JRequest (j : TransactionRequest) (scheduled_on : option Z)
| JSend (j : TransactionSend) (scheduled_on : option Z)
| JStatusCheck (j : TransactionStatusCheck) (scheduled_on : option Z)
| JHealth (j : RelayerHealthCheck) (scheduled_on : option Z)
| JNotification (notification_id : string) (tx : TransactionRepoModel).
