(* ===== verification/Effects.v ===== *)
(** * The world the transaction code acts on

    [World] is the state: the transaction repository, the counters, the queued jobs, the raw
    transactions, the Stellar envelopes and the Solana transactions handed to the RPC nodes,
    the nonce-health debounce map, the lanes of the Stellar relayers, and a tick that advances
    with every interaction.  [Env] collects what is outside the repository's code: the clocks,
    the RPC provider (alloy), the signer, the stored networks and the queue
    backend.  Each of its functions takes the tick, so that two calls may answer differently;
    nothing is assumed about the answers. *)

From S2P Require Import Prelude Decimal Errors Model Config StellarXdr SolanaSdk Repository Counter Jobs.
Open Scope Z_scope.

(** What the code reads from an RPC receipt; addresses in their printed form. *)
Record Receipt := {
  rc_status : bool;
  rc_block_number : option Z;
  rc_to : option string;
  rc_from : string;
}.

(** The [eth_call] request rebuilt from a stored transaction. *)
Record CallRequest := {
  cr_from : string;
  cr_to : option string;
  cr_value : Z;
  cr_input : string;
  cr_gas : option Z;
  cr_gas_price : option Z;
  cr_max_fee_per_gas : option Z;
  cr_max_priority_fee_per_gas : option Z;
}.

Class Env := {
  (** [Utc::now()] and [Instant::now()], in nanoseconds. *)
  env_now : nat -> Z;
  env_instant : nat -> Z;

  (** [EvmProviderTrait] *)
  rpc_send_raw_transaction : nat -> list Byte.byte -> result ProviderError.t string;
  rpc_estimate_gas : nat -> EvmTransactionData -> result ProviderError.t Z;
  rpc_block_gas_limit : nat -> result ProviderError.t Z;
  rpc_get_balance : nat -> string -> result ProviderError.t Z;
  rpc_get_transaction_receipt : nat -> string -> result ProviderError.t (option Receipt);
  rpc_get_block_number : nat -> result ProviderError.t Z;
  rpc_get_transaction_count : nat -> string -> result ProviderError.t Z;
  rpc_debug_trace_transaction : nat -> string -> result ProviderError.t json;
  rpc_get_call_revert_data :
    nat -> CallRequest -> Z -> result ProviderError.t (option (list Byte.byte));

  (** [Signer::sign_transaction], with the message of its error. *)
  signer_sign : nat -> NetworkTransactionData -> result string SignTransactionResponseEvm;

  (** The network repository. *)
  networks_by_chain_id : nat -> Z -> result RepositoryError.t (option NetworkRepoModel);
  networks_by_name : nat -> string -> result RepositoryError.t (option NetworkRepoModel);

  (** A fault of the queue backend when a job is produced. *)
  queue_fault : nat -> option JobProducerError.t;

  (** [Uuid::new_v4()] *)
  env_uuid : nat -> string;

  (** alloy's address and byte-string parsers: the error message, if any. *)
  parse_address_error : string -> option string;
  parse_bytes_error : string -> option string;
}.

(** The price calculator the transaction code is generic in ([PriceCalculatorTrait]). *)
Class PriceCalculator := {
  get_transaction_price_params :
    nat -> EvmTransactionData -> RelayerRepoModel -> result TransactionError.t PriceParams;
  calculate_bumped_gas_price :
    nat -> EvmTransactionData -> RelayerRepoModel -> bool ->
    result TransactionError.t PriceParams;
}.

Record World (S C : Type) := {
  w_tick : nat;
  w_repo : S;
  w_ctr : C;
  w_jobs : list QueuedJob;
  w_sent : list (list Byte.byte);
  w_debounce : gmap string Z;
  w_lanes : gmap string string;
  w_envelopes : list TransactionEnvelope;
  w_solana : list SolanaTransaction;
}.
Arguments w_tick {S C} _.
Arguments w_repo {S C} _.
Arguments w_ctr {S C} _.
Arguments w_jobs {S C} _.
Arguments w_sent {S C} _.
Arguments w_debounce {S C} _.
Arguments w_lanes {S C} _.
Arguments w_envelopes {S C} _.
Arguments w_solana {S C} _.
Arguments Build_World {S C} _ _ _ _ _ _ _ _ _.

Section Ops.
Context `{Chrono} `{ServerConfig} `{Env}.
Context {S C : Type} `{!TransactionRepository S} `{!TransactionCounter C}.

Definition W : Type := World S C.
Definition T (A : Type) : Type := M W TransactionError.t A.

Definition tick (w : W) : W :=
  let 'Build_World t r c j s d l e n := w in Build_World (Datatypes.S t) r c j s d l e n.

Definition set_repo (r : S) (w : W) : W :=
  let 'Build_World t _ c j s d l e n := w in Build_World t r c j s d l e n.

Definition set_ctr (c : C) (w : W) : W :=
  let 'Build_World t r _ j s d l e n := w in Build_World t r c j s d l e n.

Definition push_job (job : QueuedJob) (w : W) : W :=
  let 'Build_World t r c j s d l e n := w in Build_World t r c (j ++ [job]) s d l e n.

Definition push_sent (raw : list Byte.byte) (w : W) : W :=
  let 'Build_World t r c j s d l e n := w in Build_World t r c j (s ++ [raw]) d l e n.

Definition set_debounce (m : gmap string Z) (w : W) : W :=
  let 'Build_World t r c j s _ l e n := w in Build_World t r c j s m l e n.

Definition set_lanes (m : gmap string string) (w : W) : W :=
  let 'Build_World t r c j s d _ e n := w in Build_World t r c j s d m e n.

Definition push_envelope (envelope : TransactionEnvelope) (w : W) : W :=
  let 'Build_World t r c j s d l e n := w in Build_World t r c j s d l (e ++ [envelope]) n.

Definition push_solana (transaction : SolanaTransaction) (w : W) : W :=
  let 'Build_World t r c j s d l e n := w in Build_World t r c j s d l e (n ++ [transaction]).

(** A read of the environment: answers from the current tick and advances it. *)
Definition ask {E A} (f : nat -> A) : M W E A := fun w => (Ok (f (w_tick w)), tick w).

(** A fallible call to the environment. *)
Definition call {E A} (f : nat -> result E A) : M W E A := fun w => (f (w_tick w), tick w).

Definition now {E} : M W E Z := ask env_now.

(** A repository call, as the [?] operator converts its error. *)
Definition repo_call {A} (c : M S RepositoryError.t A) : M W RepositoryError.t A := fun w =>
  let '(r, s') := c (w_repo w) in (r, set_repo s' w).

Definition repo {A} (c : M S RepositoryError.t A) : T A :=
  map_errM transaction_error_of_repository (repo_call c).

(** [partial_update], which reads the clock when the new status is final. *)
Definition partial_update_r (id : string) (u : TransactionUpdateRequest)
  : M W RepositoryError.t TransactionRepoModel :=
  let* t := now in repo_call (repo_partial_update t id u).

Definition partial_update (id : string) (u : TransactionUpdateRequest)
  : T TransactionRepoModel :=
  map_errM transaction_error_of_repository (partial_update_r id u).

Definition counter_call {A} (c : M C RepositoryError.t A) : M W RepositoryError.t A := fun w =>
  let '(r, c') := c (w_ctr w) in (r, set_ctr c' w).

(** Enqueue a job, or fail without enqueuing it. *)
Definition produce (job : QueuedJob) : M W JobProducerError.t unit := fun w =>
  match queue_fault (w_tick w) with
  | Some e => (Err e, tick w)
  | None => (Ok tt, push_job job (tick w))
  end.

(** [send_raw_transaction]: the bytes leave the process whatever the node answers. *)
Definition broadcast (raw : list Byte.byte) : M W ProviderError.t string := fun w =>
  (rpc_send_raw_transaction (w_tick w) raw, push_sent raw (tick w)).
End Ops.
Arguments W S C : clear implicits.
Arguments T S C A : clear implicits.
