(* ===== verification/Sample.v ===== *)
(** * A sample world

    Concrete values at which the theorems are instantiated, next to the clock of [Model]: a
    network, a relayer, transactions, and an environment that answers every call with a
    chosen value.  The repository is the in-memory one with the
    iteration order of the map itself, the counters are the in-memory ones. *)

From S2P Require Import Prelude Decimal Errors Model Config Repository Counter Jobs Effects.
Open Scope Z_scope.

Definition sample_network_config : EvmNetworkConfig :=
  {| enc_common :=
       {| ncc_network := "sepolia"; ncc_from := None; ncc_rpc_urls := None;
          ncc_explorer_urls := None; ncc_average_blocktime_ms := Some 12000;
          ncc_is_testnet := Some true; ncc_tags := None |};
     enc_chain_id := Some 11155111;
     enc_required_confirmations := Some 6;
     enc_status_check := None;
     enc_features := Some ["eip1559"%string];
     enc_symbol := Some "ETH"%string;
     enc_gas_price_cache := None |}.

Definition sample_network_model : NetworkRepoModel :=
  {| nrm_id := "evm:sepolia"; nrm_name := "sepolia"; nrm_network_type := NtEvm;
     nrm_config := EvmConfig sample_network_config |}.

Definition sample_relayer : RelayerRepoModel :=
  {| rel_id := "relayer"; rel_name := "relayer"; rel_network := "sepolia"; rel_paused := false;
     rel_network_type := NtEvm; rel_signer_id := "signer";
     rel_policies := EvmPolicy evm_policy_default; rel_address := "0xa1";
     rel_notification_id := None; rel_system_disabled := false; rel_disabled_reason := None;
     rel_custom_rpc_urls := None |}.

Definition sample_data (nonce : option Z) (hash : option string)
    (raw : option (list Byte.byte)) : EvmTransactionData :=
  {| evm_gas_price := Some 20; evm_gas_limit := Some 21000; evm_nonce := nonce;
     evm_value := 1000; evm_data := None; evm_from := "0xa1"; evm_to := Some "0xb2"%string;
     evm_chain_id := 11155111; evm_hash := hash; evm_signature := None; evm_speed := None;
     evm_max_fee_per_gas := None; evm_max_priority_fee_per_gas := None; evm_raw := raw |}.

(** Created at 1 second, sent at 2 seconds. *)
Definition sample_tx (id : string) (status : TransactionStatus) (hashes : list string)
    (d : EvmTransactionData) : TransactionRepoModel :=
  {| tx_id := id; tx_relayer_id := "relayer"; tx_status := status; tx_status_reason := None;
     tx_created_at := "1000000000"; tx_sent_at := Some "2000000000"%string;
     tx_confirmed_at := None; tx_valid_until := None; tx_delete_at := None;
     tx_network_data := EvmData d; tx_priced_at := None; tx_hashes := hashes;
     tx_network_type := NtEvm; tx_noop_count := None; tx_is_canceled := None;
     tx_metadata := None |}.

Definition sample_signature : SignTransactionResponseEvm :=
  {| sr_hash := "0xf0"; sr_raw := [Byte.x02];
     sr_signature := {| sig_r := "r"; sig_s := "s"; sig_v := 27; sig_sig := "sig" |} |}.

(** Every clock reading is [now]; the node knows [receipts], the block [block], the
    transaction count [count] and answers a broadcast with [send]. *)
Definition sample_env (now : Z)
    (receipts : string -> result ProviderError.t (option Receipt)) (block count : Z)
    (send : result ProviderError.t string) : Env :=
  {| env_now := fun _ => now;
     env_instant := fun _ => now;
     rpc_send_raw_transaction := fun _ _ => send;
     rpc_estimate_gas := fun _ _ => Ok 21000;
     rpc_block_gas_limit := fun _ => Ok 30000000;
     rpc_get_balance := fun _ _ => Ok (10 ^ 18);
     rpc_get_transaction_receipt := fun _ => receipts;
     rpc_get_block_number := fun _ => Ok block;
     rpc_get_transaction_count := fun _ _ => Ok count;
     rpc_debug_trace_transaction := fun _ _ => Err ProviderError.Timeout;
     rpc_get_call_revert_data := fun _ _ _ => Err ProviderError.Timeout;
     signer_sign := fun _ _ => Ok sample_signature;
     networks_by_chain_id := fun _ _ => Ok (Some sample_network_model);
     networks_by_name := fun _ _ => Ok (Some sample_network_model);
     queue_fault := fun _ => None;
     env_uuid := fun t => print_dec (Z.of_nat t);
     parse_address_error := fun _ => None;
     parse_bytes_error := fun _ => None |}.

Definition sample_prices : PriceParams :=
  {| pp_gas_price := Some 22; pp_max_fee_per_gas := None; pp_max_priority_fee_per_gas := None;
     pp_is_min_bumped := Some true; pp_extra_fee := None; pp_total_cost := 463000 |}.

Definition sample_calculator : PriceCalculator :=
  {| get_transaction_price_params := fun _ _ _ => Ok sample_prices;
     calculate_bumped_gas_price := fun _ _ _ _ => Ok sample_prices |}.

(** A world holding the transactions [txs] under their ids. *)
Definition sample_world (txs : list TransactionRepoModel) (ctr : gmap CounterKey Z)
  : World InMemory.state (gmap CounterKey Z) :=
  Build_World 0%nat
    (InMemory.set_store (list_to_map ((fun t => (tx_id t, t)) <$> txs)) InMemory.new)
    ctr [] [] ∅ ∅ [] [].
