(* ===== verification/RedisSample.v ===== *)
(** * A sample server

    Concrete values for the parameters of the Redis repository: Lua lists the fields of a table
    in reverse, bytes are kept as they are, sets are listed in the order of the map.  Used to
    instantiate theorems. *)

From S2P Require Import Prelude Decimal Errors Json Model TransactionJson TransactionTypes.
From S2P Require Import Repository RedisBase RedisTransaction RedisDocuments RedisRefinement.
From S2P Require Import Counter Jobs Effects Sample.
Open Scope Z_scope.

Definition sample_float : JsonFloat := {| float_integral := fun _ => None |}.

#[program] Definition sample_lua : LuaJson := {|
  lua_order := fun fs => rev fs;
  lua_number := fun s => s;
|}.
Next Obligation. intros fs. symmetry. apply Permutation_rev. Qed.
Next Obligation. done. Qed.

#[program] Definition sample_serde : ForeignSerde := {|
  hex_encode := String.string_of_list_byte;
  hex_decode := fun s => Some (String.list_byte_of_string s);
  u256_string := print_dec;
  u256_of_string := parse_unsigned u256_max;
|}.
Next Obligation. intros l. simpl. by rewrite String.list_byte_of_string_of_list_byte. Qed.
Next Obligation.
  intros n Hn. apply parse_print_unsigned; [|lia].
  split; [lia|]. eapply Z.le_lt_trans; [apply Hn|by vm_compute].
Qed.
Next Obligation. intros s n. apply parse_unsigned_bounds. Qed.

Definition sample_text : JsonText :=
  {| serde_message := fun _ => "invalid type"%string; json_length := fun _ => 0 |}.

#[program] Definition sample_sets : SetOrder := {| SMEMBERS := fun X => elements X |}.
Next Obligation. done. Qed.

#[program] Definition sample_entries : HashEntries Z := {| hash_entries := fun m => map_to_list m |}.
Next Obligation. done. Qed.

Definition lost_reply : RedisError :=
  {| err_kind := ErrorKind.OtherKind; err_display := "broken pipe" |}.

(** A server with nothing stored, and a schedule of failures. *)
Definition sample_server (evs : list event) : Redis.state :=
  {| Redis.primary := empty_keyspace; Redis.replica := None; Redis.events := evs |}.

Lemma sample_storable `{JsonFloat} id status hashes nonce hash raw :
  let _ := sample_lua in let _ := sample_serde in
  all_opt (fun n => 0 <= n < 10 ^ 14) nonce ->
  storable (sample_tx id status hashes (sample_data nonce hash raw)).
Proof.
  intros ?? Hn. split; [|done]. apply evm_safe_data.
  unfold evm_storable, evm_data_ok, in_range_opt, all_opt in *. simpl.
  split_and!; intros; simplify_eq; try done; try (by apply Hn).
  specialize (Hn n eq_refl). unfold u64_max. lia.
Qed.

Lemma sample_holds `{JsonFloat} evs :
  let _ := sample_lua in let _ := sample_serde in holds ∅ 0 ∅ (sample_server evs).
Proof.
  intros ??. split; [done|]. split; [by intros id|]. split; [done|]. split; [|done].
  intros rid st id [x Hx]. by vm_compute in Hx.
Qed.

(** A server that holds one transaction. *)
Definition stored_server `{JsonFloat} (t : TransactionRepoModel) (evs : list event)
  : Redis.state :=
  let _ := sample_serde in
  {| Redis.primary :=
       pipeline [SET_body (tx_relayer_id t) (tx_id t) (tx_json t);
                 SET_reverse (tx_id t) (tx_relayer_id t)] empty_keyspace;
     Redis.replica := None; Redis.events := evs |}.

Lemma stored_holds `{JsonFloat} t evs :
  let _ := sample_lua in let _ := sample_serde in
  storable t -> tx_metadata t = None ->
  holds {[tx_id t]} 0 {[tx_id t := t]} (stored_server t evs).
Proof.
  intros ?? Hst Hm. split; [done|].
  eapply (encodes_insert _ 0 empty_keyspace _ ∅ (tx_id t) t (tx_fields t)); try done.
  - eapply encodes_grow; [|apply (sample_holds [])]. set_solver.
  - rewrite Hm. done.
  - exists JNull. split; [by rewrite Hm|]. unfold tx_fields. by rewrite Hm.
  - set_solver.
  - split; [done|]. intros rid st id [x Hx]. by vm_compute in Hx.
Qed.
