(* ===== verification/RedisRuns.v ===== *)
(** * Runs of the Redis repository

    The operations of the repository as a sequence of calls, each against a server that may
    refuse connections, refuse commands or lose replies.  Such a run is simulated by the abstract
    store: each call has one of the effects [effect] allows it, so documents never become
    unreadable, a finalized transaction keeps its status, and a repeated script counts at most
    three times. *)

From S2P Require Import Prelude Decimal Errors Json Model TransactionJson Repository RedisBase.
From S2P Require Import RedisTransaction RedisDocuments RedisRefinement Counter Jobs Effects.
From S2P Require Import Sample RedisSample.
Open Scope Z_scope.

Module Runs.
Section Runs.
Context `{Chrono} `{ServerConfig} `{JsonFloat} `{ForeignSerde} `{LuaJson} `{JsonText}
  `{SetOrder} `{HashEntries Z} (key_prefix : string).

(** The calls.  [update] is left out: the service never replaces a whole transaction. *)
Inductive op : Type :=
| OpCreate (t : TransactionRepoModel)
| OpPartialUpdate (now : Z) (id : string) (u : TransactionUpdateRequest)
| OpIncrementFailures (id : string)
| OpResetFailures (id : string)
| OpInsufficientFeeRetry (id sent_at : string)
| OpTryAgainLaterRetry (id sent_at : string)
| OpDelete (id : string)
| OpDeleteRequests (requests : list TransactionDeleteRequest)
| OpDeleteIds (ids : list string)
| OpDropAll
| OpGet (id : string)
| OpGetOnPrimary (id : string)
| OpFindByNonce (relayer_id : string) (nonce : Z)
| OpNonceOccupancy (relayer_id : string) (from to : Z)
| OpFindByStatus (relayer_id : string) (statuses : list TransactionStatus)
| OpFindByStatusPaginated (relayer_id : string) (statuses : list TransactionStatus)
    (q : PaginationQuery) (oldest_first exclude_canceled : bool)
| OpFindByRelayer (relayer_id : string) (q : PaginationQuery)
| OpCountByStatus (relayer_id : string) (statuses : list TransactionStatus)
| OpListAll
| OpListPaginated (q : PaginationQuery)
| OpCount
| OpHasEntries
| OpReconcile (now : Z) (relayer_id : string)
| OpReserve (now : Z) (relayer_id key : string) (record : IdempotencyRecord) (ttl : Z)
| OpGetReservation (now : Z) (relayer_id key : string)
| OpRelease (now : Z) (relayer_id key id : string).

(** The caller goes on whether the call fails or not. *)
Definition ignore {A} (c : Repo A) : Repo unit := do* try_ c in retM tt.

Definition run (o : op) : Repo unit :=
  match o with
  | OpCreate t => ignore (RedisTx.create t)
  | OpPartialUpdate now id u => ignore (RedisTx.partial_update now id u)
  | OpIncrementFailures id => ignore (RedisTx.increment_status_check_failures id)
  | OpResetFailures id => ignore (RedisTx.reset_status_check_consecutive_failures id)
  | OpInsufficientFeeRetry id at_ => ignore (RedisTx.record_stellar_insufficient_fee_retry id at_)
  | OpTryAgainLaterRetry id at_ => ignore (RedisTx.record_stellar_try_again_later_retry id at_)
  | OpDelete id => ignore (RedisTx.delete_by_id id)
  | OpDeleteRequests reqs => ignore (RedisTx.delete_by_requests reqs)
  | OpDeleteIds ids => ignore (RedisTx.delete_by_ids ids)
  | OpDropAll => ignore RedisTx.drop_all_entries
  | OpGet id => ignore (RedisTx.get_by_id id)
  | OpGetOnPrimary id => ignore (RedisTx.get_by_id_on_primary id)
  | OpFindByNonce rid n => ignore (RedisTx.find_by_nonce rid n)
  | OpNonceOccupancy rid from to => ignore (RedisTx.get_nonce_occupancy rid from to)
  | OpFindByStatus rid sts => ignore (RedisTx.find_by_status rid sts)
  | OpFindByStatusPaginated rid sts q oldest exclude =>
      ignore (RedisTx.find_by_status_paginated_filtered rid sts q oldest exclude)
  | OpFindByRelayer rid q => ignore (RedisTx.find_by_relayer_id rid q)
  | OpCountByStatus rid sts => ignore (RedisTx.count_by_status rid sts)
  | OpListAll => ignore RedisTx.list_all
  | OpListPaginated q => ignore (RedisTx.list_paginated q)
  | OpCount => ignore RedisTx.count
  | OpHasEntries => ignore RedisTx.has_entries
  | OpReconcile now rid => ignore (RedisTx.reconcile_stale_status_indexes now rid)
  | OpReserve now rid key r ttl => ignore (RedisTx.reserve_idempotency_key now rid key r ttl)
  | OpGetReservation now rid key => ignore (RedisTx.get_idempotency_record key_prefix now rid key)
  | OpRelease now rid key id =>
      ignore (RedisTx.release_idempotency_key_if_unused now rid key id)
  end.

Definition run_all (ops : list op) (s : Redis.state) : Redis.state :=
  fold_left (fun s o => snd (run o s)) ops s.

(** ** The abstract store *)

(** Up to three executions of a counter script. *)
Definition counted (f : TransactionMetadata -> TransactionMetadata)
    (g : TransactionRepoModel -> TransactionRepoModel) (id : string) (v v' : store) : Prop :=
  exists i, (i <= 3)%nat /\ v' = Nat.iter i (alter (count_edit f g) id) v.

(** What a call may do to the store. *)
Definition effect (o : op) (v v' : store) : Prop :=
  match o with
  | OpCreate t => v' = v \/ (v !! tx_id t = None /\ v' = <[tx_id t := t]> v)
  | OpPartialUpdate now id u => v' = v \/ v' = alter (guarded now u) id v
  | OpIncrementFailures id => counted bump_failures (fun t => t) id v v'
  | OpResetFailures id => counted clear_failures (fun t => t) id v v'
  | OpInsufficientFeeRetry id at_ => counted bump_fee_retries (set_tx_sent_at (Some at_)) id v v'
  | OpTryAgainLaterRetry id at_ => counted bump_later_retries (set_tx_sent_at (Some at_)) id v v'
  | OpDelete id => v' = v \/ v' = without {[id]} v
  | OpDeleteRequests reqs => v' = v \/ v' = without (list_to_set (dr_id <$> reqs)) v
  | OpDeleteIds ids => v' = v \/ v' = without (list_to_set ids) v
  | OpDropAll => exists X, v' = without X v
  | _ => v' = v
  end.

Inductive effects : list op -> store -> store -> Prop :=
| effects_nil v : effects [] v v
| effects_cons o ops v v1 v' : effect o v v1 -> effects ops v1 v' -> effects (o :: ops) v v'.

(** The id a call brings into use. *)
Definition used (o : op) : gset string :=
  match o with OpCreate t => {[tx_id t]} | _ => ∅ end.

(** The data the calls bring survives the scripts, and a new transaction has an id of its own;
    [U] are the ids in use. *)
Definition op_ok (U : gset string) (B : Z) (o : op) : Prop :=
  match o with
  | OpCreate t => (tx_id t ∉ U) /\ storable t /\
                  counters_le B (default metadata_default (tx_metadata t))
  | OpPartialUpdate _ _ u => update_ok B u
  | _ => True
  end.

Fixpoint ops_ok (U : gset string) (B : Z) (ops : list op) : Prop :=
  match ops with
  | [] => True
  | o :: ops' => op_ok U B o /\ ops_ok (used o ∪ U) B ops'
  end.

Definition all_used (ops : list op) : gset string := ⋃ (used <$> ops).

Lemma wp_ignore {A} (c : Repo A) (Q : Redis.state -> Prop) s :
  wp c (fun _ s' => Q s') s -> Q (snd (ignore c s)).
Proof. unfold wp, ignore, bindM, try_. by destruct (c s). Qed.

(** *** Calls that leave the transactions alone *)

(** The calls that read, and those that touch idempotency keys only. *)
Definition leaves_store (o : op) : bool :=
  match o with
  | OpGet _ | OpGetOnPrimary _ | OpFindByNonce _ _ | OpNonceOccupancy _ _ _ | OpFindByStatus _ _
  | OpFindByStatusPaginated _ _ _ _ _ | OpFindByRelayer _ _ | OpCountByStatus _ _ | OpListAll
  | OpListPaginated _ | OpCount | OpHasEntries | OpReserve _ _ _ _ _ | OpGetReservation _ _ _
  | OpRelease _ _ _ _ => true
  | _ => false
  end.

Definition idem_only {A} (f : keyspace -> result RedisError A * keyspace) : Prop :=
  forall k, exists g, snd (f k) = set_idem g k.

(** A relation that connections, queries, the migration of a legacy index and writes of
    idempotency keys respect holds across each of these calls. *)
Section Reads.
Context (R : Redis.state -> Redis.state -> Prop) `{!PreOrder R}
  (Hconn : forall context, preserves R (get_connection context))
  (Hquery : forall A p (f : keyspace -> A) context, preserves R (query p f context))
  (Hensure : forall rid st, preserves R (RedisTx.ensure_status_sorted_set rid st))
  (Hidem : forall A (f : keyspace -> result RedisError A * keyspace),
     idem_only f -> preserves R (invoke f)).

Hint Resolve Hconn Hquery Hensure : preserves_db.

Lemma reads_get_by_id_on p id ctx : preserves R (RedisTx.get_by_id_on p id ctx).
Proof. unfold RedisTx.get_by_id_on. preserve. Qed.

Lemma reads_get_by_id id : preserves R (RedisTx.get_by_id id).
Proof. apply reads_get_by_id_on. Qed.

Lemma reads_get_transactions_by_ids_on p ids :
  preserves R (RedisTx.get_transactions_by_ids_on p ids).
Proof. unfold RedisTx.get_transactions_by_ids_on. preserve. Qed.

Lemma reads_get_transactions_by_ids ids : preserves R (RedisTx.get_transactions_by_ids ids).
Proof. apply reads_get_transactions_by_ids_on. Qed.

Lemma reads_ensure_all rid sts : preserves R (RedisTx.ensure_all rid sts).
Proof. unfold RedisTx.ensure_all. preserve. Qed.
Hint Resolve reads_get_by_id_on reads_get_by_id reads_get_transactions_by_ids_on
  reads_get_transactions_by_ids reads_ensure_all : preserves_db.

Lemma idem_only_reserve now rid key r ttl :
  idem_only (fun k => match RedisTx.live_record now rid key k with
    | Some _ => (Ok false, k)
    | None => (Ok true, set_idem <[(rid, key) := (RedisTx.idempotency_json r,
                                                  now + ttl * 10 ^ 9)]> k)
    end : result RedisError bool * keyspace).
Proof.
  intros k. destruct (RedisTx.live_record now rid key k); [|by eexists].
  exists (fun m => m). by destruct k.
Qed.

Lemma idem_only_release now rid key id : idem_only (RedisTx.release_script now rid key id).
Proof.
  intros k. unfold RedisTx.release_script.
  repeat (case_match; try (by eexists); try (exists (fun m => m); by destruct k)).
Qed.
Hint Resolve idem_only_reserve idem_only_release : core.

Lemma reads_preserve o : leaves_store o = true -> preserves R (run o).
Proof.
  intros Ho. destruct o; try done; cbn [run]; unfold ignore, RedisTx.get_by_id_on_primary,
    RedisTx.find_by_nonce, RedisTx.get_nonce_occupancy, RedisTx.find_by_status,
    RedisTx.find_by_status_paginated_filtered, RedisTx.find_by_status_paginated,
    RedisTx.collect_scored, RedisTx.find_by_relayer_id, RedisTx.count_by_status,
    RedisTx.list_all, RedisTx.list_paginated, RedisTx.collect_created_ids, RedisTx.count,
    RedisTx.has_entries, RedisTx.reserve_idempotency_key, RedisTx.get_idempotency_record,
    RedisTx.release_idempotency_key_if_unused; preserve; apply Hidem; auto.
Qed.
End Reads.

(** ** Simulation *)

Lemma count_edit_run U id script f g op_name B v s :
  implements U B id script (count_edit f g) (fun j _ t' => tx_of_json j = Some t') ->
  holds U B v s -> B + 3 <= u32_max ->
  exists v', counted f g id v v' /\
    holds (∅ ∪ U) (B + 3) v' (snd (ignore (RedisTx.run_atomic_script script id op_name) s)).
Proof.
  intros Himp Hs HB. rewrite (left_id_L ∅ (∪) U).
  apply (wp_ignore _ (fun s' => exists v', counted f g id v v' /\ holds U (B + 3) v' s')).
  eapply wp_mono; [|by apply (run_atomic_script_spec U id script (count_edit f g) op_name B v)].
  intros r s' (i & Hi & Hh & _). eexists. split; [by exists i|done].
Qed.

Lemma same_run U o B v s :
  preserves (stays U B v) (run o) -> holds U B v s ->
  exists v', v' = v /\ holds (∅ ∪ U) (B + 3) v' (snd (run o s)).
Proof.
  intros Ho Hs. exists v. split; [done|]. rewrite (left_id_L ∅ (∪) U).
  eapply holds_mono; [|by apply Ho]. lia.
Qed.

Lemma stays_leaves U B v o : leaves_store o = true -> preserves (stays U B v) (run o).
Proof.
  apply reads_preserve; [exact _|apply stays_get_connection|intros; apply stays_query|
    apply stays_ensure_status_sorted_set|].
  intros A f Hf. apply stays_invoke. intros k. by destruct (Hf k) as [g ->].
Qed.

Lemma stays_reconcile U B v now rid : preserves (stays U B v) (run (OpReconcile now rid)).
Proof.
  cbn [run]. unfold ignore.
  pose proof (stays_reconcile_stale_status_indexes U B v now rid). preserve.
Qed.

Lemma run_simulates U o B v s :
  holds U B v s -> op_ok U B o -> B + 3 <= u32_max ->
  exists v', effect o v v' /\ holds (used o ∪ U) (B + 3) v' (snd (run o s)).
Proof.
  intros Hs Hok HB. assert (forall v' s', holds U B v' s' -> holds (∅ ∪ U) (B + 3) v' s') as Hup.
  { intros v' s' Hh. rewrite (left_id_L ∅ (∪) U). eapply holds_mono; [|done]. lia. }
  destruct o; cbn [effect used];
    try (by apply same_run; [first [by apply stays_leaves|apply stays_reconcile]|]); cbn [run].
  - apply (wp_ignore _ (fun s' => exists v', (v' = v \/ (v !! tx_id t = None /\
      v' = <[tx_id t := t]> v)) /\ holds ({[tx_id t]} ∪ U) (B + 3) v' s')).
    destruct Hok as (HU & Hst & Hc).
    eapply wp_mono; [|apply (create_spec U t B v); [done|done|lia|done|done]].
    intros r s' [[Hh _]|(Hn & Hh & _)]; eexists; (split; [by eauto|]);
      (eapply holds_mono; [|first [done|eapply holds_grow; [|done]; set_solver]]); lia.
  - apply (wp_ignore _ (fun s' => exists v', (v' = v \/ v' = alter (guarded now u) id v) /\
      holds (∅ ∪ U) (B + 3) v' s')). rewrite (left_id_L ∅ (∪) U) in *.
    eapply wp_mono; [|by apply (partial_update_spec U now id u B v)].
    intros r s' [[Hh _]|(t & Ht & Hh & _)]; [by eauto|].
    rewrite <- (alter_Some _ _ _ t) in Hh by done. eauto.
  - apply count_edit_run; [apply increment_implements|done..].
  - apply count_edit_run; [apply reset_implements|done..].
  - apply count_edit_run; [apply fee_retry_implements|done..].
  - apply count_edit_run; [apply later_retry_implements|done..].
  - apply (wp_ignore _ (fun s' => exists v', (v' = v \/ v' = without {[id]} v) /\
      holds (∅ ∪ U) (B + 3) v' s')).
    eapply wp_mono; [|by apply (delete_by_id_spec U id B v)].
    intros r s' [[Hh _]|[_ Hh]]; eexists; (split; [|by apply Hup]); auto.
  - apply (wp_ignore _ (fun s' => exists v', (v' = v \/
      v' = without (list_to_set (dr_id <$> requests)) v) /\ holds (∅ ∪ U) (B + 3) v' s')).
    eapply wp_mono; [|by apply (delete_by_requests_spec U requests B v)].
    intros r s' [Hh|Hh]; eexists; (split; [|by apply Hup]); auto.
  - apply (wp_ignore _ (fun s' => exists v', (v' = v \/ v' = without (list_to_set ids) v) /\
      holds (∅ ∪ U) (B + 3) v' s')).
    eapply wp_mono; [|by apply (delete_by_ids_spec U ids B v)].
    intros r s' [Hh|Hh]; eexists; (split; [|by apply Hup]); auto.
  - apply (wp_ignore _ (fun s' => exists v', (exists X, v' = without X v) /\
      holds (∅ ∪ U) (B + 3) v' s')).
    eapply wp_mono; [|by apply (drop_all_entries_spec U B v)].
    intros r s' [X Hh]. eexists. split; [by eexists|by apply Hup].
Qed.

Lemma op_ok_mono U B B' o : B <= B' -> op_ok U B o -> op_ok U B' o.
Proof.
  intros HB. destruct o; try done; simpl.
  - intros (HU & Hs & Hc). do 2 (split; [done|]). by eapply counters_le_mono.
  - intros (Hd & Hn & Hm). split; [done|]. split; [done|]. intros m Em.
    eapply counters_le_mono; [done|by apply Hm].
Qed.

Lemma ops_ok_mono U B B' ops : B <= B' -> ops_ok U B ops -> ops_ok U B' ops.
Proof.
  intros HB. revert U. induction ops as [|o ops IH]; intros U; [done|]. simpl.
  intros [Ho Hops]. split; [by eapply op_ok_mono|by apply IH].
Qed.

Lemma runs_simulate U ops B v s :
  holds U B v s -> ops_ok U B ops -> B + 3 * Z.of_nat (length ops) <= u32_max ->
  exists v', effects ops v v' /\
    holds (all_used ops ∪ U) (B + 3 * Z.of_nat (length ops)) v' (run_all ops s).
Proof.
  revert U B v s. induction ops as [|o ops IH]; intros U B v s Hs Hok HB.
  { exists v. split; [constructor|]. simpl. rewrite Z.add_0_r.
    unfold all_used. simpl. by rewrite (left_id_L ∅ (∪) U). }
  destruct Hok as [Ho Hops]. simpl length in HB.
  destruct (run_simulates U o B v s Hs Ho) as (v1 & He & Hs1); [lia|].
  destruct (IH (used o ∪ U) (B + 3) v1 (snd (run o s)) Hs1) as (v' & Hes & Hs'); [|lia|].
  { eapply ops_ok_mono; [|done]. lia. }
  exists v'. split; [by econstructor|]. simpl length.
  replace (B + 3 * Z.of_nat (S (length ops))) with (B + 3 + 3 * Z.of_nat (length ops)) by lia.
  replace (all_used (o :: ops) ∪ U) with (all_used ops ∪ (used o ∪ U)); [done|].
  unfold all_used. simpl. by rewrite (assoc_L (∪)), (comm_L (∪) (used o)).
Qed.

(** The server once its failures are over. *)
Definition healed (s : Redis.state) : Redis.state :=
  {| Redis.primary := Redis.primary s; Redis.replica := Redis.replica s; Redis.events := [] |}.

Lemma get_by_id_healed U B v s id t :
  holds U B v s -> id <> ""%string -> v !! id = Some t ->
  RedisTx.get_by_id id (healed s) = (Ok t, healed s).
Proof.
  intros [Hrep He] Hid Ht. unfold RedisTx.get_by_id, RedisTx.get_by_id_on.
  rewrite (proj2 (String.eqb_neq _ _) Hid).
  pose proof (encodes_slot U id He) as Hi. rewrite Ht in Hi.
  pose proof Hi as (_ & _ & _ & Hr & fs & Hb & _).
  unfold bindM, get_connection, query, next_event, keyspace_of. simpl. rewrite Hrep, Hr. simpl.
  rewrite ?Hrep, Hb.
  unfold RedisTx.deserialize_tx, deserialize_entity, liftM. by rewrite (slot_decodes _ _ _ _ _ Hi Hb).
Qed.

(** C9. Any sequence of calls to a Redis repository without a replica, with any connections
    refused, commands lost before or after their execution and scripts sent again, is simulated
    by the abstract store: the keyspace it ends in holds the transactions of a store that the
    calls' allowed effects lead to.  Whatever a read returns is the transaction of that store,
    and once the failures are over every transaction of it is read back.  A partial update is
    applied whole, once, or not at all; a counter script counts at most three times; nothing else
    changes.  And no status index ever lists a stored transaction under a status it does not
    have.  The calls create transactions under new ids and write only data that the scripts can
    restore (numbers that Lua keeps, and no two empty arrays under the same key), and no failure
    counter comes near the end of its range; the whole-document [update] is not among them. *)
Theorem redis_simulates U ops B v s :
  holds U B v s -> ops_ok U B ops -> B + 3 * Z.of_nat (length ops) <= u32_max ->
  exists v', effects ops v v' /\
    holds (all_used ops ∪ U) (B + 3 * Z.of_nat (length ops)) v' (run_all ops s) /\
    (forall id, wp (RedisTx.get_by_id id) (fun r _ => forall t, r = Ok t -> v' !! id = Some t)
                   (run_all ops s)) /\
    (forall id t, id <> ""%string -> v' !! id = Some t ->
       fst (RedisTx.get_by_id id (healed (run_all ops s))) = Ok t) /\
    (forall rid st id t, listed (Redis.primary (run_all ops s)) rid st id -> v' !! id = Some t ->
       tx_relayer_id t = rid /\ tx_status t = st).
Proof.
  intros Hs Hok HB. destruct (runs_simulate U ops B v s Hs Hok HB) as (v' & He & Hs').
  exists v'. do 2 (split; [done|]). split; [|split].
  - intros id. eapply wp_mono; [|by eapply get_by_id_on_spec]. by intros r s' [_ Hr].
  - intros id t Hid Ht. by erewrite get_by_id_healed.
  - intros rid st id t Hl Ht. destruct Hs' as (_ & _ & _ & Hv & _). by apply (Hv _ _ _ Hl).
Qed.

(** ** Finalized transactions *)

(** A transaction whose status was [st] has it still, or is gone. *)
Definition frozen (st : TransactionStatus) (id : string) (v : store) : Prop :=
  forall t, v !! id = Some t -> tx_status t = st.

Definition creates (id : string) (o : op) : Prop :=
  match o with OpCreate t => tx_id t = id | _ => False end.

(** An id in use is not created again. *)
Lemma ops_ok_not_created U B id ops :
  id ∈ U -> ops_ok U B ops -> Forall (fun o => ~ creates id o) ops.
Proof.
  revert U. induction ops as [|o ops IH]; intros U HU Hok; constructor.
  - destruct o; simpl; try (by intros []). destruct Hok as [[Hn _] _]. by intros <-.
  - eapply (IH (used o ∪ U)); [set_solver|]. apply Hok.
Qed.

Lemma frozen_without st id X v : frozen st id v -> frozen st id (without X v).
Proof. intros Hv t Ht. apply map_lookup_filter_Some in Ht as [Ht _]. by apply Hv. Qed.

Lemma frozen_alter st id F id' v :
  (forall t, tx_status t = st -> tx_status (F t) = st) ->
  frozen st id v -> frozen st id (alter F id' v).
Proof.
  intros HF Hv t Ht. destruct (decide (id = id')) as [<-|Hne].
  - rewrite lookup_alter_eq in Ht. destruct (v !! id) eqn:E; simplify_eq/=. by apply HF, Hv.
  - rewrite lookup_alter_ne in Ht by done. by apply Hv.
Qed.

Lemma frozen_counted st id f g id' v v' :
  (forall t, tx_status (g t) = tx_status t) ->
  counted f g id' v v' -> frozen st id v -> frozen st id v'.
Proof.
  intros Hg (i & _ & ->) Hv. induction i as [|i IH]; [done|]. simpl. apply frozen_alter; [|done].
  intros t Ht. unfold count_edit. destruct (is_final_state _); [done|].
  transitivity (tx_status (g t)); [by destruct (g t)|by rewrite Hg].
Qed.

Lemma frozen_effect st id o v v' :
  is_final_state st = true -> ~ creates id o -> effect o v v' -> frozen st id v -> frozen st id v'.
Proof.
  intros Hst Hc He Hv. destruct o; simpl in He; try (by subst).
  - destruct He as [-> | [_ ->]]; [done|]. intros t' Ht. simpl in Hc.
    rewrite lookup_insert_ne in Ht by done. by apply Hv.
  - destruct He as [-> | ->]; [done|]. apply frozen_alter; [|done]. intros t Ht.
    unfold guarded. rewrite Ht, Hst. case_bool_decide as Hu; [done|]. simpl.
    destruct (upd_status u) eqn:E; [by destruct Hu|done].
  - by eapply frozen_counted.
  - by eapply frozen_counted.
  - by eapply frozen_counted; [|done|]; [by intros []|].
  - by eapply frozen_counted; [|done|]; [by intros []|].
  - destruct He as [-> | ->]; [done|by apply frozen_without].
  - destruct He as [-> | ->]; [done|by apply frozen_without].
  - destruct He as [-> | ->]; [done|by apply frozen_without].
  - destruct He as [X ->]. by apply frozen_without.
Qed.

Lemma frozen_effects st id ops v v' :
  is_final_state st = true -> Forall (fun o => ~ creates id o) ops -> effects ops v v' ->
  frozen st id v -> frozen st id v'.
Proof.
  intros Hst Hc He. induction He as [|o ops v v1 v' Ho _ IH]; [done|].
  inversion Hc; subst. intros Hv. apply IH; [done|]. by eapply frozen_effect.
Qed.

(** A finalized transaction in Redis keeps its status for good, whatever calls follow and
    whatever fails in them: the guard is inside the script, so a status change that races with
    the finalization is refused, and the transaction is read with the same status until it is
    deleted. *)
Theorem redis_final_is_permanent U ops B v s id t :
  holds U B v s -> v !! id = Some t -> is_final_state (tx_status t) = true -> ops_ok U B ops ->
  B + 3 * Z.of_nat (length ops) <= u32_max ->
  wp (RedisTx.get_by_id id)
    (fun r _ => forall t', r = Ok t' -> tx_status t' = tx_status t) (run_all ops s).
Proof.
  intros Hs Ht Hfin Hok HB. destruct (runs_simulate U ops B v s Hs Hok HB) as (v' & He & Hs').
  assert (frozen (tx_status t) id v') as Hv'.
  { eapply frozen_effects; [done|eapply (ops_ok_not_created U)|..]; [|done|done|].
    - destruct Hs as (_ & _ & _ & _ & Hd). by eapply Hd.
    - intros t0 Ht0. congruence. }
  eapply wp_mono; [|by eapply get_by_id_on_spec]. intros r s' [_ Hr] t' E. by apply Hv', Hr.
Qed.
End Runs.

(** ** Witnesses *)

#[local] Existing Instances sample_chrono sample_config sample_float sample_lua sample_serde
  sample_text sample_sets sample_entries.

Definition demo_tx : TransactionRepoModel :=
  sample_tx "t1" Submitted ["0xf0"%string] (sample_data (Some 7) (Some "0xf0"%string) None).

Definition to_status (st : TransactionStatus) : TransactionUpdateRequest :=
  {| upd_status := Some st; upd_status_reason := None; upd_sent_at := None;
     upd_confirmed_at := None; upd_network_data := None; upd_priced_at := None;
     upd_hashes := None; upd_noop_count := None; upd_is_canceled := None;
     upd_delete_at := None; upd_metadata := None |}.

(** The reply of the confirmation is lost, and the failure counter's too. *)
Definition demo_events : list event :=
  [EvOk; EvOk; EvOk; EvOk; EvOk; EvOk; EvAfter lost_reply; EvOk; EvAfter lost_reply; EvOk; EvOk].

Definition demo_ops : list op :=
  [OpCreate demo_tx; OpIncrementFailures "t1"; OpPartialUpdate 5 "t1" (to_status Confirmed);
   OpPartialUpdate 6 "t1" (to_status Failed); OpReconcile 7 "relayer"].

Lemma to_status_ok B st : update_ok B (to_status st).
Proof. by split. Qed.

Lemma demo_ok : ops_ok ∅ 0 demo_ops.
Proof.
  split.
  - split; [done|]. split; [|by vm_compute]. apply sample_storable. by intros n [= <-].
  - repeat (split; [first [done | apply to_status_ok]|]). done.
Qed.

Lemma redis_simulates_witness :
  exists v', effects demo_ops ∅ v' /\
             holds ({["t1"%string]} ∪ ∅) (0 + 3 * 5) v'
               (run_all "oz" demo_ops (sample_server demo_events)).
Proof.
  destruct (redis_simulates "oz" ∅ demo_ops 0 ∅ (sample_server demo_events))
    as (v' & He & Hs & _).
  - apply sample_holds.
  - apply demo_ok.
  - done.
  - exists v'. split; [done|]. revert Hs. apply holds_grow. by apply (bool_decide_unpack _).
Defined.

Lemma redis_final_is_permanent_witness :
  wp (RedisTx.get_by_id "t1") (fun r _ => forall t', r = Ok t' -> tx_status t' = Failed)
    (run_all "oz" (tail demo_ops)
       (stored_server (sample_tx "t1" Failed [] (sample_data (Some 7) None None)) demo_events)).
Proof.
  set (t := sample_tx "t1" Failed [] (sample_data (Some 7) None None)).
  apply (redis_final_is_permanent "oz" {["t1"%string]} (tail demo_ops) 0 {[ "t1"%string := t ]}
           (stored_server t demo_events) "t1" t).
  - apply (stored_holds t); [|done]. apply sample_storable. by intros n [= <-].
  - apply lookup_singleton_eq.
  - done.
  - repeat (split; [first [done | apply to_status_ok]|]). done.
  - done.
Defined.
End Runs.
