(* ===== verification/RedisIndexes.v ===== *)
(** * The indexes of the Redis repository

    Without failures the repository keeps its indexes exact ([exact]): a status index lists
    exactly the transactions that have the status, the creation index exactly those of the
    relayer with their creation time, and the nonce index maps exactly the nonces in use.  Every
    operation is then the operation of the abstract store, and the finders answer from the
    indexes what a scan of the store would find. *)

From S2P Require Import Prelude Decimal Errors Json Model TransactionJson Repository RedisBase.
From S2P Require Import RedisTransaction RedisDocuments RedisRefinement.
Open Scope Z_scope.
Import RedisTx.

(** ** No failures *)

(** No failure is left in the schedule. *)
Definition calm (s : Redis.state) : Prop := Redis.events s = [].

Lemma get_connection_calm context s : calm s -> get_connection context s = (Ok tt, s).
Proof. intros Hs. unfold get_connection, next_event. by rewrite Hs. Qed.

Lemma query_calm {A} p (f : keyspace -> A) context s :
  calm s -> query p f context s = (Ok (f (keyspace_of p s)), s).
Proof. intros Hs. unfold query, next_event. by rewrite Hs. Qed.

Lemma invoke_calm {A} (f : keyspace -> result RedisError A * keyspace) s :
  calm s ->
  invoke f s = (fst (f (Redis.primary s)), set_primary (snd (f (Redis.primary s))) s).
Proof. intros Hs. unfold invoke, next_event. rewrite Hs. by destruct (f _). Qed.

Lemma exec_calm cmds context s :
  calm s -> exec cmds context s = (Ok tt, set_primary (pipeline cmds (Redis.primary s)) s).
Proof. intros Hs. unfold exec, map_errM. by rewrite invoke_calm. Qed.

Lemma calm_set_primary k s : calm s -> calm (set_primary k s).
Proof. done. Qed.

Section Calm.
Context {A : Type} (Q : result RepositoryError.t A -> Redis.state -> Prop).

Lemma wp_calm_connection context (k : unit -> Repo A) s :
  calm s -> wp (k tt) Q s -> wp (bindM (get_connection context) k) Q s.
Proof. intros Hs Hk. unfold wp, bindM. by rewrite get_connection_calm. Qed.

Lemma wp_calm_query {C} p (f : keyspace -> C) context (k : C -> Repo A) s :
  calm s -> wp (k (f (keyspace_of p s))) Q s -> wp (bindM (query p f context) k) Q s.
Proof. intros Hs Hk. unfold wp, bindM. by rewrite query_calm. Qed.

Lemma wp_calm_exec cmds context (k : unit -> Repo A) s :
  calm s -> wp (k tt) Q (set_primary (pipeline cmds (Redis.primary s)) s) ->
  wp (bindM (exec cmds context) k) Q s.
Proof. intros Hs Hk. unfold wp, bindM. by rewrite exec_calm. Qed.

Lemma wp_calm_attempts {C} n script op_name (k : C -> Repo A) s c :
  calm s -> fst (script (Redis.primary s)) = Ok c ->
  wp (k c) Q (set_primary (snd (script (Redis.primary s))) s) ->
  wp (bindM (script_attempts (S n) script op_name) k) Q s.
Proof.
  intros Hs Hc Hk. unfold wp, bindM. simpl. unfold bindM, try_.
  rewrite get_connection_calm by done. rewrite invoke_calm by done. by rewrite Hc.
Qed.
End Calm.

(** ** Exact indexes *)

Section Exact.
Context `{Chrono} `{ServerConfig} `{JsonFloat} `{ForeignSerde} `{LuaJson} `{JsonText}
  `{SetOrder}.

Definition nonce_of (t : TransactionRepoModel) : option Z := extract_nonce (tx_network_data t).

Definition status_exact (k : keyspace) (v : store) : Prop :=
  forall rid st id, listed k rid st id <->
    exists t, v !! id = Some t /\ tx_relayer_id t = rid /\ tx_status t = st.

Definition created_exact (k : keyspace) (v : store) : Prop :=
  forall rid id x, (created k !!! rid) !! id = Some x <->
    exists t, v !! id = Some t /\ tx_relayer_id t = rid /\
              x = timestamp_to_score (tx_created_at t).

Definition nonce_exact (k : keyspace) (v : store) : Prop :=
  forall rid n id, nonce_index k !! (rid, n) = Some id <->
    exists t, v !! id = Some t /\ tx_relayer_id t = rid /\ nonce_of t = Some n.

Definition exact (k : keyspace) (v : store) : Prop :=
  status_exact k v /\ created_exact k v /\ nonce_exact k v.

(** [t] may take its nonce: no other transaction of the relayer has it. *)
Definition nonce_free (v : store) (t : TransactionRepoModel) : Prop :=
  forall id' t', v !! id' = Some t' -> id' <> tx_id t -> tx_relayer_id t' = tx_relayer_id t ->
  nonce_of t <> None -> nonce_of t' <> nonce_of t.

Lemma listed_ZADD_iff k rid st id x rid' st' id' :
  listed (ZADD_sorted rid st id x k) rid' st' id' <->
  listed k rid' st' id' \/ (rid' = rid /\ st' = st /\ id' = id).
Proof.
  split; [apply listed_ZADD|]. unfold listed. simpl.
  destruct (decide ((rid', st') = (rid, st))) as [E|E].
  - injection E as -> ->. rewrite lookup_total_insert_eq. intros [Hl|(_ & _ & ->)].
    + destruct (decide (id' = id)) as [->|Hne]; [rewrite lookup_insert_eq; by eexists|].
      by rewrite lookup_insert_ne.
    + rewrite lookup_insert_eq. by eexists.
  - rewrite lookup_total_insert_ne by done. intros [Hl|(-> & -> & _)]; done.
Qed.

Lemma listed_ZREM_iff k rid st id rid' st' id' :
  listed (ZREM_sorted rid st id k) rid' st' id' <->
  listed k rid' st' id' /\ ~ (rid' = rid /\ st' = st /\ id' = id).
Proof.
  split; [apply listed_ZREM|]. unfold listed. simpl. intros [Hl Hn].
  destruct (decide ((rid', st') = (rid, st))) as [E|E].
  - injection E as -> ->. rewrite lookup_total_insert_eq. rewrite lookup_delete_ne; [done|].
    naive_solver.
  - by rewrite lookup_total_insert_ne.
Qed.

Lemma listed_clear k rid id rid' st' id' :
  listed (pipeline (clear_status_indexes rid id) k) rid' st' id' <->
  listed k rid' st' id' /\ ~ (rid' = rid /\ id' = id).
Proof.
  assert (forall k st, listed (SREM_legacy rid st id k) rid' st' id' <-> listed k rid' st' id') as Hs
    by done.
  unfold clear_status_indexes, ALL_TRANSACTION_STATUSES, pipeline.
  cbn [fmap list_fmap concat app fold_left].
  do 8 rewrite Hs, listed_ZREM_iff. split.
  - intros Hl. split; [by destruct_and? Hl|]. intros [-> ->]. destruct_and? Hl.
    destruct st'; match goal with Hn : ~ _ |- _ => by apply Hn end.
  - intros [Hl Hn]. split_and!; [done|..]; intros (? & _ & ?); by apply Hn.
Qed.

(** *** Writing a new transaction's indexes *)

Lemma created_ZADD k rid id x rid' id' :
  (created (ZADD_created rid id x k) !!! rid') !! id' =
  if bool_decide (rid' = rid /\ id' = id) then Some x else (created k !!! rid') !! id'.
Proof.
  simpl. case_bool_decide as E.
  - destruct E as [-> ->]. by rewrite lookup_total_insert_eq, lookup_insert_eq.
  - destruct (decide (rid' = rid)) as [->|Hne]; [|by rewrite lookup_total_insert_ne].
    rewrite lookup_total_insert_eq, lookup_insert_ne; [done|]. naive_solver.
Qed.

Lemma created_ZREM k rid id rid' id' :
  (created (ZREM_created rid id k) !!! rid') !! id' =
  if bool_decide (rid' = rid /\ id' = id) then None else (created k !!! rid') !! id'.
Proof.
  simpl. case_bool_decide as E.
  - destruct E as [-> ->]. by rewrite lookup_total_insert_eq, lookup_delete_eq.
  - destruct (decide (rid' = rid)) as [->|Hne]; [|by rewrite lookup_total_insert_ne].
    rewrite lookup_total_insert_eq, lookup_delete_ne; [done|]. naive_solver.
Qed.

(** [k'] has the indexes of [k], but for those of one transaction, which are those of [t]. *)
Definition reindexed (k k' : keyspace) (t : TransactionRepoModel) : Prop :=
  (forall rid st id, listed k' rid st id <->
     if bool_decide (id = tx_id t) then tx_relayer_id t = rid /\ tx_status t = st
     else listed k rid st id) /\
  (forall rid id, (created k' !!! rid) !! id =
     if bool_decide (id = tx_id t)
     then if bool_decide (tx_relayer_id t = rid)
          then Some (timestamp_to_score (tx_created_at t)) else None
     else (created k !!! rid) !! id) /\
  (forall rid n, nonce_index k' !! (rid, n) =
     if bool_decide (tx_relayer_id t = rid /\ nonce_of t = Some n) then Some (tx_id t)
     else if bool_decide (nonce_index k !! (rid, n) = Some (tx_id t)) then None
     else nonce_index k !! (rid, n)).

Lemma exact_insert k k' v t :
  exact k v -> nonce_free v t -> reindexed k k' t -> exact k' (<[tx_id t := t]> v).
Proof.
  intros (Hs & Hc & Hn) Hfree (Hs' & Hc' & Hn'). split_and!.
  - intros rid st id. rewrite Hs'. case_bool_decide as E.
    + subst id. rewrite lookup_insert_eq. naive_solver.
    + rewrite lookup_insert_ne by done. apply Hs.
  - intros rid id x. rewrite Hc'. case_bool_decide as E.
    + subst id. rewrite lookup_insert_eq. case_bool_decide; naive_solver.
    + rewrite lookup_insert_ne by done. apply Hc.
  - intros rid n id. rewrite Hn'. case_bool_decide as E.
    + destruct E as [<- En]. split.
      * intros [= <-]. rewrite lookup_insert_eq. eauto.
      * intros (t' & Ht' & Hr & Hno). apply lookup_insert_Some in Ht' as [[<- _]|[Hne Ht']]; [done|].
        exfalso. apply (Hfree id t' Ht'); [done|done|congruence|congruence].
    + destruct (decide (id = tx_id t)) as [->|Hne].
      * rewrite lookup_insert_eq. case_bool_decide; split; [naive_solver..|]. naive_solver.
      * rewrite lookup_insert_ne by done. rewrite <- (Hn rid n _). case_bool_decide as E'; [|done].
        split; [done|congruence].
Qed.

(** [k'] has the indexes of [k] but for those of one transaction, which are gone. *)
Definition unindexed (k k' : keyspace) (id : string) : Prop :=
  (forall rid st id', listed k' rid st id' <-> listed k rid st id' /\ id' <> id) /\
  (forall rid id', (created k' !!! rid) !! id' =
     if bool_decide (id' = id) then None else (created k !!! rid) !! id') /\
  (forall rid n, nonce_index k' !! (rid, n) =
     if bool_decide (nonce_index k !! (rid, n) = Some id) then None
     else nonce_index k !! (rid, n)).

Lemma exact_delete k k' v id : exact k v -> unindexed k k' id -> exact k' (delete id v).
Proof.
  intros (Hs & Hc & Hn) (Hs' & Hc' & Hn'). split_and!.
  - intros rid st id'. rewrite Hs', (Hs rid st id'). destruct (decide (id' = id)) as [->|Hne].
    + rewrite lookup_delete_eq. naive_solver.
    + rewrite lookup_delete_ne by done. naive_solver.
  - intros rid id' x. rewrite Hc'. case_bool_decide as E.
    + subst. rewrite lookup_delete_eq. naive_solver.
    + rewrite lookup_delete_ne by done. apply Hc.
  - intros rid n id'. rewrite Hn'. destruct (decide (id' = id)) as [->|Hne].
    + rewrite lookup_delete_eq. case_bool_decide; split; naive_solver.
    + rewrite lookup_delete_ne by done. rewrite <- (Hn rid n _). case_bool_decide as E; [|done].
      split; [done|congruence].
Qed.

(** A change that the indexes do not see. *)
Definition same_index (t t' : TransactionRepoModel) : Prop :=
  tx_relayer_id t' = tx_relayer_id t /\ tx_status t' = tx_status t /\
  tx_created_at t' = tx_created_at t /\ nonce_of t' = nonce_of t.

Lemma exact_alter k k' v F id :
  exact k v -> (forall t, same_index t (F t)) -> sorted k' = sorted k -> created k' = created k ->
  nonce_index k' = nonce_index k -> exact k' (alter F id v).
Proof.
  intros (Hs & Hc & Hn) HF Es Ec En.
  assert (forall id' (P : TransactionRepoModel -> Prop), (forall t, P (F t) <-> P t) ->
    (exists t, alter F id v !! id' = Some t /\ P t) <-> (exists t, v !! id' = Some t /\ P t)) as Ha.
  { intros id' P HP. destruct (decide (id' = id)) as [->|Hne].
    - rewrite lookup_alter_eq. destruct (v !! id) as [t|]; simpl; [|naive_solver].
      specialize (HP t). naive_solver.
    - by rewrite lookup_alter_ne. }
  split_and!.
  - intros rid st id'. unfold listed. rewrite Es, (Hs rid st id'). symmetry. apply Ha.
    intros t. destruct (HF t) as (-> & -> & _). done.
  - intros rid id' x. rewrite Ec, (Hc rid id' x). symmetry. apply Ha.
    intros t. destruct (HF t) as (-> & _ & -> & _). done.
  - intros rid n id'. rewrite En, (Hn rid n id'). symmetry. apply Ha.
    intros t. destruct (HF t) as (-> & _ & _ & ->). done.
Qed.

(** *** What [update_indexes] writes *)

Lemma update_cmds_created tx old inc k rid id :
  (created (pipeline (update_index_cmds tx old inc) k) !!! rid) !! id =
  if bool_decide (rid = tx_relayer_id tx /\ id = tx_id tx)
  then Some (timestamp_to_score (tx_created_at tx)) else (created k !!! rid) !! id.
Proof.
  rewrite <- (created_ZADD k (tx_relayer_id tx) (tx_id tx)). unfold update_index_cmds.
  destruct inc, (extract_nonce (tx_network_data tx)); simpl;
    (destruct old as [old|]; [|done]); simpl;
    destruct (status_eqb (tx_status old) (tx_status tx)); simpl;
    destruct (extract_nonce (tx_network_data old)); simpl; try case_bool_decide; done.
Qed.

Lemma update_cmds_sorted tx old k :
  sorted (pipeline (update_index_cmds tx old false) k) = sorted k.
Proof.
  unfold update_index_cmds. destruct (extract_nonce (tx_network_data tx)); simpl;
    (destruct old as [old|]; [|done]); simpl;
    destruct (extract_nonce (tx_network_data old)); simpl; try case_bool_decide; done.
Qed.

Lemma update_cmds_listed tx k rid st id :
  listed (pipeline (update_index_cmds tx None true) k) rid st id <->
  listed k rid st id \/ (rid = tx_relayer_id tx /\ st = tx_status tx /\ id = tx_id tx).
Proof.
  rewrite <- (listed_ZADD_iff k (tx_relayer_id tx) (tx_status tx) (tx_id tx) (status_sorted_score tx)).
  unfold update_index_cmds. by destruct (extract_nonce (tx_network_data tx)).
Qed.

Definition old_nonce (old : option TransactionRepoModel) : option (string * Z) :=
  old ← old; n ← nonce_of old; Some (tx_relayer_id old, n).

Lemma update_cmds_nonce tx old inc k rid n :
  (forall o, old = Some o -> tx_relayer_id o = tx_relayer_id tx) ->
  nonce_index (pipeline (update_index_cmds tx old inc) k) !! (rid, n) =
  if bool_decide (tx_relayer_id tx = rid /\ nonce_of tx = Some n) then Some (tx_id tx)
  else if bool_decide (old_nonce old = Some (rid, n)) then None
  else nonce_index k !! (rid, n).
Proof.
  intros Hrel. unfold update_index_cmds, old_nonce, nonce_of.
  set (base := match extract_nonce (tx_network_data tx) with
    | Some nonce => <[(tx_relayer_id tx, nonce) := tx_id tx]> (nonce_index k)
    | None => nonce_index k end).
  assert (base !! (rid, n) = if bool_decide (tx_relayer_id tx = rid /\
      extract_nonce (tx_network_data tx) = Some n) then Some (tx_id tx)
      else nonce_index k !! (rid, n)) as Hbase.
  { unfold base. destruct (extract_nonce (tx_network_data tx)) as [m|]; case_bool_decide as E.
    - destruct E as [<- [= <-]]. apply lookup_insert_eq.
    - apply lookup_insert_ne. intros [= Hr Hm]. apply E. by rewrite Hr, Hm.
    - by destruct E.
    - done. }
  destruct old as [o|]; simpl.
  2:{ rewrite <- Hbase. by destruct inc, (extract_nonce (tx_network_data tx)). }
  specialize (Hrel o eq_refl).
  destruct (extract_nonce (tx_network_data o)) as [m|] eqn:Eo; simpl.
  2:{ rewrite <- Hbase.
      by destruct inc, (extract_nonce (tx_network_data tx)), (status_eqb (tx_status o) (tx_status tx)). }
  destruct (bool_decide (Some m = extract_nonce (tx_network_data tx))) eqn:Em;
    [apply bool_decide_eq_true in Em|apply bool_decide_eq_false in Em].
  - transitivity (base !! (rid, n)).
    { by destruct inc, (extract_nonce (tx_network_data tx)), (status_eqb (tx_status o) (tx_status tx)). }
    rewrite Hbase. case_bool_decide as E1; [done|]. case_bool_decide as E2; [|done].
    exfalso. apply E1. simplify_eq. by rewrite <- Em.
  - transitivity (delete (tx_relayer_id o, m) base !! (rid, n)).
    { by destruct inc, (extract_nonce (tx_network_data tx)), (status_eqb (tx_status o) (tx_status tx)). }
    destruct (decide ((tx_relayer_id o, m) = (rid, n))) as [E|E].
    + rewrite E, lookup_delete_eq. injection E as _ E.
      rewrite bool_decide_eq_false_2 by (intros [_ E']; congruence).
      rewrite bool_decide_eq_true_2 by congruence. done.
    + rewrite lookup_delete_ne, Hbase by done.
      rewrite (bool_decide_eq_false_2 (Some (tx_relayer_id o, m) = Some (rid, n))) by congruence.
      done.
Qed.


(** *** Moving an entry *)

Lemma leave_status_listed rid id u st k rid' st' id' :
  listed (pipeline (leave_status rid (partial_update_index_metadata id u) (status_string st)) k)
    rid' st' id' <->
  listed k rid' st' id' /\ ~ (rid' = rid /\ st' = st /\ id' = id).
Proof.
  rewrite <- listed_ZREM_iff. unfold leave_status.
  destruct (suffix_of_status u id st) as [-> ->]. done.
Qed.

Lemma leave_all_listed rid id u sts k rid' st' id' :
  listed (pipeline (concat (leave_status rid (partial_update_index_metadata id u) <$>
                              (status_string <$> sts))) k) rid' st' id' <->
  listed k rid' st' id' /\ ~ (rid' = rid /\ st' ∈ sts /\ id' = id).
Proof.
  revert k. induction sts as [|st sts IH]; intros k; csimpl.
  - split; [|tauto]. intros Hl. split; [done|]. intros (_ & Hin & _). by apply elem_of_nil in Hin.
  - rewrite pipeline_app, IH, leave_status_listed, elem_of_cons. naive_solver.
Qed.

Lemma move_listed rid id u old new k rid' st' id' :
  old <> new -> (forall r st, listed k r st id <-> r = rid /\ st = old) ->
  listed (move_status_index rid (partial_update_index_metadata id u)
            (Some (status_string old)) (Some (status_string new)) k) rid' st' id' <->
  if bool_decide (id' = id) then rid = rid' /\ new = st' else listed k rid' st' id'.
Proof.
  intros Hne Hl. unfold move_status_index. cbn [mbind option_bind].
  destruct (suffix_of_status u id new) as [-> _].
  set (score := match im_confirmed_score _ with Some _ => _ | None => _ end).
  change (im_tx_id (partial_update_index_metadata id u)) with id.
  rewrite is_final_name_status, !pipeline_app.
  set (k1 := pipeline (leave_status rid (partial_update_index_metadata id u) (status_string old))
               (pipeline [ZADD_sorted rid new id score] k)).
  assert (listed k1 rid' st' id' <->
    if bool_decide (id' = id) then rid = rid' /\ new = st' else listed k rid' st' id') as Hk1.
  { unfold k1. rewrite leave_status_listed. simpl. rewrite listed_ZADD_iff.
    case_bool_decide as E; [subst id'; rewrite (Hl rid' st')|]; naive_solver. }
  destruct (is_final_state new) eqn:Ef; [|done].
  change (im_nonfinal (partial_update_index_metadata id u))
    with (status_string <$> NON_FINAL_STATUS_INDEXES).
  rewrite leave_all_listed, Hk1. split; [tauto|]. intros Hc. split; [done|].
  intros (-> & Hin & ->). rewrite bool_decide_eq_true_2 in Hc by done. destruct Hc as [_ <-].
  apply list_elem_of_In in Hin. by destruct new; simpl in Hin; destruct_or? Hin.
Qed.

(** ** The operations, without failures *)

Context (U : gset string).

(** A state without failures to come, that holds [v] with exact indexes. *)
Definition settled (B : Z) (v : store) (s : Redis.state) : Prop :=
  calm s /\ holds U B v s /\ exact (Redis.primary s) v.

(** The empty string is no id. *)
Definition named (v : store) : Prop := v !! ""%string = None.

(** What is left to show of an operation: it ends calm, with exact indexes. *)
Definition ends {A} (v' : store) (r' : result RepositoryError.t A)
    (r : result RepositoryError.t A) (s' : Redis.state) : Prop :=
  r = r' /\ calm s' /\ exact (Redis.primary s') v'.

(** The same, with the transactions that are then held. *)
Definition keeps_in {A} (B : Z) (v' : store) (r' r : result RepositoryError.t A)
    (s' : Redis.state) : Prop :=
  r = r' /\ settled B v' s'.

Lemma exact_create k v t rid j :
  exact k v -> v !! tx_id t = None -> nonce_free v t ->
  exact (pipeline (update_index_cmds t None true)
           (pipeline [SET_body rid (tx_id t) j; SET_reverse (tx_id t) rid] k)) (<[tx_id t := t]> v).
Proof.
  intros He Hn Hfree. eapply exact_insert; [exact He|done|]. destruct He as (Hs & Hc & Hx).
  set (k1 := pipeline _ k). split_and!.
  - intros rid' st id. rewrite update_cmds_listed. change (listed k1) with (listed k).
    case_bool_decide as E; [|naive_solver]. subst id. rewrite (Hs rid' st (tx_id t)), Hn. naive_solver.
  - intros rid' id. rewrite update_cmds_created. change (created k1) with (created k).
    destruct (decide (id = tx_id t)) as [->|Hne].
    + rewrite (bool_decide_eq_true_2 (tx_id t = tx_id t)) by done.
      rewrite (bool_decide_ext (rid' = tx_relayer_id t /\ tx_id t = tx_id t)
        (tx_relayer_id t = rid')) by naive_solver.
      case_bool_decide; [done|]. apply eq_None_not_Some. intros [x Hx'].
      apply (Hc rid') in Hx' as (t' & Ht' & _). congruence.
    + rewrite (bool_decide_eq_false_2 (id = tx_id t)) by done.
      by rewrite bool_decide_eq_false_2 by naive_solver.
  - intros rid' n. rewrite update_cmds_nonce by done. change (nonce_index k1) with (nonce_index k).
    case_bool_decide; [done|]. simpl.
    rewrite (bool_decide_eq_false_2 (nonce_index k !! (rid', n) = Some (tx_id t))); [done|].
    intros (t' & Ht' & _)%(Hx rid'). congruence.
Qed.

Lemma create_calm t B v s :
  settled B v s -> tx_id t ∉ U -> tx_id t <> ""%string -> nonce_free v t ->
  wp (create t) (ends (<[tx_id t := t]> v) (Ok t)) s.
Proof.
  intros (Hc & Hs & He) HU Hid Hfree.
  assert (v !! tx_id t = None) as Hn.
  { apply eq_None_not_Some. intros [t0 Ht0]. destruct Hs as (_ & _ & _ & _ & Hd).
    by apply HU, (Hd _ _ Ht0). }
  unfold create. rewrite (proj2 (String.eqb_neq _ _) Hid).
  apply wp_calm_connection; [done|]. apply wp_calm_query; [done|].
  rewrite (keyspace_of_primary _ _ _ _ _ Hs). pose proof (encodes_slot U (tx_id t) (proj2 Hs)) as Hi.
  rewrite Hn in Hi. simpl in Hi. rewrite Hi. apply wp_calm_exec; [done|].
  unfold update_indexes. wp_step. apply wp_calm_connection; [done|].
  unfold wp. rewrite exec_calm by done. split_and!; [done|done|]. simpl.
  by apply (exact_create _ _ t (tx_relayer_id t) (tx_json t)).
Qed.

Lemma move_other rid im old new k :
  created (move_status_index rid im old new k) = created k /\
  nonce_index (move_status_index rid im old new k) = nonce_index k.
Proof.
  assert (forall cmds k, Forall (fun c : cmd => forall k, created (c k) = created k /\
    nonce_index (c k) = nonce_index k) cmds -> created (pipeline cmds k) = created k /\
    nonce_index (pipeline cmds k) = nonce_index k) as Hp.
  { intros cmds k0 Hf. revert k0. induction Hf as [|c cmds Hc _ IH]; intros k0; [done|]. simpl.
    destruct (IH (c k0)) as [-> ->]. apply Hc. }
  assert (forall name, Forall (fun c : cmd => forall k, created (c k) = created k /\
    nonce_index (c k) = nonce_index k) (leave_status rid im name)) as Hleave.
  { intros name. unfold leave_status. apply Forall_app_2; destruct (suffix_of _ _); repeat constructor. }
  apply Hp. rewrite !Forall_app. split_and!.
  - destruct (new ≫= suffix_of (im_sorted im)); repeat constructor.
  - destruct old; [apply Hleave|constructor].
  - destruct (is_final_name new); [|constructor]. by apply Forall_concat, Forall_fmap, Forall_true.
Qed.

Lemma patch_effect_other now id u t fs k :
  created (patch_effect now id u t fs k) = created k /\
  nonce_index (patch_effect now id u t fs k) = nonce_index k.
Proof.
  unfold patch_effect. case_bool_decide; [done|].
  apply (move_other _ _ _ _ (SET_body (tx_relayer_id t) id (JObject fs) k)).
Qed.

Lemma exact_patch B k v now id u t fs :
  encodes U B k v -> exact k v -> v !! id = Some t -> nonce_free v (guarded now u t) ->
  exact (pipeline (update_index_cmds (guarded now u t) (Some t) false)
           (patch_effect now id u t fs k)) (<[id := guarded now u t]> v).
Proof.
  intros Hen He Ht Hfree. pose proof (encodes_slot U id Hen) as Hi. rewrite Ht in Hi.
  destruct Hi as [Hid _]. destruct (guarded_ids now u t) as [Hgid Hrel]. rewrite Hid in Hgid.
  rewrite <- Hgid at 2. eapply exact_insert; [exact He|done|]. destruct He as (Hs & Hc & Hx).
  destruct (patch_effect_other now id u t fs k) as [Ecr Eno].
  unfold reindexed. rewrite Hgid, Hrel. split_and!.
  - intros rid' st id'. unfold listed. rewrite update_cmds_sorted.
    fold (listed (patch_effect now id u t fs k) rid' st id'). unfold patch_effect.
    assert (forall r st, listed k r st id <-> r = tx_relayer_id t /\ st = tx_status t) as Hl.
    { intros r st'. rewrite (Hs r st' id), Ht. naive_solver. }
    case_bool_decide as Es.
    + change (listed (SET_body (tx_relayer_id t) id (JObject fs) k)) with (listed k).
      case_bool_decide as E; [|done]. subst id'. rewrite (Hl rid' st), Es. naive_solver.
    + rewrite move_listed; [done|congruence|done].
  - intros rid' id'. rewrite update_cmds_created, Hgid, Hrel, Ecr.
    assert (tx_created_at (guarded now u t) = tx_created_at t) as ->
      by (unfold guarded; by destruct (_ && _)).
    destruct (decide (id' = id)) as [->|Hne].
    + rewrite (bool_decide_eq_true_2 (id = id)) by done.
      rewrite (bool_decide_ext (rid' = tx_relayer_id t /\ id = id) (tx_relayer_id t = rid'))
        by naive_solver.
      case_bool_decide as E; [done|]. apply eq_None_not_Some. intros [x Hx'].
      apply (Hc rid') in Hx' as (t' & Ht' & Hr' & _). congruence.
    + rewrite (bool_decide_eq_false_2 (id' = id)) by done.
      by rewrite bool_decide_eq_false_2 by naive_solver.
  - intros rid' n. rewrite update_cmds_nonce, Hrel, Hgid, Eno by (intros o [= <-]; done).
    case_bool_decide; [done|].
    rewrite (bool_decide_ext (old_nonce (Some t) = Some (rid', n))
               (nonce_index k !! (rid', n) = Some id)); [done|].
    rewrite (Hx rid' n id), Ht. unfold old_nonce. simpl.
    destruct (nonce_of t) eqn:En; simpl; naive_solver.
Qed.

Lemma partial_update_calm now id u B v s :
  settled B v s -> update_ok B u -> B < u32_max ->
  (forall t, v !! id = Some t -> nonce_free v (guarded now u t)) ->
  wp (partial_update now id u)
    (ends (alter (guarded now u) id v)
       match v !! id with Some t => Ok (guarded now u t) | None => not_found id end) s.
Proof.
  intros (Hc & Hs & He) Hu HB Hfree. unfold partial_update, run_script_with_retry_vec.
  fold (index_meta_of id u). destruct (v !! id) as [t|] eqn:Ev.
  - destruct (patch_script_run U B _ v now id u t (proj2 Hs) Ev Hu HB)
      as (fs & fs' & Hrun & Hf & Hf').
    eapply (wp_calm_attempts _ 2); [done|by rewrite Hrun|]. rewrite Hrun. simpl snd.
    pose proof (encodes_slot U id (proj2 Hs)) as Hi. rewrite Ev in Hi.
    destruct Hi as (_ & Hst & Hle & _). destruct (guarded_storable B now u t Hu Hst Hle) as [Hst' _].
    unfold deserialize_tx, deserialize_entity.
    rewrite (fields_of_decodes fs t), (fields_of_decodes fs' (guarded now u t)) by done.
    do 4 wp_step. unfold update_indexes. wp_step. apply wp_calm_connection; [done|].
    unfold wp. rewrite exec_calm by done. split_and!; [done|done|]. simpl.
    rewrite (alter_Some _ _ _ t) by done. eapply exact_patch; [apply Hs|done|done|by apply Hfree].
  - pose proof (encodes_slot U id (proj2 Hs)) as Hi. rewrite Ev in Hi. simpl in Hi.
    assert (patch_script id (update_fields u) (delete_at_arg now u) (index_meta_of id u)
              (Redis.primary s) = (Ok None, Redis.primary s)) as Hrun
      by (unfold patch_script, with_body; by rewrite Hi).
    eapply (wp_calm_attempts _ 2); [done|by rewrite Hrun|]. rewrite Hrun. wp_step.
    rewrite alter_None by done. by split_and!.
Qed.

(** The counter scripts write the body only. *)
Lemma metadata_script_indexes id edit retouch k :
  let k' := snd (metadata_script id edit retouch k) in
  sorted k' = sorted k /\ created k' = created k /\ nonce_index k' = nonce_index k.
Proof.
  unfold metadata_script, with_body. destruct (reverse k !! id); [|done].
  destruct (bodies k !! _) as [[]|]; try done. destruct (is_final_name _); [done|].
  by destruct (edit _).
Qed.

Lemma count_edit_index f g t :
  (forall t, tx_relayer_id (g t) = tx_relayer_id t /\ tx_status (g t) = tx_status t /\
             tx_created_at (g t) = tx_created_at t /\ tx_network_data (g t) = tx_network_data t) ->
  same_index t (count_edit f g t).
Proof.
  intros Hg. unfold count_edit. destruct (is_final_state _); [done|].
  destruct (Hg t) as (Ha & Hb & Hc & Hd). unfold same_index, nonce_of.
  rewrite <- Ha, <- Hb, <- Hc, <- Hd. by destruct (g t).
Qed.

Lemma atomic_script_calm id edit f retouch g op_name B v s :
  settled B v s -> B < u32_max ->
  implements U B id (metadata_script id edit retouch) (count_edit f g)
    (fun j _ t' => tx_of_json j = Some t') ->
  (forall t, tx_relayer_id (g t) = tx_relayer_id t /\ tx_status (g t) = tx_status t /\
             tx_created_at (g t) = tx_created_at t /\ tx_network_data (g t) = tx_network_data t) ->
  wp (run_atomic_script (metadata_script id edit retouch) id op_name)
    (keeps_in (B + 1) (alter (count_edit f g) id v)
       match v !! id with Some t => Ok (count_edit f g t) | None => not_found id end) s.
Proof.
  intros (Hc & Hs & He) HB Himp Hg. unfold run_atomic_script.
  pose proof (Himp B _ v ltac:(lia) (proj2 Hs)) as Hi.
  assert (exact (snd (metadata_script id edit retouch (Redis.primary s)))
            (alter (count_edit f g) id v)) as Hex.
  { destruct (metadata_script_indexes id edit retouch (Redis.primary s)) as (? & ? & ?).
    eapply exact_alter; [done| |done..]. intros t. by apply count_edit_index. }
  destruct (v !! id) as [t|] eqn:Ev.
  - destruct Hi as (j & k' & Hrun & Hj & Hen). rewrite Hrun in Hex.
    eapply (wp_calm_attempts _ 2); [done|by rewrite Hrun|]. rewrite Hrun. wp_step.
    unfold deserialize_tx, deserialize_entity. rewrite Hj. split; [done|]. split; [done|].
    split; [|done]. by split; [apply Hs|].
  - rewrite Hi in Hex. eapply (wp_calm_attempts _ 2); [done|by rewrite Hi|]. rewrite Hi. wp_step.
    split; [done|]. split; [done|]. split; [|done]. split; [apply Hs|]. simpl.
    rewrite alter_None by done. eapply encodes_mono; [|apply Hs]. lia.
Qed.

(** *** Deletion *)

(** The index part of a deletion. *)
Definition clear_cmds (t : TransactionRepoModel) : list cmd :=
  clear_status_indexes (tx_relayer_id t) (tx_id t) ++
  clear_nonce (tx_relayer_id t) (nonce_of t) ++ [ZREM_created (tx_relayer_id t) (tx_id t)].

Lemma clear_status_other rid id k :
  created (pipeline (clear_status_indexes rid id) k) = created k /\
  nonce_index (pipeline (clear_status_indexes rid id) k) = nonce_index k.
Proof. done. Qed.

Lemma clear_nonce_other rid o k :
  sorted (pipeline (clear_nonce rid o) k) = sorted k /\
  created (pipeline (clear_nonce rid o) k) = created k /\
  nonce_index (pipeline (clear_nonce rid o) k) =
    match o with Some n => delete (rid, n) (nonce_index k) | None => nonce_index k end.
Proof. by destruct o. Qed.

Lemma clear_cmds_unindexed k v t :
  exact k v -> v !! tx_id t = Some t -> unindexed k (pipeline (clear_cmds t) k) (tx_id t).
Proof.
  intros (Hs & Hc & Hx) Ht. unfold clear_cmds. rewrite !pipeline_app.
  change (pipeline [ZREM_created (tx_relayer_id t) (tx_id t)])
    with (ZREM_created (tx_relayer_id t) (tx_id t)).
  pose proof (listed_clear k (tx_relayer_id t) (tx_id t)) as Hl.
  destruct (clear_status_other (tx_relayer_id t) (tx_id t) k) as [Ec En].
  generalize dependent (pipeline (clear_status_indexes (tx_relayer_id t) (tx_id t)) k).
  intros k1 Hl Ec En. destruct (clear_nonce_other (tx_relayer_id t) (nonce_of t) k1) as (Hcs & Hcc & Hcn).
  generalize dependent (pipeline (clear_nonce (tx_relayer_id t) (nonce_of t)) k1).
  intros k2 Hcs Hcc Hcn. split_and!.
  - intros rid st id'. change (listed k2 rid st id' <-> listed k rid st id' /\ id' <> tx_id t).
    unfold listed at 1. rewrite Hcs. fold (listed k1 rid st id'). rewrite Hl.
    split; [|intros [Hk Hne]; split; [done|]; by intros [_ ->]].
    intros [Hk Hn]. split; [done|]. intros ->. apply Hn. split; [|done].
    apply (Hs rid st (tx_id t)) in Hk as (t' & Ht' & Hr & _). congruence.
  - intros rid id'. rewrite created_ZREM, Hcc, Ec. case_bool_decide as E; case_bool_decide as E'.
    + done.
    + by destruct E.
    + subst id'. apply eq_None_not_Some. intros [x Hx'].
      apply (Hc rid) in Hx' as (t' & Ht' & Hr & _). apply E. split; [congruence|done].
    + done.
  - intros rid n. change (nonce_index (ZREM_created (tx_relayer_id t) (tx_id t) k2)) with (nonce_index k2).
    assert (nonce_index k !! (rid, n) = Some (tx_id t) <->
      rid = tx_relayer_id t /\ nonce_of t = Some n) as Hiff.
    { rewrite (Hx rid n), Ht. split; [intros (t' & [= <-] & <- & ?)|intros [-> ?]]; eauto. }
    rewrite (bool_decide_ext _ _ Hiff), Hcn, En. destruct (nonce_of t) as [m|].
    + case_bool_decide as E.
      * destruct E as [-> [= ->]]. apply lookup_delete_eq.
      * apply lookup_delete_ne. intros [= Hr Hm]. apply E. by rewrite Hr, Hm.
    + rewrite bool_decide_eq_false_2; [done|]. by intros [_ ?].
Qed.

(** Keyspaces with the same indexes, and commands that keep them the same. *)
Definition same_indexes (k k' : keyspace) : Prop :=
  sorted k' = sorted k /\ created k' = created k /\ nonce_index k' = nonce_index k.

#[local] Instance same_indexes_preorder : PreOrder same_indexes.
Proof.
  split; [done|]. intros a b c (? & ? & ?) (? & ? & ?). unfold same_indexes. split_and!; congruence.
Qed.

Lemma exact_store k k' v : same_indexes k k' -> exact k v -> exact k' v.
Proof.
  unfold exact, status_exact, created_exact, nonce_exact, listed. by intros (-> & -> & ->).
Qed.

Definition index_wise (c : cmd) : Prop :=
  forall k k', same_indexes k k' -> same_indexes (c k) (c k').

Lemma index_wise_pipeline cmds k k' :
  Forall index_wise cmds -> same_indexes k k' ->
  same_indexes (pipeline cmds k) (pipeline cmds k').
Proof.
  intros Hf. revert k k'. induction Hf as [|c cmds Hc _ IH]; intros k k' Hk; [done|].
  by apply IH, Hc.
Qed.

Lemma index_wise_ZREM_sorted rid st id : index_wise (ZREM_sorted rid st id).
Proof. intros k k' (E & ? & ?). split_and!; [|done..]. simpl. by rewrite E. Qed.
Lemma index_wise_SREM_legacy rid st id : index_wise (SREM_legacy rid st id).
Proof. by intros k k' Hk. Qed.
Lemma index_wise_ZREM_created rid id : index_wise (ZREM_created rid id).
Proof. intros k k' (? & E & ?). split_and!; [done| |done]. simpl. by rewrite E. Qed.
Lemma index_wise_DEL_nonce rid n : index_wise (DEL_nonce rid n).
Proof. intros k k' (? & ? & E). split_and!; [done..|]. simpl. by rewrite E. Qed.
Hint Resolve index_wise_ZREM_sorted index_wise_SREM_legacy index_wise_ZREM_created
  index_wise_DEL_nonce : index_db.

Lemma index_wise_clear_status rid id : Forall index_wise (clear_status_indexes rid id).
Proof.
  apply Forall_concat, Forall_fmap, Forall_true. intros st. simpl. eauto with index_db.
Qed.

Lemma index_wise_clear_nonce rid o : Forall index_wise (clear_nonce rid o).
Proof. destruct o; eauto with index_db. Qed.
Hint Resolve index_wise_clear_status index_wise_clear_nonce : index_db.

Lemma same_indexes_tail rid id k :
  same_indexes (pipeline [ZREM_created rid id] k)
    (pipeline [ZREM_created rid id; DEL_reverse id] k).
Proof. done. Qed.

Lemma index_wise_clear_cmds t : Forall index_wise (clear_cmds t).
Proof. unfold clear_cmds. eauto 10 with index_db. Qed.

Lemma without_singleton id (v : store) : without {[id]} v = delete id v.
Proof.
  unfold without. apply map_eq. intros id'. rewrite map_lookup_filter.
  destruct (decide (id' = id)) as [->|Hne].
  - rewrite lookup_delete_eq. destruct (v !! id); simpl; [|done].
    rewrite option_guard_False; [done|]. set_solver.
  - rewrite lookup_delete_ne by done. destruct (v !! id'); simpl; [|done].
    rewrite option_guard_True; [done|]. set_solver.
Qed.

Lemma without_insert id ids (v : store) :
  without ({[id]} ∪ ids) v = without ids (delete id v).
Proof.
  rewrite <- without_singleton. unfold without. rewrite map_filter_filter.
  apply map_filter_ext. set_solver.
Qed.

Lemma delete_by_id_calm id B v s :
  settled B v s -> id <> ""%string ->
  wp (delete_by_id id)
    (ends (without {[id]} v) (if bool_decide (is_Some (v !! id)) then Ok tt else not_found id)) s.
Proof.
  intros (Hc & Hs & He) Hid. rewrite without_singleton. unfold delete_by_id.
  rewrite (proj2 (String.eqb_neq _ _) Hid). unfold get_by_id, get_by_id_on.
  rewrite (proj2 (String.eqb_neq _ _) Hid).
  pose proof (encodes_slot U id (proj2 Hs)) as Hi.
  wp_step. apply wp_calm_connection; [done|]. apply wp_calm_query; [done|].
  rewrite (keyspace_of_primary _ _ _ _ _ Hs).
  destruct (v !! id) as [t|] eqn:Ev.
  2:{ simpl in Hi. rewrite Hi. wp_step. rewrite delete_id by done. by split_and!. }
  pose proof Hi as (Hid' & _ & _ & Hr & fs & Hb & _). rewrite Hr. apply wp_calm_query; [done|].
  rewrite (keyspace_of_primary _ _ _ _ _ Hs), Hb. wp_step.
  unfold deserialize_tx, deserialize_entity. rewrite (slot_decodes _ _ _ _ _ Hi Hb).
  apply wp_calm_connection; [done|]. apply wp_calm_exec; [done|]. do 2 wp_step.
  unfold remove_all_indexes. apply wp_calm_connection; [done|]. unfold wp. rewrite exec_calm by done.
  split; [done|]. split; [done|]. cbn [Redis.primary set_primary snd]. rewrite Hid'.
  change (extract_nonce (tx_network_data t)) with (nonce_of t).
  eapply (exact_store (pipeline (clear_cmds t) (Redis.primary s))).
  2:{ rewrite <- Hid'. eapply exact_delete; [exact He|]. eapply clear_cmds_unindexed; [exact He|].
      by rewrite Hid'. }
  transitivity (pipeline (clear_cmds t) (pipeline [DEL_body (tx_relayer_id t) id; DEL_reverse id]
                                           (Redis.primary s))).
  { apply index_wise_pipeline; [apply index_wise_clear_cmds|done]. }
  unfold clear_cmds. rewrite Hid', !pipeline_app.
  generalize (pipeline (clear_nonce (tx_relayer_id t) (nonce_of t))
    (pipeline (clear_status_indexes (tx_relayer_id t) id)
       (pipeline [DEL_body (tx_relayer_id t) id; DEL_reverse id] (Redis.primary s)))).
  intros k. apply same_indexes_tail.
Qed.

(** A request that names the relayer and the nonce of a stored transaction. *)
Definition accurate (v : store) (req : TransactionDeleteRequest) : Prop :=
  exists t, v !! dr_id req = Some t /\ dr_relayer_id req = tx_relayer_id t /\
            dr_nonce req = nonce_of t.

Lemma exact_delete_requests k v reqs :
  exact k v -> (forall id t, v !! id = Some t -> tx_id t = id) ->
  Forall (accurate v) reqs -> NoDup (dr_id <$> reqs) ->
  exact (pipeline (concat (delete_request_cmds <$> reqs)) k)
    (without (list_to_set (dr_id <$> reqs)) v).
Proof.
  revert k v. induction reqs as [|req reqs IH]; intros k v He Hids Hacc Hnd.
  { rewrite !fmap_nil. simpl. by rewrite without_empty. }
  rewrite !fmap_cons. cbn [concat list_to_set].
  inversion Hacc as [|? ? (t & Ht & Hr & Hn) Hacc']; subst.
  csimpl in Hnd. apply NoDup_cons in Hnd as [Hni Hnd]. rewrite pipeline_app, without_insert.
  apply IH; [| | |done].
  - pose proof (Hids _ _ Ht) as Hid. rewrite <- Hid in Ht |- *.
    eapply (exact_store (pipeline (clear_cmds t) k)).
    2:{ eapply exact_delete; [exact He|]. by eapply clear_cmds_unindexed. }
    assert (delete_request_cmds req =
      [DEL_body (tx_relayer_id t) (tx_id t); DEL_reverse (tx_id t)] ++ clear_cmds t) as ->
      by (unfold delete_request_cmds, clear_cmds; by rewrite Hr, Hn, Hid).
    rewrite pipeline_app.
    apply (index_wise_pipeline (clear_cmds t)); [apply index_wise_clear_cmds|done].
  - intros id t' Ht'. apply lookup_delete_Some in Ht' as [_ Ht']. by apply Hids.
  - apply Forall_forall. intros req' Hin. rewrite Forall_forall in Hacc'.
    destruct (Hacc' req' Hin) as (t' & Ht' & Hr' & Hn'). exists t'. split; [|done].
    rewrite lookup_delete_ne; [done|]. intros E. apply Hni. rewrite E.
    apply list_elem_of_fmap. eauto.
Qed.

Lemma settled_ids B v s : settled B v s -> forall id t, v !! id = Some t -> tx_id t = id.
Proof.
  intros (_ & Hs & _) id t Ht. pose proof (encodes_slot U id (proj2 Hs)) as Hi. rewrite Ht in Hi.
  apply Hi.
Qed.

Lemma delete_by_requests_calm reqs B v s :
  settled B v s -> Forall (accurate v) reqs -> NoDup (dr_id <$> reqs) ->
  wp (delete_by_requests reqs)
    (keeps_in B (without (list_to_set (dr_id <$> reqs)) v)
       (Ok {| deleted_count := Z.of_nat (length reqs); failed := [] |})) s.
Proof.
  intros Hset Hacc Hnd. pose proof Hset as (Hc & Hs & He). unfold delete_by_requests.
  pose proof (exact_delete_requests _ _ reqs He (settled_ids B v s Hset) Hacc Hnd) as Hex.
  destruct reqs as [|r0 reqs0] eqn:Er.
  { wp_step. split; [done|]. split; [done|]. split; [|exact Hex].
    eapply holds_delete_requests; [exact Hs|done]. }
  rewrite <- Er in *. clear Er. apply wp_calm_connection; [done|].
  wp_step. wp_step. unfold wp at 1. rewrite invoke_calm by done. cbn [fst snd]. apply wp_ret.
  split; [done|]. split; [done|]. split; [|done]. eapply holds_delete_requests; [exact Hs|done].
Qed.

Lemma get_transactions_by_ids_calm p ids B v s :
  calm s -> holds U B v s ->
  get_transactions_by_ids_on p ids s =
  (Ok {| br_results := found v ids; br_failed_ids := unknown v ids |}, s).
Proof.
  intros Hc Hs. unfold get_transactions_by_ids_on. destruct ids as [|id0 ids0] eqn:Eids; [done|].
  rewrite <- Eids. clear Eids. unfold bindM.
  rewrite get_connection_calm, query_calm, (keyspace_of_primary _ _ _ _ _ Hs) by done.
  rewrite (split_known_spec U B _ v) by apply Hs.
  destruct ((fun t => (tx_relayer_id t, tx_id t)) <$> found v ids) as [|key keys] eqn:Ek.
  { by destruct (found v ids). }
  rewrite <- Ek, query_calm, (keyspace_of_primary _ _ _ _ _ Hs) by done.
  rewrite (split_bodies_spec U B _ v) by apply Hs. unfold retM. by rewrite app_nil_r.
Qed.

Lemma delete_by_ids_calm ids B v s :
  settled B v s -> NoDup ids ->
  wp (delete_by_ids ids)
    (keeps_in B (without (list_to_set ids) v)
       (Ok {| deleted_count := Z.of_nat (length (found v ids));
              failed := (fun id => (id, "Transaction with ID " +:+ id +:+ " not found"))
                          <$> unknown v ids |})) s.
Proof.
  intros Hset Hnd. pose proof Hset as (Hc & Hs & He). unfold delete_by_ids.
  destruct ids as [|id0 ids0] eqn:Er.
  { wp_step. split; [done|]. simpl. by rewrite without_empty. }
  rewrite <- Er in *. clear Er. unfold wp, get_transactions_by_ids, bindM.
  rewrite (get_transactions_by_ids_calm _ _ B v) by done. cbn [br_results br_failed_ids].
  set (reqs := _ <$> found v ids).
  assert (dr_id <$> reqs = tx_id <$> found v ids) as Hids by (unfold reqs; by rewrite <- list_fmap_compose).
  destruct (delete_by_requests_calm reqs B v s Hset) as (Hr & Hset').
  - unfold reqs. apply Forall_fmap, Forall_forall. intros t (id & Hin & Ht)%found_elem.
    exists t. simpl. by rewrite (settled_ids B v s Hset id t Ht).
  - rewrite Hids. clear -Hset Hnd. induction Hnd as [|id ids Hni Hnd IH]; csimpl; [constructor|].
    unfold found in *. csimpl. destruct (v !! id) as [t|] eqn:Et; [|done]. csimpl.
    constructor; [|done]. rewrite (settled_ids B v s Hset id t Et).
    intros (t' & -> & (id' & Hin & Ht')%found_elem)%list_elem_of_fmap.
    by rewrite (settled_ids B v s Hset id' t' Ht') in Hni.
  - destruct (delete_by_requests reqs s) as [r s']. simpl in Hr, Hset'. rewrite Hr.
    rewrite Hids, (without_found _ v ids B (Redis.primary s)) in Hset' by apply Hs.
    split; [|done]. unfold reqs. by rewrite length_fmap.
Qed.

End Exact.
