(* ===== verification/RedisCodec.v ===== *)
(** * The codec of the Redis repository

    The theorems on what is written to Redis: the documents are read back as the models they
    were written from, through the scripts too, the keys of different things are different
    strings, and what happens to a document the scripts' repair of empty arrays cannot restore,
    to a counter whose reply is lost and to a nonce two transactions have. *)

From S2P Require Import Prelude Decimal Errors Json Model TransactionJson TransactionTypes.
From S2P Require Import Repository RedisBase RedisTransaction RedisDocuments RedisRefinement.
From S2P Require Import Counter Jobs Effects Sample RedisSample RedisRuns RedisIndexes.
Open Scope Z_scope.

Module Codec.
Section Codec.
Context `{Chrono} `{ServerConfig} `{JsonFloat} `{ForeignSerde} `{LuaJson}.

(** C24. Whatever document the decoder accepts, from whatever writer, the transaction it returns
    is well typed: every integer is in the range of its machine type ([u8] to [u256], [i64]),
    memo hashes have 32 bytes, signature hints 4, and contract arguments are canonical.  (The
    decoder is the part of serde's that reads the forms the code writes.)  And the document of that
    transaction, with its fields in any order at every level, is read back as the same
    transaction, for EVM, Solana and Stellar data alike. *)
Theorem decoded_is_well_typed j t :
  tx_of_json j = Some t ->
  tx_ok t /\ forall j', norm j' = norm (tx_json t) -> tx_of_json j' = Some t.
Proof.
  intros Ht. assert (tx_ok t) as Hok by by eapply returns_tx. split; [done|].
  intros j' Hn. rewrite <- blind_tx, Hn, blind_tx. by apply rt_tx.
Qed.

(** C23. The script of a partial update, which decodes the stored text and the patch with
    lua-cjson, sets the fields, encodes the table in Lua's order and repairs the arrays that
    became objects, writes a document that is read as the updated transaction: the model the
    in-memory repository's update computes.  It does so for stored data and patches that the
    detour leaves alone: every number is one Lua prints as it was, no two empty arrays have the
    same key (the repair restores one of each), and no field of the network data is called like
    the ones the scripts look for. *)
Theorem patched_document_roundtrip now u t fs :
  storable t -> all_opt metadata_ok (tx_metadata t) -> all_opt safe_data (upd_network_data u) ->
  in_range_opt u32_max (upd_noop_count u) -> all_opt metadata_ok (upd_metadata u) ->
  norm (JObject fs) = norm (tx_json t) ->
  tx_of_json
    (restore_arrays (remove_dups (empty_keys (JObject fs) ++ empty_keys (update_json u)))
       (cjson_encode (JObject (RedisTx.patch_table (RedisTx.decode_fields fs)
          (RedisTx.decode_fields (update_fields u)) (RedisTx.delete_at_arg now u)))))
  = Some (apply_partial_update now u t).
Proof.
  intros [Hs Hc] Hmd Hd Hn Hm Hf. rewrite <- patched_apply.
  set (t' := patched u (RedisTx.delete_at_arg now u) t). assert (storable t') as Hst'.
  { unfold t'. rewrite patched_apply. split; simpl.
    - destruct (upd_network_data u) as [nd|]; [by apply Hd|done].
    - destruct (upd_noop_count u); [done|exact Hc]. }
  destruct (patch_script_document fs t u (RedisTx.delete_at_arg now u)) as (fs' & Hdoc & Hf');
    [done| |done|].
  - unfold tx_json in Hf. rewrite !norm_object in Hf. injection Hf as Hf. exists (json_option metadata_json (tx_metadata t)). split; [|done].
    destruct (tx_metadata t) as [m|]; [|done]. apply meta_doc_json. by apply Hmd.
  - unfold update_json. rewrite Hdoc. by apply fields_of_decodes.
Qed.
End Codec.

(** The keys of the repository never collide: a transaction's document, the map from ids to
    relayers, the status sets and sorted sets, the nonce index, the idempotency keys, the
    creation index and the list of relayers are stored under different strings, for relayer ids
    and transaction ids without colons, which is what the API and the UUIDs give. *)
Theorem keys_never_collide key_prefix k k' :
  Keys.valid_key k -> Keys.valid_key k' ->
  Keys.key_string key_prefix k = Keys.key_string key_prefix k' -> k = k'.
Proof. apply Keys.key_string_inj. Qed.

(** ** Nonces that look free *)

Section Nonces.
Context `{Chrono} `{ServerConfig} `{JsonFloat} `{ForeignSerde} `{LuaJson} `{JsonText} `{SetOrder}.

(** The document of [t] is stored, and read as [t]. *)
Definition document_of (k : keyspace) (t : TransactionRepoModel) : Prop :=
  tx_id t <> ""%string /\ reverse k !! tx_id t = Some (tx_relayer_id t) /\
  exists j, bodies k !! (tx_relayer_id t, tx_id t) = Some j /\ tx_of_json j = Some t.

Lemma get_document p context t s :
  calm s -> Redis.replica s = None -> document_of (Redis.primary s) t ->
  RedisTx.get_by_id_on p (tx_id t) context s = (Ok t, s).
Proof.
  intros Hc Hr (Hid & Hrev & j & Hb & Hj). unfold RedisTx.get_by_id_on.
  rewrite (proj2 (String.eqb_neq _ _) Hid). unfold bindM.
  assert (keyspace_of p s = Redis.primary s) as Hk by (unfold keyspace_of; rewrite Hr; by destruct p).
  rewrite get_connection_calm, query_calm, Hk, Hrev, query_calm, Hk, Hb by done.
  unfold RedisTx.deserialize_tx, deserialize_entity, liftM. by rewrite Hj.
Qed.

(** Commands on the status and creation indexes leave the rest alone. *)
Definition same_rest (k k' : keyspace) : Prop :=
  bodies k' = bodies k /\ reverse k' = reverse k /\ nonce_index k' = nonce_index k.

#[local] Instance same_rest_preorder : PreOrder same_rest.
Proof. split; [by intros k|]. intros a b c (?&?&?) (?&?&?). split_and!; congruence. Qed.

Lemma clear_status_rest rid id k : same_rest k (pipeline (RedisTx.clear_status_indexes rid id) k).
Proof.
  apply (pipeline_moves same_rest). apply Forall_concat, Forall_fmap, Forall_true. intros st.
  by repeat constructor.
Qed.

Lemma delete_document t n s :
  calm s -> Redis.replica s = None -> document_of (Redis.primary s) t ->
  RedisTx.extract_nonce (tx_network_data t) = Some n -> exists s',
    RedisTx.delete_by_id (tx_id t) s = (Ok tt, s') /\ calm s' /\ Redis.replica s' = None /\
    bodies (Redis.primary s') = delete (tx_relayer_id t, tx_id t) (bodies (Redis.primary s)) /\
    reverse (Redis.primary s') = delete (tx_id t) (reverse (Redis.primary s)) /\
    nonce_index (Redis.primary s') = delete (tx_relayer_id t, n) (nonce_index (Redis.primary s)).
Proof.
  intros Hc Hr Hd Hn. pose proof Hd as (Hid & _). unfold RedisTx.delete_by_id.
  rewrite (proj2 (String.eqb_neq _ _) Hid). unfold RedisTx.get_by_id, bindM.
  rewrite (get_document Reader "get_by_id" t s Hc Hr Hd), get_connection_calm, exec_calm by done.
  set (k1 := pipeline _ (Redis.primary s)). unfold try_, RedisTx.remove_all_indexes, bindM.
  rewrite get_connection_calm, exec_calm by done. eexists. split; [reflexivity|].
  split; [done|]. split; [done|]. cbn [Redis.primary set_primary]. rewrite Hn, !pipeline_app.
  destruct (clear_status_rest (tx_relayer_id t) (tx_id t) k1) as (Hb & Hrv & Hni).
  revert Hb Hrv Hni. generalize (pipeline (RedisTx.clear_status_indexes (tx_relayer_id t) (tx_id t)) k1).
  intros k2 Hb Hrv Hni. simpl. rewrite Hb, Hrv, Hni. unfold k1. simpl. by rewrite delete_delete_eq.
Qed.

Lemma nonce_range_one n : nonce_range n (n + 1) = [n].
Proof.
  unfold nonce_range. replace (n + 1 - n) with 1 by lia. simpl. by rewrite Z.add_0_r.
Qed.

(** C34. Deleting a transaction deletes the nonce key of its nonce whoever holds it.  Suppose two
    stored transactions of a relayer have the same nonce (one failed before, say, and the other
    was sent in its place), and the index names the second.  Then, on a server that does not
    fail, deleting the first leaves the second stored and readable, but its nonce looks free: no
    transaction is found under it, and the slot is reported empty. *)
Theorem deletion_frees_a_nonce_in_use first second n s :
  calm s -> Redis.replica s = None ->
  document_of (Redis.primary s) first -> document_of (Redis.primary s) second ->
  tx_id first <> tx_id second -> tx_relayer_id second = tx_relayer_id first ->
  RedisTx.extract_nonce (tx_network_data first) = Some n ->
  nonce_index (Redis.primary s) !! (tx_relayer_id first, n) = Some (tx_id second) ->
  fst (RedisTx.find_by_nonce (tx_relayer_id first) n s) = Ok (Some second) /\
  let '(r, s') := RedisTx.delete_by_id (tx_id first) s in
  r = Ok tt /\ fst (RedisTx.get_by_id (tx_id second) s') = Ok second /\
  fst (RedisTx.find_by_nonce (tx_relayer_id first) n s') = Ok None /\
  fst (RedisTx.get_nonce_occupancy (tx_relayer_id first) n (n + 1) s') = Ok [(n, None)].
Proof.
  intros Hc Hr Hd1 Hd2 Hne Hrel Hn Hi.
  assert (Hks : forall p (s0 : Redis.state), Redis.replica s0 = None -> keyspace_of p s0 = Redis.primary s0)
    by (intros p s0 Hr0; unfold keyspace_of; rewrite Hr0; by destruct p).
  split.
  - unfold RedisTx.find_by_nonce, bindM. rewrite get_connection_calm, query_calm, Hks, Hi by done.
    unfold try_, RedisTx.get_by_id. by rewrite (get_document Reader "get_by_id" second s Hc Hr Hd2).
  - destruct (delete_document first n s Hc Hr Hd1 Hn) as (s' & -> & Hc' & Hr' & Hb & Hrv & Hni).
    split; [done|].
    assert (Hd2' : document_of (Redis.primary s') second).
    { destruct Hd2 as (Hid & Hrev & j & Hj & Hdec). split; [done|]. rewrite Hb, Hrv.
      split; [by rewrite lookup_delete_ne|]. exists j. split; [|done].
      rewrite lookup_delete_ne; [done|]. congruence. }
    assert (Hgone : nonce_index (Redis.primary s') !! (tx_relayer_id first, n) = None)
      by (rewrite Hni; apply lookup_delete_eq).
    split_and!.
    + unfold RedisTx.get_by_id. by rewrite (get_document Reader "get_by_id" second s' Hc' Hr' Hd2').
    + unfold RedisTx.find_by_nonce, bindM. by rewrite get_connection_calm, query_calm, Hks, Hgone by done.
    + unfold RedisTx.get_nonce_occupancy. rewrite (proj2 (Z.leb_gt _ _)) by lia.
      rewrite nonce_range_one. unfold bindM.
      rewrite get_connection_calm, query_calm, Hks by done. simpl. rewrite Hgone. reflexivity.
Qed.
End Nonces.

(** ** Documents, replies and nonces that get lost *)

#[local] Existing Instances sample_chrono sample_config sample_float sample_lua sample_serde
  sample_text sample_sets sample_entries.
Import Runs.

Definition two_instructions : TransactionRepoModel :=
  {| tx_id := "s1"; tx_relayer_id := "relayer"; tx_status := Pending; tx_status_reason := None;
     tx_created_at := "1000000000"; tx_sent_at := None; tx_confirmed_at := None;
     tx_valid_until := None; tx_delete_at := None;
     tx_network_data := SolanaData
       {| sol_transaction := None;
          sol_instructions := Some
            [{| sis_program_id := "p"; sis_accounts := []; sis_data := "AQ==" |};
             {| sis_program_id := "q"; sis_accounts := []; sis_data := "Ag==" |}];
          sol_signature := None |};
     tx_priced_at := None; tx_hashes := []; tx_network_type := NtSolana; tx_noop_count := None;
     tx_is_canceled := None; tx_metadata := None |}.

(** The result of a call on the state a sequence of calls leaves. *)
Definition answer_after {A} (ops : list op) (evs : list event) (c : Repo A)
  : result RepositoryError.t A :=
  fst (c (run_all "oz" ops (sample_server evs))).

(** The repair of empty arrays restores one occurrence of each key.  A Solana transaction
    whose two instructions name no accounts is well formed, is created and read back; after its
    first partial update one of the two [accounts] is an object, the update reports an error
    although it has been written, and the transaction cannot be read any more. *)
Theorem repeated_empty_arrays_are_lost :
  let create := OpCreate two_instructions in
  let update := RedisTx.partial_update 5 "s1" (to_status Sent) in
  tx_ok two_instructions /\
  answer_after [create] [] (RedisTx.get_by_id "s1") = Ok two_instructions /\
  (exists e, answer_after [create] [] update = Err e) /\
  (exists m, answer_after [create; OpPartialUpdate 5 "s1" (to_status Sent)] []
               (RedisTx.get_by_id "s1") = Err (RepositoryError.InvalidData m)).
Proof.
  cbv zeta. split; [|split; [by vm_compute|split]].
  - split; [done|]. by split.
  - eexists. vm_compute. reflexivity.
  - eexists. vm_compute. reflexivity.
Qed.

(** A counter script is sent again when its reply is lost, although it is not idempotent:
    one failed status check whose first two replies are lost is counted three times. *)
Theorem lost_replies_count_again :
  let lost := [EvOk; EvOk; EvOk; EvOk; EvOk;
               EvOk; EvAfter lost_reply; EvOk; EvAfter lost_reply] in
  (fun t => consecutive_failures (default metadata_default (tx_metadata t)))
    <$> result_ok (answer_after [OpCreate demo_tx; OpIncrementFailures "t1"] lost
                     (RedisTx.get_by_id "t1")) = Some 3.
Proof. by vm_compute. Qed.

(** ** Witnesses *)

Lemma decoded_is_well_typed_witness : tx_of_json (norm (tx_json demo_tx)) = Some demo_tx.
Proof.
  apply (decoded_is_well_typed (tx_json demo_tx) demo_tx); [by vm_compute|]. apply norm_idemp.
Defined.

Lemma patched_document_roundtrip_witness :
  exists fs, tx_of_json
    (restore_arrays (remove_dups (empty_keys (JObject fs) ++ empty_keys (update_json (to_status Mined))))
       (cjson_encode (JObject (RedisTx.patch_table (RedisTx.decode_fields fs)
          (RedisTx.decode_fields (update_fields (to_status Mined)))
          (RedisTx.delete_at_arg 5 (to_status Mined))))))
  = Some (apply_partial_update 5 (to_status Mined) demo_tx).
Proof.
  exists (tx_fields demo_tx).
  apply (patched_document_roundtrip 5 (to_status Mined) demo_tx (tx_fields demo_tx)); [|done..].
  apply sample_storable. by intros n [= <-].
Defined.

(** A failed transaction and the live one sent with its nonce. *)
Lemma deletion_frees_a_nonce_in_use_witness :
  let failed := sample_tx "t1" Failed [] (sample_data (Some 7) None None) in
  let live := sample_tx "t2" Submitted [] (sample_data (Some 7) None None) in
  let s := run_all "oz" [OpCreate failed; OpCreate live] (sample_server []) in
  fst (RedisTx.find_by_nonce "relayer" 7 s) = Ok (Some live) /\
  fst (RedisTx.find_by_nonce "relayer" 7 (snd (RedisTx.delete_by_id "t1" s))) = Ok None.
Proof.
  intros failed live s.
  destruct (deletion_frees_a_nonce_in_use failed live 7 s) as [Hbefore Hafter];
    [by vm_compute|by vm_compute|..|by vm_compute|].
  1,2: split; [done|]; split; [by vm_compute|]; eexists; split; [by vm_compute|by vm_compute].
  - done.
  - done.
  - done.
  - split; [exact Hbefore|]. change (tx_id failed) with "t1"%string in Hafter.
    destruct (RedisTx.delete_by_id "t1" s) as [r s']. by destruct Hafter as (_ & _ & Hfree & _).
Defined.

Lemma keys_never_collide_witness :
  Keys.key_string "oz" (Keys.KTx "relayer" "t1") <> Keys.key_string "oz" (Keys.KReverse "t1").
Proof.
  intros He. by apply (keys_never_collide "oz" (Keys.KTx "relayer" "t1") (Keys.KReverse "t1")) in He.
Defined.
End Codec.
