(* ===== verification/RedisAnswers.v ===== *)
(** * What the Redis repository answers

    On a server that does not fail and whose indexes are exact, the finders that go through the
    indexes find what a scan of the stored transactions would find, and every call is the call
    of the abstract store: the run of a sequence of calls ends in the store [apply_all] computes,
    with exact indexes. *)

From S2P Require Import Prelude Decimal Errors Json Model TransactionJson Repository RedisBase.
From S2P Require Import RedisTransaction RedisDocuments RedisRefinement Counter Jobs Effects.
From S2P Require Import Sample RedisSample RedisRuns RedisIndexes.
Open Scope Z_scope.
Import RedisTx.

Section Answers.
Context `{Chrono} `{ServerConfig} `{JsonFloat} `{ForeignSerde} `{LuaJson} `{JsonText}
  `{SetOrder} (U : gset string).

Lemma get_by_id_on_calm p id context B v s :
  calm s -> holds U B v s -> id <> ""%string ->
  get_by_id_on p id context s =
  (match v !! id with Some t => Ok t | None => not_found id end, s).
Proof.
  intros Hc Hs Hid. unfold get_by_id_on. rewrite (proj2 (String.eqb_neq _ _) Hid). unfold bindM.
  rewrite get_connection_calm, query_calm, (keyspace_of_primary _ _ _ _ _ Hs) by done.
  pose proof (encodes_slot U id (proj2 Hs)) as Hi. destruct (v !! id) as [t|].
  - pose proof Hi as (_ & _ & _ & Hr & fs & Hb & _).
    rewrite Hr, query_calm, (keyspace_of_primary _ _ _ _ _ Hs), Hb by done.
    unfold deserialize_tx, deserialize_entity, liftM. by rewrite (slot_decodes _ _ _ _ _ Hi Hb).
  - simpl in Hi. by rewrite Hi.
Qed.

(** ** By nonce *)

(** [o] is the transaction of the relayer with the nonce, if there is one. *)
Definition nonce_answer (v : store) (rid : string) (n : Z) (o : option TransactionRepoModel)
  : Prop :=
  forall t, o = Some t <->
    exists id, v !! id = Some t /\ tx_relayer_id t = rid /\ nonce_of t = Some n.

Lemma nonce_answer_of B v s rid n :
  settled U B v s ->
  nonce_answer v rid n (nonce_index (Redis.primary s) !! (rid, n) ≫= (fun id => v !! id)).
Proof.
  intros (_ & _ & _ & _ & Hx) t. split.
  - intros (id & Hid & Ht)%bind_Some. apply (Hx rid n id) in Hid as (t' & Ht' & Hr & Hn).
    exists id. by simplify_eq.
  - intros (id & Ht & Hr & Hn). apply bind_Some. exists id. split; [|done]. apply (Hx rid n id). eauto.
Qed.

Lemma find_by_nonce_calm rid n B v s :
  settled U B v s -> named v ->
  exists o, find_by_nonce rid n s = (Ok o, s) /\ nonce_answer v rid n o.
Proof.
  intros Hset Hnm. pose proof Hset as (Hc & Hs & _ & _ & Hx).
  eexists. split; [|by apply (nonce_answer_of B)]. unfold find_by_nonce, bindM, try_.
  rewrite get_connection_calm, query_calm, (keyspace_of_primary _ _ _ _ _ Hs) by done.
  destruct (nonce_index (Redis.primary s) !! (rid, n)) as [id|] eqn:Ei; [|done]. simpl.
  apply (Hx rid n id) in Ei as (t & Ht & _). unfold get_by_id.
  rewrite (get_by_id_on_calm _ _ _ B v) by (try done; intros ->; unfold named in Hnm; congruence).
  by rewrite Ht.
Qed.

Lemma slot_status_spec (values : list (option json)) (f : string -> option json)
    (slots : list (option string)) :
  values = f <$> omap id slots ->
  slot_status values slots =
  (fun slot => slot ≫= (fun id => f id ≫= (fun j => tx_status <$> tx_of_json j))) <$> slots.
Proof.
  intros ->. unfold slot_status.
  set (g := fun '(values, acc) slot => _).
  assert (forall slots acc, snd (fold_left g slots (f <$> omap id slots, acc)) =
    acc ++ ((fun slot => slot ≫= (fun id => f id ≫= (fun j => tx_status <$> tx_of_json j))) <$> slots))
    as Hg; [|by rewrite Hg].
  clear slots. intros slots. induction slots as [|slot slots IH]; intros acc; csimpl.
  { by rewrite app_nil_r. }
  destruct slot as [id|]; simpl; rewrite IH, <- app_assoc; done.
Qed.

Lemma elem_of_zip_fmap {A C} (f : A -> C) (l : list A) a c : (a, c) ∈ zip l (f <$> l) -> c = f a.
Proof.
  induction l as [|x l IH]; csimpl; [by intros ?%elem_of_nil|].
  intros [[= -> ->]|Hin]%elem_of_cons; [done|by apply IH].
Qed.

Lemma get_nonce_occupancy_calm rid from to B v s :
  settled U B v s ->
  exists l, get_nonce_occupancy rid from to s = (Ok l, s) /\ l.*1 = nonce_range from to /\
    forall n o, (n, o) ∈ l -> exists a, nonce_answer v rid n a /\ o = tx_status <$> a.
Proof.
  intros Hset. pose proof Hset as (Hc & Hs & _ & _ & Hx). unfold get_nonce_occupancy.
  destruct (Z.leb_spec to from) as [Hle|Hlt].
  { exists []. split; [done|]. split; [|by intros n o Hin%elem_of_nil]. unfold nonce_range.
    by replace (Z.to_nat (to - from)) with 0%nat by lia. }
  set (k := Redis.primary s). set (nonces := nonce_range from to).
  set (slots := (fun n => nonce_index k !! (rid, n)) <$> nonces).
  set (f := fun id => bodies k !! (rid, id)).
  exists (zip nonces ((fun slot => slot ≫= (fun id => f id ≫= (fun j => tx_status <$> tx_of_json j)))
                        <$> slots)).
  split_and!.
  - unfold bindM. rewrite get_connection_calm, query_calm, (keyspace_of_primary _ _ _ _ _ Hs) by done.
    fold k slots.
    assert (omap (fun o => (fun id => (rid, id)) <$> o) slots = (fun id => (rid, id)) <$> omap id slots)
      as Hkeys.
    { clear. induction slots as [|[id|] slots IH]; csimpl; [done| |done]. by rewrite IH. }
    rewrite Hkeys. destruct (omap id slots) as [|id0 ids] eqn:Eids.
    { csimpl. unfold retM at 1. by rewrite (slot_status_spec [] f slots) by by rewrite Eids. }
    rewrite <- Eids. clear Hkeys. destruct ((fun id => (rid, id)) <$> omap id slots) eqn:Ek.
    { by rewrite Eids in Ek. }
    rewrite <- Ek, query_calm, (keyspace_of_primary _ _ _ _ _ Hs) by done. fold k. unfold retM.
    by rewrite (slot_status_spec _ f slots) by by rewrite <- list_fmap_compose.
  - rewrite fst_zip; [done|]. unfold slots. by rewrite !length_fmap.
  - intros n o Hin. unfold slots in Hin. rewrite <- list_fmap_compose in Hin.
    apply elem_of_zip_fmap in Hin as ->. eexists. split; [by apply (nonce_answer_of B)|].
    unfold compose. fold k. destruct (nonce_index k !! (rid, n)) as [id|] eqn:Ei; [|done]. simpl.
    apply (Hx rid n id) in Ei as (t & Ht & Hr & _). pose proof (encodes_slot U id (proj2 Hs)) as Hi.
    rewrite Ht in Hi |- *. pose proof Hi as (_ & _ & _ & _ & fs & Hb & _). rewrite Hr in Hb.
    unfold f. fold k in Hb. rewrite Hb. cbn [mbind option_bind]. rewrite <- Hr in Hb.
    rewrite (slot_decodes _ _ _ _ _ Hi Hb). reflexivity.
Qed.

(** ** By status *)

Lemma zrange_all {A} (l : list A) : zrange 0 (-1) l = l.
Proof.
  unfold zrange. simpl. destruct l as [|x l]; [done|].
  rewrite (proj2 (Z.ltb_ge _ _)) by (simpl length; lia).
  rewrite drop_0. apply take_ge. simpl length. lia.
Qed.

Lemma elem_of_ZRANGE_all z rev id : id ∈ ZRANGE z 0 (-1) rev <-> is_Some (z !! id).
Proof.
  unfold ZRANGE. rewrite zrange_all.
  assert (id ∈ (zmembers z).*1 <-> is_Some (z !! id)) as Hm.
  { unfold zmembers. rewrite (sorted_by_perm zorder (map_to_list z)), list_elem_of_fmap. split.
    - intros ([id' x] & -> & Hin%elem_of_map_to_list). by exists x.
    - intros [x Hx]. exists (id, x). split; [done|]. by apply elem_of_map_to_list. }
  destruct rev; [|done]. by rewrite <- Permutation_rev.
Qed.

Lemma foldM_query {A E} (f : A -> keyspace -> list E) context p (l : list A) acc s :
  calm s ->
  foldM (fun acc x => let* y := query p (f x) context in retM (acc ++ y)) acc l s =
  (Ok (acc ++ concat ((fun x => f x (keyspace_of p s)) <$> l)), s).
Proof.
  intros Hc. revert acc. induction l as [|x l IH]; intros acc; csimpl.
  { unfold retM. by rewrite app_nil_r. }
  unfold bindM at 1. unfold bindM at 1. rewrite query_calm by done. simpl. rewrite IH.
  by rewrite app_assoc.
Qed.

Lemma ensure_status_sorted_set_calm rid st B v s :
  calm s -> holds U B v s ->
  ensure_status_sorted_set rid st s =
  (Ok (ZCARD (sorted (Redis.primary s) !!! (rid, st))), s).
Proof.
  intros Hc Hs. unfold ensure_status_sorted_set, bindM.
  rewrite get_connection_calm, query_calm, (keyspace_of_primary _ _ _ _ _ Hs) by done.
  pose proof Hs as (_ & _ & Hl & _). rewrite Hl.
  change (Z.of_nat (size (∅ : gset string)) =? 0) with true. cbv iota.
  by rewrite query_calm, (keyspace_of_primary _ _ _ _ _ Hs) by done.
Qed.

Lemma ensure_all_calm rid sts B v s :
  calm s -> holds U B v s -> ensure_all rid sts s = (Ok tt, s).
Proof.
  intros Hc Hs. unfold ensure_all. induction sts as [|st sts IH]; [done|]. simpl.
  unfold bindM at 1. unfold bindM at 1.
  by rewrite (ensure_status_sorted_set_calm _ _ B v) by done.
Qed.

Lemma elem_of_dedup x l : x ∈ dedup l <-> x ∈ l.
Proof.
  induction l as [|y l IH]; [done|]. destruct l as [|z l]; [done|].
  change (dedup (y :: z :: l)) with (if String.eqb y z then dedup (z :: l) else y :: dedup (z :: l)).
  destruct (String.eqb_spec y z) as [->|Hne]; rewrite ?elem_of_cons, IH, ?elem_of_cons; tauto.
Qed.

Lemma string_le_trans a b c :
  String.compare a b <> Gt -> String.compare b c <> Gt -> String.compare a c <> Gt.
Proof. intros Hab Hbc. exact (key_le_trans (a, JNull) (b, JNull) (c, JNull) Hab Hbc). Qed.

Lemma sorted_dedup l :
  Sorted (fun a b => String.compare a b <> Gt) l -> NoDup (dedup l).
Proof.
  intros Hs. assert (Transitive (fun a b => String.compare a b <> Gt)) as Htr
    by exact string_le_trans.
  apply Sorted_StronglySorted in Hs; [|done].
  induction Hs as [|x l Hs IH Hx]; [constructor|]. destruct l as [|y l]; [apply NoDup_singleton|].
  change (dedup (x :: y :: l)) with (if String.eqb x y then dedup (y :: l) else x :: dedup (y :: l)).
  destruct (String.eqb_spec x y) as [->|Hne]; [done|]. constructor; [|done].
  rewrite elem_of_dedup. intros [->|Hin]%elem_of_cons; [done|].
  inversion Hs as [|? ? _ Hy]; subst. rewrite List.Forall_forall in Hx, Hy.
  apply list_elem_of_In in Hin. pose proof (Hy _ Hin) as Hyx. pose proof (Hx y (or_introl eq_refl)) as Hxy.
  rewrite String.compare_antisym in Hyx. apply Hne, String.compare_eq_iff.
  by destruct (String.compare x y).
Qed.

(** The transactions of a relayer in one of the statuses. *)
Definition status_answer (v : store) (rid : string) (sts : list TransactionStatus)
    (l : list TransactionRepoModel) : Prop :=
  NoDup l /\ Sorted (fun a b => by_created_desc a b <> Gt) l /\
  forall t, t ∈ l <->
    exists id, v !! id = Some t /\ tx_relayer_id t = rid /\ status_in (tx_status t) sts = true.

Lemma found_NoDup B v s ids : settled U B v s -> NoDup ids -> NoDup (found v ids).
Proof.
  intros Hset Hnd. induction Hnd as [|id ids Hni Hnd IH]; [constructor|].
  unfold found in *. csimpl. destruct (v !! id) as [t|] eqn:Et; [|done]. constructor; [|done].
  intros (id' & Hin & Ht')%found_elem. apply Hni.
  by rewrite <- (settled_ids U B v s Hset id t Et), (settled_ids U B v s Hset id' t Ht').
Qed.

Lemma by_created_antisym a b : by_created_desc b a = CompOpp (by_created_desc a b).
Proof. apply String.compare_antisym. Qed.

Lemma find_by_status_calm rid sts B v s :
  settled U B v s ->
  exists l, find_by_status rid sts s = (Ok l, s) /\ status_answer v rid sts l.
Proof.
  intros Hset. pose proof Hset as (Hc & Hs & Hst & _). set (k := Redis.primary s).
  set (all_ids := concat ((fun st => ZRANGE (sorted k !!! (rid, st)) 0 (-1) true) <$> sts)).
  set (ids := dedup (sorted_by String.compare all_ids)).
  assert (forall id, id ∈ ids <-> exists st, st ∈ sts /\ listed k rid st id) as Hids.
  { intros id. unfold ids. rewrite elem_of_dedup, sorted_by_perm. unfold all_ids.
    rewrite list_elem_of_In, in_concat. split.
    - intros (l & (st & <- & Hin)%in_map_iff & Hid). exists st. rewrite list_elem_of_In.
      split; [done|]. by apply list_elem_of_In, elem_of_ZRANGE_all in Hid.
    - intros (st & Hin & Hl). eexists. split; [apply in_map_iff; exists st; split; [done|]|].
      + by apply list_elem_of_In.
      + by apply list_elem_of_In, elem_of_ZRANGE_all. }
  assert (NoDup ids) as Hnd.
  { apply sorted_dedup, sorted_by_sorted. intros a b. apply String.compare_antisym. }
  exists (sorted_by by_created_desc (found v ids)). split.
  - unfold find_by_status. unfold bindM at 1. rewrite (ensure_all_calm _ _ B v) by done.
    unfold bindM at 1. rewrite get_connection_calm by done. unfold bindM at 1.
    rewrite foldM_query, (keyspace_of_primary _ _ _ _ _ Hs) by done. fold k all_ids.
    rewrite app_nil_l. fold ids.
    destruct (decide (all_ids = [])) as [Ea|Ea]; [unfold ids; by rewrite Ea|].
    assert (forall X Y : Repo (list TransactionRepoModel),
      match all_ids with [] => X | _ :: _ => Y end = Y) as -> by (intros; by destruct all_ids).
    unfold bindM. by rewrite (get_transactions_by_ids_calm U _ _ B v) by done.
  - split_and!.
    + rewrite sorted_by_perm. by apply (found_NoDup B v s).
    + apply sorted_by_sorted, by_created_antisym.
    + intros t. rewrite sorted_by_perm, found_elem. split.
      * intros (id & (st & Hin & Hl)%Hids & Ht). exists id. split; [done|].
        apply (Hst rid st id) in Hl as (t' & Ht' & Hr & Hs'). simplify_eq. split; [done|].
        by apply status_in_spec.
      * intros (id & Ht & Hr & Hin%status_in_spec). exists id. split; [|done]. apply Hids.
        exists (tx_status t). split; [done|]. apply (Hst rid _ id). eauto.
Qed.

Lemma size_filter_cons rid st sts (v : store) :
  st ∉ sts ->
  size (filter (fun kv => tx_relayer_id kv.2 = rid /\ tx_status kv.2 ∈ st :: sts) v) =
  (size (filter (fun kv => tx_relayer_id kv.2 = rid /\ tx_status kv.2 = st) v) +
   size (filter (fun kv => tx_relayer_id kv.2 = rid /\ tx_status kv.2 ∈ sts) v))%nat.
Proof.
  intros Hni. rewrite <- map_size_disj_union.
  - f_equal. apply map_eq. intros id. apply option_eq. intros t.
    rewrite lookup_union_Some_raw, !map_lookup_filter_Some, map_lookup_filter_None. simpl.
    rewrite elem_of_cons. destruct (decide (tx_status t = st)) as [E|E]; [naive_solver|].
    split; [|naive_solver]. intros (Ht & Hr & [?|Hin]); [done|]. right. split; [|done].
    right. intros t' Ht' [_ E']. by simplify_eq.
  - apply map_disjoint_spec. intros id t t' [Ht [_ Hs]]%map_lookup_filter_Some
      [Ht' [_ Hs']]%map_lookup_filter_Some. simpl in *. by simplify_eq.
Qed.

Lemma count_by_status_calm rid sts B v s :
  settled U B v s -> NoDup sts ->
  count_by_status rid sts s =
  (Ok (Z.of_nat (size (filter (fun kv => tx_relayer_id kv.2 = rid /\ tx_status kv.2 ∈ sts) v))), s).
Proof.
  intros Hset Hnd. pose proof Hset as (Hc & Hs & Hst & _).
  assert (forall st, ZCARD (sorted (Redis.primary s) !!! (rid, st)) =
    Z.of_nat (size (filter (fun kv => tx_relayer_id kv.2 = rid /\ tx_status kv.2 = st) v))) as Hcard.
  { intros st. unfold ZCARD. f_equal. rewrite <- !size_dom. f_equal. apply set_eq. intros id.
    rewrite !elem_of_dom. fold (listed (Redis.primary s) rid st id). rewrite (Hst rid st id). split.
    - intros (t & Ht & Hp). exists t. by apply map_lookup_filter_Some.
    - intros [t [Ht Hp]%map_lookup_filter_Some]. eauto. }
  unfold count_by_status. unfold bindM at 1. rewrite get_connection_calm by done.
  rewrite <- (Z.add_0_l (Z.of_nat _)). generalize 0 as acc.
  induction Hnd as [|st sts Hni Hnd IH]; intros acc.
  { simpl. unfold retM. do 2 f_equal. replace (filter _ v) with (∅ : store).
    - by rewrite map_size_empty, Z.add_0_r.
    - symmetry. apply map_empty. intros id. apply map_lookup_filter_None. right.
      intros t _ [_ Hin]. by apply elem_of_nil in Hin. }
  cbn [foldM]. unfold bindM at 1. unfold bindM at 1.
  rewrite (ensure_status_sorted_set_calm _ _ B v) by done.
  unfold bindM at 1. rewrite query_calm, (keyspace_of_primary _ _ _ _ _ Hs), Hcard by done.
  unfold retM at 1. rewrite IH. do 2 f_equal. rewrite <- Z.add_assoc. f_equal.
  rewrite <- Nat2Z.inj_add. f_equal. symmetry. apply size_filter_cons. done.
Qed.

(** ** Calls without failures *)

(** What a call leaves settled. *)
Definition rests (B : Z) (v : store) (s s' : Redis.state) : Prop :=
  settled U B v s -> settled U B v s'.

#[local] Instance rests_preorder B v : PreOrder (rests B v).
Proof. split; [by intros s Hs|]. intros a b c Hab Hbc Ha. by apply Hbc, Hab. Qed.

Lemma rests_leaves `{HashEntries Z} key_prefix B v o :
  Runs.leaves_store o = true -> preserves (rests B v) (Runs.run key_prefix o).
Proof.
  apply Runs.reads_preserve; [exact _|..].
  - intros context s Hs. by rewrite get_connection_calm by apply Hs.
  - intros A p f context s Hs. by rewrite query_calm by apply Hs.
  - intros rid st s Hs. by rewrite (ensure_status_sorted_set_calm _ _ B v) by apply Hs.
  - intros A f Hf s Hs. rewrite invoke_calm by apply Hs. cbn [snd].
    destruct (Hf (Redis.primary s)) as [g ->]. destruct Hs as (Hc & Hh & He).
    split; [done|]. split; [|done]. eapply holds_moves; [|done]. done.
Qed.

(** *** The sweep finds nothing to repair *)

Lemma elem_of_ZRANGEBYSCORE z m offset count id :
  id ∈ ZRANGEBYSCORE z m offset count -> is_Some (z !! id).
Proof.
  unfold ZRANGEBYSCORE. intros Hin. apply (elem_of_ZRANGE_all z false id).
  unfold ZRANGE. rewrite zrange_all.
  apply (subseteq_take count), (subseteq_drop offset), list_elem_of_In in Hin.
  apply in_map_iff in Hin as (kv & <- & [Hin _]%filter_In). by apply list_elem_of_In, in_map.
Qed.

Lemma sweep_leaves rid st mode ids id (v : store) :
  (forall id t, v !! id = Some t -> tx_id t = id) ->
  (forall id, id ∈ ids -> exists t, v !! id = Some t /\ tx_status t = st) -> id ∈ ids ->
  reconcile_entry rid st mode {| br_results := found v ids; br_failed_ids := unknown v ids |} id
  = [].
Proof.
  intros Hv Hids Hin. unfold reconcile_entry. cbn [br_failed_ids br_results].
  destruct (Hids id Hin) as (t & Ht & Hp). rewrite bool_decide_eq_false_2.
  2:{ unfold unknown. rewrite list_elem_of_In, filter_In, bool_decide_eq_true. intros [_ ?]. congruence. }
  destruct mode; [|done]. destruct (find _ _) as [t'|] eqn:Ef; [|done].
  apply find_some in Ef as [Hin' Heq%String.eqb_eq].
  apply in_rev, list_elem_of_In, found_elem in Hin' as (id' & _ & Ht').
  assert (t' = t) as -> by (pose proof (Hv _ _ Ht'); congruence).
  assert (status_eqb (tx_status t) st = true) as -> by (rewrite Hp; by destruct st).
  by rewrite andb_false_r.
Qed.

Lemma reconcile_loop_settled fuel rid st cutoff mode offset total B v s :
  settled U B v s -> reconcile_loop fuel rid st cutoff mode offset total s = (Ok total, s).
Proof.
  intros Hset. pose proof Hset as (Hc & Hs & Hst & _). revert offset.
  induction fuel as [|fuel IH]; intros offset; [done|]. cbn [reconcile_loop].
  unfold bindM at 1. rewrite get_connection_calm by done. unfold bindM at 1.
  rewrite query_calm, (keyspace_of_primary _ _ _ _ _ Hs) by done.
  set (ids := ZRANGEBYSCORE _ _ _ _).
  assert (forall id, id ∈ ids -> exists t, v !! id = Some t /\ tx_status t = st) as Hids.
  { intros id Hin%elem_of_ZRANGEBYSCORE. apply (Hst rid st id) in Hin as (t & Ht & _ & Hp). eauto. }
  destruct (decide (ids = [])) as [->|Hne]; [done|].
  assert (forall X Y : Repo Z, match ids with [] => X | _ :: _ => Y end = Y) as ->
    by (intros; by destruct ids).
  unfold bindM at 1, get_transactions_by_ids.
  rewrite (get_transactions_by_ids_calm U _ _ B v) by done. cbv zeta.
  set (batch := {| br_results := _; br_failed_ids := _ |}).
  assert (reconcile_entry rid st mode batch <$> ids = replicate (length ids) []) as ->.
  { apply const_fmap. intros i id Hid%list_elem_of_lookup_2. apply sweep_leaves; [|done|done].
    by apply (settled_ids U B v s). }
  replace (length (List.filter _ (replicate (length ids) ([] : list cmd)))) with 0%nat
    by (induction (length ids); [done|simpl; done]).
  by apply IH.
Qed.

Lemma reconcile_settled now rid B v s :
  settled U B v s -> reconcile_stale_status_indexes now rid s = (Ok 0, s).
Proof.
  intros Hs.
  assert (forall cutoff mode sts,
    foldM (fun total st => let* repaired := reconcile_status_index rid st cutoff mode in
                           retM (total + repaired)) 0 sts s = (Ok 0, s)) as Hf.
  { intros cutoff mode sts. induction sts as [|st sts IH]; [done|]. cbn [foldM].
    unfold bindM at 1. unfold bindM at 1. unfold reconcile_status_index at 1.
    rewrite (reconcile_loop_settled _ _ _ _ _ _ _ B v) by exact Hs. exact IH. }
  unfold reconcile_stale_status_indexes. unfold bindM at 1. rewrite Hf. apply Hf.
Qed.
End Answers.

Module Answers.
Section Answers.
Context `{Chrono} `{ServerConfig} `{JsonFloat} `{ForeignSerde} `{LuaJson} `{JsonText}
  `{SetOrder} `{HashEntries Z} (key_prefix : string).
Import Runs.

(** *** Runs without failures *)

(** What a call does to the store when nothing fails. *)
Definition apply_op (o : op) (v : store) : store :=
  match o with
  | OpCreate t => <[tx_id t := t]> v
  | OpPartialUpdate now id u => alter (guarded now u) id v
  | OpIncrementFailures id => alter (count_edit bump_failures (fun t => t)) id v
  | OpResetFailures id => alter (count_edit clear_failures (fun t => t)) id v
  | OpInsufficientFeeRetry id at_ =>
      alter (count_edit bump_fee_retries (set_tx_sent_at (Some at_))) id v
  | OpTryAgainLaterRetry id at_ =>
      alter (count_edit bump_later_retries (set_tx_sent_at (Some at_))) id v
  | OpDelete id => without {[id]} v
  | OpDeleteRequests reqs => without (list_to_set (dr_id <$> reqs)) v
  | OpDeleteIds ids => without (list_to_set ids) v
  | _ => v
  end.

Definition apply_all (ops : list op) (v : store) : store := fold_left (fun v o => apply_op o v) ops v.

(** The calls keep to their part: no two transactions of a relayer are given one nonce, and a
    deletion names the transactions as they are stored.  [drop_all_entries] is left out: it
    leaves the nonce index behind. *)
Definition fits (U : gset string) (B : Z) (v : store) (o : op) : Prop :=
  op_ok U B o /\
  match o with
  | OpCreate t => tx_id t <> ""%string /\ nonce_free v t
  | OpPartialUpdate now id u => forall t, v !! id = Some t -> nonce_free v (guarded now u t)
  | OpDelete id => id <> ""%string
  | OpDeleteRequests reqs => Forall (accurate v) reqs /\ NoDup (dr_id <$> reqs)
  | OpDeleteIds ids => NoDup ids
  | OpDropAll => False
  | _ => True
  end.

Fixpoint all_fit (U : gset string) (B : Z) (v : store) (ops : list op) : Prop :=
  match ops with
  | [] => True
  | o :: ops' => fits U B v o /\ all_fit (used o ∪ U) B (apply_op o v) ops'
  end.

Lemma settled_mono U B B' v s : B <= B' -> settled U B v s -> settled U B' v s.
Proof. intros HB (Hc & Hs & He). split; [done|]. split; [by eapply holds_mono|done]. Qed.

Lemma create_settles U t B v s :
  settled U B v s -> fits U B v (OpCreate t) -> B <= u32_max ->
  settled ({[tx_id t]} ∪ U) B (<[tx_id t := t]> v) (snd (run key_prefix (OpCreate t) s)).
Proof.
  intros Hset ((HU & Hst & Hle) & Hid & Hfree) HB. pose proof Hset as (_ & Hs & _). cbn [run].
  apply (wp_ignore _ (settled ({[tx_id t]} ∪ U) B (<[tx_id t := t]> v))).
  eapply wp_mono; [|apply wp_conj; [by apply (create_calm U t B v s)|by apply (create_spec U t B v)]].
  intros r s' [(-> & Hc & He) [[_ [e He']]|(_ & Hh & _)]]; [done|]. by split.
Qed.

Lemma partial_update_settles U now id u B v s :
  settled U B v s -> fits U B v (OpPartialUpdate now id u) -> B + 3 <= u32_max ->
  settled U (B + 3) (alter (guarded now u) id v) (snd (run key_prefix (OpPartialUpdate now id u) s)).
Proof.
  intros Hset [Hok Hfree] HB. pose proof Hset as (_ & Hs & _). cbn [run].
  apply (wp_ignore _ (settled U (B + 3) (alter (guarded now u) id v))).
  eapply wp_mono; [|apply wp_conj; [apply (partial_update_calm U now id u B v s); [done|done|lia|done]|
    by apply (partial_update_spec U now id u B v)]].
  intros r s' [(-> & Hc & He) Hh]. split; [done|]. split; [|done].
  destruct (v !! id) as [t|] eqn:Ev.
  - destruct Hh as [[_ [e ?]]|(t0 & [= <-] & Hh & _)]; [done|]. by rewrite (alter_Some _ _ _ t).
  - destruct Hh as [[Hh _]|(t0 & ? & _)]; [|done]. by rewrite alter_None.
Qed.

Lemma delete_settles U id B v s :
  settled U B v s -> id <> ""%string ->
  settled U B (without {[id]} v) (snd (run key_prefix (OpDelete id) s)).
Proof.
  intros Hset Hid. pose proof Hset as (_ & Hs & _). cbn [run].
  apply (wp_ignore _ (settled U B (without {[id]} v))).
  eapply wp_mono; [|apply wp_conj; [by apply (delete_by_id_calm U id B v s)|
    by apply (delete_by_id_spec U id B v)]].
  intros r s' [(-> & Hc & He) Hh]. split; [done|]. split; [|done]. case_bool_decide as Hv.
  - by destruct Hh as [[_ [e ?]]|[_ Hh]].
  - destruct Hh as [[Hh _]|[? _]]; [|done]. rewrite without_singleton, delete_id; [done|].
    by apply eq_None_not_Some.
Qed.

Lemma keeps_in_settles {A} U (c : Repo A) B v r s :
  wp c (keeps_in U B v r) s -> settled U B v (snd (ignore c s)).
Proof.
  intros Hc. apply (wp_ignore _ (settled U B v)). eapply wp_mono; [|done]. by intros r' s' [_ Hs].
Qed.

Lemma count_settles U id edit f retouch g op_name B v s :
  settled U B v s -> B + 3 <= u32_max ->
  implements U B id (metadata_script id edit retouch) (count_edit f g)
    (fun j _ t' => tx_of_json j = Some t') ->
  (forall t, tx_relayer_id (g t) = tx_relayer_id t /\ tx_status (g t) = tx_status t /\
             tx_created_at (g t) = tx_created_at t /\ tx_network_data (g t) = tx_network_data t) ->
  settled U (B + 3) (alter (count_edit f g) id v)
    (snd (ignore (run_atomic_script (metadata_script id edit retouch) id op_name) s)).
Proof.
  intros Hs HB Hi Hg. eapply (settled_mono _ (B + 1)); [lia|].
  eapply keeps_in_settles, atomic_script_calm; [done|lia|done|done].
Qed.

Lemma run_settles U o B v s :
  settled U B v s -> fits U B v o -> B + 3 <= u32_max ->
  settled (used o ∪ U) (B + 3) (apply_op o v) (snd (run key_prefix o s)).
Proof.
  intros Hs Hfit HB. destruct (leaves_store o) eqn:El.
  { replace (used o ∪ U) with U by (destruct o; try done; set_solver).
    replace (apply_op o v) with v by by destruct o.
    eapply settled_mono; [|by apply rests_leaves]. lia. }
  assert (forall v' s', settled U B v' s' -> settled U (B + 3) v' s') as Hup
    by (intros v' s'; apply settled_mono; lia).
  destruct o; try done; cbn [used apply_op]; rewrite ?(left_id_L ∅ (∪) U).
  - eapply settled_mono; [|apply create_settles; [done|done|lia]]. lia.
  - by apply partial_update_settles.
  - apply count_settles; [done|done|apply increment_implements|done].
  - apply count_settles; [done|done|apply reset_implements|done].
  - apply count_settles; [done|done|apply fee_retry_implements|by intros []].
  - apply count_settles; [done|done|apply later_retry_implements|by intros []].
  - apply Hup, delete_settles; [done|apply Hfit].
  - destruct Hfit as (_ & Hacc & Hnd). eapply Hup, keeps_in_settles. by apply delete_by_requests_calm.
  - destruct Hfit as (_ & Hnd). eapply Hup, keeps_in_settles. by apply delete_by_ids_calm.
  - by destruct Hfit.
  - apply Hup. cbn [run]. unfold ignore, bindM, try_. by rewrite (reconcile_settled U now relayer_id B v s).
Qed.

Lemma fits_named U B v o : fits U B v o -> named v -> named (apply_op o v).
Proof.
  assert (forall F id, named v -> named (alter F id v)) as Ha.
  { unfold named. intros F id Hv. apply eq_None_not_Some.
    rewrite lookup_alter_is_Some, Hv. by intros []. }
  assert (forall X, named v -> named (without X v)) as Hw.
  { intros X Hv. apply map_lookup_filter_None. by left. }
  intros [_ Hfit]. destruct o; cbn [apply_op]; try done; auto.
  unfold named. rewrite lookup_insert_ne; [done|]. apply Hfit.
Qed.

Lemma fits_mono U B B' v o : B <= B' -> fits U B v o -> fits U B' v o.
Proof. intros HB [Hok Hfit]. split; [by eapply op_ok_mono|done]. Qed.

Lemma all_fit_mono U B B' v ops : B <= B' -> all_fit U B v ops -> all_fit U B' v ops.
Proof.
  intros HB. revert U v. induction ops as [|o ops IH]; intros U v; [done|]. simpl.
  intros [Ho Hops]. split; [by eapply fits_mono|by apply IH].
Qed.

Lemma runs_settle U ops B v s :
  settled U B v s -> named v -> all_fit U B v ops -> B + 3 * Z.of_nat (length ops) <= u32_max ->
  exists U' B', settled U' B' (apply_all ops v) (run_all key_prefix ops s) /\
                named (apply_all ops v).
Proof.
  revert U B v s. induction ops as [|o ops IH]; intros U B v s Hs Hnm Hfit HB; [by eauto|].
  destruct Hfit as [Ho Hops]. simpl length in HB.
  apply (IH (used o ∪ U) (B + 3)); [apply run_settles; [done..|lia]|by eapply fits_named| |lia].
  eapply all_fit_mono; [|done]. lia.
Qed.

End Answers.

(** ** Witness *)

#[local] Existing Instances sample_chrono sample_config sample_float sample_lua sample_serde
  sample_text sample_sets sample_entries.
Import Runs.

Definition second_tx : TransactionRepoModel :=
  sample_tx "t2" Pending [] (sample_data (Some 8) None None).

Definition calm_ops : list op :=
  [OpCreate demo_tx; OpPartialUpdate 5 "t1" (to_status Confirmed); OpCreate second_tx;
   OpIncrementFailures "t2"; OpDelete "t1"].

Lemma sample_settled : settled ∅ 0 ∅ (sample_server []).
Proof.
  split; [done|]. split; [apply sample_holds|].
  split; [|split]; unfold status_exact, created_exact, nonce_exact, listed; intros; split;
    try (intros [t [Ht _]]; by rewrite lookup_empty in Ht).
  - intros [x Hx]. by vm_compute in Hx.
  - intros Hx. by vm_compute in Hx.
  - intros Hx. by vm_compute in Hx.
Qed.

Lemma nonce_free_insert v t0 t :
  nonce_free v t -> (tx_id t0 = tx_id t \/ nonce_of t0 <> nonce_of t) ->
  nonce_free (<[tx_id t0 := t0]> v) t.
Proof.
  intros Hv Hd id' t' [[<- <-]|[_ Ht']]%lookup_insert_Some; [|by apply Hv].
  intros Hne _ _. by destruct Hd.
Qed.

Lemma nonce_free_empty t : nonce_free ∅ t.
Proof. intros id' t' Ht'. by rewrite lookup_empty in Ht'. Qed.

End Answers.
