(* ===== verification/Health.v ===== *)
(** * RPC health records

    The shared store of [services/provider/rpc_health_store.rs]: failure times per RPC URL, the
    pause that enough recent failures cause, and the check that cleans up behind itself.
    Instants and durations are nanoseconds.  The check is shown equal to its slow path, and the
    whole store, with its trimming and cleaning, to a specification that never forgets a
    failure. *)

From S2P Require Import Prelude.
Open Scope Z_scope.

Record RpcConfigMetadata := {
  failure_timestamps : list Z;
  paused_until : option Z;
}.

Definition metadata_empty : RpcConfigMetadata :=
  {| failure_timestamps := []; paused_until := None |}.

Abbreviation RpcHealthStore := (gmap string RpcConfigMetadata) (only parsing).

Definition get_metadata (url : string) (s : RpcHealthStore) : RpcConfigMetadata :=
  default metadata_empty (s !! url).

Definition update_metadata (url : string) (m : RpcConfigMetadata) (s : RpcHealthStore)
  : RpcHealthStore := <[url := m]> s.

(** [failure_timestamps.retain(|ts| now - ts <= failure_expiration)] *)
Definition retain_recent (now expiration : Z) (l : list Z) : list Z :=
  List.filter (fun ts => now - ts <=? expiration) l.

(** [drain(0..len - max_size)] when longer than [max_size]. *)
Definition keep_last (n : nat) (l : list Z) : list Z := drop (length l - n) l.

(** [(threshold * 2) as usize], a [u32] product. *)
Definition max_size (threshold : Z) : nat := Z.to_nat (wrapu 32 (threshold * 2)).

(** [failure_timestamps.len() as u32] *)
Definition count_u32 (l : list Z) : Z := wrapu 32 (Z.of_nat (length l)).

Definition mark_failed (now : Z) (url : string) (threshold pause_duration expiration : Z)
    (s : RpcHealthStore) : RpcHealthStore :=
  let metadata := get_metadata url s in
  let recent := retain_recent now expiration (failure_timestamps metadata) ++ [now] in
  let kept := keep_last (max_size threshold) recent in
  let paused := if threshold <=? count_u32 kept then Some (now + pause_duration)
                else paused_until metadata in
  <[url := {| failure_timestamps := kept; paused_until := paused |}]> s.

Definition reset_failures (url : string) (s : RpcHealthStore) : RpcHealthStore := delete url s.

Definition reset_failures_if_exists (url : string) (s : RpcHealthStore) : bool * RpcHealthStore :=
  (bool_decide (is_Some (s !! url)), delete url s).

Definition before_opt (now : Z) (o : option Z) : bool :=
  match o with Some t => now <? t | None => false end.

Definition expired_opt (now : Z) (o : option Z) : bool :=
  match o with Some t => t <=? now | None => false end.

Definition is_none {A} (o : option A) : bool := match o with None => true | Some _ => false end.
Definition is_nil {A} (l : list A) : bool := match l with [] => true | _ => false end.

(** [is_paused_with_cleanup], under the write lock. *)
Definition is_paused_with_cleanup (now : Z) (url : string) (threshold expiration : Z)
    (s : RpcHealthStore) : bool * RpcHealthStore :=
  match s !! url with
  | None => (false, s)
  | Some meta =>
      let recent := retain_recent now expiration (failure_timestamps meta) in
      if expired_opt now (paused_until meta) then
        (false, if is_nil recent then delete url s
                else <[url := {| failure_timestamps := recent; paused_until := None |}]> s)
      else
        let s' := <[url := {| failure_timestamps := recent;
                              paused_until := paused_until meta |}]> s in
        if threshold <=? count_u32 recent then (before_opt now (paused_until meta), s')
        else (false, if is_nil recent && is_none (paused_until meta) then delete url s' else s')
  end.

(** [is_paused]: the answer under the read lock when nothing has to be cleaned up. *)
Definition is_paused (now : Z) (url : string) (threshold expiration : Z) (s : RpcHealthStore)
  : bool * RpcHealthStore :=
  match s !! url with
  | None => (false, s)
  | Some meta =>
      let has_stale_failures :=
        existsb (fun ts => expiration <? now - ts) (failure_timestamps meta) in
      let pause_expired := expired_opt now (paused_until meta) in
      let needs_cleanup := is_nil (failure_timestamps meta) && is_none (paused_until meta) in
      if has_stale_failures || pause_expired || needs_cleanup
      then is_paused_with_cleanup now url threshold expiration s
      else ((threshold <=? count_u32 (failure_timestamps meta)) &&
              before_opt now (paused_until meta), s)
  end.

(** ** The read-lock path *)

Lemma retain_recent_all now e l :
  existsb (fun ts => e <? now - ts) l = false -> retain_recent now e l = l.
Proof.
  induction l as [|t l IH]; simpl; [done|]. intros [H1 H2]%orb_false_iff.
  rewrite (IH H2). by rewrite (proj2 (Z.leb_le _ _) (proj1 (Z.ltb_ge _ _) H1)).
Qed.

(** The check that first looks under the read lock and takes the write lock only when
    something has to be cleaned up gives the same answer as the cleaning check, and leaves the
    same store behind. *)
Theorem read_path_equivalent now url threshold expiration s :
  is_paused now url threshold expiration s =
  is_paused_with_cleanup now url threshold expiration s.
Proof.
  unfold is_paused. destruct (s !! url) as [[fs p]|] eqn:Hs;
    [|by unfold is_paused_with_cleanup; rewrite Hs].
  case_match eqn:Hc; [done|]. apply orb_false_iff in Hc as [[Hst Hex]%orb_false_iff Hcl].
  unfold is_paused_with_cleanup. rewrite Hs. simpl in *.
  rewrite (retain_recent_all _ _ _ Hst), Hex, Hcl, insert_id by done.
  by destruct (threshold <=? count_u32 fs).
Qed.

(** ** A specification that forgets nothing *)

Section Window.
Context (threshold pause_duration expiration : Z).

(** All failures of the endpoint since the last reset, and the end of the last pause. *)
Record history := { failures : list Z; pause_end : option Z }.

Definition history_empty : history := {| failures := []; pause_end := None |}.

Definition recent_count (t : Z) (h : history) : Z :=
  Z.of_nat (length (retain_recent t expiration (failures h))).

Definition spec_fail (t : Z) (h : history) : history :=
  let h' := {| failures := failures h ++ [t]; pause_end := pause_end h |} in
  if threshold <=? recent_count t h'
  then {| failures := failures h'; pause_end := Some (t + pause_duration) |} else h'.

Definition spec_paused (t : Z) (h : history) : bool :=
  (threshold <=? recent_count t h) && before_opt t (pause_end h).

Inductive health_op : Type :=
| HFail (url : string)
| HQuery (url : string)
| HReset (url : string).

Abbreviation spec_state := (gmap string history) (only parsing).

Definition spec_get (url : string) (s : spec_state) : history := default history_empty (s !! url).

(** One operation at time [t]; queries give an answer. *)
Definition spec_exec (t : Z) (o : health_op) (s : spec_state) : option bool * spec_state :=
  match o with
  | HFail url => (None, <[url := spec_fail t (spec_get url s)]> s)
  | HQuery url => (Some (spec_paused t (spec_get url s)), s)
  | HReset url => (None, delete url s)
  end.

Definition store_exec (t : Z) (o : health_op) (s : RpcHealthStore)
  : option bool * RpcHealthStore :=
  match o with
  | HFail url => (None, mark_failed t url threshold pause_duration expiration s)
  | HQuery url => let '(b, s') := is_paused t url threshold expiration s in (Some b, s')
  | HReset url => (None, reset_failures url s)
  end.

Fixpoint answers {S} (exec : Z -> health_op -> S -> option bool * S)
    (ops : list (Z * health_op)) (s : S) : list (option bool) :=
  match ops with
  | [] => []
  | (t, o) :: ops' => let '(r, s') := exec t o s in r :: answers exec ops' s'
  end.

(** Clock readings do not go back. *)
Fixpoint clock_ok (now : Z) (ops : list (Z * health_op)) : Prop :=
  match ops with
  | [] => True
  | (t, _) :: ops' => now <= t /\ clock_ok t ops'
  end.

(** ** The store implements the specification *)

Abbreviation recents t l := (retain_recent t expiration l) (only parsing).

Lemma retain_app t l l' : recents t (l ++ l') = recents t l ++ recents t l'.
Proof. apply List.filter_app. Qed.

Lemma retain_retain t t' l : t <= t' -> recents t' (recents t l) = recents t' l.
Proof.
  intros Ht. induction l as [|x l IH]; simpl; [done|].
  destruct (Z.leb_spec (t - x) expiration); simpl; rewrite IH; [done|].
  destruct (Z.leb_spec (t' - x) expiration); [lia|done].
Qed.

Lemma retain_le t l : (length (recents t l) <= length l)%nat.
Proof. apply List.filter_length_le. Qed.

Lemma retain_after t x l :
  Forall (Z.le x) l -> t - x <= expiration -> recents t l = l.
Proof.
  intros Hx Ht. apply retain_recent_all. induction Hx as [|y l Hy Hx IH]; simpl; [done|].
  rewrite IH, orb_false_r. apply Z.ltb_ge. lia.
Qed.

(** In a sorted list the recent failures are the last ones. *)
Lemma retain_keep_last t n l :
  StronglySorted Z.le l ->
  length (recents t (keep_last n l)) = (length (recents t l) `min` n)%nat.
Proof.
  unfold keep_last. intros Hs. induction Hs as [|x l Hs IH Hx]; [done|].
  destruct (decide (S (length l) <= n)%nat) as [Hle|Hgt].
  - replace (length (x :: l) - n)%nat with 0%nat by (simpl; lia). rewrite drop_0.
    pose proof (retain_le t (x :: l)) as Hb. change (length (x :: l)) with (S (length l)) in Hb.
    lia.
  - replace (length (x :: l) - n)%nat with (S (length l - n)) by (simpl; lia).
    change (drop (S (length l - n)) (x :: l)) with (drop (length l - n) l). rewrite IH.
    change (recents t (x :: l))
      with (if t - x <=? expiration then x :: recents t l else recents t l).
    destruct (Z.leb_spec (t - x) expiration) as [Hr|]; [|done].
    rewrite (retain_after t x l Hx Hr). cbn [length]. lia.
Qed.

Lemma retain_forall t (P : Z -> Prop) l : Forall P l -> Forall P (recents t l).
Proof.
  rewrite !Forall_forall. intros HP x Hx. apply HP.
  apply list_elem_of_In in Hx. apply List.filter_In in Hx as [Hx _]. by apply list_elem_of_In.
Qed.

Lemma retain_sorted t l : StronglySorted Z.le l -> StronglySorted Z.le (recents t l).
Proof.
  induction 1 as [|x l Hs IH Hx]; simpl; [constructor|].
  case_match; [constructor; [done|by apply retain_forall]|done].
Qed.

Lemma sorted_snoc l t : StronglySorted Z.le l -> Forall (fun x => x <= t) l ->
  StronglySorted Z.le (l ++ [t]).
Proof.
  induction 1 as [|x l Hs IH Hx]; intros Hle; simpl; [repeat constructor|].
  inversion Hle; subst. constructor; [by apply IH|]. apply Forall_app. auto.
Qed.

Lemma sorted_drop n (l : list Z) : StronglySorted Z.le l -> StronglySorted Z.le (drop n l).
Proof.
  intros Hs. revert n. induction Hs as [|x l Hs IH Hx]; intros n.
  - rewrite drop_nil. constructor.
  - destruct n; simpl; [by constructor|by apply IH].
Qed.

Context (threshold_pos : 0 < threshold) (threshold_small : threshold * 2 < 2 ^ 32)
  (expiration_nonneg : 0 <= expiration).

Let M : nat := Z.to_nat (threshold * 2).

(** A record after the failures of [h], seen from time [now] on: its list is as good as the
    full one up to [M] failures, and a pause it has dropped is over. *)
Definition tracks (now : Z) (m : RpcConfigMetadata) (h : history) : Prop :=
  StronglySorted Z.le (failure_timestamps m) /\
  Forall (fun x => x <= now) (failure_timestamps m) /\
  (length (failure_timestamps m) <= M)%nat /\
  (forall t, now <= t ->
     (length (recents t (failure_timestamps m)) `min` M)%nat =
     (length (recents t (failures h)) `min` M)%nat) /\
  (paused_until m = pause_end h \/
   (paused_until m = None /\ expired_opt now (pause_end h) = true)).

Definition store_tracks (now : Z) (s : RpcHealthStore) (h : spec_state) : Prop :=
  forall url, tracks now (get_metadata url s) (spec_get url h).

Lemma max_size_M : max_size threshold = M.
Proof. unfold max_size, M. by rewrite wrapu_small by (unfold in_u; lia). Qed.

Lemma expired_mono now t o : now <= t -> expired_opt now o = true -> expired_opt t o = true.
Proof. destruct o; simpl; [|done]. rewrite !Z.leb_le. lia. Qed.

Lemma tracks_later now t m h : now <= t -> tracks now m h -> tracks t m h.
Proof.
  intros Ht (Hs & Hle & Hl & Hr & Hp). split_and!; [done| |done| |].
  - eapply Forall_impl; [done|]. simpl. lia.
  - intros u Hu. apply Hr. lia.
  - destruct Hp as [?|[? ?]]; [by left|right]. split; [done|]. by eapply expired_mono.
Qed.
Lemma keep_last_le n (l : list Z) : (length (keep_last n l) <= n)%nat.
Proof. unfold keep_last. rewrite length_drop. lia. Qed.

Lemma count_u32_small l : (length l <= M)%nat -> count_u32 l = Z.of_nat (length l).
Proof. intros Hl. unfold count_u32. apply wrapu_small. unfold in_u, M in *. lia. Qed.

(** The failures kept by [mark_failed] at time [t] are counted as the full list is. *)
Lemma kept_count now t m h u :
  tracks now m h -> now <= t -> t <= u ->
  let kept := keep_last M (recents t (failure_timestamps m) ++ [t]) in
  (length (recents u kept) `min` M)%nat = (length (recents u (failures h ++ [t])) `min` M)%nat.
Proof.
  intros (Hs & Hle & _ & Hr & _) Ht Hu kept. unfold kept.
  rewrite retain_keep_last.
  - rewrite !retain_app, retain_retain, !length_app by done. specialize (Hr u). lia.
  - apply sorted_snoc; [by apply retain_sorted|].
    apply retain_forall. eapply Forall_impl; [exact Hle|]. simpl. lia.
Qed.

Lemma retain_recent_now t l :
  Forall (fun x => x <= t) l -> recents t (recents t l ++ [t]) = recents t l ++ [t].
Proof.
  intros Hl. rewrite retain_app, retain_retain by lia. simpl.
  by rewrite Z.sub_diag, (proj2 (Z.leb_le _ _) expiration_nonneg).
Qed.

(** ... and their number tells whether the threshold is reached. *)
Lemma kept_threshold now t m h :
  tracks now m h -> now <= t ->
  (threshold <=? count_u32 (keep_last M (recents t (failure_timestamps m) ++ [t]))) =
  (threshold <=? Z.of_nat (length (recents t (failures h ++ [t])))).
Proof.
  intros Hm Ht. pose proof (kept_count _ t _ _ t Hm Ht (Z.le_refl t)) as Hk. simpl in Hk.
  destruct Hm as (Hs & Hle & _).
  rewrite count_u32_small by apply keep_last_le.
  rewrite retain_keep_last, retain_recent_now in Hk.
  - unfold keep_last. rewrite length_drop. apply eq_true_iff_eq. rewrite !Z.leb_le.
    unfold M in *. lia.
  - eapply Forall_impl; [exact Hle|]. simpl. lia.
  - apply sorted_snoc; [by apply retain_sorted|].
    apply retain_forall. eapply Forall_impl; [exact Hle|]. simpl. lia.
Qed.

Lemma tracks_fail now t url s h :
  store_tracks now s h -> now <= t ->
  store_tracks t (mark_failed t url threshold pause_duration expiration s)
    (<[url := spec_fail t (spec_get url h)]> h).
Proof.
  intros Hst Ht url'. destruct (decide (url = url')) as [<-|Hne].
  2: { unfold mark_failed, get_metadata, spec_get. rewrite !lookup_insert_ne by done.
       exact (tracks_later now t _ _ Ht (Hst url')). }
  pose proof (Hst url) as Hm. pose proof (kept_threshold _ t _ _ Hm Ht) as Hth.
  unfold mark_failed, spec_fail, recent_count.
  unfold get_metadata at 1, spec_get at 1. rewrite !lookup_insert_eq, max_size_M, Hth. simpl.
  set (kept := keep_last M _). split_and!; simpl.
  - apply sorted_drop, sorted_snoc; [apply retain_sorted, Hm|].
    apply retain_forall. eapply Forall_impl; [apply Hm|]. simpl. lia.
  - apply Forall_drop, Forall_app. split; [|by repeat constructor].
    apply retain_forall. eapply Forall_impl; [apply Hm|]. simpl. lia.
  - apply keep_last_le.
  - intros u Hu. etransitivity; [exact (kept_count _ t _ _ u Hm Ht Hu)|].
    case_match; done.
  - case_match; simpl; [by left|].
    apply (tracks_later now t _ _ Ht Hm).
Qed.

(** Dropping what is stale at [t] and a pause that is over at [t]. *)
Lemma tracks_clean now t m h p :
  tracks now m h -> now <= t ->
  p = paused_until m \/ (p = None /\ expired_opt t (paused_until m) = true) ->
  tracks t {| failure_timestamps := recents t (failure_timestamps m); paused_until := p |} h.
Proof.
  intros Hm Ht Hp. pose proof (tracks_later _ t _ _ Ht Hm) as (Hs & Hle & Hl & Hr & Hq).
  split_and!; simpl.
  - by apply retain_sorted.
  - by apply retain_forall.
  - pose proof (retain_le t (failure_timestamps m)). lia.
  - intros u Hu. rewrite retain_retain by done. by apply Hr.
  - destruct Hp as [->|[-> Hx]]; [done|right]. split; [done|].
    destruct Hq as [<-|[_ ?]]; done.
Qed.

Lemma tracks_query_answer t m h :
  tracks t m h -> expired_opt t (paused_until m) = false ->
  (threshold <=? count_u32 (recents t (failure_timestamps m))) && before_opt t (paused_until m) =
  spec_paused t h.
Proof.
  intros (Hs & Hle & Hl & Hr & Hp) Hx. unfold spec_paused, recent_count.
  pose proof (retain_le t (failure_timestamps m)).
  rewrite count_u32_small by lia. specialize (Hr t (Z.le_refl t)).
  f_equal; [apply eq_true_iff_eq; rewrite !Z.leb_le; unfold M in *; lia|].
  destruct Hp as [->|[-> Hd]]; [done|]. destruct (pause_end h); [|done]. simpl in *.
  symmetry. apply Z.ltb_ge. by apply Z.leb_le.
Qed.

Lemma tracks_expired_answer t m h :
  tracks t m h -> expired_opt t (paused_until m) = true -> spec_paused t h = false.
Proof.
  intros (_ & _ & _ & _ & Hp) Hx. unfold spec_paused. apply andb_false_iff. right.
  assert (expired_opt t (pause_end h) = true) as Hd.
  { destruct Hp as [<-|[Hn _]]; [done|]. by rewrite Hn in Hx. }
  destruct (pause_end h); [|done]. simpl in *. apply Z.ltb_ge. by apply Z.leb_le.
Qed.

Lemma get_metadata_insert url url' m s :
  get_metadata url' (<[url := m]> s) = if decide (url = url') then m else get_metadata url' s.
Proof.
  unfold get_metadata. case_decide; [subst; by rewrite lookup_insert_eq|].
  by rewrite lookup_insert_ne.
Qed.

Lemma get_metadata_delete url url' s :
  get_metadata url' (delete url s) =
  if decide (url = url') then metadata_empty else get_metadata url' s.
Proof.
  unfold get_metadata. case_decide; [subst; by rewrite lookup_delete_eq|].
  by rewrite lookup_delete_ne.
Qed.

(** A query leaves the record cleaned, or removed when nothing is left of it. *)
Lemma cleanup_metadata t url s :
  let m := get_metadata url s in
  let '(b, s') := is_paused_with_cleanup t url threshold expiration s in
  (forall url', url <> url' -> get_metadata url' s' = get_metadata url' s) /\
  b = negb (expired_opt t (paused_until m)) &&
      (threshold <=? count_u32 (recents t (failure_timestamps m))) &&
      before_opt t (paused_until m) /\
  get_metadata url s' =
    {| failure_timestamps := recents t (failure_timestamps m);
       paused_until := if expired_opt t (paused_until m) then None else paused_until m |}.
Proof.
  unfold is_paused_with_cleanup.
  assert (get_metadata url s = default metadata_empty (s !! url)) as Hm by done.
  destruct (s !! url) as [[fs p]|] eqn:Hs; rewrite Hm; simpl.
  2: { split_and!; [done| |done]. by rewrite andb_false_r. }
  destruct (expired_opt t p); simpl.
  - destruct (recents t fs) eqn:Hf; simpl; rewrite ?get_metadata_delete, ?get_metadata_insert;
      rewrite decide_True by done; split_and!; try done; intros url' Hne;
      by rewrite ?get_metadata_delete, ?get_metadata_insert, decide_False by done.
  - destruct (threshold <=? count_u32 (recents t fs)); simpl.
    + rewrite get_metadata_insert, decide_True by done. split_and!; [|done|done].
      intros. by rewrite get_metadata_insert, decide_False by done.
    + destruct (recents t fs) eqn:Hf, p; simpl;
        rewrite ?get_metadata_delete, ?get_metadata_insert; rewrite decide_True by done;
        split_and!; try done; intros url' Hne;
        rewrite ?get_metadata_delete, ?get_metadata_insert; rewrite !decide_False by done; done.
Qed.

Lemma tracks_query now t url s h :
  store_tracks now s h -> now <= t ->
  let '(b, s') := is_paused t url threshold expiration s in
  b = spec_paused t (spec_get url h) /\ store_tracks t s' h.
Proof.
  intros Hst Ht. rewrite read_path_equivalent.
  pose proof (cleanup_metadata t url s) as Hc. simpl in Hc.
  destruct (is_paused_with_cleanup _ _ _ _ _) as [b s']. destruct Hc as (Hne & -> & Hm').
  pose proof (tracks_later _ t _ _ Ht (Hst url)) as Hm. split.
  - destruct (expired_opt t _) eqn:Hx; simpl.
    + symmetry. by eapply tracks_expired_answer.
    + by apply tracks_query_answer.
  - intros url'. destruct (decide (url = url')) as [<-|Hn].
    + rewrite Hm'. apply (tracks_clean now); [apply Hst|done|].
      destruct (expired_opt t _); [by right|by left].
    + rewrite (Hne _ Hn). apply (tracks_later now t); [done|apply Hst].
Qed.

Lemma tracks_empty now : tracks now metadata_empty history_empty.
Proof. split_and!; [constructor|constructor|simpl; lia|done|by left]. Qed.

Lemma tracks_reset now t url s h :
  store_tracks now s h -> now <= t -> store_tracks t (reset_failures url s) (delete url h).
Proof.
  intros Hst Ht url'. unfold reset_failures. rewrite get_metadata_delete.
  unfold spec_get. case_decide.
  - subst. rewrite lookup_delete_eq. apply tracks_empty.
  - rewrite lookup_delete_ne by done. apply (tracks_later now t); [done|apply Hst].
Qed.
End Window.

(** C30. The health store, which trims its lists to twice the threshold, drops stale failures
    and forgets pauses that are over, answers every sequence of failures, queries and resets,
    on any endpoints and at times that do not go back, as a record of all failures would: an
    endpoint is paused at a time exactly when at least the threshold of its failures since the
    last reset lie within the expiration window and the pause started by the last failure that
    found that many is not over. *)
Theorem health_store_refines threshold pause_duration expiration ops now :
  0 < threshold -> threshold * 2 < 2 ^ 32 -> 0 <= expiration -> clock_ok now ops ->
  answers (store_exec threshold pause_duration expiration) ops ∅ =
  answers (spec_exec threshold pause_duration expiration) ops ∅.
Proof.
  intros Hth Hsm He Hck.
  assert (forall s h, store_tracks threshold expiration now s h ->
    answers (store_exec threshold pause_duration expiration) ops s =
    answers (spec_exec threshold pause_duration expiration) ops h) as Hind.
  { revert now Hck. induction ops as [|[t o] ops IH]; intros now Hck s h Hst; simpl; [done|].
    destruct Hck as [Hle Hck]. destruct o as [url|url|url]; simpl.
    - f_equal. apply (IH t Hck). by apply (tracks_fail _ _ _ Hth Hsm He now).
    - pose proof (tracks_query _ _ Hth Hsm now t url s h Hst Hle) as Hq.
      destruct (is_paused t url threshold expiration s) as [b s']. destruct Hq as [-> Hs'].
      f_equal. by apply (IH t Hck).
    - f_equal. apply (IH t Hck). by apply (tracks_reset _ _ Hth now). }
  apply Hind. intros url. unfold get_metadata, spec_get. rewrite !lookup_empty.
  apply tracks_empty.
Qed.

Lemma health_store_refines_witness :
  answers (store_exec 2 60 100)
    [(1, HFail "a"); (2, HQuery "a"); (5, HFail "a"); (6, HQuery "a"); (6, HQuery "b");
     (70, HQuery "a"); (200, HFail "a"); (201, HQuery "a")] ∅ =
  [None; Some false; None; Some true; Some false; Some false; None; Some false].
Proof.
  rewrite (health_store_refines 2 60 100 _ 0); [reflexivity|lia|lia|lia|].
  simpl. lia.
Defined.
