(* ===== verification/Selector.v ===== *)
(** * RPC provider selection

    [services/provider/rpc_selector.rs]: the choice of an RPC endpoint among the configured
    ones, weighted at random when the weights differ and round-robin otherwise, skipping
    endpoints of weight zero, endpoints already tried and, as long as another one is left,
    endpoints that the health store has paused.  The clock and the random source are
    parameters that answer from a tick. *)

From S2P Require Import Prelude Decimal Errors Model Config Health.
Open Scope Z_scope.

Record RpcSelector := {
  sel_configs : list RpcConfig;
  sel_weights_dist : option (list Z);
  sel_next_index : Z;
  sel_current_index : nat;
  sel_has_current : bool;
  sel_failure_threshold : Z;
  sel_pause_duration_secs : Z;
  sel_failure_expiration_secs : Z;
}.

Definition set_current (i : nat) (s : RpcSelector) : RpcSelector :=
  {| sel_configs := sel_configs s; sel_weights_dist := sel_weights_dist s;
     sel_next_index := sel_next_index s; sel_current_index := i; sel_has_current := true;
     sel_failure_threshold := sel_failure_threshold s;
     sel_pause_duration_secs := sel_pause_duration_secs s;
     sel_failure_expiration_secs := sel_failure_expiration_secs s |}.

Definition set_next_index (i : Z) (s : RpcSelector) : RpcSelector :=
  {| sel_configs := sel_configs s; sel_weights_dist := sel_weights_dist s;
     sel_next_index := i; sel_current_index := sel_current_index s;
     sel_has_current := sel_has_current s; sel_failure_threshold := sel_failure_threshold s;
     sel_pause_duration_secs := sel_pause_duration_secs s;
     sel_failure_expiration_secs := sel_failure_expiration_secs s |}.

Definition clear_current (s : RpcSelector) : RpcSelector :=
  {| sel_configs := sel_configs s; sel_weights_dist := sel_weights_dist s;
     sel_next_index := sel_next_index s; sel_current_index := sel_current_index s;
     sel_has_current := false; sel_failure_threshold := sel_failure_threshold s;
     sel_pause_duration_secs := sel_pause_duration_secs s;
     sel_failure_expiration_secs := sel_failure_expiration_secs s |}.

(** The clock, and the samples of [rand]: an index drawn from a [WeightedIndex] over the given
    weights, an integer below or up to a bound, a fair coin. *)
Class RpcEnv := {
  rpc_now : nat -> Z;
  rand_weighted : nat -> list Z -> nat;
  rand_below : nat -> Z -> Z;
  rand_up_to : nat -> Z -> Z;
  rand_bool : nat -> bool;
}.

(** [Duration::seconds(secs as i64)] *)
Definition duration_secs (secs : Z) : Z := wrapi 64 secs * 10 ^ 9.

(** The selector, the shared health store, the tick of the environment, and the trace of calls
    made to the endpoints and of the delays slept (both for the retry loop). *)
Record RpcWorld := {
  rw_selector : RpcSelector;
  rw_health : gmap string RpcConfigMetadata;
  rw_tick : nat;
  rw_calls : list string;
  rw_slept : list Z;
}.

Definition with_selector (f : RpcSelector -> RpcSelector) (w : RpcWorld) : RpcWorld :=
  {| rw_selector := f (rw_selector w); rw_health := rw_health w; rw_tick := rw_tick w;
     rw_calls := rw_calls w; rw_slept := rw_slept w |}.

Definition with_health (h : gmap string RpcConfigMetadata) (w : RpcWorld) : RpcWorld :=
  {| rw_selector := rw_selector w; rw_health := h; rw_tick := Datatypes.S (rw_tick w);
     rw_calls := rw_calls w; rw_slept := rw_slept w |}.

Definition draw {E A} (f : nat -> A) : M RpcWorld E A := fun w =>
  (Ok (f (rw_tick w)), with_health (rw_health w) w).

(** ** Construction *)

Definition weights_of (configs : list RpcConfig) (excluded : nat -> bool) : list Z :=
  imap (fun i c => if excluded i then 0 else rpc_weight c) configs.

(** [WeightedIndex::new] on [u8] weights: an error when there is no weight above zero or their
    sum does not fit the weight type. *)
Definition weighted_index_new (weights : list Z) : option (list Z) :=
  let total := foldr Z.add 0 weights in
  if (0 <? total) && (total <=? 255) then Some weights else None.

Definition create_weights_distribution (configs : list RpcConfig) (excluded : nat -> bool)
  : option (list Z) :=
  let weights := weights_of configs excluded in
  match List.filter (fun w => 0 <? w) weights with
  | [] => None
  | first_weight :: rest =>
      if forallb (fun w => w =? first_weight) rest then None else weighted_index_new weights
  end.

Section WithEnv.
Context `{RpcEnv}.

Definition selector_new (tick : nat) (configs : list RpcConfig) (failure_threshold : Z)
    (pause_duration_secs failure_expiration_secs : Z) : result RpcSelectorError.t RpcSelector :=
  match configs with
  | [] => Err RpcSelectorError.NoProviders
  | _ =>
      Ok {| sel_configs := configs;
            sel_weights_dist := create_weights_distribution configs (fun _ => false);
            sel_next_index := rand_below tick (Z.of_nat (length configs));
            sel_current_index := 0; sel_has_current := false;
            sel_failure_threshold := failure_threshold;
            sel_pause_duration_secs := pause_duration_secs;
            sel_failure_expiration_secs := failure_expiration_secs |}
  end.

Definition provider_count (s : RpcSelector) : nat := length (sel_configs s).

(** ** Selection *)

(** [health_store.is_paused(url, ...)]: reads the clock and cleans the record up. *)
Definition check_paused {E} (url : string) : M RpcWorld E bool := fun w =>
  let s := rw_selector w in
  let '(b, h) := is_paused (rpc_now (rw_tick w)) url (sel_failure_threshold s)
                   (duration_secs (sel_failure_expiration_secs s)) (rw_health w) in
  (Ok b, with_health h w).

Fixpoint count_available {E} (configs : list RpcConfig) : M RpcWorld E Z :=
  match configs with
  | [] => retM 0
  | c :: configs' =>
      let* paused := check_paused (rpc_url c) in
      let* n := count_available configs' in
      retM (if paused : bool then n else n + 1)
  end.

Definition available_provider_count {E} : M RpcWorld E Z := fun w =>
  count_available (sel_configs (rw_selector w)) w.

(** Not of weight zero and not tried yet. *)
Definition usable (excluded_urls : list string) (c : RpcConfig) : bool :=
  negb (rpc_weight c =? 0) && negb (bool_decide (rpc_url c ∈ excluded_urls)).

(** The three [continue] conditions of both loops. *)
Definition acceptable {E} (excluded_urls : list string) (allow_paused : bool) (c : RpcConfig)
  : M RpcWorld E bool :=
  if usable excluded_urls c then
    if allow_paused then retM true
    else let* paused := check_paused (rpc_url c) in retM (negb paused)
  else retM false.

Fixpoint weighted_attempts {E} (n : nat) (dist : list Z) (configs : list RpcConfig)
    (excluded_urls : list string) (allow_paused : bool) : M RpcWorld E (option string) :=
  match n with
  | 0%nat => retM None
  | Datatypes.S n' =>
      let* index := draw (fun t => rand_weighted t dist) in
      match configs !! index with
      | Some c =>
          let* ok := acceptable excluded_urls allow_paused c in
          if ok : bool then
            do* modifyM (with_selector (set_current index)) in
            retM (Some (rpc_url c))
          else weighted_attempts n' dist configs excluded_urls allow_paused
      | None => weighted_attempts n' dist configs excluded_urls allow_paused
      end
  end.

Definition MAX_ATTEMPTS : nat := 10.

Definition try_weighted_selection {E} (configs : list RpcConfig) (excluded_urls : list string)
    (allow_paused : bool) : M RpcWorld E (option string) :=
  let* dist := getsM (fun w => sel_weights_dist (rw_selector w)) in
  match dist with
  | None => retM None
  | Some d => weighted_attempts MAX_ATTEMPTS d configs excluded_urls allow_paused
  end.

(** The loop of [try_round_robin_selection] over the remaining indices. *)
Fixpoint round_robin_loop {E} (indices : list nat) (configs : list RpcConfig)
    (excluded_urls : list string) (allow_paused : bool) : M RpcWorld E (option string) :=
  match indices with
  | [] => retM None
  | index :: indices' =>
      match configs !! index with
      | Some c =>
          let* ok := acceptable excluded_urls allow_paused c in
          if ok : bool then
            let next := Z.of_nat (Nat.modulo (index + 1) (length configs)) in
            do* modifyM (with_selector (fun s => set_current index (set_next_index next s))) in
            retM (Some (rpc_url c))
          else round_robin_loop indices' configs excluded_urls allow_paused
      | None => round_robin_loop indices' configs excluded_urls allow_paused
      end
  end.

(** [(start_index + i) % len] for [i] from 0 to [len - 1]. *)
Definition rotation (start len : nat) : list nat :=
  (fun i => Nat.modulo (start + i) len) <$> seq 0 len.

Definition try_round_robin_selection {E} (configs : list RpcConfig) (excluded_urls : list string)
    (allow_paused : bool) (start_index : nat) : M RpcWorld E (option string) :=
  round_robin_loop (rotation start_index (length configs)) configs excluded_urls allow_paused.

(** The four passes, each tried when the ones before it found nothing. *)
Definition or_else {E A} (c : M RpcWorld E (option A)) (k : M RpcWorld E A) : M RpcWorld E A :=
  let* o := c in match o with Some a => retM a | None => k end.

Definition select_url_internal (excluded_urls : list string)
  : M RpcWorld RpcSelectorError.t string :=
  let* configs := getsM (fun w => sel_configs (rw_selector w)) in
  match configs with
  | [] => failM RpcSelectorError.NoProviders
  | [c] =>
      if usable excluded_urls c then
        do* modifyM (with_selector (set_current 0)) in retM (rpc_url c)
      else failM RpcSelectorError.AllProvidersFailed
  | _ =>
      or_else (try_weighted_selection configs excluded_urls false) (
      let* next := getsM (fun w => sel_next_index (rw_selector w)) in
      let start_index := Z.to_nat (next mod Z.of_nat (length configs)) in
      or_else (try_round_robin_selection configs excluded_urls false start_index) (
      or_else (try_weighted_selection configs excluded_urls true) (
      or_else (try_round_robin_selection configs excluded_urls true start_index) (
      failM RpcSelectorError.AllProvidersFailed))))
  end.

Definition get_current_url : M RpcWorld RpcSelectorError.t string := select_url_internal [].
Definition get_next_url (excluded_urls : list string) : M RpcWorld RpcSelectorError.t string :=
  select_url_internal excluded_urls.

Definition get_client {T} (initializer : string -> result string T) (excluded_urls : list string)
  : M RpcWorld RpcSelectorError.t T :=
  let* url := select_url_internal excluded_urls in
  liftM (result_map_err RpcSelectorError.ClientInitializationError (initializer url)).

(** ** Failure of the current endpoint *)

Definition mark_current_as_failed {E} : M RpcWorld E unit := fun w =>
  let s := rw_selector w in
  if sel_has_current s then
    match sel_configs s !! sel_current_index s with
    | Some c =>
        let h := mark_failed (rpc_now (rw_tick w)) (rpc_url c) (sel_failure_threshold s)
                   (duration_secs (sel_pause_duration_secs s))
                   (duration_secs (sel_failure_expiration_secs s)) (rw_health w) in
        let next := if (1 <? length (sel_configs s))%nat
                    then wrapu 64 (sel_next_index s + 1) else sel_next_index s in
        (Ok tt, with_health h (with_selector (fun s => set_next_index next (clear_current s)) w))
    | None => (Ok tt, w)
    end
  else (Ok tt, w).
End WithEnv.

(** ** What a selection returns

    [J] is an invariant of the health store that the pause checks keep; [good] and [bad] are
    what an answer of theirs tells about an endpoint. *)

Section Selection.
Context `{RpcEnv} (cs : list RpcConfig) (threshold expiration_secs : Z).
Context (J : gmap string RpcConfigMetadata -> Prop) (good bad : string -> Prop).
Context (J_check : forall k url h, J h ->
  let '(b, h') := is_paused (rpc_now k) url threshold (duration_secs expiration_secs) h in
  J h' /\ (b = false -> good url) /\ (b = true -> bad url)).
Context (ex : list string).

Definition set_up (w : RpcWorld) : Prop :=
  sel_configs (rw_selector w) = cs /\ sel_failure_threshold (rw_selector w) = threshold /\
  sel_failure_expiration_secs (rw_selector w) = expiration_secs /\ J (rw_health w).

(** [url] is a usable endpoint, and the selector's current one. *)
Definition chosen (allow_paused : bool) (url : string) (w : RpcWorld) : Prop :=
  exists i c, cs !! i = Some c /\ rpc_url c = url /\ usable ex c = true /\
    (allow_paused = true \/ good url) /\
    sel_current_index (rw_selector w) = i /\ sel_has_current (rw_selector w) = true.

Definition rejected (allow_paused : bool) (c : RpcConfig) : Prop :=
  usable ex c = false \/ (allow_paused = false /\ bad (rpc_url c)).

Lemma acceptable_spec {E} allow c w :
  set_up w ->
  wp (acceptable (E := E) ex allow c) (fun r w' => set_up w' /\
    rw_selector w' = rw_selector w /\ rw_calls w' = rw_calls w /\ exists b, r = Ok b /\
    (b = true -> usable ex c = true /\ (allow = true \/ good (rpc_url c))) /\
    (b = false -> rejected allow c)) w.
Proof.
  intros Hw. unfold acceptable, rejected. destruct (usable ex c).
  2: { unfold wp; simpl. split_and!; [done..|]. exists false. split_and!; auto; discriminate. }
  destruct allow.
  { unfold wp; simpl. split_and!; [done..|]. exists true. split_and!; auto; discriminate. }
  apply wp_bind. unfold wp, check_paused.
  destruct Hw as (H1 & H2 & H3 & H4). rewrite H2, H3.
  pose proof (J_check (rw_tick w) (rpc_url c) _ H4) as Hc.
  destruct (is_paused _ _ _ _ _) as [b h]. destruct Hc as (HJ & Hg & Hb). simpl.
  split; [by split_and!|]. split; [done|]. split; [done|]. exists (negb b).
  destruct b; simpl; split_and!; eauto; discriminate.
Qed.

Lemma set_up_modify f w :
  set_up w ->
  sel_configs (f (rw_selector w)) = sel_configs (rw_selector w) ->
  sel_failure_threshold (f (rw_selector w)) = sel_failure_threshold (rw_selector w) ->
  sel_failure_expiration_secs (f (rw_selector w)) =
    sel_failure_expiration_secs (rw_selector w) ->
  set_up (with_selector f w).
Proof. intros (H1 & H2 & H3 & H4) E1 E2 E3. unfold set_up. simpl. split_and!; congruence. Qed.

Lemma weighted_attempts_spec {E} n dist allow w :
  set_up w ->
  wp (weighted_attempts (E := E) n dist cs ex allow) (fun r w' => set_up w' /\
    rw_calls w' = rw_calls w /\
    exists o, r = Ok o /\ forall url, o = Some url -> chosen allow url w') w.
Proof.
  revert w. induction n as [|n IH]; intros w Hw.
  { unfold wp; simpl. split_and!; [done..|]. by exists None. }
  simpl.
  apply wp_bind. unfold wp at 1, draw. simpl.
  set (w1 := with_health (rw_health w) w). assert (set_up w1) as Hw1 by done.
  destruct (cs !! _) as [c|] eqn:Hc; [|by apply (IH w1)].
  apply wp_bind. eapply wp_mono; [|by apply acceptable_spec]. simpl.
  intros r w2 (Hw2 & _ & Hcalls & b & -> & Ht & _). destruct b.
  - destruct (Ht eq_refl) as [Hu Hg]. unfold wp; simpl. split; [|split; [done|]].
    + by apply set_up_modify.
    + eexists. split; [done|]. intros url [= <-]. exists (rand_weighted (rw_tick w) dist), c. done.
  - eapply wp_mono; [|by apply IH]. simpl. rewrite Hcalls. done.
Qed.

Lemma round_robin_spec {E} indices allow w :
  set_up w ->
  wp (round_robin_loop (E := E) indices cs ex allow) (fun r w' => set_up w' /\
    rw_calls w' = rw_calls w /\ exists o, r = Ok o /\
    match o with
    | Some url => chosen allow url w'
    | None => forall i c, i ∈ indices -> cs !! i = Some c -> rejected allow c
    end) w.
Proof.
  revert w. induction indices as [|i js IH]; intros w Hw.
  { unfold wp; simpl. split; [done|]. split; [done|]. exists None. split; [done|].
    intros ? ? Hi. by apply elem_of_nil in Hi. }
  simpl. destruct (cs !! i) as [c|] eqn:Hc.
  2: { eapply wp_mono; [|by apply IH]. simpl. intros r w' (Hs & Hk & [url|] & -> & Ho); eauto 8.
       split; [done|]. split; [done|]. exists None. split; [done|].
       intros j c [->|Hj]%elem_of_cons Hjc; [congruence|eauto]. }
  apply wp_bind. eapply wp_mono; [|by apply acceptable_spec]. simpl.
  intros r w2 (Hw2 & _ & Hcalls & b & -> & Ht & Hf). destruct b.
  - destruct (Ht eq_refl) as [Hu Hg]. unfold wp; simpl. split; [|split; [done|]].
    + by apply set_up_modify.
    + eexists. split; [done|]. by exists i, c.
  - eapply wp_mono; [|by apply IH]. simpl. rewrite Hcalls.
    intros r w' (Hs & Hk & [url|] & -> & Ho); eauto 8.
    split; [done|]. split; [done|]. exists None. split; [done|].
    intros j c' [->|Hj]%elem_of_cons Hjc; [|eauto].
    assert (c' = c) as -> by congruence. auto.
Qed.

Lemma rotation_all start len i : (i < len)%nat -> i ∈ rotation start len.
Proof.
  intros Hi. unfold rotation. apply list_elem_of_fmap.
  exists (Nat.modulo (i + (len - Nat.modulo start len)) len). split.
  - rewrite Nat.Div0.add_mod_idemp_r, <- Nat.Div0.add_mod_idemp_l.
    pose proof (Nat.mod_upper_bound start len).
    replace (Nat.modulo start len + (i + (len - Nat.modulo start len)))%nat with (i + 1 * len)%nat by lia.
    rewrite Nat.Div0.mod_add. by rewrite Nat.mod_small.
  - apply elem_of_seq. pose proof (Nat.mod_upper_bound (i + (len - Nat.modulo start len)) len).
    lia.
Qed.

Lemma try_round_robin_spec {E} start allow w :
  set_up w ->
  wp (try_round_robin_selection (E := E) cs ex allow start) (fun r w' => set_up w' /\
    rw_calls w' = rw_calls w /\ exists o, r = Ok o /\
    match o with
    | Some url => chosen allow url w'
    | None => forall c, c ∈ cs -> rejected allow c
    end) w.
Proof.
  intros Hw. eapply wp_mono; [|by apply round_robin_spec]. simpl.
  intros r w' (Hs & Hk & [url|] & -> & Ho); eauto 8.
  split; [done|]. split; [done|]. exists None. split; [done|].
  intros c [i Hi]%list_elem_of_lookup. apply (Ho i); [|done].
  apply rotation_all. by eapply lookup_lt_Some.
Qed.

Lemma try_weighted_spec {E} allow w :
  set_up w ->
  wp (try_weighted_selection (E := E) cs ex allow) (fun r w' => set_up w' /\
    rw_calls w' = rw_calls w /\
    exists o, r = Ok o /\ forall url, o = Some url -> chosen allow url w') w.
Proof.
  intros Hw. unfold try_weighted_selection. apply wp_bind. unfold wp at 1, getsM.
  cbn [fst snd]. destruct (sel_weights_dist _); [by apply weighted_attempts_spec|].
  unfold wp; simpl. split; [done|]. split; [done|]. by exists None.
Qed.

(** A selection finds a usable endpoint if there is one, and one that is not paused if there
    is one, unless it is the only one. *)
Lemma select_spec w :
  set_up w ->
  wp (select_url_internal ex) (fun r w' => set_up w' /\ rw_calls w' = rw_calls w /\
    match r with
    | Ok url => chosen false url w' \/
        (chosen true url w' /\
         (length cs = 1%nat \/ forall c, c ∈ cs -> usable ex c = true -> bad (rpc_url c)))
    | Err e => (forall c, c ∈ cs -> usable ex c = false) /\
        e = match cs with [] => RpcSelectorError.NoProviders
                     | _ => RpcSelectorError.AllProvidersFailed end
    end) w.
Proof.
  intros Hw. unfold select_url_internal. apply wp_bind. unfold wp at 1, getsM.
  cbn [fst snd]. rewrite (proj1 Hw). destruct cs as [|c0 [|c1 l]] eqn:Hcs.
  - unfold wp; simpl. split_and!; [done..| |done]. intros c Hc. by apply elem_of_nil in Hc.
  - destruct (usable ex c0) eqn:Hu; unfold wp; simpl.
    + split; [by apply set_up_modify|]. split; [done|]. right.
      split; [|by left]. exists 0%nat, c0. rewrite Hcs. split_and!; auto.
    + split_and!; [done..| |done]. intros c Hc. apply list_elem_of_singleton in Hc. congruence.
  - rewrite <- Hcs in *. unfold or_else at 1. apply wp_bind.
    eapply wp_mono; [|by apply try_weighted_spec]. simpl.
    intros r w1 (Hw1 & Hk1 & [url|] & -> & Hc1).
    { unfold wp; simpl. rewrite Hk1. eauto. }
    apply wp_bind. unfold wp at 1, getsM. simpl.
    unfold or_else at 1. apply wp_bind. eapply wp_mono; [|by apply try_round_robin_spec]. simpl.
    intros r w2 (Hw2 & Hk2 & [url|] & -> & Hc2).
    { unfold wp; simpl. rewrite Hk2, Hk1. eauto. }
    assert (forall c, c ∈ cs -> usable ex c = true -> bad (rpc_url c)) as Hbad.
    { intros c Hc Hu. destruct (Hc2 c Hc) as [?|[_ ?]]; [congruence|done]. }
    unfold or_else at 1. apply wp_bind. eapply wp_mono; [|by apply try_weighted_spec]. simpl.
    intros r w3 (Hw3 & Hk3 & [url|] & -> & Hc3).
    { unfold wp; simpl. rewrite Hk3, Hk2, Hk1. eauto 10. }
    unfold or_else at 1. apply wp_bind. eapply wp_mono; [|by apply try_round_robin_spec]. simpl.
    intros r w4 (Hw4 & Hk4 & [url|] & -> & Hc4); unfold wp; simpl.
    { rewrite Hk4, Hk3, Hk2, Hk1. eauto 10. }
    rewrite Hk4, Hk3, Hk2, Hk1. split; [done|]. split; [done|]. split; [|done].
    intros c Hc. destruct (Hc4 c Hc) as [?|[? _]]; [done|discriminate].
Qed.
End Selection.

(** ** Pause checks at one time agree *)

Definition paused_now (now threshold expiration : Z) (m : RpcConfigMetadata) : bool :=
  negb (expired_opt now (paused_until m)) &&
  (threshold <=? count_u32 (retain_recent now expiration (failure_timestamps m))) &&
  before_opt now (paused_until m).

Lemma is_paused_answer now url threshold expiration s :
  fst (is_paused now url threshold expiration s) =
  paused_now now threshold expiration (get_metadata url s).
Proof.
  rewrite read_path_equivalent. pose proof (cleanup_metadata threshold expiration now url s) as Hc.
  simpl in Hc. destruct (is_paused_with_cleanup _ _ _ _ _). apply Hc.
Qed.

(** A check cleans up, but changes no answer of a check at the same time. *)
Lemma is_paused_stable now url url' threshold expiration s :
  fst (is_paused now url' threshold expiration
         (snd (is_paused now url threshold expiration s))) =
  fst (is_paused now url' threshold expiration s).
Proof.
  rewrite !is_paused_answer, read_path_equivalent.
  pose proof (cleanup_metadata threshold expiration now url s) as Hc. simpl in Hc.
  destruct (is_paused_with_cleanup _ _ _ _ _) as [b s']. destruct Hc as (Hne & _ & He). simpl.
  destruct (decide (url = url')) as [<-|Hn]; [|by rewrite (Hne _ Hn)].
  rewrite He. unfold paused_now. simpl. rewrite retain_retain by lia.
  destruct (expired_opt now _) eqn:Hx; simpl; [by rewrite andb_false_r|by rewrite Hx].
Qed.

(** ** Selection *)

Section SelectionTheorems.
Context `{RpcEnv}.

(** Selection of an endpoint, whatever the random source and the clock say: it succeeds
    exactly when a configured endpoint has a weight above zero and was not tried yet, it
    returns such an endpoint and makes it the selector's current one, and otherwise it fails
    with the error for no configured, or no remaining, endpoint. *)
Theorem selection_complete excluded w :
  let cs := sel_configs (rw_selector w) in
  wp (select_url_internal excluded) (fun r w' =>
    sel_configs (rw_selector w') = cs /\
    match r with
    | Ok url => exists i c, cs !! i = Some c /\ rpc_url c = url /\
        usable excluded c = true /\ sel_current_index (rw_selector w') = i /\
        sel_has_current (rw_selector w') = true
    | Err e => (forall c, c ∈ cs -> usable excluded c = false) /\
        e = match cs with [] => RpcSelectorError.NoProviders
                     | _ => RpcSelectorError.AllProvidersFailed end
    end) w.
Proof.
  intros cs. eapply wp_mono.
  2: { apply (select_spec cs (sel_failure_threshold (rw_selector w))
         (sel_failure_expiration_secs (rw_selector w)) (fun _ => True) (fun _ => True)
         (fun _ => True)); [|done].
       intros. by destruct (is_paused _ _ _ _ _). }
  intros r w' ((Hcs & _) & _ & Hr). split; [done|]. destruct r as [url|e]; [|done].
  destruct Hr as [Hc|[Hc _]]; destruct Hc as (i & c & ? & ? & ? & _ & ? & ?); by exists i, c.
Qed.

(** Paused endpoints are a last resort: at a time when some usable endpoint is not paused,
    and unless only one endpoint is configured, the selection returns one that is not paused,
    whatever the random source says. *)
Theorem healthy_endpoint_preferred excluded now c w :
  let s := rw_selector w in
  let paused url := fst (is_paused now url (sel_failure_threshold s)
                           (duration_secs (sel_failure_expiration_secs s)) (rw_health w)) in
  (forall k, rpc_now k = now) -> (1 < length (sel_configs s))%nat ->
  c ∈ sel_configs s -> usable excluded c = true -> paused (rpc_url c) = false ->
  exists url, fst (select_url_internal excluded w) = Ok url /\ paused url = false.
Proof.
  intros s paused Hnow Hlen Hc Hu Hp.
  pose proof (select_spec (sel_configs s) (sel_failure_threshold s)
    (sel_failure_expiration_secs s)
    (fun h => forall url, fst (is_paused now url (sel_failure_threshold s)
                (duration_secs (sel_failure_expiration_secs s)) h) = paused url)
    (fun url => paused url = false) (fun url => paused url = true)) as Hs.
  unfold wp in Hs. edestruct Hs as (_ & _ & Hm).
  - intros k url h Hh. rewrite Hnow. specialize (Hh url) as Hurl.
    pose proof (fun url' => is_paused_stable now url url' (sel_failure_threshold s)
      (duration_secs (sel_failure_expiration_secs s)) h) as Hst.
    destruct (is_paused now url _ _ h) as [b h']. simpl in *. split.
    + intros url'. by rewrite Hst, Hh.
    + rewrite <- Hurl. by split.
  - instantiate (1 := w). done.
  - instantiate (1 := excluded) in Hm.
    destruct (fst (select_url_internal excluded w)) as [url|e].
    + exists url. split; [done|]. destruct Hm as [Hg|[_ [Hl|Hb]]]; [|lia|].
      * by destruct Hg as (? & ? & ? & ? & ? & [?|?] & ?).
      * by rewrite (Hb c Hc Hu) in Hp.
    + by rewrite (proj1 Hm c Hc) in Hu.
Qed.
End SelectionTheorems.

Section SelectionExample.
#[local] Instance demo_rpc_env : RpcEnv :=
  {| rpc_now := fun _ => 100; rand_weighted := fun _ _ => 0%nat; rand_below := fun _ _ => 0;
     rand_up_to := fun _ _ => 0; rand_bool := fun _ => true |}.

Definition demo_configs : list RpcConfig :=
  [{| rpc_url := "http://a"; rpc_weight := 100 |}; {| rpc_url := "http://b"; rpc_weight := 100 |}].

Definition demo_selector : RpcSelector :=
  {| sel_configs := demo_configs; sel_weights_dist := None; sel_next_index := 0;
     sel_current_index := 0; sel_has_current := false; sel_failure_threshold := 1;
     sel_pause_duration_secs := 60; sel_failure_expiration_secs := 60 |}.

(** The first endpoint has failed at this time. *)
Definition demo_rpc_world : RpcWorld :=
  {| rw_selector := demo_selector;
     rw_health := mark_failed 100 "http://a" 1 (duration_secs 60) (duration_secs 60) ∅;
     rw_tick := 0; rw_calls := []; rw_slept := [] |}.

Lemma healthy_endpoint_preferred_witness :
  exists url, fst (select_url_internal [] demo_rpc_world) = Ok url /\
    fst (is_paused 100 url 1 (duration_secs 60) (rw_health demo_rpc_world)) = false.
Proof.
  apply (healthy_endpoint_preferred [] 100 {| rpc_url := "http://b"; rpc_weight := 100 |}
    demo_rpc_world).
  - done.
  - simpl. lia.
  - apply list_elem_of_In. simpl. auto.
  - vm_compute. reflexivity.
  - vm_compute. reflexivity.
Defined.
End SelectionExample.
