(* ===== verification/Retry.v ===== *)
(** * Retries and failover of RPC calls

    [services/provider/retry.rs]: the backoff delay with its jitter, the attempts on one
    endpoint, and the failover over endpoints.  The operation, the initializer of a provider
    and the classification of errors are parameters, as in the code. *)

From S2P Require Import Prelude Decimal Errors Model Config Health Selector.
Open Scope Z_scope.

(** ** Delays *)

(** Rounding of a non-negative integer to 53 significant bits, ties to even: the conversion of
    a [u64] to [f64], and, on integers scaled by a power of two, the rounding of a product. *)
Definition round53 (x : Z) : Z :=
  let e := Z.max 0 (Z.log2 x - 52) in
  let q := x / 2 ^ e in
  let r := 2 * (x mod 2 ^ e) in
  let up := (2 ^ e <? r) || ((r =? 2 ^ e) && Z.odd q) in
  (if up then q + 1 else q) * 2 ^ e.

(** [RETRY_JITTER_PERCENT] is 0.2, as a double 3602879701896397 / 2^54. *)
Definition RETRY_JITTER_PERCENT_mantissa : Z := 3602879701896397.

(** [(delay_ms as f64 * RETRY_JITTER_PERCENT).floor() as u64] *)
Definition jitter_range (delay_ms : Z) : Z :=
  round53 (round53 delay_ms * RETRY_JITTER_PERCENT_mantissa) / 2 ^ 54.

Section Delay.
Context `{RpcEnv}.

Definition apply_jitter (tick : nat) (delay_ms : Z) : Z :=
  if delay_ms =? 0 then 0
  else
    let range := jitter_range delay_ms in
    if range =? 0 then delay_ms
    else
      let jitter_value := rand_up_to tick range in
      if rand_bool (Datatypes.S tick) then sat_add u64_max delay_ms jitter_value
      else sat_sub delay_ms jitter_value.

Definition calculate_retry_delay (tick : nat) (attempt base_delay_ms max_delay_ms : Z) : Z :=
  if (base_delay_ms =? 0) || (max_delay_ms =? 0) then 0
  else
    let exp_backoff :=
      if 63 <? attempt then max_delay_ms else sat_mul u64_max base_delay_ms (2 ^ attempt) in
    apply_jitter tick (Z.min exp_backoff max_delay_ms).
End Delay.

(** ** Retries *)

Record RetryConfig := {
  rc_max_retries : Z;
  rc_max_failovers : Z;
  rc_base_delay_ms : Z;
  rc_max_delay_ms : Z;
}.

(** [RetryConfig::new]; [None] where it panics. *)
Definition retry_config_new (max_retries max_failovers base_delay_ms max_delay_ms : Z)
  : option RetryConfig :=
  if negb (Bool.eqb (base_delay_ms =? 0) (max_delay_ms =? 0)) then None
  else if (0 <? base_delay_ms) && (0 <? max_delay_ms) && (max_delay_ms <? base_delay_ms) then None
  else Some {| rc_max_retries := max_retries; rc_max_failovers := max_failovers;
               rc_base_delay_ms := base_delay_ms; rc_max_delay_ms := max_delay_ms |}.

Module InternalRetryError.
Inductive t (E : Type) : Type :=
| NonRetriable (e : E)
| RetriesExhausted (e : E).
Arguments NonRetriable {E} e.
Arguments RetriesExhausted {E} e.
End InternalRetryError.

Section Retry.
Context `{RpcEnv} {P T E : Type}.
Context (is_retriable_error should_mark_failed : E -> bool) (from_string : string -> E).
Context (provider_initializer : string -> result E P).
(** The operation: what the provider answers at a tick. *)
Context (operation : nat -> P -> result E T).
Context (operation_name : string) (config : RetryConfig).

Definition perform {E'} (provider : P) (url : string) : M RpcWorld E' (result E T) := fun w =>
  (Ok (operation (rw_tick w) provider),
   {| rw_selector := rw_selector w; rw_health := rw_health w;
      rw_tick := Datatypes.S (rw_tick w); rw_calls := rw_calls w ++ [url];
      rw_slept := rw_slept w |}).

Definition sleep {E'} (attempt : Z) : M RpcWorld E' unit := fun w =>
  (Ok tt,
   {| rw_selector := rw_selector w; rw_health := rw_health w;
      rw_tick := Datatypes.S (Datatypes.S (rw_tick w)); rw_calls := rw_calls w;
      rw_slept := rw_slept w ++
        [calculate_retry_delay (rw_tick w) attempt (rc_base_delay_ms config)
           (rc_max_delay_ms config)] |}).

(** The loop [for current_attempt_idx in 0..max_retries], with [n] attempts left. *)
Fixpoint attempts (n : nat) (idx : Z) (provider : P) (url : string)
  : M RpcWorld (InternalRetryError.t E) T :=
  match n with
  | 0%nat => fun w => (* unreachable: the last attempt returns *)
      (Err (InternalRetryError.RetriesExhausted (from_string "unreachable")), w)
  | Datatypes.S n' =>
      let* r := perform provider url in
      match r with
      | Ok result => retM result
      | Err e =>
          if negb (is_retriable_error e) then failM (InternalRetryError.NonRetriable e)
          else if rc_max_retries config <=? idx + 1
          then failM (InternalRetryError.RetriesExhausted e)
          else do* sleep (idx + 1) in attempts n' (idx + 1) provider url
      end
  end.

Definition try_with_retries (provider : P) (url : string)
  : M RpcWorld (InternalRetryError.t E) T :=
  if rc_max_retries config <=? 1 then
    let* r := perform provider url in
    liftM (result_map_err InternalRetryError.NonRetriable r)
  else attempts (Z.to_nat (rc_max_retries config)) 0 provider url.

Definition get_provider (excluded_urls : list string) : M RpcWorld E (P * string) :=
  let* provider_url := map_errM
    (fun e => from_string ("Failed to get provider URL for " +:+ operation_name +:+ ": " +:+
                           rpc_selector_error_display e))
    (get_client (fun url => Ok url) excluded_urls) in
  let* provider := liftM (provider_initializer provider_url) in
  retM (provider, provider_url).

(** What is returned once no endpoint is left to try. *)
Definition exhausted_error (total_attempts : nat) (failover_count : Z) (last_error : option E)
  : E :=
  match last_error with
  | Some e => e
  | None => from_string
      ("RPC call '" +:+ operation_name +:+ "' failed after " +:+
       print_dec (Z.of_nat total_attempts) +:+ " total attempts across " +:+
       print_dec failover_count +:+ " providers with no error details")
  end.

(** The [while] loop; [fuel] bounds its iterations, each of which returns or raises
    [failover_count], so [max_failovers + 2] are enough. *)
Fixpoint failover_loop (fuel : nat) (start_calls : nat) (max_failovers failover_count : Z)
    (last_error : option E) (tried_urls : list string) : M RpcWorld E T :=
  match fuel with
  | 0%nat => fun w =>
      (Err (exhausted_error (length (rw_calls w) - start_calls) failover_count last_error), w)
  | Datatypes.S fuel' => fun w =>
      let count := Z.of_nat (provider_count (rw_selector w)) in
      if (failover_count <=? max_failovers) && (0 <? count) then
        match get_provider tried_urls w with
        | (Err e, w1) =>
            if (max_failovers <? failover_count + 1) || (count =? 0)
            then (Err (exhausted_error (length (rw_calls w1) - start_calls) (failover_count + 1)
                         (Some e)), w1)
            else (do* mark_current_as_failed in
                  failover_loop fuel' start_calls max_failovers (failover_count + 1) (Some e)
                    tried_urls) w1
        | (Ok (provider, url), w1) =>
            match try_with_retries provider url w1 with
            | (Ok result, w2) => (Ok result, w2)
            | (Err (InternalRetryError.NonRetriable e), w2) =>
                if should_mark_failed e
                then (do* mark_current_as_failed in failM e) w2 else (Err e, w2)
            | (Err (InternalRetryError.RetriesExhausted e), w2) =>
                (do* mark_current_as_failed in
                 failover_loop fuel' start_calls max_failovers (failover_count + 1) (Some e)
                   (url :: tried_urls)) w2
            end
        end
      else
        (Err (exhausted_error (length (rw_calls w) - start_calls) failover_count last_error), w)
  end.

(** [total_providers - 1] on [usize]. *)
Definition retry_rpc_call : M RpcWorld E T := fun w =>
  let total_providers := Z.of_nat (provider_count (rw_selector w)) in
  let max_failovers := Z.min (rc_max_failovers config) (wrapu 64 (total_providers - 1)) in
  failover_loop (Z.to_nat max_failovers + 2) (length (rw_calls w)) max_failovers 0 None [] w.

(** ** What the steps keep *)

Abbreviation cfgs w := (sel_configs (rw_selector w)) (only parsing).

Lemma mark_keeps {E'} w :
  wp (mark_current_as_failed (E := E')) (fun r w' =>
    r = Ok tt /\ cfgs w' = cfgs w /\ rw_calls w' = rw_calls w) w.
Proof.
  unfold wp, mark_current_as_failed. destruct (sel_has_current _); [|done].
  by destruct (_ !! _).
Qed.

Lemma get_provider_spec tried w :
  wp (get_provider tried) (fun r w' =>
    cfgs w' = cfgs w /\ rw_calls w' = rw_calls w /\
    match r with
    | Ok (p, url) => provider_initializer url = Ok p /\
        exists c, c ∈ cfgs w /\ rpc_url c = url /\ usable tried c = true
    | Err e => (forall c, c ∈ cfgs w -> usable tried c = false) \/
        exists c, c ∈ cfgs w /\ provider_initializer (rpc_url c) = Err e
    end) w.
Proof.
  unfold get_provider, get_client. apply wp_bind, wp_map_err, wp_bind.
  eapply wp_mono.
  2: { apply (select_spec (cfgs w) (sel_failure_threshold (rw_selector w))
         (sel_failure_expiration_secs (rw_selector w)) (fun _ => True) (fun _ => True)
         (fun _ => True)); [|done].
       intros. by destruct (is_paused _ _ _ _ _). }
  intros [url|e] w1 ((Hc & _) & Hk & Hr); simpl.
  2: { split_and!; [done..|]. left. apply Hr. }
  assert (exists c, c ∈ cfgs w /\ rpc_url c = url /\ usable tried c = true) as (c & Hin & Hu & Hx).
  { destruct Hr as [Hr|[Hr _]]; destruct Hr as (i & c & Hi & ? & ? & _); exists c;
      split_and!; eauto using list_elem_of_lookup_2. }
  apply wp_bind, wp_lift. destruct (provider_initializer url) as [p|e] eqn:Hp; simpl.
  - unfold wp; simpl. split_and!; eauto.
  - split_and!; [done..|]. right. exists c. by rewrite Hu.
Qed.

Lemma attempts_spec n idx p url w :
  (0 < n)%nat -> idx + Z.of_nat n = rc_max_retries config ->
  wp (attempts n idx p url) (fun r w' =>
    cfgs w' = cfgs w /\
    (exists k, (k <= n)%nat /\ rw_calls w' = rw_calls w ++ replicate k url) /\
    match r with
    | Ok _ => True
    | Err (InternalRetryError.NonRetriable e) =>
        is_retriable_error e = false /\ exists k, operation k p = Err e
    | Err (InternalRetryError.RetriesExhausted e) => exists k, operation k p = Err e
    end) w.
Proof.
  revert idx w. induction n as [|n IH]; intros idx w Hn Hidx; [lia|]. simpl.
  apply wp_bind. unfold wp at 1, perform. cbn [fst snd].
  set (w1 := Build_RpcWorld _ _ _ _ _).
  assert (exists k, (k <= S n)%nat /\ rw_calls w1 = rw_calls w ++ replicate k url) as Hone
    by (exists 1%nat; split; [lia|done]).
  destruct (operation (rw_tick w) p) as [t|e] eqn:Hop; [unfold wp; simpl; eauto|].
  destruct (is_retriable_error e) eqn:Hre; simpl.
  2: { unfold wp; simpl. eauto 8. }
  destruct (Z.leb_spec (rc_max_retries config) (idx + 1)); [unfold wp; simpl; eauto 8|].
  apply wp_bind. unfold wp at 1, sleep. cbn [fst snd]. set (w2 := Build_RpcWorld _ _ _ _ _).
  eapply wp_mono; [|apply (IH (idx + 1) w2); lia]. simpl.
  intros r w' (Hc & (k & Hk & Hcalls) & Hr). split; [done|]. split; [|done].
  exists (S k). split; [lia|]. rewrite Hcalls. simpl. by rewrite <- app_assoc.
Qed.

Lemma try_with_retries_spec p url w :
  wp (try_with_retries p url) (fun r w' =>
    cfgs w' = cfgs w /\
    (exists k, Z.of_nat k <= Z.max 1 (rc_max_retries config) /\
       rw_calls w' = rw_calls w ++ replicate k url) /\
    match r with
    | Ok _ => True
    | Err (InternalRetryError.NonRetriable e) =>
        (1 < rc_max_retries config -> is_retriable_error e = false) /\
        exists k, operation k p = Err e
    | Err (InternalRetryError.RetriesExhausted e) => exists k, operation k p = Err e
    end) w.
Proof.
  unfold try_with_retries. destruct (Z.leb_spec (rc_max_retries config) 1).
  - apply wp_bind. unfold wp, perform, liftM. simpl. split; [done|]. split.
    { exists 1%nat. split; [lia|done]. }
    destruct (operation _ p) eqn:Ho; simpl; [done|]. split; [lia|eauto].
  - eapply wp_mono; [|apply attempts_spec; lia]. simpl.
    intros r w' (Hc & (k & Hk & Hcalls) & Hr). split; [done|]. split.
    { exists k. split; [lia|done]. }
    destruct r as [|[e|e]]; try done. split; [|apply Hr]. intros _. apply Hr.
Qed.

(** ** Bounds *)

Definition calls_to (url : string) (l : list string) : Z :=
  Z.of_nat (length (List.filter (String.eqb url) l)).

Lemma calls_to_app url l l' : calls_to url (l ++ l') = calls_to url l + calls_to url l'.
Proof. unfold calls_to. rewrite List.filter_app, length_app. lia. Qed.

Lemma calls_to_replicate url url' k :
  calls_to url (replicate k url') = if String.eqb url url' then Z.of_nat k else 0.
Proof.
  unfold calls_to. destruct (String.eqb url url') eqn:Hu.
  - f_equal. induction k as [|k IH]; simpl; [done|]. by rewrite Hu; simpl; rewrite IH.
  - induction k as [|k IH]; simpl; [done|]. by rewrite Hu.
Qed.

Lemma calls_to_none url l : url ∉ l -> calls_to url l = 0.
Proof.
  unfold calls_to. induction l as [|u l IH]; [done|]. intros [Hne Hl]%not_elem_of_cons.
  simpl. by rewrite (proj2 (String.eqb_neq url u) Hne), (IH Hl).
Qed.

(** The calls [l] respect the limits when [left] endpoints may still be tried, and go to
    configured endpoints that are not in [tried]. *)
Definition within (left : Z) (tried : list string) (urls : list string) (l : list string) : Prop :=
  let K := Z.max 1 (rc_max_retries config) in
  Z.of_nat (length l) <= Z.max 0 left * K /\
  (forall url, calls_to url l <= K) /\
  forall url, url ∈ l -> (url ∉ tried) /\ url ∈ urls.

Lemma within_nil left tried urls : within left tried urls [].
Proof.
  split_and!; [simpl; lia|intros; unfold calls_to; simpl; lia|].
  intros url Hu. by apply elem_of_nil in Hu.
Qed.

Lemma within_step left tried urls url k l :
  0 < left -> Z.of_nat k <= Z.max 1 (rc_max_retries config) -> url ∉ tried -> url ∈ urls ->
  within (left - 1) (url :: tried) urls l -> within left tried urls (replicate k url ++ l).
Proof.
  intros Hl Hk Hnt Hin (H1 & H2 & H3). split_and!.
  - rewrite length_app, length_replicate. nia.
  - intros u. rewrite calls_to_app, calls_to_replicate.
    destruct (String.eqb_spec u url) as [->|]; [|apply H2].
    rewrite calls_to_none; [lia|]. intros Hu. destruct (H3 _ Hu) as [Hn _]. apply Hn. left.
  - intros u [[-> _]%elem_of_replicate|Hu]%elem_of_app; [done|].
    destruct (H3 _ Hu) as [Hn ?]. split; [|done]. intros ?. apply Hn. by right.
Qed.

Lemma usable_not_tried tried c : usable tried c = true -> rpc_url c ∉ tried.
Proof.
  unfold usable. intros [_ Hb]%andb_true_iff. by apply negb_true_iff, bool_decide_eq_false in Hb.
Qed.

Lemma within_weaken left left' tried urls l :
  left <= left' -> within left tried urls l -> within left' tried urls l.
Proof. intros Hle (H1 & H2 & H3). split_and!; [nia|done|done]. Qed.

(** The calls made from [w] on respect the limits, and the configuration is kept. *)
Definition calls_ok (left : Z) (tried : list string) (w w' : RpcWorld) : Prop :=
  cfgs w' = cfgs w /\
  exists l, rw_calls w' = rw_calls w ++ l /\ within left tried (rpc_url <$> cfgs w) l.

Lemma calls_ok_none left tried w w' :
  cfgs w' = cfgs w -> rw_calls w' = rw_calls w -> calls_ok left tried w w'.
Proof.
  intros Hc Hk. split; [done|]. exists []. rewrite app_nil_r. split; [done|apply within_nil].
Qed.

(** One endpoint tried, then the calls of the rest of the loop. *)
Lemma calls_ok_step left tried w w1 w2 w3 c k :
  0 < left -> c ∈ cfgs w -> usable tried c = true ->
  Z.of_nat k <= Z.max 1 (rc_max_retries config) ->
  cfgs w1 = cfgs w -> rw_calls w1 = rw_calls w ++ replicate k (rpc_url c) ->
  cfgs w2 = cfgs w1 -> rw_calls w2 = rw_calls w1 ->
  calls_ok (left - 1) (rpc_url c :: tried) w2 w3 -> calls_ok left tried w w3.
Proof.
  intros Hl Hc Hu Hk Hc1 Hk1 Hc2 Hk2 (Hc3 & l & Hk3 & Hw). split; [congruence|].
  exists (replicate k (rpc_url c) ++ l). split.
  - by rewrite Hk3, Hk2, Hk1, app_assoc.
  - apply within_step; auto.
    + by apply usable_not_tried.
    + by apply list_elem_of_fmap_2.
    + by rewrite <- Hc1, <- Hc2.
Qed.

Lemma failover_loop_calls fuel start mf fc le tried w :
  wp (failover_loop fuel start mf fc le tried)
    (fun r w' => calls_ok (mf + 1 - fc) tried w w') w.
Proof.
  revert fc le tried w. induction fuel as [|fuel IH]; intros fc le tried w;
    [by apply calls_ok_none|]. unfold wp. cbn [failover_loop].
  destruct (Z.leb_spec fc mf); simpl; [|by apply calls_ok_none].
  destruct (0 <? _); simpl; [|by apply calls_ok_none].
  pose proof (get_provider_spec tried w) as Hg. unfold wp in Hg.
  destruct (get_provider tried w) as [[[p url]|e] w1]; destruct Hg as (Hc1 & Hk1 & Hg);
    cbn [fst snd] in *.
  - destruct Hg as (_ & c & Hc & <- & Hu).
    pose proof (try_with_retries_spec p (rpc_url c) w1) as Ht. unfold wp in Ht.
    destruct (try_with_retries p (rpc_url c) w1) as [r w2].
    destruct Ht as (Hc2 & (k & Hk & Hk2) & _). cbn [fst snd] in *.
    assert (forall w3 w4, cfgs w3 = cfgs w2 -> rw_calls w3 = rw_calls w2 ->
      calls_ok (mf + 1 - fc - 1) (rpc_url c :: tried) w3 w4 ->
      calls_ok (mf + 1 - fc) tried w w4) as Hstep.
    { intros w3 w4 Hc3 Hk3. apply (calls_ok_step _ _ _ w2 w3 _ c k); try done; try lia.
      - congruence.
      - by rewrite Hk2, Hk1. }
    destruct r as [t|[e|e]].
    + by apply (Hstep w2); [..|apply calls_ok_none].
    + destruct (should_mark_failed e); [|by apply (Hstep w2); [..|apply calls_ok_none]].
      pose proof (mark_keeps (E' := E) w2) as Hm. unfold wp, bindM in *.
      destruct (mark_current_as_failed w2) as [r w3]. destruct Hm as (Hr & Hc3 & Hk3);
        simpl in Hr; subst r.
      by apply (Hstep w3); [..|apply calls_ok_none].
    + pose proof (mark_keeps (E' := E) w2) as Hm. unfold wp, bindM in *.
      destruct (mark_current_as_failed w2) as [r w3]. destruct Hm as (Hr & Hc3 & Hk3);
        simpl in Hr; subst r.
      cbn [fst snd] in *. apply (Hstep w3); [done..|].
      replace (mf + 1 - fc - 1) with (mf + 1 - (fc + 1)) by lia. apply IH.
  - destruct (_ || _); [by apply calls_ok_none|].
    pose proof (mark_keeps (E' := E) w1) as Hm. unfold wp, bindM in *.
    destruct (mark_current_as_failed w1) as [r w3]. destruct Hm as (Hr & Hc3 & Hk3);
        simpl in Hr; subst r.
    cbn [fst snd] in *.
    destruct (IH (fc + 1) (Some e) tried w3) as (Hc4 & l & Hk4 & Hw). split; [congruence|].
    exists l. split; [by rewrite Hk4, Hk3, Hk1|].
    apply (within_weaken (mf + 1 - (fc + 1))); [lia|]. by rewrite <- Hc1, <- Hc3.
Qed.

(** Fuel for the failovers that are left is enough: more gives the same. *)
Lemma failover_loop_fuel fuel fuel' start mf fc le tried w :
  mf + 1 - fc <= Z.of_nat fuel -> mf + 1 - fc <= Z.of_nat fuel' ->
  failover_loop fuel start mf fc le tried w = failover_loop fuel' start mf fc le tried w.
Proof.
  revert fuel' fc le tried w. induction fuel as [|fuel IH]; intros fuel' fc le tried w Hf Hf'.
  { destruct fuel'; [done|]. cbn [failover_loop].
    destruct (Z.leb_spec fc mf); [lia|]. done. }
  destruct fuel' as [|fuel']; cbn [failover_loop].
  { destruct (Z.leb_spec fc mf); [lia|]. done. }
  assert (Hnext : forall e tr w1,
    (do* mark_current_as_failed in failover_loop fuel start mf (fc + 1) (Some e) tr) w1 =
    (do* mark_current_as_failed in failover_loop fuel' start mf (fc + 1) (Some e) tr) w1).
  { intros e tr w1. unfold bindM. destruct (mark_current_as_failed w1) as [[] w2]; [|done].
    apply IH; lia. }
  destruct (_ && _); [|done].
  destruct (get_provider tried w) as [[[p url]|e] w1].
  - destruct (try_with_retries p url w1) as [[t|[e|e]] w2]; [done|done|apply Hnext].
  - destruct (_ || _); [done|apply Hnext].
Qed.

(** C32. A retried RPC call ends, and sends at most [max_retries] requests (or one) to any URL, however
    the endpoints are selected and whatever they answer, at most that many times
    [max_failovers] + 1 (or the number of endpoints) in all, and only to configured URLs.
    The bound on the rounds of the failover loop is never what stops it: any larger bound gives
    the same result. *)
Theorem retry_bounded w :
  (0 < length (cfgs w))%nat -> 0 <= rc_max_failovers config ->
  Z.of_nat (length (cfgs w)) < 2 ^ 64 ->
  let K := Z.max 1 (rc_max_retries config) in
  let n := Z.min (rc_max_failovers config + 1) (Z.of_nat (length (cfgs w))) in
  wp retry_rpc_call (fun _ w' => exists l, rw_calls w' = rw_calls w ++ l /\
    Z.of_nat (length l) <= n * K /\
    (forall url, calls_to url l <= K) /\
    (forall url, url ∈ l -> url ∈ rpc_url <$> cfgs w)) w /\
  forall fuel, n <= Z.of_nat fuel ->
    failover_loop fuel (length (rw_calls w)) (n - 1) 0 None [] w = retry_rpc_call w.
Proof.
  intros Hlen Hmf Hsmall K n. unfold retry_rpc_call, wp. cbv zeta. unfold provider_count.
  rewrite wrapu_small by (unfold in_u; lia). set (mf := Z.min _ _).
  split; [|intros fuel Hfuel; replace (n - 1) with mf by lia; apply failover_loop_fuel; lia].
  destruct (failover_loop_calls (Z.to_nat mf + 2) (length (rw_calls w)) mf 0 None [] w)
    as (_ & l & Hk & (H1 & H2 & H3)).
  exists l. split; [done|]. split_and!.
  - unfold n, K. lia.
  - exact H2.
  - intros url Hu. apply (H3 _ Hu).
Qed.

(** ** Failover reaches a working endpoint *)

Lemma tried_room (urls tried : list string) u :
  NoDup tried -> (u ∉ tried) -> u ∈ urls -> (forall x, x ∈ tried -> x ∈ urls) ->
  (length tried < length urls)%nat.
Proof.
  intros Hnd Hu Hin Hsub.
  assert (length (u :: tried) <= length urls)%nat; [|done].
  apply (submseteq_length (u :: tried) urls), NoDup_submseteq; [by constructor|].
  intros x [->|Hx]%elem_of_cons; auto.
Qed.

Section Working.
Context (cs : list RpcConfig) (good : RpcConfig) (p0 : P).
Context (inits : forall c, c ∈ cs -> exists p, provider_initializer (rpc_url c) = Ok p)
  (all_retriable : forall k p e, operation k p = Err e -> is_retriable_error e = true)
  (retries : 1 < rc_max_retries config)
  (good_in : good ∈ cs) (good_weight : rpc_weight good <> 0)
  (good_init : provider_initializer (rpc_url good) = Ok p0)
  (good_works : forall k, exists t, operation k p0 = Ok t).

Lemma failover_finds fuel start mf le tried w :
  cfgs w = cs -> NoDup tried -> (rpc_url good ∉ tried) ->
  (forall x, x ∈ tried -> x ∈ rpc_url <$> cs) ->
  Z.of_nat (length cs) - 1 <= mf -> (length cs < fuel + length tried)%nat ->
  is_ok (fst (failover_loop fuel start mf (Z.of_nat (length tried)) le tried w)) = true.
Proof.
  revert le tried w. induction fuel as [|fuel IH]; intros le tried w Hcs Hnd Hgt Hsub Hmf Hfuel;
    pose proof (tried_room (rpc_url <$> cs) tried _ Hnd Hgt (list_elem_of_fmap_2 _ _ _ good_in) Hsub)
      as Hroom; rewrite length_fmap in Hroom; [lia|].
  cbn [failover_loop]. unfold provider_count. rewrite Hcs.
  rewrite (proj2 (Z.leb_le _ mf)), (proj2 (Z.ltb_lt 0 _)) by lia. simpl.
  pose proof (get_provider_spec tried w) as Hg. unfold wp in Hg.
  destruct (get_provider tried w) as [[[p url]|e] w1]; destruct Hg as (Hc1 & _ & Hg);
    cbn [fst snd] in *; rewrite Hcs in *.
  2: { destruct Hg as [Hno|(c & Hc & Herr)].
       - assert (usable tried good = true) as Hu; [|by rewrite (Hno good good_in) in Hu].
         unfold usable. rewrite (proj2 (Z.eqb_neq _ 0) good_weight). simpl.
         by rewrite bool_decide_eq_false_2.
       - destruct (inits c Hc) as [p Hp]. congruence. }
  destruct Hg as (Hinit & c & Hc & <- & Hu).
  pose proof (try_with_retries_spec p (rpc_url c) w1) as Ht. unfold wp in Ht.
  destruct (try_with_retries p (rpc_url c) w1) as [r w2].
  destruct Ht as (Hc2 & _ & Hr). cbn [fst snd] in *.
  destruct r as [t|[e|e]]; [done|..].
  { destruct Hr as [Hn (k & Hk)]. by rewrite (all_retriable _ _ _ Hk) in Hn; specialize (Hn retries). }
  destruct Hr as (k & Hk).
  pose proof (mark_keeps (E' := E) w2) as Hm. unfold wp, bindM in *.
  destruct (mark_current_as_failed w2) as [r w3]. destruct Hm as (Hr & Hc3 & _).
  simpl in Hr; subst r. cbn [fst snd] in *.
  replace (Z.of_nat (length tried) + 1) with (Z.of_nat (length (rpc_url c :: tried)))
    by (simpl; lia).
  apply IH; [congruence| | | |done|simpl; lia].
  - constructor; [by apply usable_not_tried|done].
  - intros [Heq|?]%elem_of_cons; [|done]. rewrite <- Heq, good_init in Hinit.
    destruct (good_works k). congruence.
  - intros x [->|?]%elem_of_cons; [by apply list_elem_of_fmap_2|auto].
Qed.
End Working.

(** C31. Failover finds a working endpoint: if one configured endpoint with a weight above zero
    always answers, every endpoint can be initialised, all errors are retriable, and the
    configuration allows more than one attempt and enough failovers, then the call succeeds,
    wherever the selection starts, whatever it draws at random, and whichever endpoints are
    paused. *)
Theorem failover_reaches_working_endpoint good p0 w :
  (forall c, c ∈ cfgs w -> exists p, provider_initializer (rpc_url c) = Ok p) ->
  (forall k p e, operation k p = Err e -> is_retriable_error e = true) ->
  1 < rc_max_retries config ->
  Z.of_nat (length (cfgs w)) - 1 <= rc_max_failovers config -> Z.of_nat (length (cfgs w)) < 2 ^ 64 ->
  good ∈ cfgs w -> rpc_weight good <> 0 -> provider_initializer (rpc_url good) = Ok p0 ->
  (forall k, exists t, operation k p0 = Ok t) ->
  exists t, fst (retry_rpc_call w) = Ok t.
Proof.
  intros Hi Hr Hm Hf Hs Hg Hw Hp Ho.
  assert (0 < length (cfgs w))%nat as Hpos by (destruct (cfgs w); [by apply elem_of_nil in Hg|simpl; lia]).
  assert (is_ok (fst (retry_rpc_call w)) = true) as Hok.
  - unfold retry_rpc_call, provider_count. rewrite wrapu_small by (unfold in_u; lia).
    apply (failover_finds (cfgs w) good p0 Hi Hr Hm Hg Hw Hp Ho _ _ _ None []); try done.
    + constructor.
    + apply not_elem_of_nil.
    + intros x Hx. by apply elem_of_nil in Hx.
    + lia.
    + simpl. lia.
  - destruct (fst (retry_rpc_call w)); [eauto|done].
Qed.

(** ** An endpoint that cannot be initialised *)

(** Two endpoints of equal weight, the next selection starting at the first one. *)
Definition two_endpoints (a b : string) (weight next threshold pause expiration : Z)
  : RpcSelector :=
  {| sel_configs := [{| rpc_url := a; rpc_weight := weight |};
                     {| rpc_url := b; rpc_weight := weight |}];
     sel_weights_dist := None; sel_next_index := next; sel_current_index := 0;
     sel_has_current := false; sel_failure_threshold := threshold;
     sel_pause_duration_secs := pause; sel_failure_expiration_secs := expiration |}.

(** Round-robin takes the first endpoint when it is not paused, and moves on to the second. *)
Lemma select_first a b weight next threshold pause expiration cur has h tick calls slept :
  weight <> 0 -> next mod 2 = 0 -> paused_until (get_metadata a h) = None ->
  let sel := two_endpoints a b weight next threshold pause expiration in
  let sel0 := {| sel_configs := sel_configs sel; sel_weights_dist := None;
                 sel_next_index := next; sel_current_index := cur; sel_has_current := has;
                 sel_failure_threshold := threshold; sel_pause_duration_secs := pause;
                 sel_failure_expiration_secs := expiration |} in
  exists h', select_url_internal []
    {| rw_selector := sel0; rw_health := h; rw_tick := tick; rw_calls := calls;
       rw_slept := slept |} =
    (Ok a, {| rw_selector := set_current 0 (set_next_index 1 sel); rw_health := h';
              rw_tick := S tick; rw_calls := calls; rw_slept := slept |}) /\
    paused_until (get_metadata a h') = None /\
    (length (failure_timestamps (get_metadata a h')) <=
     length (failure_timestamps (get_metadata a h)))%nat.
Proof.
  intros Hw Hn Hp sel sel0.
  unfold select_url_internal, or_else, try_weighted_selection, try_round_robin_selection, bindM,
    getsM. simpl. change (Z.of_nat 2) with 2. rewrite Hn. simpl.
  unfold acceptable, usable. simpl. rewrite (proj2 (Z.eqb_neq _ 0) Hw). simpl.
  unfold check_paused, bindM. simpl.
  pose proof (is_paused_answer (rpc_now tick) a threshold (duration_secs expiration) h) as Ha.
  pose proof (cleanup_metadata threshold (duration_secs expiration) (rpc_now tick) a h) as Hc.
  rewrite <- read_path_equivalent in Hc.
  destruct (is_paused _ a _ _ h) as [q h']. simpl in *. destruct Hc as (_ & _ & Hm).
  assert (q = false) as ->.
  { rewrite Ha. unfold paused_now. rewrite Hp. by rewrite andb_false_r. }
  simpl. exists h'. split; [done|]. rewrite Hm. simpl. rewrite Hp. split; [done|].
  apply retain_le.
Qed.

Lemma first_failure_no_pause now a threshold pause expiration h :
  2 <= threshold -> paused_until (get_metadata a h) = None ->
  failure_timestamps (get_metadata a h) = [] ->
  paused_until (get_metadata a (mark_failed now a threshold pause expiration h)) = None.
Proof.
  intros Ht Hp Hf. unfold mark_failed. rewrite get_metadata_insert, decide_True by done. simpl.
  rewrite Hf, Hp. simpl. unfold keep_last, count_u32. rewrite length_drop. simpl length.
  rewrite (proj2 (Z.leb_gt _ _)); [done|]. rewrite wrapu_small by (unfold in_u; lia). lia.
Qed.

(** An iteration whose provider could not be obtained. *)
Lemma failover_loop_init fuel start mf fc le tried w e w1 :
  (0 < length (cfgs w))%nat -> fc <= mf -> get_provider tried w = (Err e, w1) ->
  failover_loop (S fuel) start mf fc le tried w =
  if mf <? fc + 1 then (Err e, w1)
  else failover_loop fuel start mf (fc + 1) (Some e) tried (snd (mark_current_as_failed (E := E) w1)).
Proof.
  intros Hl Hfc Hg. cbn [failover_loop]. unfold provider_count.
  rewrite (proj2 (Z.leb_le fc mf) Hfc), (proj2 (Z.ltb_lt 0 _)), Hg by lia. simpl.
  rewrite (proj2 (Z.eqb_neq _ 0)), orb_false_r by lia. destruct (mf <? fc + 1); [done|].
  pose proof (mark_keeps (E' := E) w1) as Hm. unfold wp, bindM in *.
  destruct (mark_current_as_failed w1) as [r w2]. destruct Hm as (Hr & _).
  simpl in Hr; by subst r.
Qed.

(** An endpoint whose client cannot be initialised is selected again: with two endpoints of
    equal weight and one failover, if the endpoint at which the round-robin stands cannot be
    initialised, the whole call fails with its error and no request is sent, although the
    other endpoint was never tried.  The URL is not recorded as tried, and marking the endpoint
    as failed moves the round-robin past the other one. *)
Theorem init_failure_blocks_failover a b e weight threshold pause expiration tick calls slept :
  weight <> 0 -> 2 <= threshold -> rc_max_failovers config = 1 ->
  provider_initializer a = Err e ->
  let w := {| rw_selector := two_endpoints a b weight 0 threshold pause expiration;
              rw_health := ∅; rw_tick := tick; rw_calls := calls; rw_slept := slept |} in
  wp retry_rpc_call (fun r w' => r = Err e /\ rw_calls w' = calls) w.
Proof.
  intros Hw Ht Hmf Hinit w. unfold wp, retry_rpc_call, provider_count.
  change (length (sel_configs (rw_selector w))) with 2%nat. rewrite Hmf.
  change (Z.to_nat (Z.min 1 (wrapu 64 (Z.of_nat 2 - 1))) + 2)%nat with 3%nat.
  change (Z.min 1 (wrapu 64 (Z.of_nat 2 - 1))) with 1.
  assert (get_metadata a ∅ = metadata_empty) as Hemp
    by (unfold get_metadata; by rewrite lookup_empty).
  destruct (select_first a b weight 0 threshold pause expiration 0 false ∅ tick calls slept Hw
    eq_refl) as (h1 & Hs1 & Hp1 & Hl1); [by rewrite Hemp|]. rewrite Hemp in Hl1.
  set (sel1 := set_current 0 _) in Hs1.
  set (h2 := mark_failed (rpc_now (S tick)) a threshold (duration_secs pause)
    (duration_secs expiration) h1).
  assert (paused_until (get_metadata a h2) = None) as Hp2.
  { apply first_failure_no_pause; [done|done|]. simpl in Hl1.
    destruct (failure_timestamps (get_metadata a h1)); [done|simpl in Hl1; lia]. }
  destruct (select_first a b weight 2 threshold pause expiration 0 false h2 (S (S tick)) calls
    slept Hw eq_refl Hp2) as (h3 & Hs3 & _).
  assert (forall w1 w2, select_url_internal [] w1 = (Ok a, w2) ->
    get_provider [] w1 = (Err e, w2)) as Hgp.
  { intros w1 w2 Hs. unfold get_provider, get_client, map_errM, bindM. rewrite Hs. simpl.
    unfold liftM. by rewrite Hinit. }
  erewrite failover_loop_init; [|simpl; lia|lia|exact (Hgp _ _ Hs1)].
  change (1 <? 0 + 1) with false. cbv iota.
  unfold mark_current_as_failed. cbn -[failover_loop mark_failed]. fold h2.
  erewrite failover_loop_init; [|simpl; lia|lia|exact (Hgp _ _ Hs3)].
  done.
Qed.
End Retry.

(** ** Instances *)

Section RetryExample.
#[local] Existing Instance demo_rpc_env.

Definition demo_retry : RetryConfig :=
  {| rc_max_retries := 2; rc_max_failovers := 1; rc_base_delay_ms := 10; rc_max_delay_ms := 50 |}.

(** Endpoint [a] times out, endpoint [b] answers 7; a provider is its URL. *)
Definition demo_operation (_ : nat) (p : string) : result string Z :=
  if String.eqb p "http://b" then Ok 7 else Err "timeout"%string.

Definition demo_call : M RpcWorld string Z :=
  retry_rpc_call (fun _ => true) (fun _ => true) id (fun url => Ok url) demo_operation "getBlock"
    demo_retry.

Lemma retry_bounded_witness :
  exists l, rw_calls (snd (demo_call demo_rpc_world)) = [] ++ l /\
    Z.of_nat (length l) <= Z.min (1 + 1) 2 * Z.max 1 2 /\
    (forall url, calls_to url l <= Z.max 1 2) /\
    (forall url, url ∈ l -> url ∈ rpc_url <$> demo_configs).
Proof.
  apply (retry_bounded (fun _ => true) (fun _ => true) id (fun url => Ok url) demo_operation
    "getBlock" demo_retry demo_rpc_world); simpl; lia.
Defined.

Lemma failover_reaches_working_endpoint_witness :
  exists t, fst (demo_call demo_rpc_world) = Ok t.
Proof.
  apply (failover_reaches_working_endpoint (fun _ => true) (fun _ => true) id (fun url => Ok url)
    demo_operation "getBlock" demo_retry {| rpc_url := "http://b"; rpc_weight := 100 |}
    "http://b"%string demo_rpc_world); try done.
  - intros c _. by exists (rpc_url c).
  - apply list_elem_of_In. simpl. auto.
  - intros k. by exists 7.
Defined.

Lemma init_failure_blocks_failover_witness :
  wp (retry_rpc_call (T := Z) (fun _ => true) (fun _ => true) id
        (fun url => if String.eqb url "http://a" then Err "bad url"%string else Ok url)
        (fun _ _ => Ok 7) "getBlock" demo_retry)
    (fun r w' => r = Err "bad url"%string /\ rw_calls w' = [])
    {| rw_selector := two_endpoints "http://a" "http://b" 100 0 3 60 60;
       rw_health := ∅; rw_tick := 0; rw_calls := []; rw_slept := [] |}.
Proof. apply init_failure_blocks_failover; try reflexivity; lia. Defined.
End RetryExample.
