(* ===== verification/EvmUtils.v ===== *)
(** * EVM transaction helpers

    [domain/transaction/evm/utils.rs], [domain/transaction/common.rs], the age functions of
    [domain/transaction/util.rs], [utils/transaction.rs], [utils/time.rs] and the constants of
    [constants/evm_transaction.rs].  Ages are nanoseconds; chrono durations compare exactly. *)

From S2P Require Import Prelude Decimal Errors Model Config Repository Counter Jobs Effects.
Open Scope Z_scope.

(** ** Constants *)

Definition DEFAULT_TX_VALID_TIMESPAN : Z := 8 * 60 * 60 * 1000.
Definition DEFAULT_GAS_LIMIT : Z := 21000.
Definition ERC20_TRANSFER_GAS_LIMIT : Z := 65000.
Definition ERC721_TRANSFER_GAS_LIMIT : Z := 80000.
Definition COMPLEX_GAS_LIMIT : Z := 200000.
Definition GAS_TX_CREATE_CONTRACT : Z := 53000.
Definition GAS_TX_DATA_ZERO : Z := 4.
Definition GAS_TX_DATA_NONZERO : Z := 16.
Definition GAS_LIMIT_BUFFER_MULTIPLIER : Z := 110.
Definition MAXIMUM_TX_ATTEMPTS : Z := 50.
Definition MAXIMUM_NOOP_RETRY_ATTEMPTS : Z := 50.
Definition ARBITRUM_TIME_TO_RESUBMIT : Z := 20000.
Definition ARBITRUM_GAS_LIMIT : Z := 50000.
Definition EVM_MIN_AGE_FOR_RESUBMIT_SECONDS : Z := 20.
Definition EVM_PREPARE_TIMEOUT_MINUTES : Z := 2.
Definition EVM_RESEND_TIMEOUT_SECONDS : Z := 25.
Definition EVM_PENDING_RECOVERY_TRIGGER_SECONDS : Z := 20.
Definition EVM_MIN_AGE_FOR_HASH_RECOVERY_MINUTES : Z := 2.
Definition EVM_MIN_HASHES_FOR_RECOVERY : Z := 3.
Definition MAX_NONCE_TOO_HIGH_RETRIES : Z := 3.
Definition MAX_GAP_SCAN_RANGE : Z := 100.

Definition seconds (n : Z) : Z := n * 10 ^ 9.
Definition minutes (n : Z) : Z := seconds (60 * n).
Definition milliseconds (n : Z) : Z := n * 10 ^ 6.

(** ** Resubmission timeouts and gas limits ([utils/transaction.rs]) *)

Definition minutes_ms (m : Z) : Z := m * 60 * 1000.

Definition get_resubmit_timeout_for_speed (speed : option Speed.t) : Z :=
  match default DEFAULT_TRANSACTION_SPEED speed with
  | Speed.SafeLow => minutes_ms 10
  | Speed.Average => minutes_ms 5
  | Speed.Fast => minutes_ms 3
  | Speed.Fastest => minutes_ms 2
  end.

(** [timeout * 2_i64.pow((attempts - 1) as u32)]: the power and the product wrap. *)
Definition get_resubmit_timeout_with_backoff (timeout attempts : Z) : Z :=
  if attempts <=? 1 then timeout
  else wrapi 64 (timeout * wrapi 64 (2 ^ wrapu 32 (attempts - 1))).

Definition get_evm_default_gas_limit_for_tx (d : EvmTransactionData) : Z :=
  match evm_data d with
  | None => DEFAULT_GAS_LIMIT
  | Some data =>
      if starts_with data "0xa9059cbb" then ERC20_TRANSFER_GAS_LIMIT
      else if starts_with data "0x23b872dd" then ERC721_TRANSFER_GAS_LIMIT
      else COMPLEX_GAS_LIMIT
  end.

(** ** State guards *)

Definition status_name (s : TransactionStatus) : string :=
  match s with
  | Canceled => "Canceled" | Pending => "Pending" | Sent => "Sent" | Submitted => "Submitted"
  | Mined => "Mined" | Confirmed => "Confirmed" | Failed => "Failed" | Expired => "Expired"
  end.

Fixpoint status_names (l : list TransactionStatus) : string :=
  match l with
  | [] => ""
  | [s] => status_name s
  | s :: l' => status_name s +:+ ", " +:+ status_names l'
  end.

Definition invalid_state_prefix (operation : option string) : string :=
  match operation with
  | Some op => "Invalid transaction state for " +:+ op +:+ ". "
  | None => "Invalid transaction state. "
  end.

Definition ensure_status (tx : TransactionRepoModel) (expected : TransactionStatus)
    (operation : option string) : result TransactionError.t unit :=
  if negb (status_eqb (tx_status tx) expected) then
    Err (TransactionError.ValidationError
      (invalid_state_prefix operation +:+ "Current: " +:+ status_name (tx_status tx) +:+
       ", Expected: " +:+ status_name expected))
  else Ok tt.

Definition ensure_status_one_of (tx : TransactionRepoModel) (expected : list TransactionStatus)
    (operation : option string) : result TransactionError.t unit :=
  if negb (status_in (tx_status tx) expected) then
    Err (TransactionError.ValidationError
      (invalid_state_prefix operation +:+ "Current: " +:+ status_name (tx_status tx) +:+
       ", Expected one of: [" +:+ status_names expected +:+ "]"))
  else Ok tt.

Definition is_active_nonce_status (s : TransactionStatus) : bool :=
  match s with Pending | Sent | Submitted | Mined => true | _ => false end.

Definition is_unsubmitted_transaction (s : TransactionStatus) : bool :=
  match s with Pending | Sent => true | _ => false end.

(** ** NOOPs *)

Definition is_noop (d : EvmTransactionData) : bool :=
  (evm_value d =? 0)
  && match evm_data d with Some data => String.eqb data "0x" | None => false end
  && bool_decide (evm_to d = Some (evm_from d))
  && bool_decide (is_Some (evm_speed d)).

Definition too_many_attempts (tx : TransactionRepoModel) : bool :=
  MAXIMUM_TX_ATTEMPTS <? Z.of_nat (length (tx_hashes tx)).

Definition too_many_noop_attempts (tx : TransactionRepoModel) : bool :=
  MAXIMUM_NOOP_RETRY_ATTEMPTS <? default 0 (tx_noop_count tx).

(** [current >= tx_block + required] on [u64]s: the sum wraps. *)
Definition has_enough_confirmations (tx_block_number current_block_number
    required_confirmations : Z) : bool :=
  wrapu 64 (tx_block_number + required_confirmations) <=? current_block_number.

(** The data of a NOOP before its gas limit is known: a zero-value call to self. *)
Definition noop_data (d : EvmTransactionData) (gas_limit : option Z) : EvmTransactionData :=
  let 'Build_EvmTransactionData gp _ n _ _ fr _ ci h s _ mf mp r := d in
  Build_EvmTransactionData gp gas_limit n 0 (Some "0x"%string) fr (Some fr) ci h s
    (Some DEFAULT_TRANSACTION_SPEED) mf mp r.

Section WithEnv.
Context `{Chrono} `{ServerConfig} `{Env}.
Context {S C : Type} `{!TransactionRepository S} `{!TransactionCounter C}.

(** [make_noop] with [Some(provider)]; the gas estimate sees the NOOP fields with the old
    gas limit. *)
Definition make_noop (d : EvmTransactionData) (network : EvmNetwork)
  : T S C EvmTransactionData :=
  if is_arbitrum network then
    let* r := try_ (call (fun t => rpc_estimate_gas t (noop_data d (evm_gas_limit d)))) in
    match r with
    | Ok estimated_gas => retM (noop_data d (Some (Z.max estimated_gas DEFAULT_GAS_LIMIT)))
    | Err _ => retM (noop_data d (Some ARBITRUM_GAS_LIMIT))
    end
  else retM (noop_data d (Some DEFAULT_GAS_LIMIT)).

(** ** Validity and ages *)

Definition is_transaction_valid (created_at : string) (valid_until : option string)
  : T S C bool :=
  match valid_until with
  | Some v =>
      match parse_rfc3339 v with
      | Some t => let* n := now in retM (n <? t)
      | None => retM false
      end
  | None =>
      match parse_rfc3339 created_at with
      | Some t => let* n := now in retM (n <? t + milliseconds DEFAULT_TX_VALID_TIMESPAN)
      | None => retM false
      end
  end.

Definition get_age_since_created (tx : TransactionRepoModel) : T S C Z :=
  match parse_rfc3339 (tx_created_at tx) with
  | Some created => let* n := now in retM (n - created)
  | None => failM (TransactionError.UnexpectedError
      ("Invalid created_at timestamp: " +:+ parse_rfc3339_error (tx_created_at tx)))
  end.

Definition get_age_since_status_change (tx : TransactionRepoModel) : T S C Z :=
  match tx_sent_at tx with
  | Some sent_at =>
      match parse_rfc3339 sent_at with
      | Some sent => let* n := now in retM (n - sent)
      | None => failM (TransactionError.UnexpectedError
          ("Error parsing sent_at time: " +:+ parse_rfc3339_error sent_at))
      end
  | None => get_age_since_created tx
  end.

Definition get_age_of_sent_at (tx : TransactionRepoModel) : T S C Z :=
  let* n := now in
  match tx_sent_at tx with
  | None => failM (TransactionError.UnexpectedError "Transaction sent_at time is missing")
  | Some s =>
      match parse_rfc3339 s with
      | Some sent => retM (n - sent)
      | None => failM (TransactionError.UnexpectedError "Error parsing sent_at time")
      end
  end.

Definition is_too_early_to_resubmit (tx : TransactionRepoModel) : T S C bool :=
  let* age := get_age_since_created tx in
  retM (age <? seconds EVM_MIN_AGE_FOR_RESUBMIT_SECONDS).

Definition calculate_scheduled_timestamp {E} (delay_seconds : Z) : M (W S C) E Z :=
  let* n := now in retM (n / 10 ^ 9 + delay_seconds).
End WithEnv.
