(* ===== verification/Price.v ===== *)
(** * Gas pricing

    [domain/transaction/evm/price_calculator.rs] and
    [domain/transaction/evm/replacement.rs].  The gas price service behind
    [EvmGasPriceServiceTrait] and the network specific [PriceParamsHandler] are parameters
    ([GasService]); everything the calculator does with their answers is modelled, with the
    128-bit saturating and wrapping arithmetic of the source. *)

From S2P Require Import Prelude Decimal Errors Model Config Repository Counter Jobs Effects.
From S2P Require Import Sample EvmUtils.
Open Scope Z_scope.

Record SpeedPrices := {
  sp_safe_low : Z;
  sp_average : Z;
  sp_fast : Z;
  sp_fastest : Z;
}.

Record GasPrices := {
  gp_legacy_prices : SpeedPrices;
  gp_max_priority_fee_per_gas : SpeedPrices;
  gp_base_fee_per_gas : Z;
}.

Definition price_for_speed (p : SpeedPrices) (speed : Speed.t) : Z :=
  match speed with
  | Speed.SafeLow => sp_safe_low p
  | Speed.Average => sp_average p
  | Speed.Fast => sp_fast p
  | Speed.Fastest => sp_fastest p
  end.

(** ** Arithmetic *)

(** [U256] operators wrap. *)
Definition calculate_total_cost (p : PriceParams) (eip1559 : bool) (gas_limit value : Z) : Z :=
  let price := if eip1559 then default 0 (pp_max_fee_per_gas p)
               else default 0 (pp_gas_price p) in
  wrapu 256 (wrapu 256 (wrapu 256 (price * gas_limit) + value) + default 0 (pp_extra_fee p)).

Definition calculate_min_bump (base_price : Z) : Z :=
  let bumped_price := sat_mul u128_max base_price 11 / 10 in
  Z.max bumped_price (sat_add u128_max base_price 1).

Definition PRECISION : Z := 1000000000.
Definition MINUTE_AND_HALF_MS : Z := 90000.
Definition MAX_BASE_FEE_MULTIPLIER : Z := 10 * PRECISION.

(** [(1.125f64.powi(n_blocks) * 1e9) as u128], capped at 10.0.  1.125 is 9/8, and below 20
    blocks the exact value of the product is further from the next integer than the rounding
    error of the double computation, so its integer part is that of the exact quotient; from
    20 blocks on the cap applies.  The code panics on a block time of zero. *)
Definition get_base_fee_multiplier (network : EvmNetwork) : Z :=
  let n_blocks := MINUTE_AND_HALF_MS / net_average_blocktime_ms network in
  if 20 <=? n_blocks then MAX_BASE_FEE_MULTIPLIER
  else Z.min (9 ^ n_blocks * PRECISION / 8 ^ n_blocks) MAX_BASE_FEE_MULTIPLIER.

(** The product and the sum are [u128] operations and wrap. *)
Definition calculate_max_fee_per_gas (base_fee_wei max_priority_fee_wei : Z)
    (network : EvmNetwork) : Z :=
  let multiplied_base_fee :=
    wrapu 128 (base_fee_wei * get_base_fee_multiplier network) / PRECISION in
  wrapu 128 (multiplied_base_fee + max_priority_fee_wei).

Definition cap_gas_price (price cap : Z) : Z := Z.min price cap.

Definition get_market_price_for_speed (prices : GasPrices) (eip1559 : bool) (speed : Speed.t)
  : Z :=
  if eip1559 then price_for_speed (gp_max_priority_fee_per_gas prices) speed
  else price_for_speed (gp_legacy_prices prices) speed.

Definition set_total_cost (c : Z) (p : PriceParams) : PriceParams :=
  let 'Build_PriceParams a b c' d e _ := p in Build_PriceParams a b c' d e c.

Definition set_is_min_bumped (x : option bool) (p : PriceParams) : PriceParams :=
  let 'Build_PriceParams a b c _ e f := p in Build_PriceParams a b c x e f.

(** ** The calculator *)

Class GasService := {
  gs_network : EvmNetwork;
  gs_prices : nat -> result TransactionError.t GasPrices;
  gs_legacy_prices : nat -> result TransactionError.t SpeedPrices;
  gs_handler :
    option (nat -> EvmTransactionData -> PriceParams -> result TransactionError.t PriceParams);
}.

Section Calculator.
Context `{GasService}.

Definition handle_eip1559_bump (prices : GasPrices) (gas_price_cap : Z)
    (maybe_speed : option Speed.t) (max_fee max_priority_fee : Z) : PriceParams :=
  let speed := default DEFAULT_TRANSACTION_SPEED maybe_speed in
  let min_bump_max_fee := calculate_min_bump max_fee in
  let min_bump_max_priority := calculate_min_bump max_priority_fee in
  let current_market_priority := get_market_price_for_speed prices true speed in
  let bumped_priority_fee :=
    if min_bump_max_priority <=? current_market_priority then current_market_priority
    else min_bump_max_priority in
  let base_fee_wei := gp_base_fee_per_gas prices in
  let bumped_max_fee_per_gas :=
    if min_bump_max_fee <=? base_fee_wei then base_fee_wei else min_bump_max_fee in
  let recommended_max_fee_per_gas :=
    calculate_max_fee_per_gas base_fee_wei bumped_priority_fee gs_network in
  let final_max_fee := Z.max bumped_max_fee_per_gas recommended_max_fee_per_gas in
  let capped_priority := cap_gas_price bumped_priority_fee gas_price_cap in
  let capped_max_fee := cap_gas_price final_max_fee gas_price_cap in
  let is_min_bumped :=
    (min_bump_max_priority <=? capped_priority) && (min_bump_max_fee <=? capped_max_fee) in
  {| pp_gas_price := None;
     pp_max_fee_per_gas := Some capped_max_fee;
     pp_max_priority_fee_per_gas := Some capped_priority;
     pp_is_min_bumped := Some is_min_bumped;
     pp_extra_fee := None;
     pp_total_cost := 0 |}.

Definition handle_legacy_bump (prices : GasPrices) (gas_price_cap : Z)
    (maybe_speed : option Speed.t) (gas_price : Z) : PriceParams :=
  let speed := default Speed.Fast maybe_speed in
  let min_bump_gas_price := calculate_min_bump gas_price in
  let current_market_price := get_market_price_for_speed prices false speed in
  let bumped_gas_price :=
    if min_bump_gas_price <=? current_market_price then current_market_price
    else min_bump_gas_price in
  let capped_gas_price := cap_gas_price bumped_gas_price gas_price_cap in
  {| pp_gas_price := Some capped_gas_price;
     pp_max_fee_per_gas := None;
     pp_max_priority_fee_per_gas := None;
     pp_is_min_bumped := Some (min_bump_gas_price <=? capped_gas_price);
     pp_extra_fee := None;
     pp_total_cost := 0 |}.

Definition unpriced (gas_price max_fee max_priority : option Z) : PriceParams :=
  {| pp_gas_price := gas_price; pp_max_fee_per_gas := max_fee;
     pp_max_priority_fee_per_gas := max_priority; pp_is_min_bumped := None;
     pp_extra_fee := None; pp_total_cost := 0 |}.

Definition fetch_legacy_price_params (d : EvmTransactionData)
  : result TransactionError.t PriceParams :=
  let? gas_price := ok_or (evm_gas_price d)
    (TransactionError.NotSupported "Gas price is required for legacy transactions") in
  Ok (unpriced (Some gas_price) None None).

Definition fetch_eip1559_price_params (d : EvmTransactionData)
  : result TransactionError.t PriceParams :=
  let? max_fee := ok_or (evm_max_fee_per_gas d)
    (TransactionError.NotSupported "Max fee per gas is required for EIP1559 transactions") in
  let? max_priority_fee := ok_or (evm_max_priority_fee_per_gas d)
    (TransactionError.NotSupported
       "Max priority fee per gas is required for EIP1559 transactions") in
  Ok (unpriced None (Some max_fee) (Some max_priority_fee)).

Definition fetch_eip1559_speed_params (t : nat) (speed : Speed.t)
  : result TransactionError.t PriceParams :=
  let? prices := gs_prices t in
  let priority_fee := price_for_speed (gp_max_priority_fee_per_gas prices) speed in
  let max_fee := calculate_max_fee_per_gas (gp_base_fee_per_gas prices) priority_fee gs_network in
  Ok (unpriced None (Some max_fee) (Some priority_fee)).

Definition fetch_legacy_speed_params (t : nat) (speed : Speed.t)
  : result TransactionError.t PriceParams :=
  let? prices := gs_legacy_prices t in
  Ok (unpriced (Some (price_for_speed prices speed)) None None).

Definition fetch_speed_price_params (t : nat) (d : EvmTransactionData) (r : RelayerRepoModel)
  : result TransactionError.t PriceParams :=
  let? speed := ok_or (evm_speed d) (TransactionError.NotSupported "Speed is required") in
  let use_legacy :=
    bool_decide (pol_eip1559_pricing (get_evm_policy (rel_policies r)) = Some false)
    || net_is_legacy gs_network in
  if use_legacy then fetch_legacy_speed_params t speed
  else fetch_eip1559_speed_params t speed.

Definition fetch_price_params_based_on_tx_type (t : nat) (d : EvmTransactionData)
    (r : RelayerRepoModel) : result TransactionError.t PriceParams :=
  if is_legacy d then fetch_legacy_price_params d
  else if is_eip1559 d then fetch_eip1559_price_params d
  else if is_speed d then fetch_speed_price_params t d r
  else Err (TransactionError.NotSupported "Invalid transaction type").

Definition apply_gas_price_cap_and_constraints (p : PriceParams) (r : RelayerRepoModel)
  : PriceParams :=
  let gas_price_cap := default u128_max (pol_gas_price_cap (get_evm_policy (rel_policies r))) in
  match pp_max_fee_per_gas p, pp_max_priority_fee_per_gas p with
  | Some max_fee, Some max_priority =>
      let capped_max_fee := cap_gas_price max_fee gas_price_cap in
      {| pp_gas_price := None;
         pp_max_fee_per_gas := Some capped_max_fee;
         pp_max_priority_fee_per_gas := Some (cap_gas_price max_priority capped_max_fee);
         pp_is_min_bumped := pp_is_min_bumped p;
         pp_extra_fee := pp_extra_fee p;
         pp_total_cost := pp_total_cost p |}
  | _, _ =>
      {| pp_gas_price := Some (cap_gas_price (default 0 (pp_gas_price p)) gas_price_cap);
         pp_max_fee_per_gas := None;
         pp_max_priority_fee_per_gas := None;
         pp_is_min_bumped := pp_is_min_bumped p;
         pp_extra_fee := pp_extra_fee p;
         pp_total_cost := pp_total_cost p |}
  end.

(** The transaction type is taken from [tx_data], as it was before pricing. *)
Definition finalize_price_params (t : nat) (r : RelayerRepoModel) (d : EvmTransactionData)
    (p : PriceParams) : result TransactionError.t PriceParams :=
  let eip1559 := is_eip1559 d in
  let? p :=
    match gs_handler with
    | Some handler =>
        let? p' := handler t d p in Ok (apply_gas_price_cap_and_constraints p' r)
    | None => Ok p
    end in
  if pp_total_cost p =? 0 then
    Ok (set_total_cost
          (calculate_total_cost p eip1559 (default DEFAULT_GAS_LIMIT (evm_gas_limit d))
             (evm_value d)) p)
  else Ok p.

Definition calc_get_transaction_price_params (t : nat) (d : EvmTransactionData)
    (r : RelayerRepoModel) : result TransactionError.t PriceParams :=
  let? p := fetch_price_params_based_on_tx_type t d r in
  finalize_price_params t r d (apply_gas_price_cap_and_constraints p r).

Definition calc_calculate_bumped_gas_price (t : nat) (d : EvmTransactionData)
    (r : RelayerRepoModel) (force_bump : bool) : result TransactionError.t PriceParams :=
  if lacks_mempool gs_network || is_arbitrum gs_network then
    let? p := calc_get_transaction_price_params t d r in
    Ok (set_is_min_bumped (Some true) p)
  else
    let? prices := gs_prices t in
    let cap := if force_bump then u128_max
               else default u128_max (pol_gas_price_cap (get_evm_policy (rel_policies r))) in
    let? bumped :=
      match evm_max_fee_per_gas d, evm_max_priority_fee_per_gas d, evm_gas_price d with
      | Some max_fee, Some max_priority_fee, _ =>
          Ok (handle_eip1559_bump prices cap (evm_speed d) max_fee max_priority_fee)
      | None, None, Some gas_price =>
          Ok (handle_legacy_bump prices cap (evm_speed d) gas_price)
      | _, _, _ => Err (TransactionError.InvalidType
                          "Transaction missing required gas price parameters")
      end in
    finalize_price_params t r d bumped.

#[global] Instance price_calculator : PriceCalculator := {|
  get_transaction_price_params := calc_get_transaction_price_params;
  calculate_bumped_gas_price := calc_calculate_bumped_gas_price;
|}.
End Calculator.

(** ** Replacement pricing *)

Definition has_explicit_prices (d : EvmTransactionData) : bool :=
  bool_decide (is_Some (evm_gas_price d)) || bool_decide (is_Some (evm_max_fee_per_gas d))
  || bool_decide (is_Some (evm_max_priority_fee_per_gas d)).

Definition check_transaction_compatibility (old_data new_data : EvmTransactionData)
  : result TransactionError.t unit :=
  if negb (has_explicit_prices new_data) then Ok tt
  else if is_legacy old_data && is_eip1559 new_data then
    Err (TransactionError.ValidationError
           "Cannot replace legacy transaction with EIP1559 transaction")
  else if negb (is_legacy old_data) && is_legacy new_data then
    Err (TransactionError.ValidationError
           "Cannot replace EIP1559 transaction with legacy transaction")
  else Ok tt.

Definition partial_eip1559 {A} : result TransactionError.t A :=
  Err (TransactionError.ValidationError
    "Partial EIP1559 transaction: both max_fee_per_gas and max_priority_fee_per_gas must be provided together").

Definition validate_price_bump_requirements (old_data new_data : EvmTransactionData)
  : result TransactionError.t unit :=
  let old_has_legacy_pricing := bool_decide (is_Some (evm_gas_price old_data)) in
  let old_has_eip1559_pricing := is_eip1559 old_data in
  let new_has_legacy_pricing := bool_decide (is_Some (evm_gas_price new_data)) in
  let new_has_eip1559_pricing := is_eip1559 new_data in
  if negb new_has_legacy_pricing && negb new_has_eip1559_pricing then
    Err (TransactionError.ValidationError "New transaction must have pricing data")
  else if negb (is_legacy new_data) &&
    negb (Bool.eqb (bool_decide (is_Some (evm_max_fee_per_gas new_data)))
                   (bool_decide (is_Some (evm_max_priority_fee_per_gas new_data))))
  then partial_eip1559
  else if negb old_has_legacy_pricing && negb old_has_eip1559_pricing then Ok tt
  else
    let? is_sufficient_bump :=
      match evm_gas_price old_data, evm_gas_price new_data with
      | Some old_gas_price, Some new_gas_price =>
          Ok (calculate_min_bump old_gas_price <=? new_gas_price)
      | _, _ =>
          match evm_max_fee_per_gas old_data, evm_max_fee_per_gas new_data with
          | Some old_max_fee, Some new_max_fee =>
              match evm_max_priority_fee_per_gas old_data,
                    evm_max_priority_fee_per_gas new_data with
              | Some old_priority, Some new_priority =>
                  Ok ((calculate_min_bump old_max_fee <=? new_max_fee) &&
                      (calculate_min_bump old_priority <=? new_priority))
              | _, _ => partial_eip1559
              end
          | _, _ => partial_eip1559
          end
      end in
    if negb is_sufficient_bump then
      Err (TransactionError.ValidationError
             "Gas price increase does not meet minimum bump requirement")
    else Ok tt.

Definition exceeds_cap (what : string) (price : option Z) (cap : Z)
  : result TransactionError.t unit :=
  match price with
  | Some p => if cap <? p then
                Err (TransactionError.ValidationError
                  (what +:+ print_dec p +:+ " exceeds gas price cap " +:+ print_dec cap))
              else Ok tt
  | None => Ok tt
  end.

Definition validate_explicit_price_bump (old_data new_data : EvmTransactionData)
    (r : RelayerRepoModel) (network_lacks_mempool : bool)
  : result TransactionError.t PriceParams :=
  let p := unpriced (evm_gas_price new_data) (evm_max_fee_per_gas new_data)
             (evm_max_priority_fee_per_gas new_data) in
  let cap :=
    default DEFAULT_EVM_GAS_PRICE_CAP (pol_gas_price_cap (get_evm_policy (rel_policies r))) in
  let? _ := exceeds_cap "Gas price " (evm_gas_price new_data) cap in
  let? _ := exceeds_cap "Max fee per gas " (evm_max_fee_per_gas new_data) cap in
  let? _ := if negb (Bool.eqb (bool_decide (is_Some (pp_max_fee_per_gas p)))
                              (bool_decide (is_Some (pp_max_priority_fee_per_gas p))))
            then partial_eip1559 else Ok tt in
  let? _ := if negb network_lacks_mempool
            then validate_price_bump_requirements old_data new_data else Ok tt in
  let? _ := match pp_max_fee_per_gas p, pp_max_priority_fee_per_gas p with
            | Some max_fee, Some max_priority =>
                if max_fee <? max_priority then
                  Err (TransactionError.ValidationError
                         "Max priority fee cannot exceed max fee per gas")
                else Ok tt
            | _, _ => Ok tt
            end in
  let total := calculate_total_cost p (bool_decide (is_Some (pp_max_fee_per_gas p)))
                 (default DEFAULT_GAS_LIMIT (evm_gas_limit old_data)) (evm_value new_data) in
  Ok (set_is_min_bumped (Some true) (set_total_cost total p)).

Section Replacement.
Context `{PriceCalculator}.

Definition calculate_replacement_price (t : nat) (old_data new_data : EvmTransactionData)
    (r : RelayerRepoModel) (network_lacks_mempool : bool)
  : result TransactionError.t PriceParams :=
  let use_legacy := is_legacy old_data ||
    bool_decide (pol_eip1559_pricing (get_evm_policy (rel_policies r)) = Some false) in
  let? p := get_transaction_price_params t new_data r in
  if network_lacks_mempool then Ok (set_is_min_bumped (Some true) p)
  else
    let insufficient := Err (TransactionError.ValidationError
      "Unable to calculate sufficient price bump for speed-based replacement") in
    if use_legacy then
      match evm_gas_price old_data, pp_gas_price p with
      | Some old_gas_price, Some new_gas_price =>
          let min_required := calculate_min_bump old_gas_price in
          Ok {| pp_gas_price := Some (if new_gas_price <? min_required then min_required
                                      else new_gas_price);
                pp_max_fee_per_gas := pp_max_fee_per_gas p;
                pp_max_priority_fee_per_gas := pp_max_priority_fee_per_gas p;
                pp_is_min_bumped := Some true;
                pp_extra_fee := pp_extra_fee p;
                pp_total_cost := pp_total_cost p |}
      | _, _ => insufficient
      end
    else
      match evm_max_fee_per_gas old_data, pp_max_fee_per_gas p,
            evm_max_priority_fee_per_gas old_data, pp_max_priority_fee_per_gas p with
      | Some old_max_fee, Some new_max_fee, Some old_priority, Some new_priority =>
          let min_required := calculate_min_bump old_max_fee in
          let min_required_priority := calculate_min_bump old_priority in
          Ok {| pp_gas_price := pp_gas_price p;
                pp_max_fee_per_gas := Some (if new_max_fee <? min_required then min_required
                                            else new_max_fee);
                pp_max_priority_fee_per_gas :=
                  Some (if new_priority <? min_required_priority then min_required_priority
                        else new_priority);
                pp_is_min_bumped := Some true;
                pp_extra_fee := pp_extra_fee p;
                pp_total_cost := pp_total_cost p |}
      | _, _, _, _ => insufficient
      end.

Definition determine_replacement_pricing (t : nat) (old_data new_data : EvmTransactionData)
    (r : RelayerRepoModel) (network_lacks_mempool : bool)
  : result TransactionError.t PriceParams :=
  let? _ := check_transaction_compatibility old_data new_data in
  if has_explicit_prices new_data
  then validate_explicit_price_bump old_data new_data r network_lacks_mempool
  else calculate_replacement_price t old_data new_data r network_lacks_mempool.
End Replacement.

(** ** Properties of pricing *)

(** [y] replaces a price [x] in the mempool of a node that asks for a 10% bump: at least
    110% of it, rounded down, and more than it. *)
Definition outbids (x y : Z) : Prop := 11 * x / 10 <= y /\ x < y.

(** The fees of [p] replace those of [old], as the kind of [old] asks. *)
Definition fees_outbid (old : EvmTransactionData) (p : PriceParams) : Prop :=
  match evm_max_fee_per_gas old, evm_max_priority_fee_per_gas old, evm_gas_price old with
  | Some f, Some q, _ =>
      exists f' q', pp_max_fee_per_gas p = Some f' /\ pp_max_priority_fee_per_gas p = Some q' /\
        outbids f f' /\ outbids q q'
  | _, _, Some g => exists g', pp_gas_price p = Some g' /\ outbids g g'
  | _, _, None => False
  end.

(** A price whose 110% fits a [u128]. *)
Definition bumpable (o : option Z) : Prop :=
  match o with Some x => 0 <= x /\ 11 * x <= u128_max | None => True end.

Definition bumpable_fees (d : EvmTransactionData) : Prop :=
  bumpable (evm_gas_price d) /\ bumpable (evm_max_fee_per_gas d) /\
  bumpable (evm_max_priority_fee_per_gas d).

(** Fee data of one of the two kinds, and nothing half filled in. *)
Definition complete_fees (d : EvmTransactionData) : bool :=
  match evm_max_fee_per_gas d, evm_max_priority_fee_per_gas d, evm_gas_price d with
  | Some _, Some _, _ | None, None, Some _ => true
  | _, _, _ => false
  end.

(** No fee above [cap], and the priority fee within the total fee. *)
Definition fees_within (cap : Z) (p : PriceParams) : Prop :=
  (forall g, pp_gas_price p = Some g -> g <= cap) /\
  (forall f, pp_max_fee_per_gas p = Some f -> f <= cap /\
     forall q, pp_max_priority_fee_per_gas p = Some q -> q <= f).

Definition relayer_cap (r : RelayerRepoModel) : Z :=
  default u128_max (pol_gas_price_cap (get_evm_policy (rel_policies r))).

Lemma min_bump_eq x :
  0 <= x -> 11 * x <= u128_max -> calculate_min_bump x = Z.max (11 * x / 10) (x + 1).
Proof.
  intros Hx Hm. unfold calculate_min_bump, sat_mul, sat_add.
  rewrite (Z.mul_comm x 11), !Z.min_r by (unfold u128_max in *; lia). done.
Qed.

Lemma min_bump_outbids x y :
  0 <= x -> 11 * x <= u128_max -> calculate_min_bump x <= y -> outbids x y.
Proof. intros Hx Hm. rewrite min_bump_eq by done. unfold outbids. lia. Qed.

Lemma min_bump_max x : 0 <= x <= u128_max -> calculate_min_bump x <= u128_max.
Proof.
  intros Hx. unfold calculate_min_bump, sat_mul, sat_add. apply Z.max_lub; [|lia].
  apply Z.div_le_upper_bound; lia.
Qed.

(** The minimum price that replaces a price [x] is the mempool rule's, the larger of 110%
    of [x] rounded down and [x + 1], whenever 110% of [x] fits 128 bits; for every 128-bit
    price below the maximum it is a larger 128-bit price, so that a bump always raises the
    price and never overflows. *)
Theorem min_bump_correct x :
  0 <= x < u128_max ->
  x < calculate_min_bump x <= u128_max /\
  (11 * x <= u128_max -> calculate_min_bump x = Z.max (11 * x / 10) (x + 1)).
Proof.
  intros Hx. split_and!.
  - unfold calculate_min_bump, sat_add. lia.
  - apply min_bump_max. lia.
  - intros Hm. apply min_bump_eq; lia.
Qed.

Section PriceProperties.
Context `{GasService}.

Lemma finalize_no_handler t r d p :
  gs_handler = None ->
  exists c, finalize_price_params t r d p = Ok (set_total_cost c p).
Proof.
  intros Hh. unfold finalize_price_params. rewrite Hh. simpl.
  destruct (pp_total_cost p =? 0); [by eexists|]. exists (pp_total_cost p). by destruct p.
Qed.

Lemma set_total_cost_fields c p :
  pp_gas_price (set_total_cost c p) = pp_gas_price p /\
  pp_max_fee_per_gas (set_total_cost c p) = pp_max_fee_per_gas p /\
  pp_max_priority_fee_per_gas (set_total_cost c p) = pp_max_priority_fee_per_gas p /\
  pp_is_min_bumped (set_total_cost c p) = pp_is_min_bumped p.
Proof. by destruct p. Qed.

(** Without a network specific handler, finalization fills in the total cost only. *)
Ltac finalize Hh :=
  match goal with |- context [finalize_price_params ?t ?r ?d ?b] =>
    let c := fresh "c" in
    destruct (finalize_no_handler t r d b Hh) as [c ->];
    destruct (set_total_cost_fields c b) as (Hgp & Hmf & Hmp & Hmb)
  end.

(** On a network with a mempool, when the calculator reports a bumped price as sufficient
    ([is_min_bumped]), every fee of the new transaction outbids the old one by the mempool's
    rule, and no fee is above the relayer's gas price cap unless the bump is forced. *)
Theorem bumped_price_replaces t d r force p :
  gs_handler = None -> lacks_mempool gs_network || is_arbitrum gs_network = false ->
  bumpable_fees d -> calc_calculate_bumped_gas_price t d r force = Ok p ->
  pp_is_min_bumped p = Some true ->
  fees_outbid d p /\
  (force = false -> forall x, (pp_gas_price p = Some x \/ pp_max_fee_per_gas p = Some x \/
     pp_max_priority_fee_per_gas p = Some x) -> x <= relayer_cap r).
Proof.
  intros Hh Hm (Hg & Hf & Hq). unfold calc_calculate_bumped_gas_price. rewrite Hm.
  destruct (gs_prices t) as [prices|]; [|done]. cbn [result_bind].
  set (cap := if force then _ else _).
  assert (force = false -> cap = relayer_cap r) as Hcap by (subst cap; by intros ->).
  clearbody cap. unfold fees_outbid.
  destruct (evm_max_fee_per_gas d) as [f|], (evm_max_priority_fee_per_gas d) as [q|],
    (evm_gas_price d) as [g|]; simpl in *; try done.
  all: finalize Hh.
  all: intros [= <-]; rewrite ?Hgp, ?Hmf, ?Hmp, ?Hmb; simpl; intros [= Hb];
    rewrite ?andb_true_iff, ?Z.leb_le in *.
  all: split; [|intros Hforce x; rewrite <- (Hcap Hforce); unfold cap_gas_price;
                intros [?|[?|?]]; simplify_eq; lia].
  - destruct Hb as [? ?]. do 2 eexists.
    split_and!; [done..| |]; apply min_bump_outbids; tauto.
  - destruct Hb as [? ?]. do 2 eexists.
    split_and!; [done..| |]; apply min_bump_outbids; tauto.
  - eexists. split; [done|]. apply min_bump_outbids; tauto.
Qed.

(** A forced bump (the one used for NOOPs) of a transaction with complete fee data, on a
    network with a mempool, is always reported as sufficient: a NOOP can always be resubmitted
    whatever the gas price cap of the relayer is. *)
Theorem forced_bump_succeeds t d r prices :
  gs_handler = None -> lacks_mempool gs_network || is_arbitrum gs_network = false ->
  bumpable_fees d -> gs_prices t = Ok prices -> complete_fees d = true ->
  exists p, calc_calculate_bumped_gas_price t d r true = Ok p /\ pp_is_min_bumped p = Some true.
Proof.
  intros Hh Hm (Hg & Hf & Hq) Hp Hk. unfold calc_calculate_bumped_gas_price.
  rewrite Hm, Hp. cbn [result_bind]. unfold complete_fees in Hk.
  assert (forall x y, bumpable (Some x) -> calculate_min_bump x <= y ->
            calculate_min_bump x <= cap_gas_price y u128_max) as Hcap.
  { intros x y [? ?] ?. unfold cap_gas_price. apply Z.min_glb; [done|].
    apply min_bump_max. lia. }
  destruct (evm_max_fee_per_gas d) as [f|], (evm_max_priority_fee_per_gas d) as [q|],
    (evm_gas_price d) as [g|]; simpl in *; try done.
  all: finalize Hh; eexists; (split; [done|]); rewrite Hmb; simpl; f_equal; rewrite ?andb_true_iff, ?Z.leb_le.
  all: repeat split; apply Hcap; try done; repeat case_match; rewrite ?Z.leb_le, ?Z.leb_gt in *; lia.
Qed.

Lemma cap_fees_within p r :
  fees_within (relayer_cap r) (apply_gas_price_cap_and_constraints p r).
Proof.
  unfold fees_within, apply_gas_price_cap_and_constraints. fold (relayer_cap r).
  unfold cap_gas_price. destruct p as [g [f|] [q|] b e c]; simpl.
  all: split; [intros x [= <-] || done | intros x [= <-] || done]; try lia.
  split; [lia|]. intros y [= <-]. lia.
Qed.

Lemma fees_within_total cap c p : fees_within cap p -> fees_within cap (set_total_cost c p).
Proof. by destruct p. Qed.

(** C33. The price of a transaction at preparation, whatever the fee market, the explicit fees
    of the request and a network specific handler say, stays within the relayer's gas price
    cap, and its priority fee never exceeds its total fee. *)
Theorem prepared_price_within_cap t d r p :
  calc_get_transaction_price_params t d r = Ok p -> fees_within (relayer_cap r) p.
Proof.
  unfold calc_get_transaction_price_params.
  destruct (fetch_price_params_based_on_tx_type t d r) as [p0|]; [|done]. simpl.
  unfold finalize_price_params. destruct gs_handler as [handler|]; simpl.
  - destruct (handler t d _) as [p1|]; simpl; [|done]. pose proof (cap_fees_within p1 r).
    case_match; intros [= <-]; [by apply fees_within_total | done].
  - pose proof (cap_fees_within p0 r).
    case_match; intros [= <-]; [by apply fees_within_total | done].
Qed.

(** The speed based price of an EIP-1559 transaction without fees of its own, on a network
    without a price handler, carries a total cost of the transferred value alone: the gas
    is left out, as the kind of the transaction is read from the data before it was priced.
    The balance check of preparation sees that cost. *)
Theorem speed_price_cost_omits_gas t d r p :
  gs_handler = None -> is_legacy d = false -> is_eip1559 d = false -> is_speed d = true ->
  pol_eip1559_pricing (get_evm_policy (rel_policies r)) <> Some false ->
  net_is_legacy gs_network = false -> 0 <= evm_value d < 2 ^ 256 ->
  calc_get_transaction_price_params t d r = Ok p ->
  is_Some (pp_max_fee_per_gas p) /\ pp_total_cost p = evm_value d.
Proof.
  intros Hh Hl He Hs Hpol Hnet Hv. unfold calc_get_transaction_price_params.
  unfold fetch_price_params_based_on_tx_type, fetch_speed_price_params. rewrite Hl, He, Hs.
  unfold is_speed in Hs. apply bool_decide_eq_true in Hs as [speed Hspeed]. rewrite Hspeed.
  rewrite bool_decide_eq_false_2, Hnet by done. simpl. unfold fetch_eip1559_speed_params.
  destruct (gs_prices t) as [prices|]; [|done]. simpl.
  unfold finalize_price_params. rewrite Hh, He. simpl. intros [= <-]. simpl. split; [by eexists|].
  unfold calculate_total_cost. simpl. change (wrapu 256 0) with 0.
  rewrite Z.add_0_l, Z.add_0_r, !wrapu_small by (by rewrite ?wrapu_small). done.
Qed.
End PriceProperties.

Section ReplacementProperties.
Context `{PriceCalculator}.

(** The replacement price of a transaction built for replacement outbids the old fees by the
    mempool's rule, on a network with a mempool, whatever price calculator is used. *)
Theorem replacement_outbids t old request r p :
  bumpable_fees old ->
  determine_replacement_pricing t old (for_replacement old request) r false = Ok p ->
  (is_legacy old = true \/ pol_eip1559_pricing (get_evm_policy (rel_policies r)) = Some false ->
     exists g g', evm_gas_price old = Some g /\ pp_gas_price p = Some g' /\ outbids g g') /\
  (is_legacy old = false -> pol_eip1559_pricing (get_evm_policy (rel_policies r)) <> Some false ->
     fees_outbid old p).
Proof.
  intros (Hg & Hf & Hq). unfold determine_replacement_pricing, calculate_replacement_price. simpl.
  destruct (get_transaction_price_params t _ r) as [p0|]; [|done]. simpl.
  assert (forall x y, bumpable (Some x) ->
    outbids x (if y <? calculate_min_bump x then calculate_min_bump x else y)) as Hout.
  { intros x y [? ?]. apply min_bump_outbids; [done..|]. destruct (Z.ltb_spec y (calculate_min_bump x)); lia. }
  destruct (is_legacy old) eqn:Hl; simpl.
  - destruct (evm_gas_price old) as [g|], (pp_gas_price p0) as [g'|]; try done.
    intros [= <-]. simpl. split; [|done]. intros _. do 2 eexists. split_and!; try done. by apply Hout.
  - case_bool_decide as Hpol.
    + destruct (evm_gas_price old) as [g|], (pp_gas_price p0) as [g'|]; try done.
      intros [= <-]. simpl. split; [|done]. intros _. do 2 eexists. split_and!; try done.
      by apply Hout.
    + unfold fees_outbid.
      destruct (evm_max_fee_per_gas old) as [f|], (pp_max_fee_per_gas p0) as [f'|],
        (evm_max_priority_fee_per_gas old) as [q|], (pp_max_priority_fee_per_gas p0) as [q'|];
        try done.
      intros [= <-]. simpl. split; [by intros [|]|]. intros _ _. do 2 eexists.
      split_and!; try done; by apply Hout.
Qed.

End ReplacementProperties.

(** ** Instances *)

Section Witnesses.

Definition demo_network : EvmNetwork :=
  {| net_network := "sepolia"; net_rpc_urls := []; net_explorer_urls := None;
     net_average_blocktime_ms := 12000; net_is_testnet := true; net_tags := [];
     net_chain_id := 11155111; net_required_confirmations := 6;
     net_status_check_initial_delay_seconds := 8; net_status_check_retry_delay_seconds := 8;
     net_features := ["eip1559"%string]; net_symbol := "ETH"; net_gas_price_cache := None |}.

Definition demo_speeds : SpeedPrices :=
  {| sp_safe_low := 1; sp_average := 2; sp_fast := 3; sp_fastest := 4 |}.

Definition demo_gas_prices : GasPrices :=
  {| gp_legacy_prices := demo_speeds; gp_max_priority_fee_per_gas := demo_speeds;
     gp_base_fee_per_gas := 10 |}.

Definition demo_gas_service : GasService :=
  {| gs_network := demo_network; gs_prices := fun _ => Ok demo_gas_prices;
     gs_legacy_prices := fun _ => Ok demo_speeds; gs_handler := None |}.
#[local] Existing Instance demo_gas_service.

(** An EIP-1559 transaction with fees 100 and 20, a legacy one with price 20, and a speed
    based one without fees. *)
Definition demo_eip1559 : EvmTransactionData :=
  {| evm_gas_price := None; evm_gas_limit := Some 21000; evm_nonce := Some 3; evm_value := 1000;
     evm_data := None; evm_from := "0xa1"; evm_to := Some "0xb2"%string;
     evm_chain_id := 11155111; evm_hash := None; evm_signature := None; evm_speed := None;
     evm_max_fee_per_gas := Some 100; evm_max_priority_fee_per_gas := Some 20;
     evm_raw := None |}.

Definition demo_speed : EvmTransactionData :=
  {| evm_gas_price := None; evm_gas_limit := Some 21000; evm_nonce := None; evm_value := 1000;
     evm_data := None; evm_from := "0xa1"; evm_to := Some "0xb2"%string;
     evm_chain_id := 11155111; evm_hash := None; evm_signature := None;
     evm_speed := Some Speed.Fast; evm_max_fee_per_gas := None;
     evm_max_priority_fee_per_gas := None; evm_raw := None |}.

Definition demo_request : EvmTransactionRequest :=
  {| req_to := Some "0xb2"%string; req_value := 5; req_data := None;
     req_gas_limit := Some 21000; req_gas_price := None; req_speed := Some Speed.Fast;
     req_max_fee_per_gas := None; req_max_priority_fee_per_gas := None;
     req_valid_until := None |}.

Lemma min_bump_correct_witness : calculate_min_bump 105 = 115.
Proof. by rewrite (proj2 (min_bump_correct 105 ltac:(split; [lia|reflexivity]))). Defined.

Lemma bumped_price_replaces_witness :
  exists p, calc_calculate_bumped_gas_price 0 demo_eip1559 sample_relayer false = Ok p /\
    fees_outbid demo_eip1559 p.
Proof.
  eexists. split; [vm_compute; reflexivity|].
  eapply (bumped_price_replaces 0 demo_eip1559 sample_relayer false);
    [reflexivity|reflexivity| |vm_compute; reflexivity|reflexivity].
  repeat split; vm_compute; discriminate.
Defined.

Lemma forced_bump_succeeds_witness :
  exists p, calc_calculate_bumped_gas_price 0 demo_eip1559 sample_relayer true = Ok p /\
    pp_is_min_bumped p = Some true.
Proof.
  apply (forced_bump_succeeds 0 demo_eip1559 sample_relayer demo_gas_prices);
    [reflexivity|reflexivity| |reflexivity|reflexivity].
  repeat split; vm_compute; discriminate.
Defined.

Lemma prepared_price_within_cap_witness :
  exists p, calc_get_transaction_price_params 0 demo_speed sample_relayer = Ok p /\
    fees_within (relayer_cap sample_relayer) p.
Proof.
  eexists. split; [vm_compute; reflexivity|].
  by apply (prepared_price_within_cap 0 demo_speed sample_relayer).
Defined.

Lemma speed_price_cost_omits_gas_witness :
  exists p, calc_get_transaction_price_params 0 demo_speed sample_relayer = Ok p /\
    is_Some (pp_max_fee_per_gas p) /\ pp_total_cost p = 1000.
Proof.
  eexists. split; [vm_compute; reflexivity|].
  eapply (speed_price_cost_omits_gas 0 demo_speed sample_relayer);
    [reflexivity..|discriminate|reflexivity| |vm_compute; reflexivity].
  split; [discriminate|reflexivity].
Defined.

Lemma replacement_outbids_witness :
  exists p, determine_replacement_pricing 0 demo_eip1559
      (for_replacement demo_eip1559 demo_request) sample_relayer false = Ok p /\
    fees_outbid demo_eip1559 p.
Proof.
  eexists. split; [vm_compute; reflexivity|].
  eapply (replacement_outbids 0 demo_eip1559 demo_request sample_relayer);
    [|vm_compute; reflexivity|reflexivity|discriminate].
  repeat split; vm_compute; discriminate.
Defined.
End Witnesses.
