(* ===== verification/EvmTransaction.v ===== *)
(** * The EVM transaction lifecycle

    [domain/transaction/evm/evm_transaction.rs]: the classification of submission errors, the
    job helpers, preparation, submission and resubmission.  Each [async fn] of
    [EvmRelayerTransaction] is a definition of the same name in the effect monad; logging is
    left out.  Cancellation and replacement are in [EvmStatus], with the status code they
    use. *)

From S2P Require Import Prelude Decimal Errors Model Config Repository Counter Jobs Effects.
From S2P Require Import EvmUtils Price.
Open Scope Z_scope.

(** ** Classification of submission errors *)

Module SubmissionErrorKind.
Inductive t : Type :=
| NonceTooLow
| AlreadyKnown
| ReplacementUnderpriced
| NonceTooHigh
| Other (msg : string).
End SubmissionErrorKind.

(** The first pattern of the list that the message contains, in list order. *)
Fixpoint first_match (msg : string) (patterns : list string) : option string :=
  match patterns with
  | [] => None
  | p :: ps => if str_contains msg p then Some p else first_match msg ps
  end.

Definition classify_submission_error (original : string) : SubmissionErrorKind.t :=
  let error_msg := to_lowercase original in
  match first_match error_msg ALREADY_SUBMITTED_PATTERNS with
  | Some pattern =>
      if String.eqb pattern "nonce too low" || String.eqb pattern "nonce is too low"
      then SubmissionErrorKind.NonceTooLow
      else if String.eqb pattern "replacement transaction underpriced"
      then SubmissionErrorKind.ReplacementUnderpriced
      else SubmissionErrorKind.AlreadyKnown
  | None =>
      if matches_known_transaction error_msg then SubmissionErrorKind.AlreadyKnown
      else match first_match error_msg NONCE_TOO_HIGH_PATTERNS with
           | Some _ => SubmissionErrorKind.NonceTooHigh
           | None => SubmissionErrorKind.Other original
           end
  end.

Definition is_already_submitted_error (original : string) : bool :=
  match classify_submission_error original with
  | SubmissionErrorKind.NonceTooLow
  | SubmissionErrorKind.AlreadyKnown
  | SubmissionErrorKind.ReplacementUnderpriced => true
  | _ => false
  end.

(** [{error_kind:?}] *)
Definition error_kind_debug (k : SubmissionErrorKind.t) : string :=
  match k with
  | SubmissionErrorKind.NonceTooLow => "NonceTooLow"
  | SubmissionErrorKind.AlreadyKnown => "AlreadyKnown"
  | SubmissionErrorKind.ReplacementUnderpriced => "ReplacementUnderpriced"
  | SubmissionErrorKind.NonceTooHigh => "NonceTooHigh"
  | SubmissionErrorKind.Other msg => "Other(" +:+ msg +:+ ")"
  end.

Definition TX_NONCE_RECONCILE_TRIGGER : string := "tx_nonce_reconcile_trigger".

(** Partial updates, by the fields they set. *)
Definition upd_with_status (s : TransactionStatus) : TransactionUpdateRequest :=
  {| upd_status := Some s; upd_status_reason := None; upd_sent_at := None;
     upd_confirmed_at := None; upd_network_data := None; upd_priced_at := None;
     upd_hashes := None; upd_noop_count := None; upd_is_canceled := None;
     upd_delete_at := None; upd_metadata := None |}.

Definition upd_with_reason (r : option string) (u : TransactionUpdateRequest)
  : TransactionUpdateRequest :=
  let 'Build_TransactionUpdateRequest a _ c d e f g h i j k := u in
  Build_TransactionUpdateRequest a r c d e f g h i j k.

Definition upd_with_sent_at (x : option string) (u : TransactionUpdateRequest)
  : TransactionUpdateRequest :=
  let 'Build_TransactionUpdateRequest a b _ d e f g h i j k := u in
  Build_TransactionUpdateRequest a b x d e f g h i j k.

Definition upd_with_confirmed_at (x : option string) (u : TransactionUpdateRequest)
  : TransactionUpdateRequest :=
  let 'Build_TransactionUpdateRequest a b c _ e f g h i j k := u in
  Build_TransactionUpdateRequest a b c x e f g h i j k.

Definition upd_with_network_data (x : EvmTransactionData) (u : TransactionUpdateRequest)
  : TransactionUpdateRequest :=
  let 'Build_TransactionUpdateRequest a b c d _ f g h i j k := u in
  Build_TransactionUpdateRequest a b c d (Some (EvmData x)) f g h i j k.

Definition upd_with_priced_at (x : option string) (u : TransactionUpdateRequest)
  : TransactionUpdateRequest :=
  let 'Build_TransactionUpdateRequest a b c d e _ g h i j k := u in
  Build_TransactionUpdateRequest a b c d e x g h i j k.

Definition upd_with_hashes (x : list string) (u : TransactionUpdateRequest)
  : TransactionUpdateRequest :=
  let 'Build_TransactionUpdateRequest a b c d e f _ h i j k := u in
  Build_TransactionUpdateRequest a b c d e f (Some x) h i j k.

Definition upd_with_noop (count : Z) (is_canceled : option bool) (u : TransactionUpdateRequest)
  : TransactionUpdateRequest :=
  let 'Build_TransactionUpdateRequest a b c d e f g _ _ j k := u in
  Build_TransactionUpdateRequest a b c d e f g (Some count) is_canceled j k.

Definition upd_with_metadata (x : option TransactionMetadata) (u : TransactionUpdateRequest)
  : TransactionUpdateRequest :=
  let 'Build_TransactionUpdateRequest a b c d e f g h i j _ := u in
  Build_TransactionUpdateRequest a b c d e f g h i j x.

Section Evm.
Context `{Chrono} `{ServerConfig} `{Env} `{PriceCalculator}.
Context {S C : Type} `{!TransactionRepository S} `{!TransactionCounter C}.

(** The relayer the transaction handler was built for. *)
Context (relayer : RelayerRepoModel).

(** ** Job helpers *)

(** Best effort: a lookup failure keeps the default delay. *)
Definition status_check_retry_delay : T S C Z :=
  let* r := try_ (call (fun t => networks_by_name t (rel_network relayer))) in
  match r with
  | Ok (Some model) =>
      match evm_network_try_from model with
      | Ok network => retM (net_status_check_retry_delay_seconds network)
      | Err _ => retM DEFAULT_EVM_STATUS_CHECK_RETRY_DELAY_SECONDS
      end
  | _ => retM DEFAULT_EVM_STATUS_CHECK_RETRY_DELAY_SECONDS
  end.

Definition produce_or (what : string) (job : QueuedJob) : T S C unit :=
  map_errM (fun e => TransactionError.UnexpectedError
    ("Failed to " +:+ what +:+ ": " +:+ job_producer_error_display e)) (produce job).

Definition schedule_status_check (tx : TransactionRepoModel) (delay_seconds : option Z)
    (metadata : option (gmap string string)) : T S C unit :=
  let* delay := match delay_seconds with
                | Some d => let* t := calculate_scheduled_timestamp d in retM (Some t)
                | None => retM None
                end in
  let* retry_delay := status_check_retry_delay in
  let job := with_status_check_retry_delay_seconds retry_delay
               (status_check_new (tx_id tx) (tx_relayer_id tx) NtEvm) in
  let job := match metadata with
             | Some m => status_check_with_metadata m job
             | None => job
             end in
  produce_or "schedule status check" (JStatusCheck job delay).

Definition schedule_nonce_recovery_status_check (tx : TransactionRepoModel)
    (error_kind : SubmissionErrorKind.t) : T S C unit :=
  schedule_status_check tx None
    (Some {[ TX_NONCE_RECONCILE_TRIGGER := error_kind_debug error_kind ]}).

Definition schedule_relayer_nonce_health_job (tx : TransactionRepoModel) : T S C unit :=
  let nonce_hint := match get_evm_transaction_data (tx_network_data tx) with
                    | Ok d => evm_nonce d
                    | Err _ => None
                    end in
  let job := match nonce_hint with
             | Some nonce => nonce_health_with_hint (tx_relayer_id tx) nonce
             | None => nonce_health (tx_relayer_id tx)
             end in
  produce_or "schedule nonce health check" (JHealth job None).

(** Never fails: persisting the counter and scheduling the health job are best effort. *)
Definition handle_nonce_too_high (tx : TransactionRepoModel) : T S C unit :=
  let retry_count := match tx_metadata tx with
                     | Some m => nonce_too_high_retries m | None => 0 end in
  let new_count := wrapu 32 (retry_count + 1) in
  let base := default metadata_default (tx_metadata tx) in
  let update :=
    upd_with_metadata
      (Some {| consecutive_failures := consecutive_failures base;
               total_failures := total_failures base;
               insufficient_fee_retries := insufficient_fee_retries base;
               try_again_later_retries := try_again_later_retries base;
               nonce_too_high_retries := new_count |})
      (upd_with_reason
         (Some ("Nonce too high (attempt " +:+ print_dec new_count +:+ ")")) upd_default) in
  let* _ := try_ (partial_update_r (tx_id tx) update) in
  if MAX_NONCE_TOO_HIGH_RETRIES <=? new_count then
    let* _ := try_ (schedule_relayer_nonce_health_job tx) in retM tt
  else retM tt.

Definition send_transaction_submit_job (tx : TransactionRepoModel) : T S C unit :=
  produce_or "produce submit job" (JSend (send_submit (tx_id tx) (tx_relayer_id tx)) None).

Definition send_transaction_resubmit_job (tx : TransactionRepoModel) : T S C unit :=
  produce_or "produce resubmit job" (JSend (send_resubmit (tx_id tx) (tx_relayer_id tx)) None).

Definition send_transaction_resend_job (tx : TransactionRepoModel) : T S C unit :=
  produce_or "produce resend job" (JSend (send_resend (tx_id tx) (tx_relayer_id tx)) None).

Definition send_transaction_request_job (tx : TransactionRepoModel) : T S C unit :=
  produce_or "produce request job"
    (JRequest (transaction_request (tx_id tx) (tx_relayer_id tx)) None).

Definition send_transaction_update_notification (tx : TransactionRepoModel)
  : M (W S C) JobProducerError.t unit :=
  match rel_notification_id relayer with
  | Some notification_id => produce (JNotification notification_id tx)
  | None => retM tt
  end.

(** The callers log a notification failure and go on. *)
Definition notify (tx : TransactionRepoModel) : T S C unit :=
  let* _ := try_ (send_transaction_update_notification tx) in retM tt.

(** ** Status updates *)

Definition update_transaction_status (tx : TransactionRepoModel) (new_status : TransactionStatus)
    (status_reason : option string) : T S C TransactionRepoModel :=
  let* confirmed_at :=
    if status_eqb new_status Confirmed then let* t := now in retM (Some (to_rfc3339 t))
    else retM None in
  let* updated_tx := partial_update (tx_id tx)
    (upd_with_reason status_reason (upd_with_confirmed_at confirmed_at
      (upd_with_status new_status))) in
  do* notify updated_tx in
  retM updated_tx.

Definition mark_transaction_as_failed (tx : TransactionRepoModel) (reason : string)
  : T S C TransactionRepoModel :=
  let* updated_tx := partial_update (tx_id tx)
    (upd_with_reason (Some reason) (upd_with_status Failed)) in
  do* notify updated_tx in
  retM updated_tx.

(** ** Balance and gas limit *)

(** [EvmTransactionValidator::validate_sufficient_relayer_balance], with the error mapping of
    [ensure_sufficient_balance]. *)
Definition ensure_sufficient_balance (total_cost : Z) : T S C unit :=
  let* balance := map_errM (fun e => TransactionError.UnexpectedError
      ("Failed to check balance: " +:+ provider_error_display e))
    (call (fun t => rpc_get_balance t (rel_address relayer))) in
  let min_balance :=
    default DEFAULT_EVM_MIN_BALANCE (pol_min_balance (get_evm_policy (rel_policies relayer))) in
  let remaining_balance := sat_sub balance total_cost in
  if balance <? total_cost then
    failM (TransactionError.InsufficientBalance
      ("Relayer balance " +:+ print_dec balance +:+ " is insufficient to cover " +:+
       print_dec total_cost))
  else if negb (min_balance =? 0) && (remaining_balance <? min_balance) then
    failM (TransactionError.InsufficientBalance
      ("Relayer balance " +:+ print_dec balance +:+ " is insufficient to cover " +:+
       print_dec total_cost +:+ ", with an enforced minimum balance of " +:+
       print_dec min_balance))
  else retM tt.

(** [estimated_gas * 110 / 100] on [u64]s. *)
Definition estimate_tx_gas_limit (d : EvmTransactionData) : T S C Z :=
  if negb (default DEFAULT_EVM_GAS_LIMIT_ESTIMATION
             (pol_gas_limit_estimation (get_evm_policy (rel_policies relayer))))
  then failM (TransactionError.UnexpectedError "Gas limit estimation is disabled")
  else
    let* estimated_gas := map_errM (fun e => TransactionError.UnexpectedError
        ("Failed to estimate gas: " +:+ provider_error_display e))
      (call (fun t => rpc_estimate_gas t d)) in
    retM (wrapu 64 (estimated_gas * GAS_LIMIT_BUFFER_MULTIPLIER) / 100).

(** [signer.sign_transaction(..).await?] and [into_evm()]. *)
Definition sign (d : EvmTransactionData) : T S C SignTransactionResponseEvm :=
  map_errM TransactionError.SignerError (call (fun t => signer_sign t (EvmData d))).

(** ** Preparation *)

(** [Some tx'] when preparation ends early with [tx']. *)
Definition prepare_gas_limit (tx : TransactionRepoModel) (d : EvmTransactionData)
  : T S C (EvmTransactionData + TransactionRepoModel) :=
  match evm_gas_limit d with
  | None =>
      let* r := try_ (estimate_tx_gas_limit d) in
      match r with
      | Ok estimated => retM (inl (with_gas_estimate d estimated))
      | Err _ => retM (inl (with_gas_estimate d (get_evm_default_gas_limit_for_tx d)))
      end
  | Some gas_limit =>
      let* block := try_ (call rpc_block_gas_limit) in
      match block with
      | Ok block_gas_limit =>
          if block_gas_limit <? gas_limit then
            let* updated_tx := mark_transaction_as_failed tx
              ("Transaction gas limit (" +:+ print_dec gas_limit +:+
               ") exceeds block gas limit (" +:+ print_dec block_gas_limit +:+ ")") in
            retM (inr updated_tx)
          else retM (inl d)
      | Err _ => retM (inl d)
      end
  end.

(** Keep the nonce of an earlier attempt, or take a fresh one and save it before signing. *)
Definition prepare_nonce (tx : TransactionRepoModel) (d : EvmTransactionData)
    (price_params : PriceParams) : T S C TransactionRepoModel :=
  match evm_nonce d with
  | Some _ => retM tx
  | None =>
      let* new_nonce := map_errM
        (fun e => TransactionError.UnexpectedError (repository_error_display e))
        (counter_call (ctr_get_and_increment (rel_id relayer) (rel_address relayer))) in
      let updated := with_nonce (with_price_params d price_params) new_nonce in
      let* priced_at := now in
      partial_update (tx_id tx)
        (upd_with_network_data updated (upd_with_priced_at (Some (to_rfc3339 priced_at))
          upd_default))
  end.

Definition push_hash (hashes : list string) (d : EvmTransactionData) : list string :=
  match evm_hash d with Some h => hashes ++ [h] | None => hashes end.

(** Sign, store as Sent, and queue the submission. *)
Definition prepare_sign (tx_with_nonce : TransactionRepoModel) (price_params : PriceParams)
  : T S C TransactionRepoModel :=
  let* d := liftM (get_evm_transaction_data (tx_network_data tx_with_nonce)) in
  let updated := with_price_params d price_params in
  let* sig := sign updated in
  let updated := with_signed_transaction_data updated sig in
  let* updated_tx := partial_update (tx_id tx_with_nonce)
    (upd_with_hashes (push_hash (tx_hashes tx_with_nonce) updated)
      (upd_with_network_data updated (upd_with_status Sent))) in
  do* map_errM TransactionError.JobProducerError
        (produce (JSend (send_submit (tx_id updated_tx) (tx_relayer_id updated_tx)) None)) in
  do* notify updated_tx in
  retM updated_tx.

Definition prepare_transaction (tx : TransactionRepoModel) : T S C TransactionRepoModel :=
  match ensure_status tx Pending (Some "prepare_transaction"%string) with
  | Err _ => retM tx
  | Ok _ =>
      let* d := liftM (get_evm_transaction_data (tx_network_data tx)) in
      let* g := prepare_gas_limit tx d in
      match g with
      | inr updated_tx => retM updated_tx
      | inl d =>
          let* price_params := call (fun t => get_transaction_price_params t d relayer) in
          let* balance := try_ (ensure_sufficient_balance (pp_total_cost price_params)) in
          match balance with
          | Err (TransactionError.InsufficientBalance msg) =>
              mark_transaction_as_failed tx ("Insufficient balance: " +:+ msg)
          | Err e => failM e
          | Ok _ =>
              let* tx_with_nonce := prepare_nonce tx d price_params in
              prepare_sign tx_with_nonce price_params
          end
      end
  end.

(** ** Submission *)

Definition submit_allowed : list TransactionStatus := [Sent; Submitted].

(** The fate of a broadcast: go on, or end with the transaction unchanged. *)
Definition submit_broadcast (tx : TransactionRepoModel) (raw : list Byte.byte)
  : T S C bool :=
  let* r := try_ (broadcast raw) in
  match r with
  | Ok _ => retM true
  | Err e =>
      match classify_submission_error (provider_error_display e) with
      | SubmissionErrorKind.AlreadyKnown
      | SubmissionErrorKind.ReplacementUnderpriced => retM true
      | SubmissionErrorKind.NonceTooLow =>
          let* _ := try_ (partial_update_r (tx_id tx)
            (upd_with_reason (Some "Nonce error during submission: NonceTooLow"%string)
              upd_default)) in
          let* _ := try_ (schedule_nonce_recovery_status_check tx
                            SubmissionErrorKind.NonceTooLow) in
          retM false
      | SubmissionErrorKind.NonceTooHigh =>
          do* handle_nonce_too_high tx in retM false
      | SubmissionErrorKind.Other _ => failM (TransactionError.UnderlyingProvider e)
      end
  end.

Definition metadata_reset (tx : TransactionRepoModel) : option TransactionMetadata :=
  tx_metadata tx ≫= with_nonce_retries_reset.

(** After the broadcast: a failed update is logged, the transaction is on chain. *)
Definition submit_record (tx : TransactionRepoModel) : T S C TransactionRepoModel :=
  let* sent_at := now in
  let* r := try_ (partial_update_r (tx_id tx)
    (upd_with_metadata (metadata_reset tx)
      (upd_with_sent_at (Some (to_rfc3339 sent_at)) (upd_with_status Submitted)))) in
  let updated_tx := match r with Ok t => t | Err _ => tx end in
  do* notify updated_tx in
  retM updated_tx.

Definition submit_transaction (tx : TransactionRepoModel) : T S C TransactionRepoModel :=
  match ensure_status_one_of tx submit_allowed (Some "submit_transaction"%string) with
  | Err _ => retM tx
  | Ok _ =>
      let* d := liftM (get_evm_transaction_data (tx_network_data tx)) in
      let* raw := liftM (ok_or (evm_raw d)
        (TransactionError.InvalidType "Raw transaction data is missing")) in
      let* submitted := submit_broadcast tx raw in
      if negb submitted then retM tx else submit_record tx
  end.

(** ** Resubmission *)

(** [None]: keep the stored transaction; [Some b]: record it as submitted, with its old hash
    when [b]. *)
Definition resubmit_broadcast (tx : TransactionRepoModel) (raw : list Byte.byte)
  : T S C (option bool) :=
  let* r := try_ (broadcast raw) in
  match r with
  | Ok _ => retM (Some false)
  | Err e =>
      match classify_submission_error (provider_error_display e) with
      | SubmissionErrorKind.AlreadyKnown
      | SubmissionErrorKind.ReplacementUnderpriced => retM (Some true)
      | SubmissionErrorKind.NonceTooLow =>
          let* _ := try_ (schedule_nonce_recovery_status_check tx
                            SubmissionErrorKind.NonceTooLow) in
          retM (Some true)
      | SubmissionErrorKind.NonceTooHigh =>
          do* handle_nonce_too_high tx in retM None
      | SubmissionErrorKind.Other _ => failM (TransactionError.UnderlyingProvider e)
      end
  end.

Definition resubmit_update (tx : TransactionRepoModel) (final : EvmTransactionData)
    (was_already_submitted : bool) : T S C TransactionUpdateRequest :=
  if was_already_submitted then
    retM (upd_with_metadata (metadata_reset tx) (upd_with_status Submitted))
  else
    let* priced_at := now in
    let* sent_at := now in
    retM (upd_with_metadata (metadata_reset tx)
      (upd_with_sent_at (Some (to_rfc3339 sent_at))
        (upd_with_priced_at (Some (to_rfc3339 priced_at))
          (upd_with_hashes (push_hash (tx_hashes tx) final)
            (upd_with_network_data final (upd_with_status Submitted)))))).

Definition resubmit_transaction (tx : TransactionRepoModel) : T S C TransactionRepoModel :=
  match ensure_status_one_of tx submit_allowed (Some "resubmit_transaction"%string) with
  | Err _ => retM tx
  | Ok _ =>
      let* d := liftM (get_evm_transaction_data (tx_network_data tx)) in
      let* bumped := call (fun t => calculate_bumped_gas_price t d relayer (is_noop d)) in
      if negb (default false (pp_is_min_bumped bumped)) then retM tx
      else
        do* ensure_sufficient_balance (pp_total_cost bumped) in
        let updated := with_price_params d bumped in
        let* sig := sign updated in
        let final := with_signed_transaction_data updated sig in
        let* raw := liftM (ok_or (evm_raw final)
          (TransactionError.InvalidType "Raw transaction data is missing")) in
        let* outcome := resubmit_broadcast tx raw in
        match outcome with
        | None => retM tx
        | Some was_already_submitted =>
            let* update := resubmit_update tx final was_already_submitted in
            let* r := try_ (partial_update_r (tx_id tx) update) in
            retM (match r with Ok t => t | Err _ => tx end)
        end
  end.
End Evm.
