(* ===== verification/EvmStatus.v ===== *)
(** * Status handling, cancellation and replacement of EVM transactions

    [domain/transaction/evm/status.rs]: the on-chain status check, resubmission and NOOP
    decisions, nonce gap detection with its debounce, nonce reconciliation, hash recovery,
    revert data recovery, the circuit breaker and [handle_status_impl]; and
    [cancel_transaction] and [replace_transaction] of [evm_transaction.rs], which build on
    them.  [jobs/status_check_context.rs] supplies the failure counters. *)

From S2P Require Import Prelude Decimal Errors Model Config Repository Counter Jobs Effects.
From S2P Require Import EvmUtils Price EvmTransaction.
Open Scope Z_scope.

(** ** Status check context *)

Record StatusCheckContext := {
  ctx_consecutive_failures : Z;
  ctx_total_failures : Z;
  ctx_total_retries : Z;
  ctx_max_consecutive_failures : Z;
  ctx_max_total_failures : Z;
  ctx_network_type : NetworkType;
  ctx_job_metadata : option (gmap string string);
}.

Definition get_max_consecutive_status_failures (n : NetworkType) : Z :=
  match n with NtEvm => 25 | NtStellar => 100 | NtSolana => 38 end.

Definition get_max_total_status_failures (n : NetworkType) : Z :=
  match n with NtEvm => 75 | NtStellar => 300 | NtSolana => 115 end.

Definition should_force_finalize (c : StatusCheckContext) : bool :=
  (ctx_max_consecutive_failures c <=? ctx_consecutive_failures c)
  || (ctx_max_total_failures c <=? ctx_total_failures c).

(** ** Revert data *)

Definition REVERT_REASON_GENERIC : string :=
  "Transaction reverted on-chain (receipt status: failed)".
Definition MAX_REVERT_DATA_HEX_LEN : nat := 4096.

Definition truncate_revert_hex (hex : string) : string :=
  if (String.length hex <=? MAX_REVERT_DATA_HEX_LEN)%nat then hex
  else str_take MAX_REVERT_DATA_HEX_LEN hex +:+ "...(truncated)".

Definition is_ascii_hexdigit (c : ascii) : bool :=
  let n := N_of_ascii c in
  ((48 <=? n) && (n <=? 57) || (65 <=? n) && (n <=? 70) || (97 <=? n) && (n <=? 102))%N.

Fixpoint all_chars (f : ascii -> bool) (s : string) : bool :=
  match s with
  | EmptyString => true
  | String c s' => f c && all_chars f s'
  end.

Definition is_revert_hex (s : string) : bool :=
  match strip_prefix s "0x" with
  | Some rest => negb (String.eqb rest "") && all_chars is_ascii_hexdigit rest
  | None => false
  end.

(** [value.get(key)] of an object. *)
Definition json_get (v : json) (key : string) : option json :=
  match v with
  | JObject fields => snd <$> find (fun kv => String.eqb (fst kv) key) fields
  | _ => None
  end.

Definition extract_trace_output (trace : json) : option string :=
  match json_get trace "output" with
  | Some (JString s) => if is_revert_hex s then Some s else None
  | _ => None
  end.

Definition hex_digit (n : N) : ascii :=
  if (n <? 10)%N then ascii_of_N (48 + n) else ascii_of_N (87 + n).

Fixpoint hex_encode (l : list Byte.byte) : string :=
  match l with
  | [] => EmptyString
  | b :: l' => let n := Byte.to_N b in
               String (hex_digit (n / 16)) (String (hex_digit (n mod 16)) (hex_encode l'))
  end.

Section Status.
Context `{Chrono} `{ServerConfig} `{Env} `{PriceCalculator}.
Context {S C : Type} `{!TransactionRepository S} `{!TransactionCounter C}.
Context (relayer : RelayerRepoModel).

Definition rpc {A} (f : nat -> result ProviderError.t A) : T S C A :=
  map_errM TransactionError.UnderlyingProvider (call f).

(** The network of a transaction, looked up by chain id. *)
Definition evm_network (chain_id : Z) : T S C EvmNetwork :=
  let* model := map_errM transaction_error_of_repository
                  (call (fun t => networks_by_chain_id t chain_id)) in
  match model with
  | None => failM (TransactionError.UnexpectedError
              ("Network with chain id " +:+ print_dec chain_id +:+ " not found"))
  | Some m =>
      match evm_network_try_from m with
      | Ok network => retM network
      | Err e => failM (TransactionError.UnexpectedError
          ("Error converting network model to EvmNetwork: " +:+ repository_error_display e))
      end
  end.

(** ** Debounce of nonce health jobs ([TtlDebounce]) *)

Definition NONCE_HEALTH_DEBOUNCE_TTL : Z := seconds 30.

Definition should_fire (key : string) : T S C bool :=
  let* entries := getsM w_debounce in
  match entries !! key with
  | Some since =>
      let* t := ask env_instant in
      if Z.max 0 (t - since) <? NONCE_HEALTH_DEBOUNCE_TTL then retM false
      else let* t' := ask env_instant in
           do* modifyM (set_debounce (<[key := t']> entries)) in retM true
  | None =>
      let* t' := ask env_instant in
      do* modifyM (set_debounce (<[key := t']> entries)) in retM true
  end.

Definition debounce_clear (key : string) : T S C unit :=
  let* entries := getsM w_debounce in
  modifyM (set_debounce (delete key entries)).

(** ** Hash recovery *)

Definition set_evm_hash (h : option string) (d : EvmTransactionData) : EvmTransactionData :=
  let 'Build_EvmTransactionData gp gl n v da fr to ci _ s sp mf mp r := d in
  Build_EvmTransactionData gp gl n v da fr to ci h s sp mf mp r.

Definition update_transaction_with_corrected_hash (tx : TransactionRepoModel)
    (d : EvmTransactionData) (correct_hash : string) (status : TransactionStatus)
  : T S C TransactionRepoModel :=
  let* updated_tx := partial_update (tx_id tx)
    (upd_with_network_data (set_evm_hash (Some correct_hash) d) (upd_with_status status)) in
  do* notify relayer updated_tx in
  retM updated_tx.

Definition should_try_hash_recovery (tx : TransactionRepoModel) : T S C bool :=
  let n := Z.of_nat (length (tx_hashes tx)) in
  if negb (status_eqb (tx_status tx) Submitted) then retM false
  else if n <=? 1 then retM false
  else
    let* age := get_age_of_sent_at tx in
    if age <? minutes EVM_MIN_AGE_FOR_HASH_RECOVERY_MINUTES then retM false
    else if n <? EVM_MIN_HASHES_FOR_RECOVERY then retM false
    else retM true.

(** The loop over the hashes, most recent first.  An RPC error on a hash is skipped. *)
Fixpoint recover_from_hashes (tx : TransactionRepoModel) (d : EvmTransactionData)
    (hashes : list string) : T S C (option TransactionRepoModel) :=
  match hashes with
  | [] => retM None
  | h :: hashes' =>
      if bool_decide (Some h = evm_hash d) then recover_from_hashes tx d hashes'
      else
        let* r := try_ (call (fun t => rpc_get_transaction_receipt t h)) in
        match r with
        | Ok (Some _) =>
            let* updated_tx := update_transaction_with_corrected_hash tx d h Mined in
            retM (Some updated_tx)
        | Ok None | Err _ => recover_from_hashes tx d hashes'
        end
  end.

Definition try_recover_with_historical_hashes (tx : TransactionRepoModel)
    (d : EvmTransactionData) : T S C (option TransactionRepoModel) :=
  recover_from_hashes tx d (reverse (tx_hashes tx)).

(** ** The status check *)

Definition check_transaction_status (tx : TransactionRepoModel) : T S C TransactionStatus :=
  if is_final_state (tx_status tx) then retM (tx_status tx)
  else if is_unsubmitted_transaction (tx_status tx) then retM (tx_status tx)
  else
    let* d := liftM (get_evm_transaction_data (tx_network_data tx)) in
    let* tx_hash := liftM (ok_or (evm_hash d)
      (TransactionError.UnexpectedError "Transaction hash is missing")) in
    let* receipt_result := rpc (fun t => rpc_get_transaction_receipt t tx_hash) in
    match receipt_result with
    | Some receipt =>
        if negb (rc_status receipt) then retM Failed
        else
          let* last_block_number := rpc rpc_get_block_number in
          let* tx_block_number := liftM (ok_or (rc_block_number receipt)
            (TransactionError.UnexpectedError "Transaction receipt missing block number")) in
          let* network := evm_network (evm_chain_id d) in
          if negb (has_enough_confirmations tx_block_number last_block_number
                     (net_required_confirmations network))
          then retM Mined
          else if bool_decide (tx_is_canceled tx = Some true) &&
                  bool_decide (rc_to receipt = Some (rc_from receipt))
          then retM Canceled
          else retM Confirmed
    | None =>
        let* recover := if 1 <? Z.of_nat (length (tx_hashes tx))
                        then should_try_hash_recovery tx else retM false in
        if recover then
          let* recovered := try_recover_with_historical_hashes tx d in
          match recovered with
          | Some recovered_tx => retM (tx_status recovered_tx)
          | None => retM Submitted
          end
        else retM Submitted
    end.

(** ** Resubmission and NOOP decisions *)

Definition should_resubmit (tx : TransactionRepoModel) : T S C bool :=
  do* liftM (ensure_status tx Submitted (Some "should_resubmit"%string)) in
  let* d := liftM (get_evm_transaction_data (tx_network_data tx)) in
  let* age := get_age_of_sent_at tx in
  let* network := evm_network (evm_chain_id d) in
  let timeout := if is_arbitrum network then ARBITRUM_TIME_TO_RESUBMIT
                 else get_resubmit_timeout_for_speed (evm_speed d) in
  let timeout_with_backoff :=
    if is_arbitrum network then timeout
    else get_resubmit_timeout_with_backoff timeout (Z.of_nat (length (tx_hashes tx))) in
  retM (milliseconds timeout_with_backoff <? age).

Definition should_noop (tx : TransactionRepoModel) : T S C (bool * option string) :=
  if too_many_noop_attempts tx then retM (false, None)
  else
    let* d := liftM (get_evm_transaction_data (tx_network_data tx)) in
    if is_noop d then retM (false, None)
    else
      let* network := evm_network (evm_chain_id d) in
      if is_rollup network && too_many_attempts tx then
        retM (true, Some "Rollup transaction has too many attempts. Replacing with NOOP."%string)
      else
        let* valid := is_transaction_valid (tx_created_at tx) (tx_valid_until tx) in
        if negb valid then
          retM (true, Some "Transaction is expired. Replacing with NOOP."%string)
        else
          let* pending_too_long :=
            if status_eqb (tx_status tx) Pending then
              let* age := get_age_since_created tx in
              retM (minutes EVM_PREPARE_TIMEOUT_MINUTES <? age)
            else retM false in
          if pending_too_long then
            retM (true, Some "Transaction in Pending state for over 2 minutes. Replacing with NOOP."%string)
          else
            let* latest_block := try_ (call rpc_block_gas_limit) in
            match latest_block, evm_gas_limit d with
            | Ok block_gas_limit, Some gas_limit =>
                if block_gas_limit <? gas_limit then
                  retM (true, Some ("Transaction gas limit (" +:+ print_dec gas_limit +:+
                    ") exceeds block gas limit (" +:+ print_dec block_gas_limit +:+
                    "). Replacing with NOOP."))
                else retM (false, None)
            | _, _ => retM (false, None)
            end.

Definition update_transaction_status_if_needed (tx : TransactionRepoModel)
    (new_status : TransactionStatus) (status_reason : option string)
  : T S C TransactionRepoModel :=
  if negb (status_eqb (tx_status tx) new_status)
  then update_transaction_status relayer tx new_status status_reason
  else retM tx.

(** [noop_count + 1] on a [u32]. *)
Definition prepare_noop_update_request (tx : TransactionRepoModel) (is_cancellation : bool)
    (reason : option string) : T S C TransactionUpdateRequest :=
  let* d := liftM (get_evm_transaction_data (tx_network_data tx)) in
  let* network := evm_network (evm_chain_id d) in
  let* noop := make_noop d network in
  let noop_count := wrapu 32 (default 0 (tx_noop_count tx) + 1) in
  retM (upd_with_noop noop_count
          (if is_cancellation then Some true else tx_is_canceled tx)
          (upd_with_reason reason (upd_with_network_data noop upd_default))).

Definition process_noop_transaction (tx : TransactionRepoModel) (reason : option string)
  : T S C TransactionRepoModel :=
  let* update := prepare_noop_update_request tx false reason in
  let* updated_tx := partial_update (tx_id tx) update in
  do* notify relayer updated_tx in
  retM updated_tx.

Definition handle_resubmission (tx : TransactionRepoModel) : T S C TransactionRepoModel :=
  let* (noop, reason) := should_noop tx in
  let* tx_to_process := if noop then process_noop_transaction tx reason else retM tx in
  do* send_transaction_resubmit_job tx_to_process in
  retM tx_to_process.

(** ** Nonce gaps *)

(** Slots that no active transaction occupies. *)
Definition gap_nonces (occupancy : list (Z * option TransactionStatus)) : list Z :=
  fst <$> List.filter (fun '(_, status) =>
    negb (match status with Some s => is_active_nonce_status s | None => false end)) occupancy.

(** At most one health job per relayer and window; a failed enqueue gives the window back. *)
Definition debounced_nonce_health (tx : TransactionRepoModel) : T S C unit :=
  let* fire := should_fire (tx_relayer_id tx) in
  if fire then
    let* s := try_ (schedule_relayer_nonce_health_job tx) in
    match s with
    | Ok _ => retM tt
    | Err _ => debounce_clear (tx_relayer_id tx)
    end
  else retM tt.

Definition detect_nonce_gap_ahead (tx : TransactionRepoModel) : T S C (option bool) :=
  match get_evm_transaction_data (tx_network_data tx) with
  | Err _ => retM None
  | Ok d =>
      match evm_nonce d with
      | None => retM None
      | Some nonce =>
          let* r := try_ (call (fun t => rpc_get_transaction_count t (rel_address relayer))) in
          match r with
          | Err _ => retM None
          | Ok on_chain_nonce =>
              if nonce <=? on_chain_nonce then retM (Some false)
              else
                let scan_to := Z.min nonce (wrapu 64 (on_chain_nonce + MAX_GAP_SCAN_RANGE)) in
                let* o := try_ (repo_call
                  (repo_get_nonce_occupancy (tx_relayer_id tx) on_chain_nonce scan_to)) in
                match o with
                | Err _ => retM None
                | Ok occupancy =>
                    match gap_nonces occupancy with
                    | [] => retM (Some false)
                    | _ => do* debounced_nonce_health tx in retM (Some true)
                    end
                end
          end
      end
  end.

(** ** Per-status handlers *)

Definition handle_submitted_state (tx : TransactionRepoModel) : T S C TransactionRepoModel :=
  let* resubmit := should_resubmit tx in
  if resubmit then
    let* gap := detect_nonce_gap_ahead tx in
    match gap with
    | Some true => update_transaction_status_if_needed tx Submitted None
    | _ => handle_resubmission tx
    end
  else update_transaction_status_if_needed tx Submitted None.

Definition handle_pending_state (tx : TransactionRepoModel) : T S C TransactionRepoModel :=
  let* (noop, reason) := should_noop tx in
  if noop then
    let* updated_tx := partial_update (tx_id tx)
      (upd_with_reason reason (upd_with_status Failed)) in
    do* notify relayer updated_tx in
    retM updated_tx
  else
    let* age := get_age_since_created tx in
    if seconds EVM_PENDING_RECOVERY_TRIGGER_SECONDS <? age then
      do* send_transaction_request_job tx in retM tx
    else retM tx.

Definition handle_mined_state (tx : TransactionRepoModel) : T S C TransactionRepoModel :=
  update_transaction_status_if_needed tx Mined None.

Definition handle_final_state (tx : TransactionRepoModel) (status : TransactionStatus)
    (status_reason : option string) : T S C TransactionRepoModel :=
  update_transaction_status_if_needed tx status status_reason.

Definition mark_as_failed (tx : TransactionRepoModel) (reason : string)
  : T S C TransactionRepoModel :=
  let* updated_tx := partial_update (tx_id tx)
    (upd_with_reason (Some reason) (upd_with_status Failed)) in
  do* notify relayer updated_tx in
  retM updated_tx.

Definition handle_sent_state (tx : TransactionRepoModel) : T S C TransactionRepoModel :=
  let* (noop, reason) := should_noop tx in
  if noop then
    let* update := prepare_noop_update_request tx false reason in
    let* updated_tx := partial_update (tx_id tx) update in
    do* send_transaction_submit_job updated_tx in
    do* notify relayer updated_tx in
    retM updated_tx
  else
    let* age_since_sent := get_age_since_status_change tx in
    if seconds EVM_RESEND_TIMEOUT_SECONDS <? age_since_sent then
      let* gap := detect_nonce_gap_ahead tx in
      match gap with
      | Some true => update_transaction_status_if_needed tx Sent None
      | _ =>
          do* send_transaction_resubmit_job tx in
          update_transaction_status_if_needed tx Sent None
      end
    else update_transaction_status_if_needed tx Sent None.

(** ** Nonce reconciliation *)

Definition reconcile_tx_nonce_state (tx : TransactionRepoModel)
  : T S C (option TransactionRepoModel) :=
  let* d := liftM (get_evm_transaction_data (tx_network_data tx)) in
  (* [None]: a receipt was found; [Some e]: none, [e] when the lookup failed *)
  let* first :=
    match evm_hash d with
    | Some hash =>
        let* r := try_ (call (fun t => rpc_get_transaction_receipt t hash)) in
        match r with
        | Ok (Some _) => retM None
        | Ok None => retM (Some false)
        | Err _ => retM (Some true)
        end
    | None => retM (Some false)
    end in
  match first with
  | None => retM None
  | Some err1 =>
      let* recovered :=
        if 1 <? Z.of_nat (length (tx_hashes tx))
        then try_ (try_recover_with_historical_hashes tx d)
        else retM (Ok None) in
      match recovered with
      | Ok (Some recovered_tx) => retM (Some recovered_tx)
      | _ =>
          let had_rpc_errors := err1 || negb (is_ok recovered) in
          if had_rpc_errors then retM None
          else
            match evm_nonce d with
            | None => retM None
            | Some nonce =>
                let* on_chain_nonce := map_errM (fun e => TransactionError.UnexpectedError
                    ("Failed to get on-chain nonce for recovery: " +:+ provider_error_display e))
                  (call (fun t => rpc_get_transaction_count t (rel_address relayer))) in
                if nonce <? on_chain_nonce then
                  let* updated_tx := update_transaction_status relayer tx Failed
                    (Some ("Nonce " +:+ print_dec nonce +:+
                      " consumed externally (on-chain nonce: " +:+ print_dec on_chain_nonce +:+
                      "). No matching transaction hash found on-chain.")) in
                  let* _ := try_ (schedule_relayer_nonce_health_job tx) in
                  retM (Some updated_tx)
                else retM None
            end
      end
  end.

(** ** Circuit breaker *)

Definition circuit_breaker_reason (tx : TransactionRepoModel) (ctx : StatusCheckContext)
  : string :=
  "Transaction status monitoring failed after " +:+ print_dec (ctx_consecutive_failures ctx) +:+
  " consecutive errors (total: " +:+ print_dec (ctx_total_failures ctx) +:+
  "). Last status: " +:+ status_name (tx_status tx) +:+ ".".

Definition handle_circuit_breaker_safely (tx : TransactionRepoModel) (ctx : StatusCheckContext)
  : T S C TransactionRepoModel :=
  let reason := circuit_breaker_reason tx ctx in
  match tx_status tx with
  | Pending => mark_as_failed tx reason
  | Sent =>
      let has_nonce := match get_evm_transaction_data (tx_network_data tx) with
                       | Ok d => bool_decide (is_Some (evm_nonce d))
                       | Err _ => false
                       end in
      if has_nonce then
        let* updated_tx := process_noop_transaction tx
          (Some (reason +:+ ". Replacing with NOOP to clear nonce slot (Sent state with assigned nonce).")) in
        do* send_transaction_resubmit_job updated_tx in
        retM updated_tx
      else mark_as_failed tx reason
  | Submitted =>
      let* updated_tx := process_noop_transaction tx
        (Some (reason +:+ ". Replacing with NOOP to clear nonce slot.")) in
      do* send_transaction_resubmit_job updated_tx in
      retM updated_tx
  | _ => retM tx
  end.

(** ** Revert data recovery *)

Definition build_revert_call_request (d : EvmTransactionData)
  : result TransactionError.t CallRequest :=
  let bad what o :=
    match o with
    | Some e => Err (TransactionError.UnexpectedError
                       ("Invalid " +:+ what +:+ " for revert recovery: " +:+ e))
    | None => Ok tt
    end in
  let input := default EmptyString (evm_data d) in
  let? _ := bad "from address"%string (parse_address_error (evm_from d)) in
  let? _ := bad "to address"%string (evm_to d ≫= parse_address_error) in
  let? _ := bad "input data"%string (append "Failed to sign transaction: Invalid transaction data: " <$> parse_bytes_error input) in
  Ok {| cr_from := evm_from d; cr_to := evm_to d; cr_value := evm_value d; cr_input := input;
        cr_gas := evm_gas_limit d; cr_gas_price := evm_gas_price d;
        cr_max_fee_per_gas := evm_max_fee_per_gas d;
        cr_max_priority_fee_per_gas := evm_max_priority_fee_per_gas d |}.

Definition recover_by_call (d : EvmTransactionData) (hash : string) : T S C (option string) :=
  let* r := try_ (call (fun t => rpc_get_transaction_receipt t hash)) in
  match r with
  | Ok (Some {| rc_block_number := Some block_number |}) =>
      match build_revert_call_request d with
      | Err _ => retM None
      | Ok request =>
          let* r := try_ (call (fun t => rpc_get_call_revert_data t request block_number)) in
          match r with
          | Ok (Some (b :: bytes)) => retM (Some ("0x" +:+ hex_encode (b :: bytes)))
          | _ => retM None
          end
      end
  | _ => retM None
  end.

Definition recover_revert_data (tx : TransactionRepoModel) : T S C (option string) :=
  match get_evm_transaction_data (tx_network_data tx) with
  | Err _ => retM None
  | Ok d =>
      match evm_hash d with
      | None => retM None
      | Some hash =>
          let* trace := try_ (call (fun t => rpc_debug_trace_transaction t hash)) in
          match trace with
          | Ok trace => match extract_trace_output trace with
                        | Some hex => retM (Some hex)
                        | None => recover_by_call d hash
                        end
          | Err _ => recover_by_call d hash
          end
      end
  end.

Definition build_failed_status_reason (tx : TransactionRepoModel) : T S C string :=
  if negb (default DEFAULT_EVM_INCLUDE_REVERT_DATA
             (pol_include_revert_data (get_evm_policy (rel_policies relayer))))
  then retM REVERT_REASON_GENERIC
  else
    let* r := recover_revert_data tx in
    retM match r with
         | Some hex => "Transaction reverted on-chain (revert_data: " +:+
                       truncate_revert_hex hex +:+ ")"
         | None => REVERT_REASON_GENERIC
         end.

(** ** The status handler *)

(** Step 4: act on the status found on chain. *)
Definition handle_by_status (tx : TransactionRepoModel) (status : TransactionStatus)
  : T S C TransactionRepoModel :=
  match status with
  | Pending => handle_pending_state tx
  | Sent => handle_sent_state tx
  | Submitted => handle_submitted_state tx
  | Mined => handle_mined_state tx
  | Failed =>
      let* status_reason :=
        if negb (status_eqb (tx_status tx) Failed)
        then let* r := build_failed_status_reason tx in retM (Some r)
        else retM None in
      handle_final_state tx Failed status_reason
  | Confirmed | Expired | Canceled => handle_final_state tx status None
  end.

(** Steps 2 to 4: the normal flow. *)
Definition normal_status_flow (tx : TransactionRepoModel) : T S C TransactionRepoModel :=
  let* status := check_transaction_status tx in
  let* tx := if negb (status_eqb status (tx_status tx))
             then repo (repo_get_by_id (tx_id tx)) else retM tx in
  let* too_early := is_too_early_to_resubmit tx in
  if too_early && is_pending_transaction status
  then update_transaction_status_if_needed tx status None
  else handle_by_status tx status.

Definition handle_status_impl (tx : TransactionRepoModel) (context : option StatusCheckContext)
  : T S C TransactionRepoModel :=
  if is_final_state (tx_status tx) then retM tx
  else
    let is_noop_tx := match get_evm_transaction_data (tx_network_data tx) with
                      | Ok d => is_noop d | Err _ => false end in
    match context with
    | Some ctx =>
        if should_force_finalize ctx && negb is_noop_tx
        then handle_circuit_breaker_safely tx ctx
        else
          match ctx_job_metadata ctx ≫= lookup TX_NONCE_RECONCILE_TRIGGER with
          | Some _ =>
              let* r := try_ (reconcile_tx_nonce_state tx) in
              match r with
              | Ok (Some recovered_tx) => retM recovered_tx
              | _ => normal_status_flow tx
              end
          | None => normal_status_flow tx
          end
    | None => normal_status_flow tx
    end.

(** ** Cancellation *)

Definition cancel_transaction (tx : TransactionRepoModel) : T S C TransactionRepoModel :=
  do* liftM (ensure_status_one_of tx [Pending; Sent; Submitted]
               (Some "cancel_transaction"%string)) in
  if status_eqb (tx_status tx) Pending then
    update_transaction_status relayer tx Canceled (Some "Transaction canceled by user"%string)
  else
    let* update := prepare_noop_update_request tx true
      (Some "Transaction canceled by user, replacing with NOOP"%string) in
    let* updated_tx := partial_update (tx_id tx) update in
    do* send_transaction_resubmit_job updated_tx in
    do* notify relayer updated_tx in
    retM updated_tx.

(** ** Replacement *)

(** The requests of the other chains are refused unread. *)
Inductive NetworkTransactionRequest : Type :=
| EvmRequest (r : EvmTransactionRequest)
| SolanaRequest
| StellarRequest.

Definition replacement_network (chain_id : Z) : T S C EvmNetwork :=
  let* model := map_errM (fun e => TransactionError.NetworkConfiguration
      ("Failed to get network by chain_id " +:+ print_dec chain_id +:+ ": " +:+
       repository_error_display e))
    (call (fun t => networks_by_chain_id t chain_id)) in
  match model with
  | None => failM (TransactionError.NetworkConfiguration
      ("Network with chain_id " +:+ print_dec chain_id +:+ " not found"))
  | Some m =>
      liftM (result_map_err (fun e => TransactionError.NetworkConfiguration
        ("Failed to convert network model: " +:+ repository_error_display e))
        (evm_network_try_from m))
  end.

Definition replace_transaction (old_tx : TransactionRepoModel)
    (new_tx_request : NetworkTransactionRequest) : T S C TransactionRepoModel :=
  do* liftM (ensure_status_one_of old_tx [Pending; Sent; Submitted]
               (Some "replace_transaction"%string)) in
  let* old_data := liftM (get_evm_transaction_data (tx_network_data old_tx)) in
  match new_tx_request with
  | EvmRequest request =>
      let* network := replacement_network (evm_chain_id old_data) in
      let updated := for_replacement old_data request in
      let* price_params := call (fun t =>
        determine_replacement_pricing t old_data updated relayer (lacks_mempool network)) in
      let priced := with_price_params updated price_params in
      do* ensure_sufficient_balance relayer (pp_total_cost price_params) in
      let* sig := sign priced in
      let final := with_signed_transaction_data priced sig in
      let* updated_tx := repo (repo_update_network_data (tx_id old_tx) (EvmData final)) in
      do* send_transaction_resubmit_job updated_tx in
      do* notify relayer updated_tx in
      retM updated_tx
  | _ => failM (TransactionError.InvalidType "New transaction request must be EVM type")
  end.
End Status.
