(* ===== verification/Lifecycle.v ===== *)
(** * How a transaction evolves

    What each handler of the EVM transaction code may do to the stored transactions, from
    preparation to its final status.  [evolves A t0 t] says that [t] is a legal later version
    of [t0], its status in [A]; every handler run on the stored version of a transaction
    leaves such a version in its place, touches no other transaction, and returns one.  The
    step relation [step] composes handlers in any order; its invariants are at the end. *)

From S2P Require Import Prelude Decimal Errors Model Config Repository Counter Jobs Effects.
From S2P Require Import Sample EvmUtils Price EvmTransaction EvmStatus.
Open Scope Z_scope.

(** ** Legal versions of a transaction *)

(** The part of the EVM data that ties a transaction to its slot on chain.  [assign]: a nonce
    may be given to data that has none. *)
Definition same_slot (assign : bool) (d0 d : EvmTransactionData) : Prop :=
  evm_chain_id d = evm_chain_id d0 /\ evm_from d = evm_from d0 /\
  (evm_nonce d = evm_nonce d0 \/ (assign = true /\ evm_nonce d0 = None)).

Definition same_slot_data (assign : bool) (n0 n : NetworkTransactionData) : Prop :=
  match n0, n with
  | EvmData d0, EvmData d => same_slot assign d0 d
  | _, _ => n = n0
  end.

(** The statuses of a transaction that holds a nonce. *)
Definition holds_nonce (s : TransactionStatus) : bool :=
  match s with Sent | Submitted | Mined => true | _ => false end.

Record evolves (F : bool) (A : list TransactionStatus) (t0 t : TransactionRepoModel) : Prop := {
  ev_id : tx_id t = tx_id t0;
  ev_relayer : tx_relayer_id t = tx_relayer_id t0;
  ev_created : tx_created_at t = tx_created_at t0;
  ev_valid_until : tx_valid_until t = tx_valid_until t0;
  ev_status : tx_status t ∈ A;
  ev_data : same_slot_data F (tx_network_data t0) (tx_network_data t);
  ev_hashes : tx_hashes t0 `prefix_of` tx_hashes t;
  ev_canceled : tx_is_canceled t0 = Some true -> tx_is_canceled t = Some true;
  ev_nonce : holds_nonce (tx_status t) = true -> is_Some (tx_nonce t);
  ev_pending : tx_status t = Pending -> tx_hashes t = [];
}.

(** What holds of every stored transaction: one past preparation has its nonce, one before it
    was never signed. *)
Definition tx_ok (t : TransactionRepoModel) : Prop :=
  (holds_nonce (tx_status t) = true -> is_Some (tx_nonce t)) /\
  (tx_status t = Pending -> tx_hashes t = []).

(** The updates that keep a transaction a legal version of [t0]. *)
Record upd_ok (F : bool) (A : list TransactionStatus) (t0 : TransactionRepoModel)
    (u : TransactionUpdateRequest) : Prop := {
  uo_status : forall s, upd_status u = Some s -> s ∈ A /\ s <> Pending /\
    (holds_nonce s = true -> is_Some (tx_nonce t0) \/ is_Some (upd_network_data u));
  uo_data : forall n, upd_network_data u = Some n ->
    exists d, n = EvmData d /\ same_slot_data F (tx_network_data t0) n /\
      (is_Some (evm_nonce d) \/ Forall (fun s => holds_nonce s = false) A);
  uo_hashes : forall hs, upd_hashes u = Some hs ->
    tx_hashes t0 `prefix_of` hs /\ is_Some (upd_status u);
  uo_canceled : tx_is_canceled t0 = Some true -> upd_is_canceled u <> Some false;
}.

Lemma same_slot_refl F d : same_slot F d d.
Proof. split_and!; auto. Qed.

Lemma same_slot_trans F d1 d2 d3 : same_slot F d1 d2 -> same_slot F d2 d3 -> same_slot F d1 d3.
Proof.
  intros (?&?&H1) (?&?&H2). split_and!; [congruence..|].
  destruct H1 as [H1|[]], H2 as [H2|[]]; [left|right..]; rewrite ?H2, ?H1 in *; auto.
Qed.

Lemma same_slot_data_refl F n : same_slot_data F n n.
Proof. destruct n; simpl; try done. apply same_slot_refl. Qed.

Lemma same_slot_data_trans F n1 n2 n3 :
  same_slot_data F n1 n2 -> same_slot_data F n2 n3 -> same_slot_data F n1 n3.
Proof.
  destruct n1, n2; simpl; try done; intros Hs; simplify_eq; try done.
  destruct n3; simpl; try done. by apply same_slot_trans.
Qed.

Lemma evolves_refl F t : tx_ok t -> evolves F [tx_status t] t t.
Proof.
  intros [Hn Hp]. constructor; try done; [set_solver|apply same_slot_data_refl].
Qed.

Lemma evolves_mono F A B t0 t : A ⊆ B -> evolves F A t0 t -> evolves F B t0 t.
Proof. intros HAB []. constructor; auto. Qed.

Lemma evolves_assign F A t0 t : evolves F A t0 t -> evolves true A t0 t.
Proof.
  intros []. constructor; try done. destruct (tx_network_data t0), (tx_network_data t); try done.
  destruct ev_data0 as (?&?&Hn). split_and!; [done..|]. destruct Hn as [?|[_ ?]]; auto.
Qed.

Lemma evolves_ok F A t0 t : evolves F A t0 t -> tx_ok t.
Proof. by intros []. Qed.

(** The nonce of a version of [t0]. *)
Lemma same_slot_nonce F t0 t n :
  same_slot_data F (tx_network_data t0) (tx_network_data t) ->
  tx_nonce t0 = Some n -> tx_nonce t = Some n.
Proof.
  unfold tx_nonce. destruct (tx_network_data t0), (tx_network_data t); simpl; try done.
  intros (?&?&[->|[_ ->]]); done.
Qed.

Lemma evolves_trans F A B t0 t1 t2 : evolves F A t0 t1 -> evolves F B t1 t2 -> evolves F B t0 t2.
Proof.
  intros [] []. constructor; try congruence; auto.
  - by eapply same_slot_data_trans.
  - by etransitivity.
Qed.

(** Membership in a closed list of statuses, by evaluation. *)
Ltac in_statuses := apply status_in_spec; reflexivity.

Section Apply.
Context `{Chrono} `{ServerConfig}.

Lemma evolves_update_nonce F A t0 now u t :
  upd_ok F A t0 u -> evolves F A t0 t ->
  holds_nonce (tx_status (apply_partial_update now u t)) = true ->
  is_Some (tx_nonce (apply_partial_update now u t)).
Proof.
  intros [Us Ud _ _] [? ? ? ? Es Ed _ _ En _]. simpl. unfold tx_nonce at 1. simpl.
  intros Hs. assert (default (tx_status t) (upd_status u) ∈ A) as HA.
  { destruct (upd_status u); simpl; [by apply Us | done]. }
  destruct (upd_network_data u) as [nd|]; simpl.
  - destruct (Ud _ eq_refl) as (d&->&_&[?|HF]); [done|].
    rewrite Forall_forall in HF. rewrite HF in Hs; done.
  - destruct (upd_status u) as [s|]; simpl in *; [|by apply En].
    destruct (Us _ eq_refl) as (_&_&[[n Hn]|[? ?]]); [done| |done].
    exists n. by apply (same_slot_nonce F t0 t).
Qed.

Lemma evolves_update F A t0 now u t :
  upd_ok F A t0 u -> evolves F A t0 t -> evolves F A t0 (apply_partial_update now u t).
Proof.
  intros HU HE. constructor; [..|by eapply evolves_update_nonce|].
  all: destruct HU as [Us Ud Uh Uc], HE as [? ? ? ? Es Ed Eh Ec En Ep]; simpl; try done.
  - destruct (upd_status u); simpl; [|done]. by apply Us.
  - destruct (upd_network_data u); simpl; [|done]. by edestruct Ud as (?&?&?&_).
  - destruct (upd_hashes u); simpl; [|done]. by apply Uh.
  - intros Hc. destruct (upd_is_canceled u) as [[]|]; simpl; [done|by destruct Uc|auto].
  - destruct (upd_status u) as [s|]; simpl; [by intros ->; edestruct Us as (?&?&?)|].
    intros Hp. destruct (upd_hashes u) as [hs|]; simpl; [|by apply Ep].
    by destruct (Uh _ eq_refl) as [_ [? ?]].
Qed.

Lemma evolves_result F A t0 now u t t' :
  upd_ok F A t0 u -> evolves F A t0 t -> upd_result now u t t' -> evolves F A t0 t'.
Proof. intros ? ? [->|(?&?&->)]; [by apply evolves_update | done]. Qed.

Lemma evolves_set_data F A t0 t d :
  evolves F A t0 t -> same_slot_data F (tx_network_data t0) (EvmData d) ->
  is_Some (evm_nonce d) \/ Forall (fun s => holds_nonce s = false) A ->
  evolves F A t0 (set_tx_network_data (EvmData d) t).
Proof.
  intros [] ? Hd. destruct t; constructor; simpl in *; try done.
  unfold tx_nonce; simpl. intros Hs. destruct Hd as [?|HF]; [done|].
  rewrite Forall_forall in HF. rewrite HF in Hs; done.
Qed.
End Apply.

(** ** Programs acting on one transaction

    [owned F m0 t0 A]: the store is [m0] but for the transaction of [t0], which is a legal
    version of it. *)
Section Programs.
Context `{Chrono} `{ServerConfig} `{Env} `{PriceCalculator}.
Context {S C : Type} `{!TransactionRepository S} `{!TransactionCounter C}.

Definition view (w : W S C) : gmap string TransactionRepoModel := repo_view (w_repo w).

Definition owned (F : bool) (m0 : gmap string TransactionRepoModel) (t0 : TransactionRepoModel)
    (A : list TransactionStatus) (w : W S C) : Prop :=
  exists t, view w = <[tx_id t0 := t]> m0 /\ evolves F A t0 t.

(** ** Relations that reads and queueing respect *)

Class Inert (R : W S C -> W S C -> Prop) : Prop := {
  inert_preorder :: PreOrder R;
  inert_ask : forall E A (f : nat -> A), preserves R (ask (E := E) f);
  inert_call : forall E A (f : nat -> result E A), preserves R (call f);
  inert_produce : forall j, preserves R (produce j);
  inert_debounce : forall E m, preserves R (modifyM (E := E) (set_debounce m));
  inert_get_by_id : forall id, preserves R (repo_call (repo_get_by_id id));
  inert_occupancy : forall rid a b, preserves R (repo_call (repo_get_nonce_occupancy rid a b));
}.

Lemma inert_now {E} R `{!Inert R} : preserves R (now (E := E)).
Proof. apply inert_ask. Qed.

(** The stored transactions. *)
Definition same_view (w w' : W S C) : Prop := view w' = view w.

(** The counters. *)
Definition same_ctr (w w' : W S C) : Prop := w_ctr w' = w_ctr w.

Lemma view_set_repo s (w : W S C) : view (set_repo s w) = repo_view s.
Proof. by destruct w. Qed.

Lemma same_view_repo_call {A} (c : M S RepositoryError.t A) :
  (forall s, wp c (fun _ s' => repo_view s' = repo_view s) s) ->
  preserves same_view (repo_call c).
Proof.
  intros Hc w. unfold repo_call, same_view. specialize (Hc (w_repo w)). unfold wp in Hc.
  destruct (c (w_repo w)) as [r s']. simpl. by rewrite view_set_repo.
Qed.

Lemma same_ctr_repo_call {A} (c : M S RepositoryError.t A) : preserves same_ctr (repo_call c).
Proof. intros w. unfold repo_call. destruct (c _), w; done. Qed.

Lemma same_view_counter {A} (c : M C RepositoryError.t A) : preserves same_view (counter_call c).
Proof. intros w. unfold counter_call. destruct (c _), w; done. Qed.

#[global] Instance same_view_inert : Inert same_view.
Proof.
  constructor; intros.
  - split; [done|]. intros ???. unfold same_view. congruence.
  - intros []. done.
  - intros []. done.
  - intros w. unfold produce. destruct (queue_fault _), w; done.
  - intros []. done.
  - apply same_view_repo_call. intros s. eapply wp_mono; [|apply repo_get_by_id_spec].
    by intros ?? [? _].
  - apply same_view_repo_call. intros s.
    apply repo_get_nonce_occupancy_spec.
Qed.

#[global] Instance same_ctr_inert : Inert same_ctr.
Proof.
  constructor; intros; [|try apply same_ctr_repo_call..].
  - split; [done|]. intros ???. unfold same_ctr. congruence.
  - intros []. done.
  - intros []. done.
  - intros w. unfold produce. destruct (queue_fault _), w; done.
  - intros []. done.
Qed.

Lemma same_view_broadcast raw : preserves same_view (broadcast raw).
Proof. by intros []. Qed.

Lemma same_ctr_broadcast raw : preserves same_ctr (broadcast raw).
Proof. by intros []. Qed.
End Programs.
#[export] Hint Resolve inert_ask inert_call inert_now inert_produce same_view_broadcast
  same_ctr_broadcast inert_debounce inert_get_by_id inert_occupancy same_ctr_repo_call same_view_counter
  : preserves_db.
#[export] Hint Extern 0 (Inert _) => exact _ : preserves_db.

(** *** Programs that only read or queue *)

Section Readers.
Context `{Chrono} `{ServerConfig} `{Env} `{PriceCalculator}.
Context {S C : Type} `{!TransactionRepository S} `{!TransactionCounter C}.
Context (relayer : RelayerRepoModel).
Context (R : W S C -> W S C -> Prop) `{!Inert R}.

Lemma inert_is_transaction_valid c v : preserves R (is_transaction_valid c v).
Proof. unfold is_transaction_valid. preserve. Qed.
Lemma inert_age_created tx : preserves R (get_age_since_created tx).
Proof. unfold get_age_since_created. preserve. Qed.
Hint Resolve inert_is_transaction_valid inert_age_created : preserves_db.
Lemma inert_age_status tx : preserves R (get_age_since_status_change tx).
Proof. unfold get_age_since_status_change. preserve. Qed.
Lemma inert_age_sent tx : preserves R (get_age_of_sent_at tx).
Proof. unfold get_age_of_sent_at. preserve. Qed.
Lemma inert_too_early tx : preserves R (is_too_early_to_resubmit tx).
Proof. unfold is_too_early_to_resubmit. preserve. Qed.
Lemma inert_timestamp {E} d : preserves (E := E) R (calculate_scheduled_timestamp d).
Proof. unfold calculate_scheduled_timestamp. preserve. Qed.
Lemma inert_make_noop d n : preserves R (make_noop d n).
Proof. unfold make_noop. preserve. Qed.
Lemma inert_retry_delay : preserves R (status_check_retry_delay relayer).
Proof. unfold status_check_retry_delay. preserve. Qed.
Lemma inert_produce_or what j : preserves R (produce_or what j).
Proof. unfold produce_or. preserve. Qed.
Hint Resolve inert_age_status inert_age_sent inert_too_early inert_timestamp inert_make_noop inert_retry_delay
  inert_produce_or : preserves_db.
Lemma inert_schedule_status_check tx d m : preserves R (schedule_status_check relayer tx d m).
Proof. unfold schedule_status_check. preserve. Qed.
Hint Resolve inert_schedule_status_check : preserves_db.
Lemma inert_schedule_recovery tx k : preserves R (schedule_nonce_recovery_status_check relayer tx k).
Proof. unfold schedule_nonce_recovery_status_check. preserve. Qed.
Lemma inert_schedule_health tx : preserves R (schedule_relayer_nonce_health_job tx).
Proof. unfold schedule_relayer_nonce_health_job. preserve. Qed.
Lemma inert_submit_job tx : preserves R (send_transaction_submit_job tx).
Proof. unfold send_transaction_submit_job. preserve. Qed.
Lemma inert_resubmit_job tx : preserves R (send_transaction_resubmit_job tx).
Proof. unfold send_transaction_resubmit_job. preserve. Qed.
Lemma inert_request_job tx : preserves R (send_transaction_request_job tx).
Proof. unfold send_transaction_request_job. preserve. Qed.
Lemma inert_notify tx : preserves R (notify relayer tx).
Proof. unfold notify, send_transaction_update_notification. preserve. Qed.
Lemma inert_balance c : preserves R (ensure_sufficient_balance relayer c).
Proof. unfold ensure_sufficient_balance. preserve. Qed.
Lemma inert_estimate d : preserves R (estimate_tx_gas_limit relayer d).
Proof. unfold estimate_tx_gas_limit. preserve. Qed.
Lemma inert_sign d : preserves R (sign d).
Proof. unfold sign. preserve. Qed.
Lemma inert_rpc {A} (f : nat -> result ProviderError.t A) : preserves R (rpc f).
Proof. unfold rpc. preserve. Qed.
Lemma inert_evm_network c : preserves R (evm_network c).
Proof. unfold evm_network. preserve. Qed.
Lemma inert_replacement_network c : preserves R (replacement_network c).
Proof. unfold replacement_network. preserve. Qed.
Lemma inert_should_fire k : preserves R (should_fire k).
Proof. unfold should_fire. preserve. Qed.
Lemma inert_debounce_clear k : preserves R (debounce_clear k).
Proof. unfold debounce_clear. preserve. Qed.
Hint Resolve inert_schedule_recovery inert_schedule_health inert_submit_job inert_resubmit_job
  inert_request_job inert_notify inert_balance inert_estimate inert_sign inert_rpc inert_evm_network
  inert_replacement_network inert_should_fire inert_debounce_clear : preserves_db.
Lemma inert_hash_recovery tx : preserves R (should_try_hash_recovery tx).
Proof. unfold should_try_hash_recovery. preserve. Qed.
Lemma inert_should_resubmit tx : preserves R (should_resubmit tx).
Proof. unfold should_resubmit. preserve. Qed.
Lemma inert_should_noop tx : preserves R (should_noop tx).
Proof. unfold should_noop. preserve. Qed.
Lemma inert_gap_ahead tx : preserves R (detect_nonce_gap_ahead relayer tx).
Proof. unfold detect_nonce_gap_ahead, debounced_nonce_health. preserve. Qed.
Lemma inert_recover_by_call d h : preserves R (recover_by_call d h).
Proof. unfold recover_by_call. preserve. Qed.
Hint Resolve inert_hash_recovery inert_should_resubmit inert_should_noop inert_gap_ahead inert_recover_by_call
  : preserves_db.
Lemma inert_recover_revert tx : preserves R (recover_revert_data tx).
Proof. unfold recover_revert_data. preserve. Qed.
Hint Resolve inert_recover_revert : preserves_db.
Lemma inert_failed_reason tx : preserves R (build_failed_status_reason relayer tx).
Proof. unfold build_failed_status_reason. preserve. Qed.
Lemma inert_resubmit_update tx d b : preserves R (resubmit_update tx d b).
Proof. unfold resubmit_update. preserve. Qed.
Lemma inert_noop_request tx c r : preserves R (prepare_noop_update_request tx c r).
Proof. unfold prepare_noop_update_request. preserve. Qed.
End Readers.
#[export] Hint Resolve inert_is_transaction_valid inert_age_created inert_age_status inert_age_sent
  inert_too_early inert_timestamp inert_make_noop inert_retry_delay inert_produce_or inert_schedule_status_check
  inert_schedule_recovery inert_schedule_health inert_submit_job inert_resubmit_job inert_request_job
  inert_notify inert_balance inert_estimate inert_sign inert_rpc inert_evm_network inert_replacement_network
  inert_should_fire inert_debounce_clear inert_hash_recovery inert_should_resubmit inert_should_noop
  inert_gap_ahead inert_recover_by_call inert_recover_revert inert_failed_reason inert_resubmit_update
  inert_noop_request : preserves_db.

(** ** Handlers keep the stored version legal *)

Create HintDb keeps_db.

Section Updates.
Context `{Chrono} `{ServerConfig} `{Env} `{PriceCalculator}.
Context {S C : Type} `{!TransactionRepository S} `{!TransactionCounter C}.
Context (relayer : RelayerRepoModel).
Context (F : bool).
Context (m0 : gmap string TransactionRepoModel) (t0 : TransactionRepoModel).
Context (A : list TransactionStatus).

Abbreviation I := (owned (S := S) (C := C) F m0 t0 A).
Abbreviation E := (evolves F A t0).

Lemma keeps_inert {E' B} (c : M (W S C) E' B) :
  preserves same_view c -> keeps I c (fun _ => True).
Proof.
  intros Hc. eapply keeps_of_preserves; [|exact Hc]. unfold same_view, owned.
  by intros w w' ->.
Qed.

Lemma keeps_partial_update_strong tx u :
  E tx -> upd_ok F A t0 u ->
  keeps I (partial_update_r (tx_id tx) u) (fun t =>
    E t /\ exists now t1, E t1 /\ upd_result now u t1 t).
Proof.
  intros Htx Hu. unfold partial_update_r. eapply keeps_bind.
  { apply keeps_inert. preserve. }
  intros n _ w (t & Hv & Ht). unfold repo_call.
  pose proof (repo_partial_update_spec n (tx_id tx) u (w_repo w)) as Hs. unfold wp in Hs.
  destruct (repo_partial_update n (tx_id tx) u (w_repo w)) as [r s']. simpl in *.
  fold (view w) in Hs. rewrite Hv, (ev_id _ _ _ _ Htx) in Hs. unfold owned.
  rewrite view_set_repo.
  destruct Hs as [(t1 & t2 & Hl & Hr & Hs & Ho)|(Hs & e & ->)].
  - rewrite lookup_insert_eq in Hl. simplify_eq. rewrite insert_insert_eq in Hs.
    pose proof (evolves_result _ _ _ _ _ _ _ Hu Ht Hr). split; [eauto|].
    intros a ->. rewrite (Ho _ eq_refl). eauto.
  - split; [|done]. exists t. by rewrite Hs.
Qed.

Lemma keeps_partial_update_r tx u :
  E tx -> upd_ok F A t0 u -> keeps I (partial_update_r (tx_id tx) u) E.
Proof. intros. eapply keeps_mono; [by apply keeps_partial_update_strong | by intros ? []]. Qed.

Lemma keeps_partial_update tx u :
  E tx -> upd_ok F A t0 u -> keeps I (partial_update (tx_id tx) u) E.
Proof. intros. apply keeps_map_err. by apply keeps_partial_update_r. Qed.

Lemma keeps_get_by_id tx : E tx -> keeps I (repo (repo_get_by_id (tx_id tx))) E.
Proof.
  intros Htx. apply keeps_map_err. intros w (t & Hv & Ht).
  unfold repo_call, owned. rewrite (ev_id _ _ _ _ Htx).
  pose proof (repo_get_by_id_spec (tx_id t0) (w_repo w)) as Hs. unfold wp in Hs.
  destruct (repo_get_by_id _ _) as [r s']. simpl in *.
  rewrite view_set_repo. fold (view w) in Hs. destruct Hs as [-> Hr]. split; [eauto|].
  intros a ->. specialize (Hr _ eq_refl). rewrite Hv, lookup_insert_eq in Hr. by simplify_eq.
Qed.

Lemma keeps_update_network_data tx d :
  E tx -> same_slot_data F (tx_network_data t0) (EvmData d) ->
  is_Some (evm_nonce d) \/ Forall (fun s => holds_nonce s = false) A ->
  keeps I (repo (repo_update_network_data (tx_id tx) (EvmData d))) E.
Proof.
  intros Htx Hd Hn. apply keeps_map_err. intros w (t & Hv & Ht).
  unfold repo_call, owned. rewrite (ev_id _ _ _ _ Htx).
  pose proof (repo_update_network_data_spec (tx_id t0) (EvmData d) (w_repo w)) as Hs.
  unfold wp in Hs. destruct (repo_update_network_data _ _ _) as [r s']. simpl in *.
  fold (view w) in Hs. rewrite Hv in Hs. rewrite view_set_repo.
  destruct Hs as [(t1 & t2 & Hl & Ht2 & Hs & Ho)|(Hs & e & ->)].
  - rewrite lookup_insert_eq in Hl. simplify_eq. rewrite insert_insert_eq in Hs.
    rewrite (ev_id _ _ _ _ Ht) in Ht2. rewrite (Ht2 eq_refl) in *.
    pose proof (evolves_set_data _ _ _ _ d Ht Hd Hn). split; [eauto|].
    intros a ->. by rewrite (Ho _ eq_refl).
  - split; [|done]. exists t. by rewrite Hs.
Qed.

(** *** Updates *)

(** A status the transaction may move to. *)
Definition target (s : TransactionStatus) : Prop :=
  s ∈ A /\ s <> Pending /\ (holds_nonce s = true -> is_Some (tx_nonce t0)).

Lemma upd_ok_default : upd_ok F A t0 upd_default.
Proof. by constructor. Qed.

Lemma upd_ok_status s : target s -> upd_ok F A t0 (upd_with_status s).
Proof. intros (?&?&?). constructor; simpl; try done. intros ? [= <-]. auto. Qed.

Lemma upd_ok_reason r u : upd_ok F A t0 u -> upd_ok F A t0 (upd_with_reason r u).
Proof. destruct u. intros []. by constructor. Qed.
Lemma upd_ok_sent_at r u : upd_ok F A t0 u -> upd_ok F A t0 (upd_with_sent_at r u).
Proof. destruct u. intros []. by constructor. Qed.
Lemma upd_ok_confirmed_at r u : upd_ok F A t0 u -> upd_ok F A t0 (upd_with_confirmed_at r u).
Proof. destruct u. intros []. by constructor. Qed.
Lemma upd_ok_priced_at r u : upd_ok F A t0 u -> upd_ok F A t0 (upd_with_priced_at r u).
Proof. destruct u. intros []. by constructor. Qed.
Lemma upd_ok_metadata r u : upd_ok F A t0 u -> upd_ok F A t0 (upd_with_metadata r u).
Proof. destruct u. intros []. by constructor. Qed.

Lemma upd_ok_hashes hs u :
  upd_ok F A t0 u -> tx_hashes t0 `prefix_of` hs -> is_Some (upd_status u) ->
  upd_ok F A t0 (upd_with_hashes hs u).
Proof. destruct u. intros [] ? ?. constructor; try done. simpl. by intros ? [= <-]. Qed.

Lemma upd_ok_noop n c u :
  upd_ok F A t0 u -> (tx_is_canceled t0 = Some true -> c <> Some false) ->
  upd_ok F A t0 (upd_with_noop n c u).
Proof. destruct u. intros [] ?. by constructor. Qed.

Lemma upd_ok_data d u :
  upd_ok F A t0 u -> same_slot_data F (tx_network_data t0) (EvmData d) ->
  is_Some (evm_nonce d) \/ Forall (fun s => holds_nonce s = false) A ->
  upd_ok F A t0 (upd_with_network_data d u).
Proof.
  destruct u. intros [Us Ud Uh Uc] ? ?. constructor; simpl in *; try done.
  - intros s Hs. destruct (Us s Hs) as (?&?&Hn). split_and!; [done..|]. intros ?. right. eauto.
  - intros n [= <-]. eauto.
Qed.

(** A newly signed transaction. *)
Lemma upd_ok_signed s hs d :
  s ∈ A -> s <> Pending -> same_slot_data F (tx_network_data t0) (EvmData d) ->
  is_Some (evm_nonce d) -> tx_hashes t0 `prefix_of` hs ->
  upd_ok F A t0 (upd_with_hashes hs (upd_with_network_data d (upd_with_status s))).
Proof.
  intros. constructor; simpl; try done.
  - intros ? [= <-]. eauto.
  - intros ? [= <-]. eauto.
  - intros ? [= <-]. eauto.
Qed.
End Updates.
#[export] Hint Resolve keeps_partial_update_r keeps_partial_update keeps_get_by_id : keeps_db.
#[export] Hint Resolve upd_ok_default upd_ok_status upd_ok_reason upd_ok_sent_at
  upd_ok_confirmed_at upd_ok_priced_at upd_ok_metadata : keeps_db.

(** One step of a [keeps] goal: known operations first, then programs that leave the store
    alone, then programs that return a transaction. *)
Ltac keep_bind :=
  cbv zeta;
  lazymatch goal with
  | |- keeps _ (bindM (liftM ?r) _) _ =>
      apply (keeps_bind _ _ _ (fun a => r = Ok a)); [apply keeps_lift; done | intros ? ?]
  | |- keeps _ (bindM (try_ _) _) _ =>
      first
        [ eapply keeps_bind; [eapply keeps_try; solve [eauto with keeps_db] | intros ? ?]
        | eapply keeps_bind; [apply keeps_inert; solve [preserve] | intros ? _] ]
  | |- _ =>
      first
        [ eapply keeps_bind; [solve [eauto with keeps_db] | intros ? ?]
        | eapply keeps_bind; [apply keeps_inert; solve [preserve] | intros ? _]
        | lazymatch goal with
          | |- keeps (owned ?F _ ?t0 ?A) _ _ =>
              apply (keeps_bind _ _ _ (evolves F A t0)); [ | intros ? ?]
          end ]
  end.

Ltac keep_step :=
  cbv zeta;
  lazymatch goal with
  | |- keeps _ (bindM _ _) _ => keep_bind
  | |- keeps _ (retM _) _ => apply keeps_ret
  | |- keeps _ (failM _) _ => apply keeps_fail
  | |- keeps _ (if ?b then _ else _) _ => destruct b eqn:?
  | |- keeps _ (match ?x with _ => _ end) _ => destruct x eqn:?
  | |- keeps _ _ _ => solve [eauto with keeps_db]
  end; cbv beta in *.

(** *** The data builders stay in the slot *)

Lemma slot_price F n0 d p :
  same_slot_data F n0 (EvmData d) -> same_slot_data F n0 (EvmData (with_price_params d p)).
Proof. by destruct n0, d. Qed.
Lemma slot_gas F n0 d g :
  same_slot_data F n0 (EvmData d) -> same_slot_data F n0 (EvmData (with_gas_estimate d g)).
Proof. by destruct n0, d. Qed.
Lemma slot_signed F n0 d s :
  same_slot_data F n0 (EvmData d) -> same_slot_data F n0 (EvmData (with_signed_transaction_data d s)).
Proof. by destruct n0, d. Qed.
Lemma slot_noop F n0 d g :
  same_slot_data F n0 (EvmData d) -> same_slot_data F n0 (EvmData (noop_data d g)).
Proof. by destruct n0, d. Qed.
Lemma slot_hash F n0 d h :
  same_slot_data F n0 (EvmData d) -> same_slot_data F n0 (EvmData (set_evm_hash h d)).
Proof. by destruct n0, d. Qed.
Lemma slot_replacement F n0 d r :
  same_slot_data F n0 (EvmData d) -> same_slot_data F n0 (EvmData (for_replacement d r)).
Proof. by destruct n0, d. Qed.
(** A nonce is assigned to data that has none. *)
Lemma slot_nonce F n0 d n :
  F = true -> evm_nonce d = None -> same_slot_data F n0 (EvmData d) ->
  same_slot_data F n0 (EvmData (with_nonce d n)).
Proof.
  destruct n0 as [d0| |], d; simpl; try done. intros -> -> (?&?&Hn). split_and!; [done..|].
  right. by destruct Hn as [?|[_ ?]].
Qed.
#[export] Hint Resolve slot_price slot_gas slot_signed slot_noop slot_hash slot_replacement
  slot_nonce : keeps_db.

Lemma nonce_price d p : evm_nonce (with_price_params d p) = evm_nonce d.
Proof. by destruct d. Qed.
Lemma nonce_gas d g : evm_nonce (with_gas_estimate d g) = evm_nonce d.
Proof. by destruct d. Qed.
Lemma nonce_signed d s : evm_nonce (with_signed_transaction_data d s) = evm_nonce d.
Proof. by destruct d. Qed.
Lemma nonce_noop d g : evm_nonce (noop_data d g) = evm_nonce d.
Proof. by destruct d. Qed.
Lemma nonce_hash d h : evm_nonce (set_evm_hash h d) = evm_nonce d.
Proof. by destruct d. Qed.
Lemma nonce_replacement d r : evm_nonce (for_replacement d r) = evm_nonce d.
Proof. done. Qed.
Lemma nonce_with d n : evm_nonce (with_nonce d n) = Some n.
Proof. by destruct d. Qed.
Create Rewrite HintDb nonce_db.
#[export] Hint Rewrite nonce_price nonce_gas nonce_signed nonce_noop nonce_hash
  nonce_replacement nonce_with : nonce_db.

Lemma push_hash_prefix hs0 hs d : hs0 `prefix_of` hs -> hs0 `prefix_of` push_hash hs d.
Proof. unfold push_hash. destruct (evm_hash d); [by apply prefix_app_r | done]. Qed.
#[export] Hint Resolve push_hash_prefix : keeps_db.

(** The EVM data of a legal version. *)
Lemma evolves_slot F A t0 t d :
  evolves F A t0 t -> get_evm_transaction_data (tx_network_data t) = Ok d ->
  same_slot_data F (tx_network_data t0) (EvmData d).
Proof.
  intros HE Hd. pose proof (ev_data _ _ _ _ HE). destruct (tx_network_data t); try done.
  by simplify_eq/=.
Qed.

Lemma slot_nonce_some F t0 d :
  same_slot_data F (tx_network_data t0) (EvmData d) -> is_Some (tx_nonce t0) ->
  is_Some (evm_nonce d).
Proof.
  unfold tx_nonce. destruct (tx_network_data t0); simpl; try done.
  by intros (?&?&[->|[_ ->]]).
Qed.
#[export] Hint Resolve evolves_slot slot_nonce_some ev_hashes : keeps_db.

Section Handlers.
Context `{Chrono} `{ServerConfig} `{Env} `{PriceCalculator}.
Context {S C : Type} `{!TransactionRepository S} `{!TransactionCounter C}.
Context (relayer : RelayerRepoModel).
Context (F : bool).
Context (m0 : gmap string TransactionRepoModel) (t0 : TransactionRepoModel).
Context (A : list TransactionStatus).

Abbreviation I := (owned (S := S) (C := C) F m0 t0 A).
Abbreviation E := (evolves F A t0).
Abbreviation target := (target t0 A).

Lemma keeps_update_status tx s r :
  E tx -> target s -> keeps I (update_transaction_status relayer tx s r) E.
Proof.
  intros Htx Hs. unfold update_transaction_status.
  keep_bind. eapply keeps_bind; [eauto 8 with keeps_db | intros tx' Htx'].
  keep_bind. by apply keeps_ret.
Qed.

Lemma keeps_update_if_needed tx s r :
  E tx -> (tx_status tx <> s -> target s) ->
  keeps I (update_transaction_status_if_needed relayer tx s r) E.
Proof.
  intros Htx Hs. unfold update_transaction_status_if_needed, status_eqb.
  case_bool_decide; simpl; [by apply keeps_ret | apply keeps_update_status; auto].
Qed.

Lemma keeps_mark_failed tx r :
  E tx -> target Failed -> keeps I (mark_transaction_as_failed relayer tx r) E.
Proof.
  intros Htx Hs. unfold mark_transaction_as_failed.
  eapply keeps_bind; [eauto 8 with keeps_db | intros tx' Htx'].
  keep_bind. by apply keeps_ret.
Qed.

Lemma keeps_mark_as_failed tx r :
  E tx -> target Failed -> keeps I (mark_as_failed relayer tx r) E.
Proof. apply keeps_mark_failed. Qed.

Lemma keeps_nonce_too_high tx :
  E tx -> keeps I (handle_nonce_too_high tx) (fun _ => True).
Proof.
  intros Htx. unfold handle_nonce_too_high.
  eapply keeps_bind; [apply keeps_try; eauto 8 with keeps_db | intros ? _].
  apply keeps_inert. preserve.
Qed.

Lemma keeps_make_noop d n :
  same_slot_data F (tx_network_data t0) (EvmData d) -> is_Some (evm_nonce d) ->
  keeps I (make_noop d n) (fun d' =>
    same_slot_data F (tx_network_data t0) (EvmData d') /\ is_Some (evm_nonce d')).
Proof.
  intros Hd Hn. unfold make_noop. destruct (is_arbitrum n); [keep_bind|].
  2: by apply keeps_ret; rewrite nonce_noop; auto with keeps_db.
  case_match; apply keeps_ret; rewrite nonce_noop; auto with keeps_db.
Qed.

Lemma keeps_noop_request tx c r :
  E tx -> is_Some (tx_nonce t0) ->
  keeps I (prepare_noop_update_request tx c r) (upd_ok F A t0).
Proof.
  intros Htx Hn. unfold prepare_noop_update_request.
  keep_bind. keep_bind. eapply keeps_bind; [apply keeps_make_noop; eauto with keeps_db|].
  intros d' [Hd' Hn']. apply keeps_ret, upd_ok_noop.
  - apply upd_ok_reason, upd_ok_data; auto with keeps_db.
  - intros Hc. destruct c; [done|]. by rewrite (ev_canceled _ _ _ _ Htx Hc).
Qed.

Lemma keeps_process_noop tx r :
  E tx -> is_Some (tx_nonce t0) -> keeps I (process_noop_transaction relayer tx r) E.
Proof.
  intros Htx Hn. unfold process_noop_transaction.
  eapply keeps_bind; [by apply keeps_noop_request | intros u Hu].
  keep_bind. keep_bind. by apply keeps_ret.
Qed.

(** *** Preparation *)

Lemma keeps_prepare_gas tx d :
  E tx -> target Failed -> same_slot_data F (tx_network_data t0) (EvmData d) ->
  keeps I (prepare_gas_limit relayer tx d) (fun r =>
    match r with
    | inl d' => same_slot_data F (tx_network_data t0) (EvmData d') /\ evm_nonce d' = evm_nonce d
    | inr tx' => E tx'
    end).
Proof.
  intros Htx Hf Hd. unfold prepare_gas_limit. destruct (evm_gas_limit d) as [g|].
  - keep_bind. case_match; [|by apply keeps_ret]. case_match; [|by apply keeps_ret].
    eapply keeps_bind; [by apply keeps_mark_failed | intros; by apply keeps_ret].
  - keep_bind. case_match; apply keeps_ret; rewrite nonce_gas; auto with keeps_db.
Qed.

(** The nonce is fixed before signing. *)
Lemma keeps_prepare_nonce tx d pp :
  F = true -> E tx -> same_slot_data F (tx_network_data t0) (EvmData d) ->
  (is_Some (evm_nonce d) -> is_Some (tx_nonce tx)) ->
  keeps I (prepare_nonce relayer tx d pp) (fun t => E t /\ is_Some (tx_nonce t)).
Proof.
  intros HF Htx Hd Hn. unfold prepare_nonce.
  destruct (evm_nonce d) eqn:Hnd; [apply keeps_ret; eauto|].
  keep_bind. keep_bind. apply keeps_map_err. eapply keeps_mono.
  - apply keeps_partial_update_strong; [done|]. apply upd_ok_data; [auto with keeps_db| |].
    + apply slot_nonce; [done|by rewrite nonce_price| auto with keeps_db].
    + left. rewrite nonce_with. eauto.
  - intros t (Ht & n & t1 & _ & [->|(_ & [? ?] & _)]); [|done]. split; [done|].
    unfold tx_nonce. simpl. rewrite nonce_with. eauto.
Qed.

Lemma tx_nonce_data tx d :
  get_evm_transaction_data (tx_network_data tx) = Ok d -> tx_nonce tx = evm_nonce d.
Proof. unfold tx_nonce. destruct (tx_network_data tx); try done. by intros [= ->]. Qed.

Lemma keeps_prepare_sign tx pp :
  E tx -> is_Some (tx_nonce tx) -> Sent ∈ A -> keeps I (prepare_sign relayer tx pp) E.
Proof.
  intros Htx Hn HA. unfold prepare_sign. keep_bind. keep_bind. keep_bind.
  - apply keeps_partial_update; [done|]. apply upd_ok_signed; [done..|eauto with keeps_db| |].
    + autorewrite with nonce_db. by erewrite <- tx_nonce_data.
    + eauto with keeps_db.
  - keep_bind. keep_bind. by apply keeps_ret.
Qed.

Lemma keeps_prepare tx :
  F = true -> E tx -> Sent ∈ A -> target Failed ->
  keeps I (prepare_transaction relayer tx) E.
Proof.
  intros HF Htx HA Hf. unfold prepare_transaction. case_match; [|by apply keeps_ret].
  keep_bind. eapply keeps_bind; [eapply keeps_prepare_gas; eauto with keeps_db|].
  intros [d'|tx'] Hd'; [|by apply keeps_ret]. destruct Hd' as [Hd' Hn].
  keep_bind. eapply keeps_bind; [apply keeps_inert; preserve | intros balance _].
  destruct balance as [|[]]; try apply keeps_fail; [|by apply keeps_mark_failed].
  eapply keeps_bind; [apply keeps_prepare_nonce; [done..|]|].
  - rewrite Hn. by erewrite <- tx_nonce_data.
  - intros t [Ht Hnt]. by apply keeps_prepare_sign.
Qed.

(** *** Submission and resubmission *)

Lemma keeps_submit tx :
  E tx -> target Submitted -> keeps I (submit_transaction relayer tx) E.
Proof.
  intros Htx HA. unfold submit_transaction. case_match; [|by apply keeps_ret].
  keep_bind. keep_bind. eapply (keeps_bind _ _ _ (fun _ => True)).
  - unfold submit_broadcast. keep_bind. repeat keep_step; try done.
    eapply keeps_bind; [by apply keeps_nonce_too_high | intros; by apply keeps_ret].
  - intros b _. destruct b; cbn [negb]; [|by apply keeps_ret].
    unfold submit_record. keep_bind.
    eapply keeps_bind; [apply keeps_try; eauto 8 with keeps_db|]. intros r Hr.
    keep_bind. apply keeps_ret. case_match; auto.
Qed.

Lemma keeps_resubmit tx :
  E tx -> target Submitted -> keeps I (resubmit_transaction relayer tx) E.
Proof.
  intros Htx HA. unfold resubmit_transaction. case_match; [|by apply keeps_ret].
  keep_bind. keep_bind. case_match; [by apply keeps_ret|].
  keep_bind. keep_bind. keep_bind. eapply (keeps_bind _ _ _ (fun _ => True)).
  - unfold resubmit_broadcast. keep_bind. repeat keep_step; try done.
    eapply keeps_bind; [by apply keeps_nonce_too_high | intros; by apply keeps_ret].
  - intros [b|] _; [|by apply keeps_ret]. eapply (keeps_bind _ _ _ (upd_ok F A t0)).
    + unfold resubmit_update. destruct b; [apply keeps_ret; auto with keeps_db|].
      keep_bind. keep_bind. apply keeps_ret.
      apply upd_ok_metadata, upd_ok_sent_at, upd_ok_priced_at.
      destruct HA as (?&?&Hn). apply upd_ok_signed; eauto 6 with keeps_db.
    + intros u Hu. keep_bind. apply keeps_ret. case_match; auto.
Qed.

(** *** Recovery *)

Lemma keeps_corrected_hash tx d h :
  E tx -> same_slot_data F (tx_network_data t0) (EvmData d) -> is_Some (tx_nonce t0) ->
  target Mined ->
  keeps I (update_transaction_with_corrected_hash relayer tx d h Mined) E.
Proof.
  intros Htx Hd Hn Hm. unfold update_transaction_with_corrected_hash. keep_bind.
  - apply keeps_partial_update; [done|]. apply upd_ok_data; eauto with keeps_db.
  - keep_bind. by apply keeps_ret.
Qed.

Definition opt_E (o : option TransactionRepoModel) : Prop := forall t, o = Some t -> E t.

Lemma keeps_recover tx d hs :
  E tx -> same_slot_data F (tx_network_data t0) (EvmData d) -> is_Some (tx_nonce t0) ->
  target Mined -> keeps I (recover_from_hashes relayer tx d hs) opt_E.
Proof.
  intros Htx Hd Hn Hm. induction hs as [|h hs IH]; simpl; [by apply keeps_ret|].
  case_match; [done|]. keep_bind. repeat case_match; try done.
  eapply keeps_bind; [by apply keeps_corrected_hash | intros t Ht].
  apply keeps_ret. by intros ? [= <-].
Qed.

(** Reconciliation, for a transaction that was signed more than once only if it holds a
    nonce. *)
Lemma keeps_reconcile tx :
  E tx -> target Failed ->
  (1 < Z.of_nat (length (tx_hashes tx)) -> target Mined /\ is_Some (tx_nonce t0)) ->
  keeps I (reconcile_tx_nonce_state relayer tx) opt_E.
Proof.
  intros Htx Hf Hm. unfold reconcile_tx_nonce_state. keep_bind.
  keep_bind. destruct a0 as [err1|]; [|by apply keeps_ret].
  eapply (keeps_bind _ _ _ (fun r => forall o, r = Ok o -> opt_E o)).
  { destruct (Z.ltb_spec 1 (Z.of_nat (length (tx_hashes tx)))).
    - destruct Hm; [done|]. apply keeps_try, keeps_recover; eauto with keeps_db.
    - apply keeps_ret. by intros ? [= <-]. }
  intros r Hr. assert (opt_E None) by done.
  destruct r as [[t|]|]; [apply keeps_ret; by apply Hr|..]; cbv zeta.
  all: case_match; [by apply keeps_ret|]; case_match; [|by apply keeps_ret].
  all: keep_bind; case_match; [|by apply keeps_ret].
  all: eapply keeps_bind; [by apply keeps_update_status | intros t Ht].
  all: keep_bind; apply keeps_ret; by intros ? [= <-].
Qed.

(** *** The circuit breaker *)

Lemma keeps_circuit_breaker tx ctx :
  E tx -> (tx_status tx <> Submitted -> target Failed) ->
  (tx_status tx = Submitted -> is_Some (tx_nonce t0)) ->
  (tx_status tx = Sent -> is_Some (tx_nonce t0)) ->
  keeps I (handle_circuit_breaker_safely relayer tx ctx) E.
Proof.
  intros Htx Hf Hs Hn. unfold handle_circuit_breaker_safely.
  destruct (tx_status tx) eqn:Hst; try by apply keeps_ret.
  - apply keeps_mark_as_failed; auto.
  - keep_step.
    + eapply keeps_bind; [apply keeps_process_noop; auto | intros t Ht].
      keep_bind. by apply keeps_ret.
    + apply keeps_mark_as_failed; auto.
  - eapply keeps_bind; [apply keeps_process_noop; auto | intros t Ht].
    keep_bind. by apply keeps_ret.
Qed.

(** *** Per-status handlers *)

Lemma keeps_pending_state tx :
  E tx -> target Failed -> keeps I (handle_pending_state relayer tx) E.
Proof.
  intros Htx Hf. unfold handle_pending_state. keep_bind. case_match. case_match.
  - keep_bind. keep_bind. by apply keeps_ret.
  - keep_bind. case_match; [keep_bind|]; by apply keeps_ret.
Qed.

Lemma keeps_sent_state tx :
  E tx -> is_Some (tx_nonce t0) -> (tx_status tx <> Sent -> target Sent) ->
  keeps I (handle_sent_state relayer tx) E.
Proof.
  intros Htx Hn Hs. unfold handle_sent_state. keep_bind. case_match. case_match.
  - eapply keeps_bind; [by apply keeps_noop_request | intros u Hu].
    keep_bind. keep_bind. keep_bind. by apply keeps_ret.
  - keep_bind. case_match; [|by apply keeps_update_if_needed]. keep_bind.
    repeat case_match; [by apply keeps_update_if_needed|..].
    all: keep_bind; by apply keeps_update_if_needed.
Qed.

Lemma keeps_submitted_state tx :
  E tx -> is_Some (tx_nonce t0) -> (tx_status tx <> Submitted -> target Submitted) ->
  keeps I (handle_submitted_state relayer tx) E.
Proof.
  intros Htx Hn Hs. unfold handle_submitted_state. keep_bind.
  case_match; [|by apply keeps_update_if_needed]. keep_bind.
  assert (keeps I (handle_resubmission relayer tx) E).
  { unfold handle_resubmission. keep_bind. case_match. keep_bind.
    - case_match; [by apply keeps_process_noop | by apply keeps_ret].
    - keep_bind. by apply keeps_ret. }
  repeat case_match; try done. by apply keeps_update_if_needed.
Qed.

(** *** Cancellation and replacement *)

Lemma keeps_cancel tx :
  E tx -> (tx_status tx = Pending -> target Canceled) ->
  (holds_nonce (tx_status tx) = true -> is_Some (tx_nonce t0)) ->
  keeps I (cancel_transaction relayer tx) E.
Proof.
  intros Htx Hc Hn. unfold cancel_transaction. keep_bind. unfold status_eqb.
  case_bool_decide; [apply keeps_update_status; auto|].
  assert (is_Some (tx_nonce t0)).
  { apply Hn. unfold ensure_status_one_of in *. by destruct (tx_status tx). }
  eapply keeps_bind; [by apply keeps_noop_request | intros u Hu].
  keep_bind. keep_bind. keep_bind. by apply keeps_ret.
Qed.

Lemma keeps_replace tx r :
  E tx -> is_Some (tx_nonce t0) \/ Forall (fun s => holds_nonce s = false) A ->
  keeps I (replace_transaction relayer tx r) E.
Proof.
  intros Htx Hn. unfold replace_transaction. keep_bind. keep_bind.
  destruct r as [r| |]; [|apply keeps_fail..].
  keep_bind. keep_bind. keep_bind. keep_bind. keep_bind.
  - apply keeps_update_network_data; [done|eauto 6 with keeps_db|].
    destruct Hn as [Hn|]; [left|by right]. autorewrite with nonce_db. eauto with keeps_db.
  - keep_bind. keep_bind. by apply keeps_ret.
Qed.
End Handlers.

(** ** The status handler *)

(** Where a status check may move a transaction. *)
Definition status_targets (s : TransactionStatus) : list TransactionStatus :=
  match s with
  | Pending => [Pending; Failed]
  | Sent => [Sent; Mined; Failed]
  | Submitted | Mined => [Submitted; Mined; Confirmed; Canceled; Failed]
  | _ => [s]
  end.

Section StatusHandler.
Context `{Chrono} `{ServerConfig} `{Env} `{PriceCalculator}.
Context {S C : Type} `{!TransactionRepository S} `{!TransactionCounter C}.
Context (relayer : RelayerRepoModel).
Context (F : bool).
Context (m0 : gmap string TransactionRepoModel) (t0 : TransactionRepoModel).
Context (Hok : tx_ok t0).

Abbreviation A := (status_targets (tx_status t0)).
Abbreviation I := (owned (S := S) (C := C) F m0 t0 A).
Abbreviation E := (evolves F A t0).

Lemma evolves_start : E t0.
Proof.
  eapply evolves_mono; [|by apply evolves_refl]. intros s ->%list_elem_of_singleton.
  destruct (tx_status t0); in_statuses.
Qed.

Lemma nonce_held s : s ∈ A -> holds_nonce s = true -> is_Some (tx_nonce t0).
Proof.
  intros Hs%status_in_spec Hh. apply Hok. by destruct (tx_status t0), s.
Qed.

Lemma target_of s : s ∈ A -> s <> Pending -> target t0 A s.
Proof. intros Hs Hp. split_and!; [done..|]. by apply nonce_held. Qed.

Lemma target_failed : is_final_state (tx_status t0) = false -> target t0 A Failed.
Proof. intros Hf. apply target_of; [|done]. destruct (tx_status t0); try done; in_statuses. Qed.

Section Live.
Context (Hlive : tx_status t0 = Submitted \/ tx_status t0 = Mined).

Lemma live_targets : A = [Submitted; Mined; Confirmed; Canceled; Failed].
Proof. by destruct Hlive as [->| ->]. Qed.

Lemma live_target s : s ∈ A -> target t0 A s.
Proof. intros Hs. apply target_of; [done|]. rewrite live_targets in Hs. by intros ->; apply status_in_spec in Hs. Qed.

Lemma live_nonce : is_Some (tx_nonce t0).
Proof. apply Hok. by destruct Hlive as [->| ->]. Qed.

Lemma keeps_check tx :
  E tx -> keeps I (check_transaction_status relayer tx) (fun s => s ∈ A).
Proof.
  intros Htx. unfold check_transaction_status.
  case_match; [apply keeps_ret; apply Htx|]. case_match; [apply keeps_ret; apply Htx|].
  keep_bind. keep_bind. keep_bind. destruct a1 as [rc|].
  - case_match; [apply keeps_ret; rewrite live_targets; in_statuses|].
    keep_bind. keep_bind. keep_bind.
    repeat case_match; apply keeps_ret; rewrite live_targets; in_statuses.
  - keep_bind. case_match; [|apply keeps_ret; rewrite live_targets; in_statuses].
    eapply keeps_bind.
    { apply keeps_recover; [done|eauto with keeps_db|apply live_nonce|apply live_target].
      rewrite live_targets. in_statuses. }
    intros [t|] Ht; apply keeps_ret; [by apply Ht | rewrite live_targets; in_statuses].
Qed.

Lemma keeps_by_status tx s :
  E tx -> s ∈ A -> keeps I (handle_by_status relayer tx s) E.
Proof.
  intros Htx Hs. pose proof (live_target s Hs). pose proof live_nonce.
  destruct s; simpl; try by apply keeps_update_if_needed.
  - rewrite live_targets in Hs. by apply status_in_spec in Hs.
  - rewrite live_targets in Hs. by apply status_in_spec in Hs.
  - by apply keeps_submitted_state.
  - keep_bind. by apply keeps_update_if_needed.
Qed.

Lemma keeps_live_flow tx : E tx -> keeps I (normal_status_flow relayer tx) E.
Proof.
  intros Htx. unfold normal_status_flow.
  eapply keeps_bind; [by apply keeps_check | intros s Hs]. keep_bind.
  { case_match; [by eauto with keeps_db | by apply keeps_ret]. }
  keep_bind. case_match; [|by apply keeps_by_status].
  apply keeps_update_if_needed; [done|]. intros _. by apply live_target.
Qed.
End Live.

Lemma keeps_normal_flow : is_final_state (tx_status t0) = false ->
  keeps I (normal_status_flow relayer t0) E.
Proof.
  intros Hf. pose proof evolves_start as HE.
  destruct (is_unsubmitted_transaction (tx_status t0)) eqn:Hu; cycle 1.
  { apply keeps_live_flow; [|done]. destruct (tx_status t0); try done; auto. }
  unfold normal_status_flow, check_transaction_status. rewrite Hf, Hu.
  eapply (keeps_bind _ _ _ (fun s => s = tx_status t0)); [by apply keeps_ret | intros s ->].
  unfold status_eqb. rewrite bool_decide_eq_true_2 by done. cbn [negb].
  eapply (keeps_bind _ _ _ (fun t => t = t0)); [by apply keeps_ret | intros t ->].
  keep_bind. case_match; [by apply keeps_update_if_needed|].
  pose proof (target_failed Hf). pose proof (fun H => proj1 Hok H) as Hn.
  unfold handle_by_status. destruct (tx_status t0) eqn:Hst at 2; try by rewrite Hst in Hu.
  - by apply keeps_pending_state.
  - apply keeps_sent_state; [done|apply Hn; by rewrite Hst | done].
Qed.

Lemma keeps_handle_status ctx : keeps I (handle_status_impl relayer t0 ctx) E.
Proof.
  pose proof evolves_start as HE. unfold handle_status_impl.
  destruct (is_final_state (tx_status t0)) eqn:Hf; [by apply keeps_ret|].
  pose proof (keeps_normal_flow Hf). pose proof (target_failed Hf). cbv zeta.
  destruct ctx as [ctx|]; [|done]. keep_step.
  - apply keeps_circuit_breaker; [done..| |]; intros Hs; apply Hok; by rewrite Hs.
  - keep_step; [|done]. eapply keeps_bind.
    + apply keeps_try, keeps_reconcile; [done..|]. intros Hlen.
      assert (tx_status t0 <> Pending) as Hp.
      { intros Hp. destruct Hok as [_ Hh]. by rewrite (Hh Hp) in Hlen. }
      assert (holds_nonce (tx_status t0) = true) as Hh by (destruct (tx_status t0); done).
      split; [|by apply Hok]. apply target_of; [|done].
      destruct (tx_status t0); try done; in_statuses.
    + intros r Hr. destruct r as [[t|]|]; try done. apply keeps_ret. by eapply Hr.
Qed.
End StatusHandler.

(** ** Handlers in any order *)

(** The operations of [EvmRelayerTransaction] on a stored transaction. *)
Inductive handler : Type :=
| HPrepare
| HSubmit
| HResubmit
| HStatus (ctx : option StatusCheckContext)
| HCancel
| HReplace (r : NetworkTransactionRequest).

(** Where a handler may move a transaction. *)
Definition handler_targets (h : handler) (s : TransactionStatus) : list TransactionStatus :=
  match h, s with
  | HPrepare, Pending => [Pending; Sent; Failed]
  | (HSubmit | HResubmit), Sent => [Sent; Submitted]
  | HStatus _, _ => status_targets s
  | HCancel, Pending => [Pending; Canceled]
  | _, _ => [s]
  end.

(** Where a transaction of a status may ever get to. *)
Definition reachable_statuses (s : TransactionStatus) : list TransactionStatus :=
  match s with
  | Pending => [Pending; Sent; Submitted; Mined; Confirmed; Canceled; Failed]
  | Sent => [Sent; Submitted; Mined; Confirmed; Canceled; Failed]
  | Submitted | Mined => [Submitted; Mined; Confirmed; Canceled; Failed]
  | _ => [s]
  end.

Section System.
Context `{Chrono} `{ServerConfig} `{Env} `{PriceCalculator}.
Context {S C : Type} `{!TransactionRepository S} `{!TransactionCounter C}.

Definition run_handler (relayer : RelayerRepoModel) (h : handler) (tx : TransactionRepoModel)
  : T S C TransactionRepoModel :=
  match h with
  | HPrepare => prepare_transaction relayer tx
  | HSubmit => submit_transaction relayer tx
  | HResubmit => resubmit_transaction relayer tx
  | HStatus ctx => handle_status_impl relayer tx ctx
  | HCancel => cancel_transaction relayer tx
  | HReplace r => replace_transaction relayer tx r
  end.

(** A handler run on the stored version of a transaction, by the relayer it belongs to. *)
Inductive step (relayers : string -> option RelayerRepoModel) (w : W S C) : W S C -> Prop :=
| step_handler tx relayer h :
    view w !! tx_id tx = Some tx -> relayers (tx_relayer_id tx) = Some relayer ->
    step relayers w (snd (run_handler relayer h tx w)).

Definition store_ok (w : W S C) : Prop :=
  map_Forall (fun id t => tx_id t = id /\ tx_ok t) (view w).

(** Only preparation assigns a nonce. *)
Definition assigns (h : handler) : bool :=
  match h with HPrepare => true | _ => false end.

Lemma keeps_handler relayer h m0 t0 :
  tx_ok t0 ->
  keeps (owned (S := S) (C := C) (assigns h) m0 t0 (handler_targets h (tx_status t0)))
    (run_handler relayer h t0) (evolves (assigns h) (handler_targets h (tx_status t0)) t0).
Proof.
  intros Hok. set (B := handler_targets h (tx_status t0)).
  assert (evolves (assigns h) B t0 t0) as HE.
  { eapply evolves_mono; [|by apply evolves_refl]. intros s ->%list_elem_of_singleton.
    subst B. destruct h, (tx_status t0); in_statuses. }
  assert (forall s, s ∈ B -> s <> Pending -> (holds_nonce s = true -> is_Some (tx_nonce t0)) ->
            target t0 B s) as Ht by by intros.
  assert (holds_nonce (tx_status t0) = true -> is_Some (tx_nonce t0)) as Hn by apply Hok.
  destruct h; simpl.
  - destruct (decide (tx_status t0 = Pending)) as [Hs|Hs].
    + subst B. rewrite Hs in *. apply keeps_prepare; [done..|in_statuses|].
      apply Ht; [in_statuses|done..].
    + unfold prepare_transaction, ensure_status, status_eqb.
      rewrite bool_decide_eq_false_2 by done. by apply keeps_ret.
  - destruct (status_in (tx_status t0) submit_allowed) eqn:Hs.
    + apply keeps_submit; [done|]. subst B.
      destruct (tx_status t0); try done; (apply Ht; [in_statuses|done|]; intros _; auto).
    + unfold submit_transaction, ensure_status_one_of. rewrite Hs. by apply keeps_ret.
  - destruct (status_in (tx_status t0) submit_allowed) eqn:Hs.
    + apply keeps_resubmit; [done|]. subst B.
      destruct (tx_status t0); try done; (apply Ht; [in_statuses|done|]; intros _; auto).
    + unfold resubmit_transaction, ensure_status_one_of. rewrite Hs. by apply keeps_ret.
  - by apply keeps_handle_status.
  - apply keeps_cancel; [done| |done]. intros Hs. subst B. rewrite Hs in *.
    apply Ht; [in_statuses|done..].
  - apply keeps_replace; [done|]. subst B.
    destruct (holds_nonce (tx_status t0)) eqn:Hh; [left; auto|right].
    by repeat constructor.
Qed.

Lemma run_handler_owned relayer h tx (w : W S C) :
  view w !! tx_id tx = Some tx -> tx_ok tx ->
  let A := handler_targets h (tx_status tx) in
  owned (assigns h) (view w) tx A (snd (run_handler relayer h tx w)) /\
  forall t, fst (run_handler relayer h tx w) = Ok t -> evolves (assigns h) A tx t.
Proof.
  intros Hv Hok. apply (keeps_handler relayer h (view w) tx Hok w).
  exists tx. split; [by rewrite insert_id|].
  eapply evolves_mono; [|by apply evolves_refl]. intros s ->%list_elem_of_singleton.
  destruct h, (tx_status tx); in_statuses.
Qed.

(** C1. Every handler of the EVM transaction code - preparation, submission, resubmission,
    status check, cancellation, replacement - run on the stored version of a transaction,
    whatever the RPC node, the signer, the clock, the queue and the price calculator answer
    and whether it succeeds or fails, touches no other transaction, leaves a legal later
    version in its place (same id, relayer, chain and sender, a nonce once assigned kept and
    assigned by preparation only, the hash history only extended, a cancellation never
    forgotten) with a status the handler may move to, and returns only such a version. *)
Theorem handler_evolves relayer h tx (w : W S C) :
  view w !! tx_id tx = Some tx -> tx_ok tx ->
  let A := handler_targets h (tx_status tx) in
  wp (run_handler relayer h tx) (fun r w' =>
    (exists t, view w' = <[tx_id tx := t]> (view w) /\ evolves (assigns h) A tx t) /\
    forall t, r = Ok t -> evolves (assigns h) A tx t) w.
Proof. apply run_handler_owned. Qed.

Lemma step_evolves relayers w w' :
  step relayers w w' -> store_ok w ->
  exists tx t h, view w !! tx_id tx = Some tx /\ view w' = <[tx_id tx := t]> (view w) /\
    evolves (assigns h) (handler_targets h (tx_status tx)) tx t.
Proof.
  intros [tx relayer h Hv Hr] Hok. destruct (Hok _ _ Hv) as [_ Htx].
  destruct (run_handler_owned relayer h tx w Hv Htx) as [(t & Ht & HE) _]. by eauto 10.
Qed.

Lemma step_store_ok relayers w w' : step relayers w w' -> store_ok w -> store_ok w'.
Proof.
  intros Hs Hok. destruct (step_evolves _ _ _ Hs Hok) as (tx & t & h & Hv & Hw & HE).
  unfold store_ok. rewrite Hw. apply map_Forall_insert_2; [|done].
  split; [by rewrite (ev_id _ _ _ _ HE) | by eapply evolves_ok].
Qed.

Lemma targets_reachable h s s' :
  s' ∈ handler_targets h s -> s' ∈ reachable_statuses s.
Proof.
  intros Hs%status_in_spec. apply status_in_spec. by destruct h, s, s'.
Qed.

Lemma reachable_trans s1 s2 s3 :
  s2 ∈ reachable_statuses s1 -> s3 ∈ reachable_statuses s2 -> s3 ∈ reachable_statuses s1.
Proof.
  intros H12%status_in_spec H23%status_in_spec. apply status_in_spec. by destruct s1, s2, s3.
Qed.

(** Over any sequence of handler runs on any of the stored transactions, in any order and
    with any answers of the outside world, no transaction disappears or appears, every stored
    transaction past preparation holds a nonce and none before it was signed, and each
    transaction only moves along the status graph (never back to Pending, never back from
    Submitted or Mined to Sent, never to Expired, never out of a final status), keeping its
    nonce, chain and sender, extending its hash history and never losing its cancellation. *)
Theorem lifecycle relayers (w w' : W S C) :
  rtc (step relayers) w w' -> store_ok w ->
  store_ok w' /\ dom (view w') = dom (view w) /\
  forall id t, view w !! id = Some t ->
    exists t', view w' !! id = Some t' /\ evolves true (reachable_statuses (tx_status t)) t t'.
Proof.
  intros Hr. induction Hr as [w|w w1 w' Hs _ IH]; intros Hok.
  - split_and!; [done..|]. intros id t Ht. exists t. split; [done|].
    destruct (Hok _ _ Ht) as [_ Htx]. eapply evolves_mono; [|by apply evolves_refl].
    intros s ->%list_elem_of_singleton. destruct (tx_status t); in_statuses.
  - destruct (step_evolves _ _ _ Hs Hok) as (tx & t1 & h & Hv & Hw & HE).
    destruct IH as (Hok' & Hdom & IH); [by eapply step_store_ok|]. split_and!; [done| |].
    { rewrite Hdom, Hw. apply dom_insert_lookup_L. eauto. }
    intros id t Ht. destruct (decide (id = tx_id tx)) as [->|Hne].
    + assert (t = tx) as -> by congruence. destruct (IH (tx_id tx) t1) as (t' & Ht' & HE').
      { by rewrite Hw, lookup_insert_eq. }
      exists t'. split; [done|]. apply evolves_assign in HE.
      eapply evolves_mono; [|eapply evolves_trans; [apply HE|apply HE']].
      intros s Hs'. eapply reachable_trans; [|done].
      eapply targets_reachable, (ev_status _ _ _ _ HE).
    + destruct (IH id t) as (t' & ?); [|by eauto]. by rewrite Hw, lookup_insert_ne.
Qed.

(** *** Final transactions *)

Lemma final_idle relayer h tx (w : W S C) :
  is_final_state (tx_status tx) = true -> snd (run_handler relayer h tx w) = w.
Proof.
  intros Hf. destruct h; simpl.
  - unfold prepare_transaction, ensure_status. by destruct (tx_status tx).
  - unfold submit_transaction, ensure_status_one_of. by destruct (tx_status tx).
  - unfold resubmit_transaction, ensure_status_one_of. by destruct (tx_status tx).
  - unfold handle_status_impl. by rewrite Hf.
  - unfold cancel_transaction, ensure_status_one_of, bindM. by destruct (tx_status tx).
  - unfold replace_transaction, ensure_status_one_of, bindM. by destruct (tx_status tx).
Qed.

(** C4. A finalized transaction (Confirmed, Failed, Expired or Canceled) never changes again,
    in no field, whatever handlers run on it or on others afterwards: each handler returns
    without any effect on it. *)
Theorem final_is_permanent relayers (w w' : W S C) id t :
  rtc (step relayers) w w' -> store_ok w ->
  view w !! id = Some t -> is_final_state (tx_status t) = true -> view w' !! id = Some t.
Proof.
  intros Hr. induction Hr as [w|w w1 w' Hs _ IH]; intros Hok Ht Hf; [done|].
  apply IH; [by eapply step_store_ok| |done]. destruct (Hok _ _ Ht) as [Hid Htx].
  destruct Hs as [tx relayer h Hv Hr].
  destruct (decide (tx_id tx = id)) as [Heq|Hne].
  - rewrite Heq in Hv. simplify_eq. by rewrite final_idle.
  - destruct (Hok _ _ Hv) as [_ Htx'].
    destruct (run_handler_owned relayer h tx w Hv Htx') as [(t1 & -> & _) _].
    by rewrite lookup_insert_ne.
Qed.
End System.

(** ** Instances *)

Section Witnesses.
#[local] Existing Instances sample_chrono sample_config sample_order sample_calculator.

Definition demo_env : Env :=
  sample_env (seconds 30) (fun _ => Ok None) 100 0 (Ok "0xf0"%string).
#[local] Existing Instance demo_env.

Definition demo_pending : TransactionRepoModel :=
  sample_tx "tx1" Pending [] (sample_data None None None).
Definition demo_failed : TransactionRepoModel :=
  sample_tx "tx2" Failed [] (sample_data None None None).
Definition demo_world : World InMemory.state (gmap CounterKey Z) :=
  sample_world [demo_pending; demo_failed] ∅.
Definition demo_relayers (id : string) : option RelayerRepoModel :=
  if String.eqb id "relayer" then Some sample_relayer else None.

(** Preparation, then submission, of the pending transaction. *)
Definition demo_prepared : World InMemory.state (gmap CounterKey Z) :=
  snd (run_handler sample_relayer HPrepare demo_pending demo_world).
Definition demo_sent : TransactionRepoModel :=
  default demo_pending (view demo_prepared !! "tx1"%string).
Definition demo_submitted : World InMemory.state (gmap CounterKey Z) :=
  snd (run_handler sample_relayer HSubmit demo_sent demo_prepared).

Lemma demo_store_ok : store_ok demo_world.
Proof.
  unfold store_ok. change (view demo_world) with
    ({["tx1"%string := demo_pending; "tx2"%string := demo_failed]} : gmap string TransactionRepoModel).
  apply map_Forall_insert_2; [by repeat split|]. apply map_Forall_insert_2; [by repeat split|].
  apply map_Forall_empty.
Qed.

Lemma demo_run : rtc (step demo_relayers) demo_world demo_submitted.
Proof.
  eapply rtc_l; [by apply (step_handler _ _ demo_pending sample_relayer HPrepare)|].
  eapply rtc_l; [|apply rtc_refl].
  by apply (step_handler _ demo_prepared demo_sent sample_relayer HSubmit).
Qed.

Lemma handler_evolves_witness :
  wp (run_handler sample_relayer HCancel demo_pending) (fun r w' =>
    (exists t, view w' = <[tx_id demo_pending := t]> (view demo_world) /\
       evolves false [Pending; Canceled] demo_pending t) /\
    forall t, r = Ok t -> evolves false [Pending; Canceled] demo_pending t) demo_world.
Proof. apply (handler_evolves sample_relayer HCancel); by repeat split. Defined.

Lemma lifecycle_witness :
  exists t, view demo_submitted !! "tx1"%string = Some t /\ tx_status t = Submitted /\
    evolves true (reachable_statuses Pending) demo_pending t.
Proof.
  destruct (lifecycle demo_relayers demo_world demo_submitted demo_run demo_store_ok)
    as (_ & _ & Ht).
  destruct (Ht "tx1"%string demo_pending) as (t & Hv & HE); [reflexivity|].
  exists t. split_and!; [done| |done]. vm_compute in Hv. by injection Hv as <-.
Defined.

Lemma final_is_permanent_witness :
  view demo_submitted !! "tx2"%string = Some demo_failed.
Proof.
  by apply (final_is_permanent demo_relayers demo_world demo_submitted _ _ demo_run demo_store_ok).
Defined.
End Witnesses.
