(* ===== verification/NonceAssignment.v ===== *)
(** * Nonces are assigned once

    Preparation takes a nonce from the relayer's counter and stores it before signing; no
    other handler touches the counters.  Hence, starting from a store whose nonces are below
    the counters, two transactions of a relayer never get the same nonce. *)

From S2P Require Import Prelude Decimal Errors Model Config Repository Counter Jobs Effects.
From S2P Require Import Sample EvmUtils Price EvmTransaction EvmStatus Lifecycle.
Open Scope Z_scope.

Section Nonces.
Context `{Chrono} `{ServerConfig} `{Env} `{PriceCalculator}.
Context {S C : Type} `{!TransactionRepository S} `{!TransactionCounter C}.

Definition counters (w : W S C) : gmap CounterKey Z := ctr_view (w_ctr w).

(** Reads, queueing and broadcasting leave the stored transactions and the counters alone. *)
Definition same_both (w w' : W S C) : Prop := same_view w w' /\ same_ctr w w'.

#[global] Instance same_both_inert : Inert same_both.
Proof.
  pose proof (same_view_inert (S := S) (C := C)) as HV.
  pose proof (same_ctr_inert (S := S) (C := C)) as HC.
  constructor; intros; [|intros w; split; first [apply HV | apply HC]..].
  split.
  - intros w. by split.
  - intros ??? [? ?] [? ?]. unfold same_both, same_view, same_ctr in *. split; congruence.
Qed.

Section One.
Context (m0 : gmap string TransactionRepoModel) (t0 : TransactionRepoModel).

(** The store is [m0] but for the transaction of [t0], whose nonce satisfies [N]; the counters
    are [cv]. *)
Definition held (N : option Z -> Prop) (cv : gmap CounterKey Z) (w : W S C) : Prop :=
  counters w = cv /\
  exists t, view w = <[tx_id t0 := t]> m0 /\ tx_id t = tx_id t0 /\ N (tx_nonce t).

Definition good (N : option Z -> Prop) (t : TransactionRepoModel) : Prop :=
  tx_id t = tx_id t0 /\ N (tx_nonce t).

Context (N : option Z -> Prop) (cv : gmap CounterKey Z).

Lemma held_inert {E' B} (c : M (W S C) E' B) :
  preserves same_both c -> keeps (held N cv) c (fun _ => True).
Proof.
  intros Hc. eapply keeps_of_preserves; [|exact Hc].
  unfold same_both, same_view, same_ctr, held, counters. by intros w w' [-> ->].
Qed.

Definition data_in (u : TransactionUpdateRequest) : Prop :=
  forall n, upd_network_data u = Some n -> exists d, n = EvmData d /\ N (evm_nonce d).

Lemma good_update now u t : data_in u -> good N t -> good N (apply_partial_update now u t).
Proof.
  intros Hu [Hid HN]. split; [done|]. unfold tx_nonce. simpl.
  destruct (upd_network_data u) as [n|] eqn:Hd; simpl; [|done].
  by destruct (Hu _ Hd) as (?&->&?).
Qed.

Lemma held_partial_update_r tx u :
  tx_id tx = tx_id t0 -> data_in u ->
  keeps (held N cv) (partial_update_r (tx_id tx) u) (fun t => good N t /\
    forall d, upd_network_data u = Some (EvmData d) -> upd_status u = None ->
      tx_nonce t = evm_nonce d).
Proof.
  intros Hid Hu. unfold partial_update_r. eapply keeps_bind.
  { apply held_inert. preserve. }
  intros n _ w (Hc & t & Hv & Ht & HN). unfold repo_call.
  pose proof (repo_partial_update_spec n (tx_id tx) u (w_repo w)) as Hs. unfold wp in Hs.
  pose proof (same_ctr_repo_call (repo_partial_update n (tx_id tx) u) w) as Hsc.
  unfold repo_call, same_ctr in Hsc.
  destruct (repo_partial_update n (tx_id tx) u (w_repo w)) as [r s']. simpl in *.
  fold (view w) in Hs. rewrite Hv, Hid in Hs. unfold held, counters.
  rewrite Hsc, view_set_repo. fold (counters w). split; [split; [done|]|].
  - destruct Hs as [(t1 & t2 & Hl & Hr & Hs & _)|(Hs & _)]; [|by exists t; rewrite Hs].
    rewrite lookup_insert_eq in Hl. injection Hl as <-. rewrite insert_insert_eq in Hs.
    exists t2. split; [done|]. destruct Hr as [->|(_&_&->)]; [|done]. by apply good_update.
  - intros a ->. destruct Hs as [(t1 & t2 & Hl & Hr & _ & Ho)|(_ & ? & ?)]; [|done].
    rewrite lookup_insert_eq in Hl. injection Hl as <-. rewrite (Ho _ eq_refl).
    destruct Hr as [->|(_&[? ?]&->)]; [|split; [done|congruence]].
    split; [by apply good_update|]. intros d Hd _. unfold tx_nonce. simpl. by rewrite Hd.
Qed.

Lemma data_in_status s r : data_in (upd_with_reason r (upd_with_status s)).
Proof. done. Qed.

Lemma held_mark_failed relayer tx r :
  tx_id tx = tx_id t0 ->
  keeps (held N cv) (mark_transaction_as_failed relayer tx r) (fun _ => True).
Proof.
  intros Hid. unfold mark_transaction_as_failed, partial_update. eapply keeps_bind.
  { apply keeps_map_err, held_partial_update_r; [done|apply data_in_status]. }
  intros t _. apply held_inert. preserve.
Qed.

Lemma held_prepare_gas relayer tx d :
  tx_id tx = tx_id t0 ->
  keeps (held N cv) (prepare_gas_limit relayer tx d) (fun r =>
    match r with inl d' => evm_nonce d' = evm_nonce d | inr _ => True end).
Proof.
  intros Hid. unfold prepare_gas_limit. destruct (evm_gas_limit d) as [g|].
  - eapply keeps_bind; [apply held_inert; preserve | intros r _].
    case_match; [|by apply keeps_ret]. case_match; [|by apply keeps_ret].
    eapply keeps_bind; [by apply held_mark_failed | intros; by apply keeps_ret].
  - eapply keeps_bind; [apply held_inert; preserve | intros r _].
    case_match; apply keeps_ret; apply nonce_gas.
Qed.

Lemma held_prepare_sign relayer tx pp :
  good N tx -> keeps (held N cv) (prepare_sign relayer tx pp) (fun _ => True).
Proof.
  intros [Hid HN]. unfold prepare_sign.
  apply (keeps_bind _ _ _ (fun d => get_evm_transaction_data (tx_network_data tx) = Ok d));
    [by apply keeps_lift | intros d Hd].
  eapply keeps_bind; [apply held_inert; preserve | intros sig _]. unfold partial_update.
  eapply keeps_bind; [apply keeps_map_err, held_partial_update_r; [done|] |].
  - intros n [= <-]. eexists. split; [done|]. autorewrite with nonce_db.
    by rewrite <- (tx_nonce_data tx d Hd).
  - intros t _. apply held_inert. preserve.
Qed.
End One.

(** ** Preparation *)

Definition counter_of (relayer : RelayerRepoModel) (cv : gmap CounterKey Z) : Z :=
  default 0 (cv !! (rel_id relayer, rel_address relayer)).

(** After preparation the nonce and the counters are as before, or the counter moved by one
    and the transaction has got the value it had, if any. *)
Definition prepared (relayer : RelayerRepoModel) (m0 : gmap string TransactionRepoModel)
    (t0 : TransactionRepoModel) (cv : gmap CounterKey Z) (w : W S C) : Prop :=
  held m0 t0 (eq (tx_nonce t0)) cv w \/
  (tx_nonce t0 = None /\
   held m0 t0 (fun o => o = None \/ o = Some (counter_of relayer cv))
     (<[(rel_id relayer, rel_address relayer) := wrapu 64 (counter_of relayer cv + 1)]> cv) w).

Section Prepare.
Context (relayer : RelayerRepoModel) (m0 : gmap string TransactionRepoModel).
Context (t0 : TransactionRepoModel) (cv : gmap CounterKey Z).

Abbreviation I1 := (held m0 t0 (eq (tx_nonce t0)) cv).
Abbreviation N2 := (fun o => o = None \/ o = Some (counter_of relayer cv)).
Abbreviation cv2 :=
  (<[(rel_id relayer, rel_address relayer) := wrapu 64 (counter_of relayer cv + 1)]> cv).
Abbreviation Q := (prepared relayer m0 t0 cv).

Lemma prepared_assign d pp (w : W S C) :
  evm_nonce d = None -> tx_nonce t0 = None -> I1 w ->
  wp (let* tx_with_nonce := prepare_nonce relayer t0 d pp in
      prepare_sign relayer tx_with_nonce pp) (fun _ => Q) w.
Proof.
  intros Hd Hn Hw. unfold prepare_nonce. rewrite Hd. do 2 apply wp_bind.
  apply wp_map_err. destruct Hw as (Hc & t & Hv & Hid & Ht).
  unfold wp at 1, counter_call.
  pose proof (ctr_get_and_increment_spec (rel_id relayer) (rel_address relayer) (w_ctr w)) as Hs.
  unfold wp in Hs. destruct (ctr_get_and_increment _ _ _) as [r c']. simpl in *.
  fold (counters w) in Hs. rewrite Hc in Hs.
  assert (view (set_ctr c' w) = view w) as Hvw by by destruct w.
  assert (counters (set_ctr c' w) = ctr_view c') as Hcw by by destruct w.
  destruct Hs as [[Hc' Hr]|[Hc' [e ->]]]; cycle 1.
  { simpl. left. split; [congruence|]. exists t. by rewrite Hvw. }
  assert (held m0 t0 N2 cv2 (set_ctr c' w)) as Hw2.
  { split; [by rewrite Hcw|]. exists t. rewrite Hvw, <- Ht. auto. }
  assert (forall w' : W S C, held m0 t0 N2 cv2 w' -> Q w') as HQ by (right; done).
  destruct r as [new_nonce|e]; simpl; [|by apply HQ].
  rewrite (Hr _ eq_refl). fold (counter_of relayer cv).
  eapply wp_bind_keeps; [apply held_inert; preserve|eassumption|auto|].
  intros priced w1 _ Hw1. unfold partial_update.
  eapply (wp_keeps (held m0 t0 N2 cv2));
    [apply keeps_map_err, held_partial_update_r; [done|]|done|auto|].
  { intros n [= <-]. eexists. split; [done|]. autorewrite with nonce_db. auto. }
  intros tx w2 [Htx _] Hw2'. eapply (wp_keeps (held m0 t0 N2 cv2)); [by apply held_prepare_sign|eassumption|auto..].
Qed.

(** Preparation of a transaction, as to nonces and counters. *)
Lemma prepare_prepared (w : W S C) :
  I1 w -> wp (prepare_transaction relayer t0) (fun _ => Q) w.
Proof.
  intros Hw. assert (forall w' : W S C, I1 w' -> Q w') as HQ by (left; done).
  unfold prepare_transaction. case_match; [|by apply wp_ret, HQ].
  apply wp_bind, wp_lift.
  destruct (get_evm_transaction_data (tx_network_data t0)) as [d|] eqn:Hd; [|by apply HQ].
  eapply (wp_bind_keeps I1); [by apply held_prepare_gas|eassumption|auto|]. intros [d'|] w1 Hd' Hw1;
    [|by apply wp_ret, HQ].
  eapply (wp_bind_keeps I1); [apply held_inert; preserve|eassumption|auto|]. intros pp w2 _ Hw2.
  eapply (wp_bind_keeps I1); [apply held_inert; preserve|eassumption|auto|]. intros bal w3 _ Hw3.
  destruct bal as [|[]]; try by apply wp_fail, HQ.
  - destruct (evm_nonce d') eqn:Hn.
    + unfold prepare_nonce. rewrite Hn. apply wp_bind, wp_ret.
      eapply (wp_keeps I1); [by apply held_prepare_sign|eassumption|auto..].
    + apply prepared_assign; [done| |done]. by rewrite (tx_nonce_data t0 d Hd), <- Hd'.
  - eapply (wp_keeps I1); [by apply held_mark_failed|eassumption|auto..].
Qed.
End Prepare.

(** ** The other handlers leave the counters alone *)

Lemma ctr_partial_update_r id u : preserves same_ctr (partial_update_r (S := S) (C := C) id u).
Proof. unfold partial_update_r. preserve. Qed.
Lemma ctr_partial_update id u : preserves same_ctr (partial_update (S := S) (C := C) id u).
Proof. apply preserves_map_err, ctr_partial_update_r. Qed.
Lemma ctr_repo {A} (c : M S RepositoryError.t A) : preserves same_ctr (repo (C := C) c).
Proof. apply preserves_map_err, same_ctr_repo_call. Qed.
#[local] Hint Resolve ctr_partial_update_r ctr_partial_update ctr_repo : preserves_db.

Section Same.
Context (relayer : RelayerRepoModel).
Abbreviation keeps_ctr c := (preserves (same_ctr (S := S) (C := C)) c).

Lemma ctr_update_status tx s r : keeps_ctr (update_transaction_status relayer tx s r).
Proof. unfold update_transaction_status. preserve. Qed.
Hint Resolve ctr_update_status : preserves_db.
Lemma ctr_update_if_needed tx s r :
  keeps_ctr (update_transaction_status_if_needed relayer tx s r).
Proof. unfold update_transaction_status_if_needed. preserve. Qed.
Lemma ctr_nonce_too_high tx : keeps_ctr (handle_nonce_too_high tx).
Proof. unfold handle_nonce_too_high. preserve. Qed.
Lemma ctr_corrected_hash tx d h s :
  keeps_ctr (update_transaction_with_corrected_hash relayer tx d h s).
Proof. unfold update_transaction_with_corrected_hash. preserve. Qed.
Hint Resolve ctr_update_if_needed ctr_nonce_too_high ctr_corrected_hash : preserves_db.
Lemma ctr_recover tx d hs : keeps_ctr (recover_from_hashes relayer tx d hs).
Proof. induction hs; simpl; preserve. Qed.
Lemma ctr_process_noop tx r : keeps_ctr (process_noop_transaction relayer tx r).
Proof. unfold process_noop_transaction. preserve. Qed.
Lemma ctr_mark_as_failed tx r : keeps_ctr (mark_as_failed relayer tx r).
Proof. unfold mark_as_failed. preserve. Qed.
Hint Resolve ctr_recover ctr_process_noop ctr_mark_as_failed : preserves_db.
Lemma ctr_check tx : keeps_ctr (check_transaction_status relayer tx).
Proof. unfold check_transaction_status, try_recover_with_historical_hashes. preserve. Qed.
Lemma ctr_handle_resubmission tx : keeps_ctr (handle_resubmission relayer tx).
Proof. unfold handle_resubmission. preserve. Qed.
Hint Resolve ctr_check ctr_handle_resubmission : preserves_db.
Lemma ctr_by_status tx s : keeps_ctr (handle_by_status relayer tx s).
Proof.
  destruct s; simpl; unfold handle_final_state, handle_pending_state, handle_sent_state,
    handle_submitted_state, handle_mined_state; preserve.
Qed.
Hint Resolve ctr_by_status : preserves_db.
Lemma ctr_normal_flow tx : keeps_ctr (normal_status_flow relayer tx).
Proof. unfold normal_status_flow. preserve. Qed.
Lemma ctr_circuit_breaker tx ctx : keeps_ctr (handle_circuit_breaker_safely relayer tx ctx).
Proof. unfold handle_circuit_breaker_safely. preserve. Qed.
Lemma ctr_reconcile tx : keeps_ctr (reconcile_tx_nonce_state relayer tx).
Proof. unfold reconcile_tx_nonce_state, try_recover_with_historical_hashes. preserve. Qed.
Hint Resolve ctr_normal_flow ctr_circuit_breaker ctr_reconcile : preserves_db.

Lemma ctr_handler h tx : assigns h = false -> keeps_ctr (run_handler relayer h tx).
Proof.
  destruct h; simpl; [done| | | | |]; intros _.
  - unfold submit_transaction, submit_broadcast, submit_record. preserve.
  - unfold resubmit_transaction, resubmit_broadcast. preserve.
  - unfold handle_status_impl. preserve.
  - unfold cancel_transaction. preserve.
  - unfold replace_transaction. preserve.
Qed.
End Same.

(** ** Uniqueness *)

Section Unique.
Context (relayers : string -> option RelayerRepoModel).

Definition key_of (r : RelayerRepoModel) : CounterKey := (rel_id r, rel_address r).

(** Every nonce in use is below its relayer's counter, and used once. *)
Definition nonces_ok (w : W S C) : Prop :=
  (forall id t r n, view w !! id = Some t -> relayers (tx_relayer_id t) = Some r ->
     tx_nonce t = Some n -> exists c, counters w !! key_of r = Some c /\ n < c) /\
  (forall id1 id2 t1 t2 r n, view w !! id1 = Some t1 -> view w !! id2 = Some t2 ->
     tx_relayer_id t1 = tx_relayer_id t2 -> relayers (tx_relayer_id t1) = Some r ->
     tx_nonce t1 = Some n -> tx_nonce t2 = Some n -> id1 = id2).

(** The counters are not about to wrap around. *)
Definition counters_room (w : W S C) : Prop :=
  map_Forall (fun _ c => 0 <= c < u64_max) (counters w).

(** The same nonce, or none. *)
Definition narrows (o o' : option Z) : Prop := o' = None \/ o' = o.

(** A step that gives the stored transaction no new nonce. *)
Lemma nonces_ok_narrow (w w' : W S C) tx t :
  view w !! tx_id tx = Some tx -> view w' = <[tx_id tx := t]> (view w) ->
  tx_relayer_id t = tx_relayer_id tx -> narrows (tx_nonce tx) (tx_nonce t) ->
  (forall k c, counters w !! k = Some c -> exists c', counters w' !! k = Some c' /\ c <= c') ->
  nonces_ok w -> nonces_ok w'.
Proof.
  intros Hv Hv' Hrid Hn Hc [Hlt Hu].
  assert (forall id t', view w' !! id = Some t' -> is_Some (tx_nonce t') ->
    exists t'', view w !! id = Some t'' /\ tx_relayer_id t'' = tx_relayer_id t' /\
      tx_nonce t'' = tx_nonce t') as Hback.
  { intros id t' Ht' [n Hn']. rewrite Hv' in Ht'.
    destruct (decide (id = tx_id tx)) as [->|Hne]; [|rewrite lookup_insert_ne in Ht' by done; eauto].
    rewrite lookup_insert_eq in Ht'. injection Ht' as <-. exists tx. split_and!; [done..|].
    destruct Hn; congruence. }
  split.
  - intros id t' r n Ht' Hr Hn'. destruct (Hback _ _ Ht') as (t'' & Ht'' & Hr' & Hn''); [eauto|].
    destruct (Hlt id t'' r n) as (c & Hcc & ?); [done|congruence..|].
    destruct (Hc _ _ Hcc) as (c' & ? & ?). exists c'. split; [done|lia].
  - intros id1 id2 t1 t2 r n Hv1 Hv2 Heq Hr Hn1 Hn2.
    destruct (Hback _ _ Hv1) as (s1 & ? & ? & ?); [eauto|].
    destruct (Hback _ _ Hv2) as (s2 & ? & ? & ?); [eauto|].
    eapply (Hu id1 id2 s1 s2 r n); congruence.
Qed.

(** A step that assigns the counter's value. *)
Lemma nonces_ok_assign (w w' : W S C) tx t r n :
  view w !! tx_id tx = Some tx -> view w' = <[tx_id tx := t]> (view w) ->
  tx_relayer_id t = tx_relayer_id tx -> relayers (tx_relayer_id tx) = Some r ->
  n = default 0 (counters w !! key_of r) -> tx_nonce t = Some n ->
  counters w' = <[key_of r := n + 1]> (counters w) ->
  nonces_ok w -> nonces_ok w'.
Proof.
  intros Hv Hv' Hrid Hr Hn Hnt Hc [Hlt Hu]. subst n.
  set (n := default 0 (counters w !! key_of r)) in *.
  assert (forall id t' r' n', id <> tx_id tx -> view w' !! id = Some t' ->
    relayers (tx_relayer_id t') = Some r' -> tx_nonce t' = Some n' ->
    exists c, counters w !! key_of r' = Some c /\ n' < c) as Hold.
  { intros id t' r' n' Hne Ht'. rewrite Hv', lookup_insert_ne in Ht' by done. by apply (Hlt id). }
  assert (forall id t', id <> tx_id tx -> view w' !! id = Some t' ->
    tx_relayer_id t' = tx_relayer_id tx -> tx_nonce t' <> Some n) as Hfresh.
  { intros id t' Hne Ht' Heq Hn'. destruct (Hold id t' r n Hne Ht') as (c & Hcc & ?);
      [congruence|done|]. subst n. rewrite Hcc in *. simpl in *. lia. }
  split.
  - intros id t' r' n' Ht' Hr' Hn'. rewrite Hc.
    destruct (decide (id = tx_id tx)) as [->|Hne].
    + rewrite Hv', lookup_insert_eq in Ht'. injection Ht' as <-.
      assert (r' = r) as -> by congruence. rewrite lookup_insert_eq. exists (n + 1).
      split; [done|]. assert (n' = n) by congruence. lia.
    + destruct (Hold id t' r' n') as (c & Hcc & ?); [done..|].
      destruct (decide (key_of r' = key_of r)) as [Hk|Hk].
      * rewrite Hk in *. rewrite lookup_insert_eq. exists (n + 1). split; [done|].
        subst n. rewrite Hcc. simpl. lia.
      * rewrite lookup_insert_ne by done. eauto.
  - intros id1 id2 t1 t2 r' n' Hv1 Hv2 Heq Hr' Hn1 Hn2.
    destruct (decide (id1 = tx_id tx)) as [->|], (decide (id2 = tx_id tx)) as [->|]; try done.
    + rewrite Hv', lookup_insert_eq in Hv1. injection Hv1 as <-. exfalso.
      apply (Hfresh id2 t2); congruence.
    + rewrite Hv', lookup_insert_eq in Hv2. injection Hv2 as <-. exfalso.
      apply (Hfresh id1 t1); congruence.
    + rewrite Hv', !lookup_insert_ne in * by done. eapply (Hu id1 id2); eauto.
Qed.

Lemma same_slot_false_nonce t0 t :
  same_slot_data false (tx_network_data t0) (tx_network_data t) -> tx_nonce t = tx_nonce t0.
Proof.
  unfold tx_nonce. destruct (tx_network_data t0), (tx_network_data t); simpl; try done.
  by intros (_&_&[?|[? _]]).
Qed.

Lemma step_nonces_ok (w w' : W S C) :
  step relayers w w' -> store_ok w -> counters_room w -> nonces_ok w -> nonces_ok w'.
Proof.
  intros [tx relayer h Hv Hr] Hok Hroom HN. destruct (Hok _ _ Hv) as [_ Htx].
  destruct (run_handler_owned relayer h tx w Hv Htx) as [(t & Hv' & HE) _].
  pose proof (ev_relayer _ _ _ _ HE) as Hrid.
  destruct (assigns h) eqn:Ha.
  - destruct h; try done. simpl in *.
    destruct (prepare_prepared relayer (view w) tx (counters w) w) as [Hp|[Hnone Hp]].
    { split; [done|]. exists tx. split; [by rewrite insert_id | done]. }
    + destruct Hp as (Hc & t' & Hv'' & _ & Hn). rewrite Hv' in Hv''.
      apply (f_equal (lookup (tx_id tx))) in Hv''. rewrite !lookup_insert_eq in Hv''.
      injection Hv'' as <-. eapply nonces_ok_narrow; eauto; [by right|].
      rewrite Hc. eauto with lia.
    + destruct Hp as (Hc & t' & Hv'' & _ & Hn). rewrite Hv' in Hv''.
      apply (f_equal (lookup (tx_id tx))) in Hv''. rewrite !lookup_insert_eq in Hv''.
      injection Hv'' as <-.
      assert (0 <= counter_of relayer (counters w) < u64_max) as Hb.
      { unfold counter_of. destruct (counters w !! _) eqn:Hl; simpl; [by apply (Hroom _ _ Hl)|].
        unfold u64_max. lia. }
      rewrite wrapu_small in Hc by (unfold in_u, u64_max in *; lia).
      destruct Hn as [Hn|Hn]; [|by eapply nonces_ok_assign].
      eapply nonces_ok_narrow; eauto; [by left|]. intros k c Hk. rewrite Hc.
      destruct (decide (k = (rel_id relayer, rel_address relayer))) as [->|].
      * rewrite lookup_insert_eq. eexists. split; [done|]. unfold counter_of. rewrite Hk.
        simpl. lia.
      * rewrite lookup_insert_ne by done. eauto with lia.
  - eapply nonces_ok_narrow; eauto.
    + right. by apply same_slot_false_nonce, (ev_data _ _ _ _ HE).
    + pose proof (ctr_handler relayer h tx Ha w) as Hc. unfold same_ctr in Hc.
      unfold counters. rewrite Hc. eauto with lia.
Qed.

(** C2. No two transactions of a relayer ever get the same nonce: from a store in which every
    nonce in use lies below its relayer's counter and is used once, any sequence of handler
    runs, with any answers of the outside world (failed updates, failed signing, retried
    preparations included), leads to such a store again, as long as no counter has reached
    the end of the [u64] range. *)
Theorem nonces_stay_unique (w w' : W S C) :
  rtc (fun a b => step relayers a b /\ counters_room a) w w' ->
  store_ok w -> nonces_ok w -> nonces_ok w'.
Proof.
  intros Hr. induction Hr as [|w w1 w' [Hs Hroom] _ IH]; [done|]. intros Hok HN.
  apply IH; [by eapply step_store_ok | by eapply step_nonces_ok].
Qed.
End Unique.
End Nonces.

(** ** Instances *)

Section Witnesses.
#[local] Existing Instances sample_chrono sample_config sample_order sample_calculator demo_env.

Definition two_pending : TransactionRepoModel :=
  sample_tx "tx2" Pending [] (sample_data None None None).
Definition two_world : World InMemory.state (gmap CounterKey Z) :=
  sample_world [demo_pending; two_pending] {[("relayer", "0xa1")%string := 5]}.
Definition two_step1 : World InMemory.state (gmap CounterKey Z) :=
  snd (run_handler sample_relayer HPrepare demo_pending two_world).
Definition two_step2 : World InMemory.state (gmap CounterKey Z) :=
  snd (run_handler sample_relayer HPrepare two_pending two_step1).

Lemma two_room : counters_room two_step1.
Proof.
  unfold counters_room.
  change (counters two_step1) with ({[("relayer", "0xa1")%string := 6]} : gmap CounterKey Z).
  by apply map_Forall_singleton.
Qed.

Lemma nonces_stay_unique_witness :
  (tx_nonce <$> view two_step2 !! "tx1"%string) = Some (Some 5) /\
  (tx_nonce <$> view two_step2 !! "tx2"%string) = Some (Some 6) /\
  nonces_ok demo_relayers two_step2.
Proof.
  split_and!; [reflexivity..|]. apply (nonces_stay_unique demo_relayers two_world two_step2).
  - eapply rtc_l; [|eapply rtc_l; [|apply rtc_refl]].
    + split; [by apply (step_handler _ two_world demo_pending sample_relayer HPrepare)|].
      by apply map_Forall_singleton.
    + split; [by apply (step_handler _ two_step1 two_pending sample_relayer HPrepare)|].
      exact two_room.
  - unfold store_ok. change (view two_world) with
      ({["tx1"%string := demo_pending; "tx2"%string := two_pending]}
       : gmap string TransactionRepoModel).
    apply map_Forall_insert_2; [by repeat split|].
    apply map_Forall_insert_2; [by repeat split | apply map_Forall_empty].
  - assert (forall id t, view two_world !! id = Some t -> tx_nonce t = None) as Hn.
    { intros id t. change (view two_world) with
        ({["tx1"%string := demo_pending; "tx2"%string := two_pending]}
         : gmap string TransactionRepoModel).
      by intros [[<- <-]|[_ [<- <-]%lookup_singleton_Some]]%lookup_insert_Some. }
    split; [intros id t r n Hv _ Ht|intros id1 id2 t1 t2 r n Hv _ _ _ Ht _];
      by rewrite (Hn _ _ Hv) in Ht.
Defined.
End Witnesses.
