(* ===== verification/EvmProperties.v ===== *)
(** * What the EVM handlers do

    The effect of the individual handlers on a stored transaction, on the queues and on what
    is broadcast: cancellation, the circuit breaker, submission, resubmission, the reading of
    the chain, nonce reconciliation and gap detection. *)

From S2P Require Import Prelude Decimal Errors Model Config Repository Counter Jobs Effects.
From S2P Require Import Sample EvmUtils Price EvmTransaction EvmStatus Lifecycle.
Open Scope Z_scope.

Section Properties.
Context `{Chrono} `{ServerConfig} `{Env} `{PriceCalculator}.
Context {S C : Type} `{!TransactionRepository S} `{!TransactionCounter C}.

(** ** Tools *)

(** The stored transactions are [v], the broadcasts [sent], and the jobs [js] are queued. *)
Definition frame (v : gmap string TransactionRepoModel) (sent : list (list Byte.byte))
    (js : list QueuedJob) (w : W S C) : Prop :=
  view w = v /\ w_sent w = sent /\ js `prefix_of` w_jobs w.

(** Programs that read and queue jobs. *)
Definition quiet (w w' : W S C) : Prop :=
  view w' = view w /\ w_sent w' = w_sent w /\ w_jobs w `prefix_of` w_jobs w'.

#[global] Instance quiet_inert : Inert quiet.
Proof.
  constructor; intros.
  - split; [by intros w|]. intros w1 w2 w3 (?&?&?) (?&?&?).
    split_and!; [congruence..|]. by etransitivity.
  - by intros [].
  - by intros [].
  - intros w. unfold produce. destruct (queue_fault _), w; split_and!; try done.
    by apply prefix_app_r.
  - by intros [].
  - intros w. split; [apply (inert_get_by_id (R := same_view))|].
    unfold repo_call. by destruct (repo_get_by_id _ _), w.
  - intros w. split; [apply (inert_occupancy (R := same_view))|].
    unfold repo_call. by destruct (repo_get_nonce_occupancy _ _ _ _), w.
Qed.

Lemma frame_quiet {E A} v sent js (c : M (W S C) E A) :
  preserves quiet c -> keeps (frame v sent js) c (fun _ => True).
Proof.
  intros Hc. eapply keeps_of_preserves; [|exact Hc]. unfold frame.
  intros w w' (->&->&?) (?&?&?). split_and!; [done..|]. by etransitivity.
Qed.

(** An update of a stored transaction that is not final. *)
Lemma partial_update_stored id u t v sent js (w : W S C)
    (Q : result RepositoryError.t TransactionRepoModel -> W S C -> Prop) :
  frame v sent js w -> v !! id = Some t ->
  is_final_state (tx_status t) = false \/ upd_status u = None ->
  (forall e w', frame v sent js w' -> Q (Err e) w') ->
  (forall n e w', frame (<[id := apply_partial_update n u t]> v) sent js w' -> Q (Err e) w') ->
  (forall n w', frame (<[id := apply_partial_update n u t]> v) sent js w' ->
     Q (Ok (apply_partial_update n u t)) w') ->
  wp (partial_update_r id u) Q w.
Proof.
  intros Hf Hv Hg He1 He2 Hok. unfold partial_update_r.
  eapply (wp_bind_keeps (frame v sent js)); [apply frame_quiet; preserve|done|done|].
  intros n w1 _ (Hv1 & Hs1 & Hj1). unfold wp, repo_call.
  pose proof (repo_partial_update_spec n id u (w_repo w1)) as Hspec. unfold wp in Hspec.
  destruct (repo_partial_update n id u (w_repo w1)) as [r s']. simpl in *.
  fold (view w1) in Hspec. rewrite Hv1 in Hspec.
  assert (forall v', repo_view s' = v' -> frame v' sent js (set_repo s' w1)) as Hframe.
  { intros v' <-. unfold frame. rewrite view_set_repo. by destruct w1. }
  destruct Hspec as [(t1 & t2 & Hl & Hr & Hs & Ho)|(Hs & e & ->)]; [|by apply He1, Hframe].
  assert (t1 = t) as -> by congruence.
  assert (t2 = apply_partial_update n u t) as ->.
  { destruct Hr as [->|(Hfin & [s Hst] & ->)]; [done|]. destruct Hg; congruence. }
  destruct r as [t2|e]; [rewrite (Ho _ eq_refl); by apply Hok, Hframe|].
  by eapply He2, Hframe.
Qed.

Lemma frame_here (w : W S C) : frame (view w) (w_sent w) (w_jobs w) w.
Proof. by split_and!. Qed.

Lemma frame_jobs v sent js (w : W S C) j :
  frame v sent js w -> j ∈ js -> j ∈ w_jobs w.
Proof. intros (_ & _ & l & ->) Hj. apply elem_of_app. by left. Qed.

(** The job was put on the queue after the jobs [js]. *)
Definition queued (js : list QueuedJob) (job : QueuedJob) (w : W S C) : Prop :=
  exists l, w_jobs w = js ++ l /\ job ∈ l.

Lemma queued_in js job (w : W S C) : queued js job w -> job ∈ w_jobs w.
Proof. intros (l & -> & Hj). apply elem_of_app. by right. Qed.

(** Queue a job and go on. *)
Lemma produce_or_then {A} what job (k : T S C A) v sent js (w : W S C)
    (Q : result TransactionError.t A -> W S C -> Prop) :
  frame v sent js w -> (forall e w', frame v sent js w' -> Q (Err e) w') ->
  (forall w', frame v sent js w' -> frame v sent [] w' -> queued js job w' ->
     wp k Q w') ->
  wp (do* produce_or what job in k) Q w.
Proof.
  intros (Hv & Hs & Hj) He Hk. apply wp_bind, wp_map_err. unfold wp at 1, produce.
  destruct (queue_fault (w_tick w)); simpl; destruct w; simpl in *.
  - apply He. by split_and!.
  - apply Hk; try (split_and!; [done..|]).
    + by apply prefix_app_r.
    + apply prefix_nil.
    + destruct Hj as [l ->]. exists (l ++ [job]). split; [by rewrite app_assoc|].
      apply elem_of_app. right. by apply list_elem_of_singleton.
Qed.

(** The NOOP that replaces a transaction: nothing is stored, and the update rewrites the data
    to a self-transfer of nothing under the same nonce. *)
Lemma noop_request_spec tx c r v sent js :
  keeps (frame v sent js) (prepare_noop_update_request tx c r) (fun u => exists d g n,
    tx_network_data tx = EvmData d /\
    u = upd_with_noop n (if c then Some true else tx_is_canceled tx)
          (upd_with_reason r (upd_with_network_data (noop_data d (Some g)) upd_default))).
Proof.
  unfold prepare_noop_update_request.
  apply (keeps_bind _ _ _ (fun d => tx_network_data tx = EvmData d)).
  { apply keeps_lift. intros d. by destruct (tx_network_data tx); intros [= ->]. }
  intros d Hd. eapply keeps_bind; [apply frame_quiet; preserve | intros network _].
  apply (keeps_bind _ _ _ (fun d' => exists g, d' = noop_data d (Some g))).
  { unfold make_noop. destruct (is_arbitrum network); [|apply keeps_ret; eauto].
    eapply keeps_bind; [apply frame_quiet; preserve | intros res _].
    destruct res; apply keeps_ret; eauto. }
  intros d' [g ->]. apply keeps_ret. eauto 10.
Qed.

Lemma is_noop_noop_data d g : is_noop (noop_data d g) = true.
Proof.
  destruct d. unfold is_noop. simpl. by rewrite bool_decide_eq_true_2 by done.
Qed.

(** [t] is [tx] turned into a NOOP on the same nonce. *)
Definition noop_of (tx t : TransactionRepoModel) : Prop :=
  exists d d', tx_network_data tx = EvmData d /\ tx_network_data t = EvmData d' /\
    is_noop d' = true /\ evm_nonce d' = evm_nonce d /\ evm_from d' = evm_from d /\
    evm_chain_id d' = evm_chain_id d /\ evm_raw d' = evm_raw d /\ evm_hash d' = evm_hash d.

Lemma noop_update_spec tx d g n c r now :
  tx_network_data tx = EvmData d ->
  let t := apply_partial_update now (upd_with_noop n c
             (upd_with_reason r (upd_with_network_data (noop_data d (Some g)) upd_default))) tx in
  noop_of tx t /\ tx_status t = tx_status tx /\ tx_id t = tx_id tx /\
  tx_relayer_id t = tx_relayer_id tx /\ tx_is_canceled t = opt_or c (tx_is_canceled tx).
Proof.
  intros Hd. simpl. split_and!; try done. exists d, (noop_data d (Some g)).
  split_and!; try done; [apply is_noop_noop_data|..]; by destruct d.
Qed.

Lemma notify_then {A} relayer t (k : T S C A) v sent js (w : W S C)
    (Q : result TransactionError.t A -> W S C -> Prop) :
  frame v sent js w -> (forall w', frame v sent js w' -> wp k Q w') ->
  wp (do* notify relayer t in k) Q w.
Proof.
  intros Hf Hk. apply wp_bind. unfold notify. apply wp_bind, wp_try.
  assert (preserves quiet (send_transaction_update_notification relayer t)) as Hq.
  { unfold send_transaction_update_notification. preserve. }
  eapply wp_mono; [|apply (wp_preserves quiet _ _ Hq)].
  intros r w' (Hv & Hs & Hj). apply wp_ret, Hk. destruct Hf as (?&?&?).
  split_and!; [congruence..|]. by etransitivity.
Qed.

(** ** Cancellation *)

(** C12. Cancellation of a stored transaction.  A Pending one becomes Canceled at once.  A Sent
    or Submitted one keeps its status and is marked canceled, and is rewritten to a NOOP, a
    zero-value transfer to itself on the same nonce, chain and sender, with a resubmit job
    queued.  In any other status the call fails and nothing at all happens. *)
Theorem cancel_effect relayer tx (w : W S C) :
  view w !! tx_id tx = Some tx ->
  wp (cancel_transaction relayer tx) (fun r w' =>
    match tx_status tx with
    | Pending => forall t, r = Ok t -> tx_status t = Canceled /\
        tx_network_data t = tx_network_data tx /\ view w' = <[tx_id tx := t]> (view w)
    | Sent | Submitted => forall t, r = Ok t ->
        view w' = <[tx_id tx := t]> (view w) /\ tx_status t = tx_status tx /\
        tx_is_canceled t = Some true /\ noop_of tx t /\
        JSend (send_resubmit (tx_id tx) (tx_relayer_id tx)) None ∈ w_jobs w'
    | _ => (exists e, r = Err e) /\ w' = w
    end) w.
Proof.
  intros Hv. pose proof (frame_here w) as Hf. unfold cancel_transaction, ensure_status_one_of.
  apply wp_bind, wp_lift.
  destruct (tx_status tx) eqn:Hs; simpl; rewrite ?Hs; simpl; try by eauto.
  { unfold update_transaction_status. simpl.
    apply wp_bind, wp_ret, wp_bind, wp_map_err.
    eapply partial_update_stored; [done..|rewrite Hs; by left|done|done|].
    intros n w1 (Hv1 & Hs1 & Hj1). simpl.
    eapply notify_then; [by split_and!|]. intros w2 (Hv2 & _). apply wp_ret.
    by intros t [= <-]. }
  all: eapply wp_bind_keeps; [apply noop_request_spec|done|done|];
    intros u w1 (d & g & n & Hd & ->) Hf1.
  all: apply wp_bind, wp_map_err; eapply partial_update_stored;
    [done..|rewrite Hs; by left|done|done|]; intros now w2 Hf2.
  all: destruct (noop_update_spec tx d g n (Some true)
         (Some "Transaction canceled by user, replacing with NOOP"%string) now Hd)
         as (Hn & Hst & Hid & Hrid & Hcan).
  all: cbn [result_map_err]; eapply produce_or_then; [done|done|]; intros w3 _ Hf3 Hj3%queued_in.
  all: rewrite Hid, Hrid in Hj3; eapply (notify_then _ _ _ _ _ (w_jobs w3));
    [destruct Hf3 as (?&?&_); by split_and!|]; intros w4 Hf4.
  all: apply wp_ret; intros t [= <-]; split_and!; [apply Hf4|rewrite <- Hs; exact Hst|done..|].
  all: by eapply frame_jobs.
Qed.

(** ** The circuit breaker *)

(** The stored version of [tx] is now [t], which has the same status and is [tx] itself or a
    NOOP in its place. *)
Definition replaced_in_place (tx t : TransactionRepoModel) (v : gmap string TransactionRepoModel)
    (w : W S C) : Prop :=
  view w = <[tx_id tx := t]> v /\ tx_status t = tx_status tx /\ (t = tx \/ noop_of tx t).

Lemma process_noop_spec relayer tx r v sent js (w : W S C) :
  frame v sent js w -> v !! tx_id tx = Some tx ->
  wp (process_noop_transaction relayer tx r) (fun res w' => exists t,
    frame (<[tx_id tx := t]> v) sent js w' /\ replaced_in_place tx t v w' /\
    forall t', res = Ok t' -> t' = t /\ noop_of tx t /\
      tx_id t = tx_id tx /\ tx_relayer_id t = tx_relayer_id tx) w.
Proof.
  intros Hf Hv. unfold process_noop_transaction.
  assert (Hsame : forall e (w' : W S C), frame v sent js w' -> exists t,
    frame (<[tx_id tx := t]> v) sent js w' /\ replaced_in_place tx t v w' /\
    forall t', (Err e : result TransactionError.t TransactionRepoModel) = Ok t' -> t' = t /\ noop_of tx t /\
      tx_id t = tx_id tx /\ tx_relayer_id t = tx_relayer_id tx).
  { intros e w' Hf'. exists tx. rewrite insert_id by done. split; [done|]. split; [|done].
    split_and!; [|done|by left]. rewrite insert_id by done. apply Hf'. }
  eapply wp_bind_keeps; [apply noop_request_spec|done|exact Hsame|].
  intros u w1 (d & g & n & Hd & ->) Hf1. apply wp_bind, wp_map_err.
  eapply partial_update_stored; [done|done|by right| | |].
  { intros e w2 Hf2. by apply Hsame. }
  - intros now e w2 Hf2.
    destruct (noop_update_spec tx d g n (tx_is_canceled tx) r now Hd) as (Hn & Hst & _).
    eexists. split; [exact Hf2|]. split; [|done]. split_and!; [apply Hf2|done|by right].
  - intros now w2 Hf2.
    destruct (noop_update_spec tx d g n (tx_is_canceled tx) r now Hd) as (Hn & Hst & Hid & Hrid & _).
    cbn [result_map_err]. eapply notify_then; [done|]. intros w3 Hf3. apply wp_ret.
    eexists. split; [exact Hf3|]. split; [split_and!; [apply Hf3|done|by right]|].
    intros t [= <-]. by split_and!.
Qed.

Lemma noop_and_resubmit relayer tx r (w : W S C) :
  view w !! tx_id tx = Some tx ->
  wp (let* updated_tx := process_noop_transaction relayer tx r in
      do* send_transaction_resubmit_job updated_tx in retM updated_tx) (fun res w' =>
    w_sent w' = w_sent w /\ exists t, replaced_in_place tx t (view w) w' /\
      forall t', res = Ok t' -> t' = t /\ noop_of tx t /\
        queued (w_jobs w) (JSend (send_resubmit (tx_id tx) (tx_relayer_id tx)) None) w') w.
Proof.
  intros Hv. apply wp_bind.
  eapply wp_mono; [|eapply process_noop_spec; [apply frame_here|done]].
  intros r1 w1 (t & Hf1 & Hp & Ht). destruct r1 as [t1|e]; [|split; [apply Hf1|]; by exists t].
  destruct (Ht t1 eq_refl) as (-> & Hn & Hid & Hrid).
  assert (Hin : forall w', frame (<[tx_id tx := t]> (view w)) (w_sent w) (w_jobs w) w' ->
    w_sent w' = w_sent w /\ replaced_in_place tx t (view w) w').
  { intros w' (Hv' & Hs' & _). split; [done|]. destruct Hp as (_ & ? & ?). by split_and!. }
  eapply produce_or_then; [exact Hf1| |].
  - intros e w' Hf'. destruct (Hin w' Hf'). split; [done|]. by exists t.
  - intros w2 Hf2 _ Hj2. apply wp_ret. destruct (Hin w2 Hf2). split; [done|]. exists t.
    split; [done|]. rewrite Hid, Hrid in Hj2. intros ? [= <-]. by split_and!.
Qed.

Lemma mark_as_failed_spec relayer tx reason (w : W S C) :
  view w !! tx_id tx = Some tx -> is_final_state (tx_status tx) = false ->
  wp (mark_as_failed relayer tx reason) (fun r w' => exists t,
    view w' = <[tx_id tx := t]> (view w) /\ (t = tx \/ tx_status t = Failed) /\
    forall t', r = Ok t' -> t' = t /\ tx_status t = Failed) w.
Proof.
  intros Hv Hfin. unfold mark_as_failed. apply wp_bind, wp_map_err.
  eapply partial_update_stored; [apply frame_here|done|by left|..].
  - intros e w1 (Hv1 & _). exists tx. rewrite insert_id by done. split_and!; [done|by left|done].
  - intros n e w1 (Hv1 & _). eexists. split; [exact Hv1|]. split; [by right|done].
  - intros n w1 Hf1. cbn [result_map_err]. eapply notify_then; [done|].
    intros w2 (Hv2 & _). apply wp_ret. eexists. split; [exact Hv2|]. split; [by right|].
    by intros t [= <-].
Qed.

(** C11. When the status checks of a stored transaction have failed too often, it is dealt with by
    its status, provided it is not a NOOP already.  A Submitted transaction, and a Sent one that
    has a nonce, may still execute: whether the call succeeds or not, nothing is broadcast, no
    other transaction changes, and it keeps its status (so it is not marked Failed) and is at
    most turned into a NOOP on the same nonce; if the call succeeds, it is that NOOP, and the
    call queued the job that resubmits it.  A Pending transaction, and a Sent one without a
    nonce, is marked Failed, or left as it is if the call fails.  In any other status nothing
    happens at all.  (The comment on the function has every Sent transaction marked Failed; the
    code does so only without a nonce.) *)
Theorem circuit_breaker_effect relayer tx ctx d (w : W S C) :
  view w !! tx_id tx = Some tx -> tx_network_data tx = EvmData d ->
  should_force_finalize ctx = true -> is_noop d = false ->
  wp (handle_status_impl relayer tx (Some ctx)) (fun r w' =>
    (tx_status tx = Submitted \/ (tx_status tx = Sent /\ is_Some (evm_nonce d)) ->
       w_sent w' = w_sent w /\ exists t, replaced_in_place tx t (view w) w' /\
         forall t', r = Ok t' -> t' = t /\ noop_of tx t /\
           queued (w_jobs w) (JSend (send_resubmit (tx_id tx) (tx_relayer_id tx)) None) w') /\
    (tx_status tx = Pending \/ (tx_status tx = Sent /\ evm_nonce d = None) ->
       exists t, view w' = <[tx_id tx := t]> (view w) /\ (t = tx \/ tx_status t = Failed) /\
         forall t', r = Ok t' -> t' = t /\ tx_status t = Failed) /\
    (status_in (tx_status tx) [Pending; Sent; Submitted] = false -> r = Ok tx /\ w' = w)) w.
Proof.
  intros Hv Hd Hff Hnoop. unfold handle_status_impl. rewrite Hd. simpl. rewrite Hff, Hnoop. simpl.
  destruct (is_final_state (tx_status tx)) eqn:Hfin.
  { unfold wp. destruct (tx_status tx); split_and!; try done; by intros [|[]]. }
  unfold handle_circuit_breaker_safely. destruct (tx_status tx) eqn:Hs; try done.
  - eapply wp_mono; [|apply mark_as_failed_spec; [done|by rewrite Hs]].
    intros r w' Hr. split_and!; [by intros [|[]]|done|done].
  - rewrite Hd. simpl. case_bool_decide as Hn.
    + eapply wp_mono; [|by apply noop_and_resubmit]. intros r w' Hr.
      split_and!; [done| |done]. intros [|[_ Hnone]]; [done|]. by rewrite Hnone in Hn; destruct Hn.
    + eapply wp_mono; [|apply mark_as_failed_spec; [done|by rewrite Hs]]. intros r w' Hr.
      split_and!; [|done|done]. by intros [|[_ ?]].
  - eapply wp_mono; [|by apply noop_and_resubmit]. intros r w' Hr.
    split_and!; [done| |done]. by intros [|[]].
  - unfold wp. split_and!; try done; by intros [|[]].
Qed.

(** ** What is broadcast *)

Definition same_sent (w w' : W S C) : Prop := w_sent w' = w_sent w.

#[global] Instance same_sent_inert : Inert same_sent.
Proof.
  constructor; intros.
  - split; [done|]. intros ???. unfold same_sent. congruence.
  - by intros [].
  - by intros [].
  - intros w. unfold produce. by destruct (queue_fault _), w.
  - by intros [].
  - intros w. unfold repo_call. by destruct (repo_get_by_id _ _), w.
  - intros w. unfold repo_call. by destruct (repo_get_nonce_occupancy _ _ _ _), w.
Qed.

Lemma sent_repo_call {A} (c : M S RepositoryError.t A) :
  preserves same_sent (repo_call (C := C) c).
Proof. intros w. unfold repo_call. by destruct (c _), w. Qed.
#[local] Hint Resolve sent_repo_call : preserves_db.

Lemma sent_partial_update_r id u : preserves same_sent (partial_update_r (S := S) (C := C) id u).
Proof. unfold partial_update_r. preserve. Qed.
#[local] Hint Resolve sent_partial_update_r : preserves_db.

Lemma sent_nonce_too_high tx : preserves same_sent (handle_nonce_too_high (S := S) (C := C) tx).
Proof. unfold handle_nonce_too_high. preserve. Qed.
#[local] Hint Resolve sent_nonce_too_high : preserves_db.

(** A broadcast followed by code that broadcasts nothing. *)
Lemma broadcast_then {A} raw (k : result ProviderError.t string -> T S C A) (w : W S C) :
  (forall r, preserves same_sent (k r)) ->
  w_sent (snd ((let* r := try_ (broadcast raw) in k r) w)) = w_sent w ++ [raw].
Proof.
  intros Hk. unfold bindM, try_, broadcast. simpl. rewrite Hk. by destruct w.
Qed.

Lemma sent_bind {E A B} (c : M (W S C) E A) (k : A -> M (W S C) E B) (w : W S C) sent :
  w_sent (snd (c w)) = sent -> (forall a, preserves same_sent (k a)) ->
  w_sent (snd (bindM c k w)) = sent.
Proof.
  intros Hc Hk. unfold bindM. destruct (c w) as [[a|e] w']; simpl in *; [|done].
  by rewrite Hk.
Qed.

Lemma submit_sent relayer tx d raw (w : W S C) :
  status_in (tx_status tx) submit_allowed = true -> tx_network_data tx = EvmData d ->
  evm_raw d = Some raw -> w_sent (snd (submit_transaction relayer tx w)) = w_sent w ++ [raw].
Proof.
  intros Hs Hd Hr. unfold submit_transaction, ensure_status_one_of. rewrite Hs, Hd. simpl.
  unfold bindM at 1, liftM at 1. unfold bindM at 1, liftM at 1. rewrite Hr. simpl.
  apply sent_bind.
  - unfold submit_broadcast. apply broadcast_then. intros r. preserve.
  - intros b. unfold submit_record. preserve.
Qed.

(** C38. When a Sent transaction that is not a NOOP is replaced by one (it expired, or its gas
    limit exceeds the block's), the stored NOOP still carries the signed bytes of the original
    transaction and the job queued is a submission, not a resubmission: submitting what was
    stored broadcasts the original transaction. *)
Theorem sent_noop_submits_original relayer tx d raw (w : W S C) :
  view w !! tx_id tx = Some tx -> tx_status tx = Sent -> tx_network_data tx = EvmData d ->
  is_noop d = false -> evm_raw d = Some raw ->
  wp (handle_sent_state relayer tx) (fun r w' => forall t d', r = Ok t ->
    tx_network_data t = EvmData d' -> is_noop d' = true ->
    JSend (send_submit (tx_id tx) (tx_relayer_id tx)) None ∈ w_jobs w' /\
    w_sent (snd (submit_transaction relayer t w')) = w_sent w' ++ [raw]) w.
Proof.
  intros Hv Hs Hd Hnoop Hraw. unfold handle_sent_state.
  assert (forall w' : W S C, wp (update_transaction_status_if_needed relayer tx Sent None)
    (fun r _ => r = Ok tx) w') as Hstay.
  { intros w'. unfold update_transaction_status_if_needed. by rewrite Hs. }
  assert (forall (r : result TransactionError.t TransactionRepoModel) (w' : W S C), r = Ok tx ->
    forall t d', r = Ok t -> tx_network_data t = EvmData d' -> is_noop d' = true ->
    JSend (send_submit (tx_id tx) (tx_relayer_id tx)) None ∈ w_jobs w' /\
    w_sent (snd (submit_transaction relayer t w')) = w_sent w' ++ [raw]) as Hidle.
  { intros r w' -> t d' [= <-] Ht. congruence. }
  eapply wp_bind_keeps; [apply frame_quiet; preserve|apply frame_here|done|].
  intros [b reason] w1 _ Hf1. destruct b.
  - eapply wp_bind_keeps; [apply noop_request_spec|done|done|].
    intros u w2 (d0 & g & n & Hd0 & ->) Hf2. assert (d0 = d) as -> by congruence.
    apply wp_bind, wp_map_err.
    eapply partial_update_stored; [done..|by right|done|done|]. intros now w3 Hf3.
    destruct (noop_update_spec tx d g n (tx_is_canceled tx) reason now Hd)
      as (Hn & Hst & Hid & Hrid & _). cbn [result_map_err].
    eapply produce_or_then; [done|done|]. intros w4 _ Hf4 Hj4%queued_in. rewrite Hid, Hrid in Hj4.
    eapply (notify_then _ _ _ _ _ (w_jobs w4)); [destruct Hf4 as (?&?&_); by split_and!|].
    intros w5 Hf5. apply wp_ret. intros t d' [= <-] Hd' Hn'. split; [by eapply frame_jobs|].
    eapply submit_sent; [simpl; by rewrite Hs|done|].
    destruct Hn as (e & e' & He & He' & _ & _ & _ & _ & Hr & _). simpl in He', Hd'; congruence.
  - eapply wp_bind_keeps; [apply frame_quiet; preserve|done|done|]. intros age w2 _ Hf2.
    destruct (_ <? age); [|by eapply wp_mono; [|apply Hstay]; eauto].
    eapply wp_bind_keeps; [apply frame_quiet; preserve|done|done|]. intros gap w3 _ Hf3.
    destruct gap as [[]|]; [by eapply wp_mono; [|apply Hstay]; eauto|..].
    all: eapply wp_bind_keeps; [apply frame_quiet; preserve|done|done|]; intros _ w4 _ _.
    all: by eapply wp_mono; [|apply Hstay]; eauto.
Qed.

(** ** Submission and resubmission *)

(** How submission reads the answer to a broadcast: submitted, held back by a nonce error, or
    failed. *)
Definition verdict (answer : result ProviderError.t string) : result ProviderError.t bool :=
  match answer with
  | Ok _ => Ok true
  | Err e => match classify_submission_error (provider_error_display e) with
             | SubmissionErrorKind.AlreadyKnown
             | SubmissionErrorKind.ReplacementUnderpriced => Ok true
             | SubmissionErrorKind.NonceTooLow | SubmissionErrorKind.NonceTooHigh => Ok false
             | SubmissionErrorKind.Other _ => Err e
             end
  end.

Lemma wp_ok {A} (c : T S C A) (a : A) (Q : result TransactionError.t A -> W S C -> Prop) w :
  (forall w, fst (c w) = Ok a) -> (forall w', Q (Ok a) w') -> wp c Q w.
Proof. intros Hc HQ. unfold wp. by rewrite Hc. Qed.

Lemma nonce_too_high_ok tx (w : W S C) : fst (handle_nonce_too_high tx w) = Ok tt.
Proof.
  unfold handle_nonce_too_high, bindM at 1, try_ at 1.
  destruct (partial_update_r _ _ w) as [r w']. case_match; [|done].
  unfold bindM, try_. by destruct (schedule_relayer_nonce_health_job tx w').
Qed.

Lemma submit_broadcast_spec relayer tx raw (w : W S C) :
  let answer := rpc_send_raw_transaction (w_tick w) raw in
  wp (submit_broadcast relayer tx raw) (fun r w' =>
    r = result_map_err TransactionError.UnderlyingProvider (verdict answer) /\
    (verdict answer <> Ok false -> view w' = view w)) w.
Proof.
  unfold submit_broadcast. apply wp_bind, wp_try. unfold wp at 1, broadcast. simpl.
  assert (view (push_sent raw (tick w)) = view w) as Hv by by destruct w.
  destruct (rpc_send_raw_transaction (w_tick w) raw) as [h|e]; simpl; [by split|].
  destruct (classify_submission_error (provider_error_display e)); simpl; try by split.
  - do 2 (apply wp_bind, wp_try; unfold wp at 1). by split.
  - apply wp_bind. eapply wp_ok; [apply nonce_too_high_ok|]. by split.
Qed.

(** The update that records a submission. *)
Definition submitted_update (tx : TransactionRepoModel) (sent_at : Z) : TransactionUpdateRequest :=
  upd_with_metadata (metadata_reset tx)
    (upd_with_sent_at (Some (to_rfc3339 sent_at)) (upd_with_status Submitted)).

(** [r] answers a submission that the network took: the store was asked to record it, and [r] is
    the recorded transaction, or [tx] as it was if the store refused. *)
Definition recorded (tx : TransactionRepoModel) (v : gmap string TransactionRepoModel)
    (r : result TransactionError.t TransactionRepoModel) (w' : W S C) : Prop :=
  exists sent_at n s, repo_view s = v /\
    view w' = repo_view (snd (repo_partial_update n (tx_id tx) (submitted_update tx sent_at) s)) /\
    match fst (repo_partial_update n (tx_id tx) (submitted_update tx sent_at) s) with
    | Ok _ => let t := apply_partial_update n (submitted_update tx sent_at) tx in
        r = Ok t /\ tx_status t = Submitted /\ view w' = <[tx_id tx := t]> v
    | Err _ => r = Ok tx
    end.

Lemma partial_update_exact id u t (w : W S C)
    (Q : result RepositoryError.t TransactionRepoModel -> W S C -> Prop) :
  view w !! id = Some t -> is_final_state (tx_status t) = false ->
  (forall n s, repo_view s = view w ->
     (forall t', fst (repo_partial_update n id u s) = Ok t' -> t' = apply_partial_update n u t /\
        repo_view (snd (repo_partial_update n id u s)) = <[id := t']> (view w)) ->
     forall w', view w' = repo_view (snd (repo_partial_update n id u s)) ->
       Q (fst (repo_partial_update n id u s)) w') ->
  wp (partial_update_r id u) Q w.
Proof.
  intros Hv Hfin HQ. unfold partial_update_r. apply wp_bind. unfold wp at 1, now, ask. simpl.
  unfold wp, repo_call. assert (w_repo (tick w) = w_repo w) as -> by by destruct w.
  pose proof (repo_partial_update_spec (env_now (w_tick w)) id u (w_repo w)) as Hspec. unfold wp in Hspec.
  specialize (HQ (env_now (w_tick w)) (w_repo w) eq_refl).
  destruct (repo_partial_update (env_now (w_tick w)) id u (w_repo w)) as [r s']. simpl in *.
  apply HQ; [|by rewrite view_set_repo]. intros t' ->.
  destruct Hspec as [(t1 & t2 & Hl & Hr & Hs & Ho)|(_ & e & [=])].
  specialize (Ho _ eq_refl). subst t2. split; [|done].
  assert (t1 = t) as -> by (unfold view in Hv; congruence).
  destruct Hr as [->|(Hfin' & _ & _)]; [done|congruence].
Qed.

Lemma submit_record_spec relayer tx (w : W S C) :
  view w !! tx_id tx = Some tx -> is_final_state (tx_status tx) = false ->
  wp (submit_record relayer tx) (recorded tx (view w)) w.
Proof.
  intros Hv Hfin. unfold submit_record.
  apply wp_bind. unfold wp at 1, now, ask. simpl. apply wp_bind, wp_try.
  assert (view (tick w) = view w) as Ht by by destruct w.
  eapply partial_update_exact; [by rewrite Ht|done|]. rewrite Ht.
  intros n s Hs Hok w2 Hw2. eapply notify_then; [apply frame_here|].
  intros w3 (Hv3 & _). apply wp_ret. exists (env_now (w_tick w)), n, s.
  fold (submitted_update tx (env_now (w_tick w))) in *.
  destruct (repo_partial_update n (tx_id tx) _ s) as [[t|e] s']; simpl in *.
  - destruct (Hok t eq_refl) as [-> Hs']. split_and!; [done|congruence|done|done|]. by rewrite Hv3, Hw2, Hs'.
  - split_and!; [done|congruence|done].
Qed.


(** Resubmission broadcasts at most one transaction, and only one signed over the stored
    data with a price that the calculator reports as a sufficient bump (for a NOOP, a forced
    one) and that the relayer's balance covers. *)
Theorem resubmit_broadcasts_bumped relayer tx (w : W S C) :
  let w' := snd (resubmit_transaction relayer tx w) in
  w_sent w' = w_sent w \/
  exists d p sig k1 k2 k3, tx_network_data tx = EvmData d /\
    calculate_bumped_gas_price k1 d relayer (is_noop d) = Ok p /\
    pp_is_min_bumped p = Some true /\
    (exists b, rpc_get_balance k2 (rel_address relayer) = Ok b /\ pp_total_cost p <= b) /\
    signer_sign k3 (EvmData (with_price_params d p)) = Ok sig /\
    w_sent w' = w_sent w ++ [sr_raw sig].
Proof.
  intros w'. change (wp (resubmit_transaction relayer tx) (fun _ w' =>
    w_sent w' = w_sent w \/ exists d p sig k1 k2 k3, tx_network_data tx = EvmData d /\
    calculate_bumped_gas_price k1 d relayer (is_noop d) = Ok p /\
    pp_is_min_bumped p = Some true /\
    (exists b, rpc_get_balance k2 (rel_address relayer) = Ok b /\ pp_total_cost p <= b) /\
    signer_sign k3 (EvmData (with_price_params d p)) = Ok sig /\
    w_sent w' = w_sent w ++ [sr_raw sig]) w). clear w'.
  unfold resubmit_transaction. case_match; [|by left].
  destruct (tx_network_data tx) as [d| |] eqn:Hd; [|by left..].
  apply wp_bind, wp_lift. simpl. apply wp_bind. unfold wp at 1, call. simpl.
  destruct (calculate_bumped_gas_price _ _ _ _) as [p|] eqn:Hp; [|left; by destruct w].
  destruct (default false (pp_is_min_bumped p)) eqn:Hb; [|left; by destruct w]. simpl.
  apply wp_bind. set (w1 := tick w). assert (w_sent w1 = w_sent w) as Hs1 by by destruct w.
  unfold ensure_sufficient_balance. apply wp_bind, wp_map_err. unfold wp at 1, call. simpl.
  destruct (rpc_get_balance _ _) as [b|] eqn:Hbal; simpl; [|left; by destruct w].
  set (w2 := tick w1). assert (w_sent w2 = w_sent w) as Hs2 by by destruct w.
  destruct (Z.ltb_spec b (pp_total_cost p)); [by left|].
  destruct (negb _ && _); [by left|]. apply wp_ret. apply wp_bind. unfold sign.
  apply wp_map_err. unfold wp at 1, call. simpl.
  destruct (signer_sign _ _) as [sig|] eqn:Hsig; simpl; [|left; by destruct w].
  set (w3 := tick w2). assert (w_sent w3 = w_sent w) as Hs3 by by destruct w.
  apply wp_bind, wp_lift. destruct d as [gp gl n v da fr to ci h s sp mf mp r]. simpl.
  right. eexists _, p, sig, _, _, _. split_and!; try done.
  - destruct (pp_is_min_bumped p) as [[]|]; done.
  - by exists b.
  - rewrite <- Hs3. unfold wp. apply sent_bind.
    + unfold resubmit_broadcast. apply broadcast_then. intros r'. preserve.
    + intros o. unfold resubmit_update. preserve.
Qed.

(** ** Reading the chain *)

Lemma evm_network_ok chain m network (w : W S C) :
  networks_by_chain_id (w_tick w) chain = Ok (Some m) -> evm_network_try_from m = Ok network ->
  evm_network chain w = (Ok network, tick w).
Proof.
  intros Hm Hn. unfold evm_network, bindM, map_errM, call. rewrite Hm. simpl. by rewrite Hn.
Qed.

Ltac by_verdict :=
  split; [done|]; repeat match goal with
  | |- _ /\ _ => split
  | |- _ <-> _ => split; intros
  end; destruct_and?; try done; try lia; auto.

(** The status read from the chain for a Submitted or Mined transaction whose receipt is
    there: Failed exactly when the receipt says it reverted; otherwise Mined until the
    network's number of confirmations is on top of its block; then Canceled if the transaction
    was cancelled and what was mined is the self-transfer, and Confirmed in every other case -
    a cancelled transaction whose original was mined is reported Confirmed. *)
Theorem status_from_receipt relayer tx d hash rc head block m network (w : W S C) :
  tx_status tx = Submitted \/ tx_status tx = Mined ->
  tx_network_data tx = EvmData d -> evm_hash d = Some hash ->
  rpc_get_transaction_receipt (w_tick w) hash = Ok (Some rc) ->
  rpc_get_block_number (w_tick (tick w)) = Ok head -> rc_block_number rc = Some block ->
  networks_by_chain_id (w_tick (tick (tick w))) (evm_chain_id d) = Ok (Some m) ->
  evm_network_try_from m = Ok network ->
  0 <= block + net_required_confirmations network < 2 ^ 64 ->
  exists s, fst (check_transaction_status relayer tx w) = Ok s /\
    (s = Failed <-> rc_status rc = false) /\
    (s = Mined <-> rc_status rc = true /\ head < block + net_required_confirmations network) /\
    (s = Canceled <-> rc_status rc = true /\
       block + net_required_confirmations network <= head /\
       tx_is_canceled tx = Some true /\ rc_to rc = Some (rc_from rc)) /\
    (s = Failed \/ s = Mined \/ s = Canceled \/ s = Confirmed).
Proof.
  intros Hs Hd Hh Hrc Hhead Hblock Hm Hn Hwrap. unfold check_transaction_status.
  assert (is_final_state (tx_status tx) = false /\ is_unsubmitted_transaction (tx_status tx) = false)
    as [-> ->] by (by destruct Hs as [->| ->]).
  rewrite Hd. simpl. unfold bindM at 1, liftM at 1. rewrite Hh. unfold bindM at 1, liftM at 1. simpl.
  unfold bindM at 1, rpc at 1, map_errM at 1, call at 1. rewrite Hrc. simpl.
  destruct (rc_status rc); simpl; [|exists Failed; by_verdict].
  unfold bindM at 1, rpc at 1, map_errM at 1, call at 1. rewrite Hhead. simpl. rewrite Hblock.
  unfold bindM at 1, liftM at 1. simpl. unfold bindM at 1. erewrite evm_network_ok by done.
  unfold has_enough_confirmations. rewrite wrapu_small by done.
  destruct (Z.leb_spec (block + net_required_confirmations network) head); simpl;
    [|exists Mined; by_verdict].
  case_bool_decide; [case_bool_decide|]; simpl;
    [exists Canceled | exists Confirmed | exists Confirmed]; by_verdict.
Qed.

(** A reload returns the stored transaction or fails. *)
Lemma reload_spec id (w : W S C) (Q : result TransactionError.t TransactionRepoModel -> W S C -> Prop) :
  (forall e w', view w' = view w -> w_jobs w' = w_jobs w -> Q (Err e) w') ->
  (forall t w', view w' = view w -> w_jobs w' = w_jobs w -> view w !! id = Some t -> Q (Ok t) w') ->
  wp (repo (repo_get_by_id id)) Q w.
Proof.
  intros He Hok. apply wp_map_err. unfold wp, repo_call.
  pose proof (repo_get_by_id_spec id (w_repo w)) as Hs. unfold wp in Hs.
  destruct (repo_get_by_id id (w_repo w)) as [r s']. simpl in *. destruct Hs as [Hv Hr].
  assert (view (set_repo s' w) = view w) as Hvw by by rewrite view_set_repo.
  destruct r as [t|e]; simpl; [apply Hok|apply He]; try done; try by destruct w.
  by apply Hr.
Qed.

(** A Mined transaction whose receipt is gone (a chain reorganisation) and that is at
    least 20 seconds old is not handled: every status check fails, and neither the stored
    transaction nor the queues change, so that nothing ever resubmits it. *)
Theorem mined_without_receipt_stuck relayer tx d hash created (w : W S C) :
  view w !! tx_id tx = Some tx -> tx_status tx = Mined ->
  tx_network_data tx = EvmData d -> evm_hash d = Some hash ->
  rpc_get_transaction_receipt (w_tick w) hash = Ok None ->
  parse_rfc3339 (tx_created_at tx) = Some created ->
  (forall k, seconds 20 <= env_now k - created) ->
  wp (handle_status_impl relayer tx None) (fun r w' =>
    (exists e, r = Err e) /\ view w' = view w /\ w_jobs w' = w_jobs w) w.
Proof.
  intros Hv Hs Hd Hh Hrc Hc Hage. unfold handle_status_impl. rewrite Hs. simpl.
  unfold normal_status_flow, check_transaction_status. rewrite Hs. simpl. rewrite Hd.
  do 2 apply wp_bind. apply wp_lift. simpl. apply wp_bind, wp_lift. rewrite Hh. simpl.
  apply wp_bind. unfold rpc. apply wp_map_err. unfold wp at 1, call. rewrite Hrc. simpl.
  apply wp_bind. unfold should_try_hash_recovery. rewrite Hs. simpl.
  assert (view (tick w) = view w /\ w_jobs (tick w) = w_jobs w) as [Hvt Hjt] by by destruct w.
  assert (forall b : bool, (if b then retM false else retM false : T S C bool) = retM false)
    as -> by by intros [].
  apply wp_ret. apply wp_ret. simpl. apply wp_bind, reload_spec.
  { intros e w1 Hv1 Hj1. split; [by eexists | split; congruence]. }
  intros t w1 Hv1 Hj1 Ht. assert (t = tx) as -> by congruence.
  unfold is_too_early_to_resubmit, get_age_since_created. rewrite Hc.
  do 3 apply wp_bind. unfold wp at 1, now, ask. simpl. apply wp_ret, wp_ret.
  rewrite (proj2 (Z.ltb_ge _ _)) by apply Hage. simpl.
  unfold handle_submitted_state, should_resubmit, ensure_status. rewrite Hs. simpl.
  apply wp_bind, wp_bind, wp_lift. split; [by eexists|].
  assert (view (tick w1) = view w1 /\ w_jobs (tick w1) = w_jobs w1) as [-> ->] by by destruct w1.
  split; congruence.
Qed.

(** ** Nonce reconciliation *)

(** Time does not run backwards. *)
Definition later (w w' : W S C) : Prop := (w_tick w <= w_tick w')%nat.

Lemma later_repo_call {A} (c : M S RepositoryError.t A) : preserves later (repo_call c).
Proof. intros w. unfold repo_call, later. by destruct (c _), w. Qed.

#[global] Instance later_inert : Inert later.
Proof.
  constructor; intros; [|try apply later_repo_call..].
  - split; [by intros w; unfold later|]. intros ???. unfold later. lia.
  - intros []. unfold later. simpl. lia.
  - intros []. unfold later. simpl. lia.
  - intros w. unfold produce, later. destruct (queue_fault _), w; simpl; lia.
  - intros []. unfold later. simpl. lia.
Qed.

(** A status update of a stored transaction that is not final: it may fail, and then does
    nothing or has been applied; otherwise it returns the transaction with the new status. *)
Lemma update_status_spec relayer tx s r v sent js (w : W S C) :
  frame v sent js w -> v !! tx_id tx = Some tx -> is_final_state (tx_status tx) = false ->
  wp (update_transaction_status relayer tx s r) (fun res w' => later w w' /\ exists t,
    frame (<[tx_id tx := t]> v) sent js w' /\ (t = tx \/ tx_status t = s) /\
    forall t', res = Ok t' -> t' = t /\ tx_status t = s) w.
Proof.
  intros Hf Hv Hfin. apply wp_conj.
  { apply wp_preserves. unfold update_transaction_status, partial_update, partial_update_r.
    preserve. all: apply later_repo_call. }
  unfold update_transaction_status.
  assert (Hsame : forall e (w' : W S C), frame v sent js w' -> exists t,
    frame (<[tx_id tx := t]> v) sent js w' /\ (t = tx \/ tx_status t = s) /\
    forall t', (Err e : result TransactionError.t _) = Ok t' -> t' = t /\ tx_status t = s).
  { intros e w' Hf'. exists tx. rewrite insert_id by done. split_and!; [done|by left|done]. }
  eapply wp_bind_keeps; [apply frame_quiet; preserve|done|done|]. intros c w1 _ Hf1.
  apply wp_bind, wp_map_err. eapply partial_update_stored; [done|done|by left| | |].
  - intros e w2 Hf2. by apply Hsame.
  - intros n e w2 Hf2. eexists. split; [exact Hf2|]. split; [by right|done].
  - intros n w2 Hf2. cbn [result_map_err]. eapply notify_then; [done|]. intros w3 Hf3. apply wp_ret.
    eexists. split; [exact Hf3|]. split; [by right|]. by intros t [= <-].
Qed.

(** [t] is [tx] found mined, between [w] and [w'], under another of its hashes: its hash is
    corrected to that one. *)
Definition mined_under_earlier (tx : TransactionRepoModel) (d : EvmTransactionData)
    (t : TransactionRepoModel) (w w' : W S C) : Prop :=
  tx_status t = Mined /\ exists h k rc, h ∈ tx_hashes tx /\ evm_hash d <> Some h /\
    (w_tick w <= k < w_tick w')%nat /\ rpc_get_transaction_receipt k h = Ok (Some rc) /\
    tx_network_data t = EvmData (set_evm_hash (Some h) d).

Lemma corrected_hash_spec relayer tx d h v sent js (w : W S C) :
  frame v sent js w -> v !! tx_id tx = Some tx -> is_final_state (tx_status tx) = false ->
  wp (update_transaction_with_corrected_hash relayer tx d h Mined) (fun r w' => later w w' /\
    exists t, frame (<[tx_id tx := t]> v) sent js w' /\
      (t = tx \/ (tx_status t = Mined /\ tx_network_data t = EvmData (set_evm_hash (Some h) d))) /\
      forall t', r = Ok t' -> t' = t /\ tx_status t = Mined /\
        tx_network_data t = EvmData (set_evm_hash (Some h) d)) w.
Proof.
  intros Hf Hv Hfin. apply wp_conj.
  { apply wp_preserves. unfold update_transaction_with_corrected_hash, partial_update, partial_update_r.
    preserve. all: apply later_repo_call. }
  unfold update_transaction_with_corrected_hash. apply wp_bind, wp_map_err.
  eapply partial_update_stored; [done|done|by left| | |].
  - intros e w2 Hf2. exists tx. rewrite insert_id by done. split_and!; [done|by left|done].
  - intros n e w2 Hf2. eexists. split; [exact Hf2|]. split; [by right|done].
  - intros n w2 Hf2. cbn [result_map_err]. eapply notify_then; [done|]. intros w3 Hf3. apply wp_ret.
    eexists. split; [exact Hf3|]. split; [by right|]. by intros t [= <-].
Qed.

(** Recovery over a list of the transaction's hashes: nothing, or the transaction marked Mined
    under the hash that was found. *)
Lemma recover_spec relayer tx d hs v sent js (w0 w : W S C) :
  frame v sent js w -> v !! tx_id tx = Some tx -> is_final_state (tx_status tx) = false ->
  later w0 w -> (forall h, h ∈ hs -> h ∈ tx_hashes tx) ->
  wp (recover_from_hashes relayer tx d hs) (fun r w' => later w0 w' /\ exists t,
    frame (<[tx_id tx := t]> v) sent js w' /\ (t = tx \/ mined_under_earlier tx d t w0 w') /\
    forall o, r = Ok o -> match o with
      | None => t = tx
      | Some t' => t' = t /\ mined_under_earlier tx d t w0 w'
      end) w.
Proof.
  intros Hf Hv Hfin Hl Hhs. revert w Hf Hl.
  induction hs as [|h hs IH]; intros w Hf Hl; simpl.
  { apply wp_ret. split; [done|]. exists tx. rewrite insert_id by done.
    split_and!; [done|by left|]. by intros o [= <-]. }
  assert (forall h', h' ∈ hs -> h' ∈ tx_hashes tx) as Hhs' by (intros; apply Hhs; by right).
  case_bool_decide as Hd; [by apply IH|]. apply wp_bind, wp_try. unfold wp at 1, call. simpl.
  assert (frame v sent js (tick w)) as Hf1 by by destruct w.
  assert (w_tick (tick w) = Datatypes.S (w_tick w)) as Ht by by destruct w.
  assert (later w0 (tick w)) as Hl1 by (unfold later in *; lia).
  destruct (rpc_get_transaction_receipt (w_tick w) h) as [[rc|]|e] eqn:Hrc; [|by apply IH..].
  apply wp_bind. eapply wp_mono; [|by eapply corrected_hash_spec].
  intros r w' (Hlate & t & Hf' & Ht' & Hr).
  assert (Hm : tx_status t = Mined /\ tx_network_data t = EvmData (set_evm_hash (Some h) d) ->
    mined_under_earlier tx d t w0 w').
  { intros [? ?]. split; [done|]. exists h, (w_tick w), rc. unfold later in *.
    split_and!; [apply Hhs; by left|congruence|lia|lia|done|done]. }
  destruct r as [t1|e]; [destruct (Hr t1 eq_refl) as (-> & ?); apply wp_ret|];
    (split; [by etransitivity|]); exists t; (split; [done|]); (split; [naive_solver|]); [|done]. intros o [= <-]. auto.
Qed.

(** [t] is [tx] marked Failed because its nonce is spent: the account's nonce on chain was past it
    between [w] and [w'], and the node had no receipt under the current hash. *)
Definition nonce_spent (relayer : RelayerRepoModel) (tx : TransactionRepoModel)
    (d : EvmTransactionData) (t : TransactionRepoModel) (w w' : W S C) : Prop :=
  tx_status t = Failed /\
  (forall h, evm_hash d = Some h -> rpc_get_transaction_receipt (w_tick w) h = Ok None) /\
  exists n k c, evm_nonce d = Some n /\ n < c /\ (w_tick w <= k < w_tick w')%nat /\
    rpc_get_transaction_count k (rel_address relayer) = Ok c.

(** What reconciliation may do to [tx], and what it may answer. *)
Definition decided (relayer : RelayerRepoModel) (tx : TransactionRepoModel)
    (d : EvmTransactionData) (t : TransactionRepoModel) (w w' : W S C) : Prop :=
  mined_under_earlier tx d t w w' \/ nonce_spent relayer tx d t w w'.

Definition reconciled (relayer : RelayerRepoModel) (tx : TransactionRepoModel)
    (d : EvmTransactionData) (w : W S C)
    (r : result TransactionError.t (option TransactionRepoModel)) (w' : W S C) : Prop :=
  exists t, view w' = <[tx_id tx := t]> (view w) /\ w_sent w' = w_sent w /\
    (t = tx \/ decided relayer tx d t w w') /\
    forall t', r = Ok (Some t') -> t' = t /\ decided relayer tx d t w w'.

Lemma reconciled_unchanged relayer tx d (w w' : W S C) r :
  view w !! tx_id tx = Some tx -> frame (view w) (w_sent w) (w_jobs w) w' ->
  (forall t, r <> Ok (Some t)) -> reconciled relayer tx d w r w'.
Proof.
  intros Hv (Hv' & Hs' & _) Hr. exists tx. rewrite insert_id by done.
  split_and!; [done|done|by left|]. intros t Ht. by destruct (Hr t).
Qed.

(** The last step: the account's nonce is compared with the transaction's. *)
Lemma spend_nonce_spec relayer tx d n why (w w2 : W S C) :
  view w !! tx_id tx = Some tx -> is_final_state (tx_status tx) = false ->
  evm_nonce d = Some n -> frame (view w) (w_sent w) (w_jobs w) w2 -> later w w2 ->
  (forall h, evm_hash d = Some h -> rpc_get_transaction_receipt (w_tick w) h = Ok None) ->
  wp (let* on_chain_nonce := map_errM (fun e => TransactionError.UnexpectedError
          ("Failed to get on-chain nonce for recovery: " +:+ provider_error_display e))
        (call (fun t => rpc_get_transaction_count t (rel_address relayer))) in
      if n <? on_chain_nonce then
        let* updated_tx := update_transaction_status relayer tx Failed (why on_chain_nonce) in
        let* _ := try_ (schedule_relayer_nonce_health_job tx) in retM (Some updated_tx)
      else retM None) (reconciled relayer tx d w) w2.
Proof.
  intros Hv Hfin Hn Hf Hl Hclean. apply wp_bind, wp_map_err. unfold wp at 1, call. simpl.
  assert (frame (view w) (w_sent w) (w_jobs w) (tick w2)) as Hf1 by by destruct w2.
  assert (w_tick (tick w2) = Datatypes.S (w_tick w2)) as Ht by by destruct w2.
  destruct (rpc_get_transaction_count (w_tick w2) _) as [c|] eqn:Hcount; simpl;
    [|by apply reconciled_unchanged].
  destruct (Z.ltb_spec n c) as [Hlt|]; [|by apply wp_ret, reconciled_unchanged].
  apply wp_bind. eapply wp_mono; [|by eapply update_status_spec].
  intros r w3 (Hl3 & t & Hf3 & Ht3 & Hr).
  assert (Hd : forall w', later w3 w' -> tx_status t = Failed -> decided relayer tx d t w w').
  { intros w' Hl' ?. right. split_and!; [done|done|]. exists n, (w_tick w2), c. unfold later in *.
    split_and!; [done|done|lia|lia|done]. }
  destruct r as [t1|e].
  - destruct (Hr t1 eq_refl) as [-> Hfailed]. apply wp_bind.
    eapply wp_mono; [|apply wp_conj; [apply (wp_preserves quiet)|apply (wp_preserves later)]; preserve].
    intros x w4 [(Hv4 & Hs4 & _) Hl4]. destruct Hf3 as (Hv3 & Hs3 & _).
    rewrite <- Hv4 in Hv3. rewrite <- Hs4 in Hs3.
    destruct x; [apply wp_ret|]; exists t; split_and!; auto; try done.
    intros t' [= <-]. auto.
  - exists t. destruct Hf3 as (Hv3 & Hs3 & _). split_and!; [done|done| |done].
    destruct Ht3; [by left|]. right. apply Hd; [by unfold later|done].
Qed.

(** C16. What nonce reconciliation does to a stored transaction that is not final: whatever it
    answers, nothing is broadcast and no other stored transaction changes, and the transaction is
    left as it was or decided in one of two ways.  It is Mined, because during the run the node
    answered with a receipt under one of its recorded hashes other than the current one, and its
    hash is then that one; or it is Failed, because the node answered that there is no receipt
    under its current hash, and that the account's nonce is past the transaction's.  When the
    call returns a transaction, that is the stored one, decided so. *)
Theorem reconcile_decides relayer tx d (w : W S C) :
  view w !! tx_id tx = Some tx -> is_final_state (tx_status tx) = false ->
  tx_network_data tx = EvmData d ->
  wp (reconcile_tx_nonce_state relayer tx) (reconciled relayer tx d w) w.
Proof.
  intros Hv Hfin Hd. unfold reconcile_tx_nonce_state. rewrite Hd. apply wp_bind, wp_lift. simpl.
  apply wp_bind.
  eapply (wp_mono _ (fun r w' => later w w' /\ frame (view w) (w_sent w) (w_jobs w) w' /\
    (r = Ok (Some false) -> forall h, evm_hash d = Some h ->
       rpc_get_transaction_receipt (w_tick w) h = Ok None))).
  2: { destruct (evm_hash d) as [h|]; [|by apply wp_ret; split; [|split; [apply frame_here|]]].
       apply wp_bind, wp_try. unfold wp at 1, call. simpl.
       assert (frame (view w) (w_sent w) (w_jobs w) (tick w)) by by destruct w.
       assert (later w (tick w)) by (destruct w; unfold later; simpl; lia).
       destruct (rpc_get_transaction_receipt (w_tick w) h) as [[rc|]|e] eqn:Hrc;
         apply wp_ret; (split_and!; [done|done|]); try done. by intros _ ? [= <-]. }
  intros [[err1|]|e] w1 (Hl1 & Hf1 & Hclean);
    [|by apply wp_ret, reconciled_unchanged|by apply reconciled_unchanged].
  apply wp_bind.
  eapply (wp_mono _ (fun r w' => later w w' /\ exists x t, r = Ok x /\
    frame (<[tx_id tx := t]> (view w)) (w_sent w) (w_jobs w) w' /\
    (t = tx \/ mined_under_earlier tx d t w w') /\
    forall o, x = Ok o -> match o with
      | None => t = tx
      | Some t' => t' = t /\ mined_under_earlier tx d t w w'
      end)).
  2: { destruct (1 <? _).
       - apply wp_try. eapply wp_mono; [|eapply recover_spec; try done].
         + intros r w2 (Hl2 & t & Hx). split; [done|]. exists r, t. by split.
         + intros h. by rewrite elem_of_reverse.
       - apply wp_ret. split; [done|]. exists (Ok None), tx. rewrite insert_id by done.
         split_and!; [done|done|by left|]. by intros o [= <-]. }
  intros r w2 (Hl2 & x & t & -> & Hf2 & Ht & Hx).
  destruct x as [[t'|]|e]; simpl.
  - destruct (Hx _ eq_refl) as [-> Hm]. apply wp_ret. exists t. destruct Hf2 as (? & ? & _).
    split_and!; [done|done|by right; left|]. intros t' [= <-]. by split; [|left].
  - assert (t = tx) as -> by exact (Hx _ eq_refl). rewrite insert_id in Hf2 by done.
    rewrite orb_false_r. destruct err1; [by apply wp_ret, reconciled_unchanged|].
    destruct (evm_nonce d) as [n|] eqn:Hn; [|by apply wp_ret, reconciled_unchanged].
    eapply (spend_nonce_spec _ _ _ _ (fun c => Some _)); auto.
  - rewrite orb_true_r. apply wp_ret. exists t. destruct Hf2 as (? & ? & _).
    split_and!; [done|done| |done]. destruct Ht; [by left|by right; left].
Qed.

(** Reconciliation ignores failed lookups of earlier hashes: when the node has no receipt
    under the current hash, every lookup of another hash fails with an RPC error, and the
    account's nonce is past the transaction's, the transaction is marked Failed (unless
    storing that fails), although it may have been mined under a hash that was not looked
    up. *)
Theorem reconcile_ignores_history_errors relayer tx d hash n c (w : W S C) :
  view w !! tx_id tx = Some tx -> is_final_state (tx_status tx) = false ->
  tx_network_data tx = EvmData d -> evm_hash d = Some hash -> evm_nonce d = Some n ->
  rpc_get_transaction_receipt (w_tick w) hash = Ok None ->
  (forall k h, h <> hash -> exists e, rpc_get_transaction_receipt k h = Err e) ->
  (forall k, rpc_get_transaction_count k (rel_address relayer) = Ok c) -> n < c ->
  wp (reconcile_tx_nonce_state relayer tx) (fun r w' => forall o, r = Ok o ->
    exists t, o = Some t /\ tx_status t = Failed) w.
Proof.
  intros Hv Hfin Hd Hh Hn Hcur Hhist Hcount Hlt. unfold reconcile_tx_nonce_state. rewrite Hd.
  apply wp_bind, wp_lift. simpl. rewrite Hh. apply wp_bind, wp_bind, wp_try.
  unfold wp at 1, call. rewrite Hcur. simpl. apply wp_ret.
  assert (frame (view w) (w_sent w) (w_jobs w) (tick w)) as Hf1 by by destruct w.
  assert (forall hs (w1 : W S C), frame (view w) (w_sent w) (w_jobs w) w1 ->
    wp (recover_from_hashes relayer tx d hs)
      (fun r w' => r = Ok None /\ frame (view w) (w_sent w) (w_jobs w) w') w1) as Hrec.
  { induction hs as [|h hs IH]; intros w1 Hw1; simpl; [by apply wp_ret|].
    rewrite Hh. case_bool_decide as Heq; [by apply IH|]. apply wp_bind, wp_try.
    unfold wp at 1, call. destruct (Hhist (w_tick w1) h) as [e He]; [congruence|].
    rewrite He. simpl. apply IH. by destruct w1. }
  apply wp_bind.
  eapply (wp_mono _ (fun r w' => r = Ok (Ok None) /\ frame (view w) (w_sent w) (w_jobs w) w')).
  2: { destruct (1 <? _); [|by apply wp_ret]. apply wp_try.
       eapply wp_mono; [|by apply Hrec]. by intros r w2 [-> ?]. }
  intros r w2 [-> Hf2]. simpl. rewrite Hn. apply wp_bind, wp_map_err. unfold wp at 1, call. simpl.
  rewrite Hcount. simpl. rewrite (proj2 (Z.ltb_lt _ _)) by done. apply wp_bind.
  eapply wp_mono; [|eapply (update_status_spec _ _ _ _ (view w) (w_sent w) (w_jobs w)); [|done..]].
  2: { destruct Hf2 as (?&?&?). destruct w2. by split_and!. }
  intros [t|e] w3 (_ & t' & _ & _ & Ht); [|done]. destruct (Ht t eq_refl) as [-> Hst].
  apply wp_bind, wp_try. unfold wp at 1. apply wp_ret. intros ? [= <-]. eauto.
Qed.

(** ** Replacement *)

(** The fees of a replacement request have no influence: two requests that differ in their
    gas price, fees or validity only make [replace_transaction] behave the same in every
    respect, effects included, because the data built for the replacement drops them before
    pricing looks for explicit prices. *)
Theorem replacement_ignores_request_fees relayer tx req req' (w : W S C) :
  req_to req = req_to req' -> req_value req = req_value req' -> req_data req = req_data req' ->
  req_gas_limit req = req_gas_limit req' -> req_speed req = req_speed req' ->
  replace_transaction relayer tx (EvmRequest req) w =
  replace_transaction relayer tx (EvmRequest req') w.
Proof.
  intros. assert (forall d, for_replacement d req = for_replacement d req') as Heq
    by (intros d; unfold for_replacement; congruence).
  unfold replace_transaction, bindM, liftM.
  destruct (ensure_status_one_of _ _ _); [|done].
  destruct (get_evm_transaction_data _) as [d|]; [|done]. by rewrite (Heq d).
Qed.

(** ** Nonce gaps *)

(** [n] is a slot of the relayer that no active transaction fills. *)
Definition open_slot (rid : string) (w : W S C) (n : Z) : Prop :=
  (forall id t, view w !! id = Some t -> tx_relayer_id t = rid -> tx_nonce t <> Some n) \/
  (exists id t, view w !! id = Some t /\ tx_relayer_id t = rid /\ tx_nonce t = Some n /\
     is_active_nonce_status (tx_status t) = false).

(** [n] is filled by an active transaction. *)
Definition filled_slot (rid : string) (w : W S C) (n : Z) : Prop :=
  exists id t, view w !! id = Some t /\ tx_relayer_id t = rid /\ tx_nonce t = Some n /\
    is_active_nonce_status (tx_status t) = true.

Lemma nonce_range_elem a b n : n ∈ nonce_range a b <-> a <= n < b.
Proof.
  unfold nonce_range. rewrite list_elem_of_fmap. split.
  - intros (i & -> & Hi%elem_of_seq). lia.
  - intros Hn. exists (Z.to_nat (n - a)). rewrite elem_of_seq. lia.
Qed.

Lemma gap_nonces_spec rid (w : W S C) a b occ :
  occ.*1 = nonce_range a b ->
  (forall n o, (n, o) ∈ occ -> match o with
     | Some st => exists id t, view w !! id = Some t /\ tx_relayer_id t = rid /\
                    tx_nonce t = Some n /\ tx_status t = st
     | None => forall id t, view w !! id = Some t -> tx_relayer_id t = rid ->
                 tx_nonce t <> Some n
     end) ->
  match gap_nonces occ with
  | [] => forall n, a <= n < b -> filled_slot rid w n
  | _ => exists n, a <= n < b /\ open_slot rid w n
  end.
Proof.
  intros Hocc Hspec.
  assert (forall n, n ∈ gap_nonces occ -> a <= n < b /\ open_slot rid w n) as Hopen.
  { intros n ([n' o] & -> & Hin)%list_elem_of_fmap.
    apply list_elem_of_In, filter_In in Hin as [Hin%list_elem_of_In Ho]. simpl. split.
    - apply nonce_range_elem. rewrite <- Hocc. apply list_elem_of_fmap. by exists (n', o).
    - specialize (Hspec _ _ Hin). destruct o as [st|]; [|by left]. right.
      destruct Hspec as (id & t & ? & ? & ? & ?). exists id, t. split_and!; try done.
      subst. by destruct (is_active_nonce_status (tx_status t)). }
  destruct (gap_nonces occ) as [|n l] eqn:Hgap.
  - intros n Hn%nonce_range_elem. rewrite <- Hocc in Hn.
    apply list_elem_of_fmap in Hn as ([n' o] & -> & Hin). simpl. specialize (Hspec _ _ Hin).
    assert (match o with Some s => is_active_nonce_status s | None => false end = true) as Ho.
    { destruct (match o with Some s => is_active_nonce_status s | None => false end) eqn:Ho;
        [done|]. exfalso. assert (n' ∈ gap_nonces occ) as Hg; [|by rewrite Hgap in Hg; inversion Hg].
      apply list_elem_of_fmap. exists (n', o). split; [done|].
      apply list_elem_of_In, filter_In. split; [by apply list_elem_of_In|]. by rewrite Ho. }
    destruct o as [st|]; [|done]. destruct Hspec as (id & t & ? & ? & ? & <-). by exists id, t.
  - exists n. apply Hopen. left.
Qed.

Lemma debounced_nonce_health_ok tx (w : W S C) : fst (debounced_nonce_health tx w) = Ok tt.
Proof.
  unfold debounced_nonce_health, bindM at 1. unfold should_fire, bindM at 1, getsM.
  assert (forall w' : W S C, fst ((let* s := try_ (schedule_relayer_nonce_health_job tx) in
    match s with Ok _ => retM tt | Err _ => debounce_clear (tx_relayer_id tx) end
    : T S C unit) w') = Ok tt) as Hjob.
  { intros w'. unfold bindM, try_. by destruct (schedule_relayer_nonce_health_job tx w') as [[]]. }
  destruct (w_debounce w !! tx_relayer_id tx); unfold bindM at 1, ask; [|apply Hjob].
  destruct (_ <? _); [done | apply Hjob].
Qed.

(** What the verdict of the gap check says about the slots from the account's nonce [c] on
    chain up to the transaction's nonce [n], or the first 100 of them. *)
Definition gap_verdict (rid : string) (n c : Z) (w : W S C) (gap : bool) : Prop :=
  if gap then exists m, c <= m < Z.min n (c + 100) /\ open_slot rid w m
  else n <= c \/ forall m, c <= m < Z.min n (c + 100) -> filled_slot rid w m.

(** The nonce gap check of a transaction never fails.  It reports a gap only when some slot
    between the account's nonce on chain and the transaction's (within the first 100) is held
    by no active transaction of the relayer, and reports none only when the transaction is
    next in line or every one of those slots is held by an active one. *)
Theorem gap_detection_correct `{!NonceIndex S} relayer tx (w : W S C) :
  (forall k a c, rpc_get_transaction_count k a = Ok c -> 0 <= c < 2 ^ 64 - 100) ->
  wp (detect_nonce_gap_ahead relayer tx) (fun r _ => exists o, r = Ok o /\
    forall gap, o = Some gap -> exists n c, tx_nonce tx = Some n /\
      rpc_get_transaction_count (w_tick w) (rel_address relayer) = Ok c /\
      gap_verdict (tx_relayer_id tx) n c w gap) w.
Proof.
  intros Hbound. unfold detect_nonce_gap_ahead.
  destruct (tx_network_data tx) as [d| |] eqn:Hd; [|by apply wp_ret; eexists..]. simpl.
  assert (tx_nonce tx = evm_nonce d) as -> by (unfold tx_nonce; by rewrite Hd).
  destruct (evm_nonce d) as [n|]; [|by apply wp_ret; eexists].
  apply wp_bind, wp_try. unfold wp at 1, call. simpl.
  destruct (rpc_get_transaction_count (w_tick w) (rel_address relayer)) as [c|] eqn:Hc;
    [|by apply wp_ret; eexists].
  specialize (Hbound _ _ _ Hc). destruct (Z.leb_spec n c).
  { apply wp_ret. eexists. split; [done|]. intros gap [= <-]. exists n, c. split_and!; try done.
    by left. }
  rewrite wrapu_small by (unfold in_u, MAX_GAP_SCAN_RANGE; lia).
  change MAX_GAP_SCAN_RANGE with 100.
  apply wp_bind, wp_try. unfold wp at 1, repo_call.
  pose proof (nonce_occupancy_exact (tx_relayer_id tx) c (Z.min n (c + 100))
                (w_repo (tick w))) as Hocc.
  destruct (repo_get_nonce_occupancy _ _ _ _) as [r s']. simpl in *.
  destruct r as [occ|e]; [|by apply wp_ret; eexists].
  destruct (Hocc _ eq_refl) as [Hr Hs]. clear Hocc.
  assert (repo_view (w_repo (tick w)) = view w) as Hvt by by destruct w. rewrite Hvt in Hs.
  pose proof (gap_nonces_spec (tx_relayer_id tx) w c (Z.min n (c + 100)) occ Hr Hs) as Hgap.
  destruct (gap_nonces occ) as [|g l].
  - apply wp_ret. eexists. split; [done|]. intros gap [= <-]. exists n, c. split_and!; try done.
    by right.
  - apply wp_bind. eapply wp_ok; [apply debounced_nonce_health_ok|]. intros w2. apply wp_ret.
    eexists. split; [done|]. intros gap [= <-]. by exists n, c.
Qed.

(** ** Debouncing *)

(** A sequence of debounce queries, with their answers. *)
Fixpoint fire_all (keys : list string) : T S C (list bool) :=
  match keys with
  | [] => retM []
  | k :: keys' => let* b := should_fire k in let* bs := fire_all keys' in retM (b :: bs)
  end.

Lemma should_fire_step k (w : W S C) : exists b w',
  should_fire k w = (Ok b, w') /\ (w_tick w <= w_tick w' <= w_tick w + 2)%nat /\
  (forall k' t, k' <> k -> w_debounce w !! k' = Some t -> w_debounce w' !! k' = Some t) /\
  (forall t, w_debounce w !! k = Some t ->
     (forall j, (w_tick w <= j < w_tick w + 2)%nat ->
        env_instant j < t + NONCE_HEALTH_DEBOUNCE_TTL) -> b = false /\ w' = tick w).
Proof.
  unfold should_fire, bindM, getsM, ask, modifyM, retM. destruct w as [tk r c j s db]. simpl.
  destruct (db !! k) as [since|] eqn:Hk; simpl.
  - destruct (Z.ltb_spec (Z.max 0 (env_instant tk - since)) NONCE_HEALTH_DEBOUNCE_TTL); simpl.
    + do 2 eexists. split; [done|]. simpl. split_and!; [lia..|done|done].
    + do 2 eexists. split; [done|]. simpl. split_and!; [lia..| |].
      * intros. by rewrite lookup_insert_ne.
      * intros t [= <-] Hin. specialize (Hin tk ltac:(lia)).
        unfold NONCE_HEALTH_DEBOUNCE_TTL, seconds in *. lia.
  - do 2 eexists. split; [done|]. simpl. split_and!; [lia..| |done].
    intros. by rewrite lookup_insert_ne.
Qed.

(** Once a nonce health job of a relayer was let through, no further one is while every
    clock reading falls within the 30 second window that started then, whatever other
    relayers' queries come in between. *)
Theorem debounce_window keys (w : W S C) k t :
  w_debounce w !! k = Some t ->
  (forall j, (w_tick w <= j < w_tick w + 2 * length keys)%nat ->
     env_instant j < t + NONCE_HEALTH_DEBOUNCE_TTL) ->
  exists bs, fst (fire_all keys w) = Ok bs /\ length bs = length keys /\
    forall i, keys !! i = Some k -> bs !! i = Some false.
Proof.
  revert w. induction keys as [|k' keys IH]; intros w Hk Hin; simpl.
  { by exists []. }
  destruct (should_fire_step k' w) as (b & w' & Heq & Htick & Hother & Hself).
  assert (w_debounce w' !! k = Some t /\ (k' = k -> b = false)) as [Hk' Hb].
  { destruct (decide (k' = k)) as [->|Hne]; [|split; [by apply Hother|done]].
    destruct (Hself t Hk) as [-> ->]; [intros j Hj; apply Hin; simpl; lia|].
    by destruct w. }
  destruct (IH w' Hk') as (bs & Hbs & Hlen & Hall).
  { intros j Hj. apply Hin. simpl. lia. }
  exists (b :: bs). unfold bindM at 1. rewrite Heq. unfold bindM.
  destruct (fire_all keys w') as [r w'']. simpl in Hbs. subst r. simpl. split_and!; [done|lia|].
  intros [|i] Hi; simpl in *; [|by apply Hall]. simplify_eq. by rewrite Hb.
Qed.
End Properties.

(** ** Instances *)

Section Witnesses.
#[local] Existing Instances sample_chrono sample_config sample_order sample_calculator.

Definition demo_data : EvmTransactionData :=
  sample_data (Some 5) (Some "0xh3"%string) (Some [Byte.x01]).
Definition demo_submitted_tx : TransactionRepoModel :=
  sample_tx "tx1" Submitted ["0xh1"; "0xh2"; "0xh3"]%string demo_data.
Definition demo_sent_tx : TransactionRepoModel := sample_tx "tx1" Sent ["0xh3"%string] demo_data.
Definition demo_mined_tx : TransactionRepoModel := sample_tx "tx1" Mined ["0xh3"%string] demo_data.
Definition one (tx : TransactionRepoModel) : World InMemory.state (gmap CounterKey Z) :=
  sample_world [tx] ∅.

Lemma one_stored tx : view (one tx) !! tx_id tx = Some tx.
Proof. unfold view, one. simpl. apply lookup_insert_eq. Qed.

(** 12 hours after creation; no receipts; the account's nonce is 9; broadcasts succeed. *)
Definition late_env : Env :=
  sample_env (seconds 43200) (fun _ => Ok None) 100 9 (Ok "0xh3"%string).
(** The current hash has no receipt, the lookup of any other fails. *)
Definition flaky_env : Env :=
  sample_env (seconds 43200)
    (fun h => if String.eqb h "0xh3" then Ok None else Err ProviderError.Timeout) 100 9
    (Ok "0xh3"%string).
Definition demo_receipt : Receipt :=
  {| rc_status := true; rc_block_number := Some 90; rc_to := Some "0xb2"%string;
     rc_from := "0xa1" |}.
Definition receipt_env : Env :=
  sample_env (seconds 60) (fun _ => Ok (Some demo_receipt)) 100 9 (Ok "0xh3"%string).

Definition demo_ctx : StatusCheckContext :=
  {| ctx_consecutive_failures := 25; ctx_total_failures := 30; ctx_total_retries := 30;
     ctx_max_consecutive_failures := 25; ctx_max_total_failures := 75;
     ctx_network_type := NtEvm; ctx_job_metadata := None |}.

Section Late.
#[local] Existing Instance late_env.

Lemma cancel_effect_witness :
  exists t, fst (cancel_transaction sample_relayer demo_submitted_tx (one demo_submitted_tx))
      = Ok t /\ tx_is_canceled t = Some true /\ noop_of demo_submitted_tx t.
Proof.
  destruct (wp_ok_elim _ _ _ (cancel_effect sample_relayer demo_submitted_tx
    (one demo_submitted_tx) (one_stored _))) as (t & Ht & _ & _ & Hc & Hn & _);
    [vm_compute; reflexivity | by exists t].
Defined.

Lemma circuit_breaker_effect_witness :
  exists t, fst (handle_status_impl sample_relayer demo_submitted_tx (Some demo_ctx)
                   (one demo_submitted_tx)) = Ok t /\
    tx_status t = Submitted /\ noop_of demo_submitted_tx t.
Proof.
  pose proof (circuit_breaker_effect sample_relayer demo_submitted_tx demo_ctx demo_data
    (one demo_submitted_tx) (one_stored _) eq_refl eq_refl eq_refl) as [Hc _].
  destruct (Hc (or_introl eq_refl)) as (_ & t & (_ & Hs & _) & Ht).
  destruct (fst (handle_status_impl sample_relayer demo_submitted_tx (Some demo_ctx)
    (one demo_submitted_tx))) as [t1|] eqn:Hr; [|vm_compute in Hr; discriminate].
  destruct (Ht t1 eq_refl) as (-> & Hn & _). by exists t.
Defined.

(** The prepared transaction expired: it becomes a NOOP whose submission sends byte 1. *)
Lemma sent_noop_submits_original_witness :
  exists t, fst (handle_sent_state sample_relayer demo_sent_tx (one demo_sent_tx)) = Ok t /\
    w_sent (snd (submit_transaction sample_relayer t
      (snd (handle_sent_state sample_relayer demo_sent_tx (one demo_sent_tx))))) = [[Byte.x01]].
Proof.
  pose proof (sent_noop_submits_original sample_relayer demo_sent_tx demo_data [Byte.x01]
    (one demo_sent_tx) (one_stored _) eq_refl eq_refl eq_refl eq_refl) as Hc. unfold wp in Hc.
  destruct (fst (handle_sent_state sample_relayer demo_sent_tx (one demo_sent_tx))) as [t|e] eqn:Hr;
    [|vm_compute in Hr; discriminate].
  exists t. split; [done|].
  assert (exists d', tx_network_data t = EvmData d' /\ is_noop d' = true) as (d' & Hd & Hn)
    by (vm_compute in Hr; injection Hr as <-; eexists; split; reflexivity).
  destruct (Hc t d' eq_refl Hd Hn) as [_ ->]. vm_compute. reflexivity.
Defined.


(** A Mined transaction whose receipt is gone: the check fails. *)
Lemma mined_without_receipt_stuck_witness :
  exists e, fst (handle_status_impl sample_relayer demo_mined_tx None (one demo_mined_tx)) = Err e.
Proof.
  apply (mined_without_receipt_stuck sample_relayer demo_mined_tx demo_data "0xh3" (seconds 1)
    (one demo_mined_tx)); try reflexivity. intros k. vm_compute. discriminate.
Defined.

Lemma reconcile_decides_witness :
  exists t, fst (reconcile_tx_nonce_state sample_relayer demo_submitted_tx
                   (one demo_submitted_tx)) = Ok (Some t) /\ tx_status t <> Submitted.
Proof.
  pose proof (reconcile_decides sample_relayer demo_submitted_tx demo_data
    (one demo_submitted_tx) (one_stored _) eq_refl eq_refl) as Hc. unfold wp in Hc.
  destruct (fst (reconcile_tx_nonce_state sample_relayer demo_submitted_tx
    (one demo_submitted_tx))) as [[t|]|] eqn:Hr; [|vm_compute in Hr; discriminate..].
  destruct Hc as (t0 & _ & _ & _ & Hc).
  exists t. split; [done|]. by destruct (Hc t eq_refl) as (-> & [[-> _]|[-> _]]).
Defined.

(** Nonce 5 with the account at 9: the transaction is not ahead of the chain. *)
Lemma gap_detection_correct_witness :
  exists o, fst (detect_nonce_gap_ahead sample_relayer demo_submitted_tx
                   (one demo_submitted_tx)) = Ok o.
Proof.
  destruct (gap_detection_correct sample_relayer demo_submitted_tx (one demo_submitted_tx))
    as (o & Ho & _); [|by exists o]. intros k a c [= <-]. done.
Defined.

Lemma debounce_window_witness :
  exists bs, fst (fire_all ["r2"; "r1"]%string
      (set_debounce {["r1"%string := seconds 43190]} (one demo_submitted_tx))) = Ok bs /\
    bs !! 1%nat = Some false.
Proof.
  destruct (debounce_window ["r2"; "r1"]%string
    (set_debounce {["r1"%string := seconds 43190]} (one demo_submitted_tx)) "r1" (seconds 43190))
    as (bs & Hbs & _ & Hall); [reflexivity|intros; reflexivity|].
  exists bs. split; [done|]. by apply Hall.
Defined.

Lemma replacement_ignores_request_fees_witness :
  replace_transaction sample_relayer demo_sent_tx
    (EvmRequest {| req_to := None; req_value := 5; req_data := None; req_gas_limit := None;
       req_gas_price := Some 7; req_speed := None; req_max_fee_per_gas := None;
       req_max_priority_fee_per_gas := None; req_valid_until := None |}) (one demo_sent_tx) =
  replace_transaction sample_relayer demo_sent_tx
    (EvmRequest {| req_to := None; req_value := 5; req_data := None; req_gas_limit := None;
       req_gas_price := None; req_speed := None; req_max_fee_per_gas := Some 10000;
       req_max_priority_fee_per_gas := Some 1; req_valid_until := None |}) (one demo_sent_tx).
Proof. apply replacement_ignores_request_fees; reflexivity. Defined.
End Late.

(** The lookup of the earlier hashes fails, and the transaction is marked Failed. *)
Section Flaky.
#[local] Existing Instance flaky_env.

Lemma reconcile_ignores_history_errors_witness :
  exists t, fst (reconcile_tx_nonce_state sample_relayer demo_submitted_tx
                   (one demo_submitted_tx)) = Ok (Some t) /\ tx_status t = Failed.
Proof.
  pose proof (reconcile_ignores_history_errors sample_relayer demo_submitted_tx demo_data
    "0xh3" 5 9 (one demo_submitted_tx) (one_stored _) eq_refl eq_refl eq_refl eq_refl eq_refl) as Hc.
  destruct (wp_ok_elim _ _ _ (Hc ltac:(intros k h Hh; exists ProviderError.Timeout; simpl;
      destruct (String.eqb_spec h "0xh3"); done) ltac:(reflexivity) ltac:(reflexivity)))
    as (o & Ho & t & -> & Ht); [vm_compute; reflexivity|]. by exists t.
Defined.
End Flaky.

(** Mined in block 90, 6 confirmations needed, block 100 reached. *)
Section Confirmed.
#[local] Existing Instance receipt_env.

Lemma status_from_receipt_witness :
  fst (check_transaction_status sample_relayer demo_submitted_tx (one demo_submitted_tx)) =
  Ok Confirmed.
Proof.
  destruct (status_from_receipt sample_relayer demo_submitted_tx demo_data "0xh3" demo_receipt
    100 90 sample_network_model demo_network (one demo_submitted_tx)) as (s & -> & Hf & Hm & Hc & Hs);
    try reflexivity; [by left|split; [done|reflexivity]|].
  destruct Hs as [->|[->|[->| ->]]]; [| | |done].
  - pose proof (proj1 Hf eq_refl) as Hx. discriminate Hx.
  - destruct (proj1 Hm eq_refl) as [_ Hx]. vm_compute in Hx. discriminate Hx.
  - destruct (proj1 Hc eq_refl) as (_ & _ & Hx & _). discriminate Hx.
Defined.
End Confirmed.
End Witnesses.
