(* ===== verification/EvmRelayer.v ===== *)
(** * The EVM relayer

    [domain/relayer/evm]: the nonce management of [nonce.rs] (synchronisation with the chain,
    gap detection, rewinding the counter, filling gaps with NOOPs), and of [evm_relayer.rs] the
    intake of transaction requests, the deletion of pending transactions and the health
    checks. *)

From S2P Require Import Prelude Decimal Errors Model Config Repository Counter Jobs Effects.
From S2P Require Import EvmUtils EvmTransaction EvmStatus.
Open Scope Z_scope.

(** ** Errors ([models/error/relayer.rs]) *)

Module RelayerError.
Inductive t : Type :=
| NetworkConfiguration (msg : string)
| ProviderError (msg : string)
| UnderlyingProvider (e : ProviderError.t)
| UnderlyingSolanaProvider (e : SolanaProviderError.t)
| QueueError (msg : string)
| SignerFactoryError (msg : string)
| SignerError (msg : string)
| NotSupported (msg : string)
| RelayerDisabled
| RelayerPaused
| TransactionSequenceError (e : CounterService.TransactionCounterError)
| InsufficientBalanceError (msg : string)
| InsufficientRelayerBalance (msg : string)
| PolicyConfigurationError (msg : string)
| InvalidDexName (msg : string)
| DexError (msg : string)
| ValidationError (msg : string)
| Internal (msg : string).
End RelayerError.

Definition counter_error_display (e : CounterService.TransactionCounterError) : string :=
  match e with
  | CounterService.SequenceNotFound relayer_id address =>
      "No sequence found for relayer " +:+ relayer_id +:+ " and address " +:+ address
  | CounterService.NotFound msg => "Counter not found for " +:+ msg
  end.

Definition relayer_error_display (e : RelayerError.t) : string :=
  match e with
  | RelayerError.NetworkConfiguration m => "Network configuration error: " +:+ m
  | RelayerError.ProviderError m => "Provider error: " +:+ m
  | RelayerError.UnderlyingProvider e =>
      "Underlying provider error: " +:+ provider_error_display e
  | RelayerError.UnderlyingSolanaProvider e =>
      "Underlying Solana provider error: " +:+ solana_provider_error_display e
  | RelayerError.QueueError m => "Queue error: " +:+ m
  | RelayerError.SignerFactoryError m => "Signer factory error: " +:+ m
  | RelayerError.SignerError m => "Signer error: " +:+ m
  | RelayerError.NotSupported m => "Not supported: " +:+ m
  | RelayerError.RelayerDisabled => "Relayer is disabled"
  | RelayerError.RelayerPaused => "Relayer is paused"
  | RelayerError.TransactionSequenceError e =>
      "Transaction sequence error: " +:+ counter_error_display e
  | RelayerError.InsufficientBalanceError m => "Insufficient balance error: " +:+ m
  | RelayerError.InsufficientRelayerBalance m => "Insufficient relayer balance: " +:+ m
  | RelayerError.PolicyConfigurationError m => "Relayer Policy configuration error: " +:+ m
  | RelayerError.InvalidDexName m => "Invalid Dex name : " +:+ m
  | RelayerError.DexError m => "Dex error : " +:+ m
  | RelayerError.ValidationError m => "Transaction validation error: " +:+ m
  | RelayerError.Internal m => "Internal error: " +:+ m
  end.

Definition relayer_error_of_repository (e : RepositoryError.t) : RelayerError.t :=
  RelayerError.NetworkConfiguration (repository_error_display e).

Definition relayer_error_of_queue (e : JobProducerError.t) : RelayerError.t :=
  RelayerError.QueueError (job_producer_error_display e).

Definition internal_of_repository (e : RepositoryError.t) : RelayerError.t :=
  RelayerError.Internal (repository_error_display e).

(** [RelayerRepoModel::validate_active_state] *)
Definition validate_active_state (r : RelayerRepoModel) : result RelayerError.t unit :=
  if rel_paused r then Err RelayerError.RelayerPaused
  else if rel_system_disabled r then Err RelayerError.RelayerDisabled
  else Ok tt.

(** ** Health check failures ([models/relayer/mod.rs]) *)

Module HealthCheckFailure.
Inductive t : Type :=
| NonceSyncFailed (msg : string)
| RpcValidationFailed (msg : string)
| BalanceCheckFailed (msg : string)
| SequenceSyncFailed (msg : string).
End HealthCheckFailure.

Definition from_health_failure (f : HealthCheckFailure.t) : DisabledReason :=
  match f with
  | HealthCheckFailure.NonceSyncFailed m => NonceSyncFailed m
  | HealthCheckFailure.RpcValidationFailed m => RpcValidationFailed m
  | HealthCheckFailure.BalanceCheckFailed m => BalanceCheckFailed m
  | HealthCheckFailure.SequenceSyncFailed m => SequenceSyncFailed m
  end.

Definition from_health_failures (l : list HealthCheckFailure.t) : option DisabledReason :=
  match l with
  | [] => None
  | [f] => Some (from_health_failure f)
  | _ => Some (MultipleReasons (from_health_failure <$> l))
  end.

(** ** Constants *)

Definition MAX_REWIND_SCAN_RANGE : Z := 100000.
Definition REWIND_SCAN_CHUNK : Z := 1000.

Section Relayer.
Context `{Chrono} `{ServerConfig} `{Env}.
Context {S C : Type} `{!TransactionRepository S} `{!TransactionCounter C}.
Context (relayer : RelayerRepoModel).

Definition R (A : Type) : Type := M (W S C) RelayerError.t A.

(** A call of the relayer's counter service. *)
Definition counter_service {A} (c : M C CounterService.TransactionCounterError A) : R A := fun w =>
  let '(r, c') := c (w_ctr w) in
  (result_map_err RelayerError.TransactionSequenceError r, set_ctr c' w).

Definition ctr_service_get : R (option Z) :=
  counter_service (CounterService.get (rel_id relayer) (rel_address relayer)).
Definition ctr_service_sync_floor (floor : Z) : R Z :=
  counter_service (CounterService.sync_floor (rel_id relayer) (rel_address relayer) floor).
Definition ctr_service_set_if_equals (expected value : Z) : R bool :=
  counter_service
    (CounterService.set_if_equals (rel_id relayer) (rel_address relayer) expected value).

(** ** Nonce synchronisation *)

Definition get_on_chain_nonce : R Z :=
  map_errM (fun e => RelayerError.ProviderError (provider_error_display e))
    (call (fun t => rpc_get_transaction_count t (rel_address relayer))).

Definition sync_nonce : R unit :=
  let* on_chain_nonce := get_on_chain_nonce in
  do* ctr_service_sync_floor on_chain_nonce in
  retM tt.

Definition find_active_tx_for_nonce (nonce : Z) : R (option TransactionRepoModel) :=
  let* tx := map_errM internal_of_repository (repo_call (repo_find_by_nonce (rel_id relayer) nonce)) in
  retM (match tx with
        | Some tx => if is_active_nonce_status (tx_status tx) then Some tx else None
        | None => None
        end).

Definition nonce_occupancy (from to : Z) : R (list (Z * option TransactionStatus)) :=
  map_errM internal_of_repository (repo_call (repo_get_nonce_occupancy (rel_id relayer) from to)).

(** ** Gap detection *)

(** [iter().rev().find(|(_, status)| status.is_some()).map(|(nonce, _)| nonce)] *)
Definition highest_occupied (occupancy : list (Z * option TransactionStatus)) : option Z :=
  fst <$> List.find (fun o => match snd o with Some _ => true | None => false end)
            (List.rev occupancy).

(** The gaps below the highest slot that has any transaction. *)
Definition gaps_below (occupancy : list (Z * option TransactionStatus)) : list Z :=
  match highest_occupied occupancy with
  | None => []
  | Some n =>
      let upper_bound := wrapu 64 (n + 1) in
      fst <$> List.filter (fun '(nonce, status) =>
                (nonce <? upper_bound) &&
                negb (match status with Some s => is_active_nonce_status s | None => false end))
              occupancy
  end.

Definition detect_nonce_gaps (on_chain_nonce nonce_hint : option Z) : R (list Z) :=
  let* on_chain_nonce :=
    match on_chain_nonce with Some n => retM n | None => get_on_chain_nonce end in
  let hint_end := match nonce_hint with Some h => wrapu 64 (h + 1) | None => 0 end in
  let scan_end := Z.max (wrapu 64 (on_chain_nonce + MAX_GAP_SCAN_RANGE)) hint_end in
  let* occupancy := nonce_occupancy on_chain_nonce scan_end in
  retM (gaps_below occupancy).

(** ** Rewinding the counter *)

(** The scan of [try_rewind_counter] from the top, chunk by chunk; every iteration lowers
    [chunk_end], so [chunk_end - on_chain_nonce] of them are enough. *)
Fixpoint scan_down (fuel : nat) (on_chain_nonce chunk_end : Z) : R (option Z) :=
  if chunk_end <=? on_chain_nonce then retM None
  else
    match fuel with
    | 0%nat => retM None
    | Datatypes.S fuel' =>
        let chunk_start := Z.max on_chain_nonce (sat_sub chunk_end REWIND_SCAN_CHUNK) in
        let* occupancy := nonce_occupancy chunk_start chunk_end in
        match highest_occupied occupancy with
        | Some nonce => retM (Some nonce)
        | None => scan_down fuel' on_chain_nonce chunk_start
        end
    end.

Definition try_rewind_counter (on_chain_nonce observed : Z) : R unit :=
  if observed <=? on_chain_nonce then retM tt
  else if MAX_REWIND_SCAN_RANGE <? observed - on_chain_nonce then retM tt
  else
    let* highest := scan_down (Z.to_nat (observed - on_chain_nonce)) on_chain_nonce observed in
    let target := match highest with
                  | Some n => Z.max on_chain_nonce (wrapu 64 (n + 1))
                  | None => on_chain_nonce
                  end in
    if observed <=? target then retM tt
    else do* ctr_service_set_if_equals observed target in retM tt.

(** ** Filling gaps *)

(** [schedule_initial_status_check] of [domain/relayer/evm/mod.rs] *)
Definition schedule_initial_status_check (tx : TransactionRepoModel) (network : EvmNetwork)
  : M (W S C) JobProducerError.t unit :=
  let* scheduled_on := calculate_scheduled_timestamp
    (wrapi 64 (net_status_check_initial_delay_seconds network)) in
  produce (JStatusCheck
    (status_check_for_evm_network (tx_id tx) (tx_relayer_id tx) network) (Some scheduled_on)).

Definition relayer_network : R NetworkRepoModel :=
  let* m := map_errM relayer_error_of_repository
              (call (fun t => networks_by_name t (rel_network relayer))) in
  liftM (ok_or m (RelayerError.NetworkConfiguration
    ("Network " +:+ rel_network relayer +:+ " not found"))).

Definition empty_evm_data (chain_id : Z) : EvmTransactionData :=
  {| evm_gas_price := None; evm_gas_limit := None; evm_nonce := None; evm_value := 0;
     evm_data := None; evm_from := rel_address relayer; evm_to := None;
     evm_chain_id := chain_id; evm_hash := None; evm_signature := None; evm_speed := None;
     evm_max_fee_per_gas := None; evm_max_priority_fee_per_gas := None; evm_raw := None |}.

Definition gap_filling_model (id created_at : string) (nonce : Z) (d : EvmTransactionData)
  : TransactionRepoModel :=
  {| tx_id := id; tx_relayer_id := rel_id relayer; tx_status := Pending;
     tx_status_reason := Some ("Gap-filling NOOP for nonce " +:+ print_dec nonce);
     tx_created_at := created_at; tx_sent_at := None; tx_confirmed_at := None;
     tx_valid_until := None; tx_delete_at := None; tx_network_data := EvmData d;
     tx_priced_at := None; tx_hashes := []; tx_network_type := NtEvm;
     tx_noop_count := Some 1; tx_is_canceled := Some false; tx_metadata := None |}.

(** Neither job of a new NOOP could be queued: mark it Failed so that it does not hold the
    slot. *)
Definition fail_unscheduled (tx : TransactionRepoModel) (reason : string) : R unit :=
  let* _ := try_ (partial_update_r (tx_id tx)
    (upd_with_reason (Some reason) (upd_with_status Failed))) in
  retM tt.

Definition create_gap_filling_noop (nonce : Z) : R TransactionRepoModel :=
  let* network_model := relayer_network in
  let* evm_network := liftM (result_map_err relayer_error_of_repository
                               (evm_network_try_from network_model)) in
  (* [make_noop] has no error *)
  let* d := map_errM (fun _ => RelayerError.Internal "Failed to create NOOP data")
              (make_noop (empty_evm_data (net_chain_id evm_network)) evm_network) in
  let d := with_nonce d nonce in
  let* created_at := now in
  let* id := ask env_uuid in
  let tx := gap_filling_model id (to_rfc3339 created_at) nonce d in
  do* map_errM internal_of_repository (repo_call (repo_create tx)) in
  let* request_result := try_ (produce
    (JRequest (transaction_request (tx_id tx) (tx_relayer_id tx)) None)) in
  let* status_result := try_ (schedule_initial_status_check tx evm_network) in
  match request_result, status_result with
  | Err request_err, Err _ =>
      do* fail_unscheduled tx "Gap-filling NOOP could not be scheduled" in
      failM (relayer_error_of_queue request_err)
  | _, _ => retM tx
  end.

(** The loop over the gaps: the number filled. *)
Fixpoint fill_gaps (gaps : list Z) (filled : Z) : R Z :=
  match gaps with
  | [] => retM filled
  | nonce :: gaps' =>
      let* active := find_active_tx_for_nonce nonce in
      match active with
      | Some _ => fill_gaps gaps' filled
      | None =>
          let* r := try_ (create_gap_filling_noop nonce) in
          match r with
          | Ok _ => fill_gaps gaps' (filled + 1)
          | Err _ => fill_gaps gaps' filled
          end
      end
  end.

Definition resolve_nonce_gaps (nonce_hint : option Z) : R Z :=
  let* counter := ctr_service_get in
  let observed := default 0 counter in
  do* match nonce_hint with
      | Some hint => let* _ := ctr_service_sync_floor (wrapu 64 (hint + 1)) in retM tt
      | None => retM tt
      end in
  (* the settling pause *)
  let* on_chain_nonce := get_on_chain_nonce in
  do* ctr_service_sync_floor on_chain_nonce in
  do* try_rewind_counter on_chain_nonce observed in
  let* gaps := detect_nonce_gaps (Some on_chain_nonce) nonce_hint in
  match gaps with
  | [] => retM 0
  | _ => fill_gaps gaps 0
  end.

(** [handle_health_action].  [acquired] tells whether the run got the lock of the relayer: the
    distributed one, or the in-process one where there is none; a run that does not get it
    does nothing. *)
Definition handle_health_action (acquired : nat -> bool) (metadata : gmap string string) : R bool :=
  match metadata !! HEALTH_CHECK_ACTION_KEY with
  | None => retM false
  | Some action =>
      if String.eqb action HEALTH_CHECK_ACTION_NONCE_HEALTH then
        let nonce_hint := metadata !! HEALTH_CHECK_NONCE_HINT_KEY ≫= parse_u64 in
        let* lock := ask acquired in
        if lock : bool then
          let* _ := resolve_nonce_gaps nonce_hint in retM true
        else retM true
      else retM false
  end.

(** ** Intake of requests *)

(** [TransactionRepoModel::try_from] of an EVM request. *)
Definition evm_transaction_model (id created_at : string) (request : EvmTransactionRequest)
    (network_model : NetworkRepoModel) : result RelayerError.t TransactionRepoModel :=
  let? network := result_map_err relayer_error_of_repository (evm_network_try_from network_model) in
  Ok {| tx_id := id; tx_relayer_id := rel_id relayer; tx_status := Pending;
        tx_status_reason := None; tx_created_at := created_at; tx_sent_at := None;
        tx_confirmed_at := None; tx_valid_until := req_valid_until request;
        tx_delete_at := None;
        tx_network_data := EvmData
          {| evm_gas_price := req_gas_price request; evm_gas_limit := req_gas_limit request;
             evm_nonce := None; evm_value := req_value request; evm_data := req_data request;
             evm_from := rel_address relayer; evm_to := req_to request;
             evm_chain_id := net_chain_id network; evm_hash := None; evm_signature := None;
             evm_speed := req_speed request;
             evm_max_fee_per_gas := req_max_fee_per_gas request;
             evm_max_priority_fee_per_gas := req_max_priority_fee_per_gas request;
             evm_raw := None |};
        tx_priced_at := None; tx_hashes := []; tx_network_type := NtEvm;
        tx_noop_count := None; tx_is_canceled := Some false; tx_metadata := None |}.

(** [process_transaction_request_with_id] for an EVM request; [network] is the relayer's. *)
Definition process_transaction_request_with_id (network : EvmNetwork)
    (request : EvmTransactionRequest) (id : string) : R TransactionRepoModel :=
  let* network_model := relayer_network in
  let* created_at := now in
  let* tx := liftM (evm_transaction_model id (to_rfc3339 created_at) request network_model) in
  do* map_errM (fun e => relayer_error_of_repository
                  (RepositoryError.TransactionFailure (repository_error_display e)))
        (repo_call (repo_create tx)) in
  let* r := try_ (schedule_initial_status_check tx network) in
  match r with
  | Err e =>
      do* fail_unscheduled tx "Queue unavailable" in
      failM (relayer_error_of_queue e)
  | Ok _ =>
      do* map_errM relayer_error_of_queue
            (produce (JRequest (transaction_request (tx_id tx) (tx_relayer_id tx)) None)) in
      retM tx
  end.

(** ** Deleting pending transactions *)

Record DeletePendingTransactionsResponse := {
  queued_for_cancellation_transaction_ids : list string;
  failed_to_queue_transaction_ids : list string;
  total_processed : Z;
}.

Definition cancel_transaction_via_job (tx : TransactionRepoModel) : R unit :=
  map_errM relayer_error_of_queue
    (produce (JSend (send_cancel (tx_id tx) (tx_relayer_id tx)
       "Cancelled via delete_pending_transactions") None)).

Fixpoint cancel_all (txs : list TransactionRepoModel) (cancelled failed : list string)
  : R (list string * list string) :=
  match txs with
  | [] => retM (cancelled, failed)
  | tx :: txs' =>
      let* r := try_ (cancel_transaction_via_job tx) in
      match r with
      | Ok _ => cancel_all txs' (cancelled ++ [tx_id tx]) failed
      | Err _ => cancel_all txs' cancelled (failed ++ [tx_id tx])
      end
  end.

Definition delete_pending_transactions : R DeletePendingTransactionsResponse :=
  let* pending := map_errM relayer_error_of_repository
    (repo_call (repo_find_by_status (rel_id relayer) [Pending; Sent; Submitted])) in
  let* (cancelled, failed) := cancel_all pending [] [] in
  retM {| queued_for_cancellation_transaction_ids := cancelled;
          failed_to_queue_transaction_ids := failed;
          total_processed := wrapu 32 (Z.of_nat (length cancelled + length failed)) |}.

(** ** Health *)

(** [EvmTransactionValidator::init_balance_validation], with the error of
    [validate_min_balance]. *)
Definition validate_min_balance : R unit :=
  let* balance := map_errM (fun e => RelayerError.InsufficientBalanceError
      ("Provider error: " +:+ provider_error_display e))
    (call (fun t => rpc_get_balance t (rel_address relayer))) in
  let min_balance :=
    default DEFAULT_EVM_MIN_BALANCE (pol_min_balance (get_evm_policy (rel_policies relayer))) in
  if balance <? min_balance then
    failM (RelayerError.InsufficientBalanceError
      ("Insufficient balance: Relayer balance (" +:+ print_dec balance +:+
       ") is below minimum required balance (" +:+ print_dec min_balance +:+ ")"))
  else retM tt.

(** [validate_rpc]; [health_check] is the provider's connectivity check. *)
Definition validate_rpc (health_check : nat -> result ProviderError.t bool) : R unit :=
  let* _ := map_errM (fun e => RelayerError.ProviderError (provider_error_display e))
              (call health_check) in
  retM tt.

Definition failure_of {A} (f : string -> HealthCheckFailure.t) (r : result RelayerError.t A)
  : list HealthCheckFailure.t :=
  match r with Ok _ => [] | Err e => [f (relayer_error_display e)] end.

(** [check_health]: all three checks run whatever the others say. *)
Definition check_health (health_check : nat -> result ProviderError.t bool)
  : M (W S C) (list HealthCheckFailure.t) unit :=
  let* nonce_sync_result := try_ sync_nonce in
  let* validate_rpc_result := try_ (validate_rpc health_check) in
  let* validate_min_balance_result := try_ validate_min_balance in
  match failure_of HealthCheckFailure.NonceSyncFailed nonce_sync_result ++
        failure_of HealthCheckFailure.RpcValidationFailed validate_rpc_result ++
        failure_of HealthCheckFailure.BalanceCheckFailed validate_min_balance_result with
  | [] => retM tt
  | failures => failM failures
  end.
End Relayer.
