(* ===== verification/NonceHealth.v ===== *)
(** * Nonce health

    The scans of [domain/relayer/evm/nonce.rs] and what a health run does to the stored
    transactions: which slots it finds in use, which gaps it reports, and what filling them
    adds to the store. *)

From S2P Require Import Prelude Decimal Errors Model Config Repository Counter Jobs Effects.
From S2P Require Import Sample EvmUtils EvmTransaction EvmStatus Lifecycle NonceAssignment.
From S2P Require Import EvmRelayer.
Open Scope Z_scope.

(** ** Occupancy lists *)

Lemma elem_of_nonce_range n from to : n ∈ nonce_range from to <-> from <= n < to.
Proof.
  unfold nonce_range. rewrite list_elem_of_fmap. split.
  - intros (i & -> & Hi%elem_of_seq). lia.
  - intros Hn. exists (Z.to_nat (n - from)). split; [lia|]. apply elem_of_seq. lia.
Qed.

Lemma nonce_range_sorted from to : StronglySorted Z.lt (nonce_range from to).
Proof.
  unfold nonce_range. generalize (Z.to_nat (to - from)) as k. generalize 0%nat as a.
  intros a k. revert a. induction k as [|k IH]; intros a; simpl; constructor; [apply IH|].
  apply Forall_fmap, Forall_forall. intros x Hx%elem_of_seq. simpl. lia.
Qed.

Lemma find_app {A} (f : A -> bool) l1 l2 :
  List.find f (l1 ++ l2) =
  match List.find f l1 with Some x => Some x | None => List.find f l2 end.
Proof. induction l1 as [|x l1 IH]; simpl; [done|]. by destruct (f x). Qed.

(** The highest occupied slot of an occupancy list with increasing nonces. *)
Lemma highest_occupied_spec (l : list (Z * option TransactionStatus)) :
  StronglySorted Z.lt l.*1 ->
  match highest_occupied l with
  | Some h => (exists st, (h, Some st) ∈ l) /\ forall n st, (n, Some st) ∈ l -> n <= h
  | None => forall n st, (n, Some st) ∉ l
  end.
Proof.
  unfold highest_occupied. induction l as [|[n o] l IH]; simpl; intros Hs.
  { intros n st Hin. by apply elem_of_nil in Hin. }
  inversion Hs as [|? ? Hs' Hall]; subst. specialize (IH Hs').
  rewrite find_app. destruct (List.find _ (List.rev l)) as [[h o']|]; simpl in *.
  - destruct IH as [[st Hin] Hmax]. split; [exists st; by right|].
    intros n' st' [[= <- <-]|Hin']%elem_of_cons; [|eauto].
    rewrite Forall_forall in Hall. apply Z.lt_le_incl, Hall.
    by apply (list_elem_of_fmap_2 fst _ _ Hin).
  - destruct o as [st|]; simpl.
    + split; [exists st; left|]. intros n' st' [[= -> _]|Hin']%elem_of_cons; [done|].
      by apply IH in Hin'.
    + intros n' st' [[=]|Hin']%elem_of_cons. by apply IH in Hin'.
Qed.

Section Health.
Context `{Chrono} `{ServerConfig} `{Env} `{PriceCalculator}.
Context {S C : Type} `{!TransactionRepository S} `{!NonceIndex S} `{!TransactionCounter C}.
Context (relayer : RelayerRepoModel).

(** [n] is the nonce of a stored transaction of the relayer. *)
Definition in_use (w : W S C) (n : Z) : Prop :=
  exists id t, view w !! id = Some t /\ tx_relayer_id t = rel_id relayer /\ tx_nonce t = Some n.

Lemma in_use_same w w' n : view w' = view w -> in_use w' n -> in_use w n.
Proof. unfold in_use. by intros ->. Qed.

Lemma same_both_counters (w w' : W S C) : same_both w w' -> counters w' = counters w.
Proof. unfold same_both, same_ctr, counters. by intros [_ ->]. Qed.

Lemma same_both_find_nonce rid n :
  preserves (W := W S C) same_both (repo_call (repo_find_by_nonce rid n)).
Proof.
  intros w. split; [|apply same_ctr_repo_call].
  apply same_view_repo_call. intros s. apply repo_find_by_nonce_spec.
Qed.

Lemma same_both_occupancy from to : preserves same_both (nonce_occupancy (S := S) (C := C) relayer from to).
Proof. unfold nonce_occupancy. preserve. Qed.

(** An occupancy query tells the slots in use. *)
Lemma occupancy_spec from to (w : W S C) :
  wp (nonce_occupancy relayer from to) (fun r w' => same_both w w' /\
    forall l, r = Ok l -> l.*1 = nonce_range from to /\
      (forall n st, (n, Some st) ∈ l -> in_use w n /\ from <= n < to) /\
      (forall n, in_use w n -> from <= n < to -> exists st, (n, Some st) ∈ l)) w.
Proof.
  unfold wp. split; [apply same_both_occupancy|].
  unfold nonce_occupancy, map_errM, repo_call.
  pose proof (nonce_occupancy_exact (rel_id relayer) from to (w_repo w)) as Hs.
  destruct (repo_get_nonce_occupancy _ _ _ _) as [[l|e] s']; simpl in *; [|done].
  destruct (Hs l eq_refl) as [Hl Hin]. intros ? [= <-].
  split_and!; [done| |].
  - intros n st Hn. split.
    + apply Hin in Hn as (id & t & ? & ? & ? & _). by exists id, t.
    + apply elem_of_nonce_range. rewrite <- Hl. by apply (list_elem_of_fmap_2 fst _ _ Hn).
  - intros n (id & t & Hv & Hr & Ht) Hn. apply elem_of_nonce_range in Hn.
    rewrite <- Hl in Hn. apply list_elem_of_fmap in Hn as ([n' o] & -> & Hn).
    destruct o as [st|]; [by exists st|]. by destruct (Hin _ _ Hn id t Hv Hr Ht).
Qed.

(** ** Rewinding *)

Lemma scan_down_spec fuel oc ce (w : W S C) :
  0 <= oc -> ce - oc <= Z.of_nat fuel ->
  wp (scan_down relayer fuel oc ce) (fun r w' => same_both w w' /\
    forall o, r = Ok o ->
      (forall h, o = Some h -> oc <= h < ce) /\
      forall n, in_use w n -> oc <= n < ce -> exists h, o = Some h /\ n <= h) w.
Proof.
  revert ce w. induction fuel as [|fuel IH]; intros ce w Hoc Hf; simpl.
  all: destruct (Z.leb_spec ce oc); [unfold wp; simpl; split; [done|]; intros ? [= <-];
    split; [done|intros; lia]|].
  { lia. }
  set (cs := Z.max oc _). apply wp_bind. eapply wp_mono; [|apply occupancy_spec]. simpl.
  intros r w1 [Hsame Hl]. destruct r as [l|e]; [|split; done].
  destruct (Hl l eq_refl) as (Hrange & Hin & Hex).
  pose proof (highest_occupied_spec l ltac:(rewrite Hrange; apply nonce_range_sorted)) as Hh.
  destruct (highest_occupied l) as [h|].
  - unfold wp; simpl. split; [done|]. intros o [= <-]. destruct Hh as [[st Hst] Hmax].
    apply Hin in Hst as [_ Hst]. split; [intros ? [= <-]; lia|].
    intros n Hn Hr. exists h. split; [done|].
    destruct (Z.lt_ge_cases n cs); [lia|].
    destruct (Hex n Hn ltac:(lia)) as [st' Hst']. by eapply Hmax.
  - eapply wp_mono; [|apply (IH cs w1 Hoc)].
    2: { unfold cs, sat_sub, REWIND_SCAN_CHUNK. lia. }
    simpl. intros r w' [Hsame' Ho]. split; [by etransitivity|]. intros o Hr.
    destruct (Ho o Hr) as [Hb Hn]. split.
    { intros h Hh'. specialize (Hb h Hh'). unfold cs, sat_sub, REWIND_SCAN_CHUNK in *. lia. }
    intros n Hu Hrange'. destruct (Z.lt_ge_cases n cs) as [Hlt|Hge].
    + apply Hn; [|lia]. by eapply in_use_same; [symmetry; apply Hsame|].
    + destruct (Hex n Hu ltac:(lia)) as [st Hst]. by apply Hh in Hst.
Qed.

(** ** The counter *)

Lemma counter_of_insert n cv :
  counter_of relayer (<[(rel_id relayer, rel_address relayer) := n]> cv) = n.
Proof. unfold counter_of. by rewrite lookup_insert_eq. Qed.

(** A call of the counter service leaves the store alone. *)
Lemma counter_service_wp {A} (c : M C RepositoryError.t A)
    (f : RepositoryError.t -> CounterService.TransactionCounterError) (w : W S C)
    (P : gmap CounterKey Z -> Prop) :
  wp c (fun _ c' => P (ctr_view c')) (w_ctr w) ->
  wp (counter_service (map_errM f c)) (fun _ w' => same_view w w' /\ P (counters w')) w.
Proof.
  unfold wp, counter_service, map_errM, counters. destruct (c (w_ctr w)) as [[] ?];
    by destruct w.
Qed.

(** ** Creating the fillers *)

(** A partial update changes the addressed transaction as the update says, or nothing. *)
Lemma partial_update_r_spec id u (w : W S C) :
  let w' := snd (partial_update_r id u w) in
  counters w' = counters w /\
  (view w' = view w \/
   exists now t t', view w !! id = Some t /\ upd_result now u t t' /\
     view w' = <[id := t']> (view w)).
Proof.
  unfold partial_update_r, bindM.
  assert (Hnow : same_both w (snd (now (E := RepositoryError.t) w)))
    by apply (inert_ask (R := same_both)).
  destruct (now w) as [[n|e] w1]; simpl in *; destruct Hnow as [Hv Hc];
    unfold same_view, same_ctr in *; [|unfold counters; rewrite Hc; eauto].
  unfold repo_call. pose proof (repo_partial_update_spec n id u (w_repo w1)) as Hs.
  unfold wp in Hs. destruct (repo_partial_update n id u (w_repo w1)) as [r s']. simpl in *.
  fold (view w1) in Hs. rewrite Hv in Hs. rewrite view_set_repo. unfold counters.
  replace (w_ctr (set_repo s' w1)) with (w_ctr w) by (rewrite <- Hc; by destruct w1).
  split; [done|]. destruct Hs as [(t1 & t2 & Hl & Hr & Hs & _)|[Hs _]]; [right|by left]. eauto 6.
Qed.

(** ** The gaps *)

(** [n] is held by a transaction that is still on its way. *)
Definition held_active (w : W S C) (n : Z) : Prop :=
  exists id t, view w !! id = Some t /\ tx_relayer_id t = rel_id relayer /\
    tx_nonce t = Some n /\ is_active_nonce_status (tx_status t) = true.

(** The end of the scan of [detect_nonce_gaps]. *)
Definition scan_end (oc : Z) (hint : option Z) : Z :=
  Z.max (wrapu 64 (oc + MAX_GAP_SCAN_RANGE))
    (match hint with Some h => wrapu 64 (h + 1) | None => 0 end).

Lemma detect_spec oc hint (w : W S C) :
  wp (detect_nonce_gaps relayer (Some oc) hint) (fun r w' => same_both w w' /\
    forall gaps, r = Ok gaps -> exists l,
      fst (nonce_occupancy relayer oc (scan_end oc hint) w) = Ok l /\ gaps = gaps_below l) w.
Proof.
  unfold detect_nonce_gaps, wp, bindM, retM. fold (scan_end oc hint).
  pose proof (same_both_occupancy oc (scan_end oc hint) w) as Hs.
  destruct (nonce_occupancy relayer oc (scan_end oc hint) w) as [[l|e] w'] eqn:He; simpl in *.
  - split; [done|]. intros ? [= <-]. by exists l.
  - by split.
Qed.

(** A slot of the scan is below the largest 64-bit value. *)
Lemma scan_slot_small oc hint h : 0 <= oc -> oc <= h < scan_end oc hint -> in_u 64 (h + 1).
Proof.
  unfold scan_end. pose proof (wrapu_in_u 64 (oc + MAX_GAP_SCAN_RANGE)).
  destruct hint as [x|]; [pose proof (wrapu_in_u 64 (x + 1))|]; unfold in_u in *; lia.
Qed.

(** A gap lies at or below a nonce in use. *)
Lemma gap_below_use oc hint (w : W S C) :
  0 <= oc ->
  wp (detect_nonce_gaps relayer (Some oc) hint) (fun r w' => same_both w w' /\
    forall gaps, r = Ok gaps -> Forall (fun n => exists h, in_use w h /\ n <= h) gaps) w.
Proof.
  intros Hoc. eapply wp_mono; [|apply detect_spec]. simpl. intros r w' [Hs Hg]. split; [done|].
  intros gaps Hr. destruct (Hg gaps Hr) as (l & Hl & ->).
  pose proof (occupancy_spec oc (scan_end oc hint) w) as [_ Hocc].
  destruct (Hocc l Hl) as (Hrange & Hin & _). unfold gaps_below.
  pose proof (highest_occupied_spec l ltac:(rewrite Hrange; apply nonce_range_sorted)) as Hh.
  destruct (highest_occupied l) as [h|]; [|constructor]. destruct Hh as [[st Hst] _].
  destruct (Hin h st Hst) as [Hu Hb]. apply Forall_fmap, List.Forall_forall.
  intros [n o] [_ Hn]%List.filter_In. simpl. exists h. split; [done|].
  apply andb_prop in Hn as [Hn _]. apply Z.ltb_lt in Hn.
  unfold wrapu in Hn. pose proof (Z.mod_le (h + 1) (2 ^ 64)). lia.
Qed.

(** No two transactions of the relayer have the same nonce. *)
Definition one_per_nonce (w : W S C) : Prop :=
  forall id1 id2 t1 t2 n,
    view w !! id1 = Some t1 -> tx_relayer_id t1 = rel_id relayer -> tx_nonce t1 = Some n ->
    view w !! id2 = Some t2 -> tx_relayer_id t2 = rel_id relayer -> tx_nonce t2 = Some n ->
    t1 = t2.

(** The occupancy reports an active status for the slots held by active transactions. *)
Lemma occupancy_active from to (w : W S C) l n o :
  one_per_nonce w -> fst (nonce_occupancy relayer from to w) = Ok l -> (n, o) ∈ l ->
  match o with Some s => is_active_nonce_status s | None => false end = true <->
  held_active w n.
Proof.
  intros Hone. unfold nonce_occupancy, map_errM, repo_call.
  pose proof (nonce_occupancy_exact (rel_id relayer) from to (w_repo w)) as Hs.
  destruct (repo_get_nonce_occupancy _ _ _ _) as [[l'|e] s']; simpl in *; [|done].
  destruct (Hs l' eq_refl) as [_ Hin]. intros [= <-] Hl.
  specialize (Hin n o Hl). destruct o as [st|].
  - destruct Hin as (id & t & Hv & Hr & Hn & <-). split; [by exists id, t|].
    intros (id' & t' & Hv' & Hr' & Hn' & Ha). by rewrite (Hone id id' t t' n).
  - split; [done|]. intros (id & t & Hv & Hr & Hn & _). by destruct (Hin id t).
Qed.

(** C29. Gap detection is exact.  Where no two transactions of the relayer share a nonce, the
    slots reported, from the chain's nonce to the end of the scan (past the hint, if one is
    given), are those held by no active transaction and lying at or below a slot that some
    transaction, failed ones included, has. *)
Theorem detected_gaps_exact oc hint (w : W S C) :
  0 <= oc -> one_per_nonce w ->
  wp (detect_nonce_gaps relayer (Some oc) hint) (fun r w' => same_both w w' /\
    forall gaps, r = Ok gaps -> forall n,
      n ∈ gaps <->
      oc <= n < scan_end oc hint /\ ~ held_active w n /\
      exists h, n <= h < scan_end oc hint /\ in_use w h) w.
Proof.
  intros Hoc Hone. eapply wp_mono; [|apply detect_spec]. simpl.
  intros r w' [Hs Hg]. split; [done|]. intros gaps Hr n.
  destruct (Hg gaps Hr) as (l & Hl & ->).
  pose proof (occupancy_spec oc (scan_end oc hint) w) as [_ Hocc].
  destruct (Hocc l Hl) as (Hrange & Hin & Hex).
  pose proof (fun n o => occupancy_active oc (scan_end oc hint) w l n o Hone Hl) as Hact.
  pose proof (highest_occupied_spec l ltac:(rewrite Hrange; apply nonce_range_sorted)) as Hh.
  unfold gaps_below. destruct (highest_occupied l) as [h|].
  2: { split; [by intros ?%elem_of_nil|]. intros (? & _ & h & Hb & Hu).
       destruct (Hex h Hu ltac:(lia)) as [st Hst]. by apply Hh in Hst. }
  destruct Hh as [[st Hst] Hmax]. destruct (Hin h st Hst) as [Hu Hb].
  rewrite wrapu_small, list_elem_of_fmap by by apply (scan_slot_small oc hint).
  split.
  - intros ([n' o] & -> & [Ho Hf]%list_elem_of_In%List.filter_In). simpl in *.
    apply andb_prop in Hf as [Hlt%Z.ltb_lt Hna%negb_true_iff].
    apply list_elem_of_In in Ho. split; [|split].
    + apply elem_of_nonce_range. rewrite <- Hrange. by apply (list_elem_of_fmap_2 fst _ _ Ho).
    + rewrite <- (Hact _ _ Ho). by rewrite Hna.
    + exists h. split; [lia|done].
  - intros (Hn & Hna & h' & Hh' & Hu').
    destruct (Hex h' Hu' ltac:(lia)) as [st' Hst']. specialize (Hmax h' st' Hst').
    apply elem_of_nonce_range in Hn. rewrite <- Hrange in Hn.
    apply list_elem_of_fmap in Hn as ([n' o] & -> & Ho). exists (n', o). split; [done|].
    apply list_elem_of_In, List.filter_In. split; [by apply list_elem_of_In|].
    apply andb_true_intro. split; [apply Z.ltb_lt; simpl in *; lia|].
    apply negb_true_iff, not_true_iff_false. by rewrite (Hact _ _ Ho).
Qed.

(** ** What filling does *)

(** A filler of nonce [n]: a NOOP of the relayer, pending or given up. *)
Definition filler (n : Z) (t : TransactionRepoModel) : Prop :=
  tx_relayer_id t = rel_id relayer /\ tx_nonce t = Some n /\ tx_noop_count t = Some 1 /\
  (tx_status t = Pending \/ tx_status t = Failed).

(** One attempt at nonce [n]: at most one filler is added. *)
Definition attempted (n : Z) (w w' : W S C) : Prop :=
  view w' = view w \/
  exists t, view w !! tx_id t = None /\ filler n t /\ view w' = <[tx_id t := t]> (view w).

Lemma fail_unscheduled_spec n t reason (w w1 : W S C) :
  view w !! tx_id t = None -> filler n t -> view w1 = <[tx_id t := t]> (view w) ->
  attempted n w (snd (fail_unscheduled t reason w1)).
Proof.
  intros Hnone Ht Hv. unfold fail_unscheduled, bindM, try_. set (u := upd_with_reason _ _).
  destruct (partial_update_r_spec (tx_id t) u w1) as [_ Hv'].
  destruct (partial_update_r (tx_id t) u w1) as [r w2]. simpl in *.
  assert (Ha : view w2 = view w1 -> attempted n w w2) by (intros He; right; exists t; by rewrite He).
  destruct Hv' as [|(n1 & t1 & t2 & Hl & Hr & Hs)]; [auto|].
  rewrite Hv, lookup_insert_eq in Hl. injection Hl as <-. rewrite Hv, insert_insert_eq in Hs.
  right. destruct Hr as [->|(_ & _ & ->)]; [|by exists t].
  exists (apply_partial_update n1 u t). split_and!; [done| |done].
  destruct Ht as (? & ? & ? & _). split_and!; [done..|by right].
Qed.

(** Steps that leave the stored transactions and the counters alone, before a continuation. *)
Lemma wp_inert_bind {E A B} (w0 w : W S C) (c : M (W S C) E A) (k : A -> M (W S C) E B) Q :
  preserves same_both c -> same_both w0 w ->
  (forall e w', same_both w0 w' -> Q (Err e) w') ->
  (forall a w', same_both w0 w' -> wp (k a) Q w') -> wp (bindM c k) Q w.
Proof.
  intros Hc Hw He Hk. eapply (wp_bind_keeps (same_both w0)); [|done|done|by intros a w' _; apply Hk].
  eapply keeps_of_preserves; [|exact Hc]. intros w1 w2 H12 H01. by etransitivity.
Qed.

(** Creation stores the model under an unused id; where it fails it may have stored it. *)
Lemma wp_create_bind {E B} (w0 w : W S C) f t (k : TransactionRepoModel -> M (W S C) E B) Q :
  same_both w0 w ->
  (forall e w', view w' = view w0 \/
     (view w0 !! tx_id t = None /\ view w' = <[tx_id t := t]> (view w0)) -> Q (Err e) w') ->
  (forall w', view w0 !! tx_id t = None -> view w' = <[tx_id t := t]> (view w0) ->
     counters w' = counters w0 -> wp (k t) Q w') ->
  wp (bindM (map_errM f (repo_call (repo_create t))) k) Q w.
Proof.
  intros [Hv Hc] He Hk. unfold wp, bindM, map_errM, repo_call. unfold same_view, same_ctr in *.
  pose proof (repo_create_spec t (w_repo w)) as Hs. unfold wp in Hs.
  destruct (repo_create t (w_repo w)) as [r s']. simpl in *. fold (view w) in Hs.
  rewrite Hv in Hs. destruct Hs as [(Hn & Hs & Hr)|[Hs [e ->]]].
  - destruct r as [t'|e]; simpl; [rewrite (Hr t' eq_refl)|].
    + apply Hk; [done|by rewrite view_set_repo|]. unfold counters. rewrite <- Hc. by destruct w.
    + apply He. right. by rewrite view_set_repo.
  - simpl. apply He. left. by rewrite view_set_repo.
Qed.

Lemma gap_filling_filler id ca n d : filler n (gap_filling_model relayer id ca n (with_nonce d n)).
Proof. split_and!; [done| |done|by left]. unfold tx_nonce. simpl. by autorewrite with nonce_db. Qed.

Lemma create_noop_spec n (w : W S C) :
  wp (create_gap_filling_noop relayer n) (fun r w' =>
    attempted n w w' /\ forall t, r = Ok t -> held_active w' n) w.
Proof.
  unfold create_gap_filling_noop.
  do 5 (eapply (wp_inert_bind w); [unfold relayer_network; preserve | done |
    by intros ? ? [? _]; split; [left|] | intros ? ? ?]).
  set (t := gap_filling_model _ _ _ _ _).
  assert (Ht : filler n t) by apply gap_filling_filler.
  eapply (wp_create_bind w); [done| |].
  { intros e w9 [Hv|[Hn Hv]]; (split; [|done]); [by left | right; eauto]. }
  intros w1 Hn Hv _.
  assert (Hq : forall w', same_both w1 w' -> attempted n w w' /\ held_active w' n).
  { intros w9 [Hv' _]. unfold same_view in Hv'. rewrite Hv in Hv'. split; [right; eauto|].
    exists (tx_id t), t. rewrite Hv', lookup_insert_eq. by destruct Ht as (? & ? & _). }
  eapply (wp_inert_bind w1); [preserve | done | by intros e w9 []%Hq; split; [|done] |].
  intros r1 w2 Hs2. eapply (wp_inert_bind w1);
    [unfold schedule_initial_status_check; preserve | done | by intros e w9 []%Hq; split; [|done] |].
  intros r2 w3 Hs3. assert (Hdone : wp (retM (E := RelayerError.t) t) (fun r w' =>
    attempted n w w' /\ forall t', r = Ok t' -> held_active w' n) w3).
  { by destruct (Hq w3 Hs3). }
  destruct r1; [exact Hdone|]. destruct r2; [exact Hdone|].
  pose proof (fail_unscheduled_spec n t "Gap-filling NOOP could not be scheduled" w w3 Hn Ht
    ltac:(by rewrite (proj1 Hs3))) as Ha.
  unfold wp, bindM. by destruct (fail_unscheduled _ _ w3) as [[] ?].
Qed.

Lemma find_active_spec n (w : W S C) :
  wp (find_active_tx_for_nonce relayer n) (fun r w' => same_both w w' /\
    forall t, r = Ok (Some t) -> held_active w' n) w.
Proof.
  assert (Hp : preserves (W := W S C) same_both (find_active_tx_for_nonce relayer n)).
  { unfold find_active_tx_for_nonce. preserve. apply same_both_find_nonce. }
  specialize (Hp w). unfold wp. split; [done|]. revert Hp.
  unfold find_active_tx_for_nonce, bindM, map_errM, repo_call.
  pose proof (find_by_nonce_exact (rel_id relayer) n (w_repo w)) as Hs.
  destruct (repo_find_by_nonce _ _ _) as [[[t|]|e] s']; simpl in *; intros [Hv _]; [|done..].
  destruct (is_active_nonce_status _) eqn:Ha; [|done]. intros t' _.
  destruct Hs as [Hs _]. destruct (Hs t eq_refl) as ((id & Hid) & ? & ?).
  exists id, t. unfold same_view in Hv. by rewrite Hv.
Qed.

(** The store grew by fillers of [gaps]. *)
Definition grown (gaps : list Z) (w w' : W S C) : Prop :=
  view w ⊆ view w' /\
  forall id t, view w' !! id = Some t ->
    view w !! id = Some t \/ view w !! id = None /\ exists n, n ∈ gaps /\ filler n t.

Lemma grown_attempted n gaps w w' : n ∈ gaps -> attempted n w w' -> grown gaps w w'.
Proof.
  intros Hin [Hv|(t & Hn & Ht & Hv)]; split; rewrite Hv; [done|by left| |].
  - by apply insert_subseteq.
  - intros id t' [[<- <-]|[_ Hl]]%lookup_insert_Some; [right; eauto | by left].
Qed.

Lemma grown_trans gaps w w1 w2 : grown gaps w w1 -> grown gaps w1 w2 -> grown gaps w w2.
Proof.
  intros [Hs Hg] [Hs' Hg']. split; [by etransitivity|]. intros id t Hl.
  destruct (Hg' id t Hl) as [Hl1|[Hn1 Hf]]; [by apply Hg|]. right. split; [|done].
  destruct (view w !! id) as [t0|] eqn:He; [|done].
  by rewrite (lookup_weaken _ _ _ _ He Hs) in Hn1.
Qed.

Lemma grown_mono gaps gaps' w w' : gaps ⊆ gaps' -> grown gaps w w' -> grown gaps' w w'.
Proof.
  intros Hsub [Hs Hg]. split; [done|]. intros id t Hl.
  destruct (Hg id t Hl) as [|[? (n & ? & ?)]]; [by left|right; split; [done|exists n; auto]].
Qed.

Lemma held_active_mono w w' n : view w ⊆ view w' -> held_active w n -> held_active w' n.
Proof. intros Hs (id & t & Hl & Hr). exists id, t. split; [by eapply lookup_weaken|done]. Qed.

(** Filling gaps adds fillers and nothing else.  Every stored transaction stays as it is;
    every new one is a NOOP of the relayer whose nonce is one of the gaps, pending, or failed
    where neither of its jobs could be queued; and when the run, started with a count of [k0],
    ends with [k], at most [length gaps - (k - k0)] of the gaps are left without an active
    transaction (a gap found taken is left alone, a gap whose filler cannot be created is
    skipped). *)
Theorem filling_adds_fillers gaps k0 (w : W S C) :
  wp (fill_gaps relayer gaps k0) (fun r w' => grown gaps w w' /\
    forall k, r = Ok k -> exists failed,
      k + Z.of_nat (length failed) <= k0 + Z.of_nat (length gaps) /\
      forall n, n ∈ gaps -> n ∈ failed \/ held_active w' n) w.
Proof.
  revert k0 w. induction gaps as [|n gaps IH]; intros k0 w; cbn [fill_gaps].
  { split; [split; [done|by left]|]. intros k [= <-]. exists []. simpl.
    split; [lia|]. by intros ? ?%elem_of_nil. }
  assert (Hrest : forall k1 w1 (b : bool), grown (n :: gaps) w w1 ->
    k1 <= k0 + (if b then 1 else 0) -> (b = true -> held_active w1 n) -> 
    wp (fill_gaps relayer gaps k1) (fun r w' => grown (n :: gaps) w w' /\
      forall k, r = Ok k -> exists failed,
        k + Z.of_nat (length failed) <= k0 + Z.of_nat (length (n :: gaps)) /\
        forall m, m ∈ n :: gaps -> m ∈ failed \/ held_active w' m) w1).
  { intros k1 w1 b Hg Hk Hb. eapply wp_mono; [|apply IH]. simpl. intros r w' [Hg' Hr]. split.
    { eapply grown_trans; [done|]. eapply grown_mono; [|done]. by right. }
    intros k Hk'. destruct (Hr k Hk') as (failed & Hlen & Hall). destruct b.
    - exists failed. split; [lia|]. intros m [->|Hm]%elem_of_cons; [right|by apply Hall].
      eapply held_active_mono; [apply Hg'|by apply Hb].
    - exists (n :: failed). simpl. split; [lia|]. intros m [->|Hm]%elem_of_cons; [left; left|].
      destruct (Hall m Hm); [left; by right|by right]. }
  apply wp_bind. eapply wp_mono; [|apply find_active_spec].
  intros [o|e] w1 [[Hv _] Ha]; unfold same_view in Hv;
    (assert (Hg1 : grown (n :: gaps) w w1) by (apply (grown_attempted n); [left | by left]));
    [|by split].
  destruct o as [t|]; [apply (Hrest k0 w1 true); [done|lia|eauto]|].
  apply wp_bind, wp_try. eapply wp_mono; [|apply create_noop_spec]. simpl.
  intros [t|e] w2 [Hat Hh];
    (assert (Hg2 : grown (n :: gaps) w w2)
       by (eapply grown_trans; [done|]; eapply grown_attempted; [left|done])).
  - apply (Hrest (k0 + 1) w2 true); [done|lia|eauto].
  - by apply (Hrest k0 w2 false); [|lia|].
Qed.
End Health.

(** ** Instances *)

Section Witnesses.
#[local] Existing Instances sample_chrono sample_config sample_order sample_calculator.

(** The account is at 5. *)
Definition hole_env : Env := sample_env (seconds 10) (fun _ => Ok None) 100 5 (Ok "0xf0"%string).
#[local] Existing Instance hole_env.

(** Nonce 5 is on its way, 7 has failed, 6 is missing, and the counter has run ahead to 12. *)
Definition hole_world : World InMemory.state (gmap CounterKey Z) :=
  sample_world [sample_tx "tx1" Submitted ["0xh1"%string] (sample_data (Some 5) None None);
                sample_tx "tx2" Failed [] (sample_data (Some 7) None None)]
    {[("relayer", "0xa1")%string := 12]}.

Lemma hole_view id t :
  view hole_world !! id = Some t ->
  t = sample_tx "tx1" Submitted ["0xh1"%string] (sample_data (Some 5) None None) \/
  t = sample_tx "tx2" Failed [] (sample_data (Some 7) None None).
Proof.
  change (view hole_world) with
    (<["tx1"%string := sample_tx "tx1" Submitted ["0xh1"%string] (sample_data (Some 5) None None)]>
     (<["tx2"%string := sample_tx "tx2" Failed [] (sample_data (Some 7) None None)]>
      (∅ : gmap string TransactionRepoModel))).
  intros [[_ <-]|[_ [[_ <-]|[_ []%lookup_empty_Some]]%lookup_insert_Some]]%lookup_insert_Some; auto.
Qed.

Lemma detected_gaps_exact_witness :
  exists gaps, fst (detect_nonce_gaps sample_relayer (Some 5) None hole_world) = Ok gaps /\
    6 ∈ gaps /\ 5 ∉ gaps.
Proof.
  destruct (detected_gaps_exact sample_relayer 5 None hole_world) as [_ Hg].
  - done.
  - intros id1 id2 t1 t2 n Ht1%hole_view _ Hn1 Ht2%hole_view _ Hn2.
    destruct Ht1 as [-> | ->], Ht2 as [-> | ->]; first [done | vm_compute in Hn1, Hn2; congruence].
  - destruct (fst (detect_nonce_gaps sample_relayer (Some 5) None hole_world)) as [gaps|] eqn:Hr;
      [|vm_compute in Hr; discriminate].
    exists gaps. split; [done|]. split.
    + apply (Hg gaps eq_refl 6). split; [vm_compute; by split|]. split.
      * intros (id & t & Ht%hole_view & _ & Hn & _). by destruct Ht as [-> | ->].
      * exists 7. split; [vm_compute; by split|]. eexists "tx2"%string, _.
        split; [reflexivity|]. by split.
    + intros (_ & Hno & _)%(Hg gaps eq_refl 5). apply Hno. eexists "tx1"%string, _.
      split; [reflexivity|]. by repeat split.
Defined.
End Witnesses.
