(* ===== verification/JobHandlers.v ===== *)
(** * Job handlers

    The workers of [jobs/handlers]: the ones that take transaction requests, submissions and
    status checks from the queues and run the transaction handlers on them, and what becomes
    of the job afterwards (done, retried or aborted). *)

From S2P Require Import Prelude Decimal Errors Model Config Repository Counter Jobs Effects.
From S2P Require Import Sample EvmUtils EvmTransaction EvmStatus Lifecycle NonceAssignment.
From S2P Require Import EvmProperties EvmRelayer NonceHealth.
Open Scope Z_scope.

(** ** Errors *)

Module ApiError.
Inductive t : Type :=
| InternalEyreError (report : string)
| InternalError (msg : string)
| NotFound (msg : string)
| BadRequest (msg : string)
| Unauthorized (msg : string)
| NotSupported (msg : string)
| ForbiddenError (msg : string)
| Conflict (msg : string)
| UnprocessableEntity (msg : string).
End ApiError.

Definition api_error_display (e : ApiError.t) : string :=
  match e with
  | ApiError.InternalEyreError m | ApiError.InternalError m => "Internal Server Error: " +:+ m
  | ApiError.NotFound m => "Not Found: " +:+ m
  | ApiError.BadRequest m => "Bad Request: " +:+ m
  | ApiError.Unauthorized m => "Unauthorized: " +:+ m
  | ApiError.NotSupported m => "Not Supported: " +:+ m
  | ApiError.ForbiddenError m => "Forbidden: " +:+ m
  | ApiError.Conflict m => "Conflict: " +:+ m
  | ApiError.UnprocessableEntity m => "Unprocessable Entity: " +:+ m
  end.

Definition api_error_of_repository (e : RepositoryError.t) : ApiError.t :=
  match e with
  | RepositoryError.NotFound m => ApiError.NotFound m
  | RepositoryError.Unknown m => ApiError.InternalError m
  | _ => ApiError.InternalError "An unknown error occurred"
  end.

Definition solana_validation_error_display (e : SolanaTransactionValidationError.t) : string :=
  match e with
  | SolanaTransactionValidationError.DecodeError m => "Failed to decode transaction: " +:+ m
  | SolanaTransactionValidationError.DeserializeError m =>
      "Failed to deserialize transaction: " +:+ m
  | SolanaTransactionValidationError.SigningError m => "Validation error: " +:+ m
  | SolanaTransactionValidationError.PolicyViolation m => "Policy violation: " +:+ m
  | SolanaTransactionValidationError.ExpiredBlockhash m => "Blockhash " +:+ m +:+ " is expired"
  | SolanaTransactionValidationError.ValidationError m => "Validation error: " +:+ m
  | SolanaTransactionValidationError.FeePayer m => "Fee payer error: " +:+ m
  | SolanaTransactionValidationError.InsufficientFunds m => "Insufficient funds: " +:+ m
  | SolanaTransactionValidationError.InsufficientBalance m => "Insufficient balance: " +:+ m
  | SolanaTransactionValidationError.UnderlyingSolanaProvider e =>
      "Underlying Solana provider error: " +:+ solana_provider_error_display e
  end.

Definition stellar_validation_error_display (e : StellarTransactionValidationError.t) : string :=
  match e with
  | StellarTransactionValidationError.ValidationError m => "Validation error: " +:+ m
  | StellarTransactionValidationError.PolicyViolation m => "Policy violation: " +:+ m
  | StellarTransactionValidationError.InvalidAssetIdentifier m =>
      "Invalid asset identifier: " +:+ m
  | StellarTransactionValidationError.TokenNotAllowed m => "Token not allowed: " +:+ m
  | StellarTransactionValidationError.InsufficientTokenPayment a b =>
      "Insufficient token payment: expected " +:+ print_dec a +:+ ", got " +:+ print_dec b
  | StellarTransactionValidationError.MaxFeeExceeded a => "Max fee exceeded: " +:+ print_dec a
  end.

Definition transaction_error_display (e : TransactionError.t) : string :=
  match e with
  | TransactionError.ValidationError m => "Transaction validation error: " +:+ m
  | TransactionError.SolanaValidation e =>
      "Solana transaction validation error: " +:+ solana_validation_error_display e
  | TransactionError.NetworkConfiguration m => "Network configuration error: " +:+ m
  | TransactionError.JobProducerError e =>
      "Job producer error: " +:+ job_producer_error_display e
  | TransactionError.InvalidType m => "Invalid transaction type: " +:+ m
  | TransactionError.UnderlyingProvider e =>
      "Underlying provider error: " +:+ provider_error_display e
  | TransactionError.UnderlyingSolanaProvider e =>
      "Underlying Solana provider error: " +:+ solana_provider_error_display e
  | TransactionError.StellarTransactionValidationError e =>
      "Stellar validation error: " +:+ stellar_validation_error_display e
  | TransactionError.UnexpectedError m => "Unexpected error: " +:+ m
  | TransactionError.ConcurrentUpdateConflict m => "Concurrent update conflict: " +:+ m
  | TransactionError.NotSupported m => "Not supported: " +:+ m
  | TransactionError.SignerError m => "Signer error: " +:+ m
  | TransactionError.InsufficientBalance m => "Insufficient balance: " +:+ m
  | TransactionError.SimulationFailed m => "Stellar transaction simulation failed: " +:+ m
  end.

Definition api_error_of_transaction (e : TransactionError.t) : ApiError.t :=
  match e with
  | TransactionError.ValidationError m => ApiError.BadRequest m
  | TransactionError.StellarTransactionValidationError e =>
      ApiError.BadRequest (stellar_validation_error_display e)
  | TransactionError.SolanaValidation e =>
      ApiError.BadRequest (solana_validation_error_display e)
  | TransactionError.NetworkConfiguration m => ApiError.InternalError m
  | TransactionError.JobProducerError e => ApiError.InternalError (job_producer_error_display e)
  | TransactionError.InvalidType m => ApiError.InternalError m
  | TransactionError.UnderlyingProvider e => ApiError.InternalError (provider_error_display e)
  | TransactionError.UnderlyingSolanaProvider e =>
      ApiError.InternalError (solana_provider_error_display e)
  | TransactionError.NotSupported m => ApiError.BadRequest m
  | TransactionError.UnexpectedError m => ApiError.InternalError m
  | TransactionError.ConcurrentUpdateConflict m => ApiError.InternalError m
  | TransactionError.SignerError m => ApiError.InternalError m
  | TransactionError.InsufficientBalance m => ApiError.BadRequest m
  | TransactionError.SimulationFailed m => ApiError.BadRequest m
  end.

(** An [eyre::Report], by the error it was made of. *)
Inductive Report : Type :=
| RApi (e : ApiError.t)
| RRepository (e : RepositoryError.t)
| RTransaction (e : TransactionError.t)
| RMessage (msg : string).

Definition report_display (e : Report) : string :=
  match e with
  | RApi e => api_error_display e
  | RRepository e => repository_error_display e
  | RTransaction e => transaction_error_display e
  | RMessage m => m
  end.

(** What a worker tells the queue about a job that is not done. *)
Module HandlerError.
Inductive t : Type :=
| Retry (msg : string)
| NotYetFinal (status : TransactionStatus)
| Abort (msg : string).
End HandlerError.

(** ** Constants ([constants/worker.rs]) *)

Definition WORKER_TRANSACTION_REQUEST_RETRIES : Z := 5.
Definition WORKER_TRANSACTION_SUBMIT_RETRIES : Z := 0.
Definition WORKER_TRANSACTION_RESUBMIT_RETRIES : Z := 0.
Definition WORKER_TRANSACTION_CANCEL_RETRIES : Z := 0.
Definition WORKER_TRANSACTION_RESEND_RETRIES : Z := 0.

(** ** The outcome of a job ([handlers/mod.rs]) *)

Definition is_terminal_error (err : Report) : bool :=
  match err with
  | RApi (ApiError.NotFound _) | RRepository (RepositoryError.NotFound _) => true
  | _ => false
  end.

Definition handle_result (result : result Report unit) (attempt max_attempts : Z)
  : Prelude.result HandlerError.t unit :=
  match result with
  | Ok _ => Ok tt
  | Err err =>
      if is_terminal_error err then
        Err (HandlerError.Abort "Terminal error: target entity not found, not retryable")
      else if max_attempts <=? attempt then
        Err (HandlerError.Abort "Failed to handle request")
      else Err (HandlerError.Retry "Failed to handle request. Retrying")
  end.

Definition get_max_retries (command : TransactionCommand.t) : Z :=
  match command with
  | TransactionCommand.Submit => WORKER_TRANSACTION_SUBMIT_RETRIES
  | TransactionCommand.Resubmit => WORKER_TRANSACTION_RESUBMIT_RETRIES
  | TransactionCommand.Cancel _ => WORKER_TRANSACTION_CANCEL_RETRIES
  | TransactionCommand.Resend => WORKER_TRANSACTION_RESEND_RETRIES
  end.

(** What the workers ask the rest of the service: the relayer and signer repositories, and
    whether the provider and the signer of a relayer can be constructed. *)
Class JobEnv := {
  relayers_by_id : nat -> string -> result RepositoryError.t RelayerRepoModel;
  signers_by_id : nat -> string -> result RepositoryError.t unit;
  service_fault : nat -> RelayerRepoModel -> option TransactionError.t;
}.

Section Handlers.
Context `{Chrono} `{ServerConfig} `{Env} `{PriceCalculator} `{JobEnv}.
Context {S C : Type} `{!TransactionRepository S} `{!TransactionCounter C}.

(** The handlers of the Solana and Stellar transactions. *)
Context (other_network :
  RelayerRepoModel -> handler -> TransactionRepoModel -> T S C TransactionRepoModel).

(** [RelayerTransactionFactory::create_transaction]; the transaction service is known by its
    relayer. *)
Definition create_transaction (relayer : RelayerRepoModel) : T S C RelayerRepoModel :=
  do* match rel_network_type relayer with
      | NtEvm =>
          let* r := try_ (call (fun t => networks_by_name t (rel_network relayer))) in
          let* m := liftM (ok_or (match r with Ok o => o | Err _ => None end)
            (TransactionError.NetworkConfiguration
               ("Network " +:+ rel_network relayer +:+ " not found"))) in
          let* _ := liftM (result_map_err (fun e => TransactionError.NetworkConfiguration
                      (repository_error_display e)) (evm_network_try_from m)) in
          retM tt
      | _ => retM tt
      end in
  let* fault := ask (fun t => service_fault t relayer) in
  match fault with
  | Some e => failM e
  | None => retM relayer
  end.

Definition get_relayer_transaction (relayer_id : string) : M (W S C) ApiError.t RelayerRepoModel :=
  let* relayer_model := map_errM api_error_of_repository
                          (call (fun t => relayers_by_id t relayer_id)) in
  do* map_errM api_error_of_repository
        (call (fun t => signers_by_id t (rel_signer_id relayer_model))) in
  map_errM api_error_of_transaction (create_transaction relayer_model).

Definition get_transaction_by_id (id : string) : M (W S C) ApiError.t TransactionRepoModel :=
  map_errM api_error_of_repository (repo_call (repo_get_by_id id)).

(** The [Transaction] trait of a [NetworkTransaction]. *)
Definition run_network (relayer : RelayerRepoModel) (h : handler) (tx : TransactionRepoModel)
  : T S C TransactionRepoModel :=
  match rel_network_type relayer with
  | NtEvm => run_handler relayer h tx
  | _ => other_network relayer h tx
  end.

(** ** Requests *)

Definition request_handle_request (request : TransactionRequest) : M (W S C) Report unit :=
  let* relayer := map_errM RApi (get_relayer_transaction (jr_relayer_id request)) in
  let* transaction := map_errM RApi (get_transaction_by_id (jr_transaction_id request)) in
  do* map_errM RTransaction (run_network relayer HPrepare transaction) in
  retM tt.

Definition transaction_request_handler (job : TransactionRequest) (attempt : Z)
  : M (W S C) HandlerError.t unit :=
  let* result := try_ (request_handle_request job) in
  liftM (handle_result result attempt WORKER_TRANSACTION_REQUEST_RETRIES).

(** ** Submissions *)

Definition submission_handle_request (request : TransactionSend) : M (W S C) Report unit :=
  let* relayer := map_errM RApi (get_relayer_transaction (js_relayer_id request)) in
  let* transaction := map_errM RApi (get_transaction_by_id (js_transaction_id request)) in
  do* map_errM RTransaction
        (match js_command request with
         | TransactionCommand.Submit => run_network relayer HSubmit transaction
         | TransactionCommand.Cancel _ => run_network relayer HSubmit transaction
         | TransactionCommand.Resubmit => run_network relayer HResubmit transaction
         | TransactionCommand.Resend => run_network relayer HSubmit transaction
         end) in
  retM tt.

Definition transaction_submission_handler (job : TransactionSend) (attempt : Z)
  : M (W S C) HandlerError.t unit :=
  let* result := try_ (submission_handle_request job) in
  liftM (handle_result result attempt (get_max_retries (js_command job))).

(** ** Status checks *)

Record HandleRequestResult := {
  hr_result : result Report TransactionRepoModel;
  hr_metadata : option TransactionMetadata;
  hr_should_retry_on_error : bool;
}.

Definition status_handle_request (request : TransactionStatusCheck) (attempt : Z)
  : M (W S C) HandlerError.t HandleRequestResult :=
  let* t := try_ (get_transaction_by_id (jc_transaction_id request)) in
  match t with
  | Err (ApiError.NotFound msg) =>
      retM {| hr_result := Err (RMessage ("Transaction not found: " +:+ msg));
              hr_metadata := None; hr_should_retry_on_error := false |}
  | Err e =>
      retM {| hr_result := Err (RApi e); hr_metadata := None; hr_should_retry_on_error := true |}
  | Ok transaction =>
      let meta := default metadata_default (tx_metadata transaction) in
      let network_type := tx_network_type transaction in
      let context :=
        {| ctx_consecutive_failures := consecutive_failures meta;
           ctx_total_failures := total_failures meta;
           ctx_total_retries := wrapu 32 attempt;
           ctx_max_consecutive_failures := get_max_consecutive_status_failures network_type;
           ctx_max_total_failures := get_max_total_status_failures network_type;
           ctx_network_type := network_type;
           ctx_job_metadata := jc_metadata request |} in
      let* rt := try_ (get_relayer_transaction (jc_relayer_id request)) in
      match rt with
      | Err (ApiError.NotFound msg) =>
          retM {| hr_result := Err (RMessage ("Relayer or signer not found: " +:+ msg));
                  hr_metadata := Some meta; hr_should_retry_on_error := false |}
      | Err e =>
          retM {| hr_result := Err (RApi e); hr_metadata := Some meta;
                  hr_should_retry_on_error := true |}
      | Ok relayer =>
          let* r := try_ (run_network relayer (HStatus (Some context)) transaction) in
          retM {| hr_result := result_map_err RTransaction r; hr_metadata := Some meta;
                  hr_should_retry_on_error := true |}
      end
  end.

Definition report_is_conflict (e : Report) : bool :=
  match e with RTransaction e => is_concurrent_update_conflict e | _ => false end.

Definition status_handle_result (tx_id : string) (res : HandleRequestResult)
  : M (W S C) HandlerError.t unit :=
  match hr_result res with
  | Ok tx =>
      if is_final_state (tx_status tx) then retM tt
      else
        let fresh_meta := match tx_metadata tx with Some m => Some m | None => hr_metadata res end in
        do* match fresh_meta with
            | Some meta =>
                if 0 <? consecutive_failures meta then
                  let* _ := try_ (repo_call (repo_reset_status_check_consecutive_failures tx_id)) in
                  retM tt
                else retM tt
            | None => retM tt
            end in
        failM (HandlerError.NotYetFinal (tx_status tx))
  | Err e =>
      if report_is_conflict e then retM tt
      else if negb (hr_should_retry_on_error res) then retM tt
      else
        do* match hr_metadata res with
            | Some _ =>
                let* _ := try_ (repo_call (repo_increment_status_check_failures tx_id)) in
                retM tt
            | None => retM tt
            end in
        failM (HandlerError.Retry (report_display e))
  end.

Definition transaction_status_handler (job : TransactionStatusCheck) (attempt : Z)
  : M (W S C) HandlerError.t unit :=
  let* res := status_handle_request job attempt in
  status_handle_result (jc_transaction_id job) res.
End Handlers.
