(* ===== verification/JobProperties.v ===== *)
(** * What the workers do to transactions

    A transaction that is taken in is watched until it is final; cancelling through the queue
    broadcasts instead of cancelling; and the circuit breaker leaves a Mined transaction
    Mined for ever once its status checks have failed too often. *)

From S2P Require Import Prelude Decimal Errors Model Config Repository Counter Jobs Effects.
From S2P Require Import Sample EvmUtils EvmTransaction EvmStatus Lifecycle NonceAssignment.
From S2P Require Import EvmProperties EvmRelayer NonceHealth JobHandlers.
Open Scope Z_scope.

Section Jobs.
Context `{Chrono} `{ServerConfig} `{Env} `{PriceCalculator} `{JobEnv}.
Context {S C : Type} `{!TransactionRepository S} `{!TransactionCounter C}.
Context (other_network :
  RelayerRepoModel -> handler -> TransactionRepoModel -> T S C TransactionRepoModel).

(** The lookups read only: they respect every relation that reads and queueing respect. *)
Lemma get_transaction_spec (R : W S C -> W S C -> Prop) `{!Inert R} id (w : W S C) :
  wp (get_transaction_by_id id) (fun r w' => R w w' /\
    forall t, r = Ok t -> view w !! id = Some t) w.
Proof.
  unfold wp. split.
  - assert (Hp : preserves (W := W S C) R (get_transaction_by_id id))
      by (unfold get_transaction_by_id; preserve).
    apply Hp.
  - unfold get_transaction_by_id, map_errM, repo_call.
    pose proof (repo_get_by_id_spec id (w_repo w)) as Hs. unfold wp in Hs.
    destruct (repo_get_by_id id (w_repo w)) as [[t|e] s']; simpl in *; [|done].
    intros ? [= <-]. by apply Hs.
Qed.

(** The relayer a service is created for is the one stored. *)
Lemma get_relayer_keeps (R : W S C -> W S C -> Prop) `{!Inert R} (I : W S C -> Prop) rid :
  (forall w w', R w w' -> I w -> I w') ->
  keeps I (get_relayer_transaction rid) (fun r => exists t, relayers_by_id t rid = Ok r).
Proof.
  intros HI. unfold get_relayer_transaction, create_transaction.
  apply (keeps_bind _ _ _ (fun r => exists t, relayers_by_id t rid = Ok r)).
  { apply keeps_map_err. intros w Hw. split.
    - eapply HI; [apply (inert_call (R := R) _ _ (fun t => relayers_by_id t rid) w)|done].
    - intros r Hr. by exists (w_tick w). }
  intros r Hr.
  eapply keeps_bind; [eapply keeps_of_preserves; [exact HI|preserve] | intros _ _].
  apply keeps_map_err.
  eapply keeps_bind; [eapply keeps_of_preserves; [exact HI|preserve] | intros _ _].
  eapply keeps_bind; [eapply keeps_of_preserves; [exact HI|preserve] | intros o _].
  destruct o; [apply keeps_fail|by apply keeps_ret].
Qed.

(** ** A Mined transaction whose checks have failed too often *)

(** Transaction [id] is Mined, not a NOOP, and its total of failed checks has reached the
    limit of the circuit breaker. *)
Definition stuck_mined (id : string) (w : W S C) : Prop :=
  exists t d, view w !! id = Some t /\ tx_status t = Mined /\ tx_network_type t = NtEvm /\
    tx_network_data t = EvmData d /\ is_noop d = false /\
    get_max_total_status_failures NtEvm <=
      total_failures (default metadata_default (tx_metadata t)).

Lemma stuck_mined_same id (w w' : W S C) : view w' = view w -> stuck_mined id w -> stuck_mined id w'.
Proof. unfold stuck_mined. by intros ->. Qed.

(** A call that counts a failed or a successful check: it touches the metadata of transaction
    [id] only, and the total does not go down (but for the end of its range). *)
Definition counts (id : string) (w w' : W S C) : Prop :=
  counters w' = counters w /\
  (view w' = view w \/
   exists t m, view w !! id = Some t /\ view w' = <[id := set_tx_metadata (Some m) t]> (view w) /\
     Z.min u32_max (total_failures (default metadata_default (tx_metadata t))) <= total_failures m).

Lemma increment_counts id (w : W S C) :
  counts id w (snd (repo_call (repo_increment_status_check_failures id) w)).
Proof.
  unfold repo_call. pose proof (repo_increment_status_check_failures_spec id (w_repo w)) as Hs.
  unfold wp in Hs. destruct (repo_increment_status_check_failures id (w_repo w)) as [r s'].
  simpl in *. split; [by destruct w|]. rewrite view_set_repo.
  destruct Hs as [(t & m & Hl & _ & Hm & Hs)|Hs]; [right|by left]. exists t, m. split_and!; try done.
  injection Hm as _ ->. unfold sat_add. lia.
Qed.

Lemma reset_counts id (w : W S C) :
  counts id w (snd (repo_call (repo_reset_status_check_consecutive_failures id) w)).
Proof.
  unfold repo_call.
  pose proof (repo_reset_status_check_consecutive_failures_spec id (w_repo w)) as Hs.
  unfold wp in Hs. destruct (repo_reset_status_check_consecutive_failures id (w_repo w)) as [r s'].
  simpl in *. split; [by destruct w|]. rewrite view_set_repo.
  destruct Hs as [(t & m & Hl & _ & Hm & Hs)|Hs]; [right|by left]. exists t, m. split_and!; try done.
  injection Hm as _ ->. lia.
Qed.

(** What follows the check keeps what the counting calls keep. *)
Lemma status_result_keeps (I : W S C -> Prop) id res :
  (forall w w', counts id w w' -> I w -> I w') ->
  keeps I (status_handle_result id res) (fun _ => True).
Proof.
  intros HI. unfold status_handle_result.
  assert (Htry : forall (c : M (W S C) RepositoryError.t TransactionRepoModel),
    (forall w, counts id w (snd (c w))) ->
    keeps I (let* _ := try_ (E' := HandlerError.t) c in retM tt) (fun _ => True)).
  { intros c Hc. apply (keeps_bind _ _ _ (fun _ => True)); [|intros; by apply keeps_ret].
    intros w Hw. split; [|done]. unfold try_. specialize (Hc w).
    destruct (c w) as [r w']. by eapply HI. }
  repeat (case_match; try by apply keeps_ret).
  all: eapply keeps_bind with (P := fun _ => True); [|intros; apply keeps_fail].
  all: try by apply keeps_ret.
  all: apply Htry; [apply reset_counts || apply increment_counts].
Qed.

Lemma stuck_mined_counts id (w w' : W S C) : counts id w w' -> stuck_mined id w -> stuck_mined id w'.
Proof.
  intros [_ [Hv|(t & m & Hl & Hv & Hm)]]; [by apply stuck_mined_same|].
  intros (t' & d & Hv' & Hs & Hn & Hd & Hnoop & Ht). assert (t' = t) as -> by congruence.
  exists (set_tx_metadata (Some m) t), d. rewrite Hv, lookup_insert_eq.
  destruct t; simpl in *. split_and!; try done. unfold u32_max in Hm. lia.
Qed.

Section Mined.
Context (id rid : string).
Hypothesis evm_relayer : forall t r, relayers_by_id t rid = Ok r -> rel_network_type r = NtEvm.

(** The check itself takes the branch of the circuit breaker and changes nothing. *)
Lemma mined_breaker_idle relayer t d ctx (w : W S C) :
  rel_network_type relayer = NtEvm -> tx_status t = Mined -> tx_network_data t = EvmData d ->
  is_noop d = false -> should_force_finalize ctx = true ->
  run_network other_network relayer (HStatus (Some ctx)) t w = (Ok t, w).
Proof.
  intros Hr Hs Hd Hn Hf. unfold run_network. rewrite Hr. simpl. unfold handle_status_impl.
  rewrite Hs, Hd. simpl. rewrite Hf, Hn. simpl. unfold handle_circuit_breaker_safely.
  by rewrite Hs.
Qed.

Lemma stuck_mined_request job attempt :
  jc_transaction_id job = id -> jc_relayer_id job = rid ->
  keeps (stuck_mined id) (status_handle_request other_network job attempt) (fun _ => True).
Proof.
  intros Hid Hrid. unfold status_handle_request. rewrite Hid, Hrid.
  intros w Hw. split; [|done].
  refine (_ : wp _ (fun _ w' => stuck_mined id w') w). apply wp_bind, wp_try.
  eapply wp_mono; [|apply (get_transaction_spec quiet)]. intros r w1 [(Hv1 & _) Ht].
  assert (Hw1 : stuck_mined id w1) by by eapply stuck_mined_same.
  destruct r as [t|e]; [|by destruct e].
  specialize (Ht t eq_refl). destruct Hw as (t' & d & Hv & Hs & Hn & Hd & Hnoop & Hm).
  assert (t' = t) as -> by congruence.
  eapply wp_bind_keeps; [apply keeps_try, (get_relayer_keeps quiet) |exact Hw1|done|].
  { intros w2 w3 (? & _). by apply stuck_mined_same. }
  intros [relayer|e] w2 Hrel Hw2; [|by destruct e].
  destruct (Hrel relayer eq_refl) as [k Hk]. apply wp_bind, wp_try. unfold wp.
  rewrite (mined_breaker_idle _ _ d); try done; [by eapply evm_relayer|].
  unfold should_force_finalize. simpl. rewrite Hn. apply orb_true_intro. right. by apply Z.leb_le.
Qed.

(** C39. A Mined EVM transaction that is not a NOOP and whose status checks have
    failed 75 times in total, stays Mined.  Each further check takes the branch of the circuit
    breaker, which returns such a transaction as it is; the total is never reset, so no number
    of checks, whatever the node answers, looks at the receipt again: the transaction is never
    confirmed.  (A NOOP is exempt: its checks keep to the normal flow.) *)
Theorem mined_never_confirmed (jobs : list (TransactionStatusCheck * Z)) (w : W S C) :
  Forall (fun j => jc_transaction_id (fst j) = id /\ jc_relayer_id (fst j) = rid) jobs ->
  stuck_mined id w ->
  stuck_mined id (foldl (fun w '(job, attempt) =>
    snd (transaction_status_handler other_network job attempt w)) w jobs).
Proof.
  intros Hjobs. revert w. induction Hjobs as [|[job attempt] jobs [Hid Hrid] _ IH]; [done|].
  simpl in *. intros w Hw. apply IH.
  assert (Hk : keeps (stuck_mined id) (transaction_status_handler other_network job attempt)
                 (fun _ => True)).
  { eapply keeps_bind; [by apply stuck_mined_request|]. intros res _. rewrite Hid.
    apply status_result_keeps. intros w1 w2. apply stuck_mined_counts. }
  by apply Hk.
Qed.
End Mined.

(** ** Cancelling through the queue *)

(** A send job that is not a resubmission, when it succeeds, broadcasts the stored bytes. *)
Lemma send_job_broadcasts j tx d raw (w : W S C) :
  js_command j <> TransactionCommand.Resubmit ->
  (forall t r, relayers_by_id t (js_relayer_id j) = Ok r -> rel_network_type r = NtEvm) ->
  view w !! js_transaction_id j = Some tx -> status_in (tx_status tx) submit_allowed = true ->
  tx_network_data tx = EvmData d -> evm_raw d = Some raw ->
  wp (submission_handle_request other_network j) (fun r w' =>
    r = Ok tt -> w_sent w' = w_sent w ++ [raw]) w.
Proof.
  intros Hc Hevm Hv Hs Hd Hraw. unfold submission_handle_request.
  eapply (wp_bind_keeps (fun w1 => quiet w w1)); [apply keeps_map_err, (get_relayer_keeps quiet)|done|done|].
  { intros w1 w2 Hq12 Hq1. by etransitivity. }
  intros relayer w1 [k Hk] (Hv1 & Hs1 & _). apply wp_bind, wp_map_err.
  eapply wp_mono; [|apply (get_transaction_spec quiet)]. intros [t|e] w2 [(Hv2 & Hs2 & _) Ht]; [|done].
  cbn [result_map_err]. specialize (Ht t eq_refl). assert (t = tx) as -> by congruence.
  apply wp_bind, wp_map_err. replace (match js_command j with TransactionCommand.Submit => _ | _ => _ end)
    with (run_network other_network relayer HSubmit tx) by by destruct (js_command j).
  unfold run_network. rewrite (Hevm k relayer Hk). unfold wp. cbn [run_handler].
  pose proof (submit_sent relayer tx d raw w2 Hs Hd Hraw) as Hsent.
  destruct (submit_transaction relayer tx w2) as [[t|e] w3]; simpl in *; [|done]. congruence.
Qed.

Lemma quiet_tick (w : W S C) : quiet w (tick w).
Proof. by destruct w. Qed.

Lemma push_job_quiet job (w : W S C) :
  quiet w (push_job job (tick w)) /\ job ∈ w_jobs (push_job job (tick w)).
Proof.
  destruct w. split; [split_and!; [done..|by apply prefix_app_r]|].
  simpl. apply elem_of_app. right. by apply list_elem_of_singleton.
Qed.

(** The jobs that [delete_pending_transactions] queues. *)
Definition delete_job (rid id : string) : TransactionSend :=
  send_cancel id rid "Cancelled via delete_pending_transactions".

Lemma cancel_all_spec rid txs cs fs (w : W S C) :
  Forall (fun t => tx_relayer_id t = rid) txs ->
  wp (cancel_all txs cs fs) (fun r w' => view w' = view w /\ w_sent w' = w_sent w /\
    exists ids fs', r = Ok (cs ++ ids, fs') /\
      w_jobs w' = w_jobs w ++ ((fun id => JSend (delete_job rid id) None) <$> ids)) w.
Proof.
  intros Hrid. revert cs fs w. induction Hrid as [|t txs Ht _ IH]; intros cs fs w; simpl.
  { split_and!; [done..|]. exists [], fs. by rewrite !app_nil_r. }
  apply wp_bind, wp_try. unfold cancel_transaction_via_job. apply wp_map_err. unfold wp at 1, produce.
  rewrite Ht. fold (delete_job rid (tx_id t)). destruct w.
  destruct (queue_fault _); cbn [fst snd result_map_err]; (eapply wp_mono; [|apply IH]);
    intros r w' (Hv & Hs & ids & fs' & -> & Hj); (split_and!; [done..|]).
  - by exists ids, fs'.
  - exists (tx_id t :: ids), fs'. rewrite Hj. simpl. by rewrite <- !app_assoc.
Qed.

(** C40. Deleting the pending transactions of an EVM relayer does not cancel them, it broadcasts
    them.  The call itself changes no stored transaction and sends nothing; the jobs it queues
    are exactly one Cancel job for each transaction it reports as queued for cancellation.  When
    the worker runs such a job on a Sent or Submitted transaction and succeeds, the signed bytes
    of that transaction have been sent to the network. *)
Theorem delete_pending_broadcasts relayer (w : W S C) :
  (forall t r, relayers_by_id t (rel_id relayer) = Ok r -> rel_network_type r = NtEvm) ->
  wp (delete_pending_transactions relayer) (fun r w' => view w' = view w /\ w_sent w' = w_sent w /\
    w_jobs w' = w_jobs w ++ match r with
      | Ok resp => (fun id => JSend (delete_job (rel_id relayer) id) None) <$>
          queued_for_cancellation_transaction_ids resp
      | Err _ => []
      end) w /\
  forall id tx d raw (w1 : W S C), view w1 !! id = Some tx ->
    status_in (tx_status tx) submit_allowed = true ->
    tx_network_data tx = EvmData d -> evm_raw d = Some raw ->
    wp (submission_handle_request other_network (delete_job (rel_id relayer) id)) (fun r w2 =>
      r = Ok tt -> w_sent w2 = w_sent w1 ++ [raw]) w1.
Proof.
  intros Hevm. split.
  2: { intros id tx d raw w1 Hv Hs Hd Hraw. by eapply send_job_broadcasts. }
  unfold delete_pending_transactions. apply wp_bind, wp_map_err.
  unfold wp at 1, repo_call.
  pose proof (repo_find_by_status_spec (rel_id relayer) [Pending; Sent; Submitted] (w_repo w)) as Hf.
  unfold wp in Hf. destruct (repo_find_by_status _ _ _) as [[l|e] s']; simpl in *;
    destruct Hf as [Hs' Hf]; rewrite ?app_nil_r.
  - apply wp_bind. eapply wp_mono; [|apply (cancel_all_spec (rel_id relayer)), Forall_forall].
    + intros r w2 (Hv & Hs & ids & fs' & -> & Hj). rewrite view_set_repo in Hv. unfold wp. simpl.
      rewrite Hv, Hs, Hj. by destruct w.
    + intros t Ht. by destruct (Hf l t eq_refl Ht) as (_ & ? & _).
  - rewrite view_set_repo. by destruct w.
Qed.

(** ** Intake *)

Section Intake.
Context (relayer : RelayerRepoModel) (network : EvmNetwork) (id : string).

Definition watched (w : W S C) : Prop :=
  exists on, JStatusCheck (status_check_for_evm_network id (rel_id relayer) network) (Some on)
    ∈ w_jobs w.

(** A new transaction of the relayer, in [status]. *)
Definition taken_in (status : TransactionStatus) (t : TransactionRepoModel) : Prop :=
  tx_id t = id /\ tx_relayer_id t = rel_id relayer /\ tx_nonce t = None /\ tx_status t = status.

Lemma evm_transaction_model_spec ca request nm t :
  evm_transaction_model relayer id ca request nm = Ok t -> taken_in Pending t.
Proof.
  unfold evm_transaction_model. destruct (evm_network_try_from nm); simpl; [|done]. by intros [= <-].
Qed.

(** The store failed a write that intake relies on: the creation of [t], although [t] is now
    stored, or the update that marks it Failed. *)
Definition write_failed (v : gmap string TransactionRepoModel) (t : TransactionRepoModel) : Prop :=
  (exists (s : S) e, repo_view s = v /\ fst (repo_create t s) = Err e) \/
  (exists n (s : S) e, repo_view s = <[tx_id t := t]> v /\
     fst (repo_partial_update n (tx_id t)
       (upd_with_reason (Some "Queue unavailable"%string) (upd_with_status Failed)) s) = Err e).

(** The failure of the first job is recorded, unless the store fails. *)
Lemma fail_unscheduled_stored t m (w : W S C) :
  taken_in Pending t -> view w = <[id := t]> m ->
  exists t', view (snd (fail_unscheduled t "Queue unavailable" w)) = <[id := t']> m /\
    (taken_in Failed t' \/ (t' = t /\ write_failed m t)).
Proof.
  intros (Hid & Hr & Hn & Hs) Hv. unfold fail_unscheduled, bindM, try_.
  set (u := upd_with_reason _ _). unfold partial_update_r, bindM, now, ask.
  assert (Hv1 : view (tick w) = <[tx_id t := t]> m) by (rewrite Hid; by destruct w).
  unfold repo_call. set (n := env_now (w_tick w)).
  pose proof (repo_partial_update_spec n (tx_id t) u (w_repo (tick w))) as Hspec. unfold wp in Hspec.
  destruct (repo_partial_update n (tx_id t) u (w_repo (tick w))) as [r s'] eqn:Hu. simpl in *.
  fold (view (tick w)) in Hspec. rewrite Hv1, view_set_repo in *.
  destruct Hspec as [(t2 & t3 & Hl & Hres & Hs' & _)|[Hs' [e ->]]].
  - rewrite lookup_insert_eq in Hl. injection Hl as <-. rewrite insert_insert_eq, Hid in Hs'.
    destruct Hres as [->|(Hf & _)]; [|by rewrite Hs in Hf].
    eexists. split; [exact Hs'|]. left. split_and!; [done|done|exact Hn|done].
  - exists t. rewrite Hs', Hid. split; [done|]. right. split; [done|]. right.
    exists n, (w_repo (tick w)), e. split; [done|]. exact (f_equal fst Hu).
Qed.

Lemma schedule_spec tx (w : W S C) :
  tx_id tx = id -> tx_relayer_id tx = rel_id relayer ->
  wp (schedule_initial_status_check tx network) (fun r w' => quiet w w' /\
    (r = Ok tt -> watched w')) w.
Proof.
  intros Hid Hr. unfold schedule_initial_status_check. rewrite Hid, Hr.
  eapply (wp_bind_keeps (quiet w)); [|done|done|].
  { eapply (keeps_of_preserves _ quiet); [|preserve].
    intros w1 w2 Hq12 Hq1. exact (transitivity Hq1 Hq12). }
  intros on w1 _ Hq. unfold wp, produce. destruct (queue_fault (w_tick w1)); cbn [fst snd].
  - split; [exact (transitivity Hq (quiet_tick w1))|done].
  - match goal with |- context [push_job ?j _] => destruct (push_job_quiet j w1) as [Hq' Hj] end.
    split; [exact (transitivity Hq Hq')|]. intros _. by exists on.
Qed.

(** What happens once the transaction is stored. *)
Lemma scheduling_spec t m (w : W S C) :
  taken_in Pending t -> view w = <[id := t]> m ->
  wp (let* r := try_ (schedule_initial_status_check t network) in
      match r with
      | Err e =>
          do* fail_unscheduled t "Queue unavailable" in
          failM (relayer_error_of_queue e)
      | Ok _ =>
          do* map_errM relayer_error_of_queue
                (produce (JRequest (transaction_request (tx_id t) (tx_relayer_id t)) None)) in
          retM t
      end) (fun r w' => exists t', view w' = <[id := t']> m /\
        ((taken_in Pending t' /\ watched w' /\ forall t1, r = Ok t1 ->
            t1 = t' /\ JRequest (transaction_request id (rel_id relayer)) None ∈ w_jobs w') \/
         ((taken_in Failed t' \/ (taken_in Pending t' /\ write_failed m t')) /\ exists e, r = Err e))) w.
Proof.
  intros Ht Hv. pose proof Ht as (Hid & Hr & _). rewrite Hid, Hr.
  apply wp_bind, wp_try. eapply wp_mono; [|by apply schedule_spec].
  intros r w3 [(Hv3 & _) Hw]. rewrite Hv in Hv3. destruct r as [[]|e].
  - apply wp_bind, wp_map_err. unfold wp at 1, produce.
    set (job := JRequest _ _). pose proof (quiet_tick w3) as (Hvt & _ & Hjt).
    destruct (push_job_quiet job w3) as [(Hvp & _ & Hjp) Hj].
    destruct (Hw eq_refl) as [on Hon].
    destruct (queue_fault (w_tick w3)); cbn [fst snd result_map_err]; [|unfold wp; simpl];
      exists t; (split; [congruence|]); left; split_and!; try done.
    + exists on. by eapply elem_of_prefix.
    + exists on. by eapply elem_of_prefix.
    + by intros ? [= <-].
  - destruct (fail_unscheduled_stored t m w3 Ht Hv3) as (t' & Hv4 & Hf).
    assert (taken_in Failed t' \/ (taken_in Pending t' /\ write_failed m t')) by
      (destruct Hf as [|[-> ?]]; auto).
    apply wp_bind. unfold wp at 1.
    destruct (fail_unscheduled t "Queue unavailable" w3) as [[] w4]; simpl in *; exists t'; eauto 6.
Qed.

(** C15. A request is taken in completely or not at all, as far as the store lets it.  If
    processing it changes the store, the one change is a new transaction under the given id,
    which was unused, without a nonce.  It is Pending with a status check on the queue, and when
    the call succeeds it is the transaction returned, and the job that prepares it is queued too;
    or it is Failed and the call fails.  Only if the store itself failed a write, either the
    creation it carried out all the same or the update that marks the transaction Failed when
    its status check could not be queued, may a Pending transaction be left that nobody looks
    after, and then the call fails as well. *)
Theorem intake_watched request (w : W S C) :
  wp (process_transaction_request_with_id relayer network request id) (fun r w' =>
    (view w' = view w /\ exists e, r = Err e) \/
    view w !! id = None /\
    exists t, view w' = <[id := t]> (view w) /\
      ((taken_in Pending t /\ watched w' /\ forall t', r = Ok t' ->
          t' = t /\ JRequest (transaction_request id (rel_id relayer)) None ∈ w_jobs w') \/
       ((taken_in Failed t \/ (taken_in Pending t /\ write_failed (view w) t)) /\
        exists e, r = Err e))) w.
Proof.
  unfold process_transaction_request_with_id.
  assert (HI : forall w1 w2 : W S C, quiet w1 w2 -> quiet w w1 -> quiet w w2)
    by (intros w1 w2 Hq12 Hq1; exact (transitivity Hq1 Hq12)).
  assert (Herr : forall e (w1 : W S C), quiet w w1 ->
    view w1 = view w /\ exists e', @Err RelayerError.t TransactionRepoModel e = Err e')
    by (intros e w1 [Hv _]; eauto).
  eapply (wp_bind_keeps (quiet w)); [eapply keeps_of_preserves; [exact HI|
    unfold relayer_network; preserve] | done | by intros; left; apply Herr | intros nm w1 _ Hq1].
  eapply (wp_bind_keeps (quiet w)); [eapply keeps_of_preserves; [exact HI|preserve]
    | done | by intros; left; apply Herr | intros ca w2 _ Hq2].
  apply wp_bind, wp_lift.
  destruct (evm_transaction_model _ _ _ _ _) as [t|e] eqn:Ht; [|left; by apply Herr].
  apply evm_transaction_model_spec in Ht. destruct Hq2 as (Hv & _ & _).
  apply wp_bind, wp_map_err. unfold wp at 1, repo_call.
  pose proof (repo_create_spec t (w_repo w2)) as Hc. unfold wp in Hc.
  destruct (repo_create t (w_repo w2)) as [rc s'] eqn:Hcr. simpl in Hc.
  fold (view w2) in Hc. rewrite Hv in Hc.
  destruct Hc as [(Hnone & Hs' & _)|[Hs' [? ->]]]; simpl; [|left; rewrite view_set_repo; eauto].
  rewrite (proj1 Ht) in Hnone, Hs'. destruct rc as [tc|e]; simpl.
  2: { right. split; [done|]. exists t. rewrite view_set_repo. split; [done|]. right.
       split; [|eauto]. right. split; [done|]. left. exists (w_repo w2), e. by rewrite Hcr. }
  eapply wp_mono; [|apply (scheduling_spec t (view w)); [done|by rewrite view_set_repo]].
  intros r w3 Hpost. by right.
Qed.
End Intake.
End Jobs.

(** ** Instances *)

Section Witnesses.
#[local] Existing Instances sample_chrono sample_config sample_order sample_calculator.

(** The node confirms every transaction it is asked about. *)
Definition ready_env : Env :=
  sample_env (seconds 10)
    (fun h => Ok (Some {| rc_status := true; rc_block_number := Some 10; rc_from := "0xa1";
                          rc_to := Some "0xb2"%string |}))
    100 6 (Ok "0xf0"%string).
#[local] Existing Instance ready_env.

Definition ready_jobs : JobEnv :=
  {| relayers_by_id := fun _ _ => Ok sample_relayer;
     signers_by_id := fun _ _ => Ok tt;
     service_fault := fun _ _ => None |}.
#[local] Existing Instance ready_jobs.

Definition no_other (r : RelayerRepoModel) (h : handler) (t : TransactionRepoModel)
  : T InMemory.state (gmap CounterKey Z) TransactionRepoModel := retM t.

(** A Mined transaction after 80 failed checks. *)
Definition tired_tx : TransactionRepoModel :=
  set_tx_metadata (Some {| consecutive_failures := 0; total_failures := 80;
                           insufficient_fee_retries := 0; try_again_later_retries := 0;
                           nonce_too_high_retries := 0 |})
    (sample_tx "tx1" Mined ["0xh1"%string] (sample_data (Some 5) (Some "0xh1"%string) None)).

Definition tired_jobs : list (TransactionStatusCheck * Z) :=
  replicate 3 (status_check_new "tx1" "relayer" NtEvm, 1).

Lemma mined_never_confirmed_witness :
  stuck_mined "tx1" (foldl (fun w '(job, attempt) =>
    snd (transaction_status_handler no_other job attempt w))
    (sample_world [tired_tx] ∅) tired_jobs).
Proof.
  apply (mined_never_confirmed no_other "tx1" "relayer").
  - by intros t r [= <-].
  - by repeat constructor.
  - eexists tired_tx, _. split; [reflexivity|]. by repeat split.
Defined.

(** A Sent transaction of nonce 5, signed. *)
Definition signed_tx : TransactionRepoModel :=
  sample_tx "tx1" Sent [] (sample_data (Some 5) (Some "0xh1"%string) (Some [Byte.x01])).

Lemma delete_pending_broadcasts_witness :
  let w' := snd (delete_pending_transactions sample_relayer (sample_world [signed_tx] ∅)) in
  w_jobs w' = [JSend (delete_job "relayer" "tx1") None] /\
  w_sent (snd (submission_handle_request no_other (delete_job "relayer" "tx1") w')) = [[Byte.x01]].
Proof.
  destruct (delete_pending_broadcasts no_other sample_relayer (sample_world [signed_tx] ∅))
    as [(_ & _ & Hj) Hb]; [by intros t r [= <-]|].
  set (w' := snd (delete_pending_transactions sample_relayer (sample_world [signed_tx] ∅))) in *.
  split.
  - rewrite Hj. vm_compute. reflexivity.
  - apply (Hb "tx1"%string signed_tx _ [Byte.x01] w' eq_refl eq_refl eq_refl eq_refl).
    vm_compute. reflexivity.
Defined.

Definition sample_request : EvmTransactionRequest :=
  {| req_to := Some "0xb2"%string; req_value := 1000; req_data := None;
     req_gas_limit := Some 21000; req_gas_price := Some 20; req_speed := None;
     req_max_fee_per_gas := None; req_max_priority_fee_per_gas := None;
     req_valid_until := None |}.

Lemma intake_watched_witness :
  exists network, evm_network_try_from sample_network_model = Ok network /\
    let w' := snd (process_transaction_request_with_id sample_relayer network sample_request "tx1"
                     (sample_world [] ∅)) in
    exists t, view w' !! "tx1"%string = Some t /\ tx_status t = Pending /\
      watched sample_relayer network "tx1" w'.
Proof.
  destruct (evm_network_try_from sample_network_model) as [network|] eqn:Hn;
    [|vm_compute in Hn; discriminate].
  exists network. split; [done|].
  destruct (intake_watched (S := InMemory.state) (C := gmap CounterKey Z)) with
    (relayer := sample_relayer) (network := network) (id := "tx1"%string)
    (request := sample_request) (w := sample_world [] ∅) as [[_ [e He]]|(_ & t & Hv & Hc)].
  - exfalso. vm_compute in Hn. injection Hn as <-. vm_compute in He. discriminate.
  - exists t. rewrite Hv. split; [apply lookup_insert_eq|].
    destruct Hc as [((_ & _ & _ & Hs) & Hw & _)|[_ [e He]]]; [by split|].
    exfalso. vm_compute in Hn. injection Hn as <-. vm_compute in He. discriminate.
Defined.
End Witnesses.
