(* ===== verification/Stellar.v ===== *)
(** * The Stellar transaction lifecycle

    [domain/transaction/stellar]: the lane gate that lets one transaction of a relayer be in
    flight at a time, the synchronisation of the sequence counter with the chain, preparation
    for the four kinds of input, submission, and status handling.  Each [async fn] of
    [StellarRelayerTransaction] is a definition of the same name in the effect monad; logging
    and metrics are left out.  The RPC node, the signer, and the checks that call the DEX
    services or read token balances are answers of [StellarEnv]. *)

From S2P Require Import Prelude Decimal Errors Json Model Config StellarXdr Repository Counter.
From S2P Require Import Jobs Effects EvmUtils EvmTransaction EvmStatus Lifecycle EvmRelayer.
From S2P Require Import JobHandlers.
Open Scope Z_scope.

(** ** Interfaces *)

(** The operations of the repository that only the Stellar code uses. *)
Class StellarRepository `{Chrono} `{ServerConfig} (S : Type) `{!TransactionRepository S} := {
  repo_find_by_status_paginated :
    string -> list TransactionStatus -> PaginationQuery -> bool ->
    M S RepositoryError.t (PaginatedResult TransactionRepoModel);
  repo_record_stellar_try_again_later_retry :
    string -> string -> M S RepositoryError.t TransactionRepoModel;
  repo_record_stellar_insufficient_fee_retry :
    string -> string -> M S RepositoryError.t TransactionRepoModel;

  repo_find_by_status_paginated_spec rid sts q oldest s :
    wp (repo_find_by_status_paginated rid sts q oldest) (fun r s' =>
      repo_view s' = repo_view s /\
      forall p t, r = Ok p -> t ∈ pr_items p ->
        (exists id, repo_view s !! id = Some t) /\ tx_relayer_id t = rid /\
        status_in (tx_status t) sts = true) s;

  (** A retry is recorded in the metadata of a transaction that is not final, with the time of
      the attempt. *)
  repo_record_try_again_later_spec id sent_at s :
    wp (repo_record_stellar_try_again_later_retry id sent_at) (fun r s' =>
      (exists t m, repo_view s !! id = Some t /\ is_final_state (tx_status t) = false /\
         insufficient_fee_retries m =
           insufficient_fee_retries (default metadata_default (tx_metadata t)) /\
         let t' := set_tx_sent_at (Some sent_at) (set_tx_metadata (Some m) t) in
         repo_view s' = <[id := t']> (repo_view s) /\ (forall t'', r = Ok t'' -> t'' = t')) \/
      (repo_view s' = repo_view s /\
       forall t, r = Ok t -> repo_view s !! id = Some t /\ is_final_state (tx_status t) = true)) s;

  repo_record_insufficient_fee_spec id sent_at s :
    wp (repo_record_stellar_insufficient_fee_retry id sent_at) (fun r s' =>
      (exists t m, repo_view s !! id = Some t /\ is_final_state (tx_status t) = false /\
         insufficient_fee_retries m = sat_add u32_max
           (insufficient_fee_retries (default metadata_default (tx_metadata t))) 1 /\
         let t' := set_tx_sent_at (Some sent_at) (set_tx_metadata (Some m) t) in
         repo_view s' = <[id := t']> (repo_view s) /\ (forall t'', r = Ok t'' -> t'' = t')) \/
      (repo_view s' = repo_view s /\
       forall t, r = Ok t -> repo_view s !! id = Some t /\ is_final_state (tx_status t) = true)) s;
}.

Record SendTransactionResponse := {
  sn_status : string;
  sn_hash : string;
  sn_error_result_xdr : option string;
}.

(** [SignTransactionResponse], by the chain it is for. *)
Inductive SignResponse : Type :=
| SignedStellar (signature : DecoratedSignature)
| SignedOther.

(** The Stellar side of the outside world.  As in [Env] every function takes the tick. *)
Class StellarEnv := {
  (** [StellarProviderTrait]: the sequence number of an account, a simulation, a submission, a
      lookup by hash. *)
  stellar_get_account : nat -> string -> result ProviderError.t Z;
  stellar_simulate :
    nat -> TransactionEnvelope -> result ProviderError.t SimulateTransactionResponse;
  stellar_send_transaction :
    nat -> TransactionEnvelope -> result ProviderError.t SendTransactionResponse;
  stellar_get_transaction : nat -> string -> result ProviderError.t GetTransactionResponse;

  (** [Signer::sign_transaction], with the message of its error. *)
  stellar_sign : nat -> StellarTransactionData -> result string SignResponse;

  (** Whether [get_token_balance] finds the trustline of an account for an asset. *)
  has_trustline : nat -> string -> string -> bool;

  (** [StellarTransactionValidator::validate_user_fee_payment_transaction]. *)
  validate_user_fee_payment_transaction :
    nat -> TransactionEnvelope -> string -> RelayerStellarPolicy -> result string unit;

  (** [convert_xlm_fee_to_token], the fee in token units. *)
  convert_xlm_fee_to_token :
    nat -> RelayerStellarPolicy -> Z -> string -> result string Z;
}.

(** ** The lane gate ([lane_gate.rs]) *)

Module LaneGate.
(** [BUSY]: the transaction that owns the lane of a relayer. *)
Abbreviation busy := (gmap string string) (only parsing).

Definition claim (relayer_id tx_id : string) (m : busy) : bool * busy :=
  match m !! relayer_id with
  | None => (true, <[relayer_id := tx_id]> m)
  | Some owner => (String.eqb owner tx_id, m)
  end.

Definition pass_to (relayer_id current_tx_id next_tx_id : string) (m : busy) : busy :=
  match m !! relayer_id with
  | Some owner =>
      if String.eqb owner current_tx_id then <[relayer_id := next_tx_id]> m else m
  | None => m
  end.

Definition free (relayer_id tx_id : string) (m : busy) : busy :=
  match m !! relayer_id with
  | Some owner => if String.eqb owner tx_id then delete relayer_id m else m
  | None => m
  end.
End LaneGate.

(** ** Sequence numbers ([utils.rs]) *)

Definition next_sequence_u64 (seq_num : Z) : result RelayerError.t Z :=
  let? next_i64 := ok_or (checked_i64 (seq_num + 1))
                     (RelayerError.ProviderError "sequence overflow") in
  if next_i64 <? 0 then Err (RelayerError.ProviderError "sequence overflows u64")
  else Ok next_i64.

Definition i64_from_u64 (value : Z) : result RelayerError.t Z :=
  ok_or (checked i64_max value) (RelayerError.ProviderError "u64→i64 overflow").

(** ** Token checks ([validation.rs]) *)

Definition validate_allowed_token (asset : string) (policy : RelayerStellarPolicy)
  : result StellarTransactionValidationError.t unit :=
  let allowed_tokens := get_allowed_tokens policy in
  match allowed_tokens with
  | [] => Ok tt
  | _ =>
      if String.eqb asset "native" || String.eqb asset "" then
        if existsb (fun token => String.eqb (sat_asset token) "native"
                                 || String.eqb (sat_asset token) "") allowed_tokens
        then Ok tt
        else Err (StellarTransactionValidationError.TokenNotAllowed
                    "Native XLM not in allowed tokens list")
      else if existsb (fun token => String.eqb (sat_asset token) asset) allowed_tokens
      then Ok tt
      else Err (StellarTransactionValidationError.TokenNotAllowed
                  ("Token " +:+ asset +:+ " not in allowed tokens list"))
  end.

Definition validate_token_max_fee (asset_id : string) (fee : Z) (policy : RelayerStellarPolicy)
  : result StellarTransactionValidationError.t unit :=
  match get_allowed_token_entry policy asset_id with
  | Some token_entry =>
      match sat_max_allowed_fee token_entry with
      | Some max_allowed_fee =>
          if max_allowed_fee <? fee
          then Err (StellarTransactionValidationError.MaxFeeExceeded fee)
          else Ok tt
      | None => Ok tt
      end
  | None => Ok tt
  end.

(** [TransactionUpdateRequest] with Stellar data. *)
Definition upd_with_stellar_data (x : option StellarTransactionData)
    (u : TransactionUpdateRequest) : TransactionUpdateRequest :=
  let 'Build_TransactionUpdateRequest a b c d _ f g h i j k := u in
  Build_TransactionUpdateRequest a b c d (StellarData <$> x) f g h i j k.

Section Stellar.
Context `{Chrono} `{ServerConfig} `{Env} `{StellarSdk} `{StellarEnv}.
Context {S C : Type} `{!TransactionRepository S} `{!StellarRepository S} `{!TransactionCounter C}.
Context (relayer : RelayerRepoModel).

(** ** Job, lane and provider helpers *)

Definition queue (job : QueuedJob) : T S C unit :=
  map_errM TransactionError.JobProducerError (produce job).

Definition scheduled_on (delay_seconds : option Z) : T S C (option Z) :=
  match delay_seconds with
  | Some d => let* t := calculate_scheduled_timestamp d in retM (Some t)
  | None => retM None
  end.

Definition claim_lane (tx_id : string) : T S C bool := fun w =>
  let '(b, m) := LaneGate.claim (rel_id relayer) tx_id (w_lanes w) in (Ok b, set_lanes m w).

Definition pass_lane (current_tx_id next_tx_id : string) : T S C unit :=
  modifyM (fun w =>
    set_lanes (LaneGate.pass_to (rel_id relayer) current_tx_id next_tx_id (w_lanes w)) w).

Definition free_lane (tx_id : string) : T S C unit :=
  modifyM (fun w => set_lanes (LaneGate.free (rel_id relayer) tx_id (w_lanes w)) w).

(** [send_transaction_with_status]: the envelope leaves the process whatever the node answers. *)
Definition send_transaction_with_status (envelope : TransactionEnvelope)
  : M (W S C) ProviderError.t SendTransactionResponse := fun w =>
  (stellar_send_transaction (w_tick w) envelope, push_envelope envelope (tick w)).

(** ** [stellar_transaction.rs] *)

Definition concurrent_transactions_enabled : bool :=
  match rel_policies relayer with
  | StellarPolicy policy =>
      default DEFAULT_STELLAR_CONCURRENT_TRANSACTIONS (spol_concurrent_transactions policy)
  | _ => DEFAULT_STELLAR_CONCURRENT_TRANSACTIONS
  end.

Definition send_transaction_request_job (tx : TransactionRepoModel) (delay_seconds : option Z)
  : T S C unit :=
  let job := transaction_request (tx_id tx) (tx_relayer_id tx) in
  let* scheduled_on := scheduled_on delay_seconds in
  queue (JRequest job scheduled_on).

Definition finalize_transaction_state (tx_id : string) (update_req : TransactionUpdateRequest)
  : T S C TransactionRepoModel :=
  let* updated_tx := partial_update tx_id update_req in
  do* notify relayer updated_tx in
  retM updated_tx.

Definition find_oldest_pending_for_relayer (relayer_id : string)
  : T S C (option TransactionRepoModel) :=
  let* result := repo (repo_find_by_status_paginated relayer_id [Pending]
                         {| page := 1; per_page := 1 |} true) in
  retM (head (pr_items result)).

Definition enqueue_next_pending_transaction (finished_tx_id : string) : T S C unit :=
  if negb concurrent_transactions_enabled then
    let* next := find_oldest_pending_for_relayer (rel_id relayer) in
    match next with
    | Some next =>
        do* pass_lane finished_tx_id (tx_id next) in
        send_transaction_request_job next None
    | None => free_lane finished_tx_id
    end
  else retM tt.

(** The error is the text it is reported with. *)
Definition fetch_next_sequence_from_chain (relayer_address : string) : M (W S C) string Z :=
  let* on_chain_seq := map_errM
    (fun e => "Failed to fetch account from chain: " +:+ provider_error_display e)
    (call (fun t => stellar_get_account t relayer_address)) in
  liftM (result_map_err
    (fun e => "Failed to calculate next sequence: " +:+ relayer_error_display e)
    (next_sequence_u64 on_chain_seq)).

(** The sequence number of a Stellar transaction, where it is a [u64]. *)
Definition stellar_sequence (tx : TransactionRepoModel) : option Z :=
  match tx_network_data tx with
  | StellarData data => st_sequence_number data
  | _ => None
  end.

Definition u64_try_from (seq : Z) : option Z := if 0 <=? seq then Some seq else None.

Definition stellar_sequence_u64 (tx : TransactionRepoModel) : option Z :=
  stellar_sequence tx ≫= u64_try_from.

(** [Iterator::max] *)
Definition max_of (l : list Z) : option Z :=
  match l with [] => None | x :: l' => Some (fold_left Z.max l' x) end.

Definition option_to_list {A} (o : option A) : list A := match o with Some a => [a] | None => [] end.

Definition try_rewind_sequence_counter (relayer_address : string)
    (next_usable_from_chain observed : Z) : T S C unit :=
  if observed <=? next_usable_from_chain then retM tt
  else
    let* active_txs := repo (repo_find_by_status (rel_id relayer) [Pending; Sent; Submitted]) in
    let highest_active_seq := max_of (omap stellar_sequence_u64 active_txs) in
    let* newest_confirmed := repo (repo_find_by_status_paginated (rel_id relayer) [Confirmed]
                                     {| page := 1; per_page := 1 |} false) in
    let newest_confirmed_seq := head (pr_items newest_confirmed) ≫= stellar_sequence_u64 in
    let target :=
      match max_of (option_to_list highest_active_seq ++ option_to_list newest_confirmed_seq) with
      | Some seq => Z.max next_usable_from_chain (wrapu 64 (seq + 1))
      | None => next_usable_from_chain
      end in
    if observed <=? target then retM tt
    else
      let* _ := map_errM (fun e => TransactionError.UnexpectedError
                    ("Failed to rewind sequence counter: " +:+ repository_error_display e))
                  (counter_call
                    (ctr_set_if_equals (rel_id relayer) relayer_address observed target)) in
      retM tt.

Definition sync_sequence_from_chain (relayer_address : string) : T S C unit :=
  let* next_usable_seq := map_errM
    (fun e => TransactionError.UnexpectedError ("Failed to sync sequence from chain: " +:+ e))
    (fetch_next_sequence_from_chain relayer_address) in
  let* effective_seq := map_errM
    (fun e => TransactionError.UnexpectedError
       ("Failed to update sequence counter: " +:+ repository_error_display e))
    (counter_call (ctr_sync_floor (rel_id relayer) relayer_address next_usable_seq)) in
  if next_usable_seq <? effective_seq
  then try_rewind_sequence_counter relayer_address next_usable_seq effective_seq
  else retM tt.

Definition reset_transaction_for_retry (tx : TransactionRepoModel) : T S C TransactionRepoModel :=
  let* update_req := liftM (create_reset_update_request tx) in
  partial_update (tx_id tx) update_req.

(** ** Shared steps of preparation ([prepare/common.rs]) *)

Definition simulate_if_needed (envelope : TransactionEnvelope)
  : T S C (option SimulateTransactionResponse) :=
  if xdr_needs_simulation envelope then
    let* resp := map_errM TransactionError.UnderlyingProvider
                   (call (fun t => stellar_simulate t envelope)) in
    match sim_error resp with
    | Some err_msg => failM (TransactionError.SimulationFailed err_msg)
    | None => retM (Some resp)
    end
  else retM None.

(** Signing attaches the signature and stores the envelope it is submitted as. *)
Definition sign_stellar_transaction (stellar_data : StellarTransactionData)
  : T S C StellarTransactionData :=
  let* sig_resp := map_errM TransactionError.SignerError
                     (call (fun t => stellar_sign t stellar_data)) in
  match sig_resp with
  | SignedOther => failM (TransactionError.InvalidType "Expected Stellar signature")
  | SignedStellar signature =>
      let signed_stellar_data := attach_signature signature stellar_data in
      let* signed_envelope := liftM (result_map_err
        (fun e => TransactionError.SignerError ("Failed to build signed envelope: " +:+ e))
        (get_envelope_for_submission signed_stellar_data)) in
      let* signed_xdr := liftM (result_map_err
        (fun e => TransactionError.SignerError ("Failed to serialize signed envelope: " +:+ e))
        (envelope_to_xdr signed_envelope)) in
      retM (set_signed_envelope_xdr signed_xdr signed_stellar_data)
  end.

Definition sign_and_finalize_transaction (tx : TransactionRepoModel)
    (stellar_data : StellarTransactionData)
  : T S C (TransactionRepoModel * StellarTransactionData) :=
  let* final_stellar_data := sign_stellar_transaction stellar_data in
  retM (tx, final_stellar_data).

Definition get_next_sequence (relayer_id relayer_address : string) : T S C Z :=
  let* sequence_u64 := map_errM
    (fun e => TransactionError.UnexpectedError (repository_error_display e))
    (counter_call (ctr_get_and_increment relayer_id relayer_address)) in
  liftM (result_map_err
    (fun relayer_err => TransactionError.ValidationError
       ("Sequence conversion error for " +:+ print_dec sequence_u64 +:+ ": " +:+
        relayer_error_display relayer_err))
    (i64_from_u64 sequence_u64)).

Definition apply_sequence (envelope : TransactionEnvelope) (sequence : Z)
  : result TransactionError.t (TransactionEnvelope * string) :=
  let? envelope := result_map_err
    (fun e => TransactionError.ValidationError ("Failed to update sequence: " +:+ e))
    (update_xdr_sequence envelope sequence) in
  let? xdr := result_map_err
    (fun e => TransactionError.ValidationError ("Failed to serialize envelope: " +:+ e))
    (envelope_to_xdr envelope) in
  Ok (envelope, xdr).

Definition calculate_fee_bump_required_fee (inner_envelope : TransactionEnvelope) (max_fee : Z)
  : T S C Z :=
  let inner_num_ops := Z.max (Z.of_nat (length (extract_operations inner_envelope))) 1 in
  let fee_bump_num_ops := inner_num_ops + 1 in
  let inner_tx_fee := extract_inner_transaction_fee inner_envelope in
  match extract_soroban_resource_fee inner_envelope with
  | Some existing_resource_fee =>
      liftM (
        let? required_fee := calculate_fee_bump_fee inner_tx_fee existing_resource_fee
                               inner_num_ops fee_bump_num_ops in
        validated_max_fee_as_u32 max_fee required_fee)
  | None =>
      let* sim := simulate_if_needed inner_envelope in
      let* resource_fee := liftM match sim with
        | Some sim_resp =>
            ok_or (checked i64_max (sim_min_resource_fee sim_resp))
              (TransactionError.ValidationError
                 ("Resource fee conversion overflow: min_resource_fee (" +:+
                  print_dec (sim_min_resource_fee sim_resp) +:+ ") exceeds i64::MAX"))
        | None => Ok 0
        end in
      liftM (
        let? required_fee := calculate_fee_bump_fee inner_tx_fee resource_fee inner_num_ops
                               fee_bump_num_ops in
        validated_max_fee_as_u32 max_fee required_fee)
  end.

Definition send_submit_transaction_job (tx : TransactionRepoModel) (delay_seconds : option Z)
  : T S C unit :=
  let job := send_submit (tx_id tx) (tx_relayer_id tx) in
  let* scheduled_on := scheduled_on delay_seconds in
  queue (JSend job scheduled_on).

Definition update_and_notify_transaction (tx_id : string) (stellar_data : StellarTransactionData)
  : T S C TransactionRepoModel :=
  let update_req := upd_with_stellar_data (Some stellar_data) (upd_with_status Sent) in
  let* saved_tx := partial_update tx_id update_req in
  do* send_submit_transaction_job saved_tx None in
  do* notify relayer saved_tx in
  retM saved_tx.

(** ** Operations ([prepare/operations.rs]) *)

Definition process_operations (relayer_id relayer_address : string)
    (stellar_data : StellarTransactionData) (relayer_policy : option RelayerStellarPolicy)
  : T S C StellarTransactionData :=
  if match relayer_policy with Some policy => is_user_fee_payment policy | None => false end then
    failM (TransactionError.ValidationError
      ("Gasless transactions (User fee payment strategy) are not supported via operations path. "
       +:+ "Please use fee bump(SignedXdr) path for gasless transactions."))
  else
    let* sequence_i64 := get_next_sequence relayer_id relayer_address in
    let stellar_data := with_sequence_number sequence_i64 stellar_data in
    let* unsigned_env := liftM (result_map_err TransactionError.SignerError
                                  (get_envelope_for_simulation stellar_data)) in
    let* sim := simulate_if_needed unsigned_env in
    let op_count := Z.of_nat (length (extract_operations unsigned_env)) in
    let* stellar_data_with_sim :=
      match sim with
      | Some sim_resp =>
          liftM (result_map_err
            (fun e => TransactionError.ValidationError
               ("Failed to apply simulation data: " +:+ e))
            (with_simulation_data sim_resp op_count stellar_data))
      | None =>
          retM (with_fee (wrapu 32 (STELLAR_DEFAULT_TRANSACTION_FEE * op_count)) stellar_data)
      end in
    sign_stellar_transaction stellar_data_with_sim.

(** ** Unsigned envelopes ([prepare/unsigned_xdr.rs]) *)

Definition change_trust_line (op : Xdr.Operation) : option Xdr.ChangeTrustAsset :=
  match Xdr.op_body op with Xdr.ChangeTrust line _ => Some line | _ => None end.

(** The second loop of [is_change_trust_for_allowed_token_without_trustline]. *)
Fixpoint check_change_trusts (relayer_address : string) (policy : RelayerStellarPolicy)
    (operations : list Xdr.Operation) : T S C bool :=
  match operations with
  | [] => retM true
  | op :: operations' =>
      match change_trust_line op with
      | None => check_change_trusts relayer_address policy operations'
      | Some line =>
          let* asset_id := liftM (result_map_err
            (fun e => TransactionError.ValidationError
               ("Failed to convert ChangeTrust asset to asset_id: " +:+ e))
            (change_trust_asset_to_asset_id line)) in
          match asset_id with
          | None => retM false
          | Some asset_id =>
              do* liftM (result_map_err
                (fun e => TransactionError.ValidationError
                   ("ChangeTrust asset " +:+ asset_id +:+ " is not in allowed_tokens list: " +:+
                    stellar_validation_error_display e))
                (validate_allowed_token asset_id policy)) in
              let* exists_ := ask (fun t => has_trustline t relayer_address asset_id) in
              if exists_ then retM false
              else check_change_trusts relayer_address policy operations'
          end
      end
  end.

Definition is_change_trust_for_allowed_token_without_trustline
    (envelope : TransactionEnvelope) (relayer_address : string) (policy : RelayerStellarPolicy)
  : T S C bool :=
  let operations := extract_operations envelope in
  match operations with
  | [] => retM false
  | _ =>
      if forallb (fun op => match change_trust_line op with Some _ => true | None => false end)
           operations
      then check_change_trusts relayer_address policy operations
      else retM false
  end.

Definition is_valid_orderbook_swap (send_asset dest_asset : Xdr.Asset)
    (destination : Xdr.MuxedAccount) (relayer_address : string) (policy : RelayerStellarPolicy)
  : result TransactionError.t bool :=
  let? source_asset_id := result_map_err
    (fun e => TransactionError.ValidationError
       ("Failed to convert source asset to asset_id: " +:+ e))
    (asset_to_asset_id send_asset) in
  if String.eqb source_asset_id "native" then Ok false
  else
    let? _ := result_map_err
      (fun e => TransactionError.ValidationError
         ("Swap source asset " +:+ source_asset_id +:+ " is not in allowed_tokens list: " +:+
          stellar_validation_error_display e))
      (validate_allowed_token source_asset_id policy) in
    let? dest_asset_id := result_map_err
      (fun e => TransactionError.ValidationError
         ("Failed to convert destination asset to asset_id: " +:+ e))
      (asset_to_asset_id dest_asset) in
    if negb (String.eqb dest_asset_id "native") then Ok false
    else Ok (String.eqb (muxed_account_to_string destination) relayer_address).

Definition is_valid_soroswap_swap (host_function : Xdr.HostFunction) (relayer_address : string)
  : bool :=
  match host_function with
  | Xdr.InvokeContract _ function_name args =>
      if negb (String.eqb (String.string_of_list_byte function_name)
                 "swap_exact_tokens_for_tokens") then false
      else
        match args with
        | [_; _; _; Xdr.VAddress (Xdr.Account key); _] =>
            String.eqb (strkey_public_key key) relayer_address
        | _ => false
        end
  | Xdr.OtherHostFunction _ => false
  end.

Definition is_valid_swap_transaction (envelope : TransactionEnvelope) (relayer_address : string)
    (policy : RelayerStellarPolicy) : result TransactionError.t bool :=
  match extract_operations envelope with
  | [op] =>
      match Xdr.op_body op with
      | Xdr.PathPaymentStrictSend send_asset _ destination dest_asset _ _ =>
          is_valid_orderbook_swap send_asset dest_asset destination relayer_address policy
      | Xdr.InvokeHostFunction host_function _ =>
          Ok (is_valid_soroswap_swap host_function relayer_address)
      | _ => Ok false
      end
  | _ => Ok false
  end.

(** The exceptions allowed under the User fee payment strategy. *)
Definition check_user_fee_exceptions (envelope : TransactionEnvelope) (relayer_address : string)
    (policy : RelayerStellarPolicy) : T S C unit :=
  let* is_change_trust_exception := map_errM
    (fun e => TransactionError.ValidationError
       ("Failed to validate ChangeTrust exception: " +:+ transaction_error_display e))
    (is_change_trust_for_allowed_token_without_trustline envelope relayer_address policy) in
  let* is_swap_exception := liftM (result_map_err
    (fun e => TransactionError.ValidationError
       ("Failed to validate swap transaction exception: " +:+ transaction_error_display e))
    (is_valid_swap_transaction envelope relayer_address policy)) in
  if negb is_change_trust_exception && negb is_swap_exception then
    failM (TransactionError.ValidationError
      ("Gasless transactions (User fee payment strategy) are not supported via unsigned_xdr path. "
       +:+ "Please use fee_bump path (SignedXdr) for gasless transactions."))
  else retM tt.

Definition set_auth (auth : list Xdr.AuthorizationEntry) (op : Xdr.Operation) : Xdr.Operation :=
  match Xdr.op_body op with
  | Xdr.InvokeHostFunction host_function _ =>
      {| Xdr.op_source_account := Xdr.op_source_account op;
         Xdr.op_body := Xdr.InvokeHostFunction host_function auth |}
  | _ => op
  end.

(** The results of a simulation applied to the envelope: the resources, the authorization
    entries, and the fee. *)
Definition apply_simulation (envelope : TransactionEnvelope)
    (sim_resp : SimulateTransactionResponse) (soroban_tx_data : Xdr.SorobanTransactionData)
  : result TransactionError.t TransactionEnvelope :=
  match envelope with
  | Tx tx signatures =>
      let tx := Xdr.set_ext (Xdr.ExtV1 soroban_tx_data) tx in
      let tx := match sim_results_auth sim_resp with
                | Ok ((a :: auth) :: _) =>
                    Xdr.set_operations (set_auth (a :: auth) <$> Xdr.tx_operations tx) tx
                | _ => tx
                end in
      let op_count := Z.of_nat (length (Xdr.tx_operations tx)) in
      let inclusion_fee := wrapu 64 (op_count * STELLAR_DEFAULT_TRANSACTION_FEE) in
      let total := wrapu 64 (inclusion_fee + sim_min_resource_fee sim_resp) in
      let updated_fee := Z.max (default u32_max (checked u32_max total))
                           STELLAR_DEFAULT_TRANSACTION_FEE in
      Ok (Tx (Xdr.set_fee updated_fee tx) signatures)
  | _ => Err (TransactionError.ValidationError
                "Expected V1 transaction envelope for Soroban simulation")
  end.

(** Steps 5 and 6 of [process_unsigned_xdr], on the envelope with its sequence number. *)
Definition price_unsigned_xdr (envelope : TransactionEnvelope)
    (stellar_data : StellarTransactionData) : T S C StellarTransactionData :=
  let* envelope := liftM (ensure_minimum_fee envelope) in
  let* updated_xdr := liftM (result_map_err
    (fun e => TransactionError.ValidationError ("Failed to serialize updated envelope: " +:+ e))
    (envelope_to_xdr envelope)) in
  let stellar_data := set_transaction_input (UnsignedXdr updated_xdr) stellar_data in
  let* sim := simulate_if_needed envelope in
  match sim with
  | Some sim_resp =>
      let* soroban_tx_data := liftM (result_map_err
        (fun e => TransactionError.ValidationError
           ("Failed to parse simulation transaction_data: " +:+ e))
        (soroban_data_from_xdr (sim_transaction_data sim_resp))) in
      let* envelope := liftM (apply_simulation envelope sim_resp soroban_tx_data) in
      let* updated_xdr := liftM (result_map_err
        (fun e => TransactionError.ValidationError
           ("Failed to serialize envelope after simulation: " +:+ e))
        (envelope_to_xdr envelope)) in
      let stellar_data := set_transaction_input (UnsignedXdr updated_xdr) stellar_data in
      let op_count := Z.of_nat (length (extract_operations envelope)) in
      liftM (result_map_err
        (fun e => TransactionError.ValidationError ("Failed to apply simulation data: " +:+ e))
        (with_simulation_data sim_resp op_count stellar_data))
  | None =>
      let fee := match envelope with
                 | TxV0 tx _ => Xdr.v0_fee tx
                 | Tx tx _ => Xdr.tx_fee tx
                 | TxFeeBump _ _ => STELLAR_DEFAULT_TRANSACTION_FEE
                 end in
      retM (with_fee fee stellar_data)
  end.

Definition process_unsigned_xdr (relayer_id relayer_address : string)
    (stellar_data : StellarTransactionData) (relayer_policy : option RelayerStellarPolicy)
  : T S C StellarTransactionData :=
  let* xdr := match st_transaction_input stellar_data with
              | UnsignedXdr xdr => retM xdr
              | _ => failM (TransactionError.UnexpectedError "Expected UnsignedXdr input")
              end in
  let* envelope := liftM (result_map_err
    (fun e => transaction_error_of_stellar_validation (StellarValidationError.InvalidXdr e))
    (envelope_from_xdr xdr)) in
  let source_account := extract_source_account envelope in
  do* match relayer_policy with
      | Some policy =>
          if is_user_fee_payment policy
          then check_user_fee_exceptions envelope relayer_address policy
          else retM tt
      | None => retM tt
      end in
  if negb (String.eqb source_account relayer_address) then
    failM (transaction_error_of_stellar_validation
      (StellarValidationError.SourceAccountMismatch relayer_address source_account))
  else
    let* sequence := get_next_sequence relayer_id relayer_address in
    let* r := liftM (apply_sequence envelope sequence) in
    let stellar_data := with_sequence_number sequence stellar_data in
    let* stellar_data_with_sim := price_unsigned_xdr (fst r) stellar_data in
    sign_stellar_transaction stellar_data_with_sim.

(** ** Fee bumps ([prepare/fee_bump.rs]) *)

Definition extract_inner_transaction (stellar_data : StellarTransactionData)
  : result TransactionError.t (TransactionEnvelope * Z) :=
  match st_transaction_input stellar_data with
  | SignedXdr inner_xdr max_fee =>
      if max_fee <=? 0 then
        Err (transaction_error_of_stellar_validation StellarValidationError.InvalidMaxFee)
      else
        let? inner_envelope := result_map_err
          (fun e => transaction_error_of_stellar_validation
             (StellarValidationError.InvalidXdr ("Invalid inner transaction: " +:+ e)))
          (parse_transaction_xdr inner_xdr true) in
        Ok (inner_envelope, max_fee)
  | _ => Err (TransactionError.ValidationError "Fee-bump requires SignedXdr input")
  end.

Definition sign_fee_bump_transaction (stellar_data : StellarTransactionData)
    (fee_bump_envelope : TransactionEnvelope) (relayer_address : string)
  : T S C StellarTransactionData :=
  let* fee_bump_xdr := liftM (result_map_err
    (fun e => TransactionError.ValidationError
       ("Failed to serialize fee-bump envelope: " +:+ e))
    (envelope_to_xdr fee_bump_envelope)) in
  let signing_data := create_signing_data relayer_address fee_bump_xdr
                        (st_network_passphrase stellar_data) in
  let* sig_resp := map_errM TransactionError.SignerError
                     (call (fun t => stellar_sign t signing_data)) in
  match sig_resp with
  | SignedOther => failM (TransactionError.InvalidType "Expected Stellar signature")
  | SignedStellar signature =>
      let* fee_bump_envelope := liftM (result_map_err
        (fun e => TransactionError.SignerError
           ("Failed to attach signature to fee-bump envelope: " +:+ e))
        (attach_signatures_to_envelope fee_bump_envelope [signature])) in
      let* signed_xdr := liftM (result_map_err
        (fun e => TransactionError.SignerError
           ("Failed to serialize signed fee-bump envelope: " +:+ e))
        (envelope_to_xdr fee_bump_envelope)) in
      retM (set_signed_envelope_xdr signed_xdr (attach_signature signature stellar_data))
  end.

Definition process_fee_bump (relayer_address : string) (stellar_data : StellarTransactionData)
    (relayer_policy : option RelayerStellarPolicy) : T S C StellarTransactionData :=
  let* inner := liftM (extract_inner_transaction stellar_data) in
  let '(inner_envelope, max_fee) := inner in
  do* match relayer_policy with
      | Some policy =>
          if is_user_fee_payment policy then
            map_errM TransactionError.ValidationError
              (call (fun t => validate_user_fee_payment_transaction t inner_envelope
                                relayer_address policy))
          else retM tt
      | None => retM tt
      end in
  let* required_fee := calculate_fee_bump_required_fee inner_envelope max_fee in
  let* fee_bump_envelope := liftM (result_map_err
    (fun e => TransactionError.ValidationError ("Cannot create fee-bump envelope: " +:+ e))
    (build_fee_bump_envelope inner_envelope relayer_address required_fee)) in
  let* signed_stellar_data :=
    sign_fee_bump_transaction stellar_data fee_bump_envelope relayer_address in
  retM (with_fee required_fee signed_stellar_data).

(** ** Soroban gas abstraction ([prepare/soroban_gas_abstraction.rs]) *)

(** The user's entry replaces the first one; the second, the relayer's, is authorized by the
    source account. *)
Definition injected_entries (signed_user_auth : Xdr.AuthorizationEntry)
    (entries : list Xdr.AuthorizationEntry) : list Xdr.AuthorizationEntry :=
  match entries with
  | _ :: relayer_auth :: rest =>
      signed_user_auth ::
      {| Xdr.ae_credentials := Xdr.SourceAccount; Xdr.ae_function := Xdr.ae_function relayer_auth;
         Xdr.ae_sub_invocations := Xdr.ae_sub_invocations relayer_auth |} :: rest
  | _ :: [] => [signed_user_auth]
  | [] => []
  end.

Definition inject_auth_entries_into_envelope (envelope : TransactionEnvelope)
    (signed_user_auth : Xdr.AuthorizationEntry)
  : result TransactionError.t (TransactionEnvelope * list Xdr.AuthorizationEntry) :=
  match envelope with
  | TxV0 _ _ => Err (TransactionError.ValidationError
                       "V0 transactions are not supported for Soroban")
  | TxFeeBump _ _ => Err (TransactionError.ValidationError
      "Fee bump transactions should not be used for Soroban gas abstraction")
  | Tx tx signatures =>
      match Xdr.tx_operations tx with
      | [] => Err (TransactionError.ValidationError "Transaction has no operations")
      | first_op :: [] =>
          match Xdr.op_body first_op with
          | Xdr.InvokeHostFunction host_function auth =>
              match auth with
              | [] => Err (TransactionError.ValidationError
                  ("FeeForwarder transaction must contain auth entries. The transaction may be "
                   +:+ "malformed or was not built via the /build endpoint."))
              | _ =>
                  let auth_entries := injected_entries signed_user_auth auth in
                  let updated_op :=
                    {| Xdr.op_source_account := Xdr.op_source_account first_op;
                       Xdr.op_body := Xdr.InvokeHostFunction host_function auth_entries |} in
                  Ok (Tx (Xdr.set_operations [updated_op] tx) signatures, auth_entries)
              end
          | _ => Err (TransactionError.ValidationError
                        "First operation is not InvokeHostFunction")
          end
      | operations => Err (TransactionError.ValidationError
          ("Soroban transactions must contain exactly one operation, found " +:+
           print_dec (Z.of_nat (length operations))))
      end
  end.

Definition BUFFER_MULTIPLIER : Z := 115.

Definition scale_resource (value : Z) : Z :=
  Z.min (sat_mul u64_max value BUFFER_MULTIPLIER / 100) u32_max.

Definition apply_resource_buffer (r : Xdr.Resources) : Xdr.Resources :=
  {| Xdr.res_footprint := Xdr.res_footprint r;
     Xdr.res_instructions := scale_resource (Xdr.res_instructions r);
     Xdr.res_disk_read_bytes := scale_resource (Xdr.res_disk_read_bytes r);
     Xdr.res_write_bytes := scale_resource (Xdr.res_write_bytes r) |}.

Definition build_simulation_envelope (original : TransactionEnvelope)
    (simulation_auth_entries : list Xdr.AuthorizationEntry)
  : result TransactionError.t TransactionEnvelope :=
  match original with
  | Tx tx _ =>
      match Xdr.tx_operations tx with
      | [] => Err (TransactionError.ValidationError "Transaction has no operations")
      | first_op :: rest =>
          match Xdr.op_body first_op with
          | Xdr.InvokeHostFunction host_function _ =>
              let updated_op :=
                {| Xdr.op_source_account := Xdr.op_source_account first_op;
                   Xdr.op_body :=
                     Xdr.InvokeHostFunction host_function simulation_auth_entries |} in
              Ok (Tx (Xdr.set_operations (updated_op :: rest) tx) [])
          | _ => Err (TransactionError.ValidationError
                        "First operation is not InvokeHostFunction")
          end
      end
  | _ => Err (TransactionError.ValidationError "Expected V1 transaction envelope")
  end.

Definition simulate_and_update_resources (envelope : TransactionEnvelope)
    (signed_auth_entries : list Xdr.AuthorizationEntry) : T S C TransactionEnvelope :=
  let* simulation_envelope := liftM (build_simulation_envelope envelope signed_auth_entries) in
  let* sim_response := map_errM
    (fun e => TransactionError.UnexpectedError
       ("Failed to simulate transaction: " +:+ provider_error_display e))
    (call (fun t => stellar_simulate t simulation_envelope)) in
  match sim_error sim_response with
  | Some err => failM (TransactionError.UnexpectedError ("Simulation failed: " +:+ err))
  | None =>
      let* new_tx_data := liftM (result_map_err
        (fun e => TransactionError.UnexpectedError
           ("Failed to parse simulation transaction_data: " +:+ e))
        (soroban_data_from_xdr (sim_transaction_data sim_response))) in
      let new_tx_data :=
        {| Xdr.sd_ext := Xdr.sd_ext new_tx_data;
           Xdr.sd_resources := apply_resource_buffer (Xdr.sd_resources new_tx_data);
           Xdr.sd_resource_fee := Xdr.sd_resource_fee new_tx_data |} in
      let new_required_xlm_fee :=
        wrapu 64 (STELLAR_DEFAULT_TRANSACTION_FEE + sim_min_resource_fee sim_response) in
      let new_fee_u32 := Z.min new_required_xlm_fee u32_max in
      match envelope with
      | Tx tx signatures =>
          let original_fee := Xdr.tx_fee tx in
          let fee_to_set := if original_fee <? new_fee_u32 then new_fee_u32 else original_fee in
          retM (Tx (Xdr.set_fee fee_to_set (Xdr.set_ext (Xdr.ExtV1 new_tx_data) tx)) signatures)
      | _ => failM (TransactionError.ValidationError "Expected V1 transaction envelope")
      end
  end.

Definition extract_contract_address_from_scval (val : Xdr.ScVal) : result string string :=
  match val with
  | Xdr.VAddress (Xdr.Contract contract_id) => Ok (strkey_contract contract_id)
  | Xdr.VAddress (Xdr.Account _) => Err "Expected contract address, found account address"
  | _ => Err ("Expected Address, found " +:+ scval_debug val)
  end.

(** [((parts.hi as i128) << 64) | (parts.lo as i128)] *)
Definition extract_i128_from_scval (val : Xdr.ScVal) : result string Z :=
  match val with
  | Xdr.VI128 hi lo => Ok (Z.lor (Z.shiftl hi 64) lo)
  | _ => Err ("Expected I128, found " +:+ scval_debug val)
  end.

Definition extract_fee_params_from_auth (auth : Xdr.AuthorizationEntry)
  : result TransactionError.t (string * Z) :=
  match Xdr.ae_function auth with
  | Xdr.CreateContractFn _ => Err (TransactionError.ValidationError
      "Expected ContractFn in auth entry root invocation")
  | Xdr.ContractFn _ _ args =>
      match args with
      | arg0 :: arg1 :: _ =>
          let? fee_token := result_map_err
            (fun e => TransactionError.ValidationError ("Failed to extract fee_token: " +:+ e))
            (extract_contract_address_from_scval arg0) in
          let? max_fee_amount := result_map_err
            (fun e => TransactionError.ValidationError
               ("Failed to extract max_fee_amount: " +:+ e))
            (extract_i128_from_scval arg1) in
          Ok (fee_token, max_fee_amount)
      | _ => Err (TransactionError.ValidationError
          ("Invalid auth entry: expected at least 2 arguments, found " +:+
           print_dec (Z.of_nat (length args))))
      end
  end.

(** The caller always passes the required fee, the envelope's own. *)
Definition validate_gas_abstraction_fee (signed_user_auth : Xdr.AuthorizationEntry)
    (policy : RelayerStellarPolicy) (required_xlm_fee : Z) : T S C unit :=
  let* params := liftM (extract_fee_params_from_auth signed_user_auth) in
  let '(fee_token, max_fee_amount) := params in
  do* liftM (result_map_err
    (fun e => TransactionError.ValidationError
       ("Fee token validation failed: " +:+ stellar_validation_error_display e))
    (validate_allowed_token fee_token policy)) in
  if max_fee_amount <=? 0 then
    failM (TransactionError.ValidationError "max_fee_amount must be positive")
  else
    do* liftM (result_map_err
      (fun e => TransactionError.ValidationError
         ("Max fee validation failed: " +:+ stellar_validation_error_display e))
      (validate_token_max_fee fee_token (wrapu 64 max_fee_amount) policy)) in
    let* required_token_fee := map_errM
      (fun e => TransactionError.ValidationError
         ("Failed to convert XLM fee to token " +:+ fee_token +:+ ": " +:+ e))
      (call (fun t => convert_xlm_fee_to_token t policy required_xlm_fee fee_token)) in
    if max_fee_amount <? required_token_fee then
      failM (TransactionError.ValidationError
        ("Insufficient max_fee_amount: user authorized " +:+ print_dec max_fee_amount +:+
         " but required fee is " +:+ print_dec required_token_fee +:+ " (in token " +:+
         fee_token +:+ "). This would result in relayer liquidity loss."))
    else retM tt.

Definition process_soroban_gas_abstraction (relayer_id relayer_address : string)
    (stellar_data : StellarTransactionData) (policy : option RelayerStellarPolicy)
  : T S C StellarTransactionData :=
  match st_transaction_input stellar_data with
  | SorobanGasAbstraction xdr signed_auth_entry_xdr =>
      let* envelope := liftM (result_map_err
        (fun e => TransactionError.ValidationError
           ("Failed to parse transaction XDR: " +:+ e)) (envelope_from_xdr xdr)) in
      let* signed_user_auth := liftM (result_map_err
        (fun e => TransactionError.ValidationError ("Failed to deserialize auth: " +:+ e))
        (auth_entry_from_xdr signed_auth_entry_xdr)) in
      let* r := liftM (inject_auth_entries_into_envelope envelope signed_user_auth) in
      let '(envelope, signed_auth_entries) := r in
      let* envelope := simulate_and_update_resources envelope signed_auth_entries in
      do* match policy with
          | Some policy =>
              let* required_xlm_fee := liftM (result_map_err TransactionError.ValidationError
                                                (envelope_fee_in_stroops envelope)) in
              validate_gas_abstraction_fee (default signed_user_auth (head signed_auth_entries))
                policy required_xlm_fee
          | None => retM tt
          end in
      let* sequence_number := get_next_sequence relayer_id relayer_address in
      let* envelope := liftM (result_map_err TransactionError.ValidationError
                                (update_envelope_sequence envelope sequence_number)) in
      let* updated_xdr := liftM (result_map_err
        (fun e => TransactionError.UnexpectedError
           ("Failed to serialize updated envelope: " +:+ e)) (envelope_to_xdr envelope)) in
      retM (set_transaction_input (UnsignedXdr updated_xdr)
              (with_sequence_number sequence_number stellar_data))
  | _ => failM (TransactionError.ValidationError
                  "Expected SorobanGasAbstraction transaction input")
  end.

(** ** Preparation ([prepare/mod.rs]) *)

Definition finalize_with_signature (tx : TransactionRepoModel)
    (stellar_data : StellarTransactionData) : T S C TransactionRepoModel :=
  let* r := sign_and_finalize_transaction tx stellar_data in
  let '(tx, final_stellar_data) := r in
  update_and_notify_transaction (tx_id tx) final_stellar_data.

Definition prepare_core (tx : TransactionRepoModel) : T S C TransactionRepoModel :=
  let* stellar_data := liftM (get_stellar_transaction_data (tx_network_data tx)) in
  let policy := get_stellar_policy (rel_policies relayer) in
  match st_transaction_input stellar_data with
  | Operations _ =>
      let* stellar_data_with_sim :=
        process_operations (rel_id relayer) (rel_address relayer) stellar_data (Some policy) in
      finalize_with_signature tx stellar_data_with_sim
  | UnsignedXdr _ =>
      let* stellar_data_with_sim :=
        process_unsigned_xdr (rel_id relayer) (rel_address relayer) stellar_data (Some policy) in
      finalize_with_signature tx stellar_data_with_sim
  | SignedXdr _ _ =>
      let* stellar_data_with_fee_bump :=
        process_fee_bump (rel_address relayer) stellar_data (Some policy) in
      update_and_notify_transaction (tx_id tx) stellar_data_with_fee_bump
  | SorobanGasAbstraction _ _ =>
      let* stellar_data_with_auth :=
        process_soroban_gas_abstraction (rel_id relayer) (rel_address relayer) stellar_data
          (Some policy) in
      finalize_with_signature tx stellar_data_with_auth
  end.

(** The synchronisation is best effort: its error is logged. *)
Definition sync_best_effort (tx : TransactionRepoModel) : T S C unit :=
  match get_stellar_transaction_data (tx_network_data tx) with
  | Ok stellar_data =>
      let* _ := try_ (sync_sequence_from_chain (st_source_account stellar_data)) in retM tt
  | Err _ => retM tt
  end.

Definition failed_update (reason : string) : TransactionUpdateRequest :=
  upd_with_reason (Some reason) (upd_with_status Failed).

Definition handle_prepare_failure (tx : TransactionRepoModel) (error : TransactionError.t)
  : T S C TransactionRepoModel :=
  let error_reason := "Preparation failed: " +:+ transaction_error_display error in
  do* sync_best_effort tx in
  let* _ := try_ (finalize_transaction_state (tx_id tx) (failed_update error_reason)) in
  do* if negb concurrent_transactions_enabled then
        let* r := try_ (enqueue_next_pending_transaction (tx_id tx)) in
        match r with
        | Err _ => free_lane (tx_id tx)
        | Ok _ => retM tt
        end
      else retM tt in
  failM error.

Definition prepare_transaction_impl (tx : TransactionRepoModel) : T S C TransactionRepoModel :=
  if is_final_state (tx_status tx) then retM tx
  else if negb (status_eqb (tx_status tx) Pending) then retM tx
  else
    let* claimed := if negb concurrent_transactions_enabled then claim_lane (tx_id tx)
                    else retM true in
    if negb claimed then retM tx
    else
      let* r := try_ (prepare_core tx) in
      match r with
      | Ok prepared_tx => retM prepared_tx
      | Err error => handle_prepare_failure tx error
      end.

(** ** Finalization and expiry ([status.rs]) *)

(** The error of the hand-over is logged. *)
Definition mark_as_failed (tx : TransactionRepoModel) (reason : string)
  : T S C TransactionRepoModel :=
  let* failed_tx := finalize_transaction_state (tx_id tx) (failed_update reason) in
  let* _ := try_ (enqueue_next_pending_transaction (tx_id tx)) in
  retM failed_tx.

Definition mark_as_expired (tx : TransactionRepoModel) (reason : string)
  : T S C TransactionRepoModel :=
  let* expired_tx := finalize_transaction_state (tx_id tx)
                       (upd_with_reason (Some reason) (upd_with_status Expired)) in
  let* _ := try_ (enqueue_next_pending_transaction (tx_id tx)) in
  retM expired_tx.

Definition is_valid_until_string_expired (valid_until : string) : T S C bool :=
  match parse_rfc3339 valid_until with
  | Some dt => let* n := now in retM (dt <? n)
  | None =>
      match parse_i64 valid_until with
      | Some ts => if ts =? 0 then retM false
                   else let* n := now in retM (ts <? n / 10 ^ 9)
      | None => retM false
      end
  end.

Definition is_transaction_expired (tx : TransactionRepoModel) : T S C bool :=
  match tx_valid_until tx with
  | Some valid_until_str => is_valid_until_string_expired valid_until_str
  | None =>
      let* stellar_data := liftM (get_stellar_transaction_data (tx_network_data tx)) in
      match st_signed_envelope_xdr stellar_data with
      | None => retM false
      | Some signed_xdr =>
          match parse_transaction_xdr signed_xdr true with
          | Err _ => retM false
          | Ok envelope =>
              match extract_time_bounds envelope with
              | None => retM false
              | Some tb =>
                  if Xdr.max_time tb =? 0 then retM false
                  else let* n := now in retM (Xdr.max_time tb <? wrapu 64 (n / 10 ^ 9))
              end
          end
      end
  end.

(** ** Submission ([submit.rs]) *)

(** The submit job is best effort: its error is logged. *)
Definition fast_resubmit (tx : TransactionRepoModel) (retries : Z) : T S C unit :=
  let delay_seconds := STELLAR_FAST_RESUBMIT_BASE_DELAY_SECONDS * retries in
  let* _ := try_ (send_submit_transaction_job tx (Some delay_seconds)) in
  retM tt.

Definition submit_accepted (tx : TransactionRepoModel) (stellar_data : StellarTransactionData)
    (response : SendTransactionResponse) : T S C TransactionRepoModel :=
  let tx_hash_hex := sn_hash response in
  let updated_stellar_data := with_hash tx_hash_hex stellar_data in
  let hashes := if existsb (String.eqb tx_hash_hex) (tx_hashes tx) then tx_hashes tx
                else tx_hashes tx ++ [tx_hash_hex] in
  let* n := now in
  let update_req :=
    upd_with_hashes hashes (upd_with_stellar_data (Some updated_stellar_data)
      (upd_with_sent_at (Some (to_rfc3339 n)) (upd_with_status Submitted))) in
  let* updated_tx := partial_update (tx_id tx) update_req in
  do* if String.eqb (sn_status response) "PENDING" then notify relayer updated_tx
      else retM tt in
  retM updated_tx.

Definition submit_try_again_later (tx : TransactionRepoModel) : T S C TransactionRepoModel :=
  let* n := now in
  let* updated_tx := repo (repo_record_stellar_try_again_later_retry (tx_id tx) (to_rfc3339 n)) in
  if is_final_state (tx_status updated_tx) then retM updated_tx
  else
    let retries := match tx_metadata updated_tx with
                   | Some m => try_again_later_retries m
                   | None => 0
                   end in
    do* if retries <=? STELLAR_TRY_AGAIN_LATER_FAST_RETRIES then fast_resubmit updated_tx retries
        else retM tt in
    retM updated_tx.

Definition submit_insufficient_fee (tx : TransactionRepoModel) : T S C TransactionRepoModel :=
  let meta := default metadata_default (tx_metadata tx) in
  let retries := sat_add u32_max (insufficient_fee_retries meta) 1 in
  if STELLAR_INSUFFICIENT_FEE_MAX_RETRIES <? retries then
    failM (TransactionError.UnexpectedError
      ("Transaction submission error: insufficient fee retry limit exceeded (" +:+
       print_dec STELLAR_INSUFFICIENT_FEE_MAX_RETRIES +:+ ")"))
  else
    let* n := now in
    let* updated_tx :=
      repo (repo_record_stellar_insufficient_fee_retry (tx_id tx) (to_rfc3339 n)) in
    if is_final_state (tx_status updated_tx) then retM updated_tx
    else
      let retries := match tx_metadata updated_tx with
                     | Some m => insufficient_fee_retries m
                     | None => 0
                     end in
      if STELLAR_INSUFFICIENT_FEE_MAX_RETRIES <? retries then retM updated_tx
      else
        do* fast_resubmit updated_tx retries in
        retM updated_tx.

Definition submit_core (tx : TransactionRepoModel) : T S C TransactionRepoModel :=
  let* stellar_data := liftM (get_stellar_transaction_data (tx_network_data tx)) in
  let* tx_envelope := liftM (result_map_err TransactionError.SignerError
                               (get_envelope_for_submission stellar_data)) in
  let* response := map_errM TransactionError.UnderlyingProvider
                     (send_transaction_with_status tx_envelope) in
  let status := sn_status response in
  if String.eqb status "PENDING" || String.eqb status "DUPLICATE" then
    submit_accepted tx stellar_data response
  else if String.eqb status "TRY_AGAIN_LATER" then submit_try_again_later tx
  else if String.eqb status "ERROR" then
    let error_detail := default "No error details provided" (sn_error_result_xdr response) in
    let decoded_result_code := decode_transaction_result_code error_detail in
    if match decoded_result_code with Some c => is_insufficient_fee_error c | None => false end
    then submit_insufficient_fee tx
    else failM (TransactionError.UnexpectedError
           ("Transaction submission error: " +:+ default error_detail decoded_result_code))
  else failM (TransactionError.UnexpectedError ("Unknown transaction status: " +:+ status)).

(** The last part of [handle_submit_failure]: the transaction has failed. *)
Definition fail_submission (tx : TransactionRepoModel) (error : TransactionError.t)
    (error_reason : string) : T S C TransactionRepoModel :=
  let* r := try_ (finalize_transaction_state (tx_id tx) (failed_update error_reason)) in
  match r with
  | Err _ => failM error
  | Ok failed_tx =>
      let* _ := try_ (enqueue_next_pending_transaction (tx_id tx)) in
      retM failed_tx
  end.

Definition handle_submit_failure (tx : TransactionRepoModel) (error : TransactionError.t)
  : T S C TransactionRepoModel :=
  let error_reason := "Submission failed: " +:+ transaction_error_display error in
  if is_concurrent_update_conflict error then repo (repo_get_by_id (tx_id tx))
  else if is_bad_sequence_error error_reason then
    let* reset_result := try_ (reset_transaction_for_retry tx) in
    do* sync_best_effort tx in
    match reset_result with
    | Ok reset_tx => retM reset_tx
    | Err _ => fail_submission tx error error_reason
    end
  else fail_submission tx error error_reason.

Definition submit_transaction_impl (tx : TransactionRepoModel) : T S C TransactionRepoModel :=
  if is_final_state (tx_status tx) then retM tx
  else
    let* expired := is_transaction_expired tx in
    if expired then mark_as_expired tx "Transaction time_bounds expired"
    else
      let* r := try_ (submit_core tx) in
      match r with
      | Ok submitted_tx => retM submitted_tx
      | Err error => handle_submit_failure tx error
      end.

(** ** Status handling ([status.rs]) *)

Definition parse_and_validate_hash (tx : TransactionRepoModel) : result TransactionError.t string :=
  let? stellar_network_data := get_stellar_transaction_data (tx_network_data tx) in
  let? tx_hash_str :=
    ok_or match st_hash stellar_network_data with
          | Some s => if String.eqb s "" then None else Some s
          | None => None
          end
      (TransactionError.ValidationError
         ("Stellar transaction " +:+ tx_id tx +:+
          " is missing or has an empty on-chain hash in network_data. Cannot check status.")) in
  match hash_parse_error tx_hash_str with
  | Some e => Err (TransactionError.UnexpectedError
      ("Failed to parse transaction hash '" +:+ tx_hash_str +:+ "' for tx " +:+ tx_id tx +:+
       ": " +:+ e +:+ ". This hash may be corrupted or not a valid Stellar hash."))
  | None => Ok tx_hash_str
  end.

Definition confirmed_data (response : GetTransactionResponse)
    (stellar_data : StellarTransactionData) : StellarTransactionData :=
  let stellar_data := match gt_result response with
                      | Some (fee_charged, _) => with_fee (wrapu 32 fee_charged) stellar_data
                      | None => stellar_data
                      end in
  match gt_result_meta response ≫= extract_return_value_from_meta with
  | Some return_value =>
      match scval_to_xdr return_value with
      | Ok xdr_base64 => with_transaction_result_xdr xdr_base64 stellar_data
      | Err _ => stellar_data
      end
  | None => stellar_data
  end.

Definition handle_stellar_success (tx : TransactionRepoModel)
    (provider_response : GetTransactionResponse) : T S C TransactionRepoModel :=
  let updated_network_data :=
    confirmed_data provider_response <$>
      result_ok (get_stellar_transaction_data (tx_network_data tx)) in
  let* n := now in
  let update_request :=
    upd_with_stellar_data updated_network_data
      (upd_with_confirmed_at (Some (to_rfc3339 n)) (upd_with_status Confirmed)) in
  let* confirmed_tx := finalize_transaction_state (tx_id tx) update_request in
  do* enqueue_next_pending_transaction (tx_id tx) in
  retM confirmed_tx.

Definition handle_stellar_failed (tx : TransactionRepoModel)
    (provider_response : GetTransactionResponse) : T S C TransactionRepoModel :=
  let* updated_tx := finalize_transaction_state (tx_id tx)
                       (failed_update (failure_reason provider_response)) in
  do* enqueue_next_pending_transaction (tx_id tx) in
  retM updated_tx.

Definition get_age_since_sent_or_created (tx : TransactionRepoModel) : T S C Z :=
  match tx_sent_at tx ≫= parse_rfc3339 with
  | Some sent => let* n := now in retM (n - sent)
  | None => get_age_since_created tx
  end.

Definition check_expiration_and_max_lifetime (tx : TransactionRepoModel) (failed_reason : string)
  : T S C (option TransactionRepoModel) :=
  let* age := get_age_since_created tx in
  let* expired := try_ (is_transaction_expired tx) in
  match expired with
  | Ok true => let* t := mark_as_expired tx "Transaction time_bounds expired" in retM (Some t)
  | _ =>
      if STELLAR_MAX_STUCK_TRANSACTION_LIFETIME_MINUTES * 60 * 10 ^ 9 <? age
      then let* t := mark_as_failed tx failed_reason in retM (Some t)
      else retM None
  end.

(** The last part of the Sent and Submitted handlers: a submit job when the last attempt is
    older than the interval of the ladder. *)
Definition resubmit_with_backoff (tx : TransactionRepoModel) : T S C unit :=
  let* total_age := get_age_since_created tx in
  match compute_resubmit_backoff_interval total_age STELLAR_RESUBMIT_BASE_INTERVAL_SECONDS
          STELLAR_RESUBMIT_MAX_INTERVAL_SECONDS STELLAR_RESUBMIT_GROWTH_FACTOR with
  | None => retM tt
  | Some backoff_interval =>
      let* age_since_last_submit := get_age_since_sent_or_created tx in
      if backoff_interval <? age_since_last_submit then send_submit_transaction_job tx None
      else retM tt
  end.

Definition handle_sent_state (tx : TransactionRepoModel) : T S C TransactionRepoModel :=
  let* handled := check_expiration_and_max_lifetime tx
                    "Transaction stuck in Sent status for too long" in
  match handled with
  | Some result => retM result
  | None => do* resubmit_with_backoff tx in retM tx
  end.

Definition get_time_since_created_at (tx : TransactionRepoModel) : T S C Z :=
  match parse_rfc3339 (tx_created_at tx) with
  | Some dt => let* n := now in retM (n - dt)
  | None => failM (TransactionError.UnexpectedError
      ("Invalid created_at timestamp for transaction " +:+ tx_id tx +:+ ": " +:+
       parse_rfc3339_error (tx_created_at tx)))
  end.

Definition handle_pending_state (tx : TransactionRepoModel) : T S C TransactionRepoModel :=
  let* handled := check_expiration_and_max_lifetime tx
                    "Transaction stuck in Pending status for too long" in
  match handled with
  | Some result => retM result
  | None =>
      let* age := get_time_since_created_at tx in
      do* if STELLAR_PENDING_RECOVERY_TRIGGER_SECONDS <=? Z.quot age (10 ^ 9) then
            let* _ := try_ (queue (JRequest (transaction_request (tx_id tx) (tx_relayer_id tx))
                                     None)) in
            retM tt
          else retM tt in
      retM tx
  end.

Definition handle_submitted_state (tx : TransactionRepoModel) : T S C TransactionRepoModel :=
  match parse_and_validate_hash tx with
  | Err e => mark_as_failed tx
      ("Failed to parse and validate hash: " +:+ transaction_error_display e)
  | Ok stellar_hash =>
      let* provider_response := map_errM TransactionError.UnderlyingProvider
                                  (call (fun t => stellar_get_transaction t stellar_hash)) in
      let status := to_uppercase (gt_status provider_response) in
      if String.eqb status "SUCCESS" then handle_stellar_success tx provider_response
      else if String.eqb status "FAILED" then handle_stellar_failed tx provider_response
      else
        let* handled := check_expiration_and_max_lifetime tx
                          "Transaction stuck in Submitted status for too long" in
        match handled with
        | Some result => retM result
        | None => do* resubmit_with_backoff tx in retM tx
        end
  end.

Definition status_core (tx : TransactionRepoModel) : T S C TransactionRepoModel :=
  match tx_status tx with
  | Pending => handle_pending_state tx
  | Sent => handle_sent_state tx
  | _ => handle_submitted_state tx
  end.

Definition monitoring_failed_reason (tx : TransactionRepoModel) (ctx : StatusCheckContext)
  : string :=
  "Transaction status monitoring failed after " +:+ print_dec (ctx_consecutive_failures ctx) +:+
  " consecutive errors (total: " +:+ print_dec (ctx_total_failures ctx) +:+
  "). Last status: " +:+ status_name (tx_status tx) +:+
  ". Unable to determine final on-chain state.".

Definition handle_transaction_status_impl (tx : TransactionRepoModel)
    (context : option StatusCheckContext) : T S C TransactionRepoModel :=
  if is_final_state (tx_status tx) then retM tx
  else
    let force := match context with Some ctx => should_force_finalize ctx | None => false end in
    match context, force with
    | Some ctx, true => mark_as_failed tx (monitoring_failed_reason tx ctx)
    | _, _ =>
        let* r := try_ (status_core tx) in
        match r with
        | Ok updated_tx => retM updated_tx
        | Err error =>
            if is_concurrent_update_conflict error then repo (repo_get_by_id (tx_id tx))
            else match error with
                 | TransactionError.ValidationError msg =>
                     mark_as_failed tx ("Validation error: " +:+ msg)
                 | _ => failM error
                 end
        end
    end.

(** The [Transaction] trait. *)
Definition stellar_network (h : handler) (tx : TransactionRepoModel) : T S C TransactionRepoModel :=
  match h with
  | HPrepare => prepare_transaction_impl tx
  | HSubmit => submit_transaction_impl tx
  | HStatus context => handle_transaction_status_impl tx context
  | HResubmit | HCancel | HReplace _ => retM tx
  end.
End Stellar.

(** ** The in-memory repository implements the interface *)

Lemma update_if_active_metadata `{Chrono} `{ServerConfig} `{HashOrder TransactionRepoModel}
    id sent_at (f : TransactionMetadata -> TransactionMetadata) g s :
  (forall m, insufficient_fee_retries (f m) = g (insufficient_fee_retries m)) ->
  wp (InMemory.update_if_active id (fun tx =>
        set_tx_sent_at (Some sent_at) (set_tx_metadata (Some (f (default metadata_default (tx_metadata tx)))) tx)))
    (fun r s' =>
      (exists t m, InMemory.store s !! id = Some t /\ is_final_state (tx_status t) = false /\
         insufficient_fee_retries m =
           g (insufficient_fee_retries (default metadata_default (tx_metadata t))) /\
         let t' := set_tx_sent_at (Some sent_at) (set_tx_metadata (Some m) t) in
         InMemory.store s' = <[id := t']> (InMemory.store s) /\ (forall t'', r = Ok t'' -> t'' = t')) \/
      (InMemory.store s' = InMemory.store s /\
       forall t, r = Ok t -> InMemory.store s !! id = Some t /\ is_final_state (tx_status t) = true)) s.
Proof.
  intros Hf. unfold wp, InMemory.update_if_active.
  destruct (InMemory.store s !! id) as [t|] eqn:E; simpl; [|by right].
  destruct (is_final_state (tx_status t)) eqn:Hfin; simpl.
  - right. split; [done|]. by intros ? [= <-].
  - left. exists t, (f (default metadata_default (tx_metadata t))). split_and!; [done..|].
    by intros ? [= <-].
Qed.

#[global, program] Instance in_memory_stellar `{Chrono} `{ServerConfig}
    `{HashOrder TransactionRepoModel} : StellarRepository InMemory.state := {|
  repo_find_by_status_paginated := InMemory.find_by_status_paginated;
  repo_record_stellar_try_again_later_retry := InMemory.record_stellar_try_again_later_retry;
  repo_record_stellar_insufficient_fee_retry := InMemory.record_stellar_insufficient_fee_retry;
|}.
Next Obligation.
  intros ??? rid sts q oldest s. unfold wp. simpl. split; [done|]. intros p t [= <-] Hin. simpl in Hin.
  assert (Ht : t ∈ sorted_by (InMemory.status_order oldest)
                     (List.filter (InMemory.matches_status rid sts) (hash_values (InMemory.store s)))).
  { eapply elem_of_sublist; [exact Hin|]. etransitivity; [apply sublist_take|apply sublist_drop]. }
  rewrite sorted_by_perm, InMemory.elem_of_list_filter, elem_of_hash_values in Ht.
  destruct Ht as [? [?%String.eqb_eq ?]%andb_true_iff]. done.
Qed.
Next Obligation.
  intros ??? id sent_at s. exact (update_if_active_metadata id sent_at (fun m => {|
    consecutive_failures := consecutive_failures m;
    total_failures := total_failures m;
    insufficient_fee_retries := insufficient_fee_retries m;
    try_again_later_retries := sat_add u32_max (try_again_later_retries m) 1;
    nonce_too_high_retries := nonce_too_high_retries m |}) (fun n => n) s (fun _ => eq_refl)).
Qed.
Next Obligation.
  intros ??? id sent_at s. exact (update_if_active_metadata id sent_at (fun m => {|
    consecutive_failures := consecutive_failures m;
    total_failures := total_failures m;
    insufficient_fee_retries := sat_add u32_max (insufficient_fee_retries m) 1;
    try_again_later_retries := try_again_later_retries m;
    nonce_too_high_retries := nonce_too_high_retries m |}) (fun n => sat_add u32_max n 1) s
    (fun _ => eq_refl)).
Qed.
