(* ===== verification/StellarSample.v ===== *)
(** * A sample Stellar world

    Concrete values for the Stellar theorems: a small instance of the XDR interface, in which
    an envelope with one opaque operation is printed as a number, a node and a signer that
    answer with chosen values, relayers and transactions. *)

From S2P Require Import Prelude Decimal Errors Json Model Config StellarXdr Repository Counter.
From S2P Require Import Jobs Effects Sample JobHandlers Stellar.
Open Scope Z_scope.

Definition sample_key : list Byte.byte := replicate 32 Byte.x00.
Definition sample_op : Xdr.Operation :=
  {| Xdr.op_source_account := None; Xdr.op_body := Xdr.OtherBody [] |}.
Definition sample_decorated : DecoratedSignature := {| ds_hint := []; ds_signature := [] |}.

Definition sample_envelope (fee seq : Z) (sigs : nat) : TransactionEnvelope :=
  Tx {| Xdr.tx_source_account := Xdr.Ed25519 sample_key; Xdr.tx_fee := fee; Xdr.tx_seq_num := seq;
        Xdr.tx_cond := Xdr.PreNone; Xdr.tx_memo := Xdr.NoMemo; Xdr.tx_operations := [sample_op];
        Xdr.tx_ext := Xdr.ExtV0 |} (replicate sigs sample_decorated).

(** An envelope as the number [(seq * 2^32 + fee) * 32 + signatures]. *)
Definition sample_code (fee seq : Z) (sigs : nat) : Z := (seq * 2 ^ 32 + fee) * 32 + Z.of_nat sigs.

Definition is_sample_signature (s : DecoratedSignature) : bool :=
  match ds_hint s, ds_signature s with [], [] => true | _, _ => false end.

Definition key_eqb (a b : list Byte.byte) : bool :=
  if List.list_eq_dec Byte.byte_eq_dec a b then true else false.

Definition sample_to_xdr (e : TransactionEnvelope) : result string string :=
  match e with
  | Tx {| Xdr.tx_source_account := Xdr.Ed25519 key; Xdr.tx_fee := fee; Xdr.tx_seq_num := seq;
          Xdr.tx_cond := Xdr.PreNone; Xdr.tx_memo := Xdr.NoMemo;
          Xdr.tx_operations := [ {| Xdr.op_source_account := None;
                                    Xdr.op_body := Xdr.OtherBody [] |} ];
          Xdr.tx_ext := Xdr.ExtV0 |} sigs =>
      if key_eqb key sample_key && forallb is_sample_signature sigs && (length sigs <? 32)%nat &&
         (0 <=? fee) && (fee <? 2 ^ 32) && (0 <=? seq) && (seq <=? i64_max)
      then Ok (print_dec (sample_code fee seq (length sigs)))
      else Err "unsupported"%string
  | _ => Err "unsupported"%string
  end.

Definition sample_from_xdr (s : string) : result string TransactionEnvelope :=
  match parse_unsigned u128_max s with
  | Some n => Ok (sample_envelope (n / 32 mod 2 ^ 32) (n / 32 / 2 ^ 32) (Z.to_nat (n mod 32)))
  | None => Err "Invalid"%string
  end.

Definition sample_sdk : StellarSdk :=
  {| envelope_from_xdr := sample_from_xdr;
     envelope_to_xdr := sample_to_xdr;
     soroban_data_from_xdr := fun _ => Err "unsupported"%string;
     auth_entry_from_xdr := fun _ => Err "unsupported"%string;
     scval_to_xdr := fun _ => Err "unsupported"%string;
     result_name_from_xdr := fun s => Some s;
     hash_parse_error := fun _ => None;
     scval_debug := fun _ => ""%string;
     strkey_public_key := fun k => String "G" (String.string_of_list_byte k);
     strkey_contract := fun k => String "C" (String.string_of_list_byte k);
     public_key_from_string := fun s =>
       match s with
       | String "G" s' => Ok (String.list_byte_of_string s')
       | _ => Err "invalid"%string
       end;
     muxed_account_from_string := fun _ => None;
     operation_try_from := fun _ => Ok sample_op;
     memo_text_error := fun _ => None |}.

Lemma sample_signatures sigs :
  forallb is_sample_signature sigs = true -> sigs = replicate (length sigs) sample_decorated.
Proof.
  induction sigs as [|[[|] [|]] sigs IH]; simpl; try done. intros Hs. by rewrite <- IH.
Qed.

Lemma sample_decode fee seq sigs :
  0 <= fee < 2 ^ 32 -> (sigs < 32)%nat ->
  let n := sample_code fee seq sigs in
  n / 32 mod 2 ^ 32 = fee /\ n / 32 / 2 ^ 32 = seq /\ Z.to_nat (n mod 32) = sigs.
Proof.
  intros Hf Hs n. assert (Hd : n / 32 = seq * 2 ^ 32 + fee).
  { symmetry. apply (Z.div_unique _ _ _ (Z.of_nat sigs)); [lia|unfold n, sample_code; ring]. }
  assert (Hm : n mod 32 = Z.of_nat sigs).
  { symmetry. apply (Z.mod_unique _ _ (seq * 2 ^ 32 + fee)); [lia|unfold n, sample_code; ring]. }
  rewrite Hd, Hm. split_and!; [| |lia].
  - symmetry. apply (Z.mod_unique _ _ seq); [lia|ring].
  - symmetry. apply (Z.div_unique _ _ _ fee); [lia|ring].
Qed.

Lemma sample_roundtrip e s : sample_to_xdr e = Ok s -> sample_from_xdr s = Ok e.
Proof.
  unfold sample_to_xdr. repeat (case_match; try done). intros [= <-].
  match goal with Hb : _ = true |- _ => repeat rewrite andb_true_iff in Hb; destruct Hb as [[[[[[Hk Hs] Hn] ?] ?] ?] ?] end.
  apply sample_signatures in Hs. unfold key_eqb in Hk. case_match; [|done].
  apply Nat.ltb_lt in Hn. subst.
  match goal with |- context [sample_code ?f ?q (length ?l)] =>
    set (fee := f) in *; set (seq := q) in *; set (sigs := l) in * end.
  assert (Hc : 0 <= sample_code fee seq (length sigs) <= u128_max).
  { unfold sample_code, i64_max, u128_max in *. lia. }
  unfold sample_from_xdr. rewrite parse_print_unsigned;
    [|split; [lia|]; eapply Z.le_lt_trans; [apply Hc|by vm_compute]|lia].
  destruct (sample_decode fee seq (length sigs)) as (-> & -> & ->); [lia..|].
  unfold sample_envelope. by rewrite <- Hs.
Qed.

#[program] Definition sample_sdk_laws : @StellarSdkLaws sample_sdk := {|
  envelope_roundtrip := sample_roundtrip |}.
Next Obligation. intros k _. simpl. by rewrite String.list_byte_of_string_of_list_byte. Qed.
Next Obligation. done. Qed.

(** ** The world *)

Definition sample_account : string := String "G" (String.string_of_list_byte sample_key).

(** A relayer that pays the fees itself and takes one transaction at a time. *)
Definition stellar_relayer (id : string) : RelayerRepoModel :=
  {| rel_id := id; rel_name := id; rel_network := "testnet"; rel_paused := false;
     rel_network_type := NtStellar; rel_signer_id := "signer";
     rel_policies := StellarPolicy stellar_policy_default; rel_address := sample_account;
     rel_notification_id := None; rel_system_disabled := false; rel_disabled_reason := None;
     rel_custom_rpc_urls := None |}.

Definition sample_stellar_data (input : TransactionInput) : StellarTransactionData :=
  {| st_source_account := sample_account; st_fee := None; st_sequence_number := None;
     st_memo := None; st_valid_until := None; st_network_passphrase := "Test SDF Network";
     st_signatures := []; st_hash := None; st_simulation_transaction_data := None;
     st_transaction_input := input; st_signed_envelope_xdr := None;
     st_transaction_result_xdr := None |}.

Definition one_operation : TransactionInput := Operations [Payment "GDEST" 1 AssetNative].

(** Created at 1 second. *)
Definition stellar_tx (id : string) (d : StellarTransactionData) : TransactionRepoModel :=
  {| tx_id := id; tx_relayer_id := "stellar"; tx_status := Pending; tx_status_reason := None;
     tx_created_at := "1000000000"; tx_sent_at := None; tx_confirmed_at := None;
     tx_valid_until := None; tx_delete_at := None; tx_network_data := StellarData d;
     tx_priced_at := None; tx_hashes := []; tx_network_type := NtStellar; tx_noop_count := None;
     tx_is_canceled := None; tx_metadata := None |}.

(** The account's sequence number on chain, the answer to a submission, the answer to a lookup
    by hash. *)
Definition sample_stellar_env (seq : Z) (send : SendTransactionResponse)
    (found : GetTransactionResponse) : StellarEnv :=
  {| stellar_get_account := fun _ _ => Ok seq;
     stellar_simulate := fun _ _ => Err ProviderError.Timeout;
     stellar_send_transaction := fun _ _ => Ok send;
     stellar_get_transaction := fun _ _ => Ok found;
     stellar_sign := fun _ _ => Ok (SignedStellar sample_decorated);
     has_trustline := fun _ _ _ => false;
     validate_user_fee_payment_transaction := fun _ _ _ _ => Ok tt;
     convert_xlm_fee_to_token := fun _ _ xlm _ => Ok xlm |}.

Definition send_pending : SendTransactionResponse :=
  {| sn_status := "PENDING"; sn_hash := "ab"; sn_error_result_xdr := None |}.

Definition found_success : GetTransactionResponse :=
  {| gt_status := "SUCCESS"; gt_result := None; gt_result_meta := None; gt_diagnostic_events := [] |}.
