(* ===== verification/StellarProperties.v ===== *)
(** * Lanes, sequence numbers and the lifecycle of Stellar transactions

    What the handlers of [Stellar] do to the stored transactions, the lanes and the sequence
    counters, one after the other and in any order.  The invariant [sinv] says that a
    transaction in flight owns the lane of its relayer unless the relayer allows concurrent
    transactions, that the owner of a lane is never finished, and that the sequence numbers of
    active transactions are distinct and below the counter. *)

From S2P Require Import Prelude Decimal Errors Json Model Config StellarXdr Repository Counter.
From S2P Require Import Jobs Effects Sample EvmUtils EvmTransaction EvmStatus Lifecycle.
From S2P Require Import EvmRelayer JobHandlers Stellar.
Open Scope Z_scope.

(** ** What the invariants look at *)

(** The transaction a submit job is for. *)
Definition submit_job_id (j : QueuedJob) : option string :=
  match j with
  | JSend s _ => Some (js_transaction_id s)
  | _ => None
  end.

Section Core.
Context `{Chrono} `{ServerConfig} `{Env} `{StellarSdk} `{StellarEnv}.
Context {S C : Type} `{!TransactionRepository S} `{!StellarRepository S} `{!TransactionCounter C}.

Definition submits (w : W S C) : list string := omap submit_job_id (w_jobs w).

(** Nothing the invariants look at has changed. *)
Definition same_core (w w' : W S C) : Prop :=
  view w' = view w /\ w_lanes w' = w_lanes w /\ w_ctr w' = w_ctr w /\ submits w' = submits w.

#[global] Instance same_core_preorder : PreOrder same_core.
Proof.
  split; [by intros w|]. intros w1 w2 w3 (?&?&?&?) (?&?&?&?). unfold same_core.
  split_and!; congruence.
Qed.

Lemma core_ask {E A} (f : nat -> A) : preserves same_core (ask (E := E) f).
Proof. by intros []. Qed.

Lemma core_call {E A} (f : nat -> result E A) : preserves same_core (call f).
Proof. by intros []. Qed.

Lemma core_now {E} : preserves same_core (now (E := E)).
Proof. apply core_ask. Qed.

Lemma core_produce j : submit_job_id j = None -> preserves same_core (produce j).
Proof.
  intros Hj w. unfold produce, same_core, submits. destruct (queue_fault _), w; simpl; [done|].
  split_and!; [done..|]. rewrite omap_app. simpl. by rewrite Hj, app_nil_r.
Qed.

Lemma core_repo_call {A} (c : M S RepositoryError.t A) :
  (forall s, wp c (fun _ s' => repo_view s' = repo_view s) s) ->
  preserves same_core (repo_call c).
Proof.
  intros Hc w. unfold repo_call. specialize (Hc (w_repo w)). unfold wp in Hc.
  destruct (c (w_repo w)) as [r s']. destruct w. by split_and!.
Qed.

Lemma core_find_by_status rid sts : preserves same_core (repo_call (repo_find_by_status rid sts)).
Proof.
  apply core_repo_call. intros s. eapply wp_mono; [|apply repo_find_by_status_spec].
  by intros ?? [? _].
Qed.

Lemma core_find_paginated rid sts q o :
  preserves same_core (repo_call (repo_find_by_status_paginated rid sts q o)).
Proof.
  apply core_repo_call. intros s. eapply wp_mono; [|apply repo_find_by_status_paginated_spec].
  by intros ?? [? _].
Qed.

Lemma core_get_by_id id : preserves same_core (repo_call (repo_get_by_id id)).
Proof.
  apply core_repo_call. intros s. eapply wp_mono; [|apply repo_get_by_id_spec].
  by intros ?? [? _].
Qed.

Lemma core_send e : preserves same_core (send_transaction_with_status e).
Proof. by intros []. Qed.
End Core.
#[export] Hint Resolve core_ask core_call core_now core_find_by_status core_find_paginated
  core_get_by_id core_send : preserves_db.
#[export] Hint Extern 1 (preserves same_core (produce _)) =>
  (apply core_produce; reflexivity) : preserves_db.

(** *** Programs that read, sign or notify *)

Section Readers.
Context `{Chrono} `{ServerConfig} `{Env} `{StellarSdk} `{StellarEnv}.
Context {S C : Type} `{!TransactionRepository S} `{!StellarRepository S} `{!TransactionCounter C}.
Context (relayer : RelayerRepoModel).
Abbreviation R := (same_core (S := S) (C := C)).

Lemma core_age_created tx : preserves R (get_age_since_created tx).
Proof. unfold get_age_since_created. preserve. Qed.
Lemma core_timestamp {E} d : preserves (E := E) R (calculate_scheduled_timestamp d).
Proof. unfold calculate_scheduled_timestamp. preserve. Qed.
Lemma core_notify tx : preserves R (notify relayer tx).
Proof. unfold notify, send_transaction_update_notification. preserve. Qed.
Hint Resolve core_age_created core_timestamp core_notify : preserves_db.
Lemma core_scheduled d : preserves R (scheduled_on d).
Proof. unfold scheduled_on. preserve. Qed.
Hint Resolve core_scheduled : preserves_db.
Lemma core_request_job tx d : preserves R (send_transaction_request_job tx d).
Proof. unfold send_transaction_request_job, queue. preserve. Qed.
Lemma core_simulate e : preserves R (simulate_if_needed e).
Proof. unfold simulate_if_needed. preserve. Qed.
Lemma core_sign d : preserves R (sign_stellar_transaction d).
Proof. unfold sign_stellar_transaction. preserve. Qed.
Lemma core_oldest rid : preserves R (find_oldest_pending_for_relayer rid).
Proof. unfold find_oldest_pending_for_relayer, repo. preserve. Qed.
Lemma core_fetch a : preserves R (fetch_next_sequence_from_chain a).
Proof. unfold fetch_next_sequence_from_chain. preserve. Qed.
Hint Resolve core_request_job core_simulate core_sign core_oldest core_fetch : preserves_db.
Lemma core_fee_bump_fee e f : preserves R (calculate_fee_bump_required_fee e f).
Proof. unfold calculate_fee_bump_required_fee. preserve. Qed.
Lemma core_check_change_trusts a p ops : preserves R (check_change_trusts a p ops).
Proof. induction ops as [|op ops IH]; simpl; preserve. Qed.
Hint Resolve core_fee_bump_fee core_check_change_trusts : preserves_db.
Lemma core_exceptions e a p : preserves R (check_user_fee_exceptions e a p).
Proof.
  unfold check_user_fee_exceptions, is_change_trust_for_allowed_token_without_trustline. preserve.
Qed.
Lemma core_price e d : preserves R (price_unsigned_xdr e d).
Proof. unfold price_unsigned_xdr. preserve. Qed.
Lemma core_sign_fee_bump d e a : preserves R (sign_fee_bump_transaction d e a).
Proof. unfold sign_fee_bump_transaction. preserve. Qed.
Lemma core_update_resources e l : preserves R (simulate_and_update_resources e l).
Proof. unfold simulate_and_update_resources. preserve. Qed.
Lemma core_gas_fee a p f : preserves R (validate_gas_abstraction_fee a p f).
Proof. unfold validate_gas_abstraction_fee. preserve. Qed.
Hint Resolve core_exceptions core_price core_sign_fee_bump core_update_resources core_gas_fee
  : preserves_db.
Lemma core_fee_bump a d p : preserves R (process_fee_bump a d p).
Proof. unfold process_fee_bump. preserve. Qed.
Lemma core_string_expired v : preserves R (is_valid_until_string_expired v).
Proof. unfold is_valid_until_string_expired. preserve. Qed.
Hint Resolve core_string_expired : preserves_db.
Lemma core_expired tx : preserves R (is_transaction_expired tx).
Proof. unfold is_transaction_expired. preserve. Qed.
Lemma core_age_sent tx : preserves R (get_age_since_sent_or_created tx).
Proof. unfold get_age_since_sent_or_created. preserve. Qed.
Lemma core_time_created tx : preserves R (get_time_since_created_at tx).
Proof. unfold get_time_since_created_at. preserve. Qed.
End Readers.
#[export] Hint Resolve core_age_created core_timestamp core_notify core_scheduled core_request_job
  core_simulate core_sign core_oldest core_fetch core_fee_bump_fee core_check_change_trusts
  core_exceptions core_price core_sign_fee_bump core_update_resources core_gas_fee core_fee_bump
  core_string_expired core_expired core_age_sent core_time_created : preserves_db.

(** ** Conditions on the core *)

Section Stable.
Context `{Chrono} `{ServerConfig} {S C : Type} `{!TransactionRepository S} `{!TransactionCounter C}.

(** A condition on the parts of the world that a [same_core] program leaves alone. *)
Definition stable (P : W S C -> Prop) : Prop := forall w w', same_core w w' -> P w -> P w'.

Lemma keeps_stable {E A} (P : W S C -> Prop) (c : M (W S C) E A) :
  stable P -> preserves same_core c -> keeps P c (fun _ => True).
Proof. intros HP. by apply keeps_of_preserves. Qed.
End Stable.

(** Step over a program that does not touch the core. *)
Tactic Notation "skip_core" "as" simple_intropattern(p) :=
  eapply keeps_bind; [eapply keeps_stable; [eassumption|preserve]|]; intros p _.

(** ** The lane gate *)

Lemma pass_to_owner r a b l : l !! r = Some a -> LaneGate.pass_to r a b l = <[r := b]> l.
Proof. intros Hl. unfold LaneGate.pass_to. by rewrite Hl, String.eqb_refl. Qed.

Lemma pass_to_not_owner r a b l : l !! r <> Some a -> LaneGate.pass_to r a b l = l.
Proof.
  intros Hl. unfold LaneGate.pass_to. destruct (l !! r) as [o|] eqn:Ho; [|done].
  destruct (String.eqb_spec o a); [congruence|done].
Qed.

Lemma pass_to_other r r' a b l : r' <> r -> LaneGate.pass_to r a b l !! r' = l !! r'.
Proof.
  intros Hne. destruct (decide (l !! r = Some a)); [|by rewrite pass_to_not_owner].
  by rewrite pass_to_owner, lookup_insert_ne.
Qed.

Lemma free_owner r a l : l !! r = Some a -> LaneGate.free r a l = delete r l.
Proof. intros Hl. unfold LaneGate.free. by rewrite Hl, String.eqb_refl. Qed.

Lemma free_not_owner r a l : l !! r <> Some a -> LaneGate.free r a l = l.
Proof.
  intros Hl. unfold LaneGate.free. destruct (l !! r) as [o|] eqn:Ho; [|done].
  destruct (String.eqb_spec o a); [congruence|done].
Qed.

Lemma free_other r r' a l : r' <> r -> LaneGate.free r a l !! r' = l !! r'.
Proof.
  intros Hne. destruct (decide (l !! r = Some a)); [|by rewrite free_not_owner].
  by rewrite free_owner, lookup_delete_ne.
Qed.

(** ** The invariant *)

Definition in_flight (t : TransactionRepoModel) : bool :=
  negb (is_final_state (tx_status t)) && negb (status_eqb (tx_status t) Pending).

Definition active (t : TransactionRepoModel) : Prop := is_pending_transaction (tx_status t) = true.

Definition fee_retries (t : TransactionRepoModel) : Z :=
  insufficient_fee_retries (default metadata_default (tx_metadata t)).

Section Invariant.
(** The relayers, by id. *)
Context (relayer_of : string -> RelayerRepoModel).

(** A Stellar relayer that takes one transaction at a time. *)
Definition sequential (r : string) : Prop :=
  rel_network_type (relayer_of r) = NtStellar /\
  concurrent_transactions_enabled (relayer_of r) = false.

Definition counter_at (cv : gmap CounterKey Z) (r : string) : Z :=
  default 0 (cv !! (r, rel_address (relayer_of r))).

(** Over the stored transactions, the lanes, the counters, and the transactions for which a
    submit job was ever queued.  Between the finalization of a transaction and the release of
    its lane, the [gap], a finished transaction still owns its lane. *)
Record sinv (gap : option string) (v : gmap string TransactionRepoModel)
    (l : gmap string string) (cv : gmap CounterKey Z) (subs : list string) : Prop := {
  si_ids : forall j t, v !! j = Some t -> tx_id t = j;
  si_lane : forall j t, v !! j = Some t -> sequential (tx_relayer_id t) ->
    in_flight t = true \/ j ∈ subs ->
    is_final_state (tx_status t) = true \/ l !! tx_relayer_id t = Some j;
  si_owner : forall r j, l !! r = Some j -> sequential r /\
    exists t, v !! j = Some t /\ tx_relayer_id t = r /\
      (is_final_state (tx_status t) = false \/ gap = Some j);
  si_seq : forall j t s, v !! j = Some t -> stellar_sequence t = Some s ->
    s <= i64_max /\ (active t -> 0 <= s < counter_at cv (tx_relayer_id t));
  si_distinct : forall j1 j2 t1 t2 s, v !! j1 = Some t1 -> v !! j2 = Some t2 ->
    active t1 -> active t2 -> tx_relayer_id t1 = tx_relayer_id t2 ->
    stellar_sequence t1 = Some s -> stellar_sequence t2 = Some s -> j1 = j2;
  si_fee : forall j t, v !! j = Some t -> fee_retries t <= STELLAR_INSUFFICIENT_FEE_MAX_RETRIES;
  si_ctr : forall r, 0 <= counter_at cv r;
}.

(** A sequence number no other active transaction of the relayer has. *)
Definition fresh_seq (v : gmap string TransactionRepoModel) (cv : gmap CounterKey Z)
    (i r : string) (s : Z) : Prop :=
  0 <= s < counter_at cv r /\
  forall j u, j <> i -> v !! j = Some u -> active u -> tx_relayer_id u = r ->
    stellar_sequence u <> Some s.

Lemma sinv_update gap gap' v l cv subs i t t' :
  sinv gap v l cv subs -> v !! i = Some t -> tx_id t' = i ->
  tx_relayer_id t' = tx_relayer_id t ->
  (sequential (tx_relayer_id t) -> in_flight t' = true \/ i ∈ subs ->
     is_final_state (tx_status t') = true \/ l !! tx_relayer_id t = Some i) ->
  (gap = None \/ gap = gap') ->
  (is_final_state (tx_status t') = false \/ gap' = Some i) ->
  (forall s, stellar_sequence t' = Some s ->
     s <= i64_max /\ (active t' -> fresh_seq v cv i (tx_relayer_id t) s)) ->
  fee_retries t' <= STELLAR_INSUFFICIENT_FEE_MAX_RETRIES ->
  sinv gap' (<[i := t']> v) l cv subs.
Proof.
  intros [Hids Hlane Hown Hseq Hdis Hfee Hctr] Hi Hid Hr Hl Hg Hf Hs Hfe. split.
  - intros j u [[<- <-]|[? ?]]%lookup_insert_Some; eauto.
  - intros j u [[<- <-]|[? ?]]%lookup_insert_Some; [rewrite Hr|]; eauto.
  - intros r j Hj. destruct (Hown r j Hj) as (Hsq & u & Hu & Hru & Hfu). split; [done|].
    destruct (decide (i = j)) as [<-|Hne].
    + exists t'. rewrite lookup_insert_eq. simplify_eq. done.
    + exists u. rewrite lookup_insert_ne by done. split_and!; [done..|].
      destruct Hfu as [?|Hgj]; [by left|right]. destruct Hg as [->|<-]; done.
  - intros j u s [[<- <-]|[? ?]]%lookup_insert_Some; [|by eauto].
    intros Hu. destruct (Hs s Hu) as [? Ha]. split; [done|]. intros ?%Ha. rewrite Hr.
    by destruct H0.
  - intros j1 j2 u1 u2 s [[<- <-]|[? H1]]%lookup_insert_Some
      [[<- <-]|[? H2]]%lookup_insert_Some A1 A2 Hrr S1 S2; [done| | |by eauto].
    + destruct (proj2 (Hs s S1) A1) as [_ Hfr]. rewrite Hr in Hrr. by destruct (Hfr j2 u2).
    + destruct (proj2 (Hs s S2) A2) as [_ Hfr]. rewrite Hr in Hrr. by destruct (Hfr j1 u1).
  - intros j u [[<- <-]|[? ?]]%lookup_insert_Some; eauto.
  - done.
Qed.

(** A transaction that stays active keeps its sequence number to itself. *)
Lemma sinv_keep_seq gap v l cv subs i t s :
  sinv gap v l cv subs -> v !! i = Some t -> stellar_sequence t = Some s ->
  s <= i64_max /\ (active t -> fresh_seq v cv i (tx_relayer_id t) s).
Proof.
  intros [_ _ _ Hseq Hdis _ _] Hi Hs. destruct (Hseq _ _ _ Hi Hs) as [? Ha]. split; [done|].
  intros Hact. split; [by apply Ha|]. intros j u Hne Hu Hau Hru Hsu. eapply Hne, Hdis; eauto.
Qed.

Lemma sinv_claim v l cv subs i t :
  sinv None v l cv subs -> v !! i = Some t -> is_final_state (tx_status t) = false ->
  sequential (tx_relayer_id t) -> l !! tx_relayer_id t = None ->
  sinv None v (<[tx_relayer_id t := i]> l) cv subs.
Proof.
  intros [Hids Hlane Hown Hseq Hdis Hfee Hctr] Hi Hf Hsq Hl. split; [done| | |done..].
  - intros j u Hj Hsu He. destruct (Hlane j u Hj Hsu He) as [?|Hlu]; [by left|right].
    rewrite lookup_insert_ne; [done|]. intros Hr. congruence.
  - intros r j [[<- <-]|[? ?]]%lookup_insert_Some; [|by apply Hown]. split; [done|]. eauto.
Qed.

(** Passing the lane of a finished transaction on, or freeing it. *)
Lemma sinv_release v l l' cv subs i t :
  sinv (Some i) v l cv subs -> v !! i = Some t -> is_final_state (tx_status t) = true ->
  (forall r, r <> tx_relayer_id t -> l' !! r = l !! r) ->
  (l !! tx_relayer_id t <> Some i -> l' !! tx_relayer_id t = l !! tx_relayer_id t) ->
  (l !! tx_relayer_id t = Some i -> forall j, l' !! tx_relayer_id t = Some j ->
     exists u, v !! j = Some u /\ tx_relayer_id u = tx_relayer_id t /\
       is_final_state (tx_status u) = false) ->
  sinv None v l' cv subs.
Proof.
  intros [Hids Hlane Hown Hseq Hdis Hfee Hctr] Hi Hf Ho Hne Hp. split; [done| | |done..].
  - intros j u Hj Hsu He. destruct (Hlane j u Hj Hsu He) as [?|Hlu]; [by left|].
    destruct (decide (tx_relayer_id u = tx_relayer_id t)) as [Hr|Hr].
    + destruct (decide (l !! tx_relayer_id t = Some i)) as [Hli|Hli].
      * left. rewrite Hr, Hli in Hlu. by simplify_eq.
      * right. rewrite Hr in *. by rewrite Hne.
    + right. by rewrite Ho.
  - intros r j Hj. destruct (decide (r = tx_relayer_id t)) as [->|Hr].
    + destruct (decide (l !! tx_relayer_id t = Some i)) as [Hli|Hli].
      * destruct (Hown _ _ Hli) as [? _]. split; [done|].
        destruct (Hp Hli j Hj) as (u & ? & ? & ?). eauto 6.
      * rewrite Hne in Hj by done. destruct (Hown _ _ Hj) as (? & u & ? & ? & [?|?]); [by eauto 6|].
        simplify_eq.
    + rewrite Ho in Hj by done. destruct (Hown _ _ Hj) as (? & u & ? & Hru & [?|?]); [by eauto 6|].
      simplify_eq.
Qed.

Lemma sinv_submit gap v l cv subs i :
  sinv gap v l cv subs ->
  (forall t, v !! i = Some t -> sequential (tx_relayer_id t) ->
     is_final_state (tx_status t) = true \/ l !! tx_relayer_id t = Some i) ->
  sinv gap v l cv (subs ++ [i]).
Proof.
  intros [Hids Hlane Hown Hseq Hdis Hfee Hctr] Hi. split; [done| |done..].
  intros j u Hj Hsu [He|[He|He%list_elem_of_singleton]%elem_of_app]; [by auto..|]. subst j. auto.
Qed.

(** A counter may move as long as it stays above the sequence numbers in use. *)
Lemma sinv_counter gap v l cv cv' subs :
  sinv gap v l cv subs ->
  (forall j t s, v !! j = Some t -> active t -> stellar_sequence t = Some s ->
     s < counter_at cv (tx_relayer_id t) -> s < counter_at cv' (tx_relayer_id t)) ->
  (forall r, 0 <= counter_at cv' r) ->
  sinv gap v l cv' subs.
Proof.
  intros [Hids Hlane Hown Hseq Hdis Hfee Hctr] Hc Hc'. split; [done..| |done|done|done].
  intros j t s Hj Hs. destruct (Hseq j t s Hj Hs) as [? Ha]. split; [done|].
  intros Hact. destruct (Ha Hact). split; [done|]. by eapply Hc.
Qed.

Lemma sinv_create v l cv subs t :
  sinv None v l cv subs -> v !! tx_id t = None -> tx_id t ∉ subs ->
  tx_status t = Pending -> stellar_sequence t = None -> tx_metadata t = None ->
  sinv None (<[tx_id t := t]> v) l cv subs.
Proof.
  intros [Hids Hlane Hown Hseq Hdis Hfee Hctr] Hn Hns Hp Hq Hm. split.
  - intros j u [[<- <-]|[? ?]]%lookup_insert_Some; eauto.
  - intros j u [[<- <-]|[? ?]]%lookup_insert_Some; [|by eauto]. unfold in_flight. rewrite Hp.
    by intros _ [?|?].
  - intros r j Hj. destruct (Hown r j Hj) as (Hsq & u & Hu & ?). split; [done|]. exists u.
    rewrite lookup_insert_ne; [done|]. congruence.
  - intros j u s [[<- <-]|[? ?]]%lookup_insert_Some; [congruence|by eauto].
  - intros j1 j2 u1 u2 s [[<- <-]|[? H1]]%lookup_insert_Some
      [[<- <-]|[? H2]]%lookup_insert_Some; try congruence. by eauto.
  - intros j u [[<- <-]|[? ?]]%lookup_insert_Some; [|by eauto]. unfold fee_retries. by rewrite Hm.
  - done.
Qed.

Lemma sinv_delete v l cv subs i t :
  sinv None v l cv subs -> v !! i = Some t -> is_final_state (tx_status t) = true ->
  sinv None (delete i v) l cv subs.
Proof.
  intros [Hids Hlane Hown Hseq Hdis Hfee Hctr] Hi Hf. split.
  - intros j u [_ ?]%lookup_delete_Some; eauto.
  - intros j u [_ ?]%lookup_delete_Some; eauto.
  - intros r j Hj. destruct (Hown r j Hj) as (Hsq & u & Hu & Hru & [Hfu|?]); [|done]. split; [done|].
    exists u. rewrite lookup_delete_ne by congruence. auto.
  - intros j u s [_ ?]%lookup_delete_Some; eauto.
  - intros j1 j2 u1 u2 s [_ ?]%lookup_delete_Some [_ ?]%lookup_delete_Some; eauto.
  - intros j u [_ ?]%lookup_delete_Some; eauto.
  - done.
Qed.
End Invariant.

(** ** A store that answers

    Reads succeed, writes to a stored transaction succeed, and the list of transactions with a
    status is complete.  The in-memory repository is such a store. *)
Class ReliableRepository `{Chrono} `{ServerConfig} (S : Type) `{!TransactionRepository S}
    `{!StellarRepository S} : Prop := {
  reliable_partial_update now id u s t :
    repo_view s !! id = Some t -> is_ok (fst (repo_partial_update now id u s)) = true;
  reliable_find_paginated rid sts q oldest s :
    is_ok (fst (repo_find_by_status_paginated rid sts q oldest s)) = true;
  complete_find_by_status rid sts s l id t :
    fst (repo_find_by_status rid sts s) = Ok l -> repo_view s !! id = Some t ->
    tx_relayer_id t = rid -> status_in (tx_status t) sts = true -> t ∈ l;
}.

#[global] Instance in_memory_reliable `{Chrono} `{ServerConfig} `{HashOrder TransactionRepoModel}
  : ReliableRepository InMemory.state.
Proof.
  split.
  - intros now id u s t Hid. simpl in *. unfold InMemory.partial_update. by rewrite Hid.
  - done.
  - intros rid sts s l id t [= <-] Hid Hr Hs. simpl in Hid.
    rewrite sorted_by_perm, InMemory.elem_of_list_filter, elem_of_hash_values. split; [by exists id|].
    unfold InMemory.matches_status. by rewrite Hr, String.eqb_refl, Hs.
Qed.

(** ** One handler run *)

(** The parts of a transaction no handler changes. *)
Record same_identity (t0 t : TransactionRepoModel) : Prop := {
  sq_id : tx_id t = tx_id t0;
  sq_relayer : tx_relayer_id t = tx_relayer_id t0;
  sq_created : tx_created_at t = tx_created_at t0;
  sq_valid_until : tx_valid_until t = tx_valid_until t0;
  sq_type : tx_network_type t = tx_network_type t0;
}.

#[global] Instance same_identity_preorder : PreOrder same_identity.
Proof. split; [by intros []; constructor|]. intros ??? [] []. constructor; congruence. Qed.

Lemma same_identity_update `{Chrono} `{ServerConfig} n u t : same_identity t (apply_partial_update n u t).
Proof. by constructor. Qed.

Lemma max_of_ge l x : x ∈ l -> exists y, max_of l = Some y /\ x <= y /\ y ∈ l.
Proof.
  assert (Hf : forall l a, a <= fold_left Z.max l a /\ (forall x, x ∈ l -> x <= fold_left Z.max l a) /\
    fold_left Z.max l a ∈ a :: l).
  { clear. induction l as [|b l IH]; intros a; simpl; [split_and!; [lia|by intros ? ?%not_elem_of_nil|set_solver]|].
    destruct (IH (Z.max a b)) as (H1 & H2 & H3). split_and!; [lia| |].
    - intros x [->|Hx]%elem_of_cons; [lia|by apply H2].
    - apply elem_of_cons in H3 as [H3|H3]; [|set_solver]. rewrite H3.
      destruct (Z.max_spec a b) as [[_ ->]|[_ ->]]; set_solver. }
  destruct l as [|a l]; [by intros ?%not_elem_of_nil|]. intros Hx. destruct (Hf l a) as (H1 & H2 & H3).
  exists (fold_left Z.max l a). split_and!; [done| |done].
  apply elem_of_cons in Hx as [->|Hx]; [done|by apply H2].
Qed.

Section Run.
Context `{Chrono} `{ServerConfig} `{Env} `{StellarSdk} `{StellarEnv}.
Context {S C : Type} `{!TransactionRepository S} `{!StellarRepository S} `{!TransactionCounter C}.
Context `{!ReliableRepository S}.
Context (relayer_of : string -> RelayerRepoModel) (rel_ids : forall r, rel_id (relayer_of r) = r).

Definition sinvw (gap : option string) (w : W S C) : Prop :=
  sinv relayer_of gap (view w) (w_lanes w) (ctr_view (w_ctr w)) (submits w).

Lemma sinvw_core gap w w' : same_core w w' -> sinvw gap w -> sinvw gap w'.
Proof. intros (Hv & Hl & Hc & Hs). unfold sinvw. by rewrite Hv, Hl, Hc, Hs. Qed.

(** The transaction [i] of the Stellar relayer [r] in a store that is otherwise [m0]; its
    current version is [t].  [own]: it owns the lane if lanes are used. *)
Context (i r : string) (m0 : gmap string TransactionRepoModel).
Context (stellar : rel_network_type (relayer_of r) = NtStellar).
Abbreviation relayer := (relayer_of r).

Definition run (gap : option string) (own : bool) (t : TransactionRepoModel) (w : W S C) : Prop :=
  sinvw gap w /\ view w = <[i := t]> m0 /\ tx_id t = i /\ tx_relayer_id t = r /\
  (own = true -> sequential relayer_of r -> w_lanes w !! r = Some i).

Lemma run_lookup gap own t w : run gap own t w -> view w !! i = Some t.
Proof. intros (_ & Hv & _). by rewrite Hv, lookup_insert_eq. Qed.

Lemma run_core gap own t w w' : same_core w w' -> run gap own t w -> run gap own t w'.
Proof.
  intros Hc (Hs & Hv & Hi & Hr & Ho). split_and!; [by eapply sinvw_core| |done..|].
  - by rewrite (proj1 Hc).
  - destruct Hc as (_ & -> & _). done.
Qed.

Lemma run_weaken gap own t w : run gap own t w -> run gap false t w.
Proof. intros (?&?&?&?&?). by split_and!. Qed.

Lemma keeps_core {E A} gap own t (c : M (W S C) E A) :
  preserves same_core c -> keeps (run gap own t) c (fun _ => True).
Proof. apply keeps_of_preserves. intros w w'. apply run_core. Qed.

(** In sequential mode the lane is owned; otherwise there are no lanes. *)
Lemma not_sequential : concurrent_transactions_enabled relayer = true -> ~ sequential relayer_of r.
Proof. intros Hc [_ Hs]. congruence. Qed.

Lemma is_sequential : concurrent_transactions_enabled relayer = false -> sequential relayer_of r.
Proof. by split. Qed.

(** *** Writes *)

Lemma wp_partial_update gap own t w u (Q : result TransactionError.t TransactionRepoModel -> W S C -> Prop) :
  run gap own t w -> is_final_state (tx_status t) = false ->
  (forall n w', let t' := apply_partial_update n u t in
     view w' = <[i := t']> m0 -> w_lanes w' = w_lanes w -> w_ctr w' = w_ctr w ->
     submits w' = submits w -> Q (Ok t') w') ->
  wp (partial_update i u) Q w.
Proof.
  intros Hrun Hf HQ. unfold partial_update, partial_update_r. apply wp_map_err, wp_bind.
  unfold wp, now, ask. simpl. unfold repo_call.
  assert (Hl : repo_view (w_repo (tick w)) !! i = Some t)
    by (destruct w; exact (run_lookup _ _ _ _ Hrun)).
  pose proof (repo_partial_update_spec (env_now (w_tick w)) i u (w_repo (tick w))) as Hs.
  pose proof (reliable_partial_update (env_now (w_tick w)) i u _ _ Hl) as Hok.
  unfold wp in Hs. destruct (repo_partial_update _ i u (w_repo (tick w))) as [[t'|e] s']; [|done].
  simpl in *. destruct Hs as [(t1 & t2 & Ht1 & Hr & Hv & Ht2)|(_ & e & ?)]; [|done].
  rewrite Hl in Ht1. simplify_eq. rewrite (Ht2 _ eq_refl).
  destruct Hr as [->|(? & _)]; [|congruence].
  destruct Hrun as (_ & Hv0 & _). apply HQ.
  - rewrite view_set_repo, Hv. destruct w; simpl in *. unfold view in Hv0. simpl in Hv0.
    by rewrite Hv0, insert_insert_eq.
  - by destruct w.
  - by destruct w.
  - by destruct w.
Qed.

Lemma wp_update own t w u (Q : result TransactionError.t TransactionRepoModel -> W S C -> Prop) :
  run None own t w -> is_final_state (tx_status t) = false -> upd_metadata u = None ->
  (forall n, is_final_state (tx_status (apply_partial_update n u t)) = true \/ own = true) ->
  (forall n s, stellar_sequence (apply_partial_update n u t) = Some s ->
     s <= i64_max /\ (active (apply_partial_update n u t) ->
       fresh_seq relayer_of (view w) (ctr_view (w_ctr w)) i r s)) ->
  (forall n w', let t' := apply_partial_update n u t in
     run (if is_final_state (tx_status t') then Some i else None) own t' w' -> Q (Ok t') w') ->
  wp (partial_update i u) Q w.
Proof.
  intros Hrun Hf Hm Ho Hs HQ. eapply wp_partial_update; [done..|].
  intros n w' t' Hv Hl Hc Hsb. apply HQ. pose proof (run_lookup _ _ _ _ Hrun) as Hi.
  destruct Hrun as (Hinv & Hv0 & Hid & Hr & Hown).
  split_and!; [|done|done|done|by rewrite Hl].
  unfold sinvw. rewrite Hv, Hl, Hc, Hsb.
  replace (<[i := t']> m0) with (<[i := t']> (view w)) by (rewrite Hv0; apply insert_insert_eq).
  eapply sinv_update; [exact Hinv|exact Hi|done|done| | | | |].
  - rewrite Hr. intros Hsq _. destruct (Ho n) as [?|?]; [by left|right; auto].
  - by left.
  - case_match; [by right|by left].
  - rewrite Hr. apply Hs.
  - unfold fee_retries, t'. simpl. rewrite Hm. simpl. by apply (si_fee _ _ _ _ _ _ Hinv i t).
Qed.

(** Notifications do not fail. *)
Lemma wp_notify gap own t w tx (Q : result TransactionError.t unit -> W S C -> Prop) :
  run gap own t w -> (forall w', run gap own t w' -> Q (Ok tt) w') -> wp (notify relayer tx) Q w.
Proof.
  intros Hrun HQ. pose proof (core_notify (S := S) (C := C) relayer tx w) as Hc.
  unfold notify in *. apply wp_bind, wp_try. unfold wp. unfold bindM, try_ in Hc.
  destruct (send_transaction_update_notification relayer tx w) as [x w']. simpl in *.
  apply HQ. by eapply run_core.
Qed.

(** The status becomes final. *)
Lemma wp_finalize own t w u s'
    (Q : result TransactionError.t TransactionRepoModel -> W S C -> Prop) :
  run None own t w -> is_final_state (tx_status t) = false -> upd_metadata u = None ->
  upd_status u = Some s' -> is_final_state s' = true ->
  (forall nd, upd_network_data u = Some nd -> exists d d0, nd = StellarData d /\
     tx_network_data t = StellarData d0 /\ st_sequence_number d = st_sequence_number d0) ->
  (forall n w', let t' := apply_partial_update n u t in
     run (Some i) own t' w' -> Q (Ok t') w') ->
  wp (finalize_transaction_state relayer i u) Q w.
Proof.
  intros Hrun Hf Hm Hst Hfin Hnd HQ. unfold finalize_transaction_state.
  assert (Hs' : forall n, tx_status (apply_partial_update n u t) = s') by (intros n; simpl; by rewrite Hst).
  apply wp_bind. eapply wp_update; [done..| | |].
  - intros n. rewrite Hs'. by left.
  - intros n s Hs. split; [|unfold active; by rewrite Hs'; destruct s'].
    eapply (sinv_keep_seq relayer_of _ _ _ _ _ i t s (proj1 Hrun) (run_lookup _ _ _ _ Hrun)).
    revert Hs. unfold stellar_sequence. simpl. destruct (upd_network_data u) as [nd|]; simpl; [|done].
    destruct (Hnd nd eq_refl) as (d & d0 & -> & -> & ->). done.
  - intros n w' t' Hr'. unfold t' in Hr'. rewrite Hs', Hfin in Hr'. fold t' in Hr'.
    apply wp_bind. eapply wp_notify; [exact Hr'|]. intros w2 Hr2. apply wp_ret. by apply HQ.
Qed.

(** *** Lanes *)

(** The error of a program that only fails to queue. *)
Definition queue_error (e : TransactionError.t) : Prop :=
  exists e', e = TransactionError.JobProducerError e'.

Lemma wp_oldest gap own t w
    (Q : result TransactionError.t (option TransactionRepoModel) -> W S C -> Prop) :
  run gap own t w ->
  (forall o w', run gap own t w' ->
     (forall u, o = Some u -> exists j, view w' !! j = Some u /\ tx_relayer_id u = r /\
        tx_status u = Pending) -> Q (Ok o) w') ->
  wp (find_oldest_pending_for_relayer r) Q w.
Proof.
  intros Hrun HQ. unfold find_oldest_pending_for_relayer, repo. apply wp_bind, wp_map_err.
  pose proof (core_find_paginated (S := S) (C := C) r [Pending] {| page := 1; per_page := 1 |} true w) as Hc.
  pose proof (repo_find_by_status_paginated_spec r [Pending] {| page := 1; per_page := 1 |} true (w_repo w)) as Hs.
  pose proof (reliable_find_paginated r [Pending] {| page := 1; per_page := 1 |} true (w_repo w)) as Hok.
  unfold wp in *. unfold repo_call in *. destruct (repo_find_by_status_paginated _ _ _ _ _) as [[p|e] s'];
    [|done]. simpl in *. apply HQ; [by eapply run_core|].
  intros u Hu. destruct (pr_items p) as [|u' l] eqn:Hp; simplify_eq. rewrite view_set_repo.
  destruct Hs as [Hv Hs]. rewrite Hv.
  destruct (Hs p u eq_refl) as ((j & Hj) & Hr & Hst); [rewrite Hp; set_solver|].
  exists j. split_and!; [done..|]. simpl in Hst. rewrite orb_false_r in Hst. unfold status_eqb in Hst. by apply bool_decide_eq_true in Hst.
Qed.

Lemma run_set_lanes gap own t w l :
  sinv relayer_of gap (view w) l (ctr_view (w_ctr w)) (submits w) ->
  (own = true -> sequential relayer_of r -> l !! r = Some i) ->
  forall gap' own', run gap' own' t w -> run gap own t (set_lanes l w).
Proof. intros Hs Ho gap' own' (_ & Hv & Hi & Hr & _). destruct w. by split_and!. Qed.

Lemma wp_enqueue own t w (Q : result TransactionError.t unit -> W S C -> Prop) :
  run (Some i) own t w -> is_final_state (tx_status t) = true ->
  (forall x w', run None false t w' -> (forall e, x = Err e -> queue_error e) -> Q x w') ->
  wp (enqueue_next_pending_transaction relayer i) Q w.
Proof.
  intros Hrun Hf HQ. unfold enqueue_next_pending_transaction.
  destruct (concurrent_transactions_enabled relayer) eqn:Hc; simpl.
  - apply wp_ret, HQ; [|done]. pose proof (run_lookup _ _ _ _ Hrun) as Hi.
    destruct Hrun as (Hs & ? & ? & Hr & _). split_and!; try done.
    unfold sinvw. eapply sinv_release; [exact Hs|exact Hi|done|done|done|].
    rewrite Hr. intros Hl. destruct (si_owner _ _ _ _ _ _ Hs _ _ Hl) as [[_ ?] _]. congruence.
  - rewrite rel_ids. apply wp_bind. eapply wp_oldest; [exact Hrun|]. clear w Hrun.
    intros o w Hrun Hu. pose proof (run_lookup _ _ _ _ Hrun) as Hi.
    pose proof Hrun as (Hs & _ & _ & Hr & _).
    destruct o as [u|]; simpl; [apply wp_bind|]; unfold pass_lane, free_lane;
      rewrite rel_ids; apply wp_modify.
    + destruct (Hu u eq_refl) as (j & Hj & Hru & Hst).
      assert (Hn : run None false t (set_lanes (LaneGate.pass_to r i (tx_id u) (w_lanes w)) w)).
      { eapply (run_set_lanes None false); [|done|exact Hrun].
        eapply sinv_release; [exact Hs|exact Hi|done| | |]; rewrite Hr.
        - intros r' Hne. by apply pass_to_other.
        - intros Hl. by rewrite pass_to_not_owner.
        - intros Hl j'. rewrite pass_to_owner, lookup_insert_eq by done. intros [= <-].
          rewrite (si_ids _ _ _ _ _ _ Hs _ _ Hj). exists u. by rewrite Hst. }
      pose proof (core_request_job (S := S) (C := C) u None) as Hcore.
      unfold wp. specialize (Hcore (set_lanes (LaneGate.pass_to r i (tx_id u) (w_lanes w)) w)).
      apply HQ; [by eapply run_core|]. intros e. unfold send_transaction_request_job, queue, bindM, map_errM.
      simpl. destruct (produce _ _) as [[]]; simpl; [done|]. intros [= <-]. by eexists.
    + apply HQ; [|done]. eapply (run_set_lanes None false); [|done|exact Hrun].
      eapply sinv_release; [exact Hs|exact Hi|done| | |]; rewrite Hr.
      * intros r' Hne. by apply free_other.
      * intros Hl. by rewrite free_not_owner.
      * intros Hl j'. by rewrite free_owner, lookup_delete_eq.
Qed.

Lemma wp_claim t w (Q : result TransactionError.t bool -> W S C -> Prop) :
  run None false t w -> is_final_state (tx_status t) = false ->
  concurrent_transactions_enabled relayer = false ->
  (forall b w', run None b t w' -> w_ctr w' = w_ctr w -> Q (Ok b) w') ->
  wp (claim_lane relayer i) Q w.
Proof.
  intros Hrun Hf Hc HQ. pose proof (run_lookup _ _ _ _ Hrun) as Hi.
  pose proof Hrun as (Hs & _ & _ & Hr & _). unfold wp, claim_lane, LaneGate.claim. rewrite rel_ids.
  destruct (w_lanes w !! r) as [o|] eqn:Hl; simpl; (apply HQ; [|by destruct w]).
  - eapply (run_set_lanes None _ t w (w_lanes w)); [exact Hs| |exact Hrun].
    intros ->%String.eqb_eq _. done.
  - eapply (run_set_lanes None true t w); [|intros _ _; apply lookup_insert_eq|exact Hrun].
    rewrite <- Hr at 1. eapply sinv_claim; [exact Hs|exact Hi|done| |]; rewrite Hr; [|done].
    by apply is_sequential.
Qed.

(** *** Submit jobs *)

Lemma wp_submit_job gap t w tx d (Q : result TransactionError.t unit -> W S C -> Prop) :
  run gap true t w -> tx_id tx = i ->
  (forall x w', run gap true t w' -> (forall e, x = Err e -> queue_error e) -> Q x w') ->
  wp (send_submit_transaction_job tx d) Q w.
Proof.
  intros Hrun Htx HQ. unfold send_submit_transaction_job. apply wp_bind.
  assert (Hw : wp (scheduled_on (S := S) (C := C) d) (fun x w' => run gap true t w' /\ exists o, x = Ok o) w).
  { pose proof (core_scheduled (S := S) (C := C) d w) as Hc. unfold wp. split; [by eapply run_core|].
    destruct d; simpl; eauto. }
  eapply wp_mono; [|exact Hw]. clear w Hrun Hw. intros x w [Hrun [o ->]].
  unfold wp, queue, map_errM, produce. destruct (queue_fault _) as [e|]; simpl; apply HQ.
  - by destruct w.
  - intros ? [= <-]. by eexists.
  - pose proof (run_lookup _ _ _ _ Hrun) as Hi. destruct Hrun as (Hs & Hv & Hid & Hr & Ho).
    assert (Hsub : submits (push_job (JSend (send_submit (tx_id tx) (tx_relayer_id tx)) o) (tick w)) =
      submits w ++ [i]).
    { unfold submits. destruct w; simpl. rewrite omap_app. simpl. by rewrite Htx. }
    split_and!; [|by destruct w|done|done|by destruct w].
    unfold sinvw. rewrite Hsub. replace (view _) with (view w) by by destruct w.
    replace (w_lanes _) with (w_lanes w) by by destruct w.
    replace (w_ctr _) with (w_ctr w) by by destruct w.
    apply sinv_submit; [exact Hs|]. intros t1 Ht1. rewrite Hi in Ht1. injection Ht1 as <-.
    rewrite Hr. intros Hsq. right. by apply Ho.
  - done.
Qed.

(** *** Sequence numbers *)

Lemma run_set_ctr gap own t w c :
  sinv relayer_of gap (view w) (w_lanes w) (ctr_view c) (submits w) ->
  run gap own t w -> run gap own t (set_ctr c w).
Proof. intros Hs (_ & Hv & Hi & Hr & Ho). destruct w. by split_and!. Qed.

Lemma counter_at_insert cv r' a n q :
  counter_at relayer_of (<[(r', a) := n]> cv) q =
    if decide (r' = q /\ a = rel_address (relayer_of q)) then n else counter_at relayer_of cv q.
Proof.
  unfold counter_at. case_decide as Hd.
  - destruct Hd as [<- ->]. by rewrite lookup_insert_eq.
  - rewrite lookup_insert_ne; [done|]. intros [= ? ?]. by apply Hd.
Qed.

Lemma wp_next_sequence own t w (Q : result TransactionError.t Z -> W S C -> Prop) :
  run None own t w -> counter_at relayer_of (ctr_view (w_ctr w)) r < u64_max ->
  (forall e w', run None own t w' -> Q (Err e) w') ->
  (forall s w', run None own t w' -> s <= i64_max ->
     fresh_seq relayer_of (view w') (ctr_view (w_ctr w')) i r s -> Q (Ok s) w') ->
  wp (get_next_sequence r (rel_address relayer)) Q w.
Proof.
  intros Hrun Hroom He Hok. pose proof Hrun as (Hs & _).
  unfold get_next_sequence. apply wp_bind, wp_map_err. unfold wp at 1, counter_call.
  pose proof (ctr_get_and_increment_spec r (rel_address relayer) (w_ctr w)) as Hc.
  unfold wp in Hc. destruct (ctr_get_and_increment _ _ _) as [x c']. simpl in Hc.
  fold (counter_at relayer_of (ctr_view (w_ctr w)) r) in Hc.
  set (n := counter_at relayer_of (ctr_view (w_ctr w)) r) in *.
  assert (Hn : 0 <= n) by apply (si_ctr _ _ _ _ _ _ Hs).
  assert (Hrun' : run None own t (set_ctr c' w)).
  { apply run_set_ctr; [|done]. destruct Hc as [[Hc _]|[Hc _]]; rewrite Hc; [|exact Hs].
    rewrite wrapu_small by (unfold in_u, u64_max in *; lia).
    apply (sinv_counter _ _ _ _ _ _ _ Hs).
    - intros j u s _ _ _ Hlt. rewrite counter_at_insert. case_decide as Hd; [|done].
      destruct Hd as [Hd _]. rewrite <- Hd in Hlt. fold n in Hlt. lia.
    - intros q. rewrite counter_at_insert. case_decide; [lia|apply (si_ctr _ _ _ _ _ _ Hs)]. }
  destruct Hc as [[Hc Hx]|[Hc [e ->]]]; [|simpl; by apply He].
  destruct x as [n'|e]; [|by apply He]. rewrite (Hx _ eq_refl). cbn [fst snd result_map_err].
  apply wp_lift. unfold i64_from_u64, checked. destruct (n <=? i64_max) eqn:Hle; simpl; [|by apply He].
  apply Z.leb_le in Hle. apply Hok; [done..|].
  replace (view (set_ctr c' w)) with (view w) by by destruct w.
  replace (w_ctr (set_ctr c' w)) with c' by by destruct w.
  split.
  - rewrite Hc, counter_at_insert, decide_True by done.
    rewrite wrapu_small by (unfold in_u, u64_max in *; lia). lia.
  - intros j u Hne Hu Ha Hr Hsu. destruct (si_seq _ _ _ _ _ _ Hs _ _ _ Hu Hsu) as [_ Hlt].
    specialize (Hlt Ha). rewrite Hr in Hlt. fold n in Hlt. lia.
Qed.

(** The active transactions, all of them, and what they hold. *)
Lemma wp_active own t w
    (Q : result TransactionError.t (list TransactionRepoModel) -> W S C -> Prop) :
  run None own t w ->
  (forall e w', run None own t w' -> Q (Err e) w') ->
  (forall l w', run None own t w' ->
     (forall u, u ∈ l -> exists j, view w' !! j = Some u) ->
     (forall j u, view w' !! j = Some u -> active u -> tx_relayer_id u = r -> u ∈ l) ->
     Q (Ok l) w') ->
  wp (repo (repo_find_by_status r [Pending; Sent; Submitted])) Q w.
Proof.
  intros Hrun He Hok. unfold repo. apply wp_map_err.
  pose proof (core_find_by_status (S := S) (C := C) r [Pending; Sent; Submitted] w) as Hc.
  pose proof (repo_find_by_status_spec r [Pending; Sent; Submitted] (w_repo w)) as Hs.
  pose proof (complete_find_by_status r [Pending; Sent; Submitted] (w_repo w)) as Hcomp.
  unfold wp in *. unfold repo_call in *. destruct (repo_find_by_status _ _ _) as [[l|e] s']; simpl in *.
  - destruct Hs as [Hv Hs]. apply Hok; [by eapply run_core|..]; rewrite view_set_repo, Hv.
    + intros u Hu. by destruct (Hs l u eq_refl Hu).
    + intros j u Hj Ha Hr. eapply Hcomp; [done..|]. unfold active in Ha. by destruct (tx_status u).
  - apply He. by eapply run_core.
Qed.

Lemma wp_confirmed own t w
    (Q : result TransactionError.t (PaginatedResult TransactionRepoModel) -> W S C -> Prop) q o :
  run None own t w ->
  (forall e w', run None own t w' -> Q (Err e) w') ->
  (forall p w', same_core w w' -> (forall u, u ∈ pr_items p -> exists j, view w' !! j = Some u) ->
     Q (Ok p) w') ->
  wp (repo (repo_find_by_status_paginated r [Confirmed] q o)) Q w.
Proof.
  intros Hrun He Hok. unfold repo. apply wp_map_err.
  pose proof (core_find_paginated (S := S) (C := C) r [Confirmed] q o w) as Hc.
  pose proof (repo_find_by_status_paginated_spec r [Confirmed] q o (w_repo w)) as Hs.
  unfold wp in *. unfold repo_call in *. destruct (repo_find_by_status_paginated _ _ _ _ _) as [[p|e] s'];
    simpl in *.
  - apply Hok; [done|]. intros u Hu. rewrite view_set_repo. destruct Hs as [-> Hs].
    by destruct (Hs p u eq_refl Hu).
  - apply He. by eapply run_core.
Qed.

Lemma sequence_u64_some u x : stellar_sequence_u64 u = Some x -> stellar_sequence u = Some x /\ 0 <= x.
Proof.
  unfold stellar_sequence_u64, u64_try_from. destruct (stellar_sequence u) as [s|]; simpl; [|done].
  case_match eqn:Hle; [|done]. intros [= <-]. split; [done|lia].
Qed.

(** The target of a rewind is above every sequence number in use. *)
Lemma rewind_target gap v l cv subs (act conf : list TransactionRepoModel) next :
  sinv relayer_of gap v l cv subs ->
  (forall u, u ∈ act ++ conf -> exists j, v !! j = Some u) ->
  let target := match max_of (option_to_list (max_of (omap stellar_sequence_u64 act)) ++
                              option_to_list (head conf ≫= stellar_sequence_u64)) with
                | Some seq => Z.max next (wrapu 64 (seq + 1))
                | None => next
                end in
  next <= target /\
  forall u s, u ∈ act -> stellar_sequence u = Some s -> 0 <= s -> s < target.
Proof.
  intros Hs Hst target.
  set (L := option_to_list (max_of (omap stellar_sequence_u64 act)) ++
            option_to_list (head conf ≫= stellar_sequence_u64)) in *.
  assert (Hb : forall y, y ∈ L -> 0 <= y <= i64_max).
  { intros y Hy. assert (exists u, u ∈ act ++ conf /\ stellar_sequence_u64 u = Some y) as (u & Hu & Hy').
    { unfold L in Hy. apply elem_of_app in Hy as [Hy|Hy].
      - destruct (max_of _) as [z|] eqn:Hz; simpl in Hy; [|set_solver].
        apply list_elem_of_singleton in Hy as ->.
        destruct (omap stellar_sequence_u64 act) as [|a l'] eqn:Ho; [done|].
        destruct (max_of_ge (a :: l') a) as (y & Hy & _ & Hin); [set_solver|].
        rewrite Hz in Hy. injection Hy as <-. rewrite <- Ho in Hin.
        apply list_elem_of_omap in Hin as (u & ? & ?). exists u. set_solver.
      - destruct conf as [|u conf']; simpl in Hy; [set_solver|].
        destruct (stellar_sequence_u64 u) eqn:Hq; simpl in Hy; [|set_solver].
        apply list_elem_of_singleton in Hy as ->. exists u. set_solver. }
    apply sequence_u64_some in Hy' as [Hy' ?]. split; [done|]. destruct (Hst u Hu) as [j Hj].
    by destruct (si_seq _ _ _ _ _ _ Hs _ _ _ Hj Hy'). }
  split; [unfold target; case_match; lia|]. intros u s Hu Hsu Hpos.
  assert (Hin : s ∈ omap stellar_sequence_u64 act).
  { apply list_elem_of_omap. exists u. split; [done|]. unfold stellar_sequence_u64, u64_try_from.
    rewrite Hsu. simpl. by rewrite (proj2 (Z.leb_le _ _) Hpos). }
  destruct (max_of_ge _ _ Hin) as (y & Hy & Hle & _).
  destruct (max_of_ge L y) as (z & Hz & Hyz & HzL); [unfold L; rewrite Hy; simpl; set_solver|].
  unfold target. rewrite Hz. destruct (Hb z HzL). rewrite wrapu_small; [lia|].
  unfold in_u, i64_max in *. lia.
Qed.

Lemma run_counter own t w c a n :
  run None own t w -> ctr_view c = <[(r, a) := n]> (ctr_view (w_ctr w)) -> 0 <= n ->
  (a = rel_address relayer -> forall j u s, view w !! j = Some u -> active u ->
     tx_relayer_id u = r -> stellar_sequence u = Some s -> 0 <= s -> s < n) ->
  run None own t (set_ctr c w).
Proof.
  intros Hrun Hc Hn Ha. pose proof Hrun as (Hs & _). apply run_set_ctr; [|done]. rewrite Hc.
  apply (sinv_counter _ _ _ _ _ _ _ Hs).
  - intros j u s Hj Hact Hsu Hlt. rewrite counter_at_insert. case_decide as Hd; [|done].
    destruct Hd as [Hd ->]. eapply Ha; [by rewrite <- Hd|done|done|done|done|].
    apply (proj2 (si_seq _ _ _ _ _ _ Hs _ _ _ Hj Hsu)), Hact.
  - intros q. rewrite counter_at_insert. case_decide; [lia|apply (si_ctr _ _ _ _ _ _ Hs)].
Qed.

Lemma keeps_rewind own t a next observed :
  0 <= next ->
  keeps (run None own t) (try_rewind_sequence_counter relayer a next observed) (fun _ => True).
Proof.
  intros Hn w Hrun. split; [|done]. revert w Hrun.
  enough (Hw : forall w, run None own t w ->
    wp (try_rewind_sequence_counter relayer a next observed) (fun _ w' => run None own t w') w) by exact Hw.
  intros w Hrun. unfold try_rewind_sequence_counter. rewrite rel_ids.
  case_match; [by apply wp_ret|]. apply wp_bind. eapply wp_active; [exact Hrun|by auto|].
  clear w Hrun. intros act w Hrun Hst Hall. apply wp_bind.
  eapply wp_confirmed; [exact Hrun|by auto|]. intros p w1 Hcore Hconf.
  pose proof (run_core _ _ _ _ _ Hcore Hrun) as Hrun1. pose proof Hrun1 as (Hs & _).
  destruct (rewind_target _ _ _ _ _ act (pr_items p) next Hs) as [Ht Hact].
  { intros u [Hu|Hu]%elem_of_app; [|by apply Hconf]. rewrite (proj1 Hcore). by apply Hst. }
  set (target := match max_of _ with Some seq => _ | None => _ end) in *.
  case_match; [by apply wp_ret|]. apply wp_bind, wp_map_err. unfold wp at 1, counter_call.
  pose proof (ctr_set_if_equals_spec r a observed target (w_ctr w1)) as Hspec. unfold wp in Hspec.
  destruct (ctr_set_if_equals _ _ _ _ _) as [x c]. simpl in *.
  assert (Hrun2 : run None own t (set_ctr c w1)).
  { destruct Hspec as [(_ & _ & Hc & _)|[Hc _]]; [|apply run_set_ctr; [by rewrite Hc|done]].
    eapply run_counter; [done|exact Hc|lia|]. intros _ j u s Hj Ha Hr Hsu Hpos.
    eapply Hact; [|done..]. eapply Hall; [|done..]. by rewrite <- (proj1 Hcore). }
  destruct x; simpl; [by apply wp_ret|done].
Qed.

Lemma keeps_sync own t a :
  keeps (run None own t) (sync_sequence_from_chain relayer a) (fun _ => True).
Proof.
  unfold sync_sequence_from_chain. rewrite rel_ids.
  apply keeps_bind with (P := fun n => 0 <= n).
  { apply keeps_map_err. intros w Hrun. split.
    - by apply (keeps_core None own t _ (core_fetch a)).
    - unfold fetch_next_sequence_from_chain, bindM, map_errM, call. destruct (stellar_get_account _ _) as [z|]; [|done].
      simpl. unfold next_sequence_u64, checked_i64. case_match; simpl; [|done]. case_match eqn:Hz; simpl; [done|].
      intros ? [= <-]. by apply Z.ltb_ge in Hz. }
  intros n Hn. apply keeps_bind with (P := fun _ => True).
  - apply keeps_map_err. intros w Hrun. split; [|done]. unfold counter_call.
    pose proof Hrun as (Hs & _).
    pose proof (ctr_sync_floor_spec r a n (w_ctr w)) as Hspec. unfold wp in Hspec.
    destruct (ctr_sync_floor _ _ _ _) as [x c]. simpl in *.
    destruct Hspec as [[Hc _]|[Hc _]]; [|apply run_set_ctr; [by rewrite Hc|done]].
    eapply run_counter; [done|exact Hc|case_match; lia|]. intros -> j u s Hj Ha Hr Hsu Hpos.
    destruct (si_seq _ _ _ _ _ _ Hs _ _ _ Hj Hsu) as [_ Hlt]. specialize (Hlt Ha).
    rewrite Hr in Hlt. unfold counter_at in Hlt. case_match; simpl in Hlt; lia.
  - intros e _. case_match; [by apply keeps_rewind|by apply keeps_ret].
Qed.

Lemma keeps_best_effort own t tx :
  keeps (run None own t) (sync_best_effort relayer tx) (fun _ => True).
Proof.
  unfold sync_best_effort. case_match; [|by apply keeps_ret].
  eapply keeps_bind; [apply keeps_try, keeps_sync|]. intros. by apply keeps_ret.
Qed.

(** *** Preparation *)

Definition roomy own t (w : W S C) : Prop :=
  run None own t w /\ counter_at relayer_of (ctr_view (w_ctr w)) r < u64_max.

(** [s], if it is a sequence number, may be given to the transaction. *)
Definition usable own t (s : option Z) (w : W S C) : Prop :=
  run None own t w /\
  forall n, s = Some n -> n <= i64_max /\ fresh_seq relayer_of (view w) (ctr_view (w_ctr w)) i r n.

Lemma roomy_stable own t : stable (roomy own t).
Proof. intros w w' Hc [Hr Hn]. split; [by eapply run_core|]. by destruct Hc as (_ & _ & -> & _). Qed.

Lemma usable_stable own t s : stable (usable own t s).
Proof.
  intros w w' Hc [Hr Hn]. split; [by eapply run_core|]. destruct Hc as (-> & _ & -> & _). done.
Qed.

Lemma usable_own own t w : run None own t w -> active t -> usable own t (stellar_sequence t) w.
Proof.
  intros Hrun Ha. split; [done|]. intros n Hn. pose proof Hrun as (Hs & _ & _ & Hr & _).
  destruct (sinv_keep_seq _ _ _ _ _ _ _ _ _ Hs (run_lookup _ _ _ _ Hrun) Hn) as [? Hf].
  split; [done|]. rewrite Hr in Hf. by apply Hf.
Qed.

(** Data that keeps the sequence number. *)
Definition same_sequence (d d' : StellarTransactionData) : Prop :=
  st_sequence_number d' = st_sequence_number d.

Lemma keeps_sign P d : stable P ->
  keeps P (sign_stellar_transaction (S := S) (C := C) d) (same_sequence d).
Proof.
  intros HP. unfold sign_stellar_transaction.
  skip_core as [sig|]; [|apply keeps_fail].
  skip_core as ?.
  skip_core as ?.
  apply keeps_ret. by destruct d.
Qed.

Lemma simulation_same_sequence sim n d d' :
  with_simulation_data sim n d = Ok d' -> same_sequence d d'.
Proof.
  unfold with_simulation_data. destruct (ok_or _ _); [|done]. intros [= <-]. by destruct d.
Qed.

Lemma lift_map_err_ok {A B E} (f : E -> B) (x : result E A) a :
  result_map_err f x = Ok a -> x = Ok a.
Proof. destruct x; naive_solver. Qed.

Lemma keeps_price P e d : stable P ->
  keeps P (price_unsigned_xdr (S := S) (C := C) e d) (same_sequence d).
Proof.
  intros HP. unfold price_unsigned_xdr.
  skip_core as ?.
  skip_core as ?.
  skip_core as [sim|].
  - skip_core as ?.
    skip_core as ?.
    skip_core as ?.
    apply keeps_lift. intros d' Hd%lift_map_err_ok%simulation_same_sequence. by destruct d.
  - apply keeps_ret. by destruct d.
Qed.

Lemma keeps_sign_fee_bump P d e a : stable P ->
  keeps P (sign_fee_bump_transaction (S := S) (C := C) d e a) (same_sequence d).
Proof.
  intros HP. unfold sign_fee_bump_transaction.
  skip_core as ?.
  skip_core as [sig|]; [|apply keeps_fail].
  skip_core as ?.
  skip_core as ?.
  apply keeps_ret. by destruct d.
Qed.

Lemma keeps_fee_bump P a d p : stable P ->
  keeps P (process_fee_bump (S := S) (C := C) a d p) (same_sequence d).
Proof.
  intros HP. unfold process_fee_bump.
  skip_core as [env max].
  skip_core as ?.
  skip_core as ?.
  skip_core as ?.
  eapply keeps_bind; [by apply keeps_sign_fee_bump|]. intros d' Hd. apply keeps_ret.
  by destruct d'.
Qed.

(** A step of preparation that ends with data whose sequence number the transaction may have. *)
Definition gives_sequence own t (c : T S C StellarTransactionData) : Prop :=
  forall w, roomy own t w ->
  wp c (fun x w' => match x with
                    | Ok d => usable own t (st_sequence_number d) w'
                    | Err _ => run None own t w'
                    end) w.

Lemma gives_bind {A} own t (c : T S C A) k :
  preserves same_core c -> (forall a, gives_sequence own t (k a)) ->
  gives_sequence own t (bindM c k).
Proof.
  intros Hc Hk w Hw. eapply wp_bind_keeps;
    [apply (keeps_stable (roomy own t)); [apply roomy_stable|exact Hc]|done|by intros ?? []|].
  intros a w' _ Hw'. by apply Hk.
Qed.

Lemma gives_fail own t e : gives_sequence own t (failM e).
Proof. by intros w []. Qed.

Lemma gives_next own t k :
  (forall s, keeps (usable own t (Some s)) (k s) (fun d => st_sequence_number d = Some s)) ->
  gives_sequence own t (bindM (get_next_sequence r (rel_address relayer)) k).
Proof.
  intros Hk w [Hrun Hroom]. apply wp_bind. eapply wp_next_sequence; [done..| |].
  - intros e w' Hw'. done.
  - intros s w' Hw' Hle Hf. eapply wp_keeps; [apply Hk|..].
    + split; [done|]. by intros ? [= <-].
    + by intros ?? [].
    + intros d w2 -> Hu. done.
Qed.

Lemma gives_operations own t d p :
  gives_sequence own t (process_operations r (rel_address relayer) d p).
Proof.
  unfold process_operations. case_match; [apply gives_fail|].
  apply gives_next. intros s. pose proof (usable_stable own t (Some s)) as HP.
  skip_core as ?. skip_core as sim.
  apply keeps_bind with (P := same_sequence (with_sequence_number s d)).
  - destruct sim as [sim|].
    + apply keeps_lift. intros d' Hd%lift_map_err_ok. by eapply simulation_same_sequence.
    + apply keeps_ret. by destruct d.
  - intros d' Hd. eapply keeps_mono; [by apply keeps_sign|]. intros d2 Hd2. simpl in *.
    rewrite Hd2, Hd. by destruct d.
Qed.

Lemma gives_unsigned own t d p :
  gives_sequence own t (process_unsigned_xdr r (rel_address relayer) d p).
Proof.
  unfold process_unsigned_xdr. apply gives_bind; [preserve|]. intros xdr.
  apply gives_bind; [preserve|]. intros env. apply gives_bind; [preserve|]. intros _.
  case_match; [apply gives_fail|]. apply gives_next. intros s.
  pose proof (usable_stable own t (Some s)) as HP. skip_core as ?.
  eapply keeps_bind; [by apply keeps_price|]. intros d' Hd.
  eapply keeps_mono; [by apply keeps_sign|]. intros d2 Hd2. simpl in *.
  rewrite Hd2, Hd. by destruct d.
Qed.

Lemma gives_gas_abstraction own t d p :
  gives_sequence own t (process_soroban_gas_abstraction r (rel_address relayer) d p).
Proof.
  unfold process_soroban_gas_abstraction. case_match; try apply gives_fail.
  apply gives_bind; [preserve|]. intros env. apply gives_bind; [preserve|]. intros auth.
  apply gives_bind; [preserve|]. intros [env' entries]. apply gives_bind; [preserve|]. intros env2.
  apply gives_bind; [preserve|]. intros _. apply gives_next. intros s.
  pose proof (usable_stable own t (Some s)) as HP. skip_core as ?. skip_core as ?.
  apply keeps_ret. by destruct d.
Qed.

(** The transaction as a program leaves it: its request is that of [t0], its status one of
    [targets], and it is the transaction the program returns. *)
Definition leaves own (t0 : TransactionRepoModel) (targets : list TransactionStatus)
    (x : result TransactionError.t TransactionRepoModel) (w : W S C) : Prop :=
  exists t, run None own t w /\ same_identity t0 t /\ tx_status t ∈ targets /\
    forall t', x = Ok t' -> t' = t.

Lemma wp_update_and_notify t w d :
  usable true t (st_sequence_number d) w -> is_final_state (tx_status t) = false ->
  wp (update_and_notify_transaction relayer i d) (leaves true t [Sent]) w.
Proof.
  intros [Hrun Hn] Hf. unfold update_and_notify_transaction. apply wp_bind.
  eapply wp_update; [exact Hrun|done|done|by right| |].
  { intros n s Hs. destruct (Hn s Hs) as [Hle Hfr]. done. }
  intros n w1 t' Hr1. change (is_final_state (tx_status t')) with false in Hr1. simpl in Hr1.
  assert (Hid : tx_id t' = i) by apply Hr1.
  assert (Hleaves : forall x w', run None true t' w' -> (forall t'', x = Ok t'' -> t'' = t') ->
    leaves true t [Sent] x w').
  { intros x w' Hr' Hx. exists t'. split_and!; [done|by apply same_identity_update|set_solver|done]. }
  apply wp_bind. eapply wp_submit_job; [exact Hr1|done|]. intros [[]|e] w2 Hr2 _; [|by apply Hleaves].
  apply wp_bind. eapply wp_notify; [exact Hr2|]. intros w3 Hr3. apply wp_ret, Hleaves; [done|].
  by intros ? [= <-].
Qed.

(** Sent, or stopped by an error before the write. *)
Definition sent_or_failed t (x : result TransactionError.t TransactionRepoModel) (w : W S C) : Prop :=
  leaves true t [Sent] x w \/ (run None true t w /\ exists e, x = Err e).

Lemma wp_finalize_with_signature t w d :
  usable true t (st_sequence_number d) w -> is_final_state (tx_status t) = false -> tx_id t = i ->
  wp (finalize_with_signature relayer t d) (sent_or_failed t) w.
Proof.
  intros Hu Hf Hid. unfold finalize_with_signature, sign_and_finalize_transaction.
  eapply wp_bind_keeps with (P := fun td => td.1 = t /\ same_sequence d td.2); [|exact Hu|..].
  - eapply keeps_bind; [apply keeps_sign, usable_stable|]. intros d' Hd. by apply keeps_ret.
  - intros e w' [Hr _]. right. eauto.
  - intros [t1 d'] w' [Ht Hd] Hu'. simpl in Ht, Hd. subst t1. rewrite Hid.
    eapply wp_mono; [|apply wp_update_and_notify]; [by left|by rewrite Hd|done].
Qed.

Lemma wp_prepare_core t w :
  roomy true t w -> tx_status t = Pending -> wp (prepare_core relayer t) (sent_or_failed t) w.
Proof.
  intros Hw Hst. assert (Hf : is_final_state (tx_status t) = false) by by rewrite Hst.
  assert (Hid : tx_id t = i) by apply Hw.
  assert (Hgive : forall c, gives_sequence true t c ->
    wp (bindM c (finalize_with_signature relayer t)) (sent_or_failed t) w).
  { intros c Hc. apply wp_bind. eapply wp_mono; [|by apply Hc].
    intros [d|e] w' Hx; [by apply wp_finalize_with_signature|right; eauto]. }
  unfold prepare_core. rewrite rel_ids. apply wp_bind, wp_lift.
  destruct (get_stellar_transaction_data _) as [d|] eqn:Hd; [|right; split; [apply Hw|by eauto]].
  cbv zeta. destruct (st_transaction_input d);
    [apply Hgive, gives_operations|apply Hgive, gives_unsigned| |apply Hgive, gives_gas_abstraction].
  assert (Hseq : stellar_sequence t = st_sequence_number d).
  { unfold stellar_sequence. by destruct (tx_network_data t); simplify_eq/=. }
  eapply wp_bind_keeps; [apply keeps_fee_bump, (usable_stable true t (st_sequence_number d))|..].
  - rewrite <- Hseq. apply usable_own; [apply Hw|]. unfold active. by rewrite Hst.
  - intros e w' [Hr _]. right. eauto.
  - intros d' w' Hd' Hu. rewrite Hid.
    eapply wp_mono; [|apply wp_update_and_notify]; [by left|by rewrite Hd'|done].
Qed.

Lemma wp_best_effort own t w tx (Q : result TransactionError.t unit -> W S C -> Prop) :
  run None own t w -> (forall w', run None own t w' -> Q (Ok tt) w') ->
  wp (sync_best_effort relayer tx) Q w.
Proof.
  intros Hrun HQ. unfold sync_best_effort. case_match; [|by apply wp_ret, HQ].
  apply wp_bind, wp_try. eapply wp_keeps; [apply (keeps_sync own t)|exact Hrun|..]; intros; by apply wp_ret, HQ.
Qed.

(** The owner of a lane is not final. *)
Lemma run_final_free t w :
  run None false t w -> is_final_state (tx_status t) = true -> w_lanes w !! r <> Some i.
Proof.
  intros Hrun Hf Hl. pose proof (run_lookup _ _ _ _ Hrun) as Hi. destruct Hrun as (Hs & _).
  destruct (si_owner _ _ _ _ _ _ Hs _ _ Hl) as (_ & u & Hu & _ & [?|?]); congruence.
Qed.

Lemma failed_update_data reason nd : upd_network_data (failed_update reason) = Some nd -> False.
Proof. done. Qed.

(** A transaction that is not final becomes final and hands its lane on. *)
Lemma wp_finalize_and_release own t w u s' :
  run None own t w -> is_final_state (tx_status t) = false -> upd_metadata u = None ->
  upd_status u = Some s' -> is_final_state s' = true ->
  (forall nd, upd_network_data u = Some nd -> exists d d0, nd = StellarData d /\
     tx_network_data t = StellarData d0 /\ st_sequence_number d = st_sequence_number d0) ->
  wp (bindM (finalize_transaction_state relayer i u) (fun t' =>
        bindM (try_ (E' := TransactionError.t) (enqueue_next_pending_transaction relayer i)) (fun _ => retM t')))
    (fun x w' => leaves false t [s'] x w' /\ is_ok x = true) w.
Proof.
  intros Hrun Hf Hm Hst Hfin Hnd. apply wp_bind. eapply wp_finalize; [exact Hrun|done..|].
  intros n w1 t' Hr1. assert (Hs : tx_status t' = s') by (unfold t'; simpl; by rewrite Hst).
  apply wp_bind, wp_try. eapply wp_enqueue; [exact Hr1|by rewrite Hs|].
  intros x w2 Hr2 _. apply wp_ret. split; [|done]. exists t'.
  split_and!; [done|by apply same_identity_update|rewrite Hs; set_solver|by intros ? [= <-]].
Qed.

Lemma wp_prepare_failure t t0 w e :
  run None true t w -> is_final_state (tx_status t) = false -> tx_id t0 = i ->
  wp (handle_prepare_failure relayer t0 e) (leaves false t [Failed]) w.
Proof.
  intros Hrun Hf Hid. unfold handle_prepare_failure. rewrite Hid. apply wp_bind.
  eapply wp_best_effort; [exact Hrun|]. clear w Hrun. intros w Hrun. apply wp_bind, wp_try.
  eapply (wp_finalize true t w _ Failed); [exact Hrun|done..|].
  intros n w1 t' Hr1. set (Q := leaves false t [Failed]).
  assert (Hend : forall w', run None false t' w' -> Q (Err e) w').
  { intros w' Hr'. exists t'. split_and!; [done|by apply same_identity_update|set_solver|done]. }
  apply wp_bind. destruct (concurrent_transactions_enabled relayer) eqn:Hc; simpl.
  - apply wp_ret, wp_fail, Hend. pose proof (wp_enqueue true t' w1 (fun _ w' => run None false t' w') Hr1 eq_refl) as He.
    unfold enqueue_next_pending_transaction in He. rewrite Hc in He. apply He. by intros.
  - apply wp_bind, wp_try. eapply wp_enqueue; [exact Hr1|done|]. intros [[]|e'] w2 Hr2 _.
    + by apply wp_ret, wp_fail, Hend.
    + apply wp_modify, wp_fail, Hend. rewrite rel_ids, free_not_owner by by eapply run_final_free.
      eapply (run_set_lanes None false _ _ (w_lanes w2)); [apply Hr2|done|exact Hr2].
Qed.

Lemma leaves_mono own own' t0 t1 l l' x w :
  leaves own t1 l x w -> same_identity t0 t1 -> (own' = true -> own = true) -> l ⊆ l' ->
  leaves own' t0 l' x w.
Proof.
  intros (t & Hr & Hq & Hs & Hx) H01 Ho Hl. exists t. split_and!; [|by etransitivity|by apply Hl|done].
  destruct own', own; try done; [by destruct (Ho eq_refl)|by eapply run_weaken].
Qed.

Lemma leaves_self own t w : run None own t w -> leaves false t [tx_status t] (Ok t) w.
Proof.
  intros Hr. exists t. split_and!; [by eapply run_weaken|reflexivity|set_solver|by intros ? [= <-]].
Qed.

Lemma wp_prepare t w :
  roomy false t w ->
  wp (prepare_transaction_impl relayer t)
    (leaves false t (if status_eqb (tx_status t) Pending then [Pending; Sent; Failed] else [tx_status t])) w.
Proof.
  intros Hw. assert (Hid : tx_id t = i) by apply Hw. unfold prepare_transaction_impl. rewrite Hid.
  destruct (is_final_state (tx_status t)) eqn:Hf.
  { apply wp_ret. destruct (tx_status t) eqn:Hs; try done; simpl; rewrite <- Hs; eapply leaves_self, Hw. }
  destruct (status_eqb (tx_status t) Pending) eqn:Hp; simpl; [|eapply wp_ret, leaves_self, Hw].
  unfold status_eqb in Hp. apply bool_decide_eq_true in Hp.
  assert (Hcore : forall w1, roomy true t w1 -> wp (
      let* r := try_ (prepare_core relayer t) in
      match r with
      | Ok prepared_tx => retM prepared_tx
      | Err error => handle_prepare_failure relayer t error
      end) (leaves false t [Pending; Sent; Failed]) w1).
  { intros w1 Hw1. apply wp_bind, wp_try. eapply wp_mono; [|by apply wp_prepare_core].
    intros [t'|e] w2 [Hl|[Hr [e' He]]]; [|done| |].
    - apply wp_ret. eapply leaves_mono; [exact Hl|reflexivity|done|set_solver].
    - destruct Hl as (t' & Hr & Hq & Hs & _). eapply wp_mono; [|eapply wp_prepare_failure; [exact Hr|..]].
      + intros x w3 Hl. by eapply leaves_mono; [exact Hl| |done|set_solver].
      + apply list_elem_of_singleton in Hs as ->. done.
      + done.
    - eapply wp_mono; [|by eapply wp_prepare_failure]. intros x w3 Hl.
      by eapply leaves_mono; [exact Hl| |done|set_solver]. }
  apply wp_bind. destruct (concurrent_transactions_enabled relayer) eqn:Hc; simpl.
  - apply wp_ret, Hcore. destruct Hw as [(?&?&?&?&_) Hroom]. unfold roomy, run.
    split_and!; try done. intros _ Hsq. by destruct (not_sequential Hc).
  - destruct Hw as [Hr Hroom]. eapply wp_claim; [exact Hr|done|done|].
    intros [] w1 Hr1 Hc1; simpl; [apply Hcore; split; [done|by rewrite Hc1]|].
    apply wp_ret. eapply leaves_mono; [by eapply leaves_self|reflexivity|done|rewrite Hp; set_solver].
Qed.

(** *** Submission *)

(** A transaction in flight, or with a submit job, owns its lane. *)
Lemma run_engaged t w :
  run None false t w -> is_final_state (tx_status t) = false ->
  in_flight t = true \/ i ∈ submits w -> run None true t w.
Proof.
  intros Hrun Hf He. pose proof (run_lookup _ _ _ _ Hrun) as Hi.
  destruct Hrun as (Hs & Hv & Hid & Hr & _). unfold run. split_and!; try done. intros _ Hsq.
  destruct (si_lane _ _ _ _ _ _ Hs i t Hi) as [?|Hl]; [by rewrite Hr|done|congruence|by rewrite Hr in Hl].
Qed.

(** The same attempt, perhaps with another retry on record. *)
Record same_attempt (t0 t : TransactionRepoModel) : Prop := {
  sa_request : same_identity t0 t;
  sa_status : tx_status t = tx_status t0;
  sa_data : tx_network_data t = tx_network_data t0;
}.

Lemma same_attempt_refl t : same_attempt t t.
Proof. by constructor. Qed.

Definition records (op : string -> M S RepositoryError.t TransactionRepoModel) (g : Z -> Z) : Prop :=
  forall s, wp (op i) (fun r s' =>
    (exists t m, repo_view s !! i = Some t /\ is_final_state (tx_status t) = false /\
       insufficient_fee_retries m = g (fee_retries t) /\ exists at',
       let t' := set_tx_sent_at at' (set_tx_metadata (Some m) t) in
       repo_view s' = <[i := t']> (repo_view s) /\ (forall t'', r = Ok t'' -> t'' = t')) \/
    (repo_view s' = repo_view s /\
     forall t, r = Ok t -> repo_view s !! i = Some t /\ is_final_state (tx_status t) = true)) s.

Lemma records_try_again_later at' :
  records (fun id => repo_record_stellar_try_again_later_retry id at') (fun n => n).
Proof.
  intros s. eapply wp_mono; [|apply repo_record_try_again_later_spec].
  intros x s' [(t & m & ? & ? & ? & ? & ?)|?]; [left|by right].
  exists t, m. split_and!; [done..|]. by exists (Some at').
Qed.

Lemma records_insufficient_fee at' :
  records (fun id => repo_record_stellar_insufficient_fee_retry id at') (fun n => sat_add u32_max n 1).
Proof.
  intros s. eapply wp_mono; [|apply repo_record_insufficient_fee_spec].
  intros x s' [(t & m & ? & ? & ? & ? & ?)|?]; [left|by right].
  exists t, m. split_and!; [done..|]. by exists (Some at').
Qed.

Lemma wp_record t w op g :
  records op g -> run None true t w -> active t ->
  g (fee_retries t) <= STELLAR_INSUFFICIENT_FEE_MAX_RETRIES ->
  wp (repo (op i)) (fun x w' => exists t', run None true t' w' /\ same_attempt t t' /\
    forall t'', x = Ok t'' -> t'' = t') w.
Proof.
  intros Hop Hrun Ha Hg. assert (Hf : is_final_state (tx_status t) = false)
    by (unfold active in Ha; by destruct (tx_status t)).
  unfold repo. apply wp_map_err. unfold wp, repo_call. pose proof (run_lookup _ _ _ _ Hrun) as Hi.
  specialize (Hop (w_repo w)). unfold wp in Hop.
  destruct (op i (w_repo w)) as [x s']. simpl in *.
  destruct Hop as [(u & m & Hu & _ & Hm & at' & Hv & Hx)|[Hv Hx]]; unfold view in Hi.
  - rewrite Hi in Hu. injection Hu as <-. set (t' := set_tx_sent_at _ _) in *.
    assert (Hat : same_attempt t t') by (by destruct t; repeat constructor).
    exists t'. split_and!; [|done|intros t'' ->%lift_map_err_ok; auto].
    pose proof Hrun as (Hs & Hv0 & Hid & Hr & Ho). destruct Hat as [[] Hst Hnd].
    unfold run, sinvw. rewrite view_set_repo, Hv. split_and!;
      [|by unfold view in Hv0; rewrite Hv0, insert_insert_eq|congruence|congruence|by destruct w].
    replace (w_lanes _) with (w_lanes w) by by destruct w.
    replace (w_ctr _) with (w_ctr w) by by destruct w.
    replace (submits _) with (submits w) by by destruct w.
    eapply sinv_update; [exact Hs|exact Hi|congruence|done| | | | |].
    + rewrite Hr. intros Hsq _. right. auto.
    + by left.
    + left. congruence.
    + intros n Hn. assert (Hn' : stellar_sequence t = Some n) by (unfold stellar_sequence in *; by rewrite <- Hnd).
      destruct (usable_own _ _ _ Hrun Ha) as [_ Hus]. rewrite Hr. destruct (Hus n Hn'). done.
    + replace (fee_retries t') with (insufficient_fee_retries m) by by destruct t. congruence.
  - exists t. split_and!; [|by apply same_attempt_refl|].
    + eapply run_core; [|exact Hrun]. unfold same_core. rewrite view_set_repo, Hv. by destruct w.
    + intros t'' ->%lift_map_err_ok. destruct (Hx t'' eq_refl). congruence.
Qed.

(** The attempt is over, or stopped by an error that leaves the transaction where it was. *)
Definition attempted t (x : result TransactionError.t TransactionRepoModel) (w : W S C) : Prop :=
  match x with
  | Ok _ => leaves true t [tx_status t; Submitted] x w
  | Err _ => exists t', run None true t' w /\ same_attempt t t'
  end.

Lemma attempted_same t t' w : run None true t' w -> same_attempt t t' -> attempted t (Ok t') w.
Proof.
  intros Hr Ha. exists t'. split_and!; [done|apply Ha|rewrite (sa_status _ _ Ha); set_solver|].
  by intros ? [= <-].
Qed.

Lemma wp_fast_resubmit t w n (Q : result TransactionError.t unit -> W S C -> Prop) :
  run None true t w -> (forall w', run None true t w' -> Q (Ok tt) w') -> wp (fast_resubmit t n) Q w.
Proof.
  intros Hr HQ. unfold fast_resubmit. apply wp_bind, wp_try.
  eapply wp_submit_job; [exact Hr|apply Hr|]. intros x w' Hr' _. by apply wp_ret, HQ.
Qed.

Lemma wp_now gap own t w (Q : result TransactionError.t Z -> W S C -> Prop) :
  run gap own t w -> (forall n w', run gap own t w' -> Q (Ok n) w') -> wp now Q w.
Proof. intros Hr HQ. apply HQ. eapply run_core; [|exact Hr]. apply core_now. Qed.

Lemma wp_accepted t w d resp :
  run None true t w -> active t -> get_stellar_transaction_data (tx_network_data t) = Ok d ->
  wp (submit_accepted relayer t d resp) (attempted t) w.
Proof.
  intros Hrun Ha Hd. assert (Hid : tx_id t = i) by apply Hrun. unfold submit_accepted. cbv zeta.
  rewrite Hid. apply wp_bind. eapply wp_now; [exact Hrun|]. clear w Hrun. intros n w Hrun.
  apply wp_bind. eapply wp_update; [exact Hrun| |done|by right| |].
  - unfold active in Ha. by destruct (tx_status t).
  - intros n' s Hs. assert (Hs' : stellar_sequence t = Some s).
    { revert Hs. unfold stellar_sequence. destruct (tx_network_data t); simplify_eq/=. by destruct d. }
    destruct (usable_own _ _ _ Hrun Ha) as [_ Hu]. by destruct (Hu s Hs').
  - intros n' w1 t' Hr1. change (is_final_state (tx_status t')) with false in Hr1. simpl in Hr1.
    assert (Hend : forall w', run None true t' w' -> attempted t (Ok t') w').
    { intros w' Hr'. exists t'. split_and!; [done|by apply same_identity_update|simpl; set_solver|].
      by intros ? [= <-]. }
    apply wp_bind. case_match; [|by apply wp_ret, wp_ret, Hend].
    eapply wp_notify; [exact Hr1|]. intros. by apply wp_ret, Hend.
Qed.

Lemma wp_try_again_later t w :
  run None true t w -> active t -> wp (submit_try_again_later t) (attempted t) w.
Proof.
  intros Hrun Ha. assert (Hid : tx_id t = i) by apply Hrun. unfold submit_try_again_later.
  rewrite Hid. apply wp_bind. eapply wp_now; [exact Hrun|]. clear w Hrun. intros n w Hrun. apply wp_bind.
  eapply wp_mono; [|apply (wp_record t w _ _ (records_try_again_later _) Hrun Ha)];
    [|by apply (si_fee _ _ _ _ _ _ (proj1 Hrun) i), (run_lookup _ _ _ _ Hrun)].
  intros [t1|e] w1 (t' & Hr1 & Hat & Ht); [|by exists t']. rewrite (Ht t1 eq_refl). clear t1 Ht.
  case_match; [by apply wp_ret, attempted_same|]. apply wp_bind.
  case_match; [|by apply wp_ret, wp_ret, attempted_same].
  eapply wp_fast_resubmit; [exact Hr1|]. intros w2 Hr2. by apply wp_ret, attempted_same.
Qed.

Lemma wp_insufficient_fee t w :
  run None true t w -> active t -> wp (submit_insufficient_fee t) (attempted t) w.
Proof.
  intros Hrun Ha. assert (Hid : tx_id t = i) by apply Hrun. unfold submit_insufficient_fee. cbv zeta.
  rewrite Hid. case_match eqn:Hmax; [apply wp_fail; exists t; split; [done|apply same_attempt_refl]|].
  apply Z.ltb_ge in Hmax. apply wp_bind. eapply wp_now; [exact Hrun|]. clear w Hrun.
  intros n w Hrun. apply wp_bind.
  eapply wp_mono; [|apply (wp_record t w _ _ (records_insufficient_fee _) Hrun Ha); exact Hmax].
  intros [t1|e] w1 (t' & Hr1 & Hat & Ht); [|by exists t']. rewrite (Ht t1 eq_refl). clear t1 Ht.
  case_match; [by apply wp_ret, attempted_same|]. case_match; [by apply wp_ret, attempted_same|].
  apply wp_bind. eapply wp_fast_resubmit; [exact Hr1|]. intros w2 Hr2. by apply wp_ret, attempted_same.
Qed.

Lemma wp_submit_core t w :
  run None true t w -> active t -> wp (submit_core relayer t) (attempted t) w.
Proof.
  intros Hrun Ha. assert (Hfail : forall e w', run None true t w' -> attempted t (Err e) w').
  { intros e w' Hr. exists t. split; [done|apply same_attempt_refl]. }
  unfold submit_core. apply wp_bind, wp_lift.
  destruct (get_stellar_transaction_data _) as [d|] eqn:Hd; [|by apply Hfail].
  eapply wp_bind_keeps; [apply (keeps_core None true t); preserve|done|by auto|]. clear w Hrun.
  intros env w _ Hrun.
  eapply wp_bind_keeps; [apply (keeps_core None true t); preserve|done|by auto|]. clear w Hrun.
  intros resp w _ Hrun. cbv zeta.
  case_match; [by apply wp_accepted|]. case_match; [by apply wp_try_again_later|].
  case_match; [|by apply wp_fail, Hfail].
  destruct (match decode_transaction_result_code _ with Some _ => _ | None => _ end);
    [by apply wp_insufficient_fee|by apply wp_fail, Hfail].
Qed.

Lemma wp_fail_submission own t t0 w e reason :
  run None own t w -> is_final_state (tx_status t) = false -> tx_id t0 = i ->
  wp (fail_submission relayer t0 e reason) (leaves false t [Failed]) w.
Proof.
  intros Hrun Hf Hid. unfold fail_submission. rewrite Hid. apply wp_bind, wp_try.
  eapply (wp_finalize own t w _ Failed); [exact Hrun|done..|]. intros n w1 t' Hr1.
  apply wp_bind, wp_try. eapply wp_enqueue; [exact Hr1|done|]. intros x w2 Hr2 _. apply wp_ret.
  exists t'. split_and!; [done|by apply same_identity_update|simpl; set_solver|by intros ? [= <-]].
Qed.

Lemma wp_get_by_id own t w :
  run None own t w -> wp (repo (repo_get_by_id i)) (leaves false t [tx_status t]) w.
Proof.
  intros Hrun. unfold repo. apply wp_map_err. pose proof (core_get_by_id (S := S) (C := C) i w) as Hc.
  pose proof (repo_get_by_id_spec i (w_repo w)) as Hs. unfold wp, repo_call in *.
  destruct (repo_get_by_id i (w_repo w)) as [x s']. simpl in *. destruct Hs as [_ Hs].
  exists t. split_and!; [by eapply run_weaken, run_core|reflexivity|set_solver|].
  intros t' ->%lift_map_err_ok. specialize (Hs _ eq_refl). apply run_lookup in Hrun.
  unfold view in Hrun. congruence.
Qed.

Lemma wp_reset own t t0 w :
  run None true t w -> same_attempt t0 t -> tx_id t0 = i -> is_final_state (tx_status t) = false ->
  wp (reset_transaction_for_retry t0) (fun x w' => leaves own t [Pending] x w' /\ is_ok x = true) w.
Proof.
  intros Hrun Hat Hid Hf. unfold reset_transaction_for_retry. rewrite Hid. apply wp_bind, wp_lift.
  simpl. eapply wp_update; [exact Hrun|done|done|by right| |].
  - intros n s Hs. exfalso. revert Hs. unfold stellar_sequence. simpl.
    rewrite <- (sa_data _ _ Hat). by destruct (tx_network_data t) eqn:Hd; simpl; try rewrite Hd.
  - intros n w1 t' Hr1. split; [|done]. exists t'.
    split_and!; [|by apply same_identity_update|simpl; set_solver|by intros ? [= <-]].
    change (is_final_state (tx_status t')) with false in Hr1. simpl in Hr1.
    destruct own; [done|by eapply run_weaken].
Qed.

Lemma wp_submit_failure t t0 w e :
  run None true t w -> same_attempt t0 t -> tx_id t0 = i -> is_final_state (tx_status t) = false ->
  wp (handle_submit_failure relayer t0 e) (leaves false t [tx_status t; Pending; Failed]) w.
Proof.
  intros Hrun Hat Hid Hf.
  assert (Hmono : forall l x w', leaves false t l x w' -> l ⊆ [tx_status t; Pending; Failed] ->
    leaves false t [tx_status t; Pending; Failed] x w') by (intros; by eapply leaves_mono).
  unfold handle_submit_failure. cbv zeta.
  case_match; [rewrite Hid; eapply wp_mono; [|by eapply wp_get_by_id]; intros; eapply Hmono; [done|set_solver]|].
  case_match; [|eapply wp_mono; [|by eapply wp_fail_submission]; intros; eapply Hmono; [done|set_solver]].
  apply wp_bind, wp_try. eapply wp_mono; [|by apply (wp_reset false t t0)].
  intros [t1|] w1 [Hl Hok]; [|done]. clear Hok. destruct Hl as (t' & Hr & Hq & Hs & Ht).
  rewrite (Ht _ eq_refl). apply wp_bind. eapply wp_best_effort; [exact Hr|]. intros w2 Hr2. apply wp_ret.
  exists t'. split_and!; [done|done|set_solver|by intros ? [= <-]].
Qed.

Lemma wp_mark own t t0 w reason s' (mark : TransactionRepoModel -> string -> T S C TransactionRepoModel) :
  mark = mark_as_failed relayer /\ s' = Failed \/ mark = mark_as_expired relayer /\ s' = Expired ->
  run None own t w -> is_final_state (tx_status t) = false -> tx_id t0 = i ->
  wp (mark t0 reason) (fun x w' => leaves false t [s'] x w' /\ is_ok x = true) w.
Proof.
  intros Hm Hrun Hf Hid. destruct Hm as [[-> ->]|[-> ->]]; unfold mark_as_failed, mark_as_expired;
    rewrite Hid; by eapply wp_finalize_and_release.
Qed.

Lemma wp_submit t w :
  run None false t w -> i ∈ submits w -> tx_status t <> Mined ->
  wp (submit_transaction_impl relayer t)
    (leaves false t (if is_final_state (tx_status t) then [tx_status t]
                     else [tx_status t; Submitted; Pending; Failed; Expired])) w.
Proof.
  intros Hrun Hsub Hnm. assert (Hid : tx_id t = i) by apply Hrun. unfold submit_transaction_impl.
  destruct (is_final_state (tx_status t)) eqn:Hf; [by eapply wp_ret, leaves_self|].
  assert (Ha : active t) by (unfold active; by destruct (tx_status t)).
  apply run_engaged in Hrun; [|done|by right]. clear Hsub.
  eapply wp_bind_keeps; [apply (keeps_core None true t); preserve|done|..].
  { intros e w' Hr. exists t. split_and!; [by eapply run_weaken|reflexivity|set_solver|done]. }
  clear w Hrun. intros [] w _ Hrun.
  - eapply wp_mono; [|eapply (wp_mark true t t w); [by right|done..]]. intros x w' [Hl _].
    by eapply leaves_mono; [exact Hl|reflexivity|done|set_solver].
  - apply wp_bind, wp_try. eapply wp_mono; [|by apply wp_submit_core]. intros [t'|e] w' Hx.
    + apply wp_ret. by eapply leaves_mono; [exact Hx|reflexivity|done|set_solver].
    + destruct Hx as (t' & Hr & Hat). eapply wp_mono; [|eapply wp_submit_failure; [exact Hr|done..|]];
        [|by rewrite (sa_status _ _ Hat)].
      intros x w2 Hl. eapply leaves_mono; [exact Hl|apply Hat|done|].
      rewrite (sa_status _ _ Hat). set_solver.
Qed.

(** *** Status *)

(** A status check that succeeds may finish the transaction; one that fails leaves it alone, or
    has finished it and then failed to queue a job. *)
Definition inspected own t (l : list TransactionStatus)
    (x : result TransactionError.t TransactionRepoModel) (w : W S C) : Prop :=
  match x with
  | Ok _ => leaves false t (tx_status t :: l) x w
  | Err e => run None own t w \/ (queue_error e /\ leaves false t l x w)
  end.

Lemma inspected_same own t l w : run None own t w -> inspected own t l (Ok t) w.
Proof.
  intros Hr. eapply leaves_mono; [by eapply leaves_self|reflexivity|done|]. set_solver.
Qed.

Lemma wp_check_lifetime own t w reason :
  run None own t w -> is_final_state (tx_status t) = false -> tx_id t = i ->
  wp (check_expiration_and_max_lifetime relayer t reason) (fun x w' =>
    match x with
    | Ok (Some t') => leaves false t [Failed; Expired] (Ok t') w'
    | _ => run None own t w'
    end) w.
Proof.
  intros Hrun Hf Hid. unfold check_expiration_and_max_lifetime.
  eapply wp_bind_keeps; [apply (keeps_core None own t); preserve|done|done|]. clear w Hrun.
  intros age w _ Hrun.
  eapply wp_bind_keeps; [apply (keeps_core None own t); preserve|done|done|]. clear w Hrun.
  intros b w _ Hrun.
  assert (Hmark : forall mark reason' s', s' ∈ [Failed; Expired] ->
    mark = mark_as_failed relayer /\ s' = Failed \/ mark = mark_as_expired relayer /\ s' = Expired ->
    wp (bindM (mark t reason') (fun t' => retM (Some t'))) (fun x w' =>
      match x with
      | Ok (Some t') => leaves false t [Failed; Expired] (Ok t') w'
      | _ => run None own t w'
      end) w).
  { intros mark reason' s' Hs' Hm. apply wp_bind. eapply wp_mono; [|eapply wp_mark; [exact Hm|done..]].
    intros [t'|] w' [Hl Hok]; [|done]. apply wp_ret. eapply leaves_mono; [exact Hl|reflexivity|done|set_solver]. }
  assert (Hrest : wp (if STELLAR_MAX_STUCK_TRANSACTION_LIFETIME_MINUTES * 60 * 10 ^ 9 <? age
      then let* t := mark_as_failed relayer t reason in retM (Some t) else retM None)
    (fun x w' =>
      match x with
      | Ok (Some t') => leaves false t [Failed; Expired] (Ok t') w'
      | _ => run None own t w'
      end) w).
  { case_match; [|by apply wp_ret]. eapply (Hmark _ _ Failed); [set_solver|by left]. }
  destruct b as [[]|]; [|done..]. eapply (Hmark _ _ Expired); [set_solver|by right].
Qed.

Lemma wp_resubmit_with_backoff t w (Q : result TransactionError.t unit -> W S C -> Prop) :
  run None true t w -> (forall x w', run None true t w' -> Q x w') -> wp (resubmit_with_backoff t) Q w.
Proof.
  intros Hrun HQ. unfold resubmit_with_backoff.
  eapply wp_bind_keeps; [apply (keeps_core None true t); preserve|done|by auto|]. clear w Hrun.
  intros age w _ Hrun. case_match; [|by apply wp_ret, HQ].
  eapply wp_bind_keeps; [apply (keeps_core None true t); preserve|done|by auto|]. clear w Hrun.
  intros since w _ Hrun. case_match; [|by apply wp_ret, HQ].
  eapply wp_submit_job; [exact Hrun|apply Hrun|]. by auto.
Qed.

(** The common end of the Sent and Submitted handlers. *)
Lemma wp_wait t w reason l :
  run None true t w -> is_final_state (tx_status t) = false -> [Failed; Expired] ⊆ l ->
  wp (let* handled := check_expiration_and_max_lifetime relayer t reason in
      match handled with
      | Some result => retM result
      | None => do* resubmit_with_backoff t in retM t
      end) (inspected true t l) w.
Proof.
  intros Hrun Hf Hl. apply wp_bind. eapply wp_mono; [|by apply (wp_check_lifetime true); [..|apply Hrun]].
  intros [[t'|]|e] w' Hx; [| |by left].
  - apply wp_ret. eapply leaves_mono; [exact Hx|reflexivity|done|set_solver].
  - apply wp_bind. eapply wp_resubmit_with_backoff; [exact Hx|].
    intros [[]|e] w2 Hr2; [by apply wp_ret, inspected_same|by left].
Qed.

Lemma wp_pending_state t w :
  run None false t w -> tx_status t = Pending ->
  wp (handle_pending_state relayer t) (inspected false t [Failed; Expired]) w.
Proof.
  intros Hrun Hst. unfold handle_pending_state. apply wp_bind.
  eapply wp_mono; [|apply (wp_check_lifetime false); [exact Hrun|by rewrite Hst|apply Hrun]].
  clear w Hrun. intros [[t'|]|e] w Hrun; [| |by left].
  { apply wp_ret. eapply leaves_mono; [exact Hrun|reflexivity|done|set_solver]. }
  eapply wp_bind_keeps; [apply (keeps_core None false t); preserve|done|by left|]. clear w Hrun.
  intros age w _ Hrun.
  eapply wp_bind_keeps; [apply (keeps_core None false t); unfold queue; preserve|done|by left|].
  intros _ w' _ Hr'. by apply wp_ret, inspected_same.
Qed.

(** Success and failure on chain. *)
Lemma wp_finish own t w u s' l :
  run None own t w -> is_final_state (tx_status t) = false -> upd_metadata u = None ->
  upd_status u = Some s' -> is_final_state s' = true -> s' ∈ l ->
  (forall nd, upd_network_data u = Some nd -> exists d d0, nd = StellarData d /\
     tx_network_data t = StellarData d0 /\ st_sequence_number d = st_sequence_number d0) ->
  wp (bindM (finalize_transaction_state relayer i u) (fun t' =>
        bindM (enqueue_next_pending_transaction relayer i) (fun _ => retM t')))
    (inspected own t l) w.
Proof.
  intros Hrun Hf Hm Hst Hfin Hl Hnd. apply wp_bind. eapply wp_finalize; [exact Hrun|done..|].
  intros n w1 t' Hr1. assert (Hs : tx_status t' = s') by (unfold t'; simpl; by rewrite Hst).
  assert (Hend : forall x w', run None false t' w' -> (forall t'', x = Ok t'' -> t'' = t') ->
    leaves false t l x w').
  { intros x w' Hr Hx. exists t'. split_and!; [done|by apply same_identity_update|by rewrite Hs|done]. }
  apply wp_bind. eapply wp_enqueue; [exact Hr1|by rewrite Hs|]. intros [[]|e] w2 Hr2 He.
  - apply wp_ret. eapply leaves_mono; [apply Hend; [exact Hr2|by intros ? [= <-]]|reflexivity|done|set_solver].
  - right. split; [by apply He|by apply Hend].
Qed.

Lemma confirmed_data_sequence resp d :
  st_sequence_number (confirmed_data resp d) = st_sequence_number d.
Proof. unfold confirmed_data. by destruct d; repeat (case_match; simpl). Qed.

Lemma wp_submitted_state t w :
  run None true t w -> tx_status t = Submitted ->
  wp (handle_submitted_state relayer t) (inspected true t [Confirmed; Failed; Expired]) w.
Proof.
  intros Hrun Hst. assert (Hid : tx_id t = i) by apply Hrun.
  assert (Hf : is_final_state (tx_status t) = false) by by rewrite Hst.
  unfold handle_submitted_state. case_match.
  - eapply wp_bind_keeps; [apply (keeps_core None true t); preserve|done|by left|]. clear w Hrun.
    intros resp w _ Hrun. cbv zeta. case_match; [|case_match].
    + unfold handle_stellar_success. apply wp_bind. eapply wp_now; [exact Hrun|]. clear w Hrun.
      intros n w Hrun. rewrite Hid. eapply wp_finish; [exact Hrun|done|done|done|done|set_solver|].
      intros nd Hnd. simpl in Hnd. destruct (tx_network_data t) as [|d|d] eqn:Hd; simplify_eq/=.
      eexists _, d. split_and!; [done|done|by destruct (confirmed_data_sequence resp d)].
    + unfold handle_stellar_failed. rewrite Hid. eapply wp_finish; [exact Hrun|done..|set_solver|done].
    + apply wp_wait; [done|done|set_solver].
  - eapply wp_mono; [|eapply (wp_mark true t t w); [by left|done..]]. intros x w' [Hl Hok].
    destruct x; [|done]. eapply leaves_mono; [exact Hl|reflexivity|done|set_solver].
Qed.

(** The final statuses a status check may give. *)
Definition checked_targets (s : TransactionStatus) : list TransactionStatus :=
  match s with Submitted => [Confirmed; Failed; Expired] | _ => [Failed; Expired] end.

Lemma wp_status_core t w :
  run None false t w -> active t ->
  wp (status_core relayer t) (inspected false t (checked_targets (tx_status t))) w.
Proof.
  intros Hrun Ha. unfold status_core.
  assert (Hweak : forall l x w', inspected true t l x w' -> inspected false t l x w').
  { intros l [t'|e] w' Hx; [done|]. destruct Hx as [Hr|Hx]; [left|by right]. by eapply run_weaken. }
  assert (Heng : tx_status t = Sent \/ tx_status t = Submitted -> run None true t w).
  { intros Hs. apply run_engaged; [done|..]; [|left; unfold in_flight]; destruct Hs as [->| ->]; done. }
  unfold active in Ha. destruct (tx_status t) eqn:Hs; try done; unfold checked_targets.
  - by apply wp_pending_state.
  - eapply wp_mono; [apply Hweak|]. unfold handle_sent_state.
    apply wp_wait; [auto|by rewrite Hs|set_solver].
  - eapply wp_mono; [apply Hweak|]. apply wp_submitted_state; auto.
Qed.

Lemma wp_status t w ctx :
  run None false t w -> tx_status t <> Mined ->
  wp (handle_transaction_status_impl relayer t ctx)
    (leaves false t (if is_final_state (tx_status t) then [tx_status t]
                     else tx_status t :: checked_targets (tx_status t))) w.
Proof.
  intros Hrun Hnm. assert (Hid : tx_id t = i) by apply Hrun. unfold handle_transaction_status_impl.
  destruct (is_final_state (tx_status t)) eqn:Hf; [by eapply wp_ret, leaves_self|].
  assert (Ha : active t) by (unfold active; by destruct (tx_status t)).
  set (l := checked_targets (tx_status t)).
  assert (Hin : Failed ∈ l) by (unfold l; destruct (tx_status t); simpl; set_solver).
  assert (Hmark : forall w' reason, run None false t w' ->
    wp (mark_as_failed relayer t reason) (leaves false t (tx_status t :: l)) w').
  { intros w' reason Hr. eapply wp_mono; [|eapply (wp_mark false t t w'); [by left|done..]].
    intros x w2 [Hl _]. by eapply leaves_mono; [exact Hl|reflexivity|done|set_solver]. }
  assert (Hcore : wp (
      let* r := try_ (status_core relayer t) in
      match r with
      | Ok updated_tx => retM updated_tx
      | Err error =>
          if is_concurrent_update_conflict error then repo (repo_get_by_id (tx_id t))
          else match error with
               | TransactionError.ValidationError msg =>
                   mark_as_failed relayer t ("Validation error: " +:+ msg)
               | _ => failM error
               end
      end) (leaves false t (tx_status t :: l)) w).
  { apply wp_bind, wp_try. eapply wp_mono; [|by apply wp_status_core]. fold l.
    intros [t'|e] w' Hx; [by apply wp_ret|]. destruct Hx as [Hr|[[e' ->] Hl]].
    - case_match.
      + rewrite Hid. eapply wp_mono; [|by eapply wp_get_by_id]. intros x w2 Hl.
        by eapply leaves_mono; [exact Hl|reflexivity|done|set_solver].
      + assert (Hfail : leaves false t (tx_status t :: l) (Err e) w').
        { exists t. split_and!; [done|reflexivity|set_solver|done]. }
        destruct e; try (by apply wp_fail, Hfail). by apply Hmark.
    - simpl. apply wp_fail. by eapply leaves_mono; [exact Hl|reflexivity|done|set_solver]. }
  destruct ctx as [ctx|]; [|done]. destruct (should_force_finalize ctx); [by apply Hmark|done].
Qed.

(** What a handler may do to the status of a Stellar transaction. *)
Definition targets (h : handler) (s : TransactionStatus) : list TransactionStatus :=
  if is_final_state s then [s] else
  match h with
  | HPrepare => if status_eqb s Pending then [Pending; Sent; Failed] else [s]
  | HSubmit => [s; Submitted; Pending; Failed; Expired]
  | HStatus _ => s :: checked_targets s
  | HResubmit | HCancel | HReplace _ => [s]
  end.

Lemma wp_handler h t w :
  roomy false t w -> tx_status t <> Mined -> (h = HSubmit -> i ∈ submits w) ->
  wp (stellar_network relayer h t) (leaves false t (targets h (tx_status t))) w.
Proof.
  intros Hw Hnm Hsub. pose proof (proj1 Hw) as Hrun. unfold targets.
  assert (Hskip : leaves false t (targets HResubmit (tx_status t)) (Ok t) w).
  { unfold targets. rewrite Tauto.if_same. by eapply leaves_self. }
  unfold targets in Hskip. destruct h; simpl; try by apply wp_ret.
  - eapply wp_mono; [|by apply wp_prepare]. intros x w' Hl. destruct (is_final_state _) eqn:Hf; [|done].
    by destruct (tx_status t).
  - by apply wp_submit; auto.
  - by apply wp_status.
Qed.
End Run.
