(* ===== verification/StellarPrepare.v ===== *)
(** * What the Stellar handlers put on the wire

    The envelope that a prepared transaction is submitted as, the fee of a fee bump, and the
    ladder of resubmission intervals. *)

From S2P Require Import Prelude Decimal Errors Json Model Config StellarXdr Repository Counter.
From S2P Require Import Jobs Effects Sample EvmUtils EvmTransaction Lifecycle JobHandlers.
From S2P Require Import Stellar StellarSample StellarProperties.
Open Scope Z_scope.

(** ** The resubmission ladder *)

(** The age [age] is in the tier [k] of the ladder on [base] with growth 3/2. *)
Definition in_tier (base age : Z) (k : nat) : Prop :=
  base * 3 ^ Z.of_nat k <= age * 2 ^ Z.of_nat k /\
  age * 2 ^ Z.of_nat (S k) < base * 3 ^ Z.of_nat (S k).

(** The interval after [k] rounds: the power, or the cap once it was reached. *)
Definition at_round (base cap : Z) (k : nat) (interval : dyadic) : Prop :=
  interval = (base * 3 ^ Z.of_nat k, Z.of_nat k) \/
  (interval = (cap, 0) /\ cap * 2 ^ Z.of_nat k <= base * 3 ^ Z.of_nat k).

Lemma pow_succ b k : b ^ Z.of_nat (S k) = b ^ Z.of_nat k * b.
Proof. rewrite Nat2Z.inj_succ, Z.pow_succ_r by lia. ring. Qed.

Lemma at_round_next base cap k interval :
  0 < cap -> at_round base cap k interval ->
  at_round base cap (S k)
    (dy_min (dy_mul interval STELLAR_RESUBMIT_GROWTH_FACTOR) (dy_int cap)).
Proof.
  intros Hc Hk. assert (0 < 2 ^ Z.of_nat k) by lia. assert (0 < 3 ^ Z.of_nat k) by lia.
  unfold dy_min, dy_le, dy_mul, dy_int, STELLAR_RESUBMIT_GROWTH_FACTOR.
  destruct Hk as [->|[-> Hle]]; simpl fst; simpl snd; unfold at_round; rewrite !pow_succ.
  - case_match eqn:Hm; [left|right; apply Z.leb_gt in Hm].
    + f_equal; [ring|lia].
    + split; [done|]. rewrite Z.pow_0_r, Z.mul_1_r, Z.pow_add_r in Hm by lia. lia.
  - change (2 ^ 0) with 1. change (2 ^ (0 + 1)) with 2.
    destruct (Z.leb_spec (cap * 3 * 1) (cap * 2)); [lia|]. right. split; [done|]. nia.
Qed.

Lemma dy_le_int n e z : dy_le (n, e) (dy_int z) = (n <=? z * 2 ^ e).
Proof. unfold dy_le, dy_int. simpl. by rewrite Z.mul_1_r. Qed.

(** The loop ends in the tier of the age, if the tiers up to the fuel reach it. *)
Lemma tier_loop_tier fuel base cap age k interval :
  0 < cap -> at_round base cap k interval -> base * 3 ^ Z.of_nat k <= age * 2 ^ Z.of_nat k ->
  age * 2 ^ Z.of_nat (S k + fuel) < base * 3 ^ Z.of_nat (S k + fuel) ->
  exists k' interval', at_round base cap k' interval' /\ in_tier base age k' /\
    tier_loop fuel age cap STELLAR_RESUBMIT_GROWTH_FACTOR interval
      (base * 3 ^ Z.of_nat (S k), Z.of_nat (S k)) = Some interval'.
Proof.
  intros Hc. revert k interval. induction fuel as [|fuel IH]; intros k interval Hr Hlo Hhi;
    cbn [tier_loop]; rewrite dy_le_int.
  - rewrite Nat.add_0_r in Hhi. rewrite (proj2 (Z.leb_gt _ _) Hhi). by exists k, interval.
  - case_match eqn:Hle; [apply Z.leb_le in Hle|apply Z.leb_gt in Hle; by exists k, interval].
    replace (dy_mul (base * 3 ^ Z.of_nat (S k), Z.of_nat (S k)) STELLAR_RESUBMIT_GROWTH_FACTOR)
      with (base * 3 ^ Z.of_nat (S (S k)), Z.of_nat (S (S k))).
    + apply IH; [by apply at_round_next|done|]. by rewrite <- Nat.add_succ_comm in Hhi.
    + unfold dy_mul, STELLAR_RESUBMIT_GROWTH_FACTOR. cbn [fst snd].
      rewrite (pow_succ 3 (S k)). f_equal; [ring|lia].
Qed.

(** [3^n >= 2^n + n 2^(n-1)]: the tiers grow at least linearly. *)
Lemma tiers_grow n : 2 ^ Z.of_nat n * (2 + Z.of_nat n) <= 2 * 3 ^ Z.of_nat n.
Proof.
  induction n as [|n IH]; [done|]. rewrite !pow_succ, Nat2Z.inj_succ.
  assert (0 < 2 ^ Z.of_nat n) by lia. nia.
Qed.

Lemma at_round_capped base cap k interval :
  at_round base cap k interval ->
  Z.min (dy_floor interval) cap = Z.min (base * 3 ^ Z.of_nat k / 2 ^ Z.of_nat k) cap.
Proof.
  unfold dy_floor. intros [->|[-> Hle]]; cbn [fst snd]; [done|]. rewrite Z.pow_0_r, Z.div_1_r.
  assert (cap <= base * 3 ^ Z.of_nat k / 2 ^ Z.of_nat k) by (apply Z.div_le_lower_bound; lia). lia.
Qed.

(** The resubmission ladder is the documented one: before the base interval nothing is
    resubmitted; at any later age exactly one tier [k] holds, with the age between base times
    1.5 to the [k] and base times 1.5 to the [k+1], and the interval is base times 1.5 to the
    [k], rounded down, and at most the maximum.  The loop always ends. *)
Theorem resubmit_ladder total_age base cap :
  0 < base -> 0 < cap -> 0 <= total_age ->
  let age := total_age / 10 ^ 9 in
  (age < base ->
     compute_resubmit_backoff_interval total_age base cap STELLAR_RESUBMIT_GROWTH_FACTOR = None) /\
  (base <= age -> exists k, in_tier base age k /\
     compute_resubmit_backoff_interval total_age base cap STELLAR_RESUBMIT_GROWTH_FACTOR =
       Some (Z.min (base * 3 ^ Z.of_nat k / 2 ^ Z.of_nat k) cap * 10 ^ 9)).
Proof.
  intros Hb Hc Hage age. unfold compute_resubmit_backoff_interval.
  rewrite Z.quot_div_nonneg by lia. fold age. split; intros Ha.
  { by rewrite (proj2 (Z.ltb_lt _ _) Ha). }
  rewrite (proj2 (Z.ltb_ge _ _) Ha), (proj2 (Z.leb_gt _ _) Hb), (proj2 (Z.leb_gt _ _) Hc).
  change (dy_le STELLAR_RESUBMIT_GROWTH_FACTOR (dy_int 1)) with false. cbn [orb].
  set (fuel := tier_fuel age STELLAR_RESUBMIT_GROWTH_FACTOR).
  assert (Hfuel : Z.of_nat fuel = age * 2) by (unfold fuel, tier_fuel; simpl; lia).
  destruct (tier_loop_tier fuel base cap age 0 (dy_int base)) as (k & interval & Hr & Ht & He).
  - done.
  - left. unfold dy_int. f_equal. simpl. lia.
  - simpl. lia.
  - pose proof (tiers_grow (1 + fuel)) as Hg.
    assert (Hm : Z.of_nat (1 + fuel) = 1 + age * 2) by lia.
    assert (0 < 2 ^ Z.of_nat (1 + fuel)) by lia. assert (0 < 3 ^ Z.of_nat (1 + fuel)) by lia.
    set (p2 := 2 ^ Z.of_nat (1 + fuel)) in *. set (p3 := 3 ^ Z.of_nat (1 + fuel)) in *.
    rewrite Hm in Hg. nia.
  - exists k. split; [done|].
    change (dy_mul (dy_int base) STELLAR_RESUBMIT_GROWTH_FACTOR)
      with (base * 3 ^ Z.of_nat 1, Z.of_nat 1). rewrite He.
    by rewrite (at_round_capped _ _ _ _ Hr).
Qed.

Lemma resubmit_ladder_witness :
  compute_resubmit_backoff_interval (40 * 10 ^ 9) STELLAR_RESUBMIT_BASE_INTERVAL_SECONDS
    STELLAR_RESUBMIT_MAX_INTERVAL_SECONDS STELLAR_RESUBMIT_GROWTH_FACTOR = Some (33 * 10 ^ 9) /\
  exists k, in_tier 10 40 k.
Proof.
  split; [by vm_compute|].
  destruct (resubmit_ladder (40 * 10 ^ 9) 10 120) as [_ Hk]; [lia..|].
  destruct Hk as (k & Hk & _); [by vm_compute|]. by exists k.
Defined.

(** ** Fee bumps *)

(** The smallest rate that is at least the network's and pays the inner transaction's rate. *)
Lemma fee_bump_rate inner resource n m fee :
  0 <= inner <= u32_max -> resource <= i64_max -> 0 < n <= 100 ->
  calculate_fee_bump_fee inner resource n m = Ok fee ->
  0 <= resource /\ exists rate, fee = rate * m + resource /\
    STELLAR_DEFAULT_TRANSACTION_FEE <= rate /\ inner - resource <= rate * n /\
    forall rate', STELLAR_DEFAULT_TRANSACTION_FEE <= rate' -> inner - resource <= rate' * n ->
      rate <= rate'.
Proof.
  intros Hi Hr Hn. unfold calculate_fee_bump_fee.
  rewrite (proj2 (Z.leb_gt n 0)) by lia. case_match; [done|]. case_match eqn:Hneg; [done|].
  apply orb_false_iff in Hneg as [_ Hres%Z.ltb_ge].
  unfold u32_max, i64_max in *. replace (sat_sub_i64 inner resource) with (inner - resource)
    by (unfold sat_sub_i64, i64_max; lia).
  unfold checked_i64. case_match; simpl; [|done]. case_match; simpl; [|done]. intros [= <-].
  split; [done|]. set (v := inner - resource) in *.
  assert (Hw : ceil_div v n = Z.quot (v + n - 1) n).
  { unfold ceil_div. by rewrite wrapi_small by lia. }
  rewrite Hw. unfold STELLAR_DEFAULT_TRANSACTION_FEE.
  eexists. split; [done|]. split; [lia|].
  destruct (Z.leb_spec v 0) as [Hv|Hv].
  - assert (Hq : Z.quot (v + n - 1) n <= 0).
    { destruct (Z.leb_spec 0 (v + n - 1)).
      - rewrite Z.quot_small; lia.
      - apply Z.opp_nonneg_nonpos. rewrite <- Z.quot_opp_l by lia. apply Z.quot_pos; lia. }
    split; [nia|]. intros rate' ? ?. lia.
  - rewrite Z.quot_div_nonneg by lia. pose proof (Z.div_mod (v + n - 1) n ltac:(lia)) as Hd.
    pose proof (Z.mod_pos_bound (v + n - 1) n ltac:(lia)). set (q := (v + n - 1) / n) in *.
    split; [nia|]. intros rate' ? ?. assert (q <= rate') by nia. lia.
Qed.

Section FeeBump.
Context `{Chrono} `{ServerConfig} `{Env} `{StellarSdk} `{StellarEnv}.
Context {S C : Type} `{!TransactionRepository S} `{!StellarRepository S} `{!TransactionCounter C}.

Lemma fee_bump_within envelope max_fee resource fee :
  let inner := extract_inner_transaction_fee envelope in
  let n := Z.max (Z.of_nat (length (extract_operations envelope))) 1 in
  0 <= inner <= u32_max -> (length (extract_operations envelope) <= 100)%nat -> resource <= i64_max ->
  (let? required_fee := calculate_fee_bump_fee inner resource n (n + 1) in
   validated_max_fee_as_u32 max_fee required_fee) = Ok fee ->
  fee = max_fee /\ fee <= u32_max /\ 0 <= resource /\
  resource + STELLAR_DEFAULT_TRANSACTION_FEE * (n + 1) <= fee /\
  (inner - resource) * (n + 1) <= (fee - resource) * n.
Proof.
  intros inner n Hi Hn Hr. destruct (calculate_fee_bump_fee _ _ _ _) as [req|] eqn:Hreq; [|done].
  simpl. unfold validated_max_fee_as_u32. case_match eqn:Hmax; [done|]. case_match eqn:Hu; [|done].
  intros [= <-]. apply Z.ltb_ge in Hmax. apply andb_true_iff in Hu as [_ Hu%Z.leb_le].
  destruct (fee_bump_rate inner resource n (n + 1) req Hi Hr ltac:(lia) Hreq) as (? & rate & -> & Hrate & Hpay & _).
  assert (Hpos : 0 < n) by lia. clearbody n inner.
  pose proof (Z.mul_le_mono_nonneg_r _ _ (n + 1) ltac:(lia) Hrate).
  pose proof (Z.mul_le_mono_nonneg_r _ _ (n + 1) ltac:(lia) Hpay).
  split_and!; [done|done|done|lia|]. transitivity (rate * (n + 1) * n); [lia|].
  apply Z.mul_le_mono_nonneg_r; lia.
Qed.

(** The resource fee of an envelope: the one it states, or else the minimum a simulation by the
    node at [tick] answers, if it needs one, or else nothing. *)
Definition resource_fee_at (tick : nat) (envelope : TransactionEnvelope) (resource : Z) : Prop :=
  match extract_soroban_resource_fee envelope with
  | Some f => resource = f
  | None =>
      if xdr_needs_simulation envelope then
        exists sim, stellar_simulate tick envelope = Ok sim /\ sim_error sim = None /\
          resource = sim_min_resource_fee sim
      else resource = 0
  end.

Lemma simulated_resource_fee envelope (w : W S C) :
  wp (simulate_if_needed envelope) (fun x _ => forall o, x = Ok o ->
    match o with
    | Some sim => xdr_needs_simulation envelope = true /\
        stellar_simulate (w_tick w) envelope = Ok sim /\ sim_error sim = None
    | None => xdr_needs_simulation envelope = false
    end) w.
Proof.
  unfold simulate_if_needed. destruct (xdr_needs_simulation envelope); [|by apply wp_ret; intros o [= <-]].
  apply wp_bind, wp_map_err. unfold wp at 1, call. cbn [fst snd].
  destruct (stellar_simulate _ _) as [sim|e]; cbn [result_map_err]; [|done].
  destruct (sim_error sim) eqn:Hs; [done|]. apply wp_ret. by intros o [= <-].
Qed.

(** C22. The fee of a fee bump.  When the required fee of a fee bump is computed, the fee that is
    bid is the user's maximum.  It fits a [u32]; it pays the resource fee - the one the user's
    envelope states, or else the minimum the node answered to the simulation, if the envelope
    needs one, or else nothing - and the network's base fee for every operation and for the fee
    bump itself; and it bids at least the inner transaction's inclusion fee per operation, the
    rule of CAP-0015, with no rounding in the way.  Nothing is written. *)
Theorem fee_bump_fee_sufficient envelope max_fee (w : W S C) :
  0 <= extract_inner_transaction_fee envelope <= u32_max ->
  (length (extract_operations envelope) <= 100)%nat ->
  (forall f, extract_soroban_resource_fee envelope = Some f -> f <= i64_max) ->
  wp (calculate_fee_bump_required_fee envelope max_fee) (fun x w' =>
    same_core w w' /\
    forall fee, x = Ok fee ->
      fee = max_fee /\ fee <= u32_max /\
      exists resource, 0 <= resource /\ resource_fee_at (w_tick w) envelope resource /\
        let inner := extract_inner_transaction_fee envelope in
        let n := Z.max (Z.of_nat (length (extract_operations envelope))) 1 in
        resource + STELLAR_DEFAULT_TRANSACTION_FEE * (n + 1) <= fee /\
        (inner - resource) * (n + 1) <= (fee - resource) * n) w.
Proof.
  intros Hi Hn Hf. apply wp_conj; [apply wp_preserves, core_fee_bump_fee|].
  unfold calculate_fee_bump_required_fee, resource_fee_at. cbv zeta.
  destruct (extract_soroban_resource_fee envelope) as [f|] eqn:Hres.
  - apply wp_lift. intros fee Hfee.
    destruct (fee_bump_within _ _ _ _ Hi Hn (Hf f eq_refl) Hfee) as (? & ? & ? & ? & ?).
    split_and!; [done|done|]. by exists f.
  - apply wp_bind. eapply wp_mono; [|apply simulated_resource_fee].
    intros [sim|e] w1 Hsim; [|done]. specialize (Hsim sim eq_refl). apply wp_bind, wp_lift.
    match goal with |- match ?x with Ok _ => _ | Err _ => _ end => set (fee_r := x) end.
    assert (Hr : forall r, fee_r = Ok r -> r <= i64_max /\
      if xdr_needs_simulation envelope then exists sim0, stellar_simulate (w_tick w) envelope = Ok sim0 /\
        sim_error sim0 = None /\ r = sim_min_resource_fee sim0 else r = 0).
    { subst fee_r. intros r. destruct sim as [sim|]; [|by rewrite Hsim; intros [= <-]].
      destruct Hsim as (-> & Hq & He). unfold checked. case_match eqn:Hle; [|done].
      intros [= <-]. apply Z.leb_le in Hle. split; [done|]. by exists sim. }
    clearbody fee_r. destruct fee_r as [res|]; [|done]. destruct (Hr res eq_refl) as [Hmax Hsrc].
    apply wp_lift. intros fee Hfee.
    destruct (fee_bump_within _ _ _ _ Hi Hn Hmax Hfee) as (? & ? & ? & ? & ?).
    split_and!; [done|done|]. by exists res.
Qed.
End FeeBump.

(** ** The envelope of a prepared transaction *)

Definition envelope_sequence (e : TransactionEnvelope) : option Z :=
  match e with
  | TxV0 tx _ => Some (Xdr.v0_seq_num tx)
  | Tx tx _ => Some (Xdr.tx_seq_num tx)
  | TxFeeBump _ _ => None
  end.

Definition envelope_signatures (e : TransactionEnvelope) : list DecoratedSignature :=
  match e with TxV0 _ l | Tx _ l | TxFeeBump _ l => l end.

Lemma result_bind_ok {E A B} (r : result E A) (k : A -> result E B) b :
  result_bind r k = Ok b -> exists a, r = Ok a /\ k a = Ok b.
Proof. destruct r as [a|]; [|done]. simpl. eauto. Qed.

(** The transaction and signatures of a user's envelope, in the current format. *)
Definition as_v1 (e : TransactionEnvelope) : option (Xdr.Transaction * list DecoratedSignature) :=
  match e with
  | TxV0 tx l => Some (convert_v0_to_v1_transaction tx, l)
  | Tx tx l => Some (tx, l)
  | TxFeeBump _ _ => None
  end.

Lemma ensure_minimum_fee_sequence e e' :
  ensure_minimum_fee e = Ok e' -> envelope_sequence e' = envelope_sequence e.
Proof.
  unfold ensure_minimum_fee. destruct e; simpl; try done; case_match; by intros [= <-].
Qed.

Lemma update_xdr_sequence_spec e n e' :
  update_xdr_sequence e n = Ok e' -> envelope_sequence e' = Some n.
Proof. by destruct e; intros [= <-]. Qed.

Lemma update_envelope_sequence_spec e n e' :
  update_envelope_sequence e n = Ok e' -> envelope_sequence e' = Some n.
Proof. by destruct e; intros [= <-]. Qed.

Lemma apply_simulation_sequence e sim data e' :
  apply_simulation e sim data = Ok e' -> envelope_sequence e' = envelope_sequence e.
Proof.
  unfold apply_simulation. destruct e as [|tx sigs|]; [done| |done]. intros [= <-].
  destruct tx; simpl. by repeat case_match.
Qed.

Section Prepared.
Context `{Chrono} `{ServerConfig} `{Env} `{!StellarSdk} `{!StellarSdkLaws} `{StellarEnv}.
Context {S C : Type} `{!TransactionRepository S} `{!StellarRepository S} `{!TransactionCounter C}.

(** Data that is to be signed over the sequence number [n]. *)
Definition to_sign (n : Z) (d : StellarTransactionData) : Prop :=
  st_signed_envelope_xdr d = None /\ st_signatures d = [] /\ st_sequence_number d = Some n /\
  match st_transaction_input d with
  | Operations _ => True
  | UnsignedXdr xdr => exists e, envelope_from_xdr xdr = Ok e /\ envelope_sequence e = Some n
  | _ => False
  end.

(** Data that is submitted as an envelope with the sequence number [n] and one signature. *)
Definition signed_over (n : Z) (d : StellarTransactionData) : Prop :=
  st_sequence_number d = Some n /\
  exists xdr e sig, st_signed_envelope_xdr d = Some xdr /\ envelope_from_xdr xdr = Ok e /\
    envelope_sequence e = Some n /\ envelope_signatures e = [sig].

Lemma keeps_signed (P : W S C -> Prop) d Q : stable P ->
  (forall sig e xdr, build_signed_envelope (attach_signature sig d) = Ok e ->
     envelope_from_xdr xdr = Ok e ->
     Q (set_signed_envelope_xdr xdr (attach_signature sig d))) ->
  keeps P (sign_stellar_transaction (S := S) (C := C) d) Q.
Proof.
  intros HP HQ. unfold sign_stellar_transaction. skip_core as [sig|]; [|apply keeps_fail].
  eapply keeps_bind; [apply keeps_lift; intros e He%lift_map_err_ok; exact He|]. intros e He.
  eapply keeps_bind; [apply keeps_lift; intros x Hx%lift_map_err_ok; exact Hx|]. intros xdr Hx.
  apply keeps_ret, (HQ sig e); [done|]. by apply envelope_roundtrip.
Qed.

Lemma signed_first n d sig e :
  to_sign n d -> build_signed_envelope (attach_signature sig d) = Ok e ->
  envelope_sequence e = Some n /\ envelope_signatures e = [sig].
Proof.
  destruct d as [a b q m v np sigs h sd input sx res]. unfold to_sign, build_signed_envelope.
  simpl. intros (-> & -> & -> & Hin). simpl. destruct input as [ops|xdr|xdr max|xdr auth]; try done.
  - intros (tx & Htx & Hb)%result_bind_ok. simplify_eq/=. unfold transaction_try_from in Htx.
    simpl in Htx. apply result_bind_ok in Htx as (? & _ & Htx). case_match; [done|].
    apply result_bind_ok in Htx as (? & _ & Htx). apply result_bind_ok in Htx as (? & _ & Htx).
    by simplify_eq/=.
  - destruct Hin as (e0 & He0 & Hseq). unfold parse_xdr_envelope. rewrite He0. simpl.
    unfold data_attach_signatures.
    destruct (envelope_to_xdr e0) as [x|] eqn:Hx; simpl; [|done].
    rewrite (envelope_roundtrip _ _ Hx). simpl. destruct e0; simpl; intros [= <-]; done.
Qed.

Lemma keeps_sign_first (P : W S C -> Prop) n d : stable P -> to_sign n d ->
  keeps P (sign_stellar_transaction (S := S) (C := C) d) (signed_over n).
Proof.
  intros HP Hd. apply keeps_signed; [done|]. intros sig e xdr He Hx.
  destruct (signed_first n d sig e Hd He) as [Hn Hs]. destruct Hd as (_ & _ & Hq & _).
  split; [by destruct d|]. exists xdr, e, sig. split_and!; [by destruct d|done..].
Qed.

(** A second signature is recorded, and the envelope stays what it was. *)
Lemma keeps_sign_again (P : W S C -> Prop) n d : stable P -> signed_over n d ->
  keeps P (sign_stellar_transaction (S := S) (C := C) d) (signed_over n).
Proof.
  intros HP (Hq & xdr & e & sig & Hx & He & Hn & Hs). apply keeps_signed; [done|].
  intros sig' e' xdr' He' Hx'. assert (e' = e) as ->.
  { unfold build_signed_envelope in He'. destruct d; simpl in *. rewrite Hx in He'.
    apply lift_map_err_ok in He'. congruence. }
  split; [by destruct d|]. exists xdr', e, sig. split_and!; [by destruct d|done..].
Qed.

(** Fresh data, not prepared yet or reset. *)
Definition unprepared (d : StellarTransactionData) : Prop :=
  st_signed_envelope_xdr d = None /\ st_signatures d = [].

Lemma keeps_price_unsigned (P : W S C -> Prop) n e d : stable P ->
  unprepared d -> st_sequence_number d = Some n -> envelope_sequence e = Some n ->
  keeps P (price_unsigned_xdr (S := S) (C := C) e d) (to_sign n).
Proof.
  intros HP [Hx Hs] Hq He. unfold price_unsigned_xdr.
  eapply keeps_bind; [apply keeps_lift; intros e1 Hz1%ensure_minimum_fee_sequence; exact Hz1|].
  intros e1 He1. rewrite He in He1. clear e He.
  eapply keeps_bind; [apply keeps_lift; intros x Hz1%lift_map_err_ok%envelope_roundtrip; exact Hz1|].
  intros xdr1 Hxdr1. skip_core as [sim|].
  - skip_core as data.
    eapply keeps_bind; [apply keeps_lift; intros e2 Hz2%apply_simulation_sequence; exact Hz2|].
    intros e2 He2. rewrite He1 in He2.
    eapply keeps_bind; [apply keeps_lift; intros x Hz2%lift_map_err_ok%envelope_roundtrip; exact Hz2|].
    intros xdr2 Hxdr2. apply keeps_lift. intros d' Hd%lift_map_err_ok.
    unfold with_simulation_data in Hd. apply result_bind_ok in Hd as (fee & _ & Hd). simplify_eq/=.
    unfold to_sign. destruct d; simpl in *. split_and!; [done..|]. by exists e2.
  - apply keeps_ret. unfold to_sign. destruct d; simpl in *. split_and!; [done..|]. by exists e1.
Qed.

Context (relayer : RelayerRepoModel).

Section Fixed.
Context (v : gmap string TransactionRepoModel) (n : Z).

Definition seen (w : W S C) : Prop := view w = v.

(** The counter of the relayer stands at [n]. *)
Definition drawn (w : W S C) : Prop :=
  view w = v /\ default 0 (ctr_view (w_ctr w) !! (rel_id relayer, rel_address relayer)) = n.

Lemma seen_stable : stable seen.
Proof. intros w w' (Hv & _) Hs. unfold seen. by rewrite Hv. Qed.

Lemma drawn_stable : stable drawn.
Proof. intros w w' (Hv & _ & Hc & _) [Hs Hn]. unfold drawn. by rewrite Hv, Hc. Qed.

Definition draws {A} (Q : A -> Prop) (c : T S C A) : Prop :=
  forall w, drawn w -> wp c (fun x w' => seen w' /\ forall a, x = Ok a -> Q a) w.

Lemma draws_bind {A B} (Q : B -> Prop) (c : T S C A) k :
  preserves same_core c -> (forall a, draws Q (k a)) -> draws Q (bindM c k).
Proof.
  intros Hc Hk w Hw. eapply wp_bind_keeps; [apply keeps_stable; [apply drawn_stable|exact Hc]|done| |].
  - intros e w' [Hv _]. done.
  - intros a w' _ Hw'. by apply Hk.
Qed.

Lemma draws_fail {A} (Q : A -> Prop) e : draws Q (failM e).
Proof. by intros w [Hv _]. Qed.

Lemma draws_next {A} (Q : A -> Prop) (k : Z -> T S C A) :
  keeps seen (k n) Q -> draws Q (bindM (get_next_sequence (rel_id relayer) (rel_address relayer)) k).
Proof.
  intros Hk w [Hv Hn]. unfold get_next_sequence. apply wp_bind, wp_bind, wp_map_err.
  unfold wp at 1, counter_call.
  pose proof (ctr_get_and_increment_spec (rel_id relayer) (rel_address relayer) (w_ctr w)) as Hc.
  unfold wp in Hc. destruct (ctr_get_and_increment _ _ _) as [x c]. simpl in Hc. rewrite Hn in Hc.
  assert (Hs : seen (set_ctr c w)) by by destruct w.
  destruct x as [m|e]; [|done]. assert (m = n) as -> by (destruct Hc as [[_ Hm]|[_ [e ?]]]; [by apply Hm|done]).
  cbn [fst snd result_map_err]. apply wp_lift. unfold i64_from_u64, checked. destruct (n <=? i64_max); simpl; [|done].
  eapply wp_keeps; [exact Hk|exact Hs|done|]. intros a w' Ha Hw'. split; [done|]. by intros ? [= <-].
Qed.

Lemma draws_operations d p :
  unprepared d -> (exists ops, st_transaction_input d = Operations ops) ->
  draws (signed_over n) (process_operations (rel_id relayer) (rel_address relayer) d p).
Proof.
  intros [Hx Hs] [ops Hops]. unfold process_operations. case_match; [apply draws_fail|].
  apply draws_next. pose proof seen_stable as HP. skip_core as e. skip_core as sim.
  apply keeps_bind with (P := to_sign n); [|intros; by apply keeps_sign_first].
  assert (Ht : forall d', st_signed_envelope_xdr d' = None -> st_signatures d' = [] ->
    st_sequence_number d' = Some n -> st_transaction_input d' = Operations ops -> to_sign n d').
  { intros d' ? ? ? Hi. unfold to_sign. by rewrite Hi. }
  destruct sim as [sim|].
  - apply keeps_lift. intros d' Hd%lift_map_err_ok. unfold with_simulation_data in Hd.
    apply result_bind_ok in Hd as (fee & _ & Hd). simplify_eq/=. destruct d; simpl in *. by apply Ht.
  - apply keeps_ret. destruct d; simpl in *. by apply Ht.
Qed.

Lemma draws_unsigned d p : unprepared d ->
  draws (signed_over n) (process_unsigned_xdr (rel_id relayer) (rel_address relayer) d p).
Proof.
  intros Hu. unfold process_unsigned_xdr. apply draws_bind; [preserve|]. intros xdr.
  apply draws_bind; [preserve|]. intros e. apply draws_bind; [preserve|]. intros _.
  case_match; [apply draws_fail|]. apply draws_next. pose proof seen_stable as HP.
  apply keeps_bind with (P := fun x => envelope_sequence x.1 = Some n).
  - apply keeps_lift. intros [e1 x1] (e2 & Hz2 & Hz3)%result_bind_ok.
    apply result_bind_ok in Hz3 as (x2 & _ & Hz3). simplify_eq/=.
    by apply lift_map_err_ok, update_xdr_sequence_spec in Hz2.
  - intros [e1 x1] He1. apply keeps_bind with (P := to_sign n); [|intros; by apply keeps_sign_first].
    apply keeps_price_unsigned; [done| |by destruct d|done].
    destruct Hu. unfold unprepared. by destruct d.
Qed.

Lemma draws_gas_abstraction d p : unprepared d ->
  draws (to_sign n) (process_soroban_gas_abstraction (rel_id relayer) (rel_address relayer) d p).
Proof.
  intros [Hx Hs]. unfold process_soroban_gas_abstraction. case_match; try apply draws_fail.
  apply draws_bind; [preserve|]. intros e1. apply draws_bind; [preserve|]. intros auth.
  apply draws_bind; [preserve|]. intros [e2 entries]. apply draws_bind; [preserve|]. intros e3.
  apply draws_bind; [preserve|]. intros _. apply draws_next. pose proof seen_stable as HP.
  eapply keeps_bind; [apply keeps_lift; intros e4 Hz4%lift_map_err_ok%update_envelope_sequence_spec; exact Hz4|].
  intros e4 He4.
  eapply keeps_bind; [apply keeps_lift; intros x Hz4%lift_map_err_ok%envelope_roundtrip; exact Hz4|].
  intros out Hout. apply keeps_ret. unfold to_sign. destruct d; simpl in *. split_and!; [done..|]. by exists e4.
Qed.

(** *** Fee bumps *)

Lemma validated_is_max max_fee required fee :
  validated_max_fee_as_u32 max_fee required = Ok fee -> fee = max_fee.
Proof. unfold validated_max_fee_as_u32. case_match; [done|]. case_match; [|done]. by intros [= <-]. Qed.

Lemma keeps_required_fee (P : W S C -> Prop) e max_fee : stable P ->
  keeps P (calculate_fee_bump_required_fee (S := S) (C := C) e max_fee) (fun fee => fee = max_fee).
Proof.
  intros HP. unfold calculate_fee_bump_required_fee. cbv zeta. case_match.
  - apply keeps_lift. intros fee (req & _ & Hf)%result_bind_ok. by eapply validated_is_max.
  - skip_core as sim. skip_core as res.
    apply keeps_lift. intros fee (req & _ & Hf)%result_bind_ok. by eapply validated_is_max.
Qed.

(** Data that is submitted as a fee bump of the user's envelope [xdr]. *)
Definition bumps (xdr : string) (max_fee : Z) (d : StellarTransactionData) : Prop :=
  exists out inner fb sig, st_signed_envelope_xdr d = Some out /\
    envelope_from_xdr out = Ok (TxFeeBump fb [sig]) /\ parse_transaction_xdr xdr true = Ok inner /\
    as_v1 inner = Some (Xdr.fb_inner fb, Xdr.fb_inner_signatures fb) /\
    string_to_muxed_account (rel_address relayer) = Ok (Xdr.fb_fee_source fb) /\
    Xdr.fb_fee fb = max_fee /\ st_fee d = Some max_fee.

Lemma fee_bump_envelope_spec inner source fee e :
  build_fee_bump_envelope inner source fee = Ok e ->
  exists fb, e = TxFeeBump fb [] /\ as_v1 inner = Some (Xdr.fb_inner fb, Xdr.fb_inner_signatures fb) /\
    string_to_muxed_account source = Ok (Xdr.fb_fee_source fb) /\ Xdr.fb_fee fb = fee.
Proof.
  unfold build_fee_bump_envelope. case_match; [done|]. case_match; [done|].
  intros (src & Hsrc & Hk)%result_bind_ok. apply result_bind_ok in Hk as ([tx sigs] & Hin & Hk).
  simplify_eq/=. eexists. split; [done|]. simpl. rewrite Hsrc.
  destruct inner; simplify_eq/=; done.
Qed.

Lemma keeps_bumps d p xdr max_fee :
  st_transaction_input d = SignedXdr xdr max_fee ->
  keeps seen (process_fee_bump (rel_address relayer) d p) (bumps xdr max_fee).
Proof.
  intros Hin. pose proof seen_stable as HP. unfold process_fee_bump.
  eapply keeps_bind; [apply keeps_lift; intros a Ha; exact Ha|]. intros [inner mf] Hinner.
  unfold extract_inner_transaction in Hinner. rewrite Hin in Hinner.
  destruct (max_fee <=? 0); [done|]. apply result_bind_ok in Hinner as (i & Hi%lift_map_err_ok & Hinner).
  simplify_eq/=. skip_core as ?.
  eapply keeps_bind; [by apply keeps_required_fee|]. intros fee ->.
  eapply keeps_bind; [apply keeps_lift; intros e He%lift_map_err_ok%fee_bump_envelope_spec; exact He|].
  intros e (fb & -> & Hv1 & Hsrc & Hfee).
  eapply keeps_bind with (P := fun d' => exists out sig, st_signed_envelope_xdr d' = Some out /\
    envelope_from_xdr out = Ok (TxFeeBump fb [sig])).
  - unfold sign_fee_bump_transaction. skip_core as ?. skip_core as [sig|]; [|apply keeps_fail].
    eapply keeps_bind; [apply keeps_lift; intros e He%lift_map_err_ok; exact He|]. intros e [= <-].
    eapply keeps_bind; [apply keeps_lift; intros x Hx%lift_map_err_ok%envelope_roundtrip; exact Hx|].
    intros out Hout. apply keeps_ret. exists out, sig. by destruct d.
  - intros d' (out & sig & Hout & Hdec). apply keeps_ret. exists out, inner, fb, sig.
    destruct d'; simpl in *. by split_and!.
Qed.

Lemma wp_prepared_update t d w (Q : result TransactionError.t TransactionRepoModel -> W S C -> Prop) :
  seen w -> v !! tx_id t = Some t -> is_final_state (tx_status t) = false ->
  (forall e w', Q (Err e) w') ->
  (forall t' w', tx_network_data t' = StellarData d -> Q (Ok t') w') ->
  wp (update_and_notify_transaction relayer (tx_id t) d) Q w.
Proof.
  intros Hs Ht Hf He Hok. unfold update_and_notify_transaction. cbv zeta. set (u := upd_with_stellar_data _ _).
  apply wp_bind. unfold partial_update, partial_update_r. apply wp_map_err, wp_bind.
  unfold wp at 1, now, ask. cbn [fst snd]. unfold wp, repo_call.
  pose proof (repo_partial_update_spec (env_now (w_tick w)) (tx_id t) u (w_repo (tick w))) as Hu.
  unfold wp in Hu. destruct (repo_partial_update _ _ _ _) as [[t1|e] s']; simpl in *; [|done].
  destruct Hu as [(t2 & t3 & Ht2 & Hr & _ & Ht3)|(_ & e & ?)]; [|done].
  assert (t2 = t) as ->.
  { unfold seen, view in Hs. replace (w_repo (tick w)) with (w_repo w) in Ht2 by by destruct w.
    rewrite Hs in Ht2. congruence. }
  rewrite (Ht3 _ eq_refl). destruct Hr as [->|(? & _)]; [|congruence].
  assert (Hnd : tx_network_data (apply_partial_update (env_now (w_tick w)) u t) = StellarData d) by done.
  unfold bindM. destruct (send_submit_transaction_job _ _ _) as [[[]|e] w1]; [|by apply He].
  destruct (notify _ _ _) as [[[]|e] w2]; [|by apply He]. by apply Hok.
Qed.
End Fixed.

(** What a prepared transaction is submitted as. *)
Definition prepared_as (input : TransactionInput) (n : Z) (d : StellarTransactionData) : Prop :=
  exists e sig, get_envelope_for_submission d = Ok e /\ envelope_signatures e = [sig] /\
  match input with
  | SignedXdr xdr max_fee => exists fb inner,
      e = TxFeeBump fb [sig] /\ parse_transaction_xdr xdr true = Ok inner /\
      as_v1 inner = Some (Xdr.fb_inner fb, Xdr.fb_inner_signatures fb) /\
      string_to_muxed_account (rel_address relayer) = Ok (Xdr.fb_fee_source fb) /\
      Xdr.fb_fee fb = max_fee /\ st_fee d = Some max_fee
  | _ => st_sequence_number d = Some n /\ envelope_sequence e = Some n
  end.

Lemma signed_over_prepared input n d :
  (forall xdr max_fee, input <> SignedXdr xdr max_fee) -> signed_over n d -> prepared_as input n d.
Proof.
  intros Hi (Hq & xdr & e & sig & Hx & He & Hn & Hs). exists e, sig.
  unfold get_envelope_for_submission, build_signed_envelope, parse_xdr_envelope. rewrite Hx, He.
  split_and!; [done..|]. destruct input as [|?|x m|?]; try done. by destruct (Hi x m).
Qed.

Lemma bumps_prepared xdr max_fee n d : bumps xdr max_fee d -> prepared_as (SignedXdr xdr max_fee) n d.
Proof.
  intros (out & inner & fb & sig & Hx & He & Hp & Hv & Hsrc & Hf & Hfee). exists (TxFeeBump fb [sig]), sig.
  unfold get_envelope_for_submission, build_signed_envelope, parse_xdr_envelope. rewrite Hx, He.
  split_and!; [done..|]. exists fb, inner. by split_and!.
Qed.

(** A prepared transaction is stored with data that is submitted as [prepared_as] says. *)
Definition stored_prepared (input : TransactionInput) (n : Z)
    (x : result TransactionError.t TransactionRepoModel) (w : W S C) : Prop :=
  forall t', x = Ok t' -> exists d', tx_network_data t' = StellarData d' /\ prepared_as input n d'.

Lemma wp_finalize_prepared v n t w c (Q : StellarTransactionData -> Prop) input :
  drawn v n w -> v !! tx_id t = Some t -> is_final_state (tx_status t) = false ->
  draws v n Q c -> (forall d, Q d -> keeps (seen v) (sign_stellar_transaction d) (signed_over n)) ->
  (forall xdr max_fee, input <> SignedXdr xdr max_fee) ->
  wp (bindM c (finalize_with_signature relayer t)) (stored_prepared input n) w.
Proof.
  intros Hw Ht Hf Hc Hsign Hin. apply wp_bind. eapply wp_mono; [|apply (Hc w Hw)].
  intros [d|e] w1 [Hs Hd]; [|by intros ?]. unfold finalize_with_signature, sign_and_finalize_transaction.
  eapply wp_bind_keeps with (P := fun td => td.1 = t /\ signed_over n td.2); [|exact Hs|..].
  - eapply keeps_bind; [apply Hsign, Hd; done|]. intros d' Hd'. by apply keeps_ret.
  - by intros e w' _ ?.
  - intros [t1 d'] w2 [Ht1 Hd'] Hs2. simpl in Ht1, Hd'. subst t1.
    eapply wp_prepared_update; [exact Hs2|done|done|by intros ?? ?|].
    intros t' w' Ht' ? [= <-]. exists d'. split; [done|]. by apply signed_over_prepared.
Qed.

Lemma wp_core_prepared v n t d w :
  drawn v n w -> v !! tx_id t = Some t -> is_final_state (tx_status t) = false ->
  tx_network_data t = StellarData d -> unprepared d ->
  wp (prepare_core relayer t) (stored_prepared (st_transaction_input d) n) w.
Proof.
  intros Hw Ht Hf Hnd Hu. unfold prepare_core. rewrite Hnd. apply wp_bind, wp_lift. simpl. cbv zeta.
  pose proof (seen_stable v) as HP.
  destruct (st_transaction_input d) as [ops|xdr|xdr max_fee|xdr auth] eqn:Hin.
  - eapply (wp_finalize_prepared v n _ _ _ (signed_over n)); [done..| | |done].
    + apply draws_operations; [done|by eexists].
    + intros. by apply keeps_sign_again.
  - eapply (wp_finalize_prepared v n _ _ _ (signed_over n)); [done..| | |done].
    + by apply draws_unsigned.
    + intros. by apply keeps_sign_again.
  - eapply wp_bind_keeps; [by apply (keeps_bumps v)|apply Hw|by intros ?? _ ?|].
    intros d' w1 Hd' Hs. eapply wp_prepared_update; [exact Hs|done|done|by intros ?? ?|].
    intros t' w' Ht' ? [= <-]. exists d'. split; [done|]. by apply bumps_prepared.
  - eapply (wp_finalize_prepared v n _ _ _ (to_sign n)); [done..| | |done].
    + by apply draws_gas_abstraction.
    + intros. by apply keeps_sign_first.
Qed.

Lemma prepare_failure_fails t e w :
  exists e', fst (handle_prepare_failure (S := S) (C := C) relayer t e w) = Err e'.
Proof.
  unfold handle_prepare_failure, bindM. repeat (case_match; simplify_eq/=; eauto).
Qed.

(** C18. What a prepared transaction is submitted as.  When preparation moves a Stellar
    transaction to Sent, the stored data is submitted as an envelope with exactly one signature.
    For operations, an unsigned envelope or gas abstraction it carries the sequence number the
    relayer's counter stood at, the one stored with the transaction; for a signed envelope it is
    a fee bump of the user's transaction with its signatures, paid by the relayer, at the
    user's maximum fee. *)
Theorem prepared_envelope t d (w : W S C) :
  view w !! tx_id t = Some t -> tx_status t = Pending -> tx_network_data t = StellarData d ->
  unprepared d ->
  let n := default 0 (ctr_view (w_ctr w) !! (rel_id relayer, rel_address relayer)) in
  forall t', fst (prepare_transaction_impl relayer t w) = Ok t' -> tx_status t' = Sent ->
  exists d', tx_network_data t' = StellarData d' /\ prepared_as (st_transaction_input d) n d'.
Proof.
  intros Ht Hst Hnd Hu n t' Hr Hsent.
  assert (Hcore : forall w1, drawn (view w) n w1 ->
    fst ((let* r := try_ (prepare_core relayer t) in
          match r with
          | Ok prepared_tx => retM prepared_tx
          | Err error => handle_prepare_failure relayer t error
          end) w1) = Ok t' ->
    exists d', tx_network_data t' = StellarData d' /\ prepared_as (st_transaction_input d) n d').
  { intros w1 Hw1. assert (Hf : is_final_state (tx_status t) = false) by by rewrite Hst.
    pose proof (wp_core_prepared (view w) n t d w1 Hw1 Ht Hf Hnd Hu) as Hp. unfold wp in Hp.
    unfold bindM, try_. destruct (prepare_core relayer t w1) as [[t1|e] w2]; simpl.
    - intros [= <-]. by apply Hp.
    - destruct (prepare_failure_fails t e w2) as [e' ->]. done. }
  revert Hr. unfold prepare_transaction_impl. rewrite Hst. simpl.
  unfold bindM at 1. destruct (concurrent_transactions_enabled relayer); simpl; [by apply Hcore|].
  unfold claim_lane. destruct (LaneGate.claim _ _ _) as [[] m]; simpl.
  - apply Hcore. by destruct w.
  - intros [= <-]. congruence.
Qed.
End Prepared.

(** ** Instances *)

Section Witnesses.
#[local] Existing Instances sample_chrono sample_config sample_order sample_sdk sample_sdk_laws.
#[local] Instance env : Env :=
  sample_env (5 * 10 ^ 9) (fun _ => Ok None) 0 0 (Err ProviderError.Timeout).
#[local] Instance stellar_env : StellarEnv := sample_stellar_env 6 send_pending found_success.

Definition one_pending : World InMemory.state (gmap CounterKey Z) :=
  sample_world [stellar_tx "tx1" (sample_stellar_data one_operation)]
    {[("stellar"%string, sample_account) := 7]}.

(** An inner transaction that bids 250 for one operation needs 500. *)
Lemma fee_bump_fee_sufficient_witness :
  fst (calculate_fee_bump_required_fee (sample_envelope 250 5 1) 499 one_pending) =
    Err (TransactionError.ValidationError
      "max_fee (499) is insufficient. Required fee-bump fee: 500") /\
  fst (calculate_fee_bump_required_fee (sample_envelope 250 5 1) 500 one_pending) = Ok 500 /\
  exists resource, 0 <= resource /\ (250 - resource) * 2 <= (500 - resource) * 1.
Proof.
  split_and!; [by vm_compute..|].
  destruct (fee_bump_fee_sufficient (sample_envelope 250 5 1) 500 one_pending) as [_ Hfee];
    [by vm_compute|vm_compute; lia|done|].
  destruct (Hfee 500) as (_ & _ & resource & Hr & _ & _ & Hle); [by vm_compute|].
  exists resource. split; [exact Hr|exact Hle].
Defined.

Lemma prepared_envelope_witness :
  exists d e sig, get_envelope_for_submission d = Ok e /\ envelope_signatures e = [sig] /\
    envelope_sequence e = Some 7.
Proof.
  set (t := stellar_tx "tx1" (sample_stellar_data one_operation)).
  pose proof (prepared_envelope (stellar_relayer "stellar") t (sample_stellar_data one_operation) one_pending)
    as Hp.
  assert (Hsent : exists t', fst (prepare_transaction_impl (stellar_relayer "stellar") t one_pending) = Ok t' /\
    tx_status t' = Sent).
  { eexists. split; [vm_compute; reflexivity|reflexivity]. }
  destruct Hsent as (t' & Hr & Hst).
  assert (Hv : view one_pending !! tx_id t = Some t) by (vm_compute; reflexivity).
  specialize (Hp Hv eq_refl eq_refl (conj eq_refl eq_refl)). cbv zeta in Hp.
  specialize (Hp t' Hr Hst).
  destruct Hp as (d & _ & e & sig & He & Hs & _ & Hn).
  exists d, e, sig. split_and!; [exact He|exact Hs|].
  rewrite Hn. vm_compute. reflexivity.
Defined.
End Witnesses.
