(* ===== verification/StellarSystem.v ===== *)
(** * Runs of the Stellar handlers

    Any sequence of intakes, handler runs and clean-ups, in any order: lanes are exclusive,
    sequence numbers are not shared, finished transactions stay finished and retries are
    bounded.  Handler runs are atomic here, the process does not restart, the counter is below
    its maximum when a handler starts, and the store neither fails nor loses a read or a write
    ([ReliableRepository], which the in-memory store satisfies).  What a failing read does to a
    lane is shown in [StellarDeviations]. *)

From S2P Require Import Prelude Decimal Errors Json Model Config StellarXdr Repository Counter.
From S2P Require Import Jobs Effects Sample EvmUtils EvmTransaction EvmStatus Lifecycle.
From S2P Require Import EvmRelayer JobHandlers Stellar StellarSample StellarProperties.
Open Scope Z_scope.

Section System.
Context `{Chrono} `{ServerConfig} `{Env} `{StellarSdk} `{StellarEnv}.
Context {S C : Type} `{!TransactionRepository S} `{!StellarRepository S} `{!TransactionCounter C}.
Context `{!ReliableRepository S}.
Context (relayer_of : string -> RelayerRepoModel) (rel_ids : forall r, rel_id (relayer_of r) = r).

(** A transaction as the intake makes it. *)
Definition accepted (t : TransactionRepoModel) : Prop :=
  rel_network_type (relayer_of (tx_relayer_id t)) = NtStellar /\ tx_status t = Pending /\
  stellar_sequence t = None /\ tx_metadata t = None.

(** A submit handler runs for a queued submit job; jobs may be delivered late, more than once
    and in any order.  Prepare and status handlers run at any time. *)
Inductive step (w : W S C) : W S C -> Prop :=
| step_intake t :
    accepted t -> view w !! tx_id t = None -> tx_id t ∉ submits w ->
    step w (snd (repo_call (repo_create t) w))
| step_handle h j t :
    view w !! j = Some t -> (h = HSubmit -> j ∈ submits w) ->
    counter_at relayer_of (ctr_view (w_ctr w)) (tx_relayer_id t) < u64_max ->
    step w (snd (stellar_network (relayer_of (tx_relayer_id t)) h t w))
| step_cleanup j t w' :
    view w !! j = Some t -> is_final_state (tx_status t) = true ->
    view w' = delete j (view w) -> w_lanes w' = w_lanes w -> w_ctr w' = w_ctr w ->
    submits w' = submits w -> step w w'
| step_outside w' : same_core w w' -> step w w'.

(** The invariant of every run. *)
Record good (w : W S C) : Prop := {
  good_sinv : sinvw relayer_of None w;
  good_stellar : forall j t, view w !! j = Some t ->
    rel_network_type (relayer_of (tx_relayer_id t)) = NtStellar /\ tx_status t <> Mined;
}.

(** An empty store, with counters at any value. *)
Definition initial (w : W S C) : Prop :=
  view w = ∅ /\ w_lanes w = ∅ /\ submits w = [] /\
  forall r, 0 <= counter_at relayer_of (ctr_view (w_ctr w)) r.

Lemma initial_good w : initial w -> good w.
Proof.
  intros (Hv & Hl & Hs & Hc). split; [|by rewrite Hv].
  unfold sinvw. rewrite Hv, Hl, Hs. by split.
Qed.

(** One handler run, on the transaction it is for and on the others. *)
Lemma handle_effect h j t w :
  good w -> view w !! j = Some t -> (h = HSubmit -> j ∈ submits w) ->
  counter_at relayer_of (ctr_view (w_ctr w)) (tx_relayer_id t) < u64_max ->
  exists t', let w' := snd (stellar_network (relayer_of (tx_relayer_id t)) h t w) in
    sinvw relayer_of None w' /\ view w' = <[j := t']> (view w) /\ same_identity t t' /\
    tx_status t' ∈ targets h (tx_status t).
Proof.
  intros [Hs Hst] Hj Hsub Hroom. destruct (Hst j t Hj) as [Hn Hm].
  destruct (wp_handler relayer_of rel_ids j (tx_relayer_id t) (view w) Hn h t w) as (t' & Hr & Hq & Ht & _).
  - split; [|done]. unfold run. split_and!; [done|by rewrite insert_id| |done|done].
    by apply (si_ids _ _ _ _ _ _ Hs).
  - done.
  - done.
  - exists t'. destruct Hr as (? & ? & _). by split_and!.
Qed.

(** [targets] never leads to [Mined]. *)
Lemma targets_not_mined h s s' : s <> Mined -> s' ∈ targets h s -> s' <> Mined.
Proof.
  unfold targets, checked_targets. intros Hs Hin ->. destruct s, h; simpl in Hin; set_solver.
Qed.

(** A step, on one stored transaction. *)
Lemma step_effect w w' j t :
  good w -> step w w' -> view w !! j = Some t ->
  view w' !! j = Some t \/
  (is_final_state (tx_status t) = true /\ view w' !! j = None) \/
  exists h t', view w' !! j = Some t' /\ same_identity t t' /\ tx_status t' ∈ targets h (tx_status t) /\
    (h = HSubmit -> j ∈ submits w).
Proof.
  intros Hg Hstep Hj. destruct Hstep as [u Ha Hn Hns|h k u Hk Hsub Hroom|k u w' Hk Hf Hv _ _ _|w' Hc].
  - left. pose proof (repo_create_spec u (w_repo w)) as Hc. unfold wp, repo_call in *.
    destruct (repo_create u (w_repo w)) as [x s']. simpl in *. rewrite view_set_repo.
    destruct Hc as [(_ & -> & _)|[-> _]]; [|done]. unfold view in *. rewrite lookup_insert_ne; [done|].
    intros Heq. rewrite Heq in Hn. congruence.
  - destruct (handle_effect h k u w) as (u' & _ & -> & Hq & Ht); [done..|].
    destruct (decide (k = j)) as [->|Hne]; [|left; by rewrite lookup_insert_ne].
    right; right. rewrite Hj in Hk. injection Hk as <-. exists h, u'. by rewrite lookup_insert_eq.
  - destruct (decide (k = j)) as [->|Hne]; [|left; by rewrite Hv, lookup_delete_ne].
    right; left. rewrite Hv, lookup_delete_eq. split; [congruence|done].
  - left. by rewrite (proj1 Hc).
Qed.

Lemma create_good w t :
  accepted t -> view w !! tx_id t = None -> tx_id t ∉ submits w ->
  good w -> good (snd (repo_call (repo_create t) w)).
Proof.
  intros (Hty & Hp & Hq & Hm) Hn Hns [Hs Hst].
  pose proof (repo_create_spec t (w_repo w)) as Hc. unfold wp, repo_call in *.
  destruct (repo_create t (w_repo w)) as [x s']. simpl in *.
  destruct Hc as [(_ & Hv & _)|[Hv _]].
  - split; [|rewrite view_set_repo, Hv; intros j u [[<- <-]|[? ?]]%lookup_insert_Some;
      [split; congruence|by apply (Hst j)]].
    unfold sinvw. rewrite view_set_repo, Hv.
    replace (w_lanes _) with (w_lanes w) by by destruct w.
    replace (w_ctr _) with (w_ctr w) by by destruct w.
    replace (submits _) with (submits w) by by destruct w.
    unfold sinvw in Hs. fold (view w). revert Hs Hn.
    generalize (view w) (w_lanes w) (ctr_view (w_ctr w)) (submits w) Hns. clear -Hp Hq Hm.
    intros v l cv subs Hns Hs Hn. by apply sinv_create.
  - assert (Hc : same_core w (set_repo s' w))
      by (unfold same_core; rewrite view_set_repo, Hv; by destruct w).
    split; [by eapply sinvw_core|]. by rewrite (proj1 Hc).
Qed.

Lemma step_good w w' : good w -> step w w' -> good w'.
Proof.
  intros Hg Hstep. destruct Hstep as [u Ha Hn Hns|h k u Hk Hsub Hroom|k u w' Hk Hf Hv Hl Hc Hsb|w' Hc].
  - by apply create_good.
  - destruct (handle_effect h k u w) as (u' & Hs & Hv & Hq & Ht); [done..|]. split; [done|].
    rewrite Hv. destruct (good_stellar _ Hg k u Hk) as [Hty Hm].
    intros j t [[<- <-]|[? ?]]%lookup_insert_Some; [|by apply (good_stellar _ Hg j)].
    rewrite (sq_relayer _ _ Hq). split; [done|by eapply targets_not_mined].
  - destruct Hg as [Hs Hst]. split.
    + unfold sinvw. rewrite Hv, Hl, Hc, Hsb. by eapply sinv_delete.
    + rewrite Hv. intros j t [_ Hj]%lookup_delete_Some. by apply (Hst j).
  - destruct Hg as [Hs Hst]. split; [by eapply sinvw_core|]. by rewrite (proj1 Hc).
Qed.

Lemma steps_good w w' : rtc step w w' -> good w -> good w'.
Proof. induction 1; [done|]. intros Hg. eauto using step_good. Qed.

(** A finished transaction is left alone. *)
Lemma final_handler relayer h t w :
  is_final_state (tx_status t) = true ->
  stellar_network (S := S) (C := C) relayer h t w = (Ok t, w).
Proof.
  intros Hf. destruct h; simpl; try done;
    unfold prepare_transaction_impl, submit_transaction_impl, handle_transaction_status_impl;
    by rewrite Hf.
Qed.

Lemma step_final w w' j t :
  good w -> step w w' -> view w !! j = Some t -> is_final_state (tx_status t) = true ->
  view w' !! j = Some t \/ view w' !! j = None.
Proof.
  intros Hg Hstep Hj Hf.
  destruct Hstep as [u Ha Hn Hns|h k u Hk Hsub Hroom|k u w' Hk Hfk Hv _ _ _|w' Hc].
  - left. pose proof (repo_create_spec u (w_repo w)) as Hc. unfold wp, repo_call in *.
    destruct (repo_create u (w_repo w)) as [x s']. simpl in *. rewrite view_set_repo.
    destruct Hc as [(Hu & -> & _)|[-> _]]; [|done]. unfold view in *.
    rewrite lookup_insert_ne; [done|]. congruence.
  - destruct (decide (k = j)) as [->|Hne].
    + rewrite Hj in Hk. injection Hk as <-. rewrite final_handler by done. by left.
    + destruct (handle_effect h k u w) as (u' & _ & -> & _); [done..|]. left. by rewrite lookup_insert_ne.
  - rewrite Hv. destruct (decide (k = j)) as [->|Hne]; [right; apply lookup_delete_eq|].
    left. by rewrite lookup_delete_ne.
  - left. by rewrite (proj1 Hc).
Qed.

(** ** The properties *)

(** C5. Lanes are exclusive.  Take any run from an empty store in which the Stellar handlers take
    turns (each handler run is one step, the process does not restart, and no counter is at its
    maximum), on a store that never fails, such as the in-memory one.  At most one transaction
    of a relayer that does not allow concurrent transactions is in flight (Sent or Submitted),
    and it owns the relayer's lane; a lane is owned by a stored transaction of its relayer that
    is not finished, so no finished transaction keeps the others waiting.  (A store that fails a
    read can break the last part: see the blocked lane of a finished owner.) *)
Theorem lanes_exclusive w0 w :
  initial w0 -> rtc step w0 w ->
  (forall r j1 j2 t1 t2, sequential relayer_of r ->
     view w !! j1 = Some t1 -> tx_relayer_id t1 = r -> in_flight t1 = true ->
     view w !! j2 = Some t2 -> tx_relayer_id t2 = r -> in_flight t2 = true ->
     j1 = j2 /\ w_lanes w !! r = Some j1) /\
  (forall r j, w_lanes w !! r = Some j ->
     exists t, view w !! j = Some t /\ tx_relayer_id t = r /\ is_final_state (tx_status t) = false).
Proof.
  intros Hi Hsteps. destruct (steps_good _ _ Hsteps (initial_good _ Hi)) as [Hs _]. split.
  - assert (Hown : forall r j t, sequential relayer_of r -> view w !! j = Some t ->
      tx_relayer_id t = r -> in_flight t = true -> w_lanes w !! r = Some j).
    { intros r j t Hsq Hj <- Hf. destruct (si_lane _ _ _ _ _ _ Hs j t Hj Hsq) as [Hfin|?]; [by left| |done].
      unfold in_flight in Hf. by rewrite Hfin in Hf. }
    intros r j1 j2 t1 t2 Hsq Hj1 R1 F1 Hj2 R2 F2. pose proof (Hown _ _ _ Hsq Hj1 R1 F1).
    pose proof (Hown _ _ _ Hsq Hj2 R2 F2). split; congruence.
  - intros r j Hj. destruct (si_owner _ _ _ _ _ _ Hs _ _ Hj) as (_ & t & ? & ? & [?|?]); [by exists t|done].
Qed.

(** C6. Sequence numbers are not shared.  Take any run from an empty store in which the Stellar
    handlers take turns, on a store that never fails and with no counter at its maximum, with
    transactions prepared, reset after a bad sequence number and the counter synchronised with
    the chain and rewound in any order.  Two active transactions of a relayer never hold the same
    sequence number, and the relayer's counter stays above all of them, so the number it hands
    out next is new. *)
Theorem sequences_distinct w0 w :
  initial w0 -> rtc step w0 w ->
  (forall j1 j2 t1 t2 s, view w !! j1 = Some t1 -> view w !! j2 = Some t2 -> active t1 -> active t2 ->
     tx_relayer_id t1 = tx_relayer_id t2 -> stellar_sequence t1 = Some s ->
     stellar_sequence t2 = Some s -> j1 = j2) /\
  (forall j t s, view w !! j = Some t -> active t -> stellar_sequence t = Some s ->
     0 <= s <= i64_max /\ s < counter_at relayer_of (ctr_view (w_ctr w)) (tx_relayer_id t)).
Proof.
  intros Hi Hsteps. destruct (steps_good _ _ Hsteps (initial_good _ Hi)) as [Hs _].
  split; [apply (si_distinct _ _ _ _ _ _ Hs)|]. intros j t s Hj Ha Hq.
  destruct (si_seq _ _ _ _ _ _ Hs _ _ _ Hj Hq) as [? Hc]. specialize (Hc Ha). lia.
Qed.

End System.

(** ** Instances *)

Section Witnesses.
#[local] Existing Instances sample_chrono sample_config sample_order sample_sdk.
#[local] Instance env : Env :=
  sample_env (5 * 10 ^ 9) (fun _ => Ok None) 0 0 (Err ProviderError.Timeout).
#[local] Instance stellar_env : StellarEnv := sample_stellar_env 6 send_pending found_success.

Abbreviation world := (World InMemory.state (gmap CounterKey Z)).

(** Two transactions arrive; the first is prepared and submitted, the preparation of the second
    finds the lane taken. *)
Definition first_tx : TransactionRepoModel := stellar_tx "tx1" (sample_stellar_data one_operation).
Definition second_tx : TransactionRepoModel := stellar_tx "tx2" (sample_stellar_data one_operation).
Definition empty_world : world := sample_world [] {[("stellar"%string, sample_account) := 7]}.
Definition handle (h : handler) (t : TransactionRepoModel) (w : world) : world :=
  snd (stellar_network (stellar_relayer "stellar") h t w).
Definition stored (w : world) (id : string) : TransactionRepoModel :=
  default first_tx (view w !! id).
Definition run_intake : world :=
  snd (repo_call (repo_create second_tx) (snd (repo_call (repo_create first_tx) empty_world))).
Definition run_prepare : world := handle HPrepare second_tx (handle HPrepare first_tx run_intake).
Definition run_submit : world := handle HSubmit (stored run_prepare "tx1") run_prepare.

Lemma sample_ids r : rel_id (stellar_relayer r) = r.
Proof. done. Qed.

Lemma sample_counter (w : world) n :
  w_ctr w = {[("stellar"%string, sample_account) := n]} -> 0 <= n ->
  forall r, 0 <= counter_at stellar_relayer (ctr_view (w_ctr w)) r.
Proof.
  intros Hw Hn r. unfold counter_at. simpl. rewrite Hw.
  destruct (decide (r = "stellar"%string)) as [->|Hne]; [by rewrite lookup_singleton_eq|].
  rewrite lookup_singleton_ne; [done|]. intros [= Heq]. congruence.
Qed.

Lemma empty_initial : initial stellar_relayer empty_world.
Proof. split_and!; [done..|]. by apply (sample_counter _ 7). Qed.

Lemma steps_submit : rtc (step stellar_relayer) empty_world run_submit.
Proof.
  eapply rtc_l; [apply (step_intake _ _ first_tx); [by repeat split|done|by intros ?%not_elem_of_nil]|].
  eapply rtc_l; [apply (step_intake _ _ second_tx); [by repeat split|by vm_compute|by intros ?%not_elem_of_nil]|].
  eapply rtc_l; [apply (step_handle _ _ HPrepare "tx1" first_tx); [by vm_compute|done|by vm_compute]|].
  eapply rtc_l; [apply (step_handle _ _ HPrepare "tx2" second_tx); [by vm_compute|done|by vm_compute]|].
  eapply rtc_l; [|apply rtc_refl].
  apply (step_handle _ run_prepare HSubmit "tx1" (stored run_prepare "tx1"));
    [by vm_compute| |by vm_compute].
  intros _. replace (submits run_prepare) with ["tx1"%string] by by vm_compute. by apply list_elem_of_singleton.
Qed.

Lemma lanes_exclusive_witness :
  w_lanes run_submit !! "stellar"%string = Some "tx1"%string /\
  tx_status (stored run_submit "tx1") = Submitted /\ tx_status (stored run_submit "tx2") = Pending /\
  exists t, view run_submit !! "tx1"%string = Some t /\ tx_relayer_id t = "stellar"%string /\
    is_final_state (tx_status t) = false.
Proof.
  split_and!; [by vm_compute..|].
  apply (proj2 (lanes_exclusive stellar_relayer sample_ids _ _ empty_initial steps_submit)).
  by vm_compute.
Defined.

(** The node reports success: the first transaction is confirmed and hands its lane to the
    second, which is then prepared. *)
Definition run_confirmed : world := handle (HStatus None) (stored run_submit "tx1") run_submit.
Definition run_next : world := handle HPrepare second_tx run_confirmed.

Lemma step_confirmed : step stellar_relayer run_submit run_confirmed.
Proof.
  apply (step_handle _ run_submit (HStatus None) "tx1" (stored run_submit "tx1"));
    [by vm_compute|done|by vm_compute].
Qed.

Lemma steps_next : rtc (step stellar_relayer) empty_world run_next.
Proof.
  eapply rtc_r; [eapply rtc_r; [exact steps_submit|exact step_confirmed]|].
  apply (step_handle _ run_confirmed HPrepare "tx2" second_tx); [by vm_compute|done|by vm_compute].
Qed.

Lemma sequences_distinct_witness :
  stellar_sequence (stored run_next "tx1") = Some 7 /\ stellar_sequence (stored run_next "tx2") = Some 8 /\
  8 < counter_at stellar_relayer (ctr_view (w_ctr run_next)) "stellar".
Proof.
  split_and!; [by vm_compute..|].
  destruct (sequences_distinct stellar_relayer sample_ids _ _ empty_initial steps_next) as [_ Hseq].
  destruct (Hseq "tx2"%string (stored run_next "tx2") 8) as [_ Hlt]; [by vm_compute..|].
  change (tx_relayer_id (stored run_next "tx2")) with "stellar"%string in Hlt. exact Hlt.
Defined.

End Witnesses.
