(* ===== verification/StellarDeviations.v ===== *)
(** * Where the Stellar lane gate gives way

    Outside the assumptions of [StellarSystem]: a lane whose owner is finished is never
    released, and a failed read is enough to leave a lane in that state. *)

From S2P Require Import Prelude Decimal Errors Json Model Config StellarXdr Repository Counter.
From S2P Require Import Jobs Effects Sample EvmUtils EvmTransaction EvmStatus Lifecycle.
From S2P Require Import EvmRelayer JobHandlers Stellar StellarSample StellarProperties StellarSystem.
Open Scope Z_scope.

Section Blocked.
Context `{Chrono} `{ServerConfig} `{Env} `{StellarSdk} `{StellarEnv}.
Context {S C : Type} `{!TransactionRepository S} `{!StellarRepository S} `{!TransactionCounter C}.
Context (relayer : RelayerRepoModel) (j : string).

(** The transaction [j] keeps the lane. *)
Definition keeps_lane (w w' : W S C) : Prop :=
  w_lanes w !! rel_id relayer = Some j -> w_lanes w' !! rel_id relayer = Some j.

#[local] Instance keeps_lane_preorder : PreOrder keeps_lane.
Proof. split; unfold keeps_lane; [by intros ? ?|]. intros ??? ??. auto. Qed.

Abbreviation R := keeps_lane.

Lemma lane_same {E A} (c : M (W S C) E A) : preserves (fun w w' => w_lanes w' = w_lanes w) c -> preserves R c.
Proof. intros Hc w Hl. rewrite <- Hl. f_equal. exact (Hc w). Qed.

Lemma lane_of_core {E A} (c : M (W S C) E A) : preserves same_core c -> preserves R c.
Proof. intros Hc. apply lane_same. intros w. by destruct (Hc w) as (_ & ? & _). Qed.

Lemma lane_repo_call {A} (c : M S RepositoryError.t A) : preserves R (repo_call c).
Proof. apply lane_same. intros []. unfold repo_call. by destruct (c _). Qed.

Lemma lane_counter_call {A} (c : M C RepositoryError.t A) : preserves R (counter_call c).
Proof. apply lane_same. intros []. unfold counter_call. by destruct (c _). Qed.

Lemma lane_produce job : preserves R (produce job).
Proof. apply lane_same. intros w. unfold produce. by destruct (queue_fault _); destruct w. Qed.

Lemma lane_now {E} : preserves R (now (E := E)).
Proof. apply lane_of_core. preserve. Qed.
#[local] Hint Resolve lane_repo_call lane_counter_call lane_produce lane_now : preserves_db.
#[local] Hint Extern 2 (preserves keeps_lane ?c) =>
  (lazymatch c with
   | bindM _ _ => fail | try_ _ => fail | map_errM _ _ => fail | match _ with _ => _ end => fail
   | _ => apply lane_of_core; solve [eauto 2 with preserves_db]
   end) : preserves_db.

Lemma lane_partial_update id u : preserves R (partial_update id u).
Proof. unfold partial_update, partial_update_r. preserve. Qed.
#[local] Hint Resolve lane_partial_update : preserves_db.

Lemma lane_finalize id u : preserves R (finalize_transaction_state relayer id u).
Proof. unfold finalize_transaction_state. preserve. Qed.
#[local] Hint Resolve lane_finalize : preserves_db.

(** The other transactions cannot take, pass or free the lane. *)
Section Other.
Context (i : string) (other : i <> j).

Lemma lane_claim : preserves R (claim_lane (S := S) (C := C) relayer i).
Proof.
  intros w Hl. unfold claim_lane, LaneGate.claim. rewrite Hl. simpl. by destruct w.
Qed.

Lemma lane_pass k : preserves R (pass_lane (S := S) (C := C) relayer i k).
Proof.
  unfold pass_lane. apply preserves_modify. intros w Hl. rewrite pass_to_not_owner by congruence. by destruct w.
Qed.

Lemma lane_free : preserves R (free_lane (S := S) (C := C) relayer i).
Proof.
  unfold free_lane. apply preserves_modify. intros w Hl. rewrite free_not_owner by congruence. by destruct w.
Qed.
#[local] Hint Resolve lane_claim lane_pass lane_free : preserves_db.

Lemma lane_enqueue : preserves R (enqueue_next_pending_transaction relayer i).
Proof. unfold enqueue_next_pending_transaction. preserve. Qed.
#[local] Hint Resolve lane_enqueue : preserves_db.

Lemma lane_mark t reason : tx_id t = i ->
  preserves R (mark_as_failed relayer t reason) /\ preserves R (mark_as_expired relayer t reason).
Proof. intros Hi. unfold mark_as_failed, mark_as_expired. rewrite Hi. split; preserve. Qed.
#[local] Hint Extern 1 (preserves keeps_lane (mark_as_failed _ _ _)) =>
  (apply lane_mark; assumption) : preserves_db.
#[local] Hint Extern 1 (preserves keeps_lane (mark_as_expired _ _ _)) =>
  (apply lane_mark; assumption) : preserves_db.

Context (t : TransactionRepoModel) (id : tx_id t = i).

Lemma lane_rewind a n o : preserves R (try_rewind_sequence_counter relayer a n o).
Proof. unfold try_rewind_sequence_counter, repo. preserve. Qed.
#[local] Hint Resolve lane_rewind : preserves_db.
Lemma lane_sync : preserves R (sync_best_effort relayer t).
Proof. unfold sync_best_effort, sync_sequence_from_chain. preserve. Qed.
#[local] Hint Resolve lane_sync : preserves_db.

Lemma lane_submit_job u d : preserves R (send_submit_transaction_job (S := S) (C := C) u d).
Proof. unfold send_submit_transaction_job, queue. preserve. Qed.
#[local] Hint Resolve lane_submit_job : preserves_db.

Lemma lane_next_sequence r a : preserves R (get_next_sequence (S := S) (C := C) r a).
Proof. unfold get_next_sequence. preserve. Qed.
#[local] Hint Resolve lane_next_sequence : preserves_db.

Lemma lane_update_and_notify k d : preserves R (update_and_notify_transaction relayer k d).
Proof. unfold update_and_notify_transaction. preserve. Qed.
#[local] Hint Resolve lane_update_and_notify : preserves_db.

Lemma lane_finalize_with_signature d : preserves R (finalize_with_signature relayer t d).
Proof. unfold finalize_with_signature, sign_and_finalize_transaction. preserve. Qed.
#[local] Hint Resolve lane_finalize_with_signature : preserves_db.

Lemma lane_prepare_core : preserves R (prepare_core relayer t).
Proof.
  unfold prepare_core. preserve; unfold process_operations, process_unsigned_xdr,
    process_soroban_gas_abstraction; preserve.
Qed.
#[local] Hint Resolve lane_prepare_core : preserves_db.

Lemma lane_prepare : preserves R (prepare_transaction_impl relayer t).
Proof. unfold prepare_transaction_impl, handle_prepare_failure. rewrite id. preserve. Qed.

Lemma lane_resubmits u n : preserves R (fast_resubmit (S := S) (C := C) u n).
Proof. unfold fast_resubmit. preserve. Qed.
#[local] Hint Resolve lane_resubmits : preserves_db.

Lemma lane_submit_core : preserves R (submit_core relayer t).
Proof.
  unfold submit_core, submit_accepted, submit_try_again_later, submit_insufficient_fee, repo. preserve.
Qed.
#[local] Hint Resolve lane_submit_core : preserves_db.

Lemma lane_submit : preserves R (submit_transaction_impl relayer t).
Proof.
  unfold submit_transaction_impl, handle_submit_failure, fail_submission, reset_transaction_for_retry, repo.
  preserve; rewrite ?id; preserve.
Qed.

Lemma lane_check_lifetime reason : preserves R (check_expiration_and_max_lifetime relayer t reason).
Proof. unfold check_expiration_and_max_lifetime. preserve. Qed.
Lemma lane_backoff : preserves R (resubmit_with_backoff t).
Proof. unfold resubmit_with_backoff. preserve. Qed.
#[local] Hint Resolve lane_check_lifetime lane_backoff : preserves_db.

Lemma lane_status_core : preserves R (status_core relayer t).
Proof.
  unfold status_core, handle_pending_state, handle_sent_state, handle_submitted_state,
    handle_stellar_success, handle_stellar_failed, queue. preserve; rewrite ?id; preserve.
Qed.
#[local] Hint Resolve lane_status_core : preserves_db.

Lemma lane_status ctx : preserves R (handle_transaction_status_impl relayer t ctx).
Proof. unfold handle_transaction_status_impl, repo. preserve. Qed.

Lemma lane_handler h : preserves R (stellar_network relayer h t).
Proof.
  destruct h; simpl; [apply lane_prepare|apply lane_submit|preserve|apply lane_status|preserve..].
Qed.
End Other.

(** C35. A finished owner blocks its lane.  Once a transaction that is finished owns the lane of
    a relayer that takes one transaction at a time, no sequence of handler runs, on the other
    transactions of the relayer or on finished ones, ever releases it, and preparing any other
    pending transaction returns it as it is and changes nothing.  A failed read of the pending
    transactions, after the write that finishes the owner, is enough to get there. *)
Theorem finished_owner_blocks_lane (w : W S C) (runs : list (handler * TransactionRepoModel)) :
  concurrent_transactions_enabled relayer = false ->
  w_lanes w !! rel_id relayer = Some j ->
  Forall (fun run => tx_id run.2 <> j \/ is_final_state (tx_status run.2) = true) runs ->
  let w' := fold_left (fun w run => snd (stellar_network relayer run.1 run.2 w)) runs w in
  w_lanes w' !! rel_id relayer = Some j /\
  forall u, tx_status u = Pending -> tx_id u <> j ->
    prepare_transaction_impl relayer u w' = (Ok u, w').
Proof.
  intros Hc Hl Hruns w'. assert (Hl' : w_lanes w' !! rel_id relayer = Some j).
  { unfold w'. clear w'. revert w Hl. induction Hruns as [|[h u] runs Hu _ IH]; intros w Hl; [done|].
    simpl in *. apply IH. destruct Hu as [Hne|Hf]; [|by rewrite final_handler].
    by apply (lane_handler (tx_id u) Hne u eq_refl h w). }
  split; [done|]. clearbody w'. intros u Hp Hne. unfold prepare_transaction_impl. rewrite Hp, Hc. simpl.
  unfold bindM, claim_lane, LaneGate.claim. rewrite Hl'. simpl.
  destruct (String.eqb_spec j (tx_id u)); [congruence|]. simpl. by destruct w'.
Qed.
End Blocked.

(** ** A failed read *)

Section Witnesses.
#[local] Existing Instances sample_chrono sample_config sample_order sample_sdk env stellar_env.

(** The in-memory repository, with a connection that times out on reading a page. *)
#[program] Definition timing_out : StellarRepository InMemory.state := {|
  repo_find_by_status_paginated := fun _ _ _ _ => failM (RepositoryError.ConnectionError "timeout");
  repo_record_stellar_try_again_later_retry := InMemory.record_stellar_try_again_later_retry;
  repo_record_stellar_insufficient_fee_retry := InMemory.record_stellar_insufficient_fee_retry;
  repo_record_try_again_later_spec := repo_record_try_again_later_spec (S := InMemory.state);
  repo_record_insufficient_fee_spec := repo_record_insufficient_fee_spec (S := InMemory.state);
|}.
Next Obligation. done. Qed.

(** The first transaction of the sample run is confirmed while reads time out. *)
Definition run_timed_out : World InMemory.state (gmap CounterKey Z) :=
  snd (stellar_network (StellarRepository0 := timing_out) (stellar_relayer "stellar") (HStatus None)
         (stored run_submit "tx1") run_submit).

Lemma finished_owner_blocks_lane_witness :
  tx_status (stored run_timed_out "tx1") = Confirmed /\ tx_status (stored run_timed_out "tx2") = Pending /\
  let w' := snd (stellar_network (stellar_relayer "stellar") (HStatus None) second_tx
                   (snd (stellar_network (stellar_relayer "stellar") (HStatus None)
                           (stored run_timed_out "tx1") run_timed_out))) in
  w_lanes w' !! "stellar"%string = Some "tx1"%string /\
  prepare_transaction_impl (stellar_relayer "stellar") second_tx w' = (Ok second_tx, w').
Proof.
  split; [by vm_compute|]. split; [by vm_compute|]. intros w'.
  destruct (finished_owner_blocks_lane (stellar_relayer "stellar") "tx1" run_timed_out
    [(HStatus None, stored run_timed_out "tx1"); (HStatus None, second_tx)]) as [Hl Hp].
  - done.
  - by vm_compute.
  - repeat apply Forall_cons_2; [right; by vm_compute|by left|apply Forall_nil_2].
  - split; [exact Hl|]. apply Hp; done.
Defined.
End Witnesses.
