(* ===== verification/SolanaValidator.v ===== *)
(** * The Solana provider and the validation of Solana transactions

    The classification of RPC errors, the fee and the status lookup of
    [services/provider/solana/mod.rs], and the checks of
    [domain/transaction/solana/validation.rs] a transaction passes before it is signed.  The
    RPC node is [SolanaEnv].  Rust's indexing panics when the index is out of range, which
    ends the job: [abrupt] adds that outcome to the errors of a function. *)

From S2P Require Import Prelude Decimal Errors Model Config StellarXdr SolanaSdk Repository.
From S2P Require Import Counter Jobs Effects EvmUtils JobHandlers.
Open Scope Z_scope.

(** ** Panics *)

Inductive abrupt (E : Type) : Type :=
| Panic
| Raise (e : E).
Arguments Panic {E}.
Arguments Raise {E} _.

Definition abrupt_map {E E'} (f : E -> E') (a : abrupt E) : abrupt E' :=
  match a with Panic => Panic | Raise e => Raise (f e) end.

(** [l[i]] *)
Definition index {E A} (l : list A) (i : Z) : result (abrupt E) A :=
  ok_or (l !! Z.to_nat i) Panic.

(** ** Error classification *)

(** [str::replace] of the spaces by nothing. *)
Fixpoint remove_spaces (s : string) : string :=
  match s with
  | EmptyString => EmptyString
  | String c s' => if Ascii.eqb c " " then remove_spaces s' else String c (remove_spaces s')
  end.

Definition matches_error_pattern (error_msg pattern : string) : bool :=
  let normalized_msg := remove_spaces (to_lowercase error_msg) in
  let normalized_pattern := remove_spaces (to_lowercase pattern) in
  str_contains normalized_msg normalized_pattern.

(** The [TransactionError] of [solana_sdk]: the variants the code names, and the others. *)
Module TxErr.
Inductive t : Type :=
| InsufficientFundsForFee
| InsufficientFundsForRent
| BlockhashNotFound
| AlreadyProcessed
| SignatureFailure
| MissingSignatureForFee
| InvalidAccountForFee
| AccountNotFound
| InvalidAccountIndex
| InvalidProgramForExecution
| ProgramAccountNotFound
| InstructionError
| CallChainTooDeep
| InvalidWritableAccount
| InvalidRentPayingAccount
| WouldExceedMaxBlockCostLimit
| WouldExceedMaxAccountCostLimit
| WouldExceedMaxVoteCostLimit
| WouldExceedAccountDataBlockLimit
| TooManyAccountLocks
| AddressLookupTableNotFound
| InvalidAddressLookupTableOwner
| InvalidAddressLookupTableData
| InvalidAddressLookupTableIndex
| MaxLoadedAccountsDataSizeExceeded
| InvalidLoadedAccountsDataSizeLimit
| ResanitizationNeeded
| ProgramExecutionTemporarilyRestricted
| AccountBorrowOutstanding
| AccountInUse
| AccountLoadedTwice
| ClusterMaintenance
| Unnamed.
End TxErr.

(** [ClientErrorKind]; an RPC error is known by its display. *)
Inductive ClientErrorKind : Type :=
| KindIo
| KindReqwest (status : option Z)
| KindRpcError (display : string)
| KindTransactionError (e : TxErr.t)
| KindCustom (msg : string)
| KindOther.

Record ClientError := {
  ce_kind : ClientErrorKind;
  ce_display : string;
}.

Definition from_rpc_response_error (rpc_err : string) (full_error : ClientError)
  : SolanaProviderError.t :=
  let m := ce_display full_error in
  if str_contains rpc_err "-32002" then
    if matches_error_pattern rpc_err "blockhash not found" then
      SolanaProviderError.BlockhashNotFound m
    else if matches_error_pattern rpc_err "insufficient funds" then
      SolanaProviderError.InsufficientFunds m
    else SolanaProviderError.InvalidTransaction m
  else if str_contains rpc_err "-32003" then SolanaProviderError.InvalidTransaction m
  else if str_contains rpc_err "-32004" then SolanaProviderError.RpcError m
  else if str_contains rpc_err "-32005" then SolanaProviderError.RpcError m
  else if str_contains rpc_err "-32007" then SolanaProviderError.NetworkConfiguration m
  else if str_contains rpc_err "-32008" then SolanaProviderError.BlockhashNotFound m
  else if str_contains rpc_err "-32009" then SolanaProviderError.AlreadyProcessed m
  else if str_contains rpc_err "-32010" then SolanaProviderError.NetworkConfiguration m
  else if str_contains rpc_err "-32013" then SolanaProviderError.InvalidTransaction m
  else if str_contains rpc_err "-32014" then SolanaProviderError.RpcError m
  else if str_contains rpc_err "-32015" then SolanaProviderError.InvalidTransaction m
  else if str_contains rpc_err "-32016" then SolanaProviderError.RpcError m
  else if str_contains rpc_err "-32602" then SolanaProviderError.InvalidTransaction m
  else if matches_error_pattern rpc_err "insufficient funds" then
    SolanaProviderError.InsufficientFunds m
  else if matches_error_pattern rpc_err "blockhash not found" then
    SolanaProviderError.BlockhashNotFound m
  else if matches_error_pattern rpc_err "already processed" then
    SolanaProviderError.AlreadyProcessed m
  else SolanaProviderError.RpcError m.

Definition from_transaction_error (tx_error : TxErr.t) (full_error : ClientError)
  : SolanaProviderError.t :=
  let m := ce_display full_error in
  match tx_error with
  | TxErr.InsufficientFundsForFee | TxErr.InsufficientFundsForRent =>
      SolanaProviderError.InsufficientFunds m
  | TxErr.BlockhashNotFound => SolanaProviderError.BlockhashNotFound m
  | TxErr.AlreadyProcessed => SolanaProviderError.AlreadyProcessed m
  | TxErr.AccountInUse | TxErr.AccountLoadedTwice | TxErr.ClusterMaintenance | TxErr.Unnamed =>
      SolanaProviderError.RpcError m
  | _ => SolanaProviderError.InvalidTransaction m
  end.

Definition from_rpc_error (error : ClientError) : SolanaProviderError.t :=
  match ce_kind error with
  | KindIo => SolanaProviderError.NetworkError (ce_display error)
  | KindReqwest (Some status) => SolanaProviderError.RequestError (ce_display error) status
  | KindReqwest None => SolanaProviderError.NetworkError (ce_display error)
  | KindRpcError rpc_err => from_rpc_response_error rpc_err error
  | KindTransactionError tx_error => from_transaction_error tx_error error
  | KindCustom msg => from_rpc_response_error msg error
  | KindOther => SolanaProviderError.RpcError (ce_display error)
  end.

(** ** The provider *)

(** One entry of [getSignatureStatuses]: whether the transaction failed, and the commitments
    its slot has reached. *)
Record SignatureStatus := {
  ss_err : bool;
  ss_finalized : bool;
  ss_confirmed : bool;
}.

Inductive SolanaTransactionStatus : Type :=
| SolProcessed
| SolConfirmed
| SolFinalized
| SolFailed.

(** What a node answers to a simulation: the fields of [solana_client]'s structure that tell how
    the execution ended. *)
Record RpcSimulateTransactionResult := {
  rsim_err : option string;
  rsim_logs : option (list string);
  rsim_units_consumed : option Z;
}.

(** The Solana side of the outside world.  As in [Env] every function takes the tick. *)
Class SolanaEnv := {
  solana_get_latest_blockhash : nat -> result SolanaProviderError.t Hash;
  solana_is_blockhash_valid : nat -> Hash -> result SolanaProviderError.t bool;
  solana_send_transaction : nat -> SolanaTransaction -> result SolanaProviderError.t Signature;
  (** [get_signature_statuses_with_history], for one signature. *)
  solana_signature_statuses :
    nat -> Signature -> result SolanaProviderError.t (list (option SignatureStatus));
  (** The simulation of the unsigned transaction with the given message. *)
  solana_simulate_transaction :
    nat -> Message -> result SolanaProviderError.t RpcSimulateTransactionResult;
  solana_get_balance : nat -> string -> result SolanaProviderError.t Z;
  solana_get_account : nat -> Pubkey -> result SolanaProviderError.t (list Byte.byte);
  solana_get_fee_for_message : nat -> Message -> result SolanaProviderError.t Z;
  solana_recent_prioritization_fees : nat -> result SolanaProviderError.t (list Z);

  (** [SolanaSignTrait::sign], with the message of its error. *)
  solana_sign : nat -> list Byte.byte -> result string Signature;

  (** Which of the futures of a [try_join!] that fail is the first to do so. *)
  join_winner : nat -> nat;
}.

Section Provider.
Context `{Chrono} `{ServerConfig} `{Env} `{SolanaSdk} `{SolanaEnv}.
Context {S C : Type} `{!TransactionRepository S} `{!TransactionCounter C}.

Definition calculate_total_fee (message : Message) : M (W S C) SolanaProviderError.t Z :=
  let* base_fee := call (fun t => solana_get_fee_for_message t message) in
  let* priority_fees := call solana_recent_prioritization_fees in
  let max_priority_fee := foldr Z.max 0 priority_fees in
  retM (wrapu 64 (base_fee + max_priority_fee)).

Definition status_of_statuses (value : list (option SignatureStatus))
  : result SolanaProviderError.t SolanaTransactionStatus :=
  match value with
  | Some v :: _ =>
      if ss_err v then Ok SolFailed
      else if ss_finalized v then Ok SolFinalized
      else if ss_confirmed v then Ok SolConfirmed
      else Ok SolProcessed
  | _ => Err (SolanaProviderError.RpcError "Transaction confirmation status not available")
  end.

Definition get_transaction_status (signature : Signature)
  : M (W S C) SolanaProviderError.t SolanaTransactionStatus :=
  let* value := call (fun t => solana_signature_statuses t signature) in
  liftM (status_of_statuses value).

(** [send_transaction]: the transaction leaves the process whatever the node answers. *)
Definition send_transaction (transaction : SolanaTransaction)
  : M (W S C) SolanaProviderError.t Signature := fun w =>
  (solana_send_transaction (w_tick w) transaction, push_solana transaction (tick w)).
End Provider.

(** ** The validator *)

Abbreviation SVE := SolanaTransactionValidationError.t (only parsing).

Section Checks.
Context `{SolanaSdk}.

Definition validate_fee_payer (tx : SolanaTransaction) (relayer_pubkey : Pubkey)
  : result SVE unit :=
  let? fee_payer := ok_or (head (msg_account_keys (stx_message tx)))
    (SolanaTransactionValidationError.FeePayer "No fee payer account found") in
  if negb (String.eqb fee_payer relayer_pubkey) then
    Err (SolanaTransactionValidationError.PolicyViolation
      ("Fee payer " +:+ fee_payer +:+ " does not match relayer address " +:+ relayer_pubkey))
  else if mh_num_required_signatures (msg_header (stx_message tx)) <? 1 then
    Err (SolanaTransactionValidationError.FeePayer "Fee payer must be a signer")
  else Ok tt.

Definition validate_max_signatures (tx : SolanaTransaction) (policy : RelayerSolanaPolicy)
  : result SVE unit :=
  let num_signatures := mh_num_required_signatures (msg_header (stx_message tx)) in
  match slpol_max_signatures policy with
  | None => Ok tt
  | Some max_signatures =>
      if max_signatures <? num_signatures then
        Err (SolanaTransactionValidationError.PolicyViolation
          ("Transaction requires " +:+ print_dec num_signatures +:+
           " signatures, which exceeds maximum allowed " +:+ print_dec max_signatures))
      else Ok tt
  end.

(** The loop of [validate_allowed_programs] over the instructions. *)
Fixpoint check_programs (keys : list Pubkey) (allowed_programs : list string)
    (instructions : list CompiledInstruction) : result (abrupt SVE) unit :=
  match instructions with
  | [] => Ok tt
  | ix :: rest =>
      let? program_id := index keys (ci_program_id_index ix) in
      if negb (existsb (String.eqb program_id) allowed_programs) then
        Err (Raise (SolanaTransactionValidationError.PolicyViolation
          ("Program " +:+ program_id +:+ " not allowed")))
      else check_programs keys allowed_programs rest
  end.

Definition validate_allowed_programs (tx : SolanaTransaction) (policy : RelayerSolanaPolicy)
  : result (abrupt SVE) unit :=
  match slpol_allowed_programs policy with
  | Some allowed_programs =>
      check_programs (msg_account_keys (stx_message tx)) allowed_programs
        (msg_instructions (stx_message tx))
  | None => Ok tt
  end.

Definition validate_tx_allowed_accounts (tx : SolanaTransaction) (policy : RelayerSolanaPolicy)
  : result SVE unit :=
  match slpol_allowed_accounts policy with
  | Some allowed_accounts =>
      match List.find (fun k => negb (existsb (String.eqb k) allowed_accounts))
              (msg_account_keys (stx_message tx)) with
      | Some account_key => Err (SolanaTransactionValidationError.PolicyViolation
                              ("Account " +:+ account_key +:+ " not allowed"))
      | None => Ok tt
      end
  | None => Ok tt
  end.

Definition validate_tx_disallowed_accounts (tx : SolanaTransaction)
    (policy : RelayerSolanaPolicy) : result SVE unit :=
  match slpol_disallowed_accounts policy with
  | None => Ok tt
  | Some disallowed_accounts =>
      match List.find (fun k => existsb (String.eqb k) disallowed_accounts)
              (msg_account_keys (stx_message tx)) with
      | Some account_key => Err (SolanaTransactionValidationError.PolicyViolation
                              ("Account " +:+ account_key +:+ " is explicitly disallowed"))
      | None => Ok tt
      end
  end.

Definition validate_data_size (tx : SolanaTransaction) (config : RelayerSolanaPolicy)
  : result SVE unit :=
  let max_size := default DEFAULT_SOLANA_MAX_TX_DATA_SIZE (slpol_max_tx_data_size config) in
  let? tx_bytes := result_map_err SolanaTransactionValidationError.DeserializeError
                     (bincode_serialize tx) in
  let size := Z.of_nat (length tx_bytes) in
  if max_size <? size then
    Err (SolanaTransactionValidationError.PolicyViolation
      ("Transaction size " +:+ print_dec size +:+ " exceeds maximum allowed " +:+
       print_dec max_size))
  else Ok tt.

Definition validate_max_fee (amount : Z) (policy : RelayerSolanaPolicy) : result SVE unit :=
  match slpol_max_allowed_fee_lamports policy with
  | Some max_amount =>
      if max_amount <? amount then
        Err (SolanaTransactionValidationError.PolicyViolation
          ("Fee amount " +:+ print_dec amount +:+ " exceeds max allowed fee amount " +:+
           print_dec max_amount))
      else Ok tt
  | None => Ok tt
  end.
End Checks.

Section Validator.
Context `{Chrono} `{ServerConfig} `{Env} `{SolanaSdk} `{SolanaEnv}.
Context {S C : Type} `{!TransactionRepository S} `{!TransactionCounter C}.

Definition provider_call {A} (f : nat -> result SolanaProviderError.t A) : M (W S C) SVE A :=
  map_errM SolanaTransactionValidationError.UnderlyingSolanaProvider (call f).

Definition validate_blockhash (tx : SolanaTransaction) : M (W S C) SVE unit :=
  let blockhash := msg_recent_blockhash (stx_message tx) in
  let* is_valid := provider_call (fun t => solana_is_blockhash_valid t blockhash) in
  if negb is_valid then
    failM (SolanaTransactionValidationError.ExpiredBlockhash
      ("Blockhash " +:+ blockhash +:+ " is no longer valid"))
  else retM tt.

Definition validate_sufficient_relayer_balance (fee : Z) (relayer_address : string)
    (policy : RelayerSolanaPolicy) : M (W S C) SVE unit :=
  let* balance := provider_call (fun t => solana_get_balance t relayer_address) in
  let min_balance := default DEFAULT_SOLANA_MIN_BALANCE (slpol_min_balance policy) in
  let required_balance := wrapu 64 (fee + min_balance) in
  if balance <? required_balance then
    failM (SolanaTransactionValidationError.InsufficientBalance
      ("Insufficient relayer balance. Required: " +:+ print_dec required_balance +:+
       ", Available: " +:+ print_dec balance +:+ ", Fee: " +:+ print_dec fee +:+
       ", Min balance: " +:+ print_dec min_balance))
  else retM tt.

(** [Transaction::new_unsigned] is a function of the message. *)
Definition simulate_transaction (tx : SolanaTransaction)
  : M (W S C) SVE RpcSimulateTransactionResult :=
  provider_call (fun t => solana_simulate_transaction t (stx_message tx)).

(** *** Token transfers *)

Definition invalid {A} (m : string) : M (W S C) (abrupt SVE) A :=
  failM (Raise (SolanaTransactionValidationError.ValidationError m)).
Definition violation {A} (m : string) : M (W S C) (abrupt SVE) A :=
  failM (Raise (SolanaTransactionValidationError.PolicyViolation m)).
Definition at_index {A} (l : list A) (i : Z) : M (W S C) (abrupt SVE) A := liftM (index l i).

Definition transfer_amount (token_ix : TokenInstruction) : option Z :=
  match token_ix with
  | Transfer amount | TransferChecked amount _ => Some amount
  | OtherInstruction => None
  end.

(** The positions of the destination and of the owner among the accounts of a transfer. *)
Definition dest_position (token_ix : TokenInstruction) : Z :=
  match token_ix with TransferChecked _ _ => 2 | _ => 1 end.
Definition owner_position (token_ix : TokenInstruction) : Z :=
  match token_ix with TransferChecked _ _ => 3 | _ => 2 end.

Definition option_debug (o : option Z) : string :=
  match o with Some n => "Some(" +:+ print_dec n +:+ ")" | None => "None" end.

(** The checks of a source account that is seen for the first time; the balance of the
    account. *)
Definition check_source (allowed_tokens : list SolanaAllowedTokensPolicy) (program_id : Pubkey)
    (token_ix : TokenInstruction) (amount : Z) (source_pubkey destination_pubkey : Pubkey)
    (relayer_account : Pubkey) : M (W S C) (abrupt SVE) Z :=
  let* source_account :=
    map_errM (fun e => Raise (SolanaTransactionValidationError.ValidationError
                                (solana_provider_error_display e)))
      (call (fun t => solana_get_account t source_pubkey)) in
  let* token_account := liftM (result_map_err
    (fun e => Raise (SolanaTransactionValidationError.ValidationError
                       ("Invalid token account: " +:+ token_error_display e)))
    (unpack_account program_id source_account)) in
  if ta_is_frozen token_account then violation "Token account is frozen"
  else
  match List.find (fun t => String.eqb (slt_mint t) (ta_mint token_account)) allowed_tokens with
  | None => violation ("Token " +:+ ta_mint token_account +:+ " not allowed for transfers")
  | Some config =>
      do* match token_ix with
          | TransferChecked _ decimals =>
              if negb (bool_decide (Some decimals = slt_decimals config)) then
                invalid ("Invalid decimals: expected " +:+ option_debug (slt_decimals config) +:+
                         ", got " +:+ print_dec decimals)
              else retM tt
          | _ => retM tt
          end in
      do* if String.eqb destination_pubkey relayer_account then
            match slt_max_allowed_fee config with
            | Some max_fee =>
                if max_fee <? amount then
                  violation ("Transfer amount " +:+ print_dec amount +:+
                    " exceeds max fee allowed " +:+ print_dec max_fee +:+ " for token " +:+
                    ta_mint token_account)
                else retM tt
            | None => retM tt
            end
          else retM tt in
      retM (ta_amount token_account)
  end.

(** [account_transfers] and [account_balances]. *)
Record Transfers := {
  tr_transfers : gmap string Z;
  tr_balances : gmap string Z;
}.

Definition check_transfer (message : Message) (allowed_tokens : list SolanaAllowedTokensPolicy)
    (relayer_account : Pubkey) (program_id : Pubkey) (ix : CompiledInstruction)
    (token_ix : TokenInstruction) (amount : Z) (seen : Transfers)
  : M (W S C) (abrupt SVE) Transfers :=
  let keys := msg_account_keys message in
  let* source_index := at_index (ci_accounts ix) 0 in
  let* source_pubkey := at_index keys source_index in
  if negb (is_maybe_writable message (Z.to_nat source_index)) then
    invalid "Source account must be writable"
  else if is_signer message (Z.to_nat source_index) then
    invalid "Source account must not be signer"
  else if String.eqb source_pubkey relayer_account then
    violation "Relayer account cannot be source"
  else
  let* dest_index := at_index (ci_accounts ix) (dest_position token_ix) in
  let* destination_pubkey := at_index keys dest_index in
  if negb (is_maybe_writable message (Z.to_nat dest_index)) then
    invalid "Destination account must be writable"
  else if is_signer message (Z.to_nat dest_index) then
    invalid "Destination account must not be signer"
  else
  let* owner_index := at_index (ci_accounts ix) (owner_position token_ix) in
  if negb (is_signer message (Z.to_nat owner_index)) then
    let* owner := at_index keys owner_index in
    invalid ("Owner must be signer " +:+ owner)
  else
  let* balances :=
    match tr_balances seen !! source_pubkey with
    | Some _ => retM (tr_balances seen)
    | None =>
        let* balance := check_source allowed_tokens program_id token_ix amount source_pubkey
                          destination_pubkey relayer_account in
        retM (<[source_pubkey := balance]> (tr_balances seen))
    end in
  retM {| tr_transfers :=
            <[source_pubkey :=
                wrapu 64 (default 0 (tr_transfers seen !! source_pubkey) + amount)]>
              (tr_transfers seen);
          tr_balances := balances |}.

(** An instruction of a token program that is not a transfer. *)
Fixpoint check_other_accounts (message : Message) (relayer_account : Pubkey)
    (accounts : list Z) : M (W S C) (abrupt SVE) unit :=
  match accounts with
  | [] => retM tt
  | account :: rest =>
      match msg_account_keys message !! Z.to_nat account with
      | Some pubkey =>
          if String.eqb pubkey relayer_account
             && is_maybe_writable message (Z.to_nat account)
             && negb (is_signer message (Z.to_nat account))
          then violation "Relayer account cannot be used as writable account in token instructions"
          else check_other_accounts message relayer_account rest
      | None => check_other_accounts message relayer_account rest
      end
  end.

Definition check_token_instruction (message : Message)
    (allowed_tokens : list SolanaAllowedTokensPolicy) (relayer_account : Pubkey)
    (seen : Transfers) (ix : CompiledInstruction) : M (W S C) (abrupt SVE) Transfers :=
  let* program_id := at_index (msg_account_keys message) (ci_program_id_index ix) in
  if negb (is_token_program program_id) then retM seen
  else
  match unpack_instruction program_id (ci_data ix) with
  | Err _ => retM seen
  | Ok token_ix =>
      match transfer_amount token_ix with
      | Some amount =>
          check_transfer message allowed_tokens relayer_account program_id ix token_ix amount seen
      | None =>
          do* check_other_accounts message relayer_account (ci_accounts ix) in
          retM seen
      end
  end.

(** The comparison of the transfers out of each account with its balance.  Which of several
    uncovered accounts is named depends on the order of the map. *)
Fixpoint check_totals (balances : gmap string Z) (transfers : list (string * Z))
  : M (W S C) (abrupt SVE) unit :=
  match transfers with
  | [] => retM tt
  | (account, total_transfer) :: rest =>
      let* balance := liftM (ok_or (balances !! account) Panic) in
      if balance <? total_transfer then
        invalid ("Insufficient balance for cumulative transfers: account " +:+ account +:+
                 " has balance " +:+ print_dec balance +:+ " but requires " +:+
                 print_dec total_transfer +:+ " across all instructions")
      else check_totals balances rest
  end.

Definition validate_token_transfers (tx : SolanaTransaction) (policy : RelayerSolanaPolicy)
    (relayer_account : Pubkey) : M (W S C) (abrupt SVE) unit :=
  match slpol_allowed_tokens policy with
  | None | Some [] => retM tt
  | Some allowed_tokens =>
      let message := stx_message tx in
      let* seen := foldM (check_token_instruction message allowed_tokens relayer_account)
                     {| tr_transfers := ∅; tr_balances := ∅ |} (msg_instructions message) in
      check_totals (tr_balances seen) (map_to_list (tr_transfers seen))
  end.
End Validator.
