(* ===== verification/Solana.v ===== *)
(** * The Solana transaction lifecycle

    [domain/transaction/solana]: building, validating and signing a transaction, its
    submission and its resubmission with a fresh blockhash ([solana_transaction.rs]), the
    status handler that decides between the two ([status.rs]) and the helpers of [utils.rs].
    Each [async fn] of [SolanaRelayerTransaction] is a definition of the same name; logging is
    left out.  The handlers of [solana_transaction.rs] index the signatures of a transaction
    and may panic. *)

From S2P Require Import Prelude Decimal Errors Model Config StellarXdr SolanaSdk Repository.
From S2P Require Import Counter Jobs Effects EvmUtils EvmTransaction EvmStatus Lifecycle.
From S2P Require Import JobHandlers SolanaValidator.
Open Scope Z_scope.

Definition SOLANA_DEFAULT_TX_VALID_TIMESPAN : Z := 30 * 60 * 1000.
Definition SOLANA_MIN_AGE_FOR_RESUBMIT_CHECK_SECONDS : Z := 90.
Definition SOLANA_PENDING_RECOVERY_TRIGGER_SECONDS : Z := 20.
Definition SOLANA_PENDING_TIMEOUT_MINUTES : Z := 3.
Definition SOLANA_SENT_TIMEOUT_MINUTES : Z := 3.
Definition MAXIMUM_SOLANA_TX_ATTEMPTS : Z := 20.

(** ** [utils.rs] *)

Definition too_many_solana_attempts (tx : TransactionRepoModel) : bool :=
  MAXIMUM_SOLANA_TX_ATTEMPTS <=? Z.of_nat (length (tx_hashes tx)).

Definition is_resubmitable (tx : SolanaTransaction) : bool :=
  mh_num_required_signatures (msg_header (stx_message tx)) <=? 1.

Definition map_solana_status_to_transaction_status (solana_status : SolanaTransactionStatus)
  : TransactionStatus :=
  match solana_status with
  | SolProcessed => Mined
  | SolConfirmed => Mined
  | SolFinalized => Confirmed
  | SolFailed => Failed
  end.

Definition set_blockhash (h : Hash) (t : SolanaTransaction) : SolanaTransaction :=
  {| stx_signatures := stx_signatures t;
     stx_message :=
       {| msg_header := msg_header (stx_message t);
          msg_account_keys := msg_account_keys (stx_message t);
          msg_recent_blockhash := h;
          msg_instructions := msg_instructions (stx_message t) |} |}.

(** [transaction.signatures[0] = signature] *)
Definition set_first_signature (signature : Signature) (t : SolanaTransaction)
  : result (abrupt TransactionError.t) SolanaTransaction :=
  match stx_signatures t with
  | [] => Err Panic
  | _ :: rest => Ok {| stx_signatures := signature :: rest; stx_message := stx_message t |}
  end.

(** [TransactionUpdateRequest] with Solana data. *)
Definition upd_with_solana_data (x : SolanaTransactionData) (u : TransactionUpdateRequest)
  : TransactionUpdateRequest :=
  let 'Build_TransactionUpdateRequest a b c d _ f g h i j k := u in
  Build_TransactionUpdateRequest a b c d (Some (SolanaData x)) f g h i j k.

Section Utils.
Context `{SolanaSdk}.

Definition decode_solana_transaction_from_string (encoded : string)
  : result TransactionError.t SolanaTransaction :=
  result_map_err (fun e => TransactionError.ValidationError ("Invalid transaction: " +:+ e))
    (decode_transaction encoded).

Definition decode_solana_transaction (tx : TransactionRepoModel)
  : result TransactionError.t SolanaTransaction :=
  let? solana_data := get_solana_transaction_data (tx_network_data tx) in
  match sol_transaction solana_data with
  | Some transaction_str => decode_solana_transaction_from_string transaction_str
  | None => Err (TransactionError.ValidationError
              "Transaction not yet built - only available after preparation")
  end.

Fixpoint convert_accounts (idx acc_idx : Z) (accounts : list SolanaAccountMeta)
  : result TransactionError.t (list AccountMeta) :=
  match accounts with
  | [] => Ok []
  | a :: rest =>
      let? pubkey := result_map_err (fun e => TransactionError.ValidationError
        ("Instruction " +:+ print_dec idx +:+ " account " +:+ print_dec acc_idx +:+
         ": Invalid pubkey: " +:+ e)) (pubkey_from_str (sam_pubkey a)) in
      let? rest := convert_accounts idx (acc_idx + 1) rest in
      Ok ({| am_pubkey := pubkey; am_is_signer := sam_is_signer a;
             am_is_writable := sam_is_writable a |} :: rest)
  end.

Fixpoint convert_from (idx : Z) (instructions : list SolanaInstructionSpec)
  : result TransactionError.t (list Instruction) :=
  match instructions with
  | [] => Ok []
  | spec :: rest =>
      let? program_id := result_map_err (fun e => TransactionError.ValidationError
        ("Instruction " +:+ print_dec idx +:+ ": Invalid program_id: " +:+ e))
        (pubkey_from_str (sis_program_id spec)) in
      let? accounts := convert_accounts idx 0 (sis_accounts spec) in
      let? data := result_map_err (fun e => TransactionError.ValidationError
        ("Instruction " +:+ print_dec idx +:+ ": Invalid base64 data: " +:+ e))
        (base64_decode (sis_data spec)) in
      let? rest := convert_from (idx + 1) rest in
      Ok ({| ins_program_id := program_id; ins_accounts := accounts; ins_data := data |} :: rest)
  end.

Definition convert_instruction_specs_to_instructions (instructions : list SolanaInstructionSpec)
  : result TransactionError.t (list Instruction) := convert_from 0 instructions.

Definition build_transaction_from_instructions (instructions : list SolanaInstructionSpec)
    (payer : Pubkey) (recent_blockhash : Hash) : result TransactionError.t SolanaTransaction :=
  let? solana_instructions := convert_instruction_specs_to_instructions instructions in
  Ok (set_blockhash recent_blockhash (new_with_payer solana_instructions payer)).
End Utils.

Section Solana.
Context `{Chrono} `{ServerConfig} `{Env} `{SolanaSdk} `{SolanaEnv}.
Context {S C : Type} `{!TransactionRepository S} `{!TransactionCounter C}.
Context (relayer : RelayerRepoModel).

(** Programs that may panic. *)
Definition P (A : Type) : Type := M (W S C) (abrupt TransactionError.t) A.

Definition safely {A} (c : T S C A) : P A := map_errM Raise c.
Definition ok {A} (r : result TransactionError.t A) : P A := liftM (result_map_err Raise r).

Definition solana_call {A} (f : nat -> result SolanaProviderError.t A) : P A :=
  map_errM (fun e => Raise (TransactionError.UnderlyingSolanaProvider e)) (call f).

Definition invalid_relayer_address (e : string) : TransactionError.t :=
  TransactionError.ValidationError ("Invalid relayer address: " +:+ e).

(** ** [solana_transaction.rs] *)

Definition mark_transaction_as_failed (tx : TransactionRepoModel) (error : TransactionError.t)
  : T S C TransactionRepoModel :=
  partial_update (tx_id tx)
    (upd_with_reason (Some (transaction_error_display error)) (upd_with_status Failed)).

Definition fail_transaction_with_notification (tx : TransactionRepoModel)
    (error : TransactionError.t) : T S C TransactionRepoModel :=
  let* updated_tx := mark_transaction_as_failed tx error in
  do* notify relayer updated_tx in
  retM updated_tx.

Definition sync_validations (tx : SolanaTransaction) (policy : RelayerSolanaPolicy)
    (relayer_pubkey : Pubkey) : result (abrupt SVE) unit :=
  let? _ := result_map_err Raise (validate_tx_allowed_accounts tx policy) in
  let? _ := result_map_err Raise (validate_tx_disallowed_accounts tx policy) in
  let? _ := validate_allowed_programs tx policy in
  let? _ := result_map_err Raise (validate_max_signatures tx policy) in
  let? _ := result_map_err Raise (validate_fee_payer tx relayer_pubkey) in
  result_map_err Raise (validate_data_size tx policy).

(** The error of [validate] converted by [?]. *)
Definition validation {A} (c : M (W S C) (abrupt SVE) A) : P A :=
  map_errM (abrupt_map TransactionError.SolanaValidation) c.

Definition fee_validations (tx : SolanaTransaction) (policy : RelayerSolanaPolicy) : P unit :=
  let* fee := map_errM (fun e => Raise (TransactionError.UnderlyingSolanaProvider e))
                (calculate_total_fee (stx_message tx)) in
  do* validation (liftM (result_map_err Raise (validate_max_fee fee policy))) in
  validation (map_errM Raise (validate_sufficient_relayer_balance fee (rel_address relayer) policy)).

Definition error_of {E A} (r : result E A) : option E :=
  match r with Err e => Some e | Ok _ => None end.

(** [try_join!]: the synchronous checks end before the first request is sent; of the requests
    that fail, the first to do so ends the join. *)
Definition try_join (sync : P unit) (futures : list (P unit)) : P unit :=
  do* sync in
  let* results := foldM (fun acc c => let* r := try_ c in retM (acc ++ [r])) [] futures in
  let errors := omap error_of results in
  let* winner := ask join_winner in
  match errors !! (winner mod length errors)%nat with
  | Some e => failM e
  | None => retM tt
  end.

Definition validate_transaction_impl (tx : SolanaTransaction) : P unit :=
  let policy := get_solana_policy (rel_policies relayer) in
  let* relayer_pubkey := ok (result_map_err invalid_relayer_address
                               (pubkey_from_str (rel_address relayer))) in
  try_join (validation (liftM (sync_validations tx policy relayer_pubkey)))
    [ validation (map_errM Raise (validate_blockhash tx));
      validation (map_errM Raise (do* simulate_transaction tx in retM tt));
      validation (validate_token_transfers tx policy relayer_pubkey);
      fee_validations tx policy ].

(** The transaction to prepare: decoded, or built from the instructions. *)
Definition prepare_build (solana_data : SolanaTransactionData) : P (option SolanaTransaction) :=
  match sol_transaction solana_data with
  | Some transaction_str =>
      let* t := ok (decode_solana_transaction_from_string transaction_str) in retM (Some t)
  | None =>
      match sol_instructions solana_data with
      | Some instructions =>
          let* payer := ok (result_map_err invalid_relayer_address
                              (pubkey_from_str (rel_address relayer))) in
          let* latest_blockhash := solana_call solana_get_latest_blockhash in
          let* t := ok (build_transaction_from_instructions instructions payer latest_blockhash) in
          retM (Some t)
      | None => retM None
      end
  end.

Definition sign_message (t : SolanaTransaction) : P Signature :=
  map_errM (fun e => Raise (TransactionError.SignerError e))
    (call (fun n => solana_sign n (message_data (stx_message t)))).

Definition encoded (t : SolanaTransaction) : P string :=
  ok (result_map_err (fun e => TransactionError.ValidationError
        ("Failed to encode transaction: " +:+ e)) (encode_transaction t)).

(** Signing and storing a transaction that passed the checks, and its submit job. *)
Definition prepare_sign (tx : TransactionRepoModel) (solana_data : SolanaTransactionData)
    (transaction : SolanaTransaction) : P TransactionRepoModel :=
  let* signature := sign_message transaction in
  let* transaction := liftM (set_first_signature signature transaction) in
  let* encoded := encoded transaction in
  let* updated_tx := safely (partial_update (tx_id tx)
    (upd_with_solana_data
       {| sol_transaction := Some encoded; sol_instructions := sol_instructions solana_data;
          sol_signature := Some signature |} (upd_with_status Sent))) in
  do* safely (map_errM TransactionError.JobProducerError
        (produce (JSend (send_submit (tx_id updated_tx) (tx_relayer_id updated_tx)) None))) in
  do* safely (notify relayer updated_tx) in
  retM updated_tx.

Definition prepare_transaction_impl (tx : TransactionRepoModel) : P TransactionRepoModel :=
  if negb (status_eqb (tx_status tx) Pending) then retM tx
  else
  let* solana_data := ok (get_solana_transaction_data (tx_network_data tx)) in
  let* built := prepare_build solana_data in
  match built with
  | None =>
      safely (fail_transaction_with_notification tx
        (TransactionError.ValidationError "Must provide either transaction or instructions"))
  | Some transaction =>
      let* validated := try_ (validate_transaction_impl transaction) in
      match validated with
      | Err Panic => failM Panic
      | Err (Raise validation_error) =>
          if is_transient validation_error then failM (Raise validation_error)
          else safely (fail_transaction_with_notification tx validation_error)
      | Ok _ => prepare_sign tx solana_data transaction
      end
  end.

(** What becomes of a transaction the node did not take. *)
Definition send_failed (tx : TransactionRepoModel) (e : SolanaProviderError.t)
  : P TransactionRepoModel :=
  if solana_provider_error_is_transient e then
    failM (Raise (TransactionError.UnderlyingSolanaProvider e))
  else safely (fail_transaction_with_notification tx
                 (TransactionError.UnderlyingSolanaProvider e)).

Definition is_submittable (tx : TransactionRepoModel) : bool :=
  status_eqb (tx_status tx) Sent || status_eqb (tx_status tx) Submitted.

Definition is_already_processed (e : SolanaProviderError.t) : bool :=
  match e with SolanaProviderError.AlreadyProcessed _ => true | _ => false end.
Definition is_blockhash_not_found (e : SolanaProviderError.t) : bool :=
  match e with SolanaProviderError.BlockhashNotFound _ => true | _ => false end.

Definition submit_transaction_impl (tx : TransactionRepoModel) : P TransactionRepoModel :=
  if negb (is_submittable tx) then retM tx
  else
  do* ok (get_solana_transaction_data (tx_network_data tx)) in
  let* transaction := ok (decode_solana_transaction tx) in
  let* sent := try_ (send_transaction transaction) in
  match sent with
  | Err provider_error =>
      if is_already_processed provider_error then retM tx
      else if is_blockhash_not_found provider_error && is_resubmitable transaction then retM tx
      else send_failed tx provider_error
  | Ok _ =>
      let* signature_str := liftM (index (stx_signatures transaction) 0) in
      let* sent_at := now in
      let* updated := try_ (partial_update (tx_id tx)
        (upd_with_hashes (tx_hashes tx ++ [signature_str])
           (upd_with_sent_at (Some (to_rfc3339 sent_at)) (upd_with_status Submitted)))) in
      let updated_tx := match updated with Ok tx => tx | Err _ => tx end in
      do* safely (notify relayer updated_tx) in
      retM updated_tx
  end.

Definition resubmit_transaction_impl (tx : TransactionRepoModel) : P TransactionRepoModel :=
  if negb (is_submittable tx) then retM tx
  else
  let* transaction := ok (decode_solana_transaction tx) in
  let* fresh_blockhash := solana_call solana_get_latest_blockhash in
  let transaction := set_blockhash fresh_blockhash transaction in
  let* signature := sign_message transaction in
  let* transaction := liftM (set_first_signature signature transaction) in
  let* encoded := encoded transaction in
  let* sent_at := now in
  let update_request :=
    upd_with_hashes (tx_hashes tx ++ [signature])
      (upd_with_sent_at (Some (to_rfc3339 sent_at))
         (upd_with_solana_data
            {| sol_transaction := Some encoded; sol_instructions := None;
               sol_signature := Some signature |} (upd_with_status Submitted))) in
  let* sent := try_ (send_transaction transaction) in
  match sent with
  | Err e => if is_already_processed e then retM tx else send_failed tx e
  | Ok _ =>
      let* updated := try_ (partial_update (tx_id tx) update_request) in
      retM (match updated with Ok tx => tx | Err _ => tx end)
  end.

Definition validate_transaction (tx : TransactionRepoModel) : P bool :=
  let* transaction := ok (decode_solana_transaction tx) in
  do* validate_transaction_impl transaction in
  retM true.

(** ** [status.rs] *)

Definition unexpected {A} (c : M (W S C) RepositoryError.t A) : T S C A :=
  map_errM (fun e => TransactionError.UnexpectedError (repository_error_display e)) c.

Definition check_onchain_transaction_status (tx : TransactionRepoModel)
  : T S C TransactionStatus :=
  match tx_status tx with
  | Pending | Sent => retM (tx_status tx)
  | _ =>
      let* solana_data := liftM (get_solana_transaction_data (tx_network_data tx)) in
      let* signature_str := liftM (ok_or (sol_signature solana_data)
        (TransactionError.ValidationError "Transaction signature is missing")) in
      let* signature := liftM (result_map_err
        (fun e => TransactionError.ValidationError ("Invalid signature format: " +:+ e))
        (signature_from_str signature_str)) in
      let* r := try_ (get_transaction_status signature) in
      match r with
      | Ok solana_status => retM (map_solana_status_to_transaction_status solana_status)
      | Err _ => retM (tx_status tx)
      end
  end.

Definition update_transaction_status_and_send_notification (tx : TransactionRepoModel)
    (new_status : TransactionStatus) (network_data : option SolanaTransactionData)
  : T S C TransactionRepoModel :=
  let* confirmed_at :=
    if status_eqb new_status Confirmed then let* t := now in retM (Some (to_rfc3339 t))
    else retM None in
  let u := upd_with_confirmed_at confirmed_at (upd_with_status new_status) in
  let* updated_tx := unexpected (partial_update_r (tx_id tx)
    (match network_data with Some d => upd_with_solana_data d u | None => u end)) in
  do* notify relayer updated_tx in
  retM updated_tx.

Definition update_transaction_status_if_needed (tx : TransactionRepoModel)
    (new_status : TransactionStatus) : T S C TransactionRepoModel :=
  if negb (status_eqb (tx_status tx) new_status) then
    update_transaction_status_and_send_notification tx new_status None
  else retM tx.

Definition get_time_since_sent_or_created_at (tx : TransactionRepoModel) : T S C (option Z) :=
  match parse_rfc3339 (default (tx_created_at tx) (tx_sent_at tx)) with
  | Some dt => let* n := now in retM (Some (n - dt))
  | None => retM None
  end.

Definition mark_as_expired (tx : TransactionRepoModel) (reason : string)
  : T S C TransactionRepoModel :=
  unexpected (partial_update_r (tx_id tx)
    (upd_with_reason (Some reason) (upd_with_status Expired))).

Definition mark_as_failed (tx : TransactionRepoModel) (reason : string)
  : T S C TransactionRepoModel :=
  let* updated_tx := unexpected (partial_update_r (tx_id tx)
    (upd_with_reason (Some reason) (upd_with_status Failed))) in
  do* notify relayer updated_tx in
  retM updated_tx.

Definition is_valid_until_expired (tx : TransactionRepoModel) : T S C bool :=
  match tx_valid_until tx ≫= parse_rfc3339 with
  | Some valid_until => let* n := now in retM (valid_until <? n)
  | None =>
      match parse_rfc3339 (tx_created_at tx) with
      | Some created_at =>
          let* n := now in
          retM (created_at + milliseconds SOLANA_DEFAULT_TX_VALID_TIMESPAN <? n)
      | None => retM false
      end
  end.

Definition missing_timestamps : TransactionError.t :=
  TransactionError.UnexpectedError "Both sent_at and created_at are missing or invalid".

Definition has_exceeded_timeout (tx : TransactionRepoModel) : T S C bool :=
  let* age := get_time_since_sent_or_created_at tx in
  let* age := liftM (ok_or age missing_timestamps) in
  match tx_status tx with
  | Pending => retM (minutes SOLANA_PENDING_TIMEOUT_MINUTES <=? age)
  | Sent => retM (minutes SOLANA_SENT_TIMEOUT_MINUTES <=? age)
  | _ => retM false
  end.

(** [Duration::num_seconds] *)
Definition num_seconds (d : Z) : Z := Z.quot d (10 ^ 9).

Definition handle_pending_status (tx : TransactionRepoModel) : T S C TransactionRepoModel :=
  let* expired := is_valid_until_expired tx in
  if expired then mark_as_expired tx "Transaction valid_until timestamp has expired"
  else
  let* exceeded := has_exceeded_timeout tx in
  if exceeded then
    mark_as_failed tx ("Transaction stuck in Pending status for more than " +:+
                       print_dec SOLANA_PENDING_TIMEOUT_MINUTES +:+ " minutes")
  else
  let* age := get_time_since_sent_or_created_at tx in
  let* age := liftM (ok_or age missing_timestamps) in
  if SOLANA_PENDING_RECOVERY_TRIGGER_SECONDS <=? num_seconds age then
    do* produce_or "enqueue transaction request job"
          (JRequest (transaction_request (tx_id tx) (tx_relayer_id tx)) None) in
    retM tx
  else retM tx.

Fixpoint check_signatures (hashes : list string)
  : T S C (option (string * SolanaTransactionStatus)) :=
  match hashes with
  | [] => retM None
  | sig_str :: rest =>
      match signature_from_str sig_str with
      | Err _ => check_signatures rest
      | Ok signature =>
          let* r := try_ (get_transaction_status signature) in
          match r with
          | Ok solana_status => retM (Some (sig_str, solana_status))
          | Err _ => check_signatures rest
          end
      end
  end.

Definition check_any_signature_on_chain (tx : TransactionRepoModel)
  : T S C (option (string * SolanaTransactionStatus)) := check_signatures (tx_hashes tx).

Definition is_blockhash_valid (transaction : SolanaTransaction) : T S C bool :=
  let blockhash := msg_recent_blockhash (stx_message transaction) in
  let* r := try_ (call (fun t => solana_is_blockhash_valid t blockhash)) in
  match r with
  | Ok is_valid => retM is_valid
  | Err e =>
      if is_blockhash_not_found e then retM false
      else failM (TransactionError.UnderlyingSolanaProvider e)
  end.

(** The attempt limit of a submitted transaction, the time limit of the others: the reason to
    give up, if there is one. *)
Definition give_up_reason (tx : TransactionRepoModel) : T S C (option string) :=
  if status_eqb (tx_status tx) Submitted then
    if too_many_solana_attempts tx then
      retM (Some ("Transaction exceeded maximum resubmission attempts (" +:+
                  print_dec (Z.of_nat (length (tx_hashes tx))) +:+ " > " +:+
                  print_dec MAXIMUM_SOLANA_TX_ATTEMPTS +:+ ")"))
    else retM None
  else
    let* exceeded := has_exceeded_timeout tx in
    if exceeded then
      let timeout_minutes := match tx_status tx with
                             | Pending => SOLANA_PENDING_TIMEOUT_MINUTES
                             | Sent => SOLANA_SENT_TIMEOUT_MINUTES
                             | _ => 0
                             end in
      retM (Some ("Transaction stuck in " +:+ status_name (tx_status tx) +:+
                  " status for more than " +:+ print_dec timeout_minutes +:+ " minutes"))
    else retM None.

(** Steps 5 to 7: the blockhash, and the resubmission of a transaction it has expired for. *)
Definition resubmit_if_expired (tx : TransactionRepoModel) : T S C TransactionRepoModel :=
  let* transaction := liftM (decode_solana_transaction tx) in
  let* blockhash_valid := is_blockhash_valid transaction in
  if blockhash_valid then retM tx
  else if is_resubmitable transaction then
    do* produce_or "enqueue resubmit job"
          (JSend (send_resubmit (tx_id tx) (tx_relayer_id tx)) None) in
    retM tx
  else
    mark_as_expired tx ("Blockhash expired and transaction requires " +:+
      print_dec (mh_num_required_signatures (msg_header (stx_message transaction))) +:+
      " signatures (cannot resubmit)").

Definition handle_resubmit_or_expiration (tx : TransactionRepoModel)
  : T S C TransactionRepoModel :=
  let* expired := is_valid_until_expired tx in
  if expired then mark_as_expired tx "Transaction valid_until timestamp has expired"
  else
  let* reason := give_up_reason tx in
  match reason with
  | Some reason => mark_as_failed tx reason
  | None =>
      let* time_since_sent := get_time_since_sent_or_created_at tx in
      match time_since_sent with
      | None => retM tx
      | Some time_since_sent =>
          if num_seconds time_since_sent <? SOLANA_MIN_AGE_FOR_RESUBMIT_CHECK_SECONDS then retM tx
          else
          let* found := check_any_signature_on_chain tx in
          match found with
          | Some (found_signature, solana_status) =>
              let new_status := map_solana_status_to_transaction_status solana_status in
              let* solana_data := liftM (get_solana_transaction_data (tx_network_data tx)) in
              update_transaction_status_and_send_notification tx new_status
                (Some {| sol_transaction := sol_transaction solana_data;
                         sol_instructions := sol_instructions solana_data;
                         sol_signature := Some found_signature |})
          | None => resubmit_if_expired tx
          end
      end
  end.

Definition solana_circuit_breaker_reason (tx : TransactionRepoModel) (ctx : StatusCheckContext)
  : string :=
  "Transaction status monitoring failed after " +:+ print_dec (ctx_consecutive_failures ctx) +:+
  " consecutive errors (total: " +:+ print_dec (ctx_total_failures ctx) +:+
  "). Last status: " +:+ status_name (tx_status tx) +:+
  ". Unable to determine final on-chain state.".

Definition status_flow (tx : TransactionRepoModel) : T S C TransactionRepoModel :=
  let* detected_status := check_onchain_transaction_status tx in
  let* tx := if negb (status_eqb (tx_status tx) detected_status)
             then repo (repo_get_by_id (tx_id tx)) else retM tx in
  match detected_status with
  | Pending => handle_pending_status tx
  | Sent | Submitted => handle_resubmit_or_expiration tx
  | Mined | Confirmed | Failed | Canceled | Expired =>
      update_transaction_status_if_needed tx detected_status
  end.

Definition handle_transaction_status_impl (tx : TransactionRepoModel)
    (context : option StatusCheckContext) : T S C TransactionRepoModel :=
  if is_final_state (tx_status tx) then retM tx
  else
  match context with
  | Some ctx =>
      if should_force_finalize ctx then mark_as_failed tx (solana_circuit_breaker_reason tx ctx)
      else status_flow tx
  | None => status_flow tx
  end.

(** The [Transaction] trait of [NetworkTransaction::Solana]: cancellation and replacement are
    refused before they reach the Solana code. *)
Definition solana_not_supported_transaction {A} : P A :=
  failM (Raise (TransactionError.NotSupported "Endpoint is not supported for Solana relayers")).

Definition run_solana (h : handler) (tx : TransactionRepoModel) : P TransactionRepoModel :=
  match h with
  | HPrepare => prepare_transaction_impl tx
  | HSubmit => submit_transaction_impl tx
  | HResubmit => resubmit_transaction_impl tx
  | HStatus ctx => safely (handle_transaction_status_impl tx ctx)
  | HCancel => solana_not_supported_transaction
  | HReplace _ => solana_not_supported_transaction
  end.
End Solana.
