(* ===== verification/SolanaSample.v ===== *)
(** * A sample Solana world

    Concrete values for the Solana theorems: an instance of [SolanaSdk] whose binary codec is
    a pairing function, a token program, a node and a signer that answer with chosen values,
    a relayer and its transactions. *)

From S2P Require Import Prelude Decimal Errors Model Config StellarXdr SolanaSdk Repository.
From S2P Require Import Counter Jobs Effects Sample EvmUtils Lifecycle JobHandlers.
From S2P Require Import SolanaValidator Solana.
Open Scope Z_scope.

(** ** A codec *)

(** A transaction as nested pairs, for which [Countable] provides a numbering. *)
Definition plain_instruction (i : CompiledInstruction) : Z * list Z * list N :=
  (ci_program_id_index i, ci_accounts i, Byte.to_N <$> ci_data i).

Definition of_plain_instruction (p : Z * list Z * list N) : CompiledInstruction :=
  {| ci_program_id_index := p.1.1; ci_accounts := p.1.2;
     ci_data := default Byte.x00 ∘ Byte.of_N <$> p.2 |}.

Definition plain_transaction (t : SolanaTransaction) :=
  let m := stx_message t in let h := msg_header m in
  (stx_signatures t,
   (mh_num_required_signatures h, mh_num_readonly_signed_accounts h,
    mh_num_readonly_unsigned_accounts h),
   msg_account_keys m, msg_recent_blockhash m, plain_instruction <$> msg_instructions m).

Definition of_plain_transaction (p : list string * (Z * Z * Z) * list string * string *
    list (Z * list Z * list N)) : SolanaTransaction :=
  let '(sigs, (a, b, c), keys, blockhash, ixs) := p in
  {| stx_signatures := sigs;
     stx_message :=
       {| msg_header := {| mh_num_required_signatures := a; mh_num_readonly_signed_accounts := b;
                           mh_num_readonly_unsigned_accounts := c |};
          msg_account_keys := keys; msg_recent_blockhash := blockhash;
          msg_instructions := of_plain_instruction <$> ixs |} |}.

Lemma of_plain_inverse t : of_plain_transaction (plain_transaction t) = t.
Proof.
  destruct t as [sigs [[a b c] keys bh ixs]]. unfold of_plain_transaction, plain_transaction. simpl.
  f_equal. f_equal. rewrite <- list_fmap_compose. rewrite <- (list_fmap_id ixs) at 2.
  apply list_fmap_ext. intros _ [p accs data] _. unfold of_plain_instruction, plain_instruction. simpl.
  f_equal. rewrite <- list_fmap_compose. rewrite <- (list_fmap_id data) at 2.
  apply list_fmap_ext. intros _ b' _. simpl. by rewrite Byte.of_to_N.
Qed.

Fixpoint bits_of (p : positive) : list Byte.byte :=
  match p with
  | xH => []
  | xO p' => Byte.x00 :: bits_of p'
  | xI p' => Byte.x01 :: bits_of p'
  end.

Fixpoint of_bits (l : list Byte.byte) : positive :=
  match l with
  | [] => xH
  | b :: l' => if Byte.eqb b Byte.x00 then xO (of_bits l') else xI (of_bits l')
  end.

Lemma of_bits_of p : of_bits (bits_of p) = p.
Proof. induction p; simpl; congruence. Qed.

Definition sample_serialize (t : SolanaTransaction) : result string (list Byte.byte) :=
  Ok (bits_of (encode (plain_transaction t))).

Definition sample_deserialize (l : list Byte.byte) : result string SolanaTransaction :=
  match decode (of_bits l) with
  | Some p => Ok (of_plain_transaction p)
  | None => Err "invalid transaction"%string
  end.

(** ** The libraries *)

(** Tag 3 is a transfer, tag 12 a checked one with the decimals first; the amount follows,
    least significant byte first. *)
Fixpoint little_endian (l : list Byte.byte) : Z :=
  match l with [] => 0 | b :: l' => Z.of_N (Byte.to_N b) + 256 * little_endian l' end.

Definition sample_token_instruction (data : list Byte.byte) : result string TokenInstruction :=
  match data with
  | Byte.x03 :: amount => Ok (Transfer (little_endian amount))
  | Byte.x0c :: decimals :: amount =>
      Ok (TransferChecked (little_endian amount) (Z.of_N (Byte.to_N decimals)))
  | [] => Err "empty"%string
  | _ => Ok OtherInstruction
  end.

Definition sample_program (id : Pubkey) : TokenProgram :=
  {| tp_id := id;
     tp_unpack_instruction := sample_token_instruction;
     tp_unpack_account := fun data => Ok {| ta_mint := "Mint"; ta_owner := "Owner";
       ta_amount := little_endian data; ta_is_frozen := false |} |}.

(** The layout of the account keys: signers first, writable before readonly in both parts. *)
Definition sample_is_signer (m : Message) (i : nat) : bool :=
  Z.of_nat i <? mh_num_required_signatures (msg_header m).

Definition sample_is_writable (m : Message) (i : nat) : bool :=
  let h := msg_header m in
  let n := mh_num_required_signatures h in
  (Z.of_nat i <? n - mh_num_readonly_signed_accounts h) ||
  ((n <=? Z.of_nat i) &&
   (Z.of_nat i <? Z.of_nat (length (msg_account_keys m)) - mh_num_readonly_unsigned_accounts h)).

(** A transaction of the relayer with one instruction, for the program "Memo". *)
Definition sample_solana_tx (sig : Signature) (payer : Pubkey) (blockhash : Hash) : SolanaTransaction :=
  {| stx_signatures := [sig];
     stx_message :=
       {| msg_header := {| mh_num_required_signatures := 1; mh_num_readonly_signed_accounts := 0;
                           mh_num_readonly_unsigned_accounts := 1 |};
          msg_account_keys := [payer; "Memo"%string]; msg_recent_blockhash := blockhash;
          msg_instructions := [ {| ci_program_id_index := 1; ci_accounts := []; ci_data := [] |} ] |} |}.

Definition sample_solana_sdk : SolanaSdk :=
  {| pubkey_parse_error :=
       fun s => if str_contains s " " then Some "Invalid Base58 string"%string else None;
     signature_parse_error := fun _ => None;
     default_pubkey := "Default";
     bincode_serialize := sample_serialize;
     bincode_deserialize := sample_deserialize;
     base64_encode := String.string_of_list_byte;
     base64_decode := fun s => Ok (String.list_byte_of_string s);
     message_data := fun m => String.list_byte_of_string (msg_recent_blockhash m);
     new_with_payer := fun _ payer => sample_solana_tx "none" payer "none";
     is_signer := sample_is_signer;
     is_maybe_writable := sample_is_writable;
     spl_token := sample_program "Token";
     spl_token_2022 := sample_program "Token2022" |}.

Lemma sample_solana_laws : SolanaSdkLaws (H := sample_solana_sdk).
Proof.
  split.
  - intros t b [= <-]. simpl. unfold sample_deserialize. by rewrite of_bits_of, decode_encode, of_plain_inverse.
  - intros b. simpl. by rewrite String.list_byte_of_string_of_list_byte.
Qed.

(** ** The node and the relayer *)

(** The node's blockhash, whether the blockhash of a transaction is still accepted, the answer
    to a broadcast, and what is known of a signature.  The signature of a message names its
    blockhash. *)
Definition sample_solana_env (blockhash : Hash) (accepted : bool)
    (send : result SolanaProviderError.t Signature)
    (statuses : Signature -> result SolanaProviderError.t (list (option SignatureStatus)))
  : SolanaEnv :=
  {| solana_get_latest_blockhash := fun _ => Ok blockhash;
     solana_is_blockhash_valid := fun _ _ => Ok accepted;
     solana_send_transaction := fun _ _ => send;
     solana_signature_statuses := fun _ => statuses;
     solana_simulate_transaction := fun _ _ => Ok {| rsim_err := None; rsim_logs := None;
                                                     rsim_units_consumed := Some 150 |};
     solana_get_balance := fun _ _ => Ok (10 ^ 9);
     solana_get_account := fun _ _ => Ok [Byte.x0a];
     solana_get_fee_for_message := fun _ _ => Ok 5000;
     solana_recent_prioritization_fees := fun _ => Ok [10; 20];
     solana_sign := fun _ data => Ok (String.app "sig-" (String.string_of_list_byte data));
     join_winner := fun _ => 0%nat |}.

Definition solana_relayer (policy : RelayerSolanaPolicy) : RelayerRepoModel :=
  {| rel_id := "solana"; rel_name := "solana"; rel_network := "devnet"; rel_paused := false;
     rel_network_type := NtSolana; rel_signer_id := "signer"; rel_policies := SolanaPolicy policy;
     rel_address := "Relayer"; rel_notification_id := None; rel_system_disabled := false;
     rel_disabled_reason := None; rel_custom_rpc_urls := None |}.

(** The numbering of the sample codec is longer than [bincode]'s. *)
Definition sample_policy : RelayerSolanaPolicy :=
  {| slpol_allowed_programs := Some ["Memo"; "Token"]%string; slpol_max_signatures := Some 1;
     slpol_max_tx_data_size := Some 4096; slpol_min_balance := None;
     slpol_allowed_tokens := Some [ {| slt_mint := "Mint"; slt_decimals := Some 6;
                                       slt_max_allowed_fee := Some 5 |} ];
     slpol_allowed_accounts := Some ["Relayer"; "Memo"; "Token"; "User"; "Source"; "Treasury"]%string;
     slpol_disallowed_accounts := Some ["Blocked"]%string;
     slpol_max_allowed_fee_lamports := Some 10000 |}.

(** Created at 1 second. *)
Definition solana_tx (id : string) (status : TransactionStatus) (hashes : list string)
    (d : SolanaTransactionData) : TransactionRepoModel :=
  {| tx_id := id; tx_relayer_id := "solana"; tx_status := status; tx_status_reason := None;
     tx_created_at := "1000000000"; tx_sent_at := None; tx_confirmed_at := None;
     tx_valid_until := None; tx_delete_at := None; tx_network_data := SolanaData d;
     tx_priced_at := None; tx_hashes := hashes; tx_network_type := NtSolana;
     tx_noop_count := None; tx_is_canceled := Some false; tx_metadata := None |}.

Definition with_instructions : SolanaTransactionData :=
  {| sol_transaction := None;
     sol_instructions := Some [ {| sis_program_id := "Memo"; sis_accounts := []; sis_data := "" |} ];
     sol_signature := None |}.

Definition unknown_signature : Signature -> result SolanaProviderError.t (list (option SignatureStatus)) :=
  fun _ => Ok [None].

(** Nothing is assumed of the EVM node. *)
Definition clock_at (t : Z) : Env := sample_env t (fun _ => Ok None) 0 0 (Ok "0x"%string).

(** A token transfer from "Source" to "Treasury", signed by the user; the relayer pays the fee. *)
Definition sample_transfer (amount : list Byte.byte) : CompiledInstruction :=
  {| ci_program_id_index := 4; ci_accounts := [2; 3; 1]; ci_data := Byte.x03 :: amount |}.

Definition sample_token_tx (instructions : list CompiledInstruction) : SolanaTransaction :=
  {| stx_signatures := ["none"; "none"]%string;
     stx_message :=
       {| msg_header := {| mh_num_required_signatures := 2; mh_num_readonly_signed_accounts := 1;
                           mh_num_readonly_unsigned_accounts := 1 |};
          msg_account_keys := ["Relayer"; "User"; "Source"; "Treasury"; "Token"]%string;
          msg_recent_blockhash := "H0"; msg_instructions := instructions |} |}.

(** ** Runs *)

Abbreviation sol_world := (World InMemory.state (gmap CounterKey Z)).

Definition sol_empty : sol_world := sample_world [] ∅.
Definition sol_request : TransactionRepoModel := solana_tx "tx1" Pending [] with_instructions.
Definition sol_stored (w : sol_world) : TransactionRepoModel :=
  default sol_request (InMemory.store (w_repo w) !! "tx1"%string).

Section Run.
Context (at_time : Z) (node : SolanaEnv) (policy : RelayerSolanaPolicy).
#[local] Existing Instances sample_chrono sample_config sample_order sample_solana_sdk.
#[local] Instance run_env : Env := clock_at at_time.
#[local] Instance run_node : SolanaEnv := node.

(** A handler on the stored version of the transaction, with a clock and a node. *)
Definition sol_run (h : handler) (w : sol_world) : sol_world :=
  snd (run_solana (solana_relayer policy) h (sol_stored w) w).

Definition sol_intake (w : sol_world) : sol_world := snd (repo_call (repo_create sol_request) w).
End Run.
