(* ===== verification/SolanaProperties.v ===== *)
(** * The lifecycle of Solana transactions

    What the handlers of [Solana] do to the stored transactions, whatever the node, the signer
    and the queue answer.  A handler updates the transaction it is for at most once;
    [solana_next] says where that update may lead.  Then, runs of the handlers in any order,
    and the conditions under which a resubmission is queued. *)

From S2P Require Import Prelude Decimal Errors Model Config StellarXdr SolanaSdk Repository.
From S2P Require Import Counter Jobs Effects Sample EvmUtils EvmTransaction EvmStatus Lifecycle.
From S2P Require Import JobHandlers SolanaValidator Solana SolanaSample.
Open Scope Z_scope.

(** ** Programs that only read, sign and notify *)

Section Passive.
Context `{Chrono} `{ServerConfig} `{Env} `{SolanaSdk} `{SolanaEnv}.
Context {S C : Type} `{!TransactionRepository S} `{!TransactionCounter C}.

(** A relation between worlds that reads and notifications respect. *)
Class Passive (R : W S C -> W S C -> Prop) : Prop := {
  passive_preorder :: PreOrder R;
  passive_ask : forall E A (f : nat -> A), preserves R (ask (E := E) f);
  passive_call : forall E A (f : nat -> result E A), preserves R (call f);
  passive_notification : forall n tx, preserves R (produce (JNotification n tx));
  passive_get_by_id : forall id, preserves R (repo_call (repo_get_by_id id));
}.

Lemma passive_now {E} R `{!Passive R} : preserves R (now (E := E)).
Proof. apply passive_ask. Qed.

#[global] Instance same_view_passive : Passive (same_view (S := S) (C := C)).
Proof. split; intros; [exact _|preserve..]. Qed.

Lemma same_view_send t : preserves (same_view (S := S) (C := C)) (send_transaction t).
Proof. by intros []. Qed.
End Passive.
#[export] Hint Resolve passive_ask passive_call passive_now passive_notification passive_get_by_id
  same_view_send : preserves_db.
#[export] Hint Extern 0 (Passive _) => exact _ : preserves_db.

Section Readers.
Context `{Chrono} `{ServerConfig} `{Env} `{SolanaSdk} `{SolanaEnv}.
Context {S C : Type} `{!TransactionRepository S} `{!TransactionCounter C}.
Context (relayer : RelayerRepoModel).
Context (R : W S C -> W S C -> Prop) `{!Passive R}.

Lemma passive_notify tx : preserves R (notify relayer tx).
Proof. unfold notify, send_transaction_update_notification. preserve. Qed.
Lemma passive_total_fee m : preserves R (calculate_total_fee m).
Proof. unfold calculate_total_fee. preserve. Qed.
Lemma passive_status s : preserves R (get_transaction_status s).
Proof. unfold get_transaction_status. preserve. Qed.
Lemma passive_blockhash t : preserves R (validate_blockhash t).
Proof. unfold validate_blockhash, provider_call. preserve. Qed.
Lemma passive_balance f a p : preserves R (validate_sufficient_relayer_balance f a p).
Proof. unfold validate_sufficient_relayer_balance, provider_call. preserve. Qed.
Lemma passive_simulate t : preserves R (simulate_transaction t).
Proof. unfold simulate_transaction, provider_call. preserve. Qed.
Lemma passive_source l p i a s d r : preserves R (check_source l p i a s d r).
Proof. unfold check_source, violation, invalid. preserve. Qed.
Hint Resolve passive_source : preserves_db.
Lemma passive_transfer m l r p i t a s : preserves R (check_transfer m l r p i t a s).
Proof. unfold check_transfer, violation, invalid, at_index. preserve. Qed.
Lemma passive_others m r l : preserves R (check_other_accounts m r l).
Proof. induction l; simpl; unfold violation; preserve. Qed.
Hint Resolve passive_transfer passive_others : preserves_db.
Lemma passive_token m l r s i : preserves R (check_token_instruction m l r s i).
Proof. unfold check_token_instruction, at_index. preserve. Qed.
Lemma passive_totals b l : preserves R (check_totals b l).
Proof. induction l as [|[]]; simpl; unfold invalid; preserve. Qed.
Hint Resolve passive_token passive_totals : preserves_db.
Lemma passive_tokens t p r : preserves R (validate_token_transfers t p r).
Proof. unfold validate_token_transfers. preserve. Qed.
Hint Resolve passive_total_fee passive_blockhash passive_balance passive_simulate passive_tokens
  : preserves_db.
Lemma passive_join (sync : P (S := S) (C := C) unit) futures :
  preserves R sync -> Forall (preserves R) futures -> preserves R (try_join sync futures).
Proof.
  intros Hs Hf. unfold try_join. apply preserves_bind; [exact _|done|]. intros _.
  apply preserves_bind; [exact _| |intros ?; preserve]. apply preserves_foldM_in; [exact _|].
  intros acc c Hc. rewrite Forall_forall in Hf. specialize (Hf c Hc). preserve.
Qed.
Lemma passive_fees t p : preserves R (fee_validations relayer t p).
Proof. unfold fee_validations, validation. preserve. Qed.
Hint Resolve passive_fees : preserves_db.
Lemma passive_validate t : preserves R (validate_transaction_impl relayer t).
Proof.
  unfold validate_transaction_impl, ok, validation. apply preserves_bind; [exact _|preserve|].
  intros k. apply passive_join; [preserve|]. repeat constructor; preserve.
Qed.
Lemma passive_build d : preserves R (prepare_build relayer d).
Proof. unfold prepare_build, ok, solana_call. preserve. Qed.
Lemma passive_sign t : preserves R (sign_message t).
Proof. unfold sign_message. preserve. Qed.
Lemma passive_encoded t : preserves R (encoded t).
Proof. unfold encoded, ok. preserve. Qed.
Lemma passive_onchain tx : preserves R (check_onchain_transaction_status tx).
Proof. unfold check_onchain_transaction_status, get_transaction_status. preserve. Qed.
Lemma passive_time tx : preserves R (get_time_since_sent_or_created_at tx).
Proof. unfold get_time_since_sent_or_created_at. preserve. Qed.
Hint Resolve passive_time : preserves_db.
Lemma passive_expired tx : preserves R (is_valid_until_expired tx).
Proof. unfold is_valid_until_expired. preserve. Qed.
Lemma passive_timeout tx : preserves R (has_exceeded_timeout tx).
Proof. unfold has_exceeded_timeout. preserve. Qed.
Hint Resolve passive_timeout : preserves_db.
Lemma passive_signatures l : preserves R (check_signatures l).
Proof. induction l; simpl; unfold get_transaction_status; preserve. Qed.
Lemma passive_valid t : preserves R (is_blockhash_valid t).
Proof. unfold is_blockhash_valid. preserve. Qed.
Lemma passive_give_up tx : preserves R (give_up_reason tx).
Proof. unfold give_up_reason. preserve. Qed.
End Readers.
#[export] Hint Resolve passive_notify passive_status passive_validate passive_build passive_sign
  passive_encoded passive_onchain passive_time passive_expired passive_timeout passive_signatures
  passive_valid passive_give_up : preserves_db.

(** ** Programs that update a transaction at most once *)

Section Moves.
Context `{Chrono} `{ServerConfig} `{Env} `{SolanaSdk} `{SolanaEnv}.
Context {S C : Type} `{!TransactionRepository S} `{!TransactionCounter C}.
Context (t : TransactionRepoModel) (U : TransactionRepoModel -> Prop).

(** Run where [t] is stored, the program leaves the store alone or turns [t] into a [U]. *)
Definition moves {E A} (c : M (W S C) E A) : Prop := forall w,
  view w !! tx_id t = Some t ->
  view (snd (c w)) = view w \/
  exists t', U t' /\ view (snd (c w)) = <[tx_id t := t']> (view w).

Lemma moves_passive {E A} (c : M (W S C) E A) : preserves same_view c -> moves c.
Proof. intros Hc w _. left. apply Hc. Qed.

Lemma moves_bind_ensures {E A B} (Q : A -> Prop) (c : M (W S C) E A) (k : A -> M (W S C) E B) :
  preserves same_view c -> ensures Q c -> (forall a, Q a -> moves (k a)) -> moves (bindM c k).
Proof.
  intros Hc HQ Hk w Hw. unfold bindM. specialize (Hc w). specialize (HQ w). unfold same_view in Hc.
  destruct (c w) as [[a|e] w1]; simpl in *; [|by left]. rewrite <- Hc in Hw |- *.
  by apply (Hk a (HQ a w1 eq_refl)).
Qed.

Lemma moves_bind {E A B} (c : M (W S C) E A) (k : A -> M (W S C) E B) :
  preserves same_view c -> (forall a, moves (k a)) -> moves (bindM c k).
Proof. intros Hc Hk. by apply (moves_bind_ensures (fun _ => True)). Qed.

Lemma moves_lift {E A B} (r : result E A) (k : A -> M (W S C) E B) :
  (forall a, r = Ok a -> moves (k a)) -> moves (bindM (liftM r) k).
Proof.
  intros Hk. apply (moves_bind_ensures (fun a => r = Ok a)); [preserve| |done].
  by intros w a w' [= -> _].
Qed.

Lemma moves_then {E A B} (c : M (W S C) E A) (k : A -> M (W S C) E B) :
  moves c -> (forall a, preserves same_view (k a)) -> moves (bindM c k).
Proof.
  intros Hc Hk w Hw. unfold bindM. specialize (Hc w Hw). destruct (c w) as [[a|e] w1]; [|done].
  simpl in Hc. by rewrite (Hk a w1).
Qed.

Lemma moves_bind_ret {E A B} (a : A) (k : A -> M (W S C) E B) :
  moves (k a) -> moves (bindM (retM a) k).
Proof. done. Qed.

Lemma moves_try {E E' A} (c : M (W S C) E A) : moves c -> moves (try_ (E' := E') c).
Proof. intros Hc w Hw. specialize (Hc w Hw). unfold try_. by destruct (c w). Qed.

Lemma moves_map_err {E E' A} (f : E -> E') (c : M (W S C) E A) : moves c -> moves (map_errM f c).
Proof. intros Hc w Hw. specialize (Hc w Hw). unfold map_errM. by destruct (c w). Qed.

Lemma moves_update u :
  is_final_state (tx_status t) = false -> (forall n, U (apply_partial_update n u t)) ->
  moves (partial_update_r (tx_id t) u).
Proof.
  intros Hf HU. unfold partial_update_r. apply moves_bind; [preserve|]. intros n w Hw.
  unfold repo_call. pose proof (repo_partial_update_spec n (tx_id t) u (w_repo w)) as Hs.
  unfold wp in Hs. destruct (repo_partial_update n (tx_id t) u (w_repo w)) as [r s']. simpl in *.
  rewrite view_set_repo. fold (view w) in Hs.
  destruct Hs as [(t1 & t2 & Hl & Hr & Hs & _)|[Hs _]]; [right|by left].
  rewrite Hw in Hl. simplify_eq. destruct Hr as [->|[Hf' _]]; [|congruence]. eauto.
Qed.

Lemma moves_reload {B} (k : TransactionRepoModel -> T S C B) :
  moves (k t) -> moves (bindM (repo (repo_get_by_id (tx_id t))) k).
Proof.
  intros Hk w Hw. pose proof (repo_get_by_id_spec (tx_id t) (w_repo w)) as Hs. unfold wp in Hs.
  unfold bindM, repo, map_errM, repo_call. destruct (repo_get_by_id _ _) as [[a|e] s']; simpl in *.
  - destruct Hs as [Hv Ha]. specialize (Ha a eq_refl). fold (view w) in Ha, Hv.
    rewrite Hw in Ha. injection Ha as <-.
    assert (Hv' : view (set_repo s' w) = view w) by by rewrite view_set_repo.
    rewrite <- Hv' in Hw |- *. by apply Hk.
  - left. rewrite view_set_repo. apply Hs.
Qed.
End Moves.

(** ** Where a transaction may go *)

Definition solana_targets (s : TransactionStatus) : list TransactionStatus :=
  match s with
  | Pending => [Pending; Sent; Failed; Expired]
  | Sent => [Sent; Submitted; Failed; Expired]
  | Submitted => [Submitted; Mined; Confirmed; Failed; Expired]
  | Mined => [Mined; Confirmed; Failed]
  | _ => [s]
  end.

Section Next.
Context `{Chrono} `{ServerConfig} `{SolanaSdk}.

(** The stored transaction carries the signature it is stored with. *)
Definition signed (t : TransactionRepoModel) : Prop :=
  exists d encoded x s, tx_network_data t = SolanaData d /\ sol_transaction d = Some encoded /\
    decode_transaction encoded = Ok x /\ head (stx_signatures x) = Some s /\
    sol_signature d = Some s.

(** The signature the status is looked up by is among the recorded ones. *)
Definition tracked (t : TransactionRepoModel) : Prop :=
  exists d s, tx_network_data t = SolanaData d /\ sol_signature d = Some s /\ s ∈ tx_hashes t.

Definition solana_ok (t : TransactionRepoModel) : Prop :=
  match tx_status t with
  | Pending => tx_hashes t = []
  | Sent => tx_hashes t = [] /\ signed t
  | Submitted => signed t /\ tracked t
  | Mined | Confirmed => tracked t
  | _ => True
  end.

Record solana_next (t t' : TransactionRepoModel) : Prop := {
  sn_id : tx_id t' = tx_id t;
  sn_relayer : tx_relayer_id t' = tx_relayer_id t;
  sn_created : tx_created_at t' = tx_created_at t;
  sn_valid_until : tx_valid_until t' = tx_valid_until t;
  sn_to : tx_status t' ∈ solana_targets (tx_status t);
  sn_hashes : tx_hashes t' = tx_hashes t \/
    (exists s, tx_hashes t' = tx_hashes t ++ [s] /\ tx_status t' = Submitted);
  sn_ok : solana_ok t';
}.

(** Updates that only change the status and its reason. *)
Lemma next_finish t s r n :
  s = Failed \/ s = Expired -> s ∈ solana_targets (tx_status t) ->
  solana_next t (apply_partial_update n (upd_with_reason r (upd_with_status s)) t).
Proof.
  intros Hs Hin. split; simpl; try done; [by left|]. unfold solana_ok. simpl. by destruct Hs as [->| ->].
Qed.

Lemma next_detected t s c n :
  tracked t -> s = Mined \/ s = Confirmed \/ s = Failed -> s ∈ solana_targets (tx_status t) ->
  solana_next t (apply_partial_update n (upd_with_confirmed_at c (upd_with_status s)) t).
Proof.
  intros Ht Hs Hin. split; simpl; try done; [by left|].
  unfold solana_ok. simpl. by destruct Hs as [->|[->| ->]].
Qed.

Lemma next_found t s c n d sig :
  sol_signature d = Some sig -> sig ∈ tx_hashes t ->
  s = Mined \/ s = Confirmed \/ s = Failed -> s ∈ solana_targets (tx_status t) ->
  solana_next t (apply_partial_update n
    (upd_with_solana_data d (upd_with_confirmed_at c (upd_with_status s))) t).
Proof.
  intros Hd Hsig Hs Hin. split; simpl; try done; [by left|].
  assert (Ht : tracked (apply_partial_update n
    (upd_with_solana_data d (upd_with_confirmed_at c (upd_with_status s))) t)) by (by exists d, sig).
  unfold solana_ok. simpl. by destruct Hs as [->|[->| ->]].
Qed.

Context `{!SolanaSdkLaws}.

Lemma next_prepared t n x sig encoded instructions :
  tx_status t = Pending -> tx_hashes t = [] -> head (stx_signatures x) = Some sig ->
  encode_transaction x = Ok encoded ->
  solana_next t (apply_partial_update n (upd_with_solana_data
    {| sol_transaction := Some encoded; sol_instructions := instructions;
       sol_signature := Some sig |} (upd_with_status Sent)) t).
Proof.
  intros Hp Hh Hx He. split; simpl; try done.
  - rewrite Hp. in_statuses.
  - by left.
  - split; [done|]. do 4 eexists. split_and!; [done|done|by apply transaction_roundtrip|done|done].
Qed.

Lemma next_submitted t n x sent_at sig :
  tx_status t = Sent \/ tx_status t = Submitted -> signed t ->
  decode_solana_transaction t = Ok x -> head (stx_signatures x) = Some sig ->
  solana_next t (apply_partial_update n
    (upd_with_hashes (tx_hashes t ++ [sig])
       (upd_with_sent_at sent_at (upd_with_status Submitted))) t).
Proof.
  intros Hs (d & e & x' & s & Hd & He & Hx' & Hh & Hsig) Hx Hhead. split; simpl; try done.
  - destruct Hs as [->| ->]; in_statuses.
  - right. eauto.
  - unfold decode_solana_transaction, decode_solana_transaction_from_string in Hx.
    rewrite Hd in Hx. simpl in Hx. rewrite He, Hx' in Hx. simpl in Hx. injection Hx as <-.
    rewrite Hh in Hhead. injection Hhead as <-. split.
    + by exists d, e, x', s.
    + exists d, s. simpl. split_and!; [done..|set_solver].
Qed.

Lemma next_resubmitted t n x sent_at sig encoded :
  tx_status t = Sent \/ tx_status t = Submitted ->
  head (stx_signatures x) = Some sig -> encode_transaction x = Ok encoded ->
  solana_next t (apply_partial_update n
    (upd_with_hashes (tx_hashes t ++ [sig])
       (upd_with_sent_at sent_at (upd_with_solana_data
          {| sol_transaction := Some encoded; sol_instructions := None;
             sol_signature := Some sig |} (upd_with_status Submitted)))) t).
Proof.
  intros Hs Hx He. split; simpl; try done.
  - destruct Hs as [->| ->]; in_statuses.
  - right. eauto.
  - split.
    + do 4 eexists. split_and!; [done|done|by apply transaction_roundtrip|done|done].
    + do 2 eexists. simpl. split_and!; [done..|set_solver].
Qed.
End Next.

(** ** The handlers *)

Section Handlers.
Context `{Chrono} `{ServerConfig} `{Env} `{SolanaSdk} `{SolanaEnv} `{!SolanaSdkLaws}.
Context {S C : Type} `{!TransactionRepository S} `{!TransactionCounter C}.
Context (relayer : RelayerRepoModel) (t : TransactionRepoModel) (Hok : solana_ok t).
Abbreviation N := (solana_next t).

Lemma result_map_err_ok {E E' A} (f : E -> E') (r : result E A) a :
  result_map_err f r = Ok a -> r = Ok a.
Proof. destruct r; simpl; [by intros [= ->]|done]. Qed.

Lemma head_of_set sig x x' :
  set_first_signature sig x = Ok x' -> head (stx_signatures x') = Some sig.
Proof. unfold set_first_signature. destruct (stx_signatures x); [done|]. by intros [= <-]. Qed.

Lemma encoded_ok (x : SolanaTransaction) :
  ensures (fun e => encode_transaction x = Ok e) (encoded (S := S) (C := C) x).
Proof.
  intros w a w'. unfold encoded, ok, liftM.
  destruct (encode_transaction x); simpl; [|done]. by intros [= -> _].
Qed.

(** An update of the status and its reason, with a notification. *)
Lemma moves_finish s r :
  is_final_state (tx_status t) = false -> s = Failed \/ s = Expired ->
  s ∈ solana_targets (tx_status t) ->
  moves (S := S) (C := C) t N (partial_update_r (tx_id t) (upd_with_reason r (upd_with_status s))).
Proof. intros Hf Hs Hin. apply moves_update; [done|]. intros n. by apply next_finish. Qed.

Lemma moves_fail e :
  is_final_state (tx_status t) = false ->
  moves (S := S) (C := C) t N (fail_transaction_with_notification relayer t e).
Proof.
  intros Hf. unfold fail_transaction_with_notification, mark_transaction_as_failed.
  apply moves_then; [|preserve]. apply moves_map_err, moves_finish; [done|by left|].
  destruct (tx_status t); try done; in_statuses.
Qed.

Lemma moves_mark_failed r :
  is_final_state (tx_status t) = false ->
  moves (S := S) (C := C) t N (mark_as_failed relayer t r).
Proof.
  intros Hf. unfold mark_as_failed, unexpected. apply moves_then; [|preserve].
  apply moves_map_err, moves_finish; [done|by left|]. destruct (tx_status t); try done; in_statuses.
Qed.

Lemma moves_mark_expired r :
  tx_status t = Pending \/ tx_status t = Sent \/ tx_status t = Submitted ->
  moves (S := S) (C := C) t N (mark_as_expired t r).
Proof.
  intros Hs. unfold mark_as_expired, unexpected.
  apply moves_map_err, moves_finish; [|by right|]; destruct Hs as [->|[->| ->]]; done || in_statuses.
Qed.

Lemma moves_prepare : moves (S := S) (C := C) t N (prepare_transaction_impl relayer t).
Proof.
  unfold prepare_transaction_impl. destruct (status_eqb (tx_status t) Pending) eqn:Hs; simpl;
    [|apply moves_passive; preserve].
  unfold status_eqb in Hs. apply bool_decide_eq_true in Hs. assert (Hf : is_final_state (tx_status t) = false) by by rewrite Hs.
  pose proof Hok as Hh. unfold solana_ok in Hh. rewrite Hs in Hh. unfold ok.
  apply moves_lift. intros d _. apply moves_bind; [preserve|]. intros [x|].
  2: by apply moves_map_err, moves_fail.
  apply moves_bind; [preserve|]. intros [[]|[|e]]; [|apply moves_passive; preserve|].
  2: { destruct (is_transient e); [apply moves_passive; preserve|]. by apply moves_map_err, moves_fail. }
  unfold prepare_sign. apply moves_bind; [preserve|]. intros sig. apply moves_lift. intros x' Hx'.
  eapply moves_bind_ensures; [preserve|apply encoded_ok|]. intros e He.
  apply moves_then; [|intros a; unfold safely; preserve]. unfold safely. apply moves_map_err, moves_map_err.
  apply moves_update; [done|]. intros n. eapply next_prepared; eauto using head_of_set.
Qed.

Lemma moves_send_failed e :
  is_final_state (tx_status t) = false ->
  moves (S := S) (C := C) t N (send_failed relayer t e).
Proof.
  intros Hf. unfold send_failed. destruct (solana_provider_error_is_transient e);
    [apply moves_passive; preserve|by apply moves_map_err, moves_fail].
Qed.

Lemma submittable_statuses :
  is_submittable t = true -> tx_status t = Sent \/ tx_status t = Submitted.
Proof. unfold is_submittable. by destruct (tx_status t); auto. Qed.

Lemma moves_submit : moves (S := S) (C := C) t N (submit_transaction_impl relayer t).
Proof.
  unfold submit_transaction_impl. destruct (is_submittable t) eqn:Hs; simpl;
    [|apply moves_passive; preserve].
  apply submittable_statuses in Hs as Hst.
  assert (Hf : is_final_state (tx_status t) = false) by by destruct Hst as [->| ->].
  assert (Hsg : signed t) by (unfold solana_ok in Hok; destruct Hst as [Hst|Hst]; rewrite Hst in Hok; tauto).
  apply moves_bind; [unfold ok; preserve|]. intros _. unfold ok at 1.
  apply moves_lift. intros x Hx. apply result_map_err_ok in Hx.
  apply moves_bind; [preserve|]. intros [sig|e].
  2: { destruct (is_already_processed e); [apply moves_passive; preserve|].
       destruct (_ && _); [apply moves_passive; preserve|by apply moves_send_failed]. }
  apply moves_lift. intros s Hi. apply moves_bind; [preserve|]. intros n.
  apply moves_then; [|intros a; unfold safely; preserve]. apply moves_try, moves_map_err.
  apply moves_update; [done|]. intros n'. eapply next_submitted; eauto.
  unfold index in Hi. simpl in Hi. by destruct (stx_signatures x); simplify_eq/=.
Qed.

Lemma moves_resubmit : moves (S := S) (C := C) t N (resubmit_transaction_impl relayer t).
Proof.
  unfold resubmit_transaction_impl. destruct (is_submittable t) eqn:Hs; simpl;
    [|apply moves_passive; preserve].
  apply submittable_statuses in Hs as Hst.
  assert (Hf : is_final_state (tx_status t) = false) by by destruct Hst as [->| ->].
  apply moves_bind; [unfold ok; preserve|]. intros x0. apply moves_bind; [unfold solana_call; preserve|].
  intros h. apply moves_bind; [preserve|]. intros sig. apply moves_lift. intros x Hx.
  eapply moves_bind_ensures; [preserve|apply encoded_ok|]. intros e He.
  apply moves_bind; [preserve|]. intros n. cbv zeta. apply moves_bind; [preserve|]. intros [sg|err].
  - apply moves_then; [|intros a; preserve]. apply moves_try, moves_map_err.
    apply moves_update; [done|]. intros n'. eapply next_resubmitted; eauto using head_of_set.
  - destruct (is_already_processed err); [apply moves_passive; preserve|by apply moves_send_failed].
Qed.

(** *** The status handler *)

Lemma map_status_cases st :
  map_solana_status_to_transaction_status st = Mined \/
  map_solana_status_to_transaction_status st = Confirmed \/
  map_solana_status_to_transaction_status st = Failed.
Proof. destruct st; auto. Qed.

(** What the chain is asked for and may answer: a transaction that was submitted. *)
Lemma onchain_detects :
  ensures (fun s => s = tx_status t \/
      (tx_status t <> Pending /\ tx_status t <> Sent /\ (s = Mined \/ s = Confirmed \/ s = Failed)))
    (check_onchain_transaction_status (S := S) (C := C) t).
Proof.
  intros w a w' Hr. unfold check_onchain_transaction_status in Hr.
  destruct (tx_status t) eqn:Es; unfold bindM, try_, liftM, retM in Hr; cbv zeta beta in Hr;
    simplify_eq; try (by left); repeat (case_match; simplify_eq); try (by left);
    right; (split; [done|]; split; [done|apply map_status_cases]).
Qed.

Lemma signatures_found hashes :
  ensures (fun o => forall s st, o = Some (s, st) -> s ∈ hashes)
    (check_signatures (S := S) (C := C) hashes).
Proof.
  induction hashes as [|h hashes IH]; simpl.
  - by intros w a w' [= <- _] s st.
  - destruct (signature_from_str h).
    + intros w a' w'. unfold bindM, try_. destruct (get_transaction_status a w) as [[st|e] w1].
      * intros [= <- _] s st' [= <- _]. set_solver.
      * intros Hc s st Hs. apply list_elem_of_further. by eapply IH.
    + intros w a w' Hc s st Hs. apply list_elem_of_further. by eapply IH.
Qed.

Lemma moves_detected s :
  is_final_state (tx_status t) = false -> tracked t -> s = Mined \/ s = Confirmed \/ s = Failed ->
  s ∈ solana_targets (tx_status t) ->
  moves (S := S) (C := C) t N (update_transaction_status_and_send_notification relayer t s None).
Proof.
  intros Hf Ht Hs Hin. unfold update_transaction_status_and_send_notification, unexpected.
  apply moves_bind; [preserve|]. intros c. apply moves_then; [|preserve].
  apply moves_map_err, moves_update; [done|]. intros n. by apply next_detected.
Qed.

Lemma moves_pending :
  tx_status t = Pending -> moves (S := S) (C := C) t N (handle_pending_status relayer t).
Proof.
  intros Hs. unfold handle_pending_status. apply moves_bind; [preserve|]. intros [|].
  { apply moves_mark_expired. by left. }
  apply moves_bind; [preserve|]. intros [|].
  { apply moves_mark_failed. by rewrite Hs. }
  apply moves_passive. unfold produce_or. preserve.
Qed.

Lemma moves_found sig st :
  tx_status t = Submitted -> sig ∈ tx_hashes t -> forall d,
  moves (S := S) (C := C) t N (update_transaction_status_and_send_notification relayer t
    (map_solana_status_to_transaction_status st)
    (Some {| sol_transaction := sol_transaction d; sol_instructions := sol_instructions d;
             sol_signature := Some sig |})).
Proof.
  intros Hs Hsig d. unfold update_transaction_status_and_send_notification, unexpected.
  apply moves_bind; [preserve|]. intros c. apply moves_then; [|preserve].
  apply moves_map_err, moves_update; [by rewrite Hs|]. intros n.
  apply (next_found _ _ _ _ _ sig); [done|done|apply map_status_cases|].
  rewrite Hs. by destruct st; in_statuses.
Qed.

Lemma moves_resubmit_or_expire :
  tx_status t = Sent \/ tx_status t = Submitted ->
  moves (S := S) (C := C) t N (handle_resubmit_or_expiration relayer t).
Proof.
  intros Hs. assert (Hf : is_final_state (tx_status t) = false) by by destruct Hs as [->| ->].
  unfold handle_resubmit_or_expiration. apply moves_bind; [preserve|]. intros [|].
  { apply moves_mark_expired. tauto. }
  apply moves_bind; [preserve|]. intros [r|]; [by apply moves_mark_failed|].
  apply moves_bind; [preserve|]. intros [age|]; [|apply moves_passive; preserve].
  destruct (_ <? _); [apply moves_passive; preserve|]. unfold check_any_signature_on_chain.
  eapply moves_bind_ensures; [preserve|apply signatures_found|]. intros [[sig st]|] Hfound.
  - apply moves_lift. intros d _. apply moves_found; [|by eapply Hfound].
    destruct Hs as [Hs|Hs]; [|done]. pose proof Hok as Ho. unfold solana_ok in Ho. rewrite Hs in Ho.
    specialize (Hfound sig st eq_refl). rewrite (proj1 Ho) in Hfound. set_solver.
  - unfold resubmit_if_expired. apply moves_lift. intros x _. apply moves_bind; [preserve|].
    intros [|]; [apply moves_passive; preserve|].
    destruct (is_resubmitable x); [apply moves_passive; unfold produce_or; preserve|].
    apply moves_mark_expired. tauto.
Qed.

Lemma moves_detected_status s :
  is_final_state (tx_status t) = false ->
  s = tx_status t \/
    (tx_status t <> Pending /\ tx_status t <> Sent /\ (s = Mined \/ s = Confirmed \/ s = Failed)) ->
  moves (S := S) (C := C) t N
    (match s with
     | Pending => handle_pending_status relayer t
     | Sent | Submitted => handle_resubmit_or_expiration relayer t
     | Mined | Confirmed | Failed | Canceled | Expired =>
         update_transaction_status_if_needed relayer t s
     end).
Proof.
  intros Hf Hs. unfold update_transaction_status_if_needed.
  assert (Hd : s = Mined \/ s = Confirmed \/ s = Failed ->
    tx_status t = Submitted \/ tx_status t = Mined ->
    moves (S := S) (C := C) t N (if negb (status_eqb (tx_status t) s)
      then update_transaction_status_and_send_notification relayer t s None else retM t)).
  { intros Hs' Hst. destruct (status_eqb _ _); simpl; [apply moves_passive; preserve|].
    apply moves_detected; [done| |done|].
    - pose proof Hok as Ho. unfold solana_ok in Ho. destruct Hst as [Hst|Hst]; rewrite Hst in Ho; tauto.
    - destruct Hst as [->| ->], Hs' as [->|[->| ->]]; in_statuses. }
  destruct Hs as [->|(Hp & Hsn & Hs)].
  - destruct (tx_status t) eqn:Es; try done;
      [by apply moves_pending|apply moves_resubmit_or_expire; auto..|apply Hd; auto].
  - assert (Hst : tx_status t = Submitted \/ tx_status t = Mined)
      by (destruct (tx_status t); try done; auto).
    destruct Hs as [->|[->| ->]]; apply Hd; auto.
Qed.

Lemma moves_status ctx :
  moves (S := S) (C := C) t N (handle_transaction_status_impl relayer t ctx).
Proof.
  unfold handle_transaction_status_impl.
  destruct (is_final_state (tx_status t)) eqn:Hf; [apply moves_passive; preserve|].
  assert (Hflow : moves (S := S) (C := C) t N (status_flow relayer t)).
  { unfold status_flow. eapply moves_bind_ensures; [preserve|apply onchain_detects|].
    intros s Hs. cbv beta in Hs.
    destruct (negb (status_eqb (tx_status t) s)).
    - apply moves_reload. by apply moves_detected_status.
    - apply moves_bind_ret. by apply moves_detected_status. }
  destruct ctx as [ctx|]; [|done].
  destruct (should_force_finalize ctx); [by apply moves_mark_failed|done].
Qed.

(** Every handler, run where the transaction is stored. *)
Lemma moves_handler h : moves (S := S) (C := C) t N (run_solana relayer h t).
Proof.
  destruct h; simpl.
  - apply moves_prepare.
  - apply moves_submit.
  - apply moves_resubmit.
  - apply moves_map_err, moves_status.
  - apply moves_passive. unfold solana_not_supported_transaction. preserve.
  - apply moves_passive. unfold solana_not_supported_transaction. preserve.
Qed.
End Handlers.

(** ** Runs *)

Section System.
Context `{Chrono} `{ServerConfig} `{Env} `{SolanaSdk} `{SolanaEnv} `{!SolanaSdkLaws}.
Context {S C : Type} `{!TransactionRepository S} `{!TransactionCounter C}.
Context (relayer_of : string -> RelayerRepoModel).

(** Handlers run at any time, on the stored version of a transaction; jobs may be lost, late
    or delivered more than once. *)
Inductive solana_step (w : W S C) : W S C -> Prop :=
| solana_intake t :
    tx_status t = Pending -> tx_hashes t = [] ->
    solana_step w (snd (repo_call (repo_create t) w))
| solana_handle h t :
    view w !! tx_id t = Some t ->
    solana_step w (snd (run_solana (relayer_of (tx_relayer_id t)) h t w))
| solana_cleanup j t w' :
    view w !! j = Some t -> is_final_state (tx_status t) = true ->
    view w' = delete j (view w) -> solana_step w w'
| solana_outside w' : same_view w w' -> solana_step w w'.

(** Transactions are stored under their id and are well formed. *)
Definition solana_store (w : W S C) : Prop :=
  map_Forall (fun j t => tx_id t = j /\ solana_ok t) (view w).

Lemma final_untouched relayer h t :
  is_final_state (tx_status t) = true ->
  preserves (same_view (S := S) (C := C)) (run_solana relayer h t).
Proof.
  intros Hf. destruct h; simpl; unfold solana_not_supported_transaction, prepare_transaction_impl,
    submit_transaction_impl, resubmit_transaction_impl, is_submittable, safely,
    handle_transaction_status_impl; destruct (tx_status t); try done; simpl; preserve.
Qed.

(** One step, seen from a stored transaction. *)
Lemma solana_step_effect w w' j t :
  solana_store w -> solana_step w w' -> view w !! j = Some t ->
  view w' !! j = Some t \/
  (is_final_state (tx_status t) = true /\ view w' !! j = None) \/
  (is_final_state (tx_status t) = false /\ exists t', view w' !! j = Some t' /\ solana_next t t').
Proof.
  intros Hst Hstep Hj. destruct Hstep as [u Hp Hh|h u Hu|k u w' Hk Hf Hv|w' Hv].
  - left. pose proof (repo_create_spec u (w_repo w)) as Hc. unfold wp, repo_call in *.
    destruct (repo_create u (w_repo w)) as [x s']. simpl in *. rewrite view_set_repo.
    destruct Hc as [(Hn & -> & _)|[-> _]]; [|done]. fold (view w) in *.
    rewrite lookup_insert_ne; [done|]. intros Heq. rewrite Heq in Hn. congruence.
  - destruct (Hst _ _ Hu) as [_ Hok]. set (relayer := relayer_of (tx_relayer_id u)).
    destruct (is_final_state (tx_status u)) eqn:Hf.
    { left. by rewrite (final_untouched relayer h u Hf w). }
    destruct (moves_handler relayer u Hok h w Hu) as [->|(u' & Hn & ->)]; [by left|].
    destruct (decide (tx_id u = j)) as [<-|Hne]; [|left; by rewrite lookup_insert_ne].
    right; right. rewrite Hj in Hu. injection Hu as <-. rewrite lookup_insert_eq. eauto.
  - destruct (decide (k = j)) as [->|Hne]; [|left; by rewrite Hv, lookup_delete_ne].
    right; left. rewrite Hv, lookup_delete_eq. split; [congruence|done].
  - left. by rewrite Hv.
Qed.

(** Where the transactions of the next world come from. *)
Lemma solana_step_store w w' : solana_store w -> solana_step w w' -> solana_store w'.
Proof.
  intros Hst Hstep. intros j t' Hj. destruct (view w !! j) as [t|] eqn:Ht.
  - destruct (Hst _ _ Ht) as [Hid Hok].
    destruct (solana_step_effect w w' j t Hst Hstep Ht) as [?|[[_ ?]|(_ & t1 & ? & Hn)]];
      simplify_eq; [done|]. split; [|by apply Hn]. by rewrite (sn_id _ _ Hn).
  - destruct Hstep as [u Hp Hh|h u Hu|k u w' Hk Hf Hv|w' Hv].
    + pose proof (repo_create_spec u (w_repo w)) as Hc. unfold wp, repo_call in *.
      destruct (repo_create u (w_repo w)) as [x s']. simpl in *. rewrite view_set_repo in Hj.
      fold (view w) in Hc. destruct Hc as [(Hn & Hv & _)|[Hv _]]; rewrite Hv in Hj; [|congruence].
      apply lookup_insert_Some in Hj as [[<- <-]|[_ ?]]; [|congruence].
      split; [done|]. unfold solana_ok. by rewrite Hp.
    + destruct (Hst _ _ Hu) as [_ Hok].
      destruct (moves_handler (relayer_of (tx_relayer_id u)) u Hok h w Hu) as [Hv|(u' & _ & Hv)];
        rewrite Hv in Hj; [congruence|].
      apply lookup_insert_Some in Hj as [[<- _]|[_ ?]]; congruence.
    + rewrite Hv in Hj. apply lookup_delete_Some in Hj as [_ ?]. congruence.
    + rewrite Hv in Hj. congruence.
Qed.

Lemma solana_steps_store w w' : rtc solana_step w w' -> solana_store w -> solana_store w'.
Proof. induction 1; eauto using solana_step_store. Qed.

(** C20. In any run of the Solana handlers from an empty store, whatever the node, the signer
    and the queue answer: a finished transaction is never changed (only cleaned up); any other
    one keeps its id, relayer, creation time and deadline, moves only along the arrows of
    [solana_targets], and its list of recorded signatures only grows, by one signature when it
    is submitted.  What is stored is well formed: a transaction marked as sent or submitted
    decodes to one that carries the stored signature, and a submitted, mined or confirmed one
    is looked up by a signature it has recorded. *)
Theorem solana_lifecycle w0 w w' j t :
  view w0 = ∅ -> rtc solana_step w0 w -> solana_step w w' -> view w !! j = Some t ->
  solana_ok t /\
  (is_final_state (tx_status t) = true -> view w' !! j = Some t \/ view w' !! j = None) /\
  (is_final_state (tx_status t) = false ->
     exists t', view w' !! j = Some t' /\ (t' = t \/ solana_next t t')).
Proof.
  intros Hv Hrun Hstep Hj.
  assert (Hst : solana_store w).
  { eapply solana_steps_store; [done|]. unfold solana_store. rewrite Hv. apply map_Forall_empty. }
  split; [by destruct (Hst _ _ Hj)|].
  destruct (solana_step_effect w w' j t Hst Hstep Hj) as [?|[[-> ?]|(-> & t1 & ? & Hn)]].
  - split; [by left|by eauto].
  - split; [by right|done].
  - split; [done|by eauto].
Qed.
End System.

(** ** An instance *)

Section Witness.
#[local] Existing Instances sample_chrono sample_config sample_order sample_solana_sdk.
#[local] Existing Instance sample_solana_laws.
#[local] Instance life_env : Env := clock_at (2 * 10 ^ 9).
#[local] Instance life_node : SolanaEnv :=
  sample_solana_env "H0" true (Ok "sig-H0"%string) unknown_signature.
Abbreviation relayers := (fun _ : string => solana_relayer sample_policy).

(** A transaction arrives, is prepared, and then submitted. *)
Definition life_arrived : sol_world := sol_intake sol_empty.
Definition life_prepared : sol_world :=
  snd (run_solana (solana_relayer sample_policy) HPrepare sol_request life_arrived).
Definition life_submitted : sol_world :=
  snd (run_solana (solana_relayer sample_policy) HSubmit (sol_stored life_prepared) life_prepared).

Lemma life_steps : rtc (solana_step relayers) sol_empty life_prepared.
Proof.
  eapply rtc_l; [apply (solana_intake _ _ sol_request); reflexivity|].
  eapply rtc_l; [|apply rtc_refl]. apply (solana_handle relayers life_arrived HPrepare sol_request).
  vm_compute. reflexivity.
Qed.

Lemma life_empty : view sol_empty = ∅.
Proof. reflexivity. Qed.

Lemma life_stored : view life_prepared !! "tx1"%string = Some (sol_stored life_prepared).
Proof. vm_compute. reflexivity. Qed.

Lemma life_submit : solana_step relayers life_prepared life_submitted.
Proof. apply (solana_handle relayers life_prepared HSubmit (sol_stored life_prepared)). apply life_stored. Qed.

Lemma solana_lifecycle_witness :
  tx_status (sol_stored life_submitted) = Submitted /\
  tx_hashes (sol_stored life_submitted) = ["sig-H0"%string] /\
  solana_ok (sol_stored life_prepared) /\
  exists t', view life_submitted !! "tx1"%string = Some t' /\
    (t' = sol_stored life_prepared \/ solana_next (sol_stored life_prepared) t').
Proof.
  split; [vm_compute; reflexivity|]. split; [vm_compute; reflexivity|].
  destruct (solana_lifecycle relayers sol_empty life_prepared life_submitted "tx1"%string
    (sol_stored life_prepared) life_empty life_steps life_submit life_stored) as (Hok & _ & Hnext).
  split; [exact Hok|]. apply Hnext. vm_compute. reflexivity.
Defined.
End Witness.
