(* ===== verification/SolanaRequest.v ===== *)
(** * Solana transaction requests

    The checks of [models/transaction/request/solana.rs] on a request that arrives through the
    API, and the transaction it is stored as ([TryFrom] in [models/transaction/repository.rs]).
    The instructions of an accepted request can be built by the preparation, provided their
    keys carry no surrounding white space. *)

From S2P Require Import Prelude Decimal Errors Model Config StellarXdr SolanaSdk Repository.
From S2P Require Import Counter Jobs Effects Sample EvmUtils Lifecycle JobHandlers.
From S2P Require Import SolanaValidator Solana SolanaSample SolanaProperties.
Open Scope Z_scope.

Definition REQUEST_MAX_INSTRUCTIONS : nat := 64.
Definition REQUEST_MAX_ACCOUNTS_PER_INSTRUCTION : nat := 64.
Definition REQUEST_MAX_TOTAL_ACCOUNTS : nat := 64.
Definition REQUEST_MAX_INSTRUCTION_DATA_SIZE : nat := 1232.

(** ** [str::trim] *)

(** The characters with the Unicode property [White_Space], in UTF-8. *)
Definition white_space : list (list Byte.byte) :=
  [ [Byte.x09]; [Byte.x0a]; [Byte.x0b]; [Byte.x0c]; [Byte.x0d]; [Byte.x20];
    [Byte.xc2; Byte.x85]; [Byte.xc2; Byte.xa0]; [Byte.xe1; Byte.x9a; Byte.x80];
    [Byte.xe2; Byte.x80; Byte.x80]; [Byte.xe2; Byte.x80; Byte.x81]; [Byte.xe2; Byte.x80; Byte.x82];
    [Byte.xe2; Byte.x80; Byte.x83]; [Byte.xe2; Byte.x80; Byte.x84]; [Byte.xe2; Byte.x80; Byte.x85];
    [Byte.xe2; Byte.x80; Byte.x86]; [Byte.xe2; Byte.x80; Byte.x87]; [Byte.xe2; Byte.x80; Byte.x88];
    [Byte.xe2; Byte.x80; Byte.x89]; [Byte.xe2; Byte.x80; Byte.x8a]; [Byte.xe2; Byte.x80; Byte.xa8];
    [Byte.xe2; Byte.x80; Byte.xa9]; [Byte.xe2; Byte.x80; Byte.xaf]; [Byte.xe2; Byte.x81; Byte.x9f];
    [Byte.xe3; Byte.x80; Byte.x80] ].

Fixpoint strip_bytes (p s : list Byte.byte) : option (list Byte.byte) :=
  match p, s with
  | [], _ => Some s
  | b :: p', c :: s' => if Byte.eqb b c then strip_bytes p' s' else None
  | _, [] => None
  end.

(** Removes leading occurrences of the patterns; a string has at most its length of them. *)
Fixpoint trim_start (fuel : nat) (patterns : list (list Byte.byte)) (s : list Byte.byte)
  : list Byte.byte :=
  match fuel with
  | O => s
  | Datatypes.S fuel' =>
      match List.find (fun p => bool_decide (is_Some (strip_bytes p s))) patterns with
      | Some p => trim_start fuel' patterns (default s (strip_bytes p s))
      | None => s
      end
  end.

Definition trim (s : string) : string :=
  let b := String.list_byte_of_string s in
  let start := trim_start (length b) white_space b in
  String.string_of_list_byte
    (rev (trim_start (length start) (@rev _ <$> white_space) (rev start))).

(** ** The request *)

Record SolanaTransactionRequest := {
  sreq_transaction : option string;
  sreq_instructions : option (list SolanaInstructionSpec);
  sreq_valid_until : option string;
}.

Section Request.
Context `{Chrono} `{ServerConfig} `{Env} `{SolanaSdk}.
Context {S C : Type} `{!TransactionRepository S} `{!TransactionCounter C}.
Context (relayer : RelayerRepoModel).

Definition bad_request {A} (m : string) : result ApiError.t A := Err (ApiError.BadRequest m).

Definition parse_relayer_address : result ApiError.t Pubkey :=
  result_map_err (fun e => ApiError.BadRequest ("Invalid relayer address: " +:+ e))
    (pubkey_from_str (rel_address relayer)).

Definition validate_request_transaction (transaction : string) : result ApiError.t unit :=
  let? tx := result_map_err (fun e => ApiError.BadRequest ("Failed to decode transaction: " +:+ e))
               (decode_transaction transaction) in
  let? fee_payer := ok_or (head (msg_account_keys (stx_message tx)))
    (ApiError.BadRequest "Transaction has no fee payer account") in
  let? relayer_pubkey := parse_relayer_address in
  if negb (String.eqb fee_payer relayer_pubkey) then
    bad_request ("Transaction fee payer " +:+ fee_payer +:+ " does not match relayer address " +:+
                 relayer_pubkey)
  else Ok tt.

(** The account keys of one instruction; the keys seen so far. *)
Fixpoint validate_accounts (relayer_pubkey : Pubkey) (idx acc_idx : Z)
    (accounts : list SolanaAccountMeta) (unique_accounts : gset string)
  : result ApiError.t (gset string) :=
  match accounts with
  | [] => Ok unique_accounts
  | account :: rest =>
      let where_ := "Instruction " +:+ print_dec idx +:+ " account " +:+ print_dec acc_idx in
      let trimmed_pubkey := trim (sam_pubkey account) in
      if String.eqb trimmed_pubkey "" then bad_request (where_ +:+ ": pubkey cannot be empty")
      else
      let? pubkey := result_map_err (fun e => ApiError.BadRequest
        (where_ +:+ ": Invalid pubkey '" +:+ trimmed_pubkey +:+ "' - " +:+ e))
        (pubkey_from_str trimmed_pubkey) in
      if sam_is_signer account && negb (String.eqb pubkey relayer_pubkey) then
        bad_request (where_ +:+ ": Only the relayer address " +:+ relayer_pubkey +:+
          " can be marked as a signer, but '" +:+ pubkey +:+
          "' is marked as a signer. The relayer can only provide its own signature.")
      else validate_accounts relayer_pubkey idx (acc_idx + 1) rest ({[pubkey]} ∪ unique_accounts)
  end.

Fixpoint validate_each (relayer_pubkey : Pubkey) (idx : Z)
    (instructions : list SolanaInstructionSpec) (unique_accounts : gset string)
  : result ApiError.t (gset string) :=
  match instructions with
  | [] => Ok unique_accounts
  | instruction :: rest =>
      let where_ := "Instruction " +:+ print_dec idx in
      let trimmed_program_id := trim (sis_program_id instruction) in
      if String.eqb trimmed_program_id "" then
        bad_request (where_ +:+ ": program_id cannot be empty")
      else
      let? program_pubkey := result_map_err (fun e => ApiError.BadRequest
        (where_ +:+ ": Invalid program_id '" +:+ trimmed_program_id +:+ "' - " +:+ e))
        (pubkey_from_str trimmed_program_id) in
      if String.eqb program_pubkey default_pubkey then
        bad_request (where_ +:+ ": program_id cannot be default pubkey")
      else if (REQUEST_MAX_ACCOUNTS_PER_INSTRUCTION <? length (sis_accounts instruction))%nat then
        bad_request (where_ +:+ ": Too many accounts " +:+
          print_dec (Z.of_nat (length (sis_accounts instruction))) +:+ " exceeds maximum of " +:+
          print_dec (Z.of_nat REQUEST_MAX_ACCOUNTS_PER_INSTRUCTION))
      else
      let? unique_accounts := validate_accounts relayer_pubkey idx 0 (sis_accounts instruction)
                                ({[program_pubkey]} ∪ unique_accounts) in
      let? decoded_data := result_map_err (fun e => ApiError.BadRequest
        (where_ +:+ ": Invalid base64 data - " +:+ e)) (base64_decode (sis_data instruction)) in
      if (REQUEST_MAX_INSTRUCTION_DATA_SIZE <? length decoded_data)%nat then
        bad_request (where_ +:+ ": Data too large (" +:+
          print_dec (Z.of_nat (length decoded_data)) +:+ " bytes, max: " +:+
          print_dec (Z.of_nat REQUEST_MAX_INSTRUCTION_DATA_SIZE) +:+ " bytes)")
      else validate_each relayer_pubkey (idx + 1) rest unique_accounts
  end.

Definition validate_instructions (instructions : list SolanaInstructionSpec)
  : result ApiError.t unit :=
  let? relayer_pubkey := parse_relayer_address in
  match instructions with
  | [] => bad_request "Instructions cannot be empty"
  | _ =>
      if (REQUEST_MAX_INSTRUCTIONS <? length instructions)%nat then
        bad_request ("Too many instructions: " +:+ print_dec (Z.of_nat (length instructions)) +:+
          " exceeds maximum of " +:+ print_dec (Z.of_nat REQUEST_MAX_INSTRUCTIONS))
      else
      let? unique_accounts := validate_each relayer_pubkey 0 instructions ∅ in
      if (REQUEST_MAX_TOTAL_ACCOUNTS <? size unique_accounts)%nat then
        bad_request ("Too many unique accounts: " +:+
          print_dec (Z.of_nat (size unique_accounts)) +:+ " exceeds Solana's limit of " +:+
          print_dec (Z.of_nat REQUEST_MAX_TOTAL_ACCOUNTS))
      else Ok tt
  end.

Definition validate_request (request : SolanaTransactionRequest) : M (W S C) ApiError.t unit :=
  let has_transaction := bool_decide (is_Some (sreq_transaction request)) in
  let has_instructions := match sreq_instructions request with
                          | Some (_ :: _) => true
                          | _ => false
                          end in
  do* liftM (if has_transaction && has_instructions
             then bad_request "Cannot provide both transaction and instructions"
             else if negb has_transaction && negb has_instructions
             then bad_request "Must provide either transaction or instructions"
             else Ok tt) in
  do* liftM (match sreq_transaction request with
             | Some transaction => validate_request_transaction transaction
             | None => Ok tt
             end) in
  do* liftM (match sreq_instructions request with
             | Some instructions => validate_instructions instructions
             | None => Ok tt
             end) in
  match sreq_valid_until request with
  | Some valid_until =>
      match parse_rfc3339 valid_until with
      | Some valid_until_dt =>
          let* n := now in
          if valid_until_dt <=? n then liftM (bad_request "valid_until cannot be in the past")
          else retM tt
      | None => liftM (bad_request "valid_until must be a valid RFC3339 timestamp")
      end
  | None => retM tt
  end.

(** The stored transaction. *)
Definition solana_transaction_model (id created_at : string) (request : SolanaTransactionRequest)
  : TransactionRepoModel :=
  {| tx_id := id; tx_relayer_id := rel_id relayer; tx_status := Pending; tx_status_reason := None;
     tx_created_at := created_at; tx_sent_at := None; tx_confirmed_at := None;
     tx_valid_until := sreq_valid_until request; tx_delete_at := None;
     tx_network_data := SolanaData
       {| sol_transaction := sreq_transaction request;
          sol_instructions := sreq_instructions request; sol_signature := None |};
     tx_priced_at := None; tx_hashes := []; tx_network_type := NtSolana; tx_noop_count := None;
     tx_is_canceled := Some false; tx_metadata := None |}.

(** ** Accepted instructions can be built *)

Definition trimmed (i : SolanaInstructionSpec) : Prop :=
  trim (sis_program_id i) = sis_program_id i /\
  Forall (fun a => trim (sam_pubkey a) = sam_pubkey a) (sis_accounts i).

Lemma accounts_convert payer idx idx' n m accounts seen seen' :
  validate_accounts payer idx' n accounts seen = Ok seen' ->
  Forall (fun a => trim (sam_pubkey a) = sam_pubkey a) accounts ->
  exists l, convert_accounts idx m accounts = Ok l /\
    Forall (fun a => am_is_signer a = true -> am_pubkey a = payer) l.
Proof.
  revert n m seen. induction accounts as [|a accounts IH]; intros n m seen Hv Ht; simpl in *; [eauto|].
  apply Forall_cons in Ht as [Ha Ht]. rewrite Ha in Hv.
  destruct (String.eqb (sam_pubkey a) ""); [done|].
  unfold pubkey_from_str in *. destruct (pubkey_parse_error (sam_pubkey a)); [done|]. simpl in *.
  destruct (sam_is_signer a && negb _) eqn:Hs; [done|].
  destruct (IH _ (m + 1) _ Hv Ht) as (l & -> & Hl). simpl. eexists. split; [done|]. constructor; [|done].
  simpl. intros Hsig. rewrite Hsig in Hs. by apply negb_false_iff, String.eqb_eq in Hs.
Qed.

Lemma each_converts payer n m instructions seen seen' :
  validate_each payer n instructions seen = Ok seen' -> Forall trimmed instructions ->
  exists l, convert_from m instructions = Ok l /\
    Forall (fun i => Forall (fun a => am_is_signer a = true -> am_pubkey a = payer) (ins_accounts i)) l.
Proof.
  revert n m seen. induction instructions as [|i instructions IH]; intros n m seen Hv Ht; simpl in *;
    [eauto|].
  apply Forall_cons in Ht as [[Hp Hacc] Ht]. rewrite Hp in Hv.
  destruct (String.eqb (sis_program_id i) ""); [done|].
  unfold pubkey_from_str in *. destruct (pubkey_parse_error (sis_program_id i)); [done|]. simpl in *.
  destruct (String.eqb (sis_program_id i) default_pubkey); [done|]. destruct (_ <? _)%nat; [done|].
  destruct (validate_accounts _ _ _ _ _) as [seen1|] eqn:Ha in Hv; [|done]. simpl in Hv.
  destruct (accounts_convert _ m _ _ 0 _ _ _ Ha Hacc) as (l & -> & Hl). simpl.
  destruct (base64_decode (sis_data i)) as [data|]; [|done]. simpl in *.
  destruct (_ <? _)%nat; [done|]. destruct (IH _ (m + 1) _ Hv Ht) as (l' & -> & Hl').
  simpl. eexists. split; [done|]. by constructor.
Qed.

(** A list of instructions that is accepted, and whose keys have no surrounding white space, is
    converted by the preparation without error, and the relayer is the only signer it names:
    the transaction built from it can be signed by the relayer alone and resubmitted. *)
Theorem accepted_instructions_build instructions h :
  validate_instructions instructions = Ok tt -> Forall trimmed instructions ->
  exists l, convert_instruction_specs_to_instructions instructions = Ok l /\
    build_transaction_from_instructions instructions (rel_address relayer) h =
      Ok (set_blockhash h (new_with_payer l (rel_address relayer))) /\
    Forall (fun i => Forall (fun a => am_is_signer a = true -> am_pubkey a = rel_address relayer)
                       (ins_accounts i)) l.
Proof.
  intros Hv Ht. unfold validate_instructions, parse_relayer_address, pubkey_from_str in Hv.
  destruct (pubkey_parse_error (rel_address relayer)); [done|]. simpl in Hv.
  destruct instructions as [|i rest]; [done|]. destruct (_ <? _)%nat; [done|].
  destruct (validate_each _ _ _ _) as [seen|] eqn:He in Hv; [|done].
  destruct (each_converts _ _ 0 _ _ _ He Ht) as (l & Hl & Hall).
  unfold build_transaction_from_instructions, convert_instruction_specs_to_instructions.
  exists l. rewrite Hl. by split_and!.
Qed.
End Request.

(** ** White space is accepted and then fails *)

Section Instances.
#[local] Existing Instances sample_chrono sample_config sample_order sample_solana_sdk.

Definition padded (program_id : string) : list SolanaInstructionSpec :=
  [ {| sis_program_id := program_id; sis_accounts := []; sis_data := "" |} ].

Lemma accepted_instructions_instance :
  exists l, convert_instruction_specs_to_instructions (padded "Memo") = Ok l /\ length l = 1%nat.
Proof.
  destruct (accepted_instructions_build (solana_relayer sample_policy) (padded "Memo") "H0")
    as (l & Hl & _); [vm_compute; reflexivity|by repeat constructor; vm_compute|].
  exists l. split; [done|]. by injection Hl as <-.
Qed.

(** The request checks look at the trimmed keys, the stored request keeps the spaces. *)
Lemma padded_key_is_accepted_then_fails :
  validate_instructions (solana_relayer sample_policy) (padded " Memo") = Ok tt /\
  is_ok (convert_instruction_specs_to_instructions (padded " Memo")) = false.
Proof. split; vm_compute; reflexivity. Qed.
End Instances.
