(* ===== verification/SolanaResubmission.v ===== *)
(** * What is sent to the Solana nodes, and when it is sent again

    The transactions the handlers broadcast, and the conditions under which the status handler
    queues a resubmission: each is tied to the answers the node and the clock gave during the
    run. *)

From S2P Require Import Prelude Decimal Errors Model Config StellarXdr SolanaSdk Repository.
From S2P Require Import Counter Jobs Effects Sample EvmUtils EvmTransaction EvmStatus Lifecycle.
From S2P Require Import JobHandlers SolanaValidator Solana SolanaSample SolanaProperties.
Open Scope Z_scope.

(** ** Effects on the queues and the broadcasts *)

Definition is_send (j : QueuedJob) : bool := match j with JSend _ _ => true | _ => false end.

Section Quiet.
Context `{Chrono} `{ServerConfig} `{Env} `{SolanaSdk} `{SolanaEnv}.
Context {S C : Type} `{!TransactionRepository S} `{!TransactionCounter C}.

(** Time passes; no submission job is queued and nothing is broadcast. *)
Definition quiet (w w' : W S C) : Prop :=
  (w_tick w <= w_tick w')%nat /\ w_solana w' = w_solana w /\
  exists js, w_jobs w' = w_jobs w ++ js /\ Forall (fun j => is_send j = false) js.

#[global] Instance quiet_preorder : PreOrder quiet.
Proof.
  split.
  - intros w. split_and!; [lia|done|]. exists []. by rewrite app_nil_r.
  - intros w1 w2 w3 (? & ? & js1 & Hj1 & ?) (? & ? & js2 & Hj2 & ?). split_and!; [lia|congruence|].
    exists (js1 ++ js2). rewrite Hj2, Hj1, <- app_assoc, Forall_app. done.
Qed.

Lemma solana_quiet_tick w w' :
  w_tick w' = Datatypes.S (w_tick w) -> w_solana w' = w_solana w -> w_jobs w' = w_jobs w -> quiet w w'.
Proof. intros Ht Hs Hj. split_and!; [lia|done|]. exists []. by rewrite Hj, app_nil_r. Qed.

Lemma quiet_produce j : is_send j = false -> preserves quiet (produce j).
Proof.
  intros Hj w. unfold produce. destruct (queue_fault _); [by apply solana_quiet_tick; destruct w|].
  split_and!; [destruct w; simpl; lia|by destruct w|]. exists [j]. destruct w. simpl. by repeat constructor.
Qed.

Lemma quiet_repo_call {A} (c : M S RepositoryError.t A) : preserves quiet (repo_call c).
Proof.
  intros w. unfold repo_call. destruct (c (w_repo w)) as [r s']. destruct w.
  split_and!; [done|done|]. exists []. by rewrite app_nil_r.
Qed.

#[global] Instance quiet_passive : Passive quiet.
Proof.
  split; intros; [exact _|intros w; by apply solana_quiet_tick; destruct w..|by apply quiet_produce|].
  apply quiet_repo_call.
Qed.
End Quiet.
#[export] Hint Resolve quiet_repo_call : preserves_db.
#[export] Hint Extern 1 (preserves quiet (produce _)) =>
  (apply quiet_produce; reflexivity) : preserves_db.

Lemma wp_ensures {W E A} (P : A -> Prop) (c : M W E A) w :
  ensures P c -> wp c (fun r _ => forall a, r = Ok a -> P a) w.
Proof. intros Hc a Ha. unfold ensures in Hc. destruct (c w) as [r w'] eqn:Hr. simpl in Ha. subst. eauto. Qed.

Section Guard.
Context `{Chrono} `{ServerConfig} `{Env} `{SolanaSdk} `{SolanaEnv}.
Context {S C : Type} `{!TransactionRepository S} `{!TransactionCounter C}.
Context (relayer : RelayerRepoModel).

(** A moment of the run from [w] to [w']. *)
Definition during (w w' : W S C) (n : nat) : Prop := (w_tick w <= n < w_tick w')%nat.

Lemma during_mono w1 w2 w2' w3 n :
  quiet w1 w2 -> quiet w2' w3 -> during w2 w2' n -> during w1 w3 n.
Proof. intros [? _] [? _]. unfold during. lia. Qed.

(** The node did not know the signature, or did not answer. *)
Definition not_found (n : nat) (signature : Signature) : Prop :=
  exists e, result_bind (solana_signature_statuses n signature) status_of_statuses = Err e.

(** The node no longer accepts the blockhash. *)
Definition blockhash_gone (n : nat) (h : Hash) : Prop :=
  solana_is_blockhash_valid n h = Ok false \/
  exists m, solana_is_blockhash_valid n h = Err (SolanaProviderError.BlockhashNotFound m).

(** The deadline of a transaction: its own, or half an hour after its creation. *)
Definition deadline (tx : TransactionRepoModel) : option Z :=
  opt_or (tx_valid_until tx ≫= parse_rfc3339)
    ((fun c => c + milliseconds SOLANA_DEFAULT_TX_VALID_TIMESPAN) <$> parse_rfc3339 (tx_created_at tx)).

(** The time its age counts from. *)
Definition age_from (tx : TransactionRepoModel) : option Z :=
  parse_rfc3339 (default (tx_created_at tx) (tx_sent_at tx)).

Lemma num_seconds_le k d : 0 < k -> k <= num_seconds d -> seconds k <= d.
Proof.
  unfold num_seconds, seconds. change (10 ^ 9) with 1000000000. intros Hk Hd.
  Z.to_euclidean_division_equations. lia.
Qed.

(** *** What the readers tell *)

Lemma wp_call_at {E A} (f : nat -> result E A) (w : W S C) :
  wp (call f) (fun r w' => quiet w w' /\ r = f (w_tick w) /\ during w w' (w_tick w)) w.
Proof. unfold wp, call. destruct w. simpl. split_and!; [by apply solana_quiet_tick|done|unfold during; simpl; lia]. Qed.

Lemma wp_now_at {E} (w : W S C) :
  wp (now (E := E)) (fun r w' => quiet w w' /\ r = Ok (env_now (w_tick w)) /\ during w w' (w_tick w)) w.
Proof. unfold wp, now, ask. destruct w. simpl. split_and!; [by apply solana_quiet_tick|done|unfold during; simpl; lia]. Qed.

Lemma wp_not_expired tx (w : W S C) :
  wp (is_valid_until_expired tx) (fun r w' => quiet w w' /\
    (r = Ok false -> forall d, deadline tx = Some d -> exists n, during w w' n /\ env_now n <= d)) w.
Proof.
  unfold is_valid_until_expired, deadline.
  destruct (tx_valid_until tx ≫= parse_rfc3339) as [v|]; simpl;
    [|destruct (parse_rfc3339 (tx_created_at tx)) as [c|]; simpl; [|by split; [reflexivity|]]].
  all: apply wp_bind; eapply wp_mono; [|apply wp_now_at]; intros r w' (Hq & -> & Hd);
    apply wp_ret; split; [done|]; intros [= Hlt%Z.ltb_ge] d [= <-]; eauto.
Qed.

Lemma wp_age tx (w : W S C) :
  wp (get_time_since_sent_or_created_at tx) (fun r w' => quiet w w' /\
    forall a, r = Ok (Some a) -> exists n c, during w w' n /\ age_from tx = Some c /\
      a = env_now n - c) w.
Proof.
  unfold get_time_since_sent_or_created_at, age_from. destruct (parse_rfc3339 _) as [c|].
  - apply wp_bind. eapply wp_mono; [|apply wp_now_at]. intros r w' (Hq & -> & Hd). apply wp_ret.
    split; [done|]. intros a [= <-]. eauto.
  - by split; [reflexivity|].
Qed.

Lemma wp_signatures hashes (w : W S C) :
  wp (check_signatures hashes) (fun r w' => quiet w w' /\
    (r = Ok None -> forall h, h ∈ hashes -> signature_parse_error h = None ->
       exists n, during w w' n /\ not_found n h)) w.
Proof.
  revert w. induction hashes as [|h hashes IH]; intros w; simpl.
  { split; [reflexivity|]. intros _ h Hh. set_solver. }
  unfold signature_from_str. destruct (signature_parse_error h) as [e|] eqn:Hp.
  { eapply wp_mono; [|apply IH]. intros r w' [Hq Hr]. split; [done|]. intros Hn h' Hh' Hp'.
    apply elem_of_cons in Hh' as [->|Hh']; [congruence|by apply Hr]. }
  apply wp_bind, wp_try. unfold get_transaction_status. apply wp_bind.
  eapply wp_mono; [|apply wp_call_at]. intros r w1 (Hq1 & Hr & Hd). cbv beta in Hr.
  assert (Hrest : not_found (w_tick w) h ->
    wp (check_signatures hashes) (fun r w' => quiet w w' /\
      (r = Ok None -> forall h', h' ∈ h :: hashes -> signature_parse_error h' = None ->
         exists n, during w w' n /\ not_found n h')) w1).
  { intros Hnf. eapply wp_mono; [|apply IH]. intros r' w2 [Hq2 Hr2]. split; [by transitivity w1|].
    intros Hn h' Hh' Hp'. apply elem_of_cons in Hh' as [->|Hh'].
    - exists (w_tick w). split; [|done]. by eapply during_mono; [reflexivity|exact Hq2|].
    - destruct (Hr2 Hn h' Hh' Hp') as (n & Hdn & ?). exists n. split; [|done].
      by eapply during_mono; [exact Hq1|reflexivity|]. }
  destruct r as [v|e]; simpl.
  - destruct (status_of_statuses v) as [st|e] eqn:Hst; simpl; [by split|].
    apply Hrest. exists e. by rewrite <- Hr.
  - apply Hrest. exists e. by rewrite <- Hr.
Qed.

Lemma wp_blockhash x (w : W S C) :
  wp (is_blockhash_valid x) (fun r w' => quiet w w' /\
    (r = Ok false -> exists n, during w w' n /\
       blockhash_gone n (msg_recent_blockhash (stx_message x)))) w.
Proof.
  unfold is_blockhash_valid. apply wp_bind, wp_try. eapply wp_mono; [|apply wp_call_at].
  intros r w' (Hq & Hr & Hd). cbv beta in Hr. destruct r as [b|e].
  - split; [done|]. intros [= ->]. exists (w_tick w). split; [done|]. by left.
  - unfold is_blockhash_not_found. destruct e; split; try done.
    intros _. exists (w_tick w). split; [done|]. right. by eexists.
Qed.

(** ** When a resubmission is queued *)

Record guarded (tx : TransactionRepoModel) (w w' : W S C) : Prop := {
  g_status : tx_status tx = Sent \/ tx_status tx = Submitted;
  g_deadline : forall d, deadline tx = Some d -> exists n, during w w' n /\ env_now n <= d;
  g_attempts : tx_status tx = Submitted ->
    Z.of_nat (length (tx_hashes tx)) < MAXIMUM_SOLANA_TX_ATTEMPTS;
  g_age : exists n c, during w w' n /\ age_from tx = Some c /\
    seconds SOLANA_MIN_AGE_FOR_RESUBMIT_CHECK_SECONDS <= env_now n - c;
  g_signatures : forall h, h ∈ tx_hashes tx -> signature_parse_error h = None ->
    exists n, during w w' n /\ not_found n h;
  g_blockhash : exists x n, decode_solana_transaction tx = Ok x /\
    mh_num_required_signatures (msg_header (stx_message x)) <= 1 /\
    during w w' n /\ blockhash_gone n (msg_recent_blockhash (stx_message x));
}.

Lemma guarded_mono tx w0 w1 w2 w3 :
  (w_tick w0 <= w_tick w1)%nat -> (w_tick w2 <= w_tick w3)%nat -> guarded tx w1 w2 -> guarded tx w0 w3.
Proof.
  intros Hb He [Hs Hd Ha Hage Hsig Hbh].
  assert (Hm : forall n, during w1 w2 n -> during w0 w3 n) by (unfold during; lia).
  split; [done| |done| | |].
  - intros d [n []]%Hd. eauto.
  - destruct Hage as (n & c & ? & ? & ?). eauto 6.
  - intros h Hh Hp. destruct (Hsig h Hh Hp) as (n & ? & ?). eauto.
  - destruct Hbh as (x & n & ? & ? & ? & ?). exists x, n. split_and!; [done..|by apply Hm|done].
Qed.

(** The outcomes of the status handler: no submission job, or one resubmission. *)
Definition resubmits (tx : TransactionRepoModel) (w w' : W S C) : Prop :=
  quiet w w' \/
  (guarded tx w w' /\ w_solana w' = w_solana w /\
   exists js, Forall (fun j => is_send j = false) js /\
     w_jobs w' = w_jobs w ++ js ++ [JSend (send_resubmit (tx_id tx) (tx_relayer_id tx)) None]).

Lemma wp_quiet {E A} tx (c : M (W S C) E A) w :
  preserves quiet c -> wp c (fun _ w' => resubmits tx w w') w.
Proof. intros Hc. left. apply Hc. Qed.

Lemma quiet_update id u : preserves (quiet (S := S) (C := C)) (partial_update_r id u).
Proof. unfold partial_update_r. preserve. Qed.
Hint Resolve quiet_update : preserves_db.

Lemma quiet_mark_failed tx r : preserves (quiet (S := S) (C := C)) (mark_as_failed relayer tx r).
Proof. unfold mark_as_failed, unexpected. preserve. Qed.
Lemma quiet_mark_expired tx r : preserves (quiet (S := S) (C := C)) (mark_as_expired tx r).
Proof. unfold mark_as_expired, unexpected. preserve. Qed.
Lemma quiet_notified tx s d :
  preserves (quiet (S := S) (C := C)) (update_transaction_status_and_send_notification relayer tx s d).
Proof. unfold update_transaction_status_and_send_notification, unexpected. preserve. Qed.
Hint Resolve quiet_mark_failed quiet_mark_expired quiet_notified : preserves_db.
Lemma quiet_pending tx : preserves (quiet (S := S) (C := C)) (handle_pending_status relayer tx).
Proof. unfold handle_pending_status, produce_or. preserve. Qed.
Hint Resolve quiet_pending : preserves_db.

Lemma wp_give_up tx (w : W S C) :
  wp (give_up_reason tx) (fun r w' => quiet w w' /\
    (r = Ok None -> tx_status tx = Submitted ->
       Z.of_nat (length (tx_hashes tx)) < MAXIMUM_SOLANA_TX_ATTEMPTS)) w.
Proof.
  pose proof (passive_give_up (quiet (S := S) (C := C)) tx w) as Hq. split; [done|].
  unfold give_up_reason, too_many_solana_attempts. destruct (status_eqb (tx_status tx) Submitted) eqn:Es.
  - destruct (Z.leb_spec MAXIMUM_SOLANA_TX_ATTEMPTS (Z.of_nat (length (tx_hashes tx)))); [done|].
    intros _ _. lia.
  - intros _ Hs. rewrite Hs in Es. done.
Qed.

(** Steps 5 to 7, where the first four have let the transaction through. *)
Lemma wp_resubmit_if_expired tx w0 w :
  quiet w0 w -> tx_status tx = Sent \/ tx_status tx = Submitted ->
  (forall d, deadline tx = Some d -> exists n, during w0 w n /\ env_now n <= d) ->
  (tx_status tx = Submitted -> Z.of_nat (length (tx_hashes tx)) < MAXIMUM_SOLANA_TX_ATTEMPTS) ->
  (exists n c, during w0 w n /\ age_from tx = Some c /\
     seconds SOLANA_MIN_AGE_FOR_RESUBMIT_CHECK_SECONDS <= env_now n - c) ->
  (forall h, h ∈ tx_hashes tx -> signature_parse_error h = None ->
     exists n, during w0 w n /\ not_found n h) ->
  wp (resubmit_if_expired tx) (fun _ w' => resubmits tx w0 w') w.
Proof.
  intros Hq Hs Hd Ha Hage Hsig. unfold resubmit_if_expired. apply wp_bind, wp_lift.
  destruct (decode_solana_transaction tx) as [x|] eqn:Hx; [|by left].
  apply wp_bind. eapply wp_mono; [|apply wp_blockhash]. intros r w1 [Hq1 Hb].
  assert (Hq01 : quiet w0 w1) by by transitivity w.
  destruct r as [[|]|e]; [by left| |by left]. destruct (is_resubmitable x) eqn:Hr.
  2: { eapply wp_mono; [|apply wp_preserves, quiet_mark_expired]. intros ? w2 ?. left. by transitivity w1. }
  destruct (Hb eq_refl) as (n & Hn & Hg). apply Z.leb_le in Hr.
  assert (Hguard : guarded tx w0 w1).
  { assert (Hm : forall n, during w0 w n -> during w0 w1 n)
      by (intros ?; by apply during_mono; [reflexivity|]).
    split; [done| |done| | |].
    - intros d [m []]%Hd. eauto.
    - destruct Hage as (m & c & ? & ? & ?). eauto 6.
    - intros h Hh Hp. destruct (Hsig h Hh Hp) as (m & ? & ?). eauto.
    - exists x, n. split_and!; [done..| |done]. by eapply during_mono; [exact Hq|reflexivity|]. }
  apply wp_bind, wp_map_err. unfold wp, produce. destruct Hq01 as (Ht & Hsol & js & Hj & Hns).
  destruct (queue_fault (w_tick w1)) eqn:Hqf; simpl.
  - left. split_and!; [destruct w1; simpl in *; lia|by destruct w1|]. exists js. by destruct w1.
  - right. split; [|split; [by destruct w1|]].
    + apply (guarded_mono tx w0 w0 w1); [done| |done]. destruct w1. simpl. lia.
    + exists js. split; [done|]. destruct w1. simpl in *. by rewrite Hj, <- app_assoc.
Qed.

Lemma wp_handle_resubmit tx w0 w :
  quiet w0 w -> tx_status tx = Sent \/ tx_status tx = Submitted ->
  wp (handle_resubmit_or_expiration relayer tx) (fun _ w' => resubmits tx w0 w') w.
Proof.
  intros Hq Hs.
  assert (Hquiet : forall E A (c : M (W S C) E A) w1, quiet w0 w1 -> preserves quiet c ->
    wp c (fun _ w' => resubmits tx w0 w') w1)
    by (intros E A c w1 Hq1 Hc; left; transitivity w1; [done|apply Hc]).
  unfold handle_resubmit_or_expiration. apply wp_bind.
  eapply wp_mono; [|apply wp_not_expired]. intros r w1 [Hq1 Hd].
  assert (Hq01 : quiet w0 w1) by by transitivity w.
  destruct r as [[|]|e]; [apply Hquiet; [done|preserve]| |by left].
  apply wp_bind. eapply wp_mono; [|apply wp_give_up]. intros r w2 [Hq2 Ha].
  assert (Hq02 : quiet w0 w2) by by transitivity w1.
  destruct r as [[reason|]|e]; [apply Hquiet; [done|preserve]| |by left].
  apply wp_bind. eapply wp_mono; [|apply wp_age]. intros r w3 [Hq3 Hage].
  assert (Hq03 : quiet w0 w3) by by transitivity w2.
  destruct r as [[age|]|e]; [|by left..].
  destruct (_ <? _) eqn:Hlt; [by left|]. apply wp_bind.
  eapply wp_mono; [|apply wp_signatures]. intros r w4 [Hq4 Hsig].
  assert (Hq04 : quiet w0 w4) by by transitivity w3.
  destruct r as [[[sig st]|]|e]; [apply Hquiet; [done|preserve]| |by left].
  apply wp_resubmit_if_expired; [done|done| |by apply Ha| |].
  - intros d Hdl. destruct (Hd eq_refl d Hdl) as (n & Hn & Hle). exists n. split; [|done].
    eapply during_mono; [exact Hq| |exact Hn]. by transitivity w2; [|transitivity w3].
  - destruct (Hage age eq_refl) as (n & c & Hn & Hc & ->). exists n, c. split_and!; [|done|].
    + eapply during_mono; [| exact Hq4|exact Hn]. done.
    + apply Z.ltb_ge in Hlt. by apply num_seconds_le in Hlt.
  - intros h Hh Hp. destruct (Hsig eq_refl h Hh Hp) as (n & Hn & Hnf). exists n. split; [|done].
    by eapply during_mono; [exact Hq03|reflexivity|].
Qed.

Lemma wp_solana_status tx ctx (w : W S C) :
  wp (handle_transaction_status_impl relayer tx ctx) (fun _ w' => resubmits tx w w') w.
Proof.
  unfold handle_transaction_status_impl. destruct (is_final_state (tx_status tx)); [by left|].
  assert (Hflow : wp (status_flow relayer tx) (fun _ w' => resubmits tx w w') w).
  { unfold status_flow. apply wp_bind.
    pose proof (wp_ensures _ _ w (onchain_detects (S := S) (C := C) tx)) as Hd.
    pose proof (wp_preserves _ _ w (passive_onchain (quiet (S := S) (C := C)) tx)) as Hq.
    eapply wp_mono; [|exact (wp_conj _ _ _ w Hd Hq)]. clear Hd Hq.
    intros [s|e] w1 [Hd Hq]; [|by left]. specialize (Hd s eq_refl). apply wp_bind.
    destruct (negb (status_eqb (tx_status tx) s)) eqn:Hs.
    - assert (Hne : tx_status tx <> s)
        by (intros <-; by rewrite (bool_decide_eq_true_2 _ eq_refl : status_eqb _ _ = true) in Hs).
      eapply wp_mono; [|apply (wp_preserves quiet); unfold repo; preserve]. intros [tx'|e] w2 Hq2;
        [|left; by transitivity w1].
      left. transitivity w1; [done|]. transitivity w2; [done|].
      destruct Hd as [->|(_ & _ & [->|[->| ->]])]; [done|..];
        unfold update_transaction_status_if_needed; apply (wp_preserves quiet); preserve.
    - apply wp_ret. unfold update_transaction_status_if_needed.
      assert (Hquiet : forall c : T S C TransactionRepoModel, preserves quiet c ->
        wp c (fun _ w' => resubmits tx w w') w1)
        by (intros c Hc; left; transitivity w1; [done|apply Hc]).
      apply negb_false_iff, bool_decide_eq_true in Hs.
      destruct s; first [solve [apply Hquiet; preserve] | apply wp_handle_resubmit; auto]. }
  destruct ctx as [ctx|]; [|done].
  destruct (should_force_finalize ctx); [left; apply quiet_mark_failed|done].
Qed.

(** C7. A status check queues a resubmission, the step after which a transaction is executed
    a second time if the first execution was missed, only under conditions that the node and
    the clock gave during that check: the transaction is sent or submitted; it is within its
    deadline, if it has a readable one; it is older than 90 seconds since it was last sent, and
    below the attempt limit if it is submitted; every signature it has recorded that reads as one
    was looked up, and no status came back for it, be it that the node does not know it or that
    the request failed; its blockhash is no longer accepted; and it needs no signature but the
    relayer's.  Otherwise the check queues no submission at all, and it never broadcasts anything
    itself. *)
Theorem resubmission_guarded tx ctx (w : W S C) :
  let w' := snd (handle_transaction_status_impl relayer tx ctx w) in
  w_solana w' = w_solana w /\
  exists js, w_jobs w' = w_jobs w ++ js /\
    forall j on, JSend j on ∈ js ->
      j = send_resubmit (tx_id tx) (tx_relayer_id tx) /\ guarded tx w w'.
Proof.
  cbv zeta.
  assert (Hr : resubmits tx w (snd (handle_transaction_status_impl relayer tx ctx w))).
  { apply wp_solana_status. }
  destruct Hr as [(_ & Hs & js & Hj & Hns)|(Hg & Hs & js & Hns & Hj)]; (split; [done|]).
  - exists js. split; [done|]. intros j on Hin. rewrite Forall_forall in Hns.
    by specialize (Hns _ Hin).
  - eexists. split; [exact Hj|]. intros j on Hin. apply elem_of_app in Hin as [Hin|Hin].
    + rewrite Forall_forall in Hns. by specialize (Hns _ Hin).
    + apply list_elem_of_singleton in Hin. by injection Hin as -> _.
Qed.
End Guard.

(** ** What is broadcast *)

Section Broadcast.
Context `{Chrono} `{ServerConfig} `{Env} `{SolanaSdk} `{SolanaEnv}.
Context {S C : Type} `{!TransactionRepository S} `{!TransactionCounter C}.
Context (relayer : RelayerRepoModel).

(** Nothing is broadcast. *)
Definition silent (w w' : W S C) : Prop :=
  (w_tick w <= w_tick w')%nat /\ w_solana w' = w_solana w.

#[global] Instance silent_preorder : PreOrder silent.
Proof.
  split; [by intros w; split|]. intros w1 w2 w3 [? ?] [? ?]. split; [lia|congruence].
Qed.

Lemma silent_produce j : preserves silent (produce j).
Proof. intros w. unfold produce. destruct (queue_fault _), w; split; simpl; done || lia. Qed.

Lemma silent_repo_call {A} (c : M S RepositoryError.t A) : preserves silent (repo_call c).
Proof. intros w. unfold repo_call. destruct (c (w_repo w)), w. by split. Qed.
Hint Resolve silent_produce silent_repo_call : preserves_db.

#[global] Instance silent_passive : Passive silent.
Proof.
  split; intros; [exact _|intros w; destruct w; split; simpl; done || lia..|
    apply silent_produce|apply silent_repo_call].
Qed.

Lemma silent_update id u : preserves silent (partial_update_r id u).
Proof. unfold partial_update_r. preserve. Qed.
Hint Resolve silent_update : preserves_db.

Lemma silent_fail tx e : preserves silent (fail_transaction_with_notification relayer tx e).
Proof.
  unfold fail_transaction_with_notification, mark_transaction_as_failed, partial_update. preserve.
Qed.
Hint Resolve silent_fail : preserves_db.

Lemma silent_prepare tx : preserves silent (prepare_transaction_impl relayer tx).
Proof.
  unfold prepare_transaction_impl, prepare_sign, safely, ok, partial_update. preserve.
Qed.

Lemma silent_send_failed tx e : preserves silent (send_failed relayer tx e).
Proof. unfold send_failed, safely. preserve. Qed.
Hint Resolve silent_send_failed : preserves_db.

(** The transaction [x] is [x0] with another blockhash, signed by the relayer at [n]. *)
Definition resigned (n : nat) (x0 x : SolanaTransaction) : Prop :=
  exists h sig, stx_message x = stx_message (set_blockhash h x0) /\
    solana_sign n (message_data (stx_message x)) = Ok sig /\
    stx_signatures x = sig :: tail (stx_signatures x0).

(** What a handler may broadcast for a transaction. *)
Definition broadcasts (h : handler) (tx : TransactionRepoModel) (x : SolanaTransaction) : Prop :=
  exists x0, decode_solana_transaction tx = Ok x0 /\
  match h with
  | HSubmit => x = x0
  | HResubmit => exists n, resigned n x0 x
  | _ => False
  end.

Lemma wp_send x (w : W S C) :
  wp (send_transaction x) (fun _ w' => w_solana w' = w_solana w ++ [x]) w.
Proof. by destruct w. Qed.

Lemma wp_sign x (w : W S C) :
  wp (sign_message x) (fun r w' => w_solana w' = w_solana w /\
    forall sig, r = Ok sig ->
      solana_sign (w_tick w) (message_data (stx_message x)) = Ok sig) w.
Proof.
  unfold sign_message. apply wp_map_err. destruct w. split; [done|]. simpl. intros sig.
  by destruct (solana_sign _ _); simpl; [intros [= ->]|].
Qed.

Lemma wp_silent {E A} (c : M (W S C) E A) w s :
  w_solana w = s -> preserves silent c -> wp c (fun _ w' => w_solana w' = s) w.
Proof. intros <- Hc. apply Hc. Qed.

Lemma submit_broadcasts tx (w : W S C) :
  wp (submit_transaction_impl relayer tx) (fun _ w' =>
    w_solana w' = w_solana w \/
    exists x, w_solana w' = w_solana w ++ [x] /\ is_submittable tx = true /\
      broadcasts HSubmit tx x) w.
Proof.
  unfold submit_transaction_impl. destruct (is_submittable tx) eqn:Hs; simpl; [|by left].
  apply wp_bind, wp_lift. destruct (get_solana_transaction_data _); simpl; [|by left].
  apply wp_bind, wp_lift. destruct (decode_solana_transaction tx) as [x|] eqn:Hx; simpl; [|by left].
  apply wp_bind, wp_try. eapply wp_mono; [|apply wp_send]. intros r w1 Hw1.
  eapply (wp_mono _ (fun _ w' => w_solana w' = w_solana w ++ [x])).
  { intros r' w' Hw'. right. exists x. split_and!; [done..|by exists x]. }
  destruct r as [sig|e].
  - apply wp_silent; [done|]. unfold safely, partial_update. preserve.
  - apply wp_silent; [done|]. preserve.
Qed.

Lemma resubmit_broadcasts tx (w : W S C) :
  wp (resubmit_transaction_impl relayer tx) (fun _ w' =>
    w_solana w' = w_solana w \/
    exists x, w_solana w' = w_solana w ++ [x] /\ is_submittable tx = true /\
      broadcasts HResubmit tx x) w.
Proof.
  unfold resubmit_transaction_impl. destruct (is_submittable tx) eqn:Hs; simpl; [|by left].
  apply wp_bind, wp_lift. destruct (decode_solana_transaction tx) as [x0|] eqn:Hx0; simpl; [|by left].
  apply wp_bind. eapply wp_mono; [|apply (wp_silent _ w _ eq_refl); unfold solana_call; preserve].
  intros [h|e] w1 Hw1; [|by left]. apply wp_bind. eapply wp_mono; [|apply wp_sign].
  intros r w2 [Hw2 Hsig]. rewrite Hw1 in Hw2. destruct r as [sig|e]; [|by left].
  specialize (Hsig sig eq_refl). apply wp_bind, wp_lift.
  destruct (set_first_signature _ _) as [x|[]] eqn:Hx; [|by left..].
  assert (Hb : broadcasts HResubmit tx x).
  { exists x0. split; [done|]. exists (w_tick w1), h, sig. unfold set_first_signature in Hx. simpl in Hx.
    destruct (stx_signatures x0); [done|]. by injection Hx as <-. }
  apply wp_bind. eapply wp_mono; [|apply (wp_silent _ w2 _ Hw2); preserve].
  intros [enc|e] w3 Hw3; [|by left]. apply wp_bind.
  eapply wp_mono; [|apply (wp_silent _ w3 _ Hw3); preserve]. intros [n|e] w4 Hw4; [|by left]. cbv zeta.
  apply wp_bind, wp_try. eapply wp_mono; [|apply wp_send]. intros r w5 Hw5. rewrite Hw4 in Hw5.
  eapply (wp_mono _ (fun _ w' => w_solana w' = w_solana w ++ [x])).
  { intros r' w' Hw'. right. by exists x. }
  apply wp_silent; [done|]. unfold partial_update. preserve.
Qed.

(** C21. What reaches the chain is what was prepared.  A run of any handler broadcasts at most
    one transaction, and only for a transaction that is sent or submitted: a submission
    broadcasts exactly the stored transaction, and a resubmission the stored one with nothing
    changed but the blockhash and the relayer's own signature, made over the new message.
    Preparation, status checks, cancellation and replacement broadcast nothing. *)
Theorem broadcasts_prepared h tx (w : W S C) :
  let w' := snd (run_solana relayer h tx w) in
  w_solana w' = w_solana w \/
  exists x, w_solana w' = w_solana w ++ [x] /\ is_submittable tx = true /\ broadcasts h tx x.
Proof.
  cbv zeta. destruct h; simpl.
  - left. apply silent_prepare.
  - apply submit_broadcasts.
  - apply resubmit_broadcasts.
  - left. destruct (wp_solana_status relayer tx ctx w) as [(_ & Hs & _)|(_ & Hs & _)];
      unfold safely, map_errM; by destruct (handle_transaction_status_impl _ _ _ _).
  - by left.
  - by left.
Qed.
End Broadcast.

(** ** An instance *)

Section Witness.
#[local] Existing Instances sample_chrono sample_config sample_order sample_solana_sdk.
#[local] Instance again_env : Env := clock_at (100 * 10 ^ 9).
#[local] Instance again_node : SolanaEnv :=
  sample_solana_env "H1" false (Ok "sig-H1"%string) unknown_signature.

(** Submitted once, 99 seconds ago, and not found. *)
Definition again_tx : TransactionRepoModel :=
  solana_tx "tx1" Submitted ["sig-H0"%string]
    {| sol_transaction :=
         result_ok (encode_transaction (sample_solana_tx "sig-H0" "Relayer" "H0"));
       sol_instructions := None; sol_signature := Some "sig-H0"%string |}.
Definition again_world : sol_world := sample_world [again_tx] ∅.
Definition again_after : sol_world :=
  snd (handle_transaction_status_impl (solana_relayer sample_policy) again_tx None again_world).

Lemma resubmission_guarded_witness :
  w_jobs again_after = [JSend (send_resubmit "tx1" "solana") None] /\
  guarded again_tx again_world again_after.
Proof.
  assert (Hj : w_jobs again_after = [JSend (send_resubmit "tx1" "solana") None])
    by (vm_compute; reflexivity).
  split; [exact Hj|].
  destruct (resubmission_guarded (solana_relayer sample_policy) again_tx None again_world)
    as (_ & js & Hjs & Hg).
  apply (Hg (send_resubmit "tx1" "solana") None). fold again_after in Hjs. rewrite Hj in Hjs.
  simpl in Hjs. rewrite <- Hjs. by apply list_elem_of_singleton.
Defined.
End Witness.
