(* ===== verification/SolanaChecks.v ===== *)
(** * What the validation of a Solana transaction guarantees

    The checks of [SolanaValidator] are sound: a transaction that passes them respects the
    policy of the relayer.  First the token transfers, then the whole of
    [validate_transaction_impl] and the transactions that preparation stores. *)

From S2P Require Import Prelude Decimal Errors Model Config StellarXdr SolanaSdk Repository.
From S2P Require Import Counter Jobs Effects Sample EvmUtils EvmTransaction EvmStatus Lifecycle.
From S2P Require Import JobHandlers SolanaValidator Solana SolanaSample SolanaProperties.
Open Scope Z_scope.

(** A successful run, split at its first step. *)
Lemma bindM_ok {W E A B} (c : M W E A) (k : A -> M W E B) w b w' :
  bindM c k w = (Ok b, w') -> exists a w1, c w = (Ok a, w1) /\ k a w1 = (Ok b, w').
Proof. unfold bindM. destruct (c w) as [[a|e] w1]; [eauto|done]. Qed.

Lemma liftM_ok {W E A} (r : result E A) (w : W) a w' : liftM r w = (Ok a, w') -> r = Ok a /\ w' = w.
Proof. by intros [= -> ->]. Qed.

Lemma map_errM_ok {W E E' A} (f : E -> E') (c : M W E A) w a w' :
  map_errM f c w = (Ok a, w') -> c w = (Ok a, w').
Proof. unfold map_errM. destruct (c w) as [[?|?] ?]; simpl; [|done]. by intros [= -> ->]. Qed.

Lemma get_solana_ok n d : get_solana_transaction_data n = Ok d -> n = SolanaData d.
Proof. by destruct n; simpl; [|intros [= ->]|]. Qed.

(** Split the run in a hypothesis. *)
Ltac run_ok H :=
  let a := fresh "a" in let w := fresh "w" in let H1 := fresh "Hr" in
  apply bindM_ok in H as (a & w & H1 & H).

(** ** Token transfers *)

Section Tokens.
Context `{Chrono} `{ServerConfig} `{Env} `{SolanaSdk} `{SolanaEnv}.
Context {S C : Type} `{!TransactionRepository S} `{!TransactionCounter C}.
Context (message : Message) (allowed_tokens : list SolanaAllowedTokensPolicy).
Context (relayer_account : Pubkey).

(** The transfer an instruction makes: its source account and amount. *)
Definition decoded_transfer (ix : CompiledInstruction) : option (Pubkey * TokenInstruction * Z) :=
  program_id ← msg_account_keys message !! Z.to_nat (ci_program_id_index ix);
  if negb (is_token_program program_id) then None
  else
  token_ix ← result_ok (unpack_instruction program_id (ci_data ix));
  amount ← transfer_amount token_ix;
  i ← ci_accounts ix !! 0%nat;
  source ← msg_account_keys message !! Z.to_nat i;
  Some (source, token_ix, amount).

(** The amount a list of instructions moves out of an account. *)
Definition total_from (source : Pubkey) (l : list CompiledInstruction) : Z :=
  foldr (fun ix acc =>
    match decoded_transfer ix with
    | Some (s, _, amount) => if String.eqb s source then amount + acc else acc
    | None => acc
    end) 0 l.

(** An account that can be written to and does not sign. *)
Definition plain_account (i : Z) : Prop :=
  is_maybe_writable message (Z.to_nat i) = true /\ is_signer message (Z.to_nat i) = false.

(** The roles of the accounts of a transfer. *)
Definition transfer_roles (ix : CompiledInstruction) (token_ix : TokenInstruction)
    (source : Pubkey) : Prop :=
  source <> relayer_account /\
  exists si di oi, ci_accounts ix !! 0%nat = Some si /\
    ci_accounts ix !! Z.to_nat (dest_position token_ix) = Some di /\
    ci_accounts ix !! Z.to_nat (owner_position token_ix) = Some oi /\
    msg_account_keys message !! Z.to_nat si = Some source /\ plain_account si /\ plain_account di /\
    is_signer message (Z.to_nat oi) = true.

(** The node holds the account with that balance, unfrozen, of a token the policy allows. *)
Definition allowed_source (source : Pubkey) (balance : Z) : Prop :=
  exists n data program_id account token,
    solana_get_account n source = Ok data /\ unpack_account program_id data = Ok account /\
    ta_is_frozen account = false /\ token ∈ allowed_tokens /\ slt_mint token = ta_mint account /\
    balance = ta_amount account.

Lemma check_source_ok p ti a s d (w w' : W S C) b :
  check_source allowed_tokens p ti a s d relayer_account w = (Ok b, w') -> allowed_source s b.
Proof.
  unfold check_source. intros Hr. run_ok Hr. apply map_errM_ok in Hr0. unfold call in Hr0.
  injection Hr0 as Hacc _. run_ok Hr. apply liftM_ok in Hr0 as [Hu%result_map_err_ok ->].
  destruct (ta_is_frozen a1) eqn:Hf; [done|].
  destruct (List.find _ allowed_tokens) as [tok|] eqn:Hfind; [|done].
  apply List.find_some in Hfind as [Hin Hm]. apply String.eqb_eq in Hm.
  run_ok Hr. run_ok Hr. injection Hr as <- _.
  exists (w_tick w), a0, p, a1, tok. split_and!; [done..|by apply list_elem_of_In|done|done].
Qed.

(** *** One instruction *)

Lemma check_transfer_ok p ix ti a seen seen' (w w' : W S C) :
  check_transfer message allowed_tokens relayer_account p ix ti a seen w = (Ok seen', w') ->
  exists i s, ci_accounts ix !! 0%nat = Some i /\ msg_account_keys message !! Z.to_nat i = Some s /\
    transfer_roles ix ti s /\
    tr_transfers seen' =
      <[s := wrapu 64 (default 0 (tr_transfers seen !! s) + a)]> (tr_transfers seen) /\
    ((tr_balances seen' = tr_balances seen /\ is_Some (tr_balances seen !! s)) \/
     exists b, tr_balances seen' = <[s := b]> (tr_balances seen) /\ allowed_source s b).
Proof.
  unfold check_transfer, at_index. intros Hr. cbv zeta in Hr.
  run_ok Hr. apply liftM_ok in Hr0 as [Hsi ->]. run_ok Hr. apply liftM_ok in Hr0 as [Hs ->].
  unfold index in Hsi, Hs. destruct (ci_accounts ix !! Z.to_nat 0) as [si|] eqn:Esi; [|done].
  simpl in Hsi. simplify_eq.
  destruct (msg_account_keys message !! Z.to_nat a0) as [s|] eqn:Es; [|done]. simpl in Hs. simplify_eq.
  destruct (is_maybe_writable message (Z.to_nat a0)) eqn:Hsw; [|done].
  destruct (is_signer message (Z.to_nat a0)) eqn:Hss; [done|].
  destruct (String.eqb_spec a1 relayer_account) as [|Hne]; [done|].
  run_ok Hr. apply liftM_ok in Hr0 as [Hdi ->]. run_ok Hr. apply liftM_ok in Hr0 as [Hd ->].
  unfold index in Hdi. destruct (ci_accounts ix !! Z.to_nat (dest_position ti)) as [di|] eqn:Edi; [|done].
  simpl in Hdi. simplify_eq.
  destruct (is_maybe_writable message (Z.to_nat a2)) eqn:Hdw; [|done].
  destruct (is_signer message (Z.to_nat a2)) eqn:Hds; [done|].
  run_ok Hr. apply liftM_ok in Hr0 as [Hoi ->]. unfold index in Hoi.
  destruct (ci_accounts ix !! Z.to_nat (owner_position ti)) as [oi|] eqn:Eoi; [|done].
  simpl in Hoi. simplify_eq.
  destruct (is_signer message (Z.to_nat a4)) eqn:Hos; [|by run_ok Hr].
  run_ok Hr. injection Hr as <- _. exists a0, a1. split_and!; [done|done| |done|].
  - split; [done|]. by exists a0, a2, a4.
  - simpl. destruct (tr_balances seen !! a1) eqn:Eb.
    + injection Hr0 as <- _. by left.
    + run_ok Hr0. injection Hr0 as <- _. right. eauto using check_source_ok.
Qed.

Lemma check_instruction_ok seen ix seen' (w w' : W S C) :
  check_token_instruction message allowed_tokens relayer_account seen ix w = (Ok seen', w') ->
  match decoded_transfer ix with
  | Some (s, ti, a) =>
      transfer_roles ix ti s /\
      tr_transfers seen' =
        <[s := wrapu 64 (default 0 (tr_transfers seen !! s) + a)]> (tr_transfers seen) /\
      ((tr_balances seen' = tr_balances seen /\ is_Some (tr_balances seen !! s)) \/
       exists b, tr_balances seen' = <[s := b]> (tr_balances seen) /\ allowed_source s b)
  | None => seen' = seen
  end.
Proof.
  unfold check_token_instruction, decoded_transfer, at_index, index. intros Hr. run_ok Hr.
  apply liftM_ok in Hr0 as [Hp ->].
  destruct (msg_account_keys message !! Z.to_nat (ci_program_id_index ix)) as [p|]; [|done].
  simpl in *. simplify_eq. destruct (is_token_program a); simpl in *; [|by injection Hr as <- _].
  destruct (unpack_instruction a (ci_data ix)) as [ti|]; simpl in *; [|by injection Hr as <- _].
  destruct (transfer_amount ti) as [amt|]; simpl in *.
  - apply check_transfer_ok in Hr as (i & s & -> & Hs & Hrest). simpl. by rewrite Hs.
  - run_ok Hr. by injection Hr as <- _.
Qed.

(** *** All instructions *)

(** The maps of the loop: totals are machine words, every account with a total was looked up,
    and every balance is that of an allowed account. *)
Record seen_ok (seen : Transfers) : Prop := {
  so_total : forall s v, tr_transfers seen !! s = Some v ->
    in_u 64 v /\ is_Some (tr_balances seen !! s);
  so_balance : forall s b, tr_balances seen !! s = Some b -> allowed_source s b;
}.

(** One instruction, on the maps. *)
Lemma seen_step seen seen' s a :
  seen_ok seen ->
  tr_transfers seen' = <[s := wrapu 64 (default 0 (tr_transfers seen !! s) + a)]> (tr_transfers seen) ->
  (tr_balances seen' = tr_balances seen /\ is_Some (tr_balances seen !! s)) \/
    (exists b, tr_balances seen' = <[s := b]> (tr_balances seen) /\ allowed_source s b) ->
  seen_ok seen'.
Proof.
  intros [Ht Hb] Htr Hbal. split.
  - intros s' v. rewrite Htr. intros [[<- <-]|[Hne Hv]]%lookup_insert_Some.
    + split; [by apply wrapu_in_u|]. destruct Hbal as [[-> ?]|(b & -> & _)]; [done|].
      by rewrite lookup_insert_eq.
    + destruct (Ht s' v Hv) as [? Hsome]. split; [done|].
      destruct Hbal as [[-> _]|(b & -> & _)]; [done|by rewrite lookup_insert_ne].
  - intros s' b. destruct Hbal as [[-> _]|(b' & -> & Hs)]; [apply Hb|].
    intros [[<- <-]|[_ ?]]%lookup_insert_Some; [done|by apply Hb].
Qed.

Lemma wrapu_add_l x y : wrapu 64 (wrapu 64 x + y) = wrapu 64 (x + y).
Proof. unfold wrapu. apply Z.add_mod_idemp_l. lia. Qed.

Lemma check_instructions_ok l seen seen' (w w' : W S C) :
  foldM (check_token_instruction message allowed_tokens relayer_account) seen l w = (Ok seen', w') ->
  seen_ok seen ->
  seen_ok seen' /\
  (forall s, is_Some (tr_transfers seen !! s) -> is_Some (tr_transfers seen' !! s)) /\
  (forall s, wrapu 64 (default 0 (tr_transfers seen' !! s)) =
     wrapu 64 (default 0 (tr_transfers seen !! s) + total_from s l)) /\
  (forall ix s ti a, ix ∈ l -> decoded_transfer ix = Some (s, ti, a) ->
     transfer_roles ix ti s /\ is_Some (tr_transfers seen' !! s)).
Proof.
  revert seen w. induction l as [|ix l IH]; intros seen w Hr Hok; simpl in Hr.
  { injection Hr as <- _. split_and!; [done..| |set_solver]. intros s. simpl. by rewrite Z.add_0_r. }
  run_ok Hr. apply check_instruction_ok in Hr0. destruct (decoded_transfer ix) as [[[s ti] amt]|] eqn:Hd.
  - destruct Hr0 as (Hroles & Htr & Hbal).
    destruct (IH a w0 Hr (seen_step _ _ _ _ Hok Htr Hbal)) as (Hok' & Hsome & Htot & Hall).
    assert (Hs : is_Some (tr_transfers a !! s)) by by rewrite Htr, lookup_insert_eq.
    split_and!; [done| | |].
    + intros s' Hs'. apply Hsome. rewrite Htr.
      destruct (decide (s = s')) as [<-|]; [by rewrite lookup_insert_eq|by rewrite lookup_insert_ne].
    + intros s'. rewrite Htot, Htr. simpl. rewrite Hd.
      destruct (String.eqb_spec s s') as [<-|Hne].
      * rewrite lookup_insert_eq. simpl. rewrite wrapu_add_l. f_equal. lia.
      * by rewrite lookup_insert_ne.
    + intros ix' s' ti' a' [->|Hin]%elem_of_cons Hd'; [|by eapply Hall].
      rewrite Hd in Hd'. simplify_eq. split; [done|by apply Hsome].
  - subst a. destruct (IH seen w0 Hr Hok) as (Hok' & Hsome & Htot & Hall). split_and!; [done|done| |].
    + intros s. rewrite Htot. simpl. by rewrite Hd.
    + intros ix' s' ti' a' [->|Hin]%elem_of_cons Hd'; [congruence|by eapply Hall].
Qed.

Lemma check_totals_ok balances l (w w' : W S C) u :
  check_totals balances l w = (Ok u, w') ->
  forall s v, (s, v) ∈ l -> exists b, balances !! s = Some b /\ v <= b.
Proof.
  revert w. induction l as [|[s v] l IH]; intros w Hr s' v' Hin; [set_solver|]. simpl in Hr.
  run_ok Hr. apply liftM_ok in Hr0 as [Hb ->]. destruct (balances !! s) as [b|] eqn:Eb; [|done].
  simpl in Hb. simplify_eq. destruct (Z.ltb_spec a v); [done|].
  apply elem_of_cons in Hin as [[= -> ->]|Hin]; [eauto|by eapply IH].
Qed.
End Tokens.

Section TokenPolicy.
Context `{Chrono} `{ServerConfig} `{Env} `{SolanaSdk} `{SolanaEnv}.
Context {S C : Type} `{!TransactionRepository S} `{!TransactionCounter C}.

(** The token transfers of a transaction are covered. *)
Definition transfers_covered (m : Message) (tokens : list SolanaAllowedTokensPolicy)
    (relayer_account : Pubkey) : Prop :=
  forall ix source token_ix amount, ix ∈ msg_instructions m ->
    decoded_transfer m ix = Some (source, token_ix, amount) ->
    transfer_roles m relayer_account ix token_ix source /\
    exists balance, allowed_source tokens source balance /\
      wrapu 64 (total_from m source (msg_instructions m)) <= balance.

Lemma validated_transfers tx policy tokens relayer_account (w w' : W S C) u :
  slpol_allowed_tokens policy = Some tokens -> tokens <> [] ->
  validate_token_transfers tx policy relayer_account w = (Ok u, w') ->
  transfers_covered (stx_message tx) tokens relayer_account.
Proof.
  intros Hp Hne Hr. unfold validate_token_transfers in Hr. rewrite Hp in Hr.
  destruct tokens as [|tok tokens]; [done|]. run_ok Hr.
  apply check_instructions_ok in Hr0 as (Hok & _ & Htot & Hall); [|by split; simpl; intros ??; rewrite lookup_empty].
  intros ix s ti amt Hin Hd. destruct (Hall ix s ti amt Hin Hd) as [Hroles [v Hv]]. split; [done|].
  destruct (check_totals_ok _ _ _ _ _ Hr s v) as (b & Hb & Hle); [by apply elem_of_map_to_list|].
  exists b. split; [by eapply so_balance|]. specialize (Htot s). rewrite Hv in Htot. simpl in Htot.
  rewrite lookup_empty in Htot. simpl in Htot. rewrite Z.add_0_l in Htot.
  destruct Hok as [Hword _]. destruct (Hword s v Hv) as [Hu _]. by rewrite <- Htot, wrapu_small.
Qed.
End TokenPolicy.

(** ** The whole validation *)

Section Policy.
Context `{Chrono} `{ServerConfig} `{Env} `{SolanaSdk} `{SolanaEnv}.
Context {S C : Type} `{!TransactionRepository S} `{!TransactionCounter C}.
Context (relayer : RelayerRepoModel).

Record within_policy (policy : RelayerSolanaPolicy) (payer : Pubkey) (x : SolanaTransaction)
  : Prop := {
  po_payer : head (msg_account_keys (stx_message x)) = Some payer;
  po_signer : 1 <= mh_num_required_signatures (msg_header (stx_message x));
  po_signatures : forall k, slpol_max_signatures policy = Some k ->
    mh_num_required_signatures (msg_header (stx_message x)) <= k;
  po_allowed : forall l k, slpol_allowed_accounts policy = Some l ->
    k ∈ msg_account_keys (stx_message x) -> k ∈ l;
  po_disallowed : forall l k, slpol_disallowed_accounts policy = Some l ->
    k ∈ msg_account_keys (stx_message x) -> k ∉ l;
  po_programs : forall l ix, slpol_allowed_programs policy = Some l ->
    ix ∈ msg_instructions (stx_message x) -> exists k,
      msg_account_keys (stx_message x) !! Z.to_nat (ci_program_id_index ix) = Some k /\ k ∈ l;
  po_size : exists b, bincode_serialize x = Ok b /\
    Z.of_nat (length b) <= default DEFAULT_SOLANA_MAX_TX_DATA_SIZE (slpol_max_tx_data_size policy);
  po_blockhash : exists n,
    solana_is_blockhash_valid n (msg_recent_blockhash (stx_message x)) = Ok true;
  (** The node answered the simulation; what it answered is not looked at. *)
  po_simulated : exists n answer, solana_simulate_transaction n (stx_message x) = Ok answer;
  po_tokens : forall tokens, slpol_allowed_tokens policy = Some tokens -> tokens <> [] ->
    transfers_covered (stx_message x) tokens payer;
  po_fee : exists n1 n2 n3 base priority balance,
    solana_get_fee_for_message n1 (stx_message x) = Ok base /\
    solana_recent_prioritization_fees n2 = Ok priority /\
    solana_get_balance n3 (rel_address relayer) = Ok balance /\
    let fee := wrapu 64 (base + foldr Z.max 0 priority) in
    (forall k, slpol_max_allowed_fee_lamports policy = Some k -> fee <= k) /\
    wrapu 64 (fee + default DEFAULT_SOLANA_MIN_BALANCE (slpol_min_balance policy)) <= balance;
}.

Lemma existsb_eqb_in k l : existsb (String.eqb k) l = true <-> k ∈ l.
Proof.
  rewrite existsb_exists, list_elem_of_In. split.
  - intros (k' & Hin & ->%String.eqb_eq). done.
  - intros Hin. exists k. by rewrite String.eqb_refl.
Qed.

Lemma check_programs_ok keys l ixs u :
  check_programs keys l ixs = Ok u -> forall ix, ix ∈ ixs ->
  exists k, keys !! Z.to_nat (ci_program_id_index ix) = Some k /\ k ∈ l.
Proof.
  induction ixs as [|i ixs IH]; intros Hr ix Hin; [set_solver|]. simpl in Hr. unfold index in Hr.
  destruct (keys !! Z.to_nat (ci_program_id_index i)) as [k|] eqn:Hk; [|done]. simpl in Hr.
  destruct (existsb (String.eqb k) l) eqn:He; [|done]. simpl in Hr.
  apply elem_of_cons in Hin as [->|Hin]; [|by apply IH]. exists k. by rewrite <- existsb_eqb_in.
Qed.

(** The synchronous checks. *)
Lemma sync_ok x policy payer u :
  sync_validations x policy payer = Ok u ->
  head (msg_account_keys (stx_message x)) = Some payer /\
  1 <= mh_num_required_signatures (msg_header (stx_message x)) /\
  (forall k, slpol_max_signatures policy = Some k ->
     mh_num_required_signatures (msg_header (stx_message x)) <= k) /\
  (forall l k, slpol_allowed_accounts policy = Some l ->
     k ∈ msg_account_keys (stx_message x) -> k ∈ l) /\
  (forall l k, slpol_disallowed_accounts policy = Some l ->
     k ∈ msg_account_keys (stx_message x) -> k ∉ l) /\
  (forall l ix, slpol_allowed_programs policy = Some l ->
     ix ∈ msg_instructions (stx_message x) -> exists k,
       msg_account_keys (stx_message x) !! Z.to_nat (ci_program_id_index ix) = Some k /\ k ∈ l) /\
  (exists b, bincode_serialize x = Ok b /\
     Z.of_nat (length b) <= default DEFAULT_SOLANA_MAX_TX_DATA_SIZE (slpol_max_tx_data_size policy)).
Proof.
  unfold sync_validations, validate_tx_allowed_accounts, validate_tx_disallowed_accounts,
    validate_allowed_programs, validate_max_signatures, validate_fee_payer, validate_data_size.
  destruct (match slpol_allowed_accounts policy with Some _ => _ | None => _ end) as [[]|] eqn:Ha; [|done].
  destruct (match slpol_disallowed_accounts policy with Some _ => _ | None => _ end) as [[]|] eqn:Hd; [|done].
  destruct (match slpol_allowed_programs policy with Some _ => _ | None => _ end) as [[]|] eqn:Hp; [|done].
  destruct (match slpol_max_signatures policy with Some _ => _ | None => _ end) as [[]|] eqn:Hs; [|done].
  simpl. destruct (head (msg_account_keys (stx_message x))) as [fp|]; [|done]. simpl.
  destruct (String.eqb_spec fp payer) as [->|]; [|done]. simpl.
  destruct (Z.ltb_spec (mh_num_required_signatures (msg_header (stx_message x))) 1); [done|]. simpl.
  destruct (bincode_serialize x) as [b|]; [|done]. simpl.
  destruct (Z.ltb_spec (default DEFAULT_SOLANA_MAX_TX_DATA_SIZE (slpol_max_tx_data_size policy))
    (Z.of_nat (length b))); [done|]. intros _. split_and!; [done|lia| | | | |eauto].
  - intros k Hk. rewrite Hk in Hs. by destruct (Z.ltb_spec k
      (mh_num_required_signatures (msg_header (stx_message x)))) in Hs.
  - intros l k Hl Hk. rewrite Hl in Ha. destruct (List.find _ _) eqn:E in Ha; [done|].
    apply list_elem_of_In in Hk. apply (List.find_none _ _ E), negb_false_iff in Hk.
    by apply existsb_eqb_in.
  - intros l k Hl Hk Hin. rewrite Hl in Hd. destruct (List.find _ _) eqn:E in Hd; [done|].
    apply list_elem_of_In in Hk. apply (List.find_none _ _ E) in Hk. apply existsb_eqb_in in Hin.
    congruence.
  - intros l ix Hl. rewrite Hl in Hp. by eapply check_programs_ok.
Qed.

(** [try_join] succeeds only if every one of its futures does. *)
Lemma join_results (futures : list (P (S := S) (C := C) unit)) acc rs w w' :
  foldM (fun acc c => let* r := try_ c in retM (acc ++ [r])) acc futures w
    = ((Ok rs : result (abrupt TransactionError.t) _), w') ->
  exists rs', rs = acc ++ rs' /\ Forall2 (fun c r => exists w1, fst (c w1) = r) futures rs'.
Proof.
  revert acc w. induction futures as [|c futures IH]; intros acc w Hr; simpl in Hr.
  - injection Hr as <- _. exists []. by rewrite app_nil_r.
  - run_ok Hr. unfold bindM, try_, retM in Hr0. destruct (c w) as [r w1] eqn:Hc.
    injection Hr0 as <- <-. apply IH in Hr as (rs' & -> & Hall). exists (r :: rs').
    rewrite <- app_assoc. split; [done|]. constructor; [|done]. exists w. by rewrite Hc.
Qed.

Lemma join_ok sync (futures : list (P (S := S) (C := C) unit)) w u w' :
  try_join sync futures w = (Ok u, w') ->
  (exists a w1, sync w = (Ok a, w1)) /\
  Forall (fun c => exists w1 a w2, c w1 = (Ok a, w2)) futures.
Proof.
  unfold try_join. intros Hr. apply bindM_ok in Hr as (a & w1 & Hsync & Hr). split; [eauto|].
  apply bindM_ok in Hr as (rs0 & w2 & Hres & Hr). apply bindM_ok in Hr as (winner & w3 & _ & Hr).
  apply join_results in Hres as (rs & -> & Hall). simpl in Hr.
  assert (Hnone : omap error_of rs = []).
  { destruct (omap error_of rs) as [|e errs] eqn:He; [done|].
    destruct (lookup_lt_is_Some_2 (e :: errs) (winner mod length (e :: errs))) as [x Hx].
    - apply Nat.mod_upper_bound. simpl. lia.
    - by rewrite Hx in Hr. }
  clear -Hall Hnone. induction Hall as [|c r futures rs [w1 Hc] _ IH]; [constructor|].
  destruct r as [a|e]; simpl in Hnone; [|done]. constructor; [|by apply IH].
  destruct (c w1) as [r w2] eqn:E. simpl in Hc. subst. eauto.
Qed.

Lemma blockhash_ok x (w w' : W S C) u :
  validate_blockhash x w = (Ok u, w') ->
  exists n, solana_is_blockhash_valid n (msg_recent_blockhash (stx_message x)) = Ok true.
Proof.
  unfold validate_blockhash, provider_call. intros Hr. run_ok Hr. apply map_errM_ok in Hr0.
  injection Hr0 as Hb _. destruct a; [eauto|done].
Qed.

Lemma fees_ok x policy (w w' : W S C) u :
  fee_validations relayer x policy w = (Ok u, w') ->
  exists n1 n2 n3 base priority balance,
    solana_get_fee_for_message n1 (stx_message x) = Ok base /\
    solana_recent_prioritization_fees n2 = Ok priority /\
    solana_get_balance n3 (rel_address relayer) = Ok balance /\
    let fee := wrapu 64 (base + foldr Z.max 0 priority) in
    (forall k, slpol_max_allowed_fee_lamports policy = Some k -> fee <= k) /\
    wrapu 64 (fee + default DEFAULT_SOLANA_MIN_BALANCE (slpol_min_balance policy)) <= balance.
Proof.
  unfold fee_validations, validation. intros Hr. run_ok Hr. apply map_errM_ok in Hr0.
  unfold calculate_total_fee in Hr0. run_ok Hr0. injection Hr1 as Hbase _. run_ok Hr0.
  injection Hr1 as Hprio _. injection Hr0 as <- _. run_ok Hr. apply map_errM_ok, liftM_ok in Hr0 as [Hmax _].
  apply map_errM_ok, map_errM_ok in Hr. unfold validate_sufficient_relayer_balance, provider_call in Hr.
  run_ok Hr. apply map_errM_ok in Hr0. injection Hr0 as Hbal _.
  do 6 eexists. split_and!; [exact Hbase|exact Hprio|exact Hbal| |].
  - intros k Hk. unfold validate_max_fee in Hmax. rewrite Hk in Hmax.
    destruct (Z.ltb_spec k (wrapu 64 (a0 + foldr Z.max 0 a1))); [done|lia].
  - destruct (_ <? _) eqn:Hlt in Hr; [done|]. by apply Z.ltb_ge in Hlt.
Qed.

Lemma validated_within_policy x (w w' : W S C) u :
  validate_transaction_impl relayer x w = (Ok u, w') ->
  within_policy (get_solana_policy (rel_policies relayer)) (rel_address relayer) x.
Proof.
  unfold validate_transaction_impl, ok, validation. cbv zeta. intros Hr. run_ok Hr.
  apply liftM_ok in Hr0 as [Hk%result_map_err_ok%result_map_err_ok ->].
  assert (a = rel_address relayer) as ->.
  { unfold pubkey_from_str in Hk. destruct (pubkey_parse_error _); [done|]. congruence. }
  apply join_ok in Hr as [(v & w1 & [Hs _]%map_errM_ok%liftM_ok) Hall].
  apply sync_ok in Hs as (? & ? & ? & ? & ? & ? & ?).
  apply Forall_cons in Hall as [(w2 & u2 & w2' & Hbh%map_errM_ok%map_errM_ok) Hall].
  apply Forall_cons in Hall as [(w3 & u3 & w3' & Hsim%map_errM_ok%map_errM_ok) Hall].
  apply Forall_cons in Hall as [(w4 & u4 & w4' & Htok%map_errM_ok) Hall].
  apply Forall_cons in Hall as [(w5 & u5 & w5' & Hfee) _].
  split; [done..|by eapply blockhash_ok| | |by eapply fees_ok].
  - run_ok Hsim. apply map_errM_ok in Hr. injection Hr as Hr _. eauto.
  - intros tokens Ht Hne. by eapply validated_transfers.
Qed.

(** ** Preparation *)

Context `{!SolanaSdkLaws}.

(** The transaction a request stands for. *)
Definition requested (d : SolanaTransactionData) (x : SolanaTransaction) : Prop :=
  match sol_transaction d with
  | Some transaction_str => decode_transaction transaction_str = Ok x
  | None => exists instructions h, sol_instructions d = Some instructions /\
      build_transaction_from_instructions instructions (rel_address relayer) h = Ok x
  end.

(** [t'] stores the transaction [t] asks for, checked and signed. *)
Definition prepared (t t' : TransactionRepoModel) : Prop :=
  exists d d' x x' encoded sig n,
    tx_network_data t = SolanaData d /\ requested d x /\
    within_policy (get_solana_policy (rel_policies relayer)) (rel_address relayer) x /\
    solana_sign n (message_data (stx_message x)) = Ok sig /\
    stx_message x' = stx_message x /\ stx_signatures x' = sig :: tail (stx_signatures x) /\
    tx_network_data t' = SolanaData d' /\ sol_signature d' = Some sig /\
    sol_transaction d' = Some encoded /\ decode_transaction encoded = Ok x'.

Lemma build_requests d :
  ensures (fun o => forall x, o = Some x -> requested d x) (prepare_build (S := S) (C := C) relayer d).
Proof.
  intros w o w' Hr x ->. unfold prepare_build, requested, ok in *.
  destruct (sol_transaction d) as [s|].
  - apply bindM_ok in Hr as (t & w1 & [Hd%result_map_err_ok _]%liftM_ok & Hr). injection Hr as -> _.
    by apply result_map_err_ok in Hd.
  - destruct (sol_instructions d) as [ins|]; [|done].
    apply bindM_ok in Hr as (k & w1 & [Hk%result_map_err_ok%result_map_err_ok _]%liftM_ok & Hr).
    apply bindM_ok in Hr as (h & w2 & _ & Hr).
    apply bindM_ok in Hr as (t & w3 & [Hb%result_map_err_ok _]%liftM_ok & Hr). injection Hr as -> _.
    exists ins, h. split; [done|]. unfold pubkey_from_str in Hk.
    destruct (pubkey_parse_error _); [done|]. by injection Hk as ->.
Qed.

Lemma sign_ok x :
  ensures (fun sig => exists n, solana_sign n (message_data (stx_message x)) = Ok sig)
    (sign_message (S := S) (C := C) x).
Proof. intros w sig w' Hr%map_errM_ok. injection Hr as Hs _. eauto. Qed.

Lemma fail_not_sent (t : TransactionRepoModel) (Q : TransactionRepoModel -> Prop) e :
  is_final_state (tx_status t) = false ->
  moves (S := S) (C := C) t (fun t' => tx_status t' = Sent -> Q t')
    (fail_transaction_with_notification relayer t e).
Proof.
  intros Hf. unfold fail_transaction_with_notification, mark_transaction_as_failed.
  apply moves_then; [|preserve]. by apply moves_map_err, moves_update.
Qed.

Lemma moves_prepared t :
  tx_status t = Pending ->
  moves (S := S) (C := C) t (fun t' => tx_status t' = Sent -> prepared t t')
    (prepare_transaction_impl relayer t).
Proof.
  intros Hs. assert (Hf : is_final_state (tx_status t) = false) by by rewrite Hs.
  unfold prepare_transaction_impl. rewrite Hs. simpl. unfold ok.
  apply moves_lift. intros d Hd%result_map_err_ok. apply get_solana_ok in Hd.
  eapply moves_bind_ensures; [preserve|apply build_requests|]. intros [x|] Hx; cbv beta in Hx.
  2: by apply moves_map_err, fail_not_sent.
  eapply (moves_bind_ensures _ _ (fun r => forall u, r = Ok u ->
    within_policy (get_solana_policy (rel_policies relayer)) (rel_address relayer) x)); [preserve| |].
  { intros w r w' Hr u ->. unfold try_ in Hr.
    destruct (validate_transaction_impl relayer x w) as [v w1] eqn:Hv. injection Hr as -> _.
    by eapply validated_within_policy. }
  intros [u|[|e]] Hpol; [|apply moves_passive; preserve|].
  2: { destruct (is_transient e); [apply moves_passive; preserve|by apply moves_map_err, fail_not_sent]. }
  unfold prepare_sign. eapply moves_bind_ensures; [preserve|apply sign_ok|]. intros sig [n Hsig].
  apply moves_lift. intros x' Hx'. eapply moves_bind_ensures; [preserve|apply encoded_ok|].
  intros e He. apply moves_then; [|intros a; unfold safely; preserve].
  apply moves_map_err, moves_map_err, moves_update; [done|]. intros m _.
  eexists d, _, x, x', e, sig, n. split_and!; [exact Hd|by apply Hx|by eapply Hpol|exact Hsig| | |done|done|done|by apply transaction_roundtrip].
  - unfold set_first_signature in Hx'. destruct (stx_signatures x); [done|]. by injection Hx' as <-.
  - unfold set_first_signature in Hx'. destruct (stx_signatures x); [done|]. by injection Hx' as <-.
Qed.

(** C8. Nothing is signed that the policy forbids, as far as the checks look.  If preparation
    leaves a transaction marked as sent, what it stored is the transaction the request stands for
    (decoded, or built from the instructions) with the relayer's signature over its message in
    first place, and that transaction passed every check: the relayer pays the fee and signs; the
    number of signatures and the size are within their limits; every account and program is
    allowed and none is disallowed; the node accepted the blockhash; the token transfers are
    covered; and the fee is within its limit and, with the minimum, within the relayer's balance.
    These sums are the machine's: the fee, the fee with the minimum, and the total taken from a
    token account are compared modulo 2^64.  The node has answered a simulation, but a simulation
    that reports a failed execution counts as an answer. *)
Theorem prepared_respects_policy t (w : W S C) t' :
  tx_status t = Pending -> view w !! tx_id t = Some t ->
  view (snd (prepare_transaction_impl relayer t w)) !! tx_id t = Some t' -> tx_status t' = Sent ->
  prepared t t'.
Proof.
  intros Hs Hw Hw' Hs'. destruct (moves_prepared t Hs w Hw) as [Hv|(t1 & Hp & Hv)]; rewrite Hv in Hw'.
  - congruence.
  - rewrite lookup_insert_eq in Hw'. injection Hw' as <-. by apply Hp.
Qed.
End Policy.

(** ** An instance *)

Section Witness.
#[local] Existing Instances sample_chrono sample_config sample_order sample_solana_sdk.
#[local] Existing Instance sample_solana_laws.
#[local] Instance prep_env : Env := clock_at (2 * 10 ^ 9).
#[local] Instance prep_node : SolanaEnv :=
  sample_solana_env "H0" true (Ok "sig-H0"%string) unknown_signature.

Definition prep_before : sol_world := sol_intake sol_empty.
Definition prep_after : sol_world :=
  snd (prepare_transaction_impl (solana_relayer sample_policy) sol_request prep_before).

Lemma prepared_respects_policy_witness :
  tx_status (sol_stored prep_after) = Sent /\
  prepared (solana_relayer sample_policy) sol_request (sol_stored prep_after).
Proof.
  split; [vm_compute; reflexivity|].
  apply (prepared_respects_policy (solana_relayer sample_policy) sol_request prep_before
    (sol_stored prep_after)); vm_compute; reflexivity.
Defined.
End Witness.
