(* ===== verification/SolanaDeviations.v ===== *)
(** * Where the Solana code departs from its comments

    Runs in which a transaction is executed twice, checks that let a transfer through that
    the policy means to refuse, and states that are never left. *)

From S2P Require Import Prelude Decimal Errors Model Config StellarXdr SolanaSdk Repository.
From S2P Require Import Counter Jobs Effects Sample EvmUtils EvmTransaction EvmStatus Lifecycle.
From S2P Require Import JobHandlers SolanaValidator Solana SolanaSample SolanaProperties.
From S2P Require Import SolanaChecks SolanaResubmission.
Open Scope Z_scope.

(** ** A landed submission is sent again *)

Section Landed.
Context `{Chrono} `{ServerConfig} `{Env} `{SolanaSdk} `{SolanaEnv}.
Context {S C : Type} `{!TransactionRepository S} `{!TransactionCounter C}.
Context (relayer : RelayerRepoModel) (tx : TransactionRepoModel) (x : SolanaTransaction).

(** A prepared transaction with no signature recorded, which only the relayer signs. *)
Context (Hsent : tx_status tx = Sent) (Hnone : tx_hashes tx = []).
Context (Hdecode : decode_solana_transaction tx = Ok x).
Context (Hsole : mh_num_required_signatures (msg_header (stx_message x)) <= 1).
Context (Hslot : stx_signatures x <> []).

(** Its submission, answered that it has been processed, leaves it as it is. *)
Lemma submit_already_processed m (w : W S C) :
  solana_send_transaction (w_tick w) x = Err (SolanaProviderError.AlreadyProcessed m) ->
  submit_transaction_impl relayer tx w = (Ok tx, push_solana x (tick w)).
Proof.
  intros Ha. unfold submit_transaction_impl, is_submittable. rewrite Hsent. simpl.
  assert (exists d, get_solana_transaction_data (tx_network_data tx) = Ok d) as [d Hd].
  { unfold decode_solana_transaction in Hdecode.
    destruct (get_solana_transaction_data (tx_network_data tx)); [eauto|done]. }
  unfold bindM, ok, liftM, try_, send_transaction. rewrite Hd, Hdecode. simpl. by rewrite Ha.
Qed.

(** What the clock, the node and the queue say to a status check that starts at [w]. *)
Definition expired_unseen (c : Z) (w : W S C) : Prop :=
  forall n, (w_tick w <= n < w_tick w + 5)%nat ->
    seconds SOLANA_MIN_AGE_FOR_RESUBMIT_CHECK_SECONDS <= env_now n - c <
      minutes SOLANA_SENT_TIMEOUT_MINUTES /\
    (forall d, deadline tx = Some d -> env_now n <= d) /\
    blockhash_gone n (msg_recent_blockhash (stx_message x)) /\ queue_fault n = None.

Lemma not_expired_step c (w : W S C) :
  expired_unseen c w -> exists k, (k <= 1)%nat /\
    is_valid_until_expired tx w = (Ok false, Nat.iter k tick w).
Proof.
  intros Hn. destruct (Hn (w_tick w)) as (_ & Hd & _); [lia|].
  unfold is_valid_until_expired, deadline in *.
  destruct (tx_valid_until tx ≫= parse_rfc3339) as [v|]; simpl in *;
    [|destruct (parse_rfc3339 (tx_created_at tx)) as [t|]; simpl in *; [|by exists 0%nat; split; [lia|]]];
    exists 1%nat; (split; [lia|]); unfold bindM, now, ask; simpl; unfold retM;
    by rewrite (proj2 (Z.ltb_ge _ _)) by by apply Hd.
Qed.

Lemma w_tick_iter k (w : W S C) : w_tick (Nat.iter k tick w) = (k + w_tick w)%nat.
Proof. induction k as [|k IH]; [done|]. simpl. rewrite <- IH. by destruct (Nat.iter k tick w). Qed.

Lemma tick_iter_same k (w : W S C) :
  view (Nat.iter k tick w) = view w /\ w_jobs (Nat.iter k tick w) = w_jobs w /\
  w_solana (Nat.iter k tick w) = w_solana w.
Proof. induction k as [|k IH]; [done|]. simpl. by destruct (Nat.iter k tick w). Qed.

(** Its status check, once its blockhash has expired, queues a resubmission; the node is not
    asked about any signature. *)
Lemma check_queues_resubmission c (w : W S C) :
  age_from tx = Some c -> expired_unseen c w -> exists k,
    handle_transaction_status_impl relayer tx None w =
      (Ok tx, push_job (JSend (send_resubmit (tx_id tx) (tx_relayer_id tx)) None) (Nat.iter k tick w)).
Proof.
  intros Hc Hn. unfold handle_transaction_status_impl, status_flow, check_onchain_transaction_status.
  rewrite Hsent. cbn [is_final_state status_in]. unfold bindM at 1, retM at 1.
  change (negb (status_eqb Sent Sent)) with false. unfold bindM at 1, retM at 1. cbv iota beta.
  unfold handle_resubmit_or_expiration, bindM at 1.
  destruct (not_expired_step c w Hn) as (k & Hk & ->). cbv iota beta.
  assert (Hnow : forall j, (k + j < 5)%nat -> seconds 90 <= env_now (k + j + w_tick w) - c < minutes 3 /\
    blockhash_gone (k + j + w_tick w) (msg_recent_blockhash (stx_message x)) /\
    queue_fault (k + j + w_tick w) = None).
  { intros j Hj. destruct (Hn (k + j + w_tick w)%nat) as (? & _ & ? & ?); [lia|]. by split; [|split]. }
  unfold give_up_reason, has_exceeded_timeout, get_time_since_sent_or_created_at.
  unfold age_from in Hc. rewrite Hsent, Hc. change (status_eqb Sent Submitted) with false. cbv iota.
  set (w0 := Nat.iter k tick w).
  assert (Ht : forall j, w_tick (Nat.iter j tick w0) = (k + j + w_tick w)%nat).
  { intros j. unfold w0. rewrite !w_tick_iter. lia. }
  pose proof (Ht 0%nat) as Ht0. pose proof (Ht 1%nat) as Ht1. pose proof (Ht 2%nat) as Ht2.
  pose proof (Ht 3%nat) as Ht3. simpl in Ht0, Ht1, Ht2, Ht3.
  destruct (Hnow 0%nat ltac:(lia)) as ([_ Hmax] & _). destruct (Hnow 1%nat ltac:(lia)) as ([Hmin _] & _).
  unfold bindM, now, ask, liftM, retM, ok_or. simpl. rewrite Ht0.
  rewrite (proj2 (Z.leb_gt _ _)) by exact Hmax. simpl. rewrite Ht1.
  rewrite (proj2 (Z.ltb_ge _ _)).
  2: { unfold num_seconds, seconds in *. change (10 ^ 9) with 1000000000 in *.
       unfold SOLANA_MIN_AGE_FOR_RESUBMIT_CHECK_SECONDS.
       Z.to_euclidean_division_equations. lia. }
  unfold check_any_signature_on_chain. rewrite Hnone. simpl.
  unfold resubmit_if_expired, bindM, liftM. rewrite Hdecode. unfold is_blockhash_valid, bindM, try_, call.
  rewrite Ht2. destruct (Hnow 2%nat ltac:(lia)) as (_ & Hgone & _).
  assert (Hq : forall w1 : W S C, w_tick w1 = w_tick (tick (tick (tick w0))) ->
    produce_or "enqueue resubmit job" (JSend (send_resubmit (tx_id tx) (tx_relayer_id tx)) None) w1 =
    (Ok tt, push_job (JSend (send_resubmit (tx_id tx) (tx_relayer_id tx)) None) (tick w1))).
  { intros w1 Hw1. unfold produce_or, map_errM, produce. rewrite Hw1, Ht3.
    by destruct (Hnow 3%nat ltac:(lia)) as (_ & _ & ->). }
  exists (4 + k)%nat. unfold is_resubmitable. rewrite (proj2 (Z.leb_le _ _) Hsole).
  destruct Hgone as [->|[m ->]]; simpl; unfold retM; by rewrite Hq.
Qed.

(** Its resubmission broadcasts it under another blockhash. *)
Lemma resubmission_broadcasts h sig (w : W S C) :
  solana_get_latest_blockhash (w_tick w) = Ok h ->
  solana_sign (Datatypes.S (w_tick w)) (message_data (stx_message (set_blockhash h x))) = Ok sig ->
  let x' := {| stx_signatures := sig :: tail (stx_signatures x);
               stx_message := stx_message (set_blockhash h x) |} in
  is_ok (encode_transaction x') = true ->
  w_solana (snd (resubmit_transaction_impl relayer tx w)) = w_solana w ++ [x'].
Proof.
  intros Hh Hsig x' Henc. unfold resubmit_transaction_impl, is_submittable. rewrite Hsent. simpl.
  unfold bindM at 1, ok, liftM at 1. rewrite Hdecode. simpl.
  unfold bindM at 1, solana_call, map_errM, call. rewrite Hh. simpl.
  unfold bindM at 1, sign_message, map_errM, call.
  assert (w_tick (tick w) = Datatypes.S (w_tick w)) as -> by by destruct w. rewrite Hsig. simpl.
  unfold bindM at 1, liftM at 1, set_first_signature. simpl.
  destruct (stx_signatures x) as [|s0 rest]; [done|]. simpl in x'. fold x'.
  unfold bindM at 1, encoded, ok, liftM at 1. fold x'.
  destruct (encode_transaction x') as [e|]; [|done]. simpl.
  unfold bindM at 1, now, ask. simpl. unfold bindM at 1, try_ at 1, send_transaction.
  set (w4 := push_solana _ _). assert (w_solana w4 = w_solana w ++ [x']) as Hw4 by by destruct w.
  assert (Hsil : forall c : P (S := S) (C := C) TransactionRepoModel, preserves silent c ->
    w_solana (snd (c w4)) = w_solana w ++ [x']).
  { intros c Hc. by destruct (Hc w4) as [_ ->]. }
  destruct (solana_send_transaction _ x') as [sg|e1]; [|destruct (is_already_processed e1); [done|]];
    apply (Hsil _); unfold send_failed, safely, partial_update; preserve; apply silent_update || apply silent_fail.
Qed.

End Landed.

(** *** The whole story, from intake *)

Section Twice.
(** What the node knows about signatures, throughout. *)
Context (statuses : Signature -> result SolanaProviderError.t (list (option SignatureStatus))).

Definition node_at (blockhash : Hash) (accepted : bool)
    (send : result SolanaProviderError.t Signature) : SolanaEnv :=
  sample_solana_env blockhash accepted send statuses.

(** The transaction is prepared at 2 seconds and broadcast at 3 seconds; the answer is lost.
    The job is retried at 4 seconds, and the node answers that the transaction has been
    processed.  At 100 seconds its status is checked, and at 101 seconds the job this queues is
    run. *)
Definition twice_prepared : sol_world :=
  sol_run (2 * 10 ^ 9) (node_at "H0" true (Ok "sig-H0"%string)) sample_policy HPrepare
    (sol_intake sol_empty).
Definition twice_lost : sol_world :=
  sol_run (3 * 10 ^ 9) (node_at "H0" true (Err (SolanaProviderError.NetworkError "timed out")))
    sample_policy HSubmit twice_prepared.
Definition twice_submitted : sol_world :=
  sol_run (4 * 10 ^ 9) (node_at "H0" true (Err (SolanaProviderError.AlreadyProcessed "seen")))
    sample_policy HSubmit twice_lost.
Definition twice_checked : sol_world :=
  sol_run (100 * 10 ^ 9) (node_at "H1" false (Ok "sig-H1"%string)) sample_policy (HStatus None)
    twice_submitted.
Definition twice_resubmitted : sol_world :=
  sol_run (101 * 10 ^ 9) (node_at "H1" true (Ok "sig-H1"%string)) sample_policy HResubmit
    twice_checked.

Lemma landed_submission_run :
  let sent := twice_submitted in
  let again := twice_resubmitted in
  let first := sample_solana_tx "sig-H0" "Relayer" "H0" in
  tx_status (sol_stored sent) = Sent /\ tx_hashes (sol_stored sent) = [] /\
  w_solana again = [first; first; sample_solana_tx "sig-H1" "Relayer" "H1"] /\
  tx_status (sol_stored again) = Submitted /\ tx_hashes (sol_stored again) = ["sig-H1"%string].
Proof. cbv zeta. split_and!; vm_compute; reflexivity. Qed.
End Twice.

Section LandedWitness.
#[local] Existing Instances sample_chrono sample_config sample_order sample_solana_sdk.
#[local] Instance landed_env : Env := clock_at (100 * 10 ^ 9).
(** The transaction is on chain, finalized, and the node knows it. *)
#[local] Instance landed_node : SolanaEnv :=
  sample_solana_env "H1" false (Err (SolanaProviderError.AlreadyProcessed "seen")) 
    (fun _ => Ok [Some {| ss_err := false; ss_finalized := true; ss_confirmed := true |}]).

Definition landed_tx : TransactionRepoModel := sol_stored (twice_prepared unknown_signature).
Definition landed_world : sol_world := sample_world [landed_tx] ∅.


(** ** A failed simulation does not stop a transaction *)

(** The node reports that the execution fails; the transaction is signed and sent. *)
Definition failing_node : SolanaEnv :=
  let node := sample_solana_env "H0" true (Ok "sig-H0"%string) unknown_signature in
  {| solana_get_latest_blockhash := @solana_get_latest_blockhash node;
     solana_is_blockhash_valid := @solana_is_blockhash_valid node;
     solana_send_transaction := @solana_send_transaction node;
     solana_signature_statuses := @solana_signature_statuses node;
     solana_simulate_transaction := fun _ _ => Ok {|
       rsim_err := Some "InsufficientFundsForFee"%string; rsim_logs := None; rsim_units_consumed := None |};
     solana_get_balance := @solana_get_balance node;
     solana_get_account := @solana_get_account node;
     solana_get_fee_for_message := @solana_get_fee_for_message node;
     solana_recent_prioritization_fees := @solana_recent_prioritization_fees node;
     solana_sign := @solana_sign node;
     join_winner := @join_winner node |}.

Lemma failed_simulation_is_submitted :
  let prepared := sol_run (2 * 10 ^ 9) failing_node sample_policy HPrepare (sol_intake sol_empty) in
  let submitted := sol_run (3 * 10 ^ 9) failing_node sample_policy HSubmit prepared in
  tx_status (sol_stored prepared) = Sent /\
  w_solana submitted = [sample_solana_tx "sig-H0" "Relayer" "H0"].
Proof. cbv zeta. split; vm_compute; reflexivity. Qed.
End LandedWitness.

(** ** The token fee limit has no effect *)

Section FeeLimit.
Context `{Chrono} `{ServerConfig} `{Env} `{SolanaSdk} `{SolanaEnv}.
Context {S C : Type} `{!TransactionRepository S} `{!TransactionCounter C}.

Definition without_fee_limit (t : SolanaAllowedTokensPolicy) : SolanaAllowedTokensPolicy :=
  {| slt_mint := slt_mint t; slt_decimals := slt_decimals t; slt_max_allowed_fee := None |}.

Definition without_fee_limits (p : RelayerSolanaPolicy) : RelayerSolanaPolicy :=
  {| slpol_allowed_programs := slpol_allowed_programs p;
     slpol_max_signatures := slpol_max_signatures p;
     slpol_max_tx_data_size := slpol_max_tx_data_size p;
     slpol_min_balance := slpol_min_balance p;
     slpol_allowed_tokens := (fun l : list _ => without_fee_limit <$> l) <$> slpol_allowed_tokens p;
     slpol_allowed_accounts := slpol_allowed_accounts p;
     slpol_disallowed_accounts := slpol_disallowed_accounts p;
     slpol_max_allowed_fee_lamports := slpol_max_allowed_fee_lamports p |}.

Lemma find_without_limit mint l :
  List.find (fun t => String.eqb (slt_mint t) mint) (without_fee_limit <$> l) =
  without_fee_limit <$> List.find (fun t => String.eqb (slt_mint t) mint) l.
Proof. induction l as [|t l IH]; simpl; [done|]. by destruct (String.eqb (slt_mint t) mint). Qed.

Lemma bindM_ext {W E A B} (c : M W E A) (k k' : A -> M W E B) w :
  (forall a w1, c w = (Ok a, w1) -> k a w1 = k' a w1) -> bindM c k w = bindM c k' w.
Proof. intros Hk. unfold bindM. destruct (c w) as [[a|e] w1]; [by apply Hk|done]. Qed.

(** The limit is read only for a transfer to the relayer's account. *)
Lemma check_source_without_limit l p ti a s d r (w : W S C) :
  d <> r ->
  check_source (without_fee_limit <$> l) p ti a s d r w = check_source l p ti a s d r w.
Proof.
  intros Hne. unfold check_source. apply bindM_ext. intros acc w1 _. apply bindM_ext. intros ta w2 _.
  destruct (ta_is_frozen ta); [done|]. rewrite find_without_limit.
  destruct (List.find _ l) as [t|]; simpl; [|done]. apply bindM_ext. intros _ w3 _.
  by destruct (String.eqb_spec d r).
Qed.

Context (m : Message) (relayer_account : Pubkey).
Context (Hdup : NoDup (msg_account_keys m)).
Context (Hpayer : head (msg_account_keys m) = Some relayer_account).
Context (Hsigner : is_signer m 0 = true).

(** The relayer pays the fee: its account signs, and no other key of the message is it. *)
Lemma relayer_is_signer i :
  msg_account_keys m !! i = Some relayer_account -> is_signer m i = true.
Proof.
  intros Hi. assert (H0i : msg_account_keys m !! 0%nat = Some relayer_account)
    by (destruct (msg_account_keys m); [done|by injection Hpayer as ->]).
  by rewrite (NoDup_lookup _ _ _ _ Hdup Hi H0i).
Qed.

Lemma check_transfer_without_limit l p ix ti a seen (w : W S C) :
  check_transfer m (without_fee_limit <$> l) relayer_account p ix ti a seen w =
  check_transfer m l relayer_account p ix ti a seen w.
Proof.
  unfold check_transfer. cbv zeta. apply bindM_ext. intros si w1 _. apply bindM_ext. intros s w2 _.
  destruct (negb _); [done|]. destruct (is_signer m (Z.to_nat si)); [done|].
  destruct (String.eqb s relayer_account); [done|]. apply bindM_ext. intros di w3 _.
  apply bindM_ext. intros d w4 Hd. destruct (negb _); [done|].
  destruct (is_signer m (Z.to_nat di)) eqn:Hs; [done|]. apply bindM_ext. intros oi w5 _.
  destruct (negb _); [done|].
  assert (Hne : d <> relayer_account).
  { intros ->. apply liftM_ok in Hd as [Hd _]. unfold index in Hd.
    destruct (msg_account_keys m !! Z.to_nat di) eqn:Hk; [|done]. injection Hd as ->.
    rewrite (relayer_is_signer _ Hk) in Hs. done. }
  destruct (tr_balances seen !! s); [done|]. unfold bindM. by rewrite check_source_without_limit.
Qed.

Lemma check_instructions_without_limit l seen ixs (w : W S C) :
  foldM (check_token_instruction m (without_fee_limit <$> l) relayer_account) seen ixs w =
  foldM (check_token_instruction m l relayer_account) seen ixs w.
Proof.
  revert seen w. induction ixs as [|ix ixs IH]; intros seen w; [exact (eq_refl (Ok seen, w))|]. simpl.
  assert (Hix : check_token_instruction m (without_fee_limit <$> l) relayer_account seen ix w =
    check_token_instruction m l relayer_account seen ix w).
  { unfold check_token_instruction. apply bindM_ext. intros p w1 _. destruct (negb _); [done|].
    destruct (unpack_instruction p (ci_data ix)) as [ti|]; [|done].
    destruct (transfer_amount ti); [apply check_transfer_without_limit|done]. }
  unfold bindM. rewrite Hix.
  destruct (check_token_instruction m l relayer_account seen ix w) as [[a|e] w1]; [apply IH|done].
Qed.
End FeeLimit.

Section FeeLimitClaim.
Context `{Chrono} `{ServerConfig} `{Env} `{SolanaSdk} `{SolanaEnv}.
Context {S C : Type} `{!TransactionRepository S} `{!TransactionCounter C}.

(** C37. The fee limit of an allowed token never takes effect.  It is meant to bound what a user
    pays the relayer in that token, and is compared with the amount of a transfer whose
    destination is the relayer's account.  But the destination of a transfer must not be a
    signer, and the relayer, who pays the fee of every transaction it accepts, is one: on a
    message with distinct account keys that starts with the relayer's, the validation of token
    transfers gives the same result, whatever it is, when every limit is removed from the
    policy. *)
Theorem token_fee_limit_ineffective (tx : SolanaTransaction) policy relayer_account (w : W S C) :
  NoDup (msg_account_keys (stx_message tx)) ->
  head (msg_account_keys (stx_message tx)) = Some relayer_account ->
  is_signer (stx_message tx) 0 = true ->
  validate_token_transfers tx (without_fee_limits policy) relayer_account w =
  validate_token_transfers tx policy relayer_account w.
Proof.
  intros Hd Hp Hs. unfold validate_token_transfers. cbn [slpol_allowed_tokens without_fee_limits].
  destruct (slpol_allowed_tokens policy) as [[|t l]|]; [done| |done].
  pose proof (check_instructions_without_limit _ _ Hd Hp Hs (t :: l) {| tr_transfers := ∅; tr_balances := ∅ |}
    (msg_instructions (stx_message tx)) w) as Hl.
  simpl in Hl |- *. unfold bindM. by rewrite Hl.
Qed.
End FeeLimitClaim.

Section FeeLimitWitness.
#[local] Existing Instances sample_chrono sample_config sample_order sample_solana_sdk.
#[local] Instance fee_env : Env := clock_at (2 * 10 ^ 9).
#[local] Instance fee_node : SolanaEnv :=
  sample_solana_env "H0" true (Ok "sig-H0"%string) unknown_signature.

(** A payment of 10 passes under a limit of 5. *)
Lemma token_fee_limit_ineffective_witness :
  fst (validate_token_transfers (sample_token_tx [sample_transfer [Byte.x0a]]) sample_policy "Relayer"
    sol_empty) = Ok tt /\
  validate_token_transfers (sample_token_tx [sample_transfer [Byte.x0a]])
    (without_fee_limits sample_policy) "Relayer" sol_empty =
  validate_token_transfers (sample_token_tx [sample_transfer [Byte.x0a]]) sample_policy "Relayer"
    sol_empty.
Proof.
  split; [vm_compute; reflexivity|]. apply token_fee_limit_ineffective.
  - apply (bool_decide_unpack _). vm_compute. exact I.
  - reflexivity.
  - reflexivity.
Defined.

(** ** Totals wrap around *)

(** Two transfers of 2^63 units each, from an account that holds 10: their total is computed as
    zero and covered. *)
Lemma wrapped_total_is_covered :
  let half := sample_transfer (replicate 7 Byte.x00 ++ [Byte.x80]) in
  let tx := sample_token_tx [half; half] in
  total_from (stx_message tx) "Source" (msg_instructions (stx_message tx)) = 2 ^ 64 /\
  fst (validate_token_transfers tx sample_policy "Relayer" sol_empty) = Ok tt.
Proof. cbv zeta. split; vm_compute; reflexivity. Qed.
End FeeLimitWitness.

(** ** A mined transaction that disappears is never finished *)

Section Mined.
Context `{Chrono} `{ServerConfig} `{Env} `{SolanaSdk} `{SolanaEnv}.
Context {S C : Type} `{!TransactionRepository S} `{!TransactionCounter C}.

(** A transaction seen at the processed level may be dropped with its fork.  From then on the
    node does not know its signature; the status check takes that for an unchanged status and
    succeeds, so that neither a resubmission nor the circuit breaker ever ends it. *)
Lemma mined_transaction_stays relayer tx d sig (w : W S C) :
  tx_status tx = Mined -> tx_network_data tx = SolanaData d -> sol_signature d = Some sig ->
  signature_parse_error sig = None ->
  (forall n, solana_signature_statuses n sig = Ok [None]) ->
  handle_transaction_status_impl relayer tx None w = (Ok tx, tick w).
Proof.
  intros Hs Hd Hsig Hp Hn. unfold handle_transaction_status_impl, status_flow,
    check_onchain_transaction_status. rewrite Hs, Hd. unfold bindM, liftM, try_, get_transaction_status.
  simpl. rewrite Hsig. simpl. unfold signature_from_str. rewrite Hp. simpl. unfold bindM, call.
  rewrite Hn. simpl. unfold update_transaction_status_if_needed. by rewrite Hs.
Qed.
End Mined.

(** ** A processed transaction is taken for an invalid one *)

(** What a node answers when a transaction is sent again that it has processed, in the preflight
    of the second: the code of a failed simulation comes before the pattern is looked at, and
    the pattern would not match the message either.  The error is permanent, so a retried
    submission marks a transaction that is on chain as failed. *)
Definition processed_answer : ClientError :=
  {| ce_kind := KindRpcError
       "RPC response error -32002: Transaction simulation failed: This transaction has already been processed";
     ce_display := "already processed" |}.

Lemma processed_is_classified_invalid :
  from_rpc_error processed_answer = SolanaProviderError.InvalidTransaction "already processed" /\
  solana_provider_error_is_transient (from_rpc_error processed_answer) = false /\
  matches_error_pattern "This transaction has already been processed" "already processed" = false.
Proof. split_and!; vm_compute; reflexivity. Qed.
