(* ===== verification/Idempotency.v ===== *)
(** * Idempotent creation

    The handling of the [Idempotency-Key] header ([api/controllers/idempotency.rs]): a request
    reserves its key, creates the transaction under an id chosen before, and releases the key
    when the creation failed without storing anything; a repeated request replays.  The store
    is an interface, [IdempotencyStore], which the in-memory and the Redis repository
    implement.  Requests interleave at every access to the store. *)

From S2P Require Import Prelude Decimal Errors Json Model TransactionJson TransactionTypes Config.
From S2P Require Import Repository Counter RedisBase RedisTransaction RedisDocuments.
From S2P Require Import RedisRefinement Jobs Effects Sample RedisSample EvmRelayer JobHandlers.
Open Scope Z_scope.

(** [From<RelayerError> for ApiError] *)
Definition api_error_of_relayer (e : RelayerError.t) : ApiError.t :=
  match e with
  | RelayerError.NetworkConfiguration m | RelayerError.ProviderError m
  | RelayerError.QueueError m | RelayerError.SignerError m | RelayerError.SignerFactoryError m
  | RelayerError.PolicyConfigurationError m | RelayerError.InvalidDexName m
  | RelayerError.DexError m | RelayerError.Internal m => ApiError.InternalError m
  | RelayerError.NotSupported m | RelayerError.InsufficientBalanceError m
  | RelayerError.InsufficientRelayerBalance m | RelayerError.ValidationError m =>
      ApiError.BadRequest m
  | RelayerError.RelayerDisabled => ApiError.ForbiddenError "Relayer disabled"
  | RelayerError.RelayerPaused => ApiError.ForbiddenError "Relayer paused"
  | RelayerError.TransactionSequenceError e => ApiError.InternalError (counter_error_display e)
  | RelayerError.UnderlyingProvider e => ApiError.InternalError (provider_error_display e)
  | RelayerError.UnderlyingSolanaProvider e =>
      ApiError.InternalError (solana_provider_error_display e)
  end.

(** ** The interface *)

(** A key that has not expired. *)
Definition live (now : Z) (o : option (IdempotencyRecord * Z)) : option (IdempotencyRecord * Z) :=
  '(r, e) ← o; if now <? e then Some (r, e) else None.

Class IdempotencyStore (S : Type) := {
  (** What is kept under a key, with its expiry; the ids that have a transaction; and the
      transactions. *)
  is_lookup : S -> string -> string -> option (IdempotencyRecord * Z);
  is_known : S -> string -> Prop;
  is_tx : S -> string -> option TransactionRepoModel;

  (** Operations take the clocks they read. *)
  is_reserve : Z -> Z -> string -> string -> IdempotencyRecord -> Z -> M S RepositoryError.t bool;
  is_get : Z -> string -> string -> M S RepositoryError.t (option IdempotencyRecord);
  is_release : Z -> string -> string -> string -> M S RepositoryError.t bool;
  is_get_by_id_on_primary : string -> M S RepositoryError.t TransactionRepoModel;
  is_create : TransactionRepoModel -> M S RepositoryError.t TransactionRepoModel;

  (** From [now] on, nothing changes under the key. *)
  is_keeps (now : Z) (s s' : S) (rid key : string) : Prop :=
    forall n, now <= n -> live n (is_lookup s' rid key) = live n (is_lookup s rid key);

  (** A reservation succeeds only if the key is free; a failed one may have been made. *)
  is_reserve_spec now now' rid key r ttl s :
    no_colon rid = true -> now <= now' ->
    wp (is_reserve now now' rid key r ttl) (fun res s' =>
      (forall id, is_known s' id <-> is_known s id) /\ (forall id, is_tx s' id = is_tx s id) /\
      (forall rid' key', no_colon rid' = true -> (rid', key') <> (rid, key) ->
         is_keeps now s s' rid' key') /\
      ((live now (is_lookup s rid key) = None /\ res <> Ok false /\
        exists e, now + ttl * 10 ^ 9 <= e /\ is_lookup s' rid key = Some (r, e)) \/
       (is_keeps now s s' rid key /\ res <> Ok true))) s;

  is_get_spec now rid key s :
    wp (is_get now rid key) (fun res s' =>
      (forall id, is_known s' id <-> is_known s id) /\ (forall id, is_tx s' id = is_tx s id) /\
      (forall rid' key', is_keeps now s s' rid' key') /\
      (forall o, res = Ok o -> o = fst <$> live now (is_lookup s rid key))) s;

  (** Only the owner's key is released, and not once its transaction is stored. *)
  is_release_spec now rid key id s :
    no_colon rid = true ->
    wp (is_release now rid key id) (fun _ s' =>
      (forall id', is_known s' id' <-> is_known s id') /\
      forall rid' key', no_colon rid' = true ->
        is_keeps now s s' rid' key' \/
        ((rid', key') = (rid, key) /\ ~ is_known s id /\
         exists r e, is_lookup s rid key = Some (r, e) /\ ir_tx_id r = id)) s;

  is_get_by_id_spec id s :
    wp (is_get_by_id_on_primary id) (fun res s' =>
      (forall id', is_known s' id' <-> is_known s id') /\
      (forall id', is_tx s' id' = is_tx s id') /\
      (forall now rid key, is_keeps now s s' rid key) /\
      (forall t, res = Ok t -> is_tx s id = Some t) /\
      (forall m, res = Err (RepositoryError.NotFound m) -> is_tx s id = None)) s;

  is_create_spec t s :
    wp (is_create t) (fun _ s' =>
      (forall now rid key, is_keeps now s s' rid key) /\
      (forall id, is_known s' id -> is_known s id \/ id = tx_id t)) s;
}.

(** ** The controller *)

Definition MIN_IN_FLIGHT_WINDOW_SECONDS : Z := 60.
Definition IN_FLIGHT_WINDOW_MARGIN_SECONDS : Z := 10.

Definition IN_PROGRESS_MESSAGE : string :=
  "A request with this Idempotency-Key is already in progress".
Definition PAYLOAD_MISMATCH_MESSAGE : string :=
  "Idempotency-Key reused with a different request payload".
Definition TRANSACTION_GONE_MESSAGE : string :=
  "No transaction found for this Idempotency-Key. It may have " +:+
  "completed and been removed from storage. Confirm whether the original request was " +:+
  "processed before you send it again with a new key".

Definition in_flight_window_seconds (request_timeout_seconds : Z) : Z :=
  let timeout := if request_timeout_seconds <=? i64_max then request_timeout_seconds
                 else i64_max / 2 in
  Z.max MIN_IN_FLIGHT_WINDOW_SECONDS (sat_add i64_max timeout IN_FLIGHT_WINDOW_MARGIN_SECONDS).

Definition effective_ttl_seconds (configured_seconds window_seconds : Z) : Z :=
  let window := if 0 <=? window_seconds then window_seconds else 0 in
  if configured_seconds <? window then window else configured_seconds.

Section Controller.
Context `{Chrono} {S : Type} `{!IdempotencyStore S}.

(** [num_seconds] truncates. *)
Definition is_in_flight (now : Z) (created_at : string) (window_seconds : Z) : bool :=
  match parse_rfc3339 created_at with
  | Some t => Z.quot (now - t) (10 ^ 9) <? window_seconds
  | None => true
  end.

(** The clocks a request reads, in the order of the code. *)
Record clocks := {
  at_start : Z; at_reserve : Z; at_expiry : Z; at_read : Z; at_judge : Z; at_release : Z;
}.

Definition replay (c : clocks) (relayer_id key fingerprint : string) (window_seconds : Z)
  : M S ApiError.t TransactionRepoModel :=
  let* o := map_errM api_error_of_repository (is_get (at_read c) relayer_id key) in
  match o with
  | None => failM (ApiError.Conflict IN_PROGRESS_MESSAGE)
  | Some existing =>
      if negb (String.eqb (ir_fingerprint existing) fingerprint)
      then failM (ApiError.UnprocessableEntity PAYLOAD_MISMATCH_MESSAGE)
      else
        let* r := try_ (is_get_by_id_on_primary (ir_tx_id existing)) in
        match r with
        | Ok transaction => retM transaction
        | Err (RepositoryError.NotFound _) =>
            if is_in_flight (at_judge c) (ir_created_at existing) window_seconds
            then failM (ApiError.Conflict IN_PROGRESS_MESSAGE)
            else failM (ApiError.NotFound TRANSACTION_GONE_MESSAGE)
        | Err e => failM (api_error_of_repository e)
        end
  end.

(** [uuid] is the id [Uuid::new_v4()] gives. *)
Definition create_idempotent (request_timeout_seconds : Z) (c : clocks) (uuid : string)
    (relayer_id key fingerprint : string) (ttl_seconds : Z)
    (create : string -> M S RelayerError.t TransactionRepoModel)
  : M S ApiError.t TransactionRepoModel :=
  let window := in_flight_window_seconds request_timeout_seconds in
  let ttl_seconds := effective_ttl_seconds ttl_seconds window in
  let record := {| ir_fingerprint := fingerprint; ir_tx_id := uuid;
                   ir_created_at := to_rfc3339 (at_start c) |} in
  let* reserved := map_errM api_error_of_repository
    (is_reserve (at_reserve c) (at_expiry c) relayer_id key record ttl_seconds) in
  if negb reserved then replay c relayer_id key (ir_fingerprint record) window
  else
    let* r := try_ (create (ir_tx_id record)) in
    match r with
    | Ok transaction => retM transaction
    | Err e =>
        do* try_ (is_release (at_release c) relayer_id key (ir_tx_id record)) in
        failM (api_error_of_relayer e)
    end.

(** ** Replays *)

(** Nothing is stored and no key changes. *)
Definition undisturbed (now : Z) (s s' : S) : Prop :=
  (forall id, is_known s' id <-> is_known s id) /\ (forall id, is_tx s' id = is_tx s id) /\
  (forall rid key, no_colon rid = true -> is_keeps now s s' rid key).

Lemma undisturbed_trans now a b c : undisturbed now a b -> undisturbed now b c -> undisturbed now a c.
Proof.
  intros (Hk & Ht & Hl) (Hk' & Ht' & Hl'). split; [|split].
  - intros id. by rewrite Hk'.
  - intros id. by rewrite Ht'.
  - intros rid key Hr n Hn. by rewrite (Hl' rid key Hr n Hn), (Hl rid key Hr n Hn).
Qed.

Lemma live_Some n o x : live n o = Some x -> o = Some x /\ n < snd x.
Proof.
  unfold live. destruct o as [[r e]|]; [|done]. simpl. destruct (Z.ltb_spec n e); [|done].
  by intros [= <-].
Qed.

Lemma live_before n n' o x : live n o = Some x -> n' < snd x -> live n' o = Some x.
Proof.
  intros [-> _]%live_Some Hn. destruct x as [r e]. simpl in *.
  by rewrite (proj2 (Z.ltb_lt _ _) Hn).
Qed.

(** What a repeated request is answered when the key is held by [existing]. *)
Definition replay_answer (s : S) (c : clocks) (existing : IdempotencyRecord) (fingerprint : string)
    (window : Z) (r : result ApiError.t TransactionRepoModel) : Prop :=
  (ir_fingerprint existing <> fingerprint /\
   r = Err (ApiError.UnprocessableEntity PAYLOAD_MISMATCH_MESSAGE)) \/
  (ir_fingerprint existing = fingerprint /\
   match is_tx s (ir_tx_id existing) with
   | Some t => r = Ok t
   | None => r = Err (if is_in_flight (at_judge c) (ir_created_at existing) window
                      then ApiError.Conflict IN_PROGRESS_MESSAGE
                      else ApiError.NotFound TRANSACTION_GONE_MESSAGE)
   end).

(** An access of the replay fails with [e]: reading the key, or fetching the transaction of a
    record whose payload is the request's. *)
Definition replay_failed (s : S) (c : clocks) (rid key : string) (existing : IdempotencyRecord)
    (fingerprint : string) (e : RepositoryError.t) : Prop :=
  let '(o, s1) := is_get (at_read c) rid key s in
  o = Err e \/
  (ir_fingerprint existing = fingerprint /\ (forall m, e <> RepositoryError.NotFound m) /\
   fst (is_get_by_id_on_primary (ir_tx_id existing) s1) = Err e).

Lemma replay_spec c rid key fingerprint window existing e s now :
  live now (is_lookup s rid key) = Some (existing, e) -> now <= at_read c < e ->
  wp (replay c rid key fingerprint window) (fun r s' => undisturbed (at_read c) s s' /\
    ((exists e', replay_failed s c rid key existing fingerprint e' /\
        r = Err (api_error_of_repository e')) \/
     replay_answer s c existing fingerprint window r)) s.
Proof.
  intros Hl [Hn He]. unfold replay, replay_failed. wp_step. wp_step.
  pose proof (is_get_spec (at_read c) rid key s) as Hg. unfold wp at 1. unfold wp in Hg.
  destruct (is_get (at_read c) rid key s) as [res s1]. cbn [fst snd] in *.
  destruct Hg as (Hk & Ht & Hkeep & Ho).
  assert (undisturbed (at_read c) s s1) as Hu by (split; [done|]; split; [done|]; auto).
  destruct res as [o|err]; simpl; [|split; [done|]; left; eauto].
  rewrite (Ho o eq_refl), (live_before _ _ _ _ Hl) by done. simpl.
  destruct (String.eqb_spec (ir_fingerprint existing) fingerprint) as [Hf|Hf]; simpl.
  2:{ split; [done|]. right. by left. }
  wp_step. wp_step. pose proof (is_get_by_id_spec (ir_tx_id existing) s1) as Hg.
  unfold wp at 1. unfold wp in Hg.
  destruct (is_get_by_id_on_primary (ir_tx_id existing) s1) as [r s2]. cbn [fst snd] in *.
  destruct Hg as (Hk2 & Ht2 & Hkeep2 & Hok & Hnf).
  assert (undisturbed (at_read c) s s2) as Hu2.
  { eapply undisturbed_trans; [exact Hu|]. split; [done|]. split; [done|]. auto. }
  rewrite Ht in Hok, Hnf. destruct r as [t|err]; simpl.
  - split; [done|]. do 2 right. split; [done|]. by rewrite (Hok t eq_refl).
  - destruct err; try (split; [done|]; left;
      match goal with |- context [api_error_of_repository ?x] => exists x end; split; [by right|done]).
    destruct (is_in_flight _ _ _) eqn:Ef; (split; [done|]); do 2 right; (split; [done|]);
      by rewrite (Hnf msg eq_refl), Ef.
Qed.

(** C27. A request whose key another request holds creates nothing, whatever [create] would do:
    nothing is stored and no key changes.  It is answered 422 if its payload differs, and
    otherwise with the transaction of the first request or, if that is not stored, with 409
    while the first request may still be running and 404 after the window.  It is answered
    otherwise only if one of its accesses to the store failed - the reservation, the reading of
    the key, or, for an equal payload, the fetching of the transaction - and then with that
    access's error. *)
Theorem held_key_is_replayed timeout c uuid rid key fingerprint ttl create existing e s :
  no_colon rid = true -> at_reserve c <= at_expiry c ->
  live (at_reserve c) (is_lookup s rid key) = Some (existing, e) ->
  at_reserve c <= at_read c < e ->
  let window := in_flight_window_seconds timeout in
  let reservation := is_reserve (at_reserve c) (at_expiry c) rid key
    {| ir_fingerprint := fingerprint; ir_tx_id := uuid; ir_created_at := to_rfc3339 (at_start c) |}
    (effective_ttl_seconds ttl window) s in
  wp (create_idempotent timeout c uuid rid key fingerprint ttl create) (fun r s' =>
    undisturbed (at_read c) s s' /\
    ((exists e', (fst reservation = Err e' \/
                  replay_failed (snd reservation) c rid key existing fingerprint e') /\
        r = Err (api_error_of_repository e')) \/
     replay_answer s c existing fingerprint window r)) s.
Proof.
  intros Hrid Hc Hl Hread. unfold create_idempotent. cbv zeta. wp_step. wp_step.
  set (window := in_flight_window_seconds timeout). set (record := Build_IdempotencyRecord _ _ _).
  pose proof (is_reserve_spec (at_reserve c) (at_expiry c) rid key record
    (effective_ttl_seconds ttl window) s Hrid Hc) as Hsp. unfold wp at 1. unfold wp in Hsp.
  destruct (is_reserve _ _ _ _ _ _ s) as [res s1]. cbn [fst snd] in *.
  destruct Hsp as (Hk & Ht & Hother & [[Hfree _]|[Hkeep Hres]]); [congruence|].
  assert (undisturbed (at_read c) s s1) as Hu.
  { split; [done|]. split; [done|]. intros rid' key' Hr' n Hn.
    destruct (decide ((rid', key') = (rid, key))) as [[= -> ->]|Hne].
    - apply Hkeep. lia.
    - apply (Hother rid' key' Hr' Hne). lia. }
  destruct res as [[]|err]; simpl; [done| |split; [done|]; left; eauto].
  eapply wp_mono; [|eapply (replay_spec c rid key fingerprint _ existing e s1 (at_reserve c));
    [by rewrite (Hkeep (at_reserve c) (Z.le_refl _))|done]].
  intros r s2 [Hu2 Ha]. split; [by eapply undisturbed_trans|].
  destruct Ha as [(e' & Hf & Hr)|Ha]; [left; eauto|right].
  unfold replay_answer in *. by rewrite Ht in Ha.
Qed.

(** ** Requests that interleave *)

Record request := {
  rq_relayer : string; rq_key : string; rq_record : IdempotencyRecord;
  rq_ttl : Z; rq_window : Z;
}.

(** Where a request is between two accesses to the store. *)
Inductive phase : Type :=
| Reserving
| Creating
| Releasing (e : RelayerError.t)
| Reading
| Fetching (existing : IdempotencyRecord)
| Finished (r : result ApiError.t TransactionRepoModel).

#[global] Instance creating_decision (p : phase) : Decision (p = Creating).
Proof. destruct p; first [by left|by right]. Defined.

(** One access; [now] and [now'] are the clocks it reads. *)
Definition advance (now now' : Z) (q : request) (p : phase) (s : S) : phase * S :=
  match p with
  | Reserving =>
      let '(r, s') := is_reserve now now' (rq_relayer q) (rq_key q) (rq_record q) (rq_ttl q) s in
      (match r with
       | Ok true => Creating
       | Ok false => Reading
       | Err e => Finished (Err (api_error_of_repository e))
       end, s')
  | Releasing e =>
      let '(_, s') := is_release now (rq_relayer q) (rq_key q) (ir_tx_id (rq_record q)) s in
      (Finished (Err (api_error_of_relayer e)), s')
  | Reading =>
      let '(r, s') := is_get now (rq_relayer q) (rq_key q) s in
      (match r with
       | Ok None => Finished (Err (ApiError.Conflict IN_PROGRESS_MESSAGE))
       | Ok (Some existing) =>
           if String.eqb (ir_fingerprint existing) (ir_fingerprint (rq_record q))
           then Fetching existing
           else Finished (Err (ApiError.UnprocessableEntity PAYLOAD_MISMATCH_MESSAGE))
       | Err e => Finished (Err (api_error_of_repository e))
       end, s')
  | Fetching existing =>
      let '(r, s') := is_get_by_id_on_primary (ir_tx_id existing) s in
      (Finished match r with
       | Ok t => Ok t
       | Err (RepositoryError.NotFound _) =>
           Err (if is_in_flight now (ir_created_at existing) (rq_window q)
                then ApiError.Conflict IN_PROGRESS_MESSAGE
                else ApiError.NotFound TRANSACTION_GONE_MESSAGE)
       | Err e => Err (api_error_of_repository e)
       end, s')
  | Creating | Finished _ => (p, s)
  end.

Definition result_of (p : phase) : option (result ApiError.t TransactionRepoModel) :=
  match p with Finished r => Some r | _ => None end.

(** A request run on its own: the phases in turn, the creation in one go. *)
Definition run_phases (c : clocks) (q : request)
    (create : string -> M S RelayerError.t TransactionRepoModel) (s : S) : phase * S :=
  let '(p1, s1) := advance (at_reserve c) (at_expiry c) q Reserving s in
  match p1 with
  | Creating =>
      match create (ir_tx_id (rq_record q)) s1 with
      | (Ok t, s2) => (Finished (Ok t), s2)
      | (Err e, s2) => advance (at_release c) (at_release c) q (Releasing e) s2
      end
  | Reading =>
      let '(p2, s2) := advance (at_read c) (at_read c) q p1 s1 in
      advance (at_judge c) (at_judge c) q p2 s2
  | _ => (p1, s1)
  end.

Definition request_of (timeout : Z) (c : clocks) (uuid rid key fingerprint : string) (ttl : Z)
  : request :=
  let window := in_flight_window_seconds timeout in
  {| rq_relayer := rid; rq_key := key;
     rq_record := {| ir_fingerprint := fingerprint; ir_tx_id := uuid;
                     ir_created_at := to_rfc3339 (at_start c) |};
     rq_ttl := effective_ttl_seconds ttl window; rq_window := window |}.

(** A request that runs undisturbed goes through the phases the interleaved model gives it to
    exactly the result and the state of the controller's code, and always finishes. *)
Theorem phases_are_create_idempotent timeout c uuid rid key fingerprint ttl create s :
  let '(p, s') := run_phases c (request_of timeout c uuid rid key fingerprint ttl) create s in
  create_idempotent timeout c uuid rid key fingerprint ttl create s =
  (default (Err (ApiError.InternalError "")) (result_of p), s') /\ is_Some (result_of p).
Proof.
  assert (forall (r : result ApiError.t TransactionRepoModel) (s' : S),
    (r, s') = (default (Err (ApiError.InternalError "")) (result_of (Finished r)), s') /\
    is_Some (result_of (Finished r))) as Hfin by (intros; split; [done|by eexists]).
  unfold run_phases, create_idempotent. cbv zeta. unfold bindM at 1, map_errM at 1.
  cbn [advance request_of rq_relayer rq_key rq_record rq_ttl rq_window ir_tx_id ir_fingerprint].
  destruct (is_reserve _ _ _ _ _ _ s) as [[[]|e] s1]; cbn [result_map_err negb]; [| |by apply Hfin].
  - unfold bindM, try_. destruct (create uuid s1) as [[t|e] s2]; [by apply Hfin|].
    destruct (is_release _ _ _ _ s2) as [r s3]. by apply Hfin.
  - unfold replay. unfold bindM at 1, map_errM at 1. unfold request_of.
    cbn [advance rq_relayer rq_key rq_record rq_window ir_fingerprint].
    destruct (is_get _ _ _ s1) as [[[existing|]|e] s2]; cbn [result_map_err]; try by apply Hfin.
    destruct (String.eqb _ _); cbn [negb advance]; [|by apply Hfin].
    unfold bindM, try_. destruct (is_get_by_id_on_primary _ s2) as [[t|e] s3]; [by apply Hfin|].
    destruct e; try by apply Hfin. destruct (is_in_flight _ _ _); by apply Hfin.
Qed.

(** A request in the system: when it reserved its key, if it did, and when the key expires. *)
Record entry := { en_request : request; en_phase : phase; en_reserved : option (Z * Z) }.

Definition en_id (en : entry) : string := ir_tx_id (rq_record (en_request en)).

Record system := { sy_store : S; sy_now : Z; sy_entries : list entry }.

Definition set_entry (i : nat) (en : entry) (s : S) (now : Z) (sys : system) : system :=
  {| sy_store := s; sy_now := now; sy_entries := <[i := en]> (sy_entries sys) |}.

Definition set_phase (p : phase) (en : entry) : entry :=
  {| en_request := en_request en; en_phase := p; en_reserved := en_reserved en |}.

(** The entry after an access: a successful reservation is noted. *)
Definition accessed (now : Z) (en : entry) (p : phase) (s' : S) : entry :=
  {| en_request := en_request en; en_phase := p;
     en_reserved :=
       match en_phase en, p with
       | Reserving, Creating =>
           (fun x => (now, snd x)) <$>
             is_lookup s' (rq_relayer (en_request en)) (rq_key (en_request en))
       | _, _ => en_reserved en
       end |}.

(** Steps: time passes, a request arrives with an id of its own, a request accesses the store,
    a creation stores its transaction, succeeds or fails, and the rest of the service works on
    transactions. *)
Inductive step : system -> system -> Prop :=
| step_time sys now :
    sy_now sys <= now ->
    step sys {| sy_store := sy_store sys; sy_now := now; sy_entries := sy_entries sys |}
| step_arrive sys q :
    no_colon (rq_relayer q) = true -> ~ is_known (sy_store sys) (ir_tx_id (rq_record q)) ->
    ir_tx_id (rq_record q) ∉ en_id <$> sy_entries sys ->
    step sys {| sy_store := sy_store sys; sy_now := sy_now sys;
                sy_entries := sy_entries sys ++
                  [{| en_request := q; en_phase := Reserving; en_reserved := None |}] |}
| step_access sys i en now now' p s' :
    sy_entries sys !! i = Some en -> sy_now sys <= now -> now <= now' ->
    advance now now' (en_request en) (en_phase en) (sy_store sys) = (p, s') ->
    step sys (set_entry i (accessed now en p s') s' now' sys)
| step_store sys i en t :
    sy_entries sys !! i = Some en -> en_phase en = Creating -> tx_id t = en_id en ->
    step sys {| sy_store := snd (is_create t (sy_store sys)); sy_now := sy_now sys;
                sy_entries := sy_entries sys |}
| step_created sys i en t :
    sy_entries sys !! i = Some en -> en_phase en = Creating ->
    step sys (set_entry i (set_phase (Finished (Ok t)) en) (sy_store sys) (sy_now sys) sys)
| step_failed sys i en e :
    sy_entries sys !! i = Some en -> en_phase en = Creating ->
    step sys (set_entry i (set_phase (Releasing e) en) (sy_store sys) (sy_now sys) sys)
| step_other sys s' :
    (forall rid key, no_colon rid = true -> is_keeps (sy_now sys) (sy_store sys) s' rid key) ->
    (forall id, id ∈ en_id <$> sy_entries sys -> is_known s' id -> is_known (sy_store sys) id) ->
    step sys {| sy_store := s'; sy_now := sy_now sys; sy_entries := sy_entries sys |}.

(** A request that is creating, or whose transaction is stored, holds its key until it
    expires. *)
Definition entry_ok (s : S) (now : Z) (en : entry) : Prop :=
  let q := en_request en in
  no_colon (rq_relayer q) = true /\
  (en_phase en = Creating \/ is_known s (en_id en) ->
   exists t e, en_reserved en = Some (t, e) /\ t + rq_ttl q * 10 ^ 9 <= e /\
     (now < e -> live now (is_lookup s (rq_relayer q) (rq_key q)) = Some (rq_record q, e))).

Definition system_ok (sys : system) : Prop :=
  NoDup (en_id <$> sy_entries sys) /\
  forall i en, sy_entries sys !! i = Some en -> entry_ok (sy_store sys) (sy_now sys) en.

Lemma live_later n n' o r e : n <= n' -> live n o = Some (r, e) -> n' < e -> live n' o = Some (r, e).
Proof. intros _ Hl He. by apply (live_before n). Qed.

(** What keeps an entry in order. *)
Lemma entry_ok_keeps s s' now now' en :
  now <= now' -> is_keeps now' s s' (rq_relayer (en_request en)) (rq_key (en_request en)) ->
  (is_known s' (en_id en) -> is_known s (en_id en)) ->
  entry_ok s now en -> entry_ok s' now' en.
Proof.
  intros Hn Hk Hkn (Hr & Hok). split; [done|]. intros Hp.
  destruct Hok as (t & e & Hres & Ht & Hl); [by destruct Hp; auto|].
  exists t, e. split; [done|]. split; [done|]. intros He. rewrite (Hk now' (Z.le_refl _)).
  apply (live_later now); [done|apply Hl; lia|done].
Qed.

Lemma ids_set_entry (i : nat) (en en' : entry) (entries : list entry) :
  entries !! i = Some en -> en_id en' = en_id en ->
  en_id <$> <[i := en']> entries = en_id <$> entries.
Proof.
  intros Hi Hid. rewrite list_fmap_insert, Hid. apply list_insert_id. by rewrite list_lookup_fmap, Hi.
Qed.

Lemma ids_inj (entries : list entry) (i j : nat) (en en' : entry) :
  NoDup (en_id <$> entries) -> entries !! i = Some en -> entries !! j = Some en' ->
  en_id en = en_id en' -> i = j.
Proof.
  intros Hnd Hi Hj Hid. eapply NoDup_lookup; [exact Hnd|..]; rewrite list_lookup_fmap.
  - by rewrite Hi.
  - rewrite Hj. simpl. by rewrite Hid.
Qed.

(** The key is free, or it is the request's own and has no transaction. *)
Definition vacant (now : Z) (q : request) (s : S) : Prop :=
  let o := is_lookup s (rq_relayer q) (rq_key q) in
  live now o = None \/
  (~ is_known s (ir_tx_id (rq_record q)) /\
   exists r e, o = Some (r, e) /\ ir_tx_id r = ir_tx_id (rq_record q)).

Lemma advance_spec now now' q p s p' s' :
  no_colon (rq_relayer q) = true -> now <= now' -> advance now now' q p s = (p', s') ->
  (forall id, is_known s' id <-> is_known s id) /\
  (forall rid key, no_colon rid = true ->
     is_keeps now s s' rid key \/ ((rid, key) = (rq_relayer q, rq_key q) /\ vacant now q s)) /\
  (p' = Creating -> p = Creating \/
     (p = Reserving /\ exists e, now + rq_ttl q * 10 ^ 9 <= e /\
        is_lookup s' (rq_relayer q) (rq_key q) = Some (rq_record q, e))).
Proof.
  intros Hr Hn. unfold advance. destruct p.
  - pose proof (is_reserve_spec now now' (rq_relayer q) (rq_key q) (rq_record q) (rq_ttl q) s Hr Hn)
      as Hs. unfold wp in Hs.
    destruct (is_reserve _ _ _ _ _ _ s) as [res s1]. intros [= <- <-].
    destruct Hs as (Hk & _ & Ho & Hs). split; [done|]. split.
    + intros rid key Hrid. destruct (decide ((rid, key) = (rq_relayer q, rq_key q))) as [Heq|Hne];
        [|left; by apply Ho].
      destruct Hs as [[Hf _]|[Hkeep _]]; [right; split; [done|by left]|].
      injection Heq as -> ->. by left.
    + destruct res as [[]|]; try done. intros _. right. split; [done|].
      destruct Hs as [(_ & _ & Hs)|[_ Hs]]; done.
  - intros [= <- <-]. split; [done|]. split; [by left|by left].
  - pose proof (is_release_spec now (rq_relayer q) (rq_key q) (ir_tx_id (rq_record q)) s Hr) as Hs.
    unfold wp in Hs. destruct (is_release _ _ _ _ s) as [res s1]. intros [= <- <-].
    destruct Hs as [Hk Hs]. split; [done|]. split; [|done]. intros rid key Hrid.
    destruct (Hs rid key Hrid) as [?|(? & ? & ?)]; [by left|]. right. split; [done|]. by right.
  - pose proof (is_get_spec now (rq_relayer q) (rq_key q) s) as Hs.
    unfold wp in Hs. destruct (is_get _ _ _ s) as [res s1]. intros [= <- <-].
    destruct Hs as (Hk & _ & Hs & _). split; [done|]. split; [by auto|].
    destruct res as [[]|]; try done. by case_match.
  - pose proof (is_get_by_id_spec (ir_tx_id existing) s) as Hs.
    unfold wp in Hs. destruct (is_get_by_id_on_primary _ s) as [res s1]. intros [= <- <-].
    destruct Hs as (Hk & _ & Hs & _). split; [done|]. split; [by auto|done].
  - intros [= <- <-]. split; [done|]. split; [by left|done].
Qed.

(** Another request's access leaves an entry in order. *)
Lemma entry_ok_access s s' t now now' q p p' en :
  no_colon (rq_relayer q) = true -> t <= now -> now <= now' ->
  advance now now' q p s = (p', s') ->
  (en_id en = ir_tx_id (rq_record q) -> en_phase en <> Creating) ->
  entry_ok s t en -> entry_ok s' now' en.
Proof.
  intros Hr Ht Hn Ha Hid Hok. destruct (advance_spec _ _ _ _ _ _ _ Hr Hn Ha) as (Hk & Hkeep & _).
  destruct Hok as [Hren Hok]. split; [done|]. rewrite Hk. intros Hp.
  destruct (Hok Hp) as (t0 & e & Hres & Hle & Hl). exists t0, e. split; [done|]. split; [done|].
  intros He. specialize (Hl ltac:(lia)).
  destruct (Hkeep (rq_relayer (en_request en)) (rq_key (en_request en)) Hren)
    as [Hkp|[[= Hq1 Hq2] [Hv|(Hnk & r & e' & Ho & Hrid)]]].
  - rewrite (Hkp now' Hn). by eapply live_before.
  - rewrite <- Hq1, <- Hq2, (live_before _ now _ _ Hl) in Hv by (simpl; lia). done.
  - rewrite <- Hq1, <- Hq2 in Ho. destruct (live_Some _ _ _ Hl) as [Ho' _].
    rewrite Ho in Ho'. injection Ho' as -> ->. destruct Hp as [Hp|Hp]; [by destruct (Hid Hrid)|].
    unfold en_id in Hp. by rewrite Hrid in Hp.
Qed.

Lemma entry_ok_set_phase s now p en :
  p <> Creating -> entry_ok s now en -> entry_ok s now (set_phase p en).
Proof. intros Hp [Hr Hok]. split; [done|]. intros [Hc|Hk]; [done|]. apply Hok. by right. Qed.

(** The entry that made the access. *)
Lemma entry_ok_accessed s s' t now now' p' en :
  t <= now -> now <= now' -> advance now now' (en_request en) (en_phase en) s = (p', s') ->
  entry_ok s t en -> entry_ok s' now' (accessed now en p' s').
Proof.
  intros Ht Hn Ha Hok. pose proof (proj1 Hok) as Hr.
  destruct (advance_spec _ _ _ _ _ _ _ Hr Hn Ha) as (Hk & _ & Hc).
  destruct (decide (en_phase en = Creating)) as [Hcr|Hncr].
  { rewrite Hcr in Ha. simpl in Ha. injection Ha as <- <-.
    unfold accessed. rewrite Hcr. destruct en as [q ph res]. simpl in *. subst ph.
    eapply entry_ok_keeps; [|by intros ??|by auto|exact Hok]. lia. }
  destruct (decide (p' = Creating)) as [->|Hp'].
  - destruct (Hc eq_refl) as [?|[Hre (e & He & Hl)]]; [done|].
    split; [done|]. intros _. exists now, e. unfold accessed. simpl. rewrite Hre, Hl.
    split; [done|]. split; [done|]. intros Hlt. simpl. by rewrite (proj2 (Z.ltb_lt _ _) Hlt).
  - replace (accessed now en p' s') with (set_phase p' en)
      by (unfold accessed, set_phase; by destruct (en_phase en), p').
    apply entry_ok_set_phase; [done|].
    by eapply (entry_ok_access s s' t now now' (en_request en)).
Qed.

Lemma system_ok_step sys sys' : step sys sys' -> system_ok sys -> system_ok sys'.
Proof.
  intros Hstep [Hnd Hok].
  destruct Hstep as [sys now Hn|sys q Hr Hk Hq|sys i en now now' p s' Hi Hn Hn' Ha
    |sys i en t Hi Hp Ht|sys i en t Hi Hp|sys i en e Hi Hp|sys s' Hkeep Hk]; simpl in *.
  - split; [done|]. intros i en Hi. eapply entry_ok_keeps; [exact Hn|done|done|by eapply Hok].
  - split.
    + cbn [sy_entries]. rewrite fmap_app. apply NoDup_app. split; [done|].
      split; [|apply NoDup_singleton].
      intros x Hx ->%list_elem_of_singleton. done.
    + intros i en [Hi|[_ Hi]]%lookup_app_Some; [by eapply Hok|].
      apply list_lookup_singleton_Some in Hi as [_ <-]. split; [done|]. by intros [|].
  - assert (en_id (accessed now en p s') = en_id en) as Hid by done. split.
    + cbn [set_entry sy_entries]. by rewrite (ids_set_entry i en).
    + intros j en' [(<- & <- & _)|[Hne Hj]]%list_lookup_insert_Some.
      { by eapply entry_ok_accessed; [..|by eapply Hok]. }
      eapply entry_ok_access; [apply (Hok _ _ Hi)|exact Hn|exact Hn'|exact Ha| |by eapply Hok].
      intros Heq. destruct Hne. by eapply ids_inj.
  - split; [done|]. intros j en' Hj. cbn [sy_entries] in Hj.
    pose proof (is_create_spec t (sy_store sys)) as Hs.
    unfold wp in Hs. destruct (is_create t _) as [res s1]. destruct Hs as [Hkeep Hk]. simpl.
    destruct (decide (i = j)) as [->|Hne].
    + assert (en' = en) as -> by congruence. destruct (Hok _ _ Hj) as [Hr He]. split; [done|].
      intros _. destruct (He (or_introl Hp)) as (t0 & e & ? & ? & Hl). exists t0, e.
      split; [done|]. split; [done|]. rewrite (Hkeep (sy_now sys)); [done|lia].
    + eapply entry_ok_keeps; [apply Z.le_refl|apply Hkeep| |by eapply Hok].
      intros [?|Heq]%Hk; [done|]. destruct Hne. eapply ids_inj; [exact Hnd|done|done|].
      by rewrite Heq.
  - split; [cbn [set_entry sy_entries]; by rewrite (ids_set_entry i en)|].
    intros j en' [(<- & <- & _)|[Hne Hj]]%list_lookup_insert_Some; [|by eapply Hok].
    apply entry_ok_set_phase; [done|by eapply Hok].
  - split; [cbn [set_entry sy_entries]; by rewrite (ids_set_entry i en)|].
    intros j en' [(<- & <- & _)|[Hne Hj]]%list_lookup_insert_Some; [|by eapply Hok].
    apply entry_ok_set_phase; [done|by eapply Hok].
  - split; [done|]. intros i en Hi. pose proof (Hok _ _ Hi) as He.
    eapply entry_ok_keeps; [apply Z.le_refl|apply Hkeep; apply He| |exact He].
    apply Hk. apply list_elem_of_fmap. exists en. split; [done|]. by eapply list_elem_of_lookup_2.
Qed.

Lemma system_ok_reachable s now sys :
  rtc step {| sy_store := s; sy_now := now; sy_entries := [] |} sys -> system_ok sys.
Proof.
  intros Hr. remember {| sy_entries := [] |} as sys0 eqn:E.
  assert (system_ok sys0) as H0.
  { subst sys0. split; [constructor|]. intros i en Hi.
    by apply list_elem_of_lookup_2, not_elem_of_nil in Hi. }
  clear E. induction Hr as [|a b c Hs _ IH]; [done|]. apply IH. by eapply system_ok_step.
Qed.

(** C10. However requests, creations, releases and the rest of the service interleave, and
    whichever calls of the store fail: once a request has stored its transaction, no other
    request that came with the same key for the same relayer has one, as long as the lifetimes
    of their reservations have not passed. *)
Theorem one_transaction_per_key s now sys i j en en' t e :
  rtc step {| sy_store := s; sy_now := now; sy_entries := [] |} sys ->
  sy_entries sys !! i = Some en -> sy_entries sys !! j = Some en' -> i <> j ->
  rq_relayer (en_request en) = rq_relayer (en_request en') ->
  rq_key (en_request en) = rq_key (en_request en') ->
  is_known (sy_store sys) (en_id en) ->
  en_reserved en = Some (t, e) -> sy_now sys < t + rq_ttl (en_request en) * 10 ^ 9 ->
  (forall t' e', en_reserved en' = Some (t', e') ->
     sy_now sys < t' + rq_ttl (en_request en') * 10 ^ 9) ->
  ~ is_known (sy_store sys) (en_id en').
Proof.
  intros Hreach Hi Hj Hne Hr Hk Hs He Ht Ht' Hs'.
  destruct (system_ok_reachable _ _ _ Hreach) as [Hnd Hok].
  destruct (proj2 (Hok _ _ Hi) (or_intror Hs)) as (t1 & e1 & E1 & Hle1 & Hl1).
  destruct (proj2 (Hok _ _ Hj) (or_intror Hs')) as (t2 & e2 & E2 & Hle2 & Hl2).
  rewrite E1 in He. injection He as -> ->. specialize (Ht' _ _ E2).
  rewrite <- Hr, <- Hk, Hl1 in Hl2 by lia. specialize (Hl2 ltac:(lia)). injection Hl2 as Hrec _.
  apply Hne. eapply ids_inj; [exact Hnd|done|done|]. unfold en_id. by rewrite Hrec.
Qed.
End Controller.

(** ** The in-memory repository implements the interface *)

Lemma purged_live now k (m : gmap string (IdempotencyRecord * Z)) :
  InMemory.purge_expired_idempotency now m !! k = live now (m !! k).
Proof.
  unfold InMemory.purge_expired_idempotency, live. rewrite map_lookup_filter.
  destruct (m !! k) as [[r e]|]; simpl; [|done].
  case_guard; destruct (Z.ltb_spec now e); done || lia.
Qed.

Lemma live_purge now n k (m : gmap string (IdempotencyRecord * Z)) :
  now <= n -> live n (InMemory.purge_expired_idempotency now m !! k) = live n (m !! k).
Proof.
  intros Hn. rewrite purged_live. unfold live. destruct (m !! k) as [[r e]|]; simpl; [|done].
  destruct (Z.ltb_spec now e); simpl; [done|]. by rewrite (proj2 (Z.ltb_ge n e)) by lia.
Qed.

#[global, program] Instance in_memory_store : IdempotencyStore InMemory.state := {|
  is_lookup s rid key := InMemory.idempotency s !! InMemory.idempotency_map_key rid key;
  is_known s id := is_Some (InMemory.store s !! id);
  is_tx s id := InMemory.store s !! id;
  is_reserve now now' rid key r ttl := InMemory.reserve_idempotency_key now now' rid key r ttl;
  is_get now rid key := InMemory.get_idempotency_record now rid key;
  is_release _ rid key id := InMemory.release_idempotency_key_if_unused rid key id;
  is_get_by_id_on_primary id := InMemory.get_by_id id;
  is_create t := InMemory.create t;
|}.
Next Obligation.
  intros now now' rid key r ttl s Hr Hn. unfold wp, InMemory.reserve_idempotency_key.
  rewrite purged_live. destruct (live now (_ !! _)) as [x|] eqn:El; simpl.
  - repeat (split; [done|]). split; [intros; by apply live_purge|]. right.
    split; [|done]. intros n Hle. by apply live_purge.
  - repeat (split; [done|]). split.
    + intros rid' key' Hr' Hne n Hle. simpl. rewrite lookup_insert_ne; [by apply live_purge|].
      intros Heq. by apply app_colon_inj in Heq as [-> ->].
    + left. split; [done|]. split; [done|]. eexists. rewrite lookup_insert_eq. split; [|done]. lia.
Qed.
Next Obligation.
  intros now rid key s. unfold wp, InMemory.get_idempotency_record. simpl.
  repeat (split; [done|]). split; [intros ???; by apply live_purge|].
  intros o [= <-]. by rewrite purged_live.
Qed.
Next Obligation.
  intros now rid key id s Hr. unfold wp, InMemory.release_idempotency_key_if_unused.
  destruct (InMemory.store s !! id) as [t|] eqn:Es; [split; [done|by left]|].
  destruct (InMemory.idempotency s !! _) as [[r e]|] eqn:Ei; [|split; [done|by left]].
  destruct (String.eqb_spec (ir_tx_id r) id) as [Hid|Hid]; [|split; [done|by left]].
  split; [done|]. intros rid' key' Hr'. simpl.
  destruct (decide ((rid', key') = (rid, key))) as [Heq|Hne].
  - right. split; [done|]. split; [intros [? ?]; congruence|]. by eexists _, _.
  - left. intros n Hn. simpl. rewrite lookup_delete_ne; [done|]. intros Heq.
    by apply app_colon_inj in Heq as [-> ->].
Qed.
Next Obligation.
  intros id s. unfold wp, InMemory.get_by_id.
  destruct (InMemory.store s !! id) as [t|] eqn:Es; repeat (split; [done|]); split; try done.
  intros t' [= <-]. done.
Qed.
Next Obligation.
  intros t s. unfold wp, InMemory.create. destruct (InMemory.store s !! tx_id t) eqn:Es; simpl.
  - split; [done|by left].
  - split; [done|]. intros id. rewrite lookup_insert_is_Some. naive_solver.
Qed.

(** ** The Redis repository implements the interface *)

Section RedisStore.
Context `{Chrono} `{ServerConfig} `{JsonFloat} `{ForeignSerde} `{LuaJson} `{JsonText}
  `{SetOrder} `{HashEntries Z} (key_prefix : string).

Definition redis_lookup (k : keyspace) (rid key : string) : option (IdempotencyRecord * Z) :=
  '(j, e) ← idem k !! (rid, key); r ← RedisTx.idempotency_of_json j; Some (r, e).

Definition redis_known (k : keyspace) (id : string) : Prop := is_Some (reverse k !! id).

Definition redis_tx (k : keyspace) (id : string) : option TransactionRepoModel :=
  rid ← reverse k !! id; j ← bodies k !! (rid, id); tx_of_json j.

Lemma idempotency_roundtrip r : RedisTx.idempotency_of_json (RedisTx.idempotency_json r) = Some r.
Proof. by destruct r. Qed.

Lemma idempotency_owner fs r :
  RedisTx.idempotency_of_json (JObject fs) = Some r ->
  lua_get "tx_id" fs = Some (JString (ir_tx_id r)).
Proof.
  simpl. unfold req, get_field, lua_get. intros Hr. simplify_option_eq.
  destruct (fields_named "tx_id" fs) as [|[k v] []]; simplify_option_eq; try done.
  by destruct v; simplify_eq/=.
Qed.

Lemma live_redis now k rid key :
  live now (redis_lookup k rid key) =
  (e ← snd <$> idem k !! (rid, key); j ← RedisTx.live_record now rid key k;
   r ← RedisTx.idempotency_of_json j; Some (r, e)).
Proof.
  unfold redis_lookup, RedisTx.live_record, live. destruct (idem k !! (rid, key)) as [[j e]|]; [|done].
  destruct (RedisTx.idempotency_of_json j) eqn:E; destruct (now <? e) eqn:El;
    cbn -[RedisTx.idempotency_of_json]; rewrite ?E, ?El; cbn; rewrite ?El; done.
Qed.

Lemma map_redis_error_found e c m : map_redis_error e c <> RepositoryError.NotFound m.
Proof. unfold map_redis_error. by destruct (err_kind e). Qed.

Lemma map_pool_error_found e c m : map_pool_error e c <> RepositoryError.NotFound m.
Proof. destruct e; try done. apply map_redis_error_found. Qed.

(** Failures of the server are never mistaken for a missing transaction. *)
Lemma wp_connection_found c (Q : result RepositoryError.t unit -> Redis.state -> Prop) s :
  (forall r s', Redis.primary s' = Redis.primary s ->
     (forall m, r <> Err (RepositoryError.NotFound m)) -> Q r s') -> wp (get_connection c) Q s.
Proof.
  intros HQ. unfold wp, get_connection. destruct (next_event s) as [ev s'] eqn:E.
  apply next_event_same in E as [Hp _].
  destruct ev; apply HQ; try done. intros m [= Heq]. by apply map_pool_error_found in Heq.
Qed.

Lemma wp_query_found {A} (f : keyspace -> A) c
    (Q : result RepositoryError.t A -> Redis.state -> Prop) s :
  (forall r s', Redis.primary s' = Redis.primary s ->
     (forall m, r <> Err (RepositoryError.NotFound m)) ->
     (forall a, r = Ok a -> a = f (Redis.primary s)) -> Q r s') -> wp (query Primary f c) Q s.
Proof.
  intros HQ. unfold wp, query. destruct (next_event s) as [ev s'] eqn:E.
  apply next_event_same in E as [Hp _]. cbn [keyspace_of]. rewrite Hp.
  destruct ev; apply HQ; try done; try (by intros a [= <-]);
    intros m [= Heq]; by apply map_redis_error_found in Heq.
Qed.

Lemma redis_reserve_spec now rid key r ttl s :
  wp (RedisTx.reserve_idempotency_key now rid key r ttl) (fun res s' =>
    (exists f, Redis.primary s' = set_idem f (Redis.primary s)) /\
    (forall rid' key', (rid', key') <> (rid, key) ->
       redis_lookup (Redis.primary s') rid' key' = redis_lookup (Redis.primary s) rid' key') /\
    ((live now (redis_lookup (Redis.primary s) rid key) = None /\ res <> Ok false /\
      redis_lookup (Redis.primary s') rid key = Some (r, now + ttl * 10 ^ 9)) \/
     (Redis.primary s' = Redis.primary s /\ res <> Ok true))) s.
Proof.
  assert (forall s' (res : result RepositoryError.t bool), Redis.primary s' = Redis.primary s ->
    exists f, Redis.primary s' = set_idem f (Redis.primary s)) as Hid.
  { intros s' res ->. exists (fun m => m). by destruct (Redis.primary s). }
  unfold RedisTx.reserve_idempotency_key. wp_step. apply wp_get_connection.
  intros [[]|e] s1 [Hp1 _].
  2:{ split; [by apply (Hid s1 (Err e))|]. split; [by rewrite <- Hp1|]. by right. }
  wp_step. apply wp_invoke.
  - intros e s2 [Hp2 _]. simpl. rewrite <- Hp2, <- Hp1. split; [apply (Hid s (Ok true)); done|].
    split; [done|]. by right.
  - intros res s2 [Hp2 _] Hres. rewrite Hp2, <- Hp1 in *. clear Hp1 Hp2.
    destruct (RedisTx.live_record now rid key (Redis.primary s)) as [j|] eqn:El; simpl in *.
    + split; [apply (Hid s (Ok true)); done|]. split; [done|]. right. split; [done|].
      by destruct Hres as [[e ->]| ->].
    + split; [by eexists|]. split.
      * intros rid' key' Hne. unfold redis_lookup. simpl. by rewrite lookup_insert_ne by done.
      * left. split; [|split].
        -- rewrite live_redis, El. by destruct (snd <$> _).
        -- by destruct Hres as [[e ->]| ->].
        -- unfold redis_lookup. cbn [set_idem idem]. rewrite lookup_insert_eq.
           by cbn -[RedisTx.idempotency_of_json]; rewrite idempotency_roundtrip.
Qed.

Lemma redis_get_spec now rid key s :
  wp (RedisTx.get_idempotency_record key_prefix now rid key) (fun res s' =>
    Redis.primary s' = Redis.primary s /\
    forall o, res = Ok o -> o = fst <$> live now (redis_lookup (Redis.primary s) rid key)) s.
Proof.
  unfold RedisTx.get_idempotency_record. wp_step. apply wp_get_connection.
  intros [[]|e] s1 [Hp1 _]; [|done]. wp_step. apply wp_query; [by intros e s2 [Hp2 _]; rewrite <- Hp2|].
  intros s2 [Hp2 _]. rewrite Hp1, Hp2, live_redis. cbn [keyspace_of].
  replace (Redis.primary s1) with (Redis.primary s2) by done. unfold RedisTx.live_record.
  destruct (idem (Redis.primary s2) !! (rid, key)) as [[j e]|]; [|split; [done|by intros o [= <-]]].
  cbn [fmap option_fmap option_map mbind option_bind snd].
  destruct (now <? e); [|split; [done|by intros o [= <-]]]. cbn [mbind option_bind].
  unfold deserialize_entity. destruct (RedisTx.idempotency_of_json j) as [r|]; simpl.
  - split; [done|]. by intros o [= <-].
  - done.
Qed.

Lemma redis_release_spec now rid key id s :
  wp (RedisTx.release_idempotency_key_if_unused now rid key id) (fun _ s' =>
    Redis.primary s' = Redis.primary s \/
    (Redis.primary s' = set_idem (delete (rid, key)) (Redis.primary s) /\
     ~ redis_known (Redis.primary s) id /\
     forall r e, redis_lookup (Redis.primary s) rid key = Some (r, e) -> ir_tx_id r = id)) s.
Proof.
  unfold RedisTx.release_idempotency_key_if_unused. wp_step. apply wp_get_connection.
  intros [[]|e] s1 [Hp1 _]; [|by left]. wp_step. rewrite Hp1. apply wp_invoke.
  - intros e s2 [Hp2 _]. by left.
  - intros res s2 [Hp2 _] _. simpl. rewrite Hp2. unfold RedisTx.release_script.
    destruct (RedisTx.live_record _ _ _ _) as [j|] eqn:El; [|by left].
    destruct j as [| | | | |fs]; try by left.
    destruct (lua_get "tx_id" fs) as [v|] eqn:Eo; [|by left].
    destruct v as [| | |owner| |]; try by left.
    destruct (String.eqb_spec owner id) as [->|]; simpl; [|by left].
    case_bool_decide as Hk; [by left|]. right. split; [done|]. split; [done|].
    intros r e Hl. unfold redis_lookup in Hl. unfold RedisTx.live_record in El.
    destruct (idem (Redis.primary s1) !! (rid, key)) as [[j e']|]; [|done].
    destruct (now <? e'); [|done]. injection El as ->.
    cbn -[RedisTx.idempotency_of_json] in Hl.
    destruct (RedisTx.idempotency_of_json (JObject fs)) as [r'|] eqn:Er; [|done].
    injection Hl as -> ->. apply idempotency_owner in Er. congruence.
Qed.

Lemma redis_get_by_id_spec id s :
  wp (RedisTx.get_by_id_on_primary id) (fun res s' =>
    Redis.primary s' = Redis.primary s /\
    (forall t, res = Ok t -> redis_tx (Redis.primary s) id = Some t) /\
    (forall m, res = Err (RepositoryError.NotFound m) -> redis_tx (Redis.primary s) id = None)) s.
Proof.
  unfold RedisTx.get_by_id_on_primary, RedisTx.get_by_id_on, redis_tx. case_match; [done|].
  wp_step. apply wp_connection_found. intros [[]|e] s1 Hp1 Hn1; [|split; [done|]; naive_solver].
  wp_step. apply wp_query_found. intros [rid|e] s2 Hp2 Hn2 Hr2; [|split; [congruence|]; naive_solver].
  rewrite (Hr2 rid eq_refl), Hp1. destruct (reverse (Redis.primary s) !! id) as [rid'|] eqn:Er;
    cbn [mbind option_bind]; [|apply wp_lift; split; [congruence|]; naive_solver].
  wp_step. apply wp_query_found. intros [j|e] s3 Hp3 Hn3 Hr3; [|split; [congruence|]; naive_solver].
  rewrite (Hr3 j eq_refl), Hp2, Hp1. destruct (bodies (Redis.primary s) !! (rid', id)) as [j'|] eqn:Ej;
    cbn [mbind option_bind]; [|apply wp_lift; split; [congruence|]; naive_solver].
  unfold RedisTx.deserialize_tx, deserialize_entity.
  apply wp_lift.
  destruct (tx_of_json j') as [t|]; (split; [congruence|]); naive_solver.
Qed.

(** Commands on transactions. *)
Definition grows (id : string) (k k' : keyspace) : Prop :=
  idem k' = idem k /\ forall id', is_Some (reverse k' !! id') -> is_Some (reverse k !! id') \/ id' = id.

#[local] Instance grows_preorder id : PreOrder (grows id).
Proof.
  split; [by split; [|left]|]. intros a b c [Hi Hr] [Hi' Hr']. split; [congruence|].
  intros id' [[?|?]%Hr|?]%Hr'; auto.
Qed.

Lemma redis_create_spec t :
  preserves (moves (grows (tx_id t))) (RedisTx.create t).
Proof.
  unfold RedisTx.create, RedisTx.update_indexes. preserve.
  - apply preserves_exec; [exact _|]. intros k. split; [done|]. simpl. intros id'.
    rewrite lookup_insert_is_Some. naive_solver.
  - apply preserves_exec; [exact _|]. intros k. apply pipeline_moves; [exact _|].
    unfold RedisTx.update_index_cmds. case_match; repeat constructor; by auto.
Qed.

#[program] Definition redis_store : IdempotencyStore Redis.state := {|
  is_lookup s := redis_lookup (Redis.primary s);
  is_known s := redis_known (Redis.primary s);
  is_tx s := redis_tx (Redis.primary s);
  is_reserve now _ rid key r ttl := RedisTx.reserve_idempotency_key now rid key r ttl;
  is_get now rid key := RedisTx.get_idempotency_record key_prefix now rid key;
  is_release now rid key id := RedisTx.release_idempotency_key_if_unused now rid key id;
  is_get_by_id_on_primary id := RedisTx.get_by_id_on_primary id;
  is_create t := RedisTx.create t;
|}.
Next Obligation.
  intros now now' rid key r ttl s Hr Hn. eapply wp_mono; [|apply redis_reserve_spec].
  intros res s' ([f Hf] & Ho & Hres). rewrite Hf in *. repeat (split; [done|]). split.
  - intros rid' key' _ Hne n _. cbn. by rewrite Ho.
  - destruct Hres as [(Hl & Hb & Hs)|[Hs Hb]]; [left|right].
    + split; [done|]. split; [done|]. eexists. split; [|exact Hs]. lia.
    + split; [|done]. intros n _. cbn. by rewrite Hs.
Qed.
Next Obligation.
  intros now rid key s. eapply wp_mono; [|apply redis_get_spec]. intros res s' [Hp Ho].
  cbn. rewrite Hp. split; [done|]. split; [done|]. split; [|exact Ho].
  by intros rid' key' n _.
Qed.
Next Obligation.
  intros now rid key id s Hr. eapply wp_mono; [|apply redis_release_spec].
  intros res s' [Hp|(Hp & Hk & Ho)]; (split; [cbn; by rewrite Hp|]); intros rid' key' Hr'.
  - left. intros n _. cbn. by rewrite Hp.
  - destruct (decide ((rid', key') = (rid, key))) as [[= -> ->]|Hne].
    + destruct (redis_lookup (Redis.primary s) rid key) as [[r e]|] eqn:El.
      * right. split; [done|]. split; [done|]. exists r, e. split; [done|]. by eapply Ho.
      * left. intros n _. cbn -[redis_lookup live]. rewrite Hp. unfold redis_lookup. cbn.
        by rewrite lookup_delete_eq.
    + left. intros n _. cbn -[redis_lookup live]. rewrite Hp. unfold redis_lookup. cbn.
      by rewrite lookup_delete_ne.
Qed.
Next Obligation.
  intros id s. eapply wp_mono; [|apply redis_get_by_id_spec]. intros res s' (Hp & Ht & Hn).
  cbn. rewrite Hp. split; [done|]. split; [done|]. split; [|done].
  by intros now rid key n _.
Qed.
Next Obligation.
  intros t s. eapply wp_mono; [|apply (wp_preserves (moves (grows (tx_id t)))), redis_create_spec].
  intros res s' [[Hi Hr] _]. cbn. split; [|exact Hr].
  intros now rid key n _. cbn. unfold redis_lookup. by rewrite Hi.
Qed.
End RedisStore.

(** ** Examples *)

Section Witnesses.
#[local] Existing Instances sample_chrono sample_config sample_float sample_lua sample_serde
  sample_text sample_sets sample_entries.

Definition demo_request (id : string) : request :=
  {| rq_relayer := "relayer"; rq_key := "key"; rq_ttl := 60; rq_window := 60;
     rq_record := {| ir_fingerprint := "f"; ir_tx_id := id; ir_created_at := "0" |} |}.

Definition demo_tx : TransactionRepoModel := sample_tx "a" Pending [] (sample_data None None None).

(** Another request holds the key; its transaction is stored. *)
Lemma held_key_is_replayed_witness :
  let s := snd (InMemory.create demo_tx (snd (InMemory.reserve_idempotency_key 1 1 "relayer" "key"
                  (rq_record (demo_request "a")) 60 InMemory.new))) in
  fst (create_idempotent 30 {| at_start := 2; at_reserve := 3; at_expiry := 3; at_read := 4;
                               at_judge := 5; at_release := 6 |}
         "b" "relayer" "key" "f" 60 (fun _ => failM RelayerError.RelayerDisabled) s) = Ok demo_tx.
Proof.
  intros s.
  pose proof (held_key_is_replayed 30 {| at_start := 2; at_reserve := 3; at_expiry := 3;
    at_read := 4; at_judge := 5; at_release := 6 |} "b" "relayer" "key" "f" 60
    (fun _ => failM RelayerError.RelayerDisabled) (rq_record (demo_request "a")) (1 + 60 * 10 ^ 9) s
    eq_refl ltac:(done) ltac:(by vm_compute) ltac:(done)) as Hw.
  unfold wp in Hw. destruct (create_idempotent _ _ _ _ _ _ _ _ s) as [r s'] eqn:E.
  destruct Hw as [_ [(e & _ & He)|[[Hf _]|[_ Ht]]]].
  - assert (r = fst (create_idempotent 30 {| at_start := 2; at_reserve := 3; at_expiry := 3;
      at_read := 4; at_judge := 5; at_release := 6 |} "b" "relayer" "key" "f" 60
      (fun _ => failM RelayerError.RelayerDisabled) s)) as Hr by by rewrite E.
    by vm_compute in Hr; subst r.
  - destruct (Hf eq_refl).
  - exact Ht.
Defined.

(** Two requests on Redis: the second finds the key taken, and the first stores. *)
Lemma one_transaction_per_key_witness :
  let _ := redis_store "oz" in
  let q := demo_request "a" in let q' := demo_request "b" in
  let s1 := snd (is_reserve 1 1 "relayer" "key" (rq_record q) 60 (sample_server [])) in
  let s2 := snd (is_reserve 2 2 "relayer" "key" (rq_record q') 60 s1) in
  ~ is_known (snd (is_create demo_tx s2)) "b".
Proof.
  intros St q q' s1 s2.
  refine (one_transaction_per_key (sample_server []) 0
    {| sy_store := snd (is_create demo_tx s2); sy_now := 2;
       sy_entries := [{| en_request := q; en_phase := Creating;
                         en_reserved := Some (1, 1 + 60 * 10 ^ 9) |};
                      {| en_request := q'; en_phase := Reading; en_reserved := None |}] |}
    0 1 _ _ 1 (1 + 60 * 10 ^ 9) _ eq_refl eq_refl _ eq_refl eq_refl _ eq_refl _ _); try done.
  - assert (forall id, ~ is_known (sample_server []) id) as Hnone
      by (intros id [? Hx]; by vm_compute in Hx).
    eapply rtc_l; [apply (step_arrive _ q); [done|apply Hnone|apply not_elem_of_nil]|].
    eapply rtc_l; [apply (step_arrive _ q'); [done|apply Hnone|by apply (bool_decide_unpack _)]|].
    eapply rtc_l; [apply (step_access _ 0 {| en_request := q; en_phase := Reserving;
      en_reserved := None |} 1 1 Creating s1); [done..|by vm_compute]|].
    eapply rtc_l; [apply (step_access _ 1 {| en_request := q'; en_phase := Reserving;
      en_reserved := None |} 2 2 Reading s2); [done..|by vm_compute]|].
    eapply rtc_l; [by eapply (step_store _ 0 _ demo_tx)|apply rtc_refl].
  - by vm_compute; eexists.
Defined.
End Witnesses.
