(* ===== verification/Cleanup.v ===== *)
(** * Cleanup of expired transactions

    The cron job of [jobs/handlers/transaction_cleanup_handler.rs]: under a distributed lock it
    takes each relayer in turn, repairs its status indexes, and pages through its finalized
    transactions to delete those whose [delete_at] has passed.  The repository is an interface,
    [CleanupRepository], which the in-memory and the Redis repository implement. *)

From S2P Require Import Prelude Decimal Errors Json Model TransactionJson TransactionTypes Config.
From S2P Require Import Repository Counter RedisBase Lock RedisTransaction RedisDocuments.
From S2P Require Import RedisRefinement Jobs Effects Sample RedisSample EvmUtils JobHandlers.
From stdpp Require Import sorting.
Open Scope Z_scope.

(** ** The interface *)

Class CleanupRepository `{Chrono} `{ServerConfig} (S : Type) := {
  (** The key prefix of [connection_info]; [None] in memory. *)
  cr_connection_info : option string;
  cr_find_by_status_paginated :
    string -> list TransactionStatus -> PaginationQuery -> bool ->
    M S RepositoryError.t (PaginatedResult TransactionRepoModel);
  cr_delete_by_requests :
    list TransactionDeleteRequest -> M S RepositoryError.t BatchDeleteResult;
  cr_reconcile_stale_status_indexes : Z -> string -> M S RepositoryError.t Z;

  cr_holds : S -> gmap string TransactionRepoModel -> Prop;

  (** Pages list stored transactions; deletions remove some of the named ones. *)
  cr_find_spec rid sts q oldest s v :
    cr_holds s v ->
    wp (cr_find_by_status_paginated rid sts q oldest) (fun r s' =>
      cr_holds s' v /\
      forall p t, r = Ok p -> t ∈ pr_items p -> v !! tx_id t = Some t) s;
  cr_delete_spec reqs s v :
    cr_holds s v ->
    wp (cr_delete_by_requests reqs) (fun _ s' =>
      exists X, X ⊆ list_to_set (dr_id <$> reqs) /\ cr_holds s' (without X v)) s;
  cr_reconcile_spec now rid s v :
    cr_holds s v -> wp (cr_reconcile_stale_status_indexes now rid) (fun _ s' => cr_holds s' v) s;
}.

(** ** The handler *)

Definition CLEANUP_PAGE_SIZE : Z := 100.
Definition DELETE_BATCH_SIZE : nat := 100.
Definition MAX_CLEANUP_ITERATIONS_PER_STATUS : nat := 1500.
Definition CLEANUP_LOCK_NAME : string := "transaction_cleanup".
Definition TRANSACTION_CLEANUP_LOCK_TTL_SECS : Z := 9 * 60.
Definition WORKER_TRANSACTION_CLEANUP_RETRIES : Z := 5.

(** [slice::chunks]; every round takes at least one element. *)
Fixpoint chunks_fuel {A} (fuel n : nat) (l : list A) : list (list A) :=
  match fuel, l with
  | O, _ | _, [] => []
  | S fuel', _ => take n l :: chunks_fuel fuel' n (drop n l)
  end.

Definition chunks {A} (n : nat) (l : list A) : list (list A) := chunks_fuel (length l) n l.

Lemma chunks_concat {A} n (l : list A) : (0 < n)%nat -> concat (chunks n l) = l.
Proof.
  intros Hn. unfold chunks. assert (length l <= length l)%nat as Hl by lia.
  revert Hl. generalize (length l) at 2 3 as fuel. intros fuel. revert l.
  induction fuel as [|fuel IH]; intros l Hl; [by destruct l; [|cbn in Hl; lia]|].
  destruct l as [|x l]; [done|]. cbn [chunks_fuel]. rewrite concat_cons, IH; [apply take_drop|].
  rewrite length_drop. cbn [length] in *. lia.
Qed.

Section Handler.
Context `{Chrono} `{ServerConfig} {S : Type} `{!CleanupRepository S}.

Definition extract_nonce_from_network_data (network_data : NetworkTransactionData) : option Z :=
  match network_data with
  | EvmData evm_data => evm_nonce evm_data
  | _ => None
  end.

Definition should_delete_transaction (transaction : TransactionRepoModel) (now : Z) : bool :=
  match transaction.(tx_delete_at) with
  | Some delete_at_str =>
      match parse_rfc3339 delete_at_str with
      | Some delete_at => delete_at <=? now
      | None => false
      end
  | None => false
  end.

(** What the filter keeps. *)
Definition deletable (now : Z) (tx : TransactionRepoModel) : bool :=
  if negb (status_in (tx_status tx) FINAL_TRANSACTION_STATUSES) then false
  else should_delete_transaction tx now.

Definition delete_request (tx : TransactionRepoModel) : TransactionDeleteRequest :=
  {| dr_id := tx_id tx; dr_relayer_id := tx_relayer_id tx;
     dr_nonce := extract_nonce_from_network_data (tx_network_data tx) |}.

(** Batches that fail are skipped.  The result counts what was deleted. *)
Definition process_transactions_for_cleanup (transactions : list TransactionRepoModel) (now : Z)
  : M S Report Z :=
  match transactions with
  | [] => retM 0
  | _ =>
      let delete_requests := delete_request <$> List.filter (deletable now) transactions in
      match delete_requests with
      | [] => retM 0
      | _ =>
          foldM (fun total_deleted batch =>
                   let* r := try_ (cr_delete_by_requests batch) in
                   match r with
                   | Ok result => retM (total_deleted + deleted_count result)
                   | Err _ => retM total_deleted
                   end) 0 (chunks DELETE_BATCH_SIZE delete_requests)
      end
  end.

(** The loop; the fuel is what is left of the iteration limit. *)
Fixpoint status_cleanup_loop (fuel : nat) (relayer_id : string) (status : TransactionStatus)
    (now current_page total_cleaned : Z) : M S Report Z :=
  match fuel with
  | O => retM total_cleaned
  | Datatypes.S fuel' =>
      let query := {| page := current_page; per_page := CLEANUP_PAGE_SIZE |} in
      let* page_result :=
        map_errM (fun e => RMessage ("Failed to fetch " +:+ status_name status +:+
                    " transactions for relayer " +:+ relayer_id +:+ ": " +:+
                    repository_error_display e))
          (cr_find_by_status_paginated relayer_id [status] query true) in
      match pr_items page_result with
      | [] => retM total_cleaned
      | items =>
          let* cleaned_count := process_transactions_for_cleanup items now in
          let total_cleaned := total_cleaned + cleaned_count in
          let current_page := if cleaned_count =? 0 then current_page + 1 else current_page in
          status_cleanup_loop fuel' relayer_id status now current_page total_cleaned
      end
  end.

Definition process_status_cleanup (relayer_id : string) (status : TransactionStatus) (now : Z)
  : M S Report Z :=
  status_cleanup_loop MAX_CLEANUP_ITERATIONS_PER_STATUS relayer_id status now 1 0.

Record RelayerCleanupResult := {
  rc_relayer_id : string; rc_cleaned_count : Z; rc_error : option string;
}.

(** The loop over the final statuses, which the first failure ends. *)
Fixpoint statuses_cleanup (relayer_id : string) (reconcile_error : option string)
    (statuses : list TransactionStatus) (now total_cleaned : Z)
  : M S Report RelayerCleanupResult :=
  match statuses with
  | [] => retM {| rc_relayer_id := relayer_id; rc_cleaned_count := total_cleaned;
                  rc_error := reconcile_error |}
  | status :: statuses' =>
      let* r := try_ (process_status_cleanup relayer_id status now) in
      match r with
      | Ok cleaned =>
          statuses_cleanup relayer_id reconcile_error statuses' now (total_cleaned + cleaned)
      | Err e =>
          retM {| rc_relayer_id := relayer_id; rc_cleaned_count := total_cleaned;
                  rc_error := Some match reconcile_error with
                    | Some reconcile_error =>
                        reconcile_error +:+ "; status cleanup failed: " +:+ report_display e
                    | None => report_display e
                    end |}
      end
  end.

(** [reconcile_now] is the clock the reconciliation reads. *)
Definition process_single_relayer (reconcile_now : Z) (relayer_id : string) (now : Z)
  : M S Report RelayerCleanupResult :=
  let* r := try_ (cr_reconcile_stale_status_indexes reconcile_now relayer_id) in
  let reconcile_error := match r with
                         | Ok _ => None
                         | Err e => Some (repository_error_display e)
                         end in
  statuses_cleanup relayer_id reconcile_error FINAL_TRANSACTION_STATUSES now 0.

(** One relayer after the other. *)
Definition process_relayers_in_batches (reconcile_now : Z) (relayer_ids : list string) (now : Z)
  : M S Report (list RelayerCleanupResult) :=
  foldM (fun results relayer_id =>
           let* r := process_single_relayer reconcile_now relayer_id now in
           retM (results ++ [r])) [] relayer_ids.

Definition report_cleanup_results (cleanup_results : list RelayerCleanupResult)
  : result Report unit :=
  let total_errors :=
    length (List.filter (fun r => bool_decide (is_Some (rc_error r))) cleanup_results) in
  if (0 <? total_errors)%nat then
    Err (RMessage ("Cleanup completed with " +:+ print_dec (Z.of_nat total_errors) +:+
                   " errors out of " +:+ print_dec (Z.of_nat (length cleanup_results)) +:+
                   " relayers"))
  else Ok tt.

(** The repository, the locks, and the guards that were dropped, whose release tasks run
    later. *)
Record CleanupWorld := { cw_repo : S; cw_locks : lock_server; cw_dropped : list LockGuard }.

Definition on_cleanup_repo {A} (c : M S Report A) : M CleanupWorld Report A := fun w =>
  let '(r, s) := c (cw_repo w) in
  (r, {| cw_repo := s; cw_locks := cw_locks w; cw_dropped := cw_dropped w |}).

Definition on_cleanup_locks {A} (c : M lock_server LockError A)
  : M CleanupWorld Report (result LockError A) := fun w =>
  let '(r, s) := c (cw_locks w) in
  (Ok r, {| cw_repo := cw_repo w; cw_locks := s; cw_dropped := cw_dropped w |}).

Definition drop_guard (g : option LockGuard) : M CleanupWorld Report unit := fun w =>
  (Ok tt, {| cw_repo := cw_repo w; cw_locks := cw_locks w;
             cw_dropped := cw_dropped w ++ option_list g |}).

(** What follows the acquisition. *)
Definition cleanup_run (reconcile_now now : Z) (relayers : result RepositoryError.t (list string))
  : M CleanupWorld Report unit :=
  let* ids := liftM match relayers with
                    | Ok l => Ok l
                    | Err e => Err (RMessage ("Failed to fetch relayers: " +:+
                                              repository_error_display e))
                    end in
  let* cleanup_results := on_cleanup_repo (process_relayers_in_batches reconcile_now ids now) in
  liftM (report_cleanup_results cleanup_results).

(** [relayers] is the answer of the relayer repository, [lock_now] the server's clock and
    [lock_value] what [generate_lock_value] gives.  The guard is dropped on every way out. *)
Definition cleanup_handle_request (distributed_mode : bool) (lock_now : Z) (lock_value : string)
    (reconcile_now now : Z) (relayers : result RepositoryError.t (list string))
  : M CleanupWorld Report unit :=
  let run g :=
    let* r := try_ (cleanup_run reconcile_now now relayers) in
    do* drop_guard g in liftM r in
  match distributed_mode, cr_connection_info with
  | true, Some prefix =>
      let lock_key := prefix +:+ ":lock:" +:+ CLEANUP_LOCK_NAME in
      let* r := on_cleanup_locks
        (try_acquire lock_now lock_key TRANSACTION_CLEANUP_LOCK_TTL_SECS lock_value) in
      match r with
      | Ok (Some guard) => run (Some guard)
      | Ok None => retM tt
      | Err _ => retM tt
      end
  | _, _ => run None
  end.

Definition transaction_cleanup_handler (distributed_mode : bool) (lock_now : Z)
    (lock_value : string) (reconcile_now now : Z)
    (relayers : result RepositoryError.t (list string)) (attempt : Z)
  : M CleanupWorld HandlerError.t unit :=
  let* result := try_ (cleanup_handle_request distributed_mode lock_now lock_value
                         reconcile_now now relayers) in
  liftM (handle_result result attempt WORKER_TRANSACTION_CLEANUP_RETRIES).

(** ** Only expired transactions are deleted *)

Lemma without_lookup X (v : gmap string TransactionRepoModel) id t :
  without X v !! id = Some t <-> v !! id = Some t /\ id ∉ X.
Proof. unfold without. by rewrite map_lookup_filter_Some. Qed.

Lemma without_union X Y (v : gmap string TransactionRepoModel) :
  without Y (without X v) = without (X ∪ Y) v.
Proof.
  apply map_eq. intros id. apply option_eq. intros t. rewrite !without_lookup. set_solver.
Qed.

(** [trims Y]: some transactions with ids in [Y] are gone. *)
Definition trims (Y : gset string) (s s' : S) : Prop :=
  forall v, cr_holds s v -> exists X, X ⊆ Y /\ cr_holds s' (without X v).

#[local] Instance trims_preorder Y : PreOrder (trims Y).
Proof.
  split.
  - intros s v Hs. exists ∅. rewrite without_empty. split; [set_solver|done].
  - intros a b c Hab Hbc v Hv. destruct (Hab v Hv) as (X & HX & Hb).
    destruct (Hbc _ Hb) as (X' & HX' & Hc). exists (X ∪ X'). rewrite without_union in Hc.
    split; [set_solver|done].
Qed.

Lemma trims_process items now :
  preserves (trims (list_to_set (tx_id <$> List.filter (deletable now) items)))
    (process_transactions_for_cleanup items now).
Proof.
  unfold process_transactions_for_cleanup. destruct items as [|t0 items0] eqn:Ei;
    [by apply preserves_ret, _|]. rewrite <- Ei. clear Ei.
  set (l := List.filter (deletable now) items).
  destruct (delete_request <$> l) as [|r0 rs] eqn:Er; [by apply preserves_ret, _|]. rewrite <- Er.
  apply preserves_foldM_in; [exact _|]. intros total batch Hb. apply preserves_bind; [exact _| |].
  - apply preserves_try. intros s v Hs. destruct (cr_delete_spec batch s v Hs) as (X & HX & Hs').
    exists X. split; [|exact Hs']. intros id (r & -> & Hr)%HX%elem_of_list_to_set%list_elem_of_fmap.
    apply elem_of_list_to_set, list_elem_of_fmap.
    assert (r ∈ delete_request <$> l) as (t & -> & Ht)%list_elem_of_fmap.
    { rewrite <- (chunks_concat DELETE_BATCH_SIZE (delete_request <$> l))
        by (unfold DELETE_BATCH_SIZE; lia).
      apply list_elem_of_In, in_concat. exists batch. by rewrite <- !list_elem_of_In. }
    by exists t.
  - intros [res|e]; by apply preserves_ret, _.
Qed.

(** [purges now]: what is gone was final and had expired. *)
Definition purged (now : Z) (v v' : gmap string TransactionRepoModel) : Prop :=
  exists X, v' = without X v /\
    forall id t, id ∈ X -> v !! id = Some t -> deletable now t = true.

Definition purges (now : Z) (s s' : S) : Prop :=
  forall v, cr_holds s v -> exists v', cr_holds s' v' /\ purged now v v'.

#[local] Instance purged_preorder now : PreOrder (purged now).
Proof.
  split.
  - intros v. exists ∅. rewrite without_empty. split; [done|set_solver].
  - intros a b c (X & -> & HX) (Y & -> & HY). exists (X ∪ Y). rewrite without_union.
    split; [done|]. intros id t Hid Ht. destruct (decide (id ∈ X)) as [?|Hn]; [by eapply HX|].
    apply (HY id); [set_solver|]. by apply without_lookup.
Qed.

#[local] Instance purges_preorder now : PreOrder (purges now).
Proof.
  split.
  - intros s v Hs. by exists v.
  - intros a b c Hab Hbc v Hv. destruct (Hab v Hv) as (v1 & H1 & Hp).
    destruct (Hbc v1 H1) as (v2 & H2 & Hp'). exists v2. split; [done|by etransitivity].
Qed.

Lemma purges_loop fuel rid status now current total :
  preserves (purges now) (status_cleanup_loop fuel rid status now current total).
Proof.
  revert current total. induction fuel as [|fuel IH]; intros current total;
    [by apply preserves_ret, _|]. intros s v Hs. cbn [status_cleanup_loop].
  match goal with |- context [snd (?c s)] =>
    change (wp c (fun _ s' => exists v', cr_holds s' v' /\ purged now v v') s) end.
  do 2 wp_step. eapply wp_mono; [|by apply cr_find_spec].
  intros [p|e] s1 [Hs1 Hin]; cbn [result_map_err]; [|by exists v].
  specialize (Hin p). destruct (pr_items p) as [|t0 items0] eqn:Ei; [by exists v|].
  rewrite <- Ei in *. clear Ei. wp_step.
  destruct (trims_process (pr_items p) now s1 v Hs1) as (X & HX & Hs2).
  assert (purged now v (without X v)) as Hp.
  { exists X. split; [done|].
    intros id t (t' & -> & Ht')%HX%elem_of_list_to_set%list_elem_of_fmap Ht.
    apply InMemory.elem_of_list_filter in Ht' as [Hi Hd]. rewrite (Hin t' eq_refl Hi) in Ht.
    by injection Ht as <-. }
  unfold wp at 1. destruct (process_transactions_for_cleanup _ _ s1) as [[n|e] s2]; cbn in *;
    [|by eexists]. cbv zeta.
  destruct (IH (if n =? 0 then current + 1 else current) (total + n) s2 _ Hs2)
    as (v' & Hs3 & Hp'). exists v'. split; [exact Hs3|]. by etransitivity.
Qed.

Lemma purges_relayer rnow rid now : preserves (purges now) (process_single_relayer rnow rid now).
Proof.
  unfold process_single_relayer. apply preserves_bind; [exact _| |].
  - apply preserves_try. intros s v Hs. exists v. split; [by apply cr_reconcile_spec|done].
  - intros r. generalize (0 : Z) as total. induction FINAL_TRANSACTION_STATUSES as [|st sts IH];
      intros total; cbn [statuses_cleanup]; [by apply preserves_ret, _|].
    apply preserves_bind; [exact _|apply preserves_try, purges_loop|].
    intros [n|e]; [apply IH|by apply preserves_ret, _].
Qed.

Lemma purges_relayers rnow ids now :
  preserves (purges now) (process_relayers_in_batches rnow ids now).
Proof.
  unfold process_relayers_in_batches. apply preserves_foldM; [exact _|]. intros results rid.
  apply preserves_bind; [exact _|apply purges_relayer|]. intros r. by apply preserves_ret, _.
Qed.

(** Lifted to the world of the handler. *)
Definition world_purges (now : Z) (w w' : CleanupWorld) : Prop := purges now (cw_repo w) (cw_repo w').

#[local] Instance world_purges_preorder now : PreOrder (world_purges now).
Proof. split; [by intros w v Hv; exists v|]. intros a b c. apply purges_preorder. Qed.

Lemma world_purges_run rnow now relayers :
  preserves (world_purges now) (cleanup_run rnow now relayers).
Proof.
  unfold cleanup_run. apply preserves_bind; [exact _|by apply preserves_lift, _|]. intros ids.
  apply preserves_bind; [exact _| |intros r; by apply preserves_lift, _].
  intros w. unfold on_cleanup_repo. pose proof (purges_relayers rnow ids now (cw_repo w)) as Hp.
  by destruct (process_relayers_in_batches _ _ _ _).
Qed.

Lemma world_purges_handler mode lnow value rnow now relayers attempt :
  preserves (world_purges now)
    (transaction_cleanup_handler mode lnow value rnow now relayers attempt).
Proof.
  unfold transaction_cleanup_handler, cleanup_handle_request. preserve;
    try apply world_purges_run; try (by intros w v Hv; exists v).
  intros w v Hv. unfold on_cleanup_locks. destruct (try_acquire _ _ _ _ _). by exists v.
Qed.

Lemma deletable_spec now t :
  deletable now t = true <->
  is_final_state (tx_status t) = true /\
  exists str d, tx_delete_at t = Some str /\ parse_rfc3339 str = Some d /\ d <= now.
Proof.
  unfold deletable, should_delete_transaction. rewrite is_final_state_spec.
  destruct (status_in (tx_status t) FINAL_TRANSACTION_STATUSES); cbn [negb]; [|naive_solver].
  destruct (tx_delete_at t) as [str|]; [|naive_solver].
  destruct (parse_rfc3339 str) as [d|] eqn:Ep; [|naive_solver]. rewrite Z.leb_le. naive_solver.
Qed.

(** C25. A cleanup run, whatever fails on the way, deletes only transactions that are final and
    whose [delete_at] has passed, and leaves the others exactly as they were; and while another
    instance holds the lock it does not touch the store. *)
Theorem cleanup_deletes_only_expired mode lnow value rnow now relayers attempt w v :
  cr_holds (cw_repo w) v ->
  let w' := snd (transaction_cleanup_handler mode lnow value rnow now relayers attempt w) in
  (exists v', cr_holds (cw_repo w') v' /\
     (forall id t, v' !! id = Some t -> v !! id = Some t) /\
     (forall id t, v !! id = Some t -> v' !! id = None ->
        is_final_state (tx_status t) = true /\
        exists str d, tx_delete_at t = Some str /\ parse_rfc3339 str = Some d /\ d <= now)) /\
  (forall prefix, mode = true -> cr_connection_info = Some prefix ->
     lock_value_at lnow (prefix +:+ ":lock:" +:+ CLEANUP_LOCK_NAME) (locks (cw_locks w)) <> None ->
     cw_repo w' = cw_repo w).
Proof.
  intros Hv w'. split.
  - destruct (world_purges_handler mode lnow value rnow now relayers attempt w v Hv)
      as (v' & Hv' & X & -> & HX). exists (without X v). split; [done|].
    split; [intros id t Ht; by apply without_lookup in Ht as [Ht _]|].
    intros id t Ht Hn. apply deletable_spec. apply (HX id); [|done].
    destruct (decide (id ∈ X)) as [?|HnX]; [done|].
    by rewrite (proj2 (without_lookup X v id t) (conj Ht HnX)) in Hn.
  - intros prefix -> Hp Hl. subst w'. unfold transaction_cleanup_handler, cleanup_handle_request.
    cbv zeta. rewrite Hp. unfold try_, bindM, on_cleanup_locks.
    pose proof (try_acquire_spec lnow (prefix +:+ ":lock:" +:+ CLEANUP_LOCK_NAME)
      TRANSACTION_CLEANUP_LOCK_TTL_SECS value (cw_locks w)) as Hs. unfold wp in Hs.
    destruct (try_acquire _ _ _ _ (cw_locks w)) as [[[g|]|e] s'] eqn:Ea; cbn in *; try done.
    destruct Hs as [[_ Hs]|[Hs _]]; [by destruct (Hs g)|done].
Qed.
End Handler.

(** ** The in-memory repository *)

Section InMemoryStore.
Context `{Chrono} `{ServerConfig} `{HashOrder TransactionRepoModel}.

Definition ids_ok (v : gmap string TransactionRepoModel) : Prop :=
  forall id t, v !! id = Some t -> tx_id t = id.

Lemma page_slice_elem {A} start pp (l : list A) x : x ∈ page_slice start pp l -> x ∈ l.
Proof.
  unfold page_slice. intros (i & Hi & _)%elem_of_take. rewrite lookup_drop in Hi.
  by eapply list_elem_of_lookup_2.
Qed.

Lemma delete_one_fold ids m r :
  fst (fold_left InMemory.delete_one ids (m, r)) = without (list_to_set ids) m.
Proof.
  revert m r. induction ids as [|id ids IH]; intros m r; cbn [fold_left list_to_set].
  - symmetry. apply without_empty.
  - unfold InMemory.delete_one at 2. destruct (m !! id) as [t|] eqn:Ei; rewrite IH;
      apply map_eq; intros id'; apply option_eq; intros t'; rewrite !without_lookup.
    + rewrite lookup_delete_Some. set_solver.
    + split; [|set_solver]. intros [Ht' Hn]. split; [done|]. apply not_elem_of_union.
      split; [|done]. intros ->%elem_of_singleton. congruence.
Qed.

#[global, program] Instance in_memory_cleanup : CleanupRepository InMemory.state := {|
  cr_connection_info := None;
  cr_find_by_status_paginated rid sts q oldest :=
    InMemory.find_by_status_paginated rid sts q oldest;
  cr_delete_by_requests reqs := InMemory.delete_by_requests reqs;
  cr_reconcile_stale_status_indexes _ _ := retM 0;
  cr_holds s v := InMemory.store s = v /\ ids_ok v;
|}.
Next Obligation.
  intros rid sts q oldest s v [<- Hok]. split; [done|]. intros p t [= <-] Ht. cbn in Ht.
  apply page_slice_elem in Ht. rewrite (sorted_by_perm _ (List.filter _ _)) in Ht.
  apply InMemory.elem_of_list_filter in Ht as [(id & Hid)%elem_of_hash_values _].
  by rewrite (Hok _ _ Hid).
Qed.
Next Obligation.
  intros reqs s v [<- Hok]. unfold wp, InMemory.delete_by_requests, InMemory.delete_by_ids.
  destruct reqs as [|r reqs]; [exists ∅; by rewrite without_empty|].
  exists (list_to_set (dr_id <$> r :: reqs)). split; [done|]. cbn [fmap list_fmap].
  pose proof (delete_one_fold (dr_id r :: (dr_id <$> reqs)) (InMemory.store s)
    {| deleted_count := 0; failed := [] |}) as Hf.
  destruct (fold_left _ _ _) as [m res]. cbn [fst] in Hf. subst m. split; [done|].
  intros id t [Ht _]%without_lookup. by apply Hok.
Qed.
Next Obligation. by intros now rid s v. Qed.
End InMemoryStore.

(** ** The Redis repository *)

Section RedisStore.
Context `{Chrono} `{ServerConfig} `{JsonFloat} `{ForeignSerde} `{LuaJson} `{JsonText}
  `{SetOrder} `{HashEntries Z} (key_prefix : string) (U : gset string) (B : Z).

Lemma keeps_stays {A E} v (c : M Redis.state E A) :
  preserves (stays U B v) c -> keeps (holds U B v) c (fun _ => True).
Proof. intros Hc. by apply (keeps_of_preserves _ (stays U B v)); [intros w w' Hw; apply Hw|]. Qed.

Definition lists_stored (v : gmap string TransactionRepoModel) (l : list TransactionRepoModel)
  : Prop := forall t, t ∈ l -> v !! tx_id t = Some t.

Lemma keeps_batch v ids :
  keeps (holds U B v) (RedisTx.get_transactions_by_ids ids) (fun b => lists_stored v (br_results b)).
Proof.
  intros s Hs. pose proof (get_transactions_by_ids_on_spec U Reader ids B v s Hs) as [Hm Hb].
  split; [by eapply holds_eq|]. intros b Eb t. rewrite (Hb b Eb). cbn [br_results].
  intros (id & _ & Ht)%found_elem. pose proof (encodes_slot U id (proj2 Hs)) as Hi.
  rewrite Ht in Hi. by destruct Hi as [<- _].
Qed.

(** The end of a paginated query. *)
Lemma keeps_page v (total : Z) (get_ids : RedisBase.Repo (list string)) q :
  preserves (stays U B v) get_ids ->
  keeps (holds U B v)
    (if total =? 0 then retM (RedisTx.empty_page 0 q) else
     let* ids := get_ids in
     let* b := RedisTx.get_transactions_by_ids ids in
     retM {| pr_items := br_results b; pr_total := total; pr_page := page q;
             pr_per_page := per_page q |})
    (fun p => lists_stored v (pr_items p)).
Proof.
  intros Hids. destruct (total =? 0).
  - apply keeps_ret. by intros t ?%not_elem_of_nil.
  - eapply keeps_bind; [by apply keeps_stays|intros ids _].
    eapply keeps_bind; [apply keeps_batch|]. intros b Hb. by apply keeps_ret.
Qed.

Lemma keeps_find v rid sts q oldest :
  keeps (holds U B v) (RedisTx.find_by_status_paginated rid sts q oldest)
    (fun p => lists_stored v (pr_items p)).
Proof.
  unfold RedisTx.find_by_status_paginated. eapply keeps_bind; [|intros _ _].
  { apply keeps_stays. unfold RedisTx.ensure_all. preserve. apply stays_ensure_status_sorted_set. }
  eapply keeps_bind; [apply keeps_stays, stays_get_connection|intros _ _]. cbv zeta.
  assert (forall sts, preserves (stays U B v)
    (RedisTx.collect_scored rid "find_by_status_paginated_multi" sts)) as Hsc.
  { intros. unfold RedisTx.collect_scored. preserve. apply stays_query. }
  destruct sts as [|st [|st' sts]].
  - eapply keeps_bind; [by apply keeps_stays|intros ids _].
    by apply (keeps_page v _ (retM _)), preserves_ret, _.
  - eapply keeps_bind; [apply keeps_stays, stays_query|intros total _].
    apply keeps_page, stays_query.
  - eapply keeps_bind; [by apply keeps_stays|intros ids _].
    by apply (keeps_page v _ (retM _)), preserves_ret, _.
Qed.

#[program] Definition redis_cleanup : CleanupRepository Redis.state := {|
  cr_connection_info := Some key_prefix;
  cr_find_by_status_paginated rid sts q oldest :=
    RedisTx.find_by_status_paginated rid sts q oldest;
  cr_delete_by_requests reqs := RedisTx.delete_by_requests reqs;
  cr_reconcile_stale_status_indexes now rid := RedisTx.reconcile_stale_status_indexes now rid;
  cr_holds s v := holds U B v s;
|}.
Next Obligation.
  intros rid sts q oldest s v Hs. destruct (keeps_find v rid sts q oldest s Hs) as [Hs' Hp].
  split; [done|]. intros p t Ep. by apply (Hp p).
Qed.
Next Obligation.
  intros reqs s v Hs. eapply wp_mono; [|by apply (delete_by_requests_spec U reqs B v)].
  intros r s' [Hh|Hh]; [exists ∅; rewrite without_empty|eexists]; split; [set_solver|done|done|done].
Qed.
Next Obligation.
  intros now rid s v Hs. by apply (wp_stays U B v); [apply stays_reconcile_stale_status_indexes|].
Qed.
End RedisStore.

(** ** In memory, every expired transaction goes *)

Section Complete.
Context `{Chrono} `{ServerConfig} `{HashOrder TransactionRepoModel}.

Definition listing (rid : string) (st : TransactionStatus) (s : InMemory.state)
  : list TransactionRepoModel := InMemory.status_listing rid [st] true s.

Definition listed_before (a b : TransactionRepoModel) : Prop :=
  InMemory.status_order true a b <> Gt.

#[local] Instance listed_before_trans : Transitive listed_before.
Proof.
  intros a b c. unfold listed_before, InMemory.status_order, InMemory.compare_oldest_first, then_with.
  generalize (fst (InMemory.get_sort_key a)) (fst (InMemory.get_sort_key b))
    (fst (InMemory.get_sort_key c)) (tx_id a) (tx_id b) (tx_id c). clear. intros ka kb kc ia ib ic.
  destruct (String.compare ka kb) eqn:E1; destruct (String.compare kb kc) eqn:E2; try done;
    intros Hab Hbc.
  - apply String.compare_eq_iff in E1 as ->, E2 as ->. rewrite string_compare_refl.
    destruct (String.compare ia ib) eqn:E3; destruct (String.compare ib ic) eqn:E4; try done.
    + by apply String.compare_eq_iff in E3 as ->; rewrite E4.
    + by apply String.compare_eq_iff in E3 as ->; rewrite E4.
    + by apply String.compare_eq_iff in E4 as <-; rewrite E3.
    + by rewrite (string_compare_lt_trans _ _ _ E3 E4).
  - apply String.compare_eq_iff in E1 as ->. by rewrite E2.
  - apply String.compare_eq_iff in E2 as <-. by rewrite E1.
  - by rewrite (string_compare_lt_trans _ _ _ E1 E2).
Qed.

Lemma listed_before_ids a b : listed_before a b -> listed_before b a -> tx_id a = tx_id b.
Proof.
  unfold listed_before. rewrite (InMemory.status_order_antisym true a b).
  unfold InMemory.status_order, InMemory.compare_oldest_first, then_with.
  destruct (String.compare (fst _) _); try done.
  destruct (String.compare (tx_id a) (tx_id b)) eqn:E; try done. intros _ _.
  by apply String.compare_eq_iff.
Qed.

Lemma listing_elem rid st s t :
  ids_ok (InMemory.store s) ->
  t ∈ listing rid st s <->
  InMemory.store s !! tx_id t = Some t /\ tx_relayer_id t = rid /\ tx_status t = st.
Proof.
  intros Hok. unfold listing, InMemory.status_listing.
  rewrite (sorted_by_perm _ (List.filter _ _)), InMemory.elem_of_list_filter, elem_of_hash_values.
  unfold InMemory.matches_status.
  rewrite andb_true_iff, String.eqb_eq, status_in_spec, list_elem_of_singleton.
  split; [|naive_solver]. intros [[id Hid] Hm]. by rewrite (Hok _ _ Hid).
Qed.

Lemma listing_sorted rid st s : Sorted listed_before (listing rid st s).
Proof. apply sorted_by_sorted, InMemory.status_order_antisym. Qed.

Lemma values_nodup (m : gmap string TransactionRepoModel) :
  ids_ok m -> NoDup (tx_id <$> hash_values m).
Proof.
  intros Hok. rewrite hash_values_perm, <- list_fmap_compose.
  erewrite list_fmap_ext; [apply (NoDup_fst_map_to_list m)|].
  intros i [id t] Hi. cbn. by apply Hok, elem_of_map_to_list, (list_elem_of_lookup_2 _ i).
Qed.

Lemma filter_sublist {A} (f : A -> bool) l : List.filter f l `sublist_of` l.
Proof. induction l as [|x l IH]; cbn; [constructor|]. destruct (f x); by constructor. Qed.

Lemma filter_sorted {A} (R : A -> A -> Prop) `{!Transitive R} (f : A -> bool) l :
  Sorted R l -> Sorted R (List.filter f l).
Proof.
  intros Hs%Sorted_StronglySorted; [|done]. apply StronglySorted_Sorted.
  induction Hs as [|x l _ IH Hx]; cbn; [constructor|]. destruct (f x); [|done].
  constructor; [done|]. rewrite Forall_forall in *.
  intros y [Hy _]%InMemory.elem_of_list_filter. by apply Hx.
Qed.

Lemma listing_nodup rid st s :
  ids_ok (InMemory.store s) -> NoDup (tx_id <$> listing rid st s).
Proof.
  intros Hok. unfold listing, InMemory.status_listing. rewrite (sorted_by_perm _ (List.filter _ _)).
  eapply sublist_NoDup; [apply values_nodup, Hok|]. apply fmap_sublist, filter_sublist.
Qed.

(** What a sweep leaves. *)
Definition kept (gone : TransactionRepoModel -> bool) (v : gmap string TransactionRepoModel)
  : gmap string TransactionRepoModel := filter (fun kv => gone kv.2 = false) v.

Lemma kept_lookup gone v id t :
  kept gone v !! id = Some t <-> v !! id = Some t /\ gone t = false.
Proof. unfold kept. by rewrite map_lookup_filter_Some. Qed.

Lemma kept_ids_ok gone v : ids_ok v -> ids_ok (kept gone v).
Proof. intros Hok id t [Ht _]%kept_lookup. by apply Hok. Qed.

(** A listing has one order only, so deletions just leave gaps in it. *)
Lemma listing_kept rid st s s' gone :
  ids_ok (InMemory.store s) -> InMemory.store s' = kept gone (InMemory.store s) ->
  listing rid st s' = List.filter (fun t => negb (gone t)) (listing rid st s).
Proof.
  intros Hok Hs'. assert (ids_ok (InMemory.store s')) as Hok' by (rewrite Hs'; by apply kept_ids_ok).
  assert (forall t, t ∈ listing rid st s' <->
    t ∈ List.filter (fun t => negb (gone t)) (listing rid st s)) as Hin.
  { intros t. rewrite InMemory.elem_of_list_filter, !listing_elem, Hs', kept_lookup by done.
    rewrite negb_true_iff.
    naive_solver. }
  apply (Sorted_unique_strong listed_before).
  - intros a b Ha Hb Hab Hba. apply InMemory.elem_of_list_filter in Hb as [Hb _].
    apply Hin, InMemory.elem_of_list_filter in Ha as [Ha _].
    apply listing_elem in Ha as [Ha _], Hb as [Hb _]; [|done..].
    rewrite (listed_before_ids a b) in Ha by done. congruence.
  - apply listing_sorted.
  - apply filter_sorted, listing_sorted. exact _.
  - apply NoDup_Permutation; [..|done].
    + eapply NoDup_fmap_1, listing_nodup, Hok'.
    + eapply sublist_NoDup; [|apply filter_sublist]. eapply NoDup_fmap_1, listing_nodup, Hok.
Qed.

(** *** One page *)

Lemma page_of rid st s k :
  (Z.of_nat k * 100 < 2 ^ 32) ->
  cr_find_by_status_paginated rid [st]
    {| page := Z.of_nat k + 1; per_page := CLEANUP_PAGE_SIZE |} true s =
  (Ok {| pr_items := take 100 (drop (k * 100) (listing rid st s));
         pr_total := Z.of_nat (length (List.filter (InMemory.matches_status rid [st])
                                         (hash_values (InMemory.store s))));
         pr_page := Z.of_nat k + 1; pr_per_page := CLEANUP_PAGE_SIZE |}, s).
Proof.
  intros Hk. cbn -[Z.of_nat]. unfold InMemory.find_by_status_paginated, page_slice. cbn [page per_page].
  rewrite InMemory.start_of_saturating_small by (unfold CLEANUP_PAGE_SIZE; lia). done.
Qed.

(** Deleting listed transactions by their ids. *)
Lemma delete_listed l m r :
  NoDup (tx_id <$> l) -> (forall t, t ∈ l -> m !! tx_id t = Some t) ->
  deleted_count (snd (fold_left InMemory.delete_one (tx_id <$> l) (m, r))) =
  deleted_count r + Z.of_nat (length l).
Proof.
  revert m r. induction l as [|t l IH]; intros m r Hnd Hl; [cbn; lia|].
  apply NoDup_cons in Hnd as [Hn Hnd]. cbn [fmap list_fmap fold_left].
  unfold InMemory.delete_one at 2. rewrite (Hl t) by by left.
  rewrite IH; [cbn [deleted_count length]; lia|done|].
  intros t' Ht'. rewrite lookup_delete_ne; [by apply Hl; right|]. intros He. apply Hn. rewrite He.
  by apply list_elem_of_fmap_2.
Qed.

Definition among (l : list TransactionRepoModel) (t : TransactionRepoModel) : bool :=
  bool_decide (tx_id t ∈ tx_id <$> l).

Lemma kept_all gone v : (forall t, gone t = false) -> kept gone v = v.
Proof. intros Hg. apply map_filter_id. intros id t _. apply Hg. Qed.

Lemma set_store_id s : InMemory.set_store (InMemory.store s) s = s.
Proof. by destruct s. Qed.

Lemma without_among l v :
  ids_ok v -> without (list_to_set (tx_id <$> l)) v = kept (among l) v.
Proof.
  intros Hok. apply map_filter_ext. intros id t Ht. cbn. unfold among.
  rewrite bool_decide_eq_false, elem_of_list_to_set, (Hok _ _ Ht). done.
Qed.

Lemma chunks_one {A} n (l : list A) : l <> [] -> (length l <= n)%nat -> chunks n l = [l].
Proof.
  intros Hl Hn. unfold chunks. destruct l as [|x l]; [done|]. cbn [length chunks_fuel].
  rewrite take_ge, drop_ge by (cbn [length] in *; lia). by destruct (length l).
Qed.

Lemma process_page items now s :
  ids_ok (InMemory.store s) -> NoDup (tx_id <$> items) -> (length items <= 100)%nat ->
  (forall t, t ∈ items -> InMemory.store s !! tx_id t = Some t) ->
  let gone := List.filter (deletable now) items in
  process_transactions_for_cleanup items now s =
  (Ok (Z.of_nat (length gone)),
   InMemory.set_store (kept (among gone) (InMemory.store s)) s).
Proof.
  intros Hok Hnd Hlen Hin gone. unfold process_transactions_for_cleanup.
  assert (gone = [] -> (Ok 0, s) = (Ok (E := Report) (Z.of_nat (length gone)),
    InMemory.set_store (kept (among gone) (InMemory.store s)) s)) as Hnil.
  { intros ->. by rewrite kept_all, set_store_id. }
  assert (length gone <= 100)%nat as Hl.
  { subst gone. pose proof (sublist_length _ _ (filter_sublist (deletable now) items)). lia. }
  destruct items as [|t0 items0]; [by apply Hnil|]. set (items := t0 :: items0) in *. fold gone.
  assert (forall t, t ∈ gone -> InMemory.store s !! tx_id t = Some t) as Hgin.
  { intros t [Ht _]%InMemory.elem_of_list_filter. by apply Hin. }
  assert (NoDup (tx_id <$> gone)) as Hgnd
    by (eapply sublist_NoDup; [exact Hnd|apply fmap_sublist, filter_sublist]).
  clearbody gone. destruct gone as [|g0 gs] eqn:Eg; [by apply Hnil|]. cbn [fmap list_fmap].
  change (delete_request g0 :: _) with (delete_request <$> g0 :: gs). rewrite <- Eg in *.
  rewrite chunks_one; [|by rewrite Eg|by rewrite length_fmap].
  cbn [foldM]. unfold bindM, try_, retM. cbn [cr_delete_by_requests in_memory_cleanup].
  unfold InMemory.delete_by_requests, InMemory.delete_by_ids.
  assert (dr_id <$> (delete_request <$> gone) = tx_id <$> gone) as Hids
    by by rewrite <- list_fmap_compose.
  set (r0 := {| deleted_count := 0; failed := [] |}).
  pose proof (delete_one_fold (tx_id <$> gone) (InMemory.store s) r0) as Hf.
  pose proof (delete_listed gone (InMemory.store s) r0) as Hc. subst r0.
  rewrite Hids. destruct (delete_request <$> gone) as [|r rs] eqn:Er; [by rewrite Eg in Er|].
  destruct (tx_id <$> gone) as [|i0 ids] eqn:Et; [by rewrite Eg in Et|]. rewrite <- Et in *.
  destruct (fold_left _ _ _) as [m res]. cbn [fst snd deleted_count] in *. subst m.
  by rewrite Hc, without_among.
Qed.

(** *** All pages *)

Lemma filter_split {A} (f p : A -> bool) l :
  length (List.filter f l) =
  (length (List.filter f (List.filter p l)) +
   length (List.filter f (List.filter (fun x => negb (p x)) l)))%nat.
Proof.
  induction l as [|x l IH]; [done|]. cbn. destruct (p x), (f x) eqn:Ef; cbn; rewrite ?Ef; cbn; lia.
Qed.

Lemma filter_none {A} (f : A -> bool) l : (forall x, x ∈ l -> f x = false) -> List.filter f l = [].
Proof.
  intros Hf. induction l as [|x l IH]; [done|]. cbn. rewrite Hf by by left.
  apply IH. intros y Hy. apply Hf. by right.
Qed.

Lemma filter_all {A} (f : A -> bool) l : (forall x, x ∈ l -> f x = true) -> List.filter f l = l.
Proof.
  intros Hf. induction l as [|x l IH]; [done|]. cbn. rewrite Hf by by left.
  f_equal. apply IH. intros y Hy. apply Hf. by right.
Qed.

(** What a status cleanup takes. *)
Definition sweeps (rid : string) (sts : list TransactionStatus) (now : Z)
    (t : TransactionRepoModel) : bool :=
  String.eqb (tx_relayer_id t) rid && status_in (tx_status t) sts && deletable now t.

Lemma sweeps_listed rid st now s id t :
  ids_ok (InMemory.store s) -> InMemory.store s !! id = Some t ->
  sweeps rid [st] now t = true <-> t ∈ listing rid st s /\ deletable now t = true.
Proof.
  intros Hok Ht. unfold sweeps. rewrite !andb_true_iff, String.eqb_eq, status_in_spec,
    list_elem_of_singleton, listing_elem by done. rewrite (Hok _ _ Ht). naive_solver.
Qed.

Lemma kept_id gone v : (forall id t, v !! id = Some t -> gone t = false) -> kept gone v = v.
Proof. intros Hg. apply map_filter_id. intros id t. apply Hg. Qed.

Lemma kept_kept g1 g2 v :
  (forall id t, v !! id = Some t -> g1 t = true -> g2 t = true) -> kept g2 (kept g1 v) = kept g2 v.
Proof.
  intros Hg. apply map_eq. intros id. apply option_eq. intros t. rewrite !kept_lookup.
  split; [naive_solver|]. intros [Ht H2]. repeat split; [done| |done].
  destruct (g1 t) eqn:E1; [|done]. by rewrite (Hg _ _ Ht E1) in H2.
Qed.

Definition expired (rid : string) (st : TransactionStatus) (now : Z) (s : InMemory.state) : nat :=
  length (List.filter (deletable now) (listing rid st s)).

(** Deletions on one page: the pages before it stay as they are, and the expired ones become
    fewer. *)
Lemma page_deleted rid st now s k :
  ids_ok (InMemory.store s) ->
  (forall t, t ∈ take (k * 100) (listing rid st s) -> deletable now t = false) ->
  let gone := List.filter (deletable now) (take 100 (drop (k * 100) (listing rid st s))) in
  let s' := InMemory.set_store (kept (among gone) (InMemory.store s)) s in
  (gone <> [] ->
   forall t, t ∈ take (k * 100) (listing rid st s') -> deletable now t = false) /\
  (expired rid st now s = length gone + expired rid st now s')%nat /\
  (length (listing rid st s') <= length (listing rid st s))%nat.
Proof.
  intros Hok Hpre gone s'. set (L := listing rid st s) in *.
  assert (listing rid st s' = List.filter (fun t => negb (among gone t)) L) as HL
    by by apply (listing_kept rid st s s' (among gone)).
  assert (forall t, t ∈ gone -> t ∈ L /\ deletable now t = true) as Hgone.
  { intros t [(i & Hi & _)%elem_of_take Hd]%InMemory.elem_of_list_filter.
    rewrite lookup_drop in Hi. split; [by eapply list_elem_of_lookup_2|done]. }
  assert (forall t, t ∈ L -> among gone t = true <-> t ∈ gone) as Ham.
  { intros t Ht. unfold among. rewrite bool_decide_eq_true. split; [|apply list_elem_of_fmap_2].
    intros (t' & He & Hg)%list_elem_of_fmap. pose proof Hg as [Ht' _]%Hgone.
    apply listing_elem in Ht as [Ht _], Ht' as [Ht' _]; [|done..]. rewrite He in Ht. congruence. }
  rewrite HL. split; [|split].
  - intros Hne t Ht. apply Hpre. rewrite <- (take_drop (k * 100) L), List.filter_app in Ht.
    rewrite (filter_all _ (take (k * 100) L)) in Ht.
    + rewrite take_app_length' in Ht; [done|]. rewrite length_take.
      destruct (Nat.le_gt_cases (k * 100) (length L)); [lia|].
      destruct Hne. subst gone. by rewrite drop_ge by lia.
    + intros x Hx. apply negb_true_iff. destruct (among gone x) eqn:Ex; [|done].
      assert (x ∈ L) as HxL
        by (apply elem_of_take in Hx as (i & Hi & _); by eapply list_elem_of_lookup_2).
      apply Ham in Ex; [|done]. apply Hgone in Ex as [_ Hd]. by rewrite (Hpre x Hx) in Hd.
  - unfold expired. fold L. rewrite HL, (filter_split _ (among gone) L). f_equal.
    apply Permutation_length, NoDup_Permutation.
    + eapply sublist_NoDup; [|etransitivity; [apply filter_sublist|apply filter_sublist]].
      eapply NoDup_fmap_1, (listing_nodup rid st s), Hok.
    + eapply sublist_NoDup; [|etransitivity; [apply filter_sublist|]].
      * eapply NoDup_fmap_1, (listing_nodup rid st s), Hok.
      * etransitivity; [apply sublist_take|apply sublist_drop].
    + intros t. rewrite !InMemory.elem_of_list_filter. split.
      * intros [[Ht Ha] Hd]. by apply Ham in Ha.
      * intros Ht. pose proof Ht as [HtL Hd]%Hgone. by rewrite Ham.
  - apply sublist_length, filter_sublist.
Qed.

Lemma among_sweeps rid st now s items :
  ids_ok (InMemory.store s) -> items `sublist_of` listing rid st s ->
  forall id t, InMemory.store s !! id = Some t ->
    among (List.filter (deletable now) items) t = true -> sweeps rid [st] now t = true.
Proof.
  intros Hok Hsub id t Ht Ha. apply (sweeps_listed _ _ _ s id t Hok Ht).
  apply bool_decide_eq_true, list_elem_of_fmap in Ha as (t' & He & Ht').
  apply InMemory.elem_of_list_filter in Ht' as [Hi Hd].
  assert (t' ∈ listing rid st s) as HL by by eapply sublist_subseteq.
  destruct (proj1 (listing_elem rid st s t' Hok) HL) as [Hs' _].
  rewrite <- He, (Hok _ _ Ht) in Hs'. assert (t' = t) as -> by congruence. done.
Qed.

Lemma cleanup_loop_complete fuel rid st now k n total s :
  ids_ok (InMemory.store s) ->
  (forall t, t ∈ take (k * 100) (listing rid st s) -> deletable now t = false) ->
  (length (listing rid st s) <= (k + n) * 100)%nat -> (expired rid st now s + n < fuel)%nat ->
  Z.of_nat (k + n) * 100 < 2 ^ 32 ->
  status_cleanup_loop fuel rid st now (Z.of_nat k + 1) total s =
  (Ok (total + Z.of_nat (expired rid st now s)),
   InMemory.set_store (kept (sweeps rid [st] now) (InMemory.store s)) s).
Proof.
  revert k n total s. induction fuel as [|fuel IH]; intros k n total s Hok Hpre Hlen Hfuel Hb; [lia|].
  cbn [status_cleanup_loop]. unfold bindM, map_errM. rewrite page_of by lia.
  cbn [result_map_err pr_items]. set (items := take 100 (drop (k * 100) (listing rid st s))).
  assert (length items = 100 `min` (length (listing rid st s) - k * 100))%nat as Hil
    by (subst items; by rewrite length_take, length_drop).
  destruct items as [|t0 items0] eqn:Ei.
  { assert (length (listing rid st s) <= k * 100)%nat as Hk by (cbn [length] in Hil; lia).
    rewrite take_ge in Hpre by done. unfold expired. rewrite filter_none, Z.add_0_r by done.
    rewrite kept_id, set_store_id; [done|]. intros id t Ht.
    destruct (sweeps rid [st] now t) eqn:Es; [|done].
    apply (sweeps_listed _ _ _ _ _ _ Hok Ht) in Es as [HtL Hd]. by rewrite Hpre in Hd. }
  rewrite <- Ei in Hil |- *. assert (items <> []) as Hne by by rewrite Ei. clear Ei t0 items0.
  assert (items `sublist_of` listing rid st s) as Hsub
    by (etransitivity; [apply sublist_take|apply sublist_drop]).
  rewrite process_page; [|done| | |].
  2:{ eapply sublist_NoDup; [apply (listing_nodup rid st s Hok)|]. by apply fmap_sublist. }
  2:{ lia. }
  2:{ intros t Ht. apply (listing_elem rid st s t Hok). by eapply sublist_subseteq. }
  destruct (page_deleted rid st now s k Hok Hpre) as (Hpre' & Hexp & Hlen').
  fold items in Hpre', Hexp, Hlen'.
  set (gone := List.filter (deletable now) items) in *.
  set (s1 := InMemory.set_store (kept (among gone) (InMemory.store s)) s) in *.
  destruct (decide (gone = [])) as [Hg|Hg].
  - subst s1. rewrite Hg in *. rewrite kept_all, set_store_id in * by done. cbn [length Z.of_nat Z.eqb].
    replace (Z.of_nat k + 1 + 1) with (Z.of_nat (S k) + 1) by lia.
    assert (k * 100 < length (listing rid st s))%nat as Hk.
    { destruct (Nat.le_gt_cases (length (listing rid st s)) (k * 100)) as [Hle|]; [|lia].
      destruct Hne. subst items. by rewrite drop_ge. }
    rewrite (IH (S k) (n - 1)%nat); [by rewrite Z.add_0_r|done| | | |]; try lia.
    intros t Ht. replace (S k * 100)%nat with (k * 100 + 100)%nat in Ht by lia.
    rewrite <- take_take_drop in Ht. apply elem_of_app in Ht as [Ht|Ht]; [by apply Hpre|].
    fold items in Ht. destruct (deletable now t) eqn:Ed; [|done].
    assert (t ∈ gone) as Hin by by apply InMemory.elem_of_list_filter.
    rewrite Hg in Hin. by apply not_elem_of_nil in Hin.
  - assert (length gone <> 0)%nat as Hg0 by by destruct gone.
    rewrite (proj2 (Z.eqb_neq _ 0)) by lia.
    rewrite (IH k n); [|by apply kept_ids_ok|by apply Hpre'|lia..].
    f_equal; [f_equal; lia|]. subst s1.
    transitivity (InMemory.set_store (kept (sweeps rid [st] now)
      (kept (among gone) (InMemory.store s))) s); [done|]. f_equal. apply kept_kept. by apply among_sweeps.
Qed.

(** The budget of one status: a round for each expired transaction and one for each page. *)
Definition fits (now : Z) (rid : string) (st : TransactionStatus) (s : InMemory.state) : Prop :=
  100 * Z.of_nat (expired rid st now s) + Z.of_nat (length (listing rid st s)) <= 149900.

Lemma process_status_complete rid st now s :
  ids_ok (InMemory.store s) -> fits now rid st s ->
  process_status_cleanup rid st now s =
  (Ok (Z.of_nat (expired rid st now s)),
   InMemory.set_store (kept (sweeps rid [st] now) (InMemory.store s)) s).
Proof.
  intros Hok Hf. unfold process_status_cleanup. unfold fits in Hf.
  set (len := length (listing rid st s)) in *.
  assert (exists n, len <= n * 100 /\ n * 100 < len + 100)%nat as (n & Hn & Hn').
  { exists ((len + 99) / 100)%nat.
    pose proof (Nat.div_mod_eq (len + 99) 100). pose proof (Nat.mod_upper_bound (len + 99) 100). lia. }
  apply (cleanup_loop_complete MAX_CLEANUP_ITERATIONS_PER_STATUS rid st now 0 n 0 s Hok).
  - intros t Ht. by apply not_elem_of_nil in Ht.
  - exact Hn.
  - unfold MAX_CLEANUP_ITERATIONS_PER_STATUS. lia.
  - lia.
Qed.

Lemma fits_kept now rid st s s' gone :
  ids_ok (InMemory.store s) -> InMemory.store s' = kept gone (InMemory.store s) ->
  fits now rid st s -> fits now rid st s'.
Proof.
  intros Hok Hs' Hf. unfold fits, expired in *. rewrite (listing_kept rid st s s' gone) by done.
  pose proof (sublist_length _ _ (filter_sublist (fun t => negb (gone t)) (listing rid st s))).
  pose proof (filter_split (deletable now) (fun t => negb (gone t)) (listing rid st s)).
  cbn beta in *. lia.
Qed.

Lemma kept_or g1 g2 g v :
  (forall t, g t = g1 t || g2 t) -> kept g2 (kept g1 v) = kept g v.
Proof.
  intros Hg. apply map_eq. intros id. apply option_eq. intros t.
  rewrite !kept_lookup, Hg, orb_false_iff. naive_solver.
Qed.

Lemma statuses_complete rid err sts now total s :
  ids_ok (InMemory.store s) -> Forall (fun st => fits now rid st s) sts ->
  exists n, statuses_cleanup rid err sts now total s =
  (Ok {| rc_relayer_id := rid; rc_cleaned_count := n; rc_error := err |},
   InMemory.set_store (kept (sweeps rid sts now) (InMemory.store s)) s).
Proof.
  revert total s. induction sts as [|st sts IH]; intros total s Hok Hf.
  { exists total. cbn [statuses_cleanup]. rewrite kept_all, set_store_id; [done|].
    intros t. unfold sweeps. by rewrite andb_false_r. }
  apply Forall_cons in Hf as [Hst Hf]. cbn [statuses_cleanup]. unfold bindM, try_.
  rewrite process_status_complete by done.
  set (s1 := InMemory.set_store (kept (sweeps rid [st] now) (InMemory.store s)) s).
  destruct (IH (total + Z.of_nat (expired rid st now s)) s1) as [n Hn].
  - by apply kept_ids_ok.
  - eapply Forall_impl; [exact Hf|]. intros st' Hf'. by eapply fits_kept.
  - exists n. rewrite Hn. f_equal.
    transitivity (InMemory.set_store (kept (sweeps rid sts now)
      (kept (sweeps rid [st] now) (InMemory.store s))) s); [done|]. f_equal. apply kept_or.
    intros t. unfold sweeps, status_in. cbn [existsb]. rewrite orb_false_r.
    by destruct (String.eqb _ _), (status_eqb _ _), (existsb _ _), (deletable now t).
Qed.

(** What a whole run takes. *)
Definition takes (ids : list string) (now : Z) (t : TransactionRepoModel) : bool :=
  bool_decide (tx_relayer_id t ∈ ids) && deletable now t.

Lemma sweeps_final rid now t : sweeps rid FINAL_TRANSACTION_STATUSES now t = takes [rid] now t.
Proof.
  unfold sweeps, takes, deletable. destruct (status_in _ _); cbn [negb];
    rewrite ?andb_false_r, ?andb_true_r; try done. f_equal.
  destruct (String.eqb_spec (tx_relayer_id t) rid) as [->|Hne]; symmetry.
  - apply bool_decide_eq_true. by left.
  - apply bool_decide_eq_false. by intros ?%list_elem_of_singleton.
Qed.

Lemma relayer_complete rnow rid now s :
  ids_ok (InMemory.store s) -> Forall (fun st => fits now rid st s) FINAL_TRANSACTION_STATUSES ->
  exists n, process_single_relayer rnow rid now s =
  (Ok {| rc_relayer_id := rid; rc_cleaned_count := n; rc_error := None |},
   InMemory.set_store (kept (takes [rid] now) (InMemory.store s)) s).
Proof.
  intros Hok Hf. destruct (statuses_complete rid None FINAL_TRANSACTION_STATUSES now 0 s Hok Hf)
    as [n Hn]. exists n. etransitivity; [exact Hn|]. do 2 f_equal.
  apply map_filter_ext. intros id t _. cbn. by rewrite sweeps_final.
Qed.

Definition add_result (rnow now : Z) (results : list RelayerCleanupResult) (relayer_id : string)
  : M InMemory.state Report (list RelayerCleanupResult) :=
  let* r := process_single_relayer rnow relayer_id now in retM (results ++ [r]).

Lemma relayers_complete rnow ids now results s :
  ids_ok (InMemory.store s) ->
  Forall (fun rid => Forall (fun st => fits now rid st s) FINAL_TRANSACTION_STATUSES) ids ->
  Forall (fun r => rc_error r = None) results ->
  exists rs, foldM (add_result rnow now) results ids s =
    (Ok rs, InMemory.set_store (kept (takes ids now) (InMemory.store s)) s) /\
    Forall (fun r => rc_error r = None) rs.
Proof.
  revert results s. induction ids as [|rid ids IH]; intros results s Hok Hf Hr.
  { exists results. cbn [foldM]. rewrite kept_all, set_store_id; [done|]. done. }
  apply Forall_cons in Hf as [Hrid Hf]. cbn [foldM]. unfold bindM at 1, add_result at 1, bindM at 1.
  destruct (relayer_complete rnow rid now s Hok Hrid) as [n ->]. unfold retM at 1.
  set (s1 := InMemory.set_store _ s).
  destruct (IH (results ++ [{| rc_relayer_id := rid; rc_cleaned_count := n; rc_error := None |}]) s1)
    as (rs & Hrs & Hok').
  - by apply kept_ids_ok.
  - eapply Forall_impl; [exact Hf|]. intros rid' Hr'. eapply Forall_impl; [exact Hr'|].
    intros st' Hf'. by eapply fits_kept.
  - apply Forall_app. split; [done|]. by constructor.
  - exists rs. rewrite Hrs. split; [|done]. f_equal.
    transitivity (InMemory.set_store (kept (takes ids now)
      (kept (takes [rid] now) (InMemory.store s))) s); [done|].
    f_equal. apply kept_or. intros t. unfold takes.
    rewrite <- andb_orb_distrib_l. f_equal. apply eq_true_iff_eq.
    rewrite orb_true_iff, !bool_decide_eq_true, elem_of_cons, list_elem_of_singleton. done.
Qed.

Lemma report_ok rs : Forall (fun r => rc_error r = None) rs -> report_cleanup_results rs = Ok tt.
Proof.
  intros Hrs. unfold report_cleanup_results. rewrite filter_none; [done|].
  rewrite Forall_forall in Hrs. intros r Hr. apply bool_decide_eq_false. rewrite (Hrs r Hr).
  by apply is_Some_None.
Qed.

Lemma process_relayers_eq rnow now ids :
  process_relayers_in_batches rnow ids now = foldM (add_result rnow now) [] ids.
Proof. unfold process_relayers_in_batches, add_result. reflexivity. Qed.

Lemma cleanup_run_ok rnow now ids w rs s' :
  foldM (add_result rnow now) [] ids (cw_repo w) = (Ok rs, s') ->
  Forall (fun r => rc_error r = None) rs ->
  cleanup_run rnow now (Ok ids) w =
  (Ok tt, {| cw_repo := s'; cw_locks := cw_locks w; cw_dropped := cw_dropped w |}).
Proof.
  intros Hrun Hrs. unfold cleanup_run, bindM, liftM at 1, on_cleanup_repo. cbv beta iota.
  rewrite process_relayers_eq, Hrun. unfold liftM. by rewrite report_ok.
Qed.

(** C26. In memory, a run is complete: unless a status of a relayer has so many transactions
    that the iteration limit is reached (a hundred times the expired ones and all the others
    must stay below the limit), the run succeeds and deletes exactly the final transactions of
    the listed relayers whose [delete_at] has passed, wherever they are in the pages. *)
Theorem cleanup_is_complete mode lnow value rnow now ids attempt w :
  let s := cw_repo w in
  ids_ok (InMemory.store s) ->
  (forall rid st, rid ∈ ids -> st ∈ FINAL_TRANSACTION_STATUSES -> fits now rid st s) ->
  let '(r, w') := transaction_cleanup_handler mode lnow value rnow now (Ok ids) attempt w in
  r = Ok tt /\
  forall id t, InMemory.store (cw_repo w') !! id = Some t <->
    InMemory.store s !! id = Some t /\ ~ (tx_relayer_id t ∈ ids /\ deletable now t = true).
Proof.
  intros s Hok Hfits.
  destruct (relayers_complete rnow ids now [] s Hok) as (rs & Hrun & Hrs); [|done|].
  { apply Forall_forall. intros rid Hrid. apply Forall_forall. intros st. by apply Hfits. }
  assert (cleanup_handle_request mode lnow value rnow now (Ok ids) w =
    (Ok tt, {| cw_repo := InMemory.set_store (kept (takes ids now) (InMemory.store s)) s;
               cw_locks := cw_locks w; cw_dropped := cw_dropped w |})) as Hreq.
  { unfold cleanup_handle_request. cbv zeta.
    replace (match mode with true => _ | false => _ end) with
      (let* r := try_ (cleanup_run rnow now (Ok ids)) in do* drop_guard None in liftM r)
      by by destruct mode.
    unfold bindM at 1, try_, drop_guard. rewrite (cleanup_run_ok rnow now ids w rs _ Hrun Hrs).
    unfold bindM, liftM. cbn [option_list]. by rewrite app_nil_r. }
  unfold transaction_cleanup_handler, bindM, try_. rewrite Hreq. split; [done|]. intros id t.
  cbn [snd cw_repo InMemory.set_store InMemory.store]. rewrite kept_lookup. unfold takes.
  rewrite <- not_true_iff_false, andb_true_iff, bool_decide_eq_true. done.
Qed.

End Complete.

(** ** Examples *)

Section Witnesses.
#[local] Existing Instances sample_chrono sample_config sample_float sample_lua sample_serde
  sample_text sample_sets sample_entries sample_order.

(** One expired, one not yet, one without a time. *)
Definition demo_txs : InMemory.state :=
  let tx id delete_at :=
    set_tx_delete_at delete_at (sample_tx id Confirmed [] (sample_data None None None)) in
  InMemory.set_store {["a"%string := tx "a"%string (Some "5"%string);
    "b"%string := tx "b"%string (Some "50"%string); "c"%string := tx "c"%string None]} InMemory.new.

Definition demo_world {S} (s : S) (held : list (string * (string * Z))) : CleanupWorld :=
  {| cw_repo := s; cw_locks := {| locks := list_to_map held; lock_events := [] |};
     cw_dropped := [] |}.

Lemma demo_ids_ok : ids_ok (InMemory.store demo_txs).
Proof.
  intros id t Ht. apply elem_of_map_to_list in Ht. vm_compute in Ht.
  repeat (apply elem_of_cons in Ht as [[= -> ->]|Ht]; [done|]). by apply not_elem_of_nil in Ht.
Qed.

(** In memory, and on Redis while another instance has the lock. *)
Lemma cleanup_deletes_only_expired_witness :
  (exists v', InMemory.store (cw_repo (snd (transaction_cleanup_handler false 0 "v" 10 10
      (Ok ["relayer"%string]) 0 (demo_world demo_txs [])))) = v' /\
    forall id t, v' !! id = Some t -> InMemory.store demo_txs !! id = Some t) /\
  let _ := redis_cleanup "oz" ∅ 0 in
  cw_repo (snd (transaction_cleanup_handler true 0 "v" 10 10 (Ok ["relayer"%string]) 0
    (demo_world (sample_server []) [("oz:lock:transaction_cleanup", ("w", 9))]%string))) =
  sample_server [].
Proof.
  split.
  - assert (cr_holds (cw_repo (demo_world demo_txs [])) (InMemory.store demo_txs)) as Hh
      by (split; [reflexivity|apply demo_ids_ok]).
    destruct (cleanup_deletes_only_expired false 0 "v" 10 10 (Ok ["relayer"%string]) 0
      (demo_world demo_txs []) (InMemory.store demo_txs) Hh)
      as [(v' & [Hv' _] & Hsub & _) _]. by exists v'.
  - intros R. set (w := demo_world _ _). assert (cr_holds (cw_repo w) ∅) as Hh by apply sample_holds.
    destruct (cleanup_deletes_only_expired true 0 "v" 10 10 (Ok ["relayer"%string]) 0 w ∅ Hh)
      as [_ Hl]. apply (Hl "oz"%string); [reflexivity..|by vm_compute].
Defined.

Lemma cleanup_is_complete_witness :
  let w' := snd (transaction_cleanup_handler false 0 "v" 10 10 (Ok ["relayer"%string]) 0
                   (demo_world demo_txs [])) in
  InMemory.store (cw_repo w') !! "a"%string = None /\
  is_Some (InMemory.store (cw_repo w') !! "b"%string).
Proof.
  pose proof (cleanup_is_complete false 0 "v" 10 10 ["relayer"%string] 0 (demo_world demo_txs [])
    demo_ids_ok) as Hc.
  destruct (transaction_cleanup_handler _ _ _ _ _ _ _ _) as [r w'] eqn:E. destruct Hc as [_ Hc].
  { intros rid st ->%list_elem_of_singleton Hst.
    repeat (apply elem_of_cons in Hst as [->|Hst]; [by vm_compute|]). by apply not_elem_of_nil in Hst. }
  split.
  - apply eq_None_not_Some. intros [t [Ht Hn]%Hc]. apply Hn. vm_compute in Ht. injection Ht as <-.
    split; [by left|by vm_compute].
  - eexists. apply Hc. split; [by vm_compute|]. intros [_ Hd]. by vm_compute in Hd.
Defined.
End Witnesses.
