(* ===== verification/System.v ===== *)
(** * The system as a whole

    Intake of requests, the workers, cancellation and replacement through the API, health
    checks, nonce health runs and deletion of pending transactions of EVM relayers, in any order,
    each as one step: the nonces in use stay below the counters, so that preparation never hands
    out a nonce that is in use.  The repository is one whose nonce lookups are exact
    ([NonceIndex]); the race between overlapping runs that the comment on [resolve_nonce_gaps]
    describes is not modelled. *)

From S2P Require Import Prelude Decimal Errors Model Config Repository Counter Jobs Effects.
From S2P Require Import Sample EvmUtils EvmTransaction EvmStatus Lifecycle NonceAssignment.
From S2P Require Import EvmProperties EvmRelayer NonceHealth JobHandlers JobProperties.
Open Scope Z_scope.

Section System.
Context `{Chrono} `{ServerConfig} `{Env} `{PriceCalculator} `{JobEnv}.
Context {S C : Type} `{!TransactionRepository S} `{!NonceIndex S} `{!TransactionCounter C}.

(** The registered relayers, by id. *)
Context (relayers : string -> option RelayerRepoModel).

(** ** The invariant *)

(** A nonce of a registered relayer's transaction is below that relayer's counter. *)
Definition low (cv : gmap CounterKey Z) (t : TransactionRepoModel) : Prop :=
  forall r n, relayers (tx_relayer_id t) = Some r -> tx_nonce t = Some n -> n < counter_of r cv.

Definition kept (cv : gmap CounterKey Z) (id : string) (t : TransactionRepoModel) : Prop :=
  tx_id t = id /\ tx_ok t /\ low cv t.

(** The counters are [cv], and every stored transaction fits them. *)
Definition sound (cv : gmap CounterKey Z) (w : W S C) : Prop :=
  counters w = cv /\ map_Forall (kept cv) (view w).

Definition in_range (cv : gmap CounterKey Z) : Prop :=
  forall rid r, relayers rid = Some r -> 0 <= counter_of r cv <= u64_max.

Definition sys_ok (w : W S C) : Prop := in_range (counters w) /\ sound (counters w) w.

Lemma sound_same cv w w' : view w' = view w -> counters w' = counters w -> sound cv w -> sound cv w'.
Proof. unfold sound. by intros -> ->. Qed.

Lemma sys_ok_same w w' : view w' = view w -> counters w' = counters w -> sys_ok w -> sys_ok w'.
Proof. intros Hv Hc [Hr Hs]. unfold sys_ok. rewrite Hc. split; [done|by eapply sound_same]. Qed.

Lemma sys_of_sound {E A} (c : M (W S C) E A) Q :
  (forall cv, keeps (sound cv) c Q) -> keeps sys_ok c Q.
Proof.
  intros Hc w [Hr Hs]. destruct (Hc _ w Hs) as [Hs' HQ]. split; [|done].
  destruct Hs' as [Heq Hs']. unfold sys_ok, sound. by rewrite Heq.
Qed.

Lemma sound_inert {E A} cv (c : M (W S C) E A) :
  preserves same_both c -> keeps (sound cv) c (fun _ => True).
Proof.
  apply keeps_of_preserves. intros w w' Hs.
  apply sound_same; [apply Hs | by apply same_both_counters].
Qed.

Lemma sys_inert {E A} (c : M (W S C) E A) : preserves same_both c -> keeps sys_ok c (fun _ => True).
Proof. intros Hc. apply sys_of_sound. intros cv. by apply sound_inert. Qed.

(** ** Changes of the store *)

Section Store.
Context (cv : gmap CounterKey Z).

Lemma sound_insert (w w' : W S C) id t :
  counters w' = counters w -> view w' = <[id := t]> (view w) -> kept cv id t ->
  sound cv w -> sound cv w'.
Proof.
  intros Hc Hv Ht [Hcw Hm]. split; [congruence|]. rewrite Hv. by apply map_Forall_insert_2.
Qed.

Lemma sound_create t :
  kept cv (tx_id t) t -> keeps (sound cv) (repo_call (repo_create t)) (fun _ => True).
Proof.
  intros Ht w Hw. split; [|done]. unfold repo_call.
  pose proof (repo_create_spec t (w_repo w)) as Hs. unfold wp in Hs.
  destruct (repo_create t (w_repo w)) as [r s']. simpl in *.
  assert (Hc : counters (set_repo s' w) = counters w) by by destruct w.
  destruct Hs as [(_ & Hs & _)|[Hs _]].
  - eapply sound_insert; [done| |done|done]. by rewrite view_set_repo.
  - eapply sound_same; [|done|done]. by rewrite view_set_repo.
Qed.

Lemma sound_update id u :
  (forall now t, kept cv id t -> kept cv id (apply_partial_update now u t)) ->
  keeps (sound cv) (partial_update_r id u) (fun _ => True).
Proof.
  intros Hu w Hw. split; [|done].
  destruct (partial_update_r_spec id u w) as [Hc [Hv|(now & t & t' & Hl & Hr & Hv)]].
  { by eapply sound_same. }
  assert (Ht : kept cv id t) by apply (proj2 Hw _ _ Hl).
  eapply sound_insert; [done|done| |done]. destruct Hr as [->|(_ & _ & ->)]; [by apply Hu|done].
Qed.

Lemma kept_failed now reason id t :
  kept cv id t -> kept cv id (apply_partial_update now
    (upd_with_reason (Some reason) (upd_with_status Failed)) t).
Proof. intros (Hid & _ & Hlow). split; [done|]. split; [by split|exact Hlow]. Qed.

Lemma sound_fail_unscheduled t reason :
  keeps (sound cv) (fail_unscheduled t reason) (fun _ => True).
Proof.
  unfold fail_unscheduled. eapply keeps_bind; [|intros; by apply keeps_ret].
  eapply keeps_try, sound_update. intros now t'. apply kept_failed.
Qed.

(** The failure counters of the status checks. *)
Lemma kept_metadata id t m : kept cv id t -> kept cv id (set_tx_metadata m t).
Proof. by destruct t. Qed.

Lemma sound_counts id (w w' : W S C) : counts id w w' -> sound cv w -> sound cv w'.
Proof.
  intros [Hc [Hv|(t & m & Hl & Hv & _)]]; [by apply sound_same|]. intros Hw.
  eapply sound_insert; [done|done| |done]. apply kept_metadata, (proj2 Hw _ _ Hl).
Qed.

(** ** Intake and fillers *)

Context (relayer : RelayerRepoModel).
Hypothesis registered : relayers (rel_id relayer) = Some relayer.

Lemma kept_filler id ca n d :
  n < counter_of relayer cv ->
  kept cv id (gap_filling_model relayer id ca n (with_nonce d n)).
Proof.
  intros Hn. split; [done|]. split; [done|]. intros r n' Hr Hn'. simpl in Hr.
  destruct (gap_filling_filler relayer id ca n d) as (_ & Hnn & _). congruence.
Qed.

Lemma sound_create_noop n :
  n < counter_of relayer cv ->
  keeps (sound cv) (create_gap_filling_noop relayer n) (fun _ => True).
Proof.
  intros Hn. unfold create_gap_filling_noop.
  do 5 (eapply keeps_bind; [apply sound_inert; unfold relayer_network; preserve|intros ? _]).
  eapply keeps_bind; [by apply keeps_map_err, sound_create, kept_filler|]. intros ? _.
  do 2 (eapply keeps_bind;
    [apply sound_inert; unfold schedule_initial_status_check; preserve|intros ? _]).
  repeat case_match; try by apply keeps_ret.
  eapply keeps_bind; [apply sound_fail_unscheduled | intros; apply keeps_fail].
Qed.

Lemma sound_fill gaps k :
  Forall (fun n => n < counter_of relayer cv) gaps ->
  keeps (sound cv) (fill_gaps relayer gaps k) (fun _ => True).
Proof.
  intros Hg. revert k. induction Hg as [|n gaps Hn Hg IH]; intros k; simpl; [by apply keeps_ret|].
  eapply keeps_bind.
  { apply sound_inert. unfold find_active_tx_for_nonce. preserve. apply same_both_find_nonce. }
  intros [] _; [done|].
  eapply keeps_bind; [by eapply keeps_try, sound_create_noop|]. intros [] _; apply IH.
Qed.

Lemma sound_intake network request id :
  keeps (sound cv) (process_transaction_request_with_id relayer network request id)
    (fun _ => True).
Proof.
  unfold process_transaction_request_with_id.
  do 2 (eapply keeps_bind; [apply sound_inert; unfold relayer_network; preserve|intros ? _]).
  apply (keeps_bind _ _ _ (fun t => taken_in relayer id Pending t /\ tx_hashes t = [])).
  { apply keeps_lift. intros t Ht. split; [by eapply evm_transaction_model_spec|].
    unfold evm_transaction_model in Ht. destruct (evm_network_try_from _); simpl in Ht; [|done].
    by injection Ht as <-. }
  intros t [(Hid & Hr & Hn & Hs) Hh]. eapply keeps_bind.
  { apply keeps_map_err, sound_create. split; [done|]. split.
    - split; [by rewrite Hs|done].
    - intros r n _. by rewrite Hn. }
  intros ? _. eapply keeps_bind;
    [apply sound_inert; unfold schedule_initial_status_check; preserve|intros [|] _].
  - eapply keeps_bind; [apply sound_inert; preserve | intros; by apply keeps_ret].
  - eapply keeps_bind; [apply sound_fail_unscheduled | intros; apply keeps_fail].
Qed.

Lemma sound_delete : keeps (sound cv) (delete_pending_transactions relayer) (fun _ => True).
Proof.
  unfold delete_pending_transactions. eapply keeps_bind.
  { apply sound_inert. preserve. intros w. split; [|apply same_ctr_repo_call].
    apply same_view_repo_call. intros s. eapply wp_mono; [|apply repo_find_by_status_spec].
    by intros ?? [? _]. }
  intros l _. apply (keeps_bind _ _ _ (fun _ => True)); [|intros [] _; by apply keeps_ret].
  generalize (@nil string) at 1 as cs. generalize (@nil string) as fs.
  induction l as [|t l IH]; intros fs cs; simpl; [by apply keeps_ret|].
  eapply keeps_bind.
  { apply sound_inert. unfold cancel_transaction_via_job. preserve. }
  intros [|] _; apply IH.
Qed.
End Store.

(** ** Changes of a counter *)

Section Counter.
Context (relayer : RelayerRepoModel).
Hypothesis registered : relayers (rel_id relayer) = Some relayer.
Hypothesis registry : forall rid r, relayers rid = Some r -> rel_id r = rid.
Hypothesis chain_nonce_u64 :
  forall t a n, rpc_get_transaction_count t a = Ok n -> 0 <= n <= u64_max.

Lemma counter_of_other r n cv :
  rel_id r <> rel_id relayer ->
  counter_of r (<[(rel_id relayer, rel_address relayer) := n]> cv) = counter_of r cv.
Proof. intros Hne. unfold counter_of. rewrite lookup_insert_ne; congruence. Qed.

(** A new value of the relayer's counter, above the nonces it has in use. *)
Lemma sys_counter (w w' : W S C) n :
  view w' = view w ->
  counters w' = <[(rel_id relayer, rel_address relayer) := n]> (counters w) ->
  0 <= n <= u64_max -> (forall k, in_use relayer w k -> k < n) -> sys_ok w -> sys_ok w'.
Proof.
  intros Hv Hc Hn Hin [Hr [_ Hm]].
  assert (Heq : forall rid r, relayers rid = Some r ->
    (r = relayer /\ rid = rel_id relayer) \/ rel_id r <> rel_id relayer).
  { intros rid r Hrel. destruct (decide (rel_id r = rel_id relayer)) as [He|]; [left|by right].
    pose proof (registry rid r Hrel). split; congruence. }
  split.
  - intros rid r Hrel. rewrite Hc. destruct (Heq rid r Hrel) as [[-> _]|Hne].
    + by rewrite counter_of_insert.
    + rewrite counter_of_other by done. by eapply Hr.
  - split; [done|]. rewrite Hv. intros id t Hl. destruct (Hm id t Hl) as (Hid & Hok & Hlow).
    split; [done|]. split; [done|]. intros r k Hrel Hk. rewrite Hc.
    destruct (Heq _ r Hrel) as [[-> Hrid]|Hne].
    + rewrite counter_of_insert. apply Hin. by exists id, t.
    + rewrite counter_of_other by done. by eapply Hlow.
Qed.

(** In a sound state the relayer's nonces in use are below its counter. *)
Lemma sys_in_use (w : W S C) n :
  sys_ok w -> in_use relayer w n -> n < counter_of relayer (counters w).
Proof.
  intros [_ [_ Hm]] (id & t & Hl & Hr & Hn). destruct (Hm id t Hl) as (_ & _ & Hlow).
  apply Hlow; [congruence|done].
Qed.

Lemma sys_get : keeps sys_ok (ctr_service_get relayer) (fun o => default 0 o <= u64_max).
Proof.
  intros w Hw. pose proof (ctr_get_spec (rel_id relayer) (rel_address relayer) (w_ctr w)) as Hs.
  unfold wp in Hs. unfold ctr_service_get, counter_service, CounterService.get, map_errM.
  destruct (ctr_get _ _ _) as [r c']. simpl in *. destruct Hs as [Hv Ho]. split.
  - eapply sys_ok_same; [..|exact Hw]; by destruct w.
  - destruct r as [o|]; [|done]. intros ? [= <-]. rewrite (Ho o eq_refl).
    destruct Hw as [Hr _]. by apply (Hr _ _ registered).
Qed.

Lemma sys_sync_floor floor :
  0 <= floor <= u64_max ->
  keeps sys_ok (ctr_service_sync_floor relayer floor) (fun _ => True).
Proof.
  intros Hf w Hw. split; [|done].
  pose proof (counter_service_wp
    (ctr_sync_floor (rel_id relayer) (rel_address relayer) floor) CounterService.not_found_of w
    (fun cv => cv = counters w \/ exists n, cv = <[(rel_id relayer, rel_address relayer) := n]>
       (counters w) /\ counter_of relayer (counters w) <= n <= u64_max)) as Hc.
  destruct Hc as [Hv [Hc|(n & Hc & Hn)]].
  - pose proof (proj1 Hw _ _ registered) as Hb. unfold counter_of, counters in Hb |- *.
    eapply wp_mono; [|apply ctr_sync_floor_spec]. simpl. intros _ c' [[-> _]|[-> _]]; [right|by left].
    eexists. split; [done|]. destruct (ctr_view (w_ctr w) !! _); simpl in *; lia.
  - by eapply sys_ok_same.
  - pose proof (proj1 Hw _ _ registered). eapply sys_counter; [done|done|lia| |done].
    intros k Hk. pose proof (sys_in_use w k Hw Hk). lia.
Qed.

Lemma sys_set_if_equals expected value (w : W S C) :
  0 <= value -> sys_ok w -> (forall n, in_use relayer w n -> n < expected -> n < value) ->
  sys_ok (snd (ctr_service_set_if_equals relayer expected value w)).
Proof.
  intros Hv0 Hw Hin.
  pose proof (counter_service_wp
    (ctr_set_if_equals (rel_id relayer) (rel_address relayer) expected value)
    CounterService.not_found_of w
    (fun cv => cv = counters w \/
       counter_of relayer (counters w) = expected /\ value < expected /\
       cv = <[(rel_id relayer, rel_address relayer) := value]> (counters w))) as Hc.
  destruct Hc as [Hv [Hc|(He & Hlt & Hc)]].
  - eapply wp_mono; [|apply ctr_set_if_equals_spec]. simpl. fold (counters w).
    intros _ c' [(Hl & Hlt & -> & _)|[-> _]]; [right|by left].
    unfold counter_of. by rewrite Hl.
  - by eapply sys_ok_same.
  - pose proof (proj1 Hw _ _ registered). eapply sys_counter; [done|done|lia| |done].
    intros k Hk. apply Hin; [done|]. pose proof (sys_in_use w k Hw Hk). lia.
Qed.

Lemma sys_rewind oc observed :
  0 <= oc -> observed <= u64_max ->
  keeps sys_ok (try_rewind_counter relayer oc observed) (fun _ => True).
Proof.
  intros Hoc Hobs w Hw. unfold try_rewind_counter.
  destruct (observed <=? oc) eqn:?; [done|]. destruct (MAX_REWIND_SCAN_RANGE <? _); [done|].
  apply wp_bind. eapply wp_mono; [|apply scan_down_spec; lia]. simpl. intros o' w1 [Hsame Ho].
  assert (Hw1 : sys_ok w1).
  { eapply sys_ok_same; [apply Hsame|by apply same_both_counters|done]. }
  destruct o' as [o|e]; [|done]. destruct (Ho o eq_refl) as [Hb Hn].
  set (target := match o with Some _ => _ | None => _ end).
  destruct (observed <=? target); [done|]. split; [|done].
  assert (Ht : 0 <= target) by (unfold target; destruct o; lia).
  assert (Hin : forall n, in_use relayer w1 n -> n < observed -> n < target).
  { intros n Hu Hlt. apply (in_use_same relayer w) in Hu; [|apply Hsame].
    destruct (Z.lt_ge_cases n oc); [unfold target; destruct o; lia|].
    destruct (Hn n Hu ltac:(lia)) as (h & -> & Hh). specialize (Hb h eq_refl).
    unfold target. rewrite wrapu_small by (unfold in_u, u64_max in *; lia). lia. }
  pose proof (sys_set_if_equals observed target w1 Ht Hw1 Hin) as Hf.
  unfold bindM. by destruct (ctr_service_set_if_equals relayer observed target w1) as [[] ?].
Qed.

Lemma sys_on_chain_nonce :
  keeps sys_ok (get_on_chain_nonce relayer) (fun n => 0 <= n <= u64_max).
Proof.
  intros w Hw. split.
  - apply (sys_inert (get_on_chain_nonce relayer)); [|done]. unfold get_on_chain_nonce. preserve.
  - unfold get_on_chain_nonce, map_errM, call. intros n.
    destruct (rpc_get_transaction_count _ _) eqn:He; simpl; [|done].
    intros [= <-]. by eapply chain_nonce_u64.
Qed.

(** Detecting and filling the gaps. *)
Lemma sys_fill_detected oc hint :
  0 <= oc ->
  keeps sys_ok (let* gaps := detect_nonce_gaps relayer (Some oc) hint in
                match gaps with [] => retM 0 | _ => fill_gaps relayer gaps 0 end) (fun _ => True).
Proof.
  intros Hoc w Hw. split; [|done]. pose proof (gap_below_use relayer oc hint w Hoc) as Hd.
  unfold wp in Hd. unfold bindM.
  destruct (detect_nonce_gaps relayer (Some oc) hint w) as [r w1]. simpl in Hd.
  destruct Hd as [Hsame Hg].
  assert (Hw1 : sys_ok w1).
  { eapply sys_ok_same; [apply Hsame|by apply same_both_counters|done]. }
  destruct r as [gaps|e]; [|done]. specialize (Hg gaps eq_refl).
  destruct gaps as [|g gaps]; [done|]. destruct Hw1 as [Hr Hs].
  destruct (sound_fill (counters w1) relayer registered (g :: gaps) 0) with (w := w1)
    as [[Hc Hm] _]; [|done|].
  - eapply Forall_impl; [exact Hg|]. intros n (h & Hu & Hn).
    pose proof (sys_in_use w h Hw Hu). rewrite (same_both_counters _ _ Hsame). simpl in *. lia.
  - unfold sys_ok, sound. by rewrite Hc.
Qed.

Lemma sys_resolve hint : keeps sys_ok (resolve_nonce_gaps relayer hint) (fun _ => True).
Proof.
  assert (Hw64 : forall x, 0 <= wrapu 64 x <= u64_max).
  { intros x. pose proof (wrapu_in_u 64 x). unfold in_u, u64_max in *. lia. }
  unfold resolve_nonce_gaps. eapply keeps_bind; [apply sys_get | intros o Ho].
  apply (keeps_bind _ _ _ (fun _ => True)).
  { destruct hint; [|by apply keeps_ret].
    eapply keeps_bind; [by apply sys_sync_floor | intros; by apply keeps_ret]. }
  intros _ _. eapply keeps_bind; [apply sys_on_chain_nonce | intros oc Hoc].
  eapply keeps_bind; [by apply sys_sync_floor | intros _ _].
  eapply keeps_bind; [apply sys_rewind; [apply Hoc | exact Ho] | intros _ _].
  apply sys_fill_detected, Hoc.
Qed.

Lemma sys_health_action acquired metadata :
  keeps sys_ok (handle_health_action relayer acquired metadata) (fun _ => True).
Proof.
  unfold handle_health_action. case_match; [|by apply keeps_ret].
  case_match; [|by apply keeps_ret].
  eapply keeps_bind; [apply sys_inert; preserve | intros lock _]. destruct lock; [|by apply keeps_ret].
  eapply keeps_bind; [apply sys_resolve | intros; by apply keeps_ret].
Qed.

Lemma sys_check_health health_check :
  keeps sys_ok (check_health relayer health_check) (fun _ => True).
Proof.
  unfold check_health. eapply keeps_bind.
  { eapply (keeps_try _ _ (fun _ => True)). unfold sync_nonce.
    eapply keeps_bind; [apply sys_on_chain_nonce | intros n Hn].
    eapply keeps_bind; [by apply sys_sync_floor | intros; by apply keeps_ret]. }
  intros ? _. eapply keeps_bind.
  { apply sys_inert. unfold validate_rpc. preserve. }
  intros ? _. eapply keeps_bind.
  { apply sys_inert. unfold validate_min_balance. preserve. }
  intros ? _. case_match; [by apply keeps_ret|apply keeps_fail].
Qed.
End Counter.

(** ** Transaction handlers *)

Definition room (w : W S C) : Prop :=
  forall rid r, relayers rid = Some r -> counter_of r (counters w) < u64_max.

Lemma sys_store_ok w : sys_ok w -> store_ok w.
Proof. intros [_ [_ Hm]] id t Hl. by destruct (Hm id t Hl) as (? & ? & _). Qed.

Section Run.
Context (relayer : RelayerRepoModel) (tx : TransactionRepoModel).
Hypothesis registry : forall rid r, relayers rid = Some r -> rel_id r = rid.
Hypothesis owner : relayers (tx_relayer_id tx) = Some relayer.

(** The transaction gets no new nonce and the counters stay. *)
Lemma sys_same_nonce (w w' : W S C) t :
  view w !! tx_id tx = Some tx -> view w' = <[tx_id tx := t]> (view w) -> tx_id t = tx_id tx ->
  tx_ok t -> tx_relayer_id t = tx_relayer_id tx -> tx_nonce t = tx_nonce tx ->
  counters w' = counters w -> sys_ok w -> sys_ok w'.
Proof.
  intros Hv Hv' Hid Hok Hrid Hn Hc [Hr Hs]. unfold sys_ok. rewrite Hc. split; [done|].
  eapply sound_insert; [done|done| |done]. split; [done|]. split; [done|].
  destruct (proj2 Hs _ _ Hv) as (_ & _ & Hlow). intros r n. rewrite Hrid, Hn. apply Hlow.
Qed.

(** The transaction takes the counter's value, or none, and the counter moves on. *)
Lemma sys_new_nonce (w w' : W S C) t :
  let c := counter_of relayer (counters w) in
  view w !! tx_id tx = Some tx -> view w' = <[tx_id tx := t]> (view w) -> tx_id t = tx_id tx ->
  tx_ok t -> tx_relayer_id t = tx_relayer_id tx -> tx_nonce t = None \/ tx_nonce t = Some c ->
  counters w' = <[(rel_id relayer, rel_address relayer) := c + 1]> (counters w) ->
  c < u64_max -> sys_ok w -> sys_ok w'.
Proof.
  intros c Hv Hv' Hid Hok Hrid Hn Hc Hroom Hw.
  pose proof (registry _ _ owner) as Hreg.
  assert (Hrel : relayers (rel_id relayer) = Some relayer) by congruence.
  assert (Hc0 : 0 <= c) by apply (proj1 Hw _ _ owner).
  (* first the counter, then the store *)
  assert (Hw1 : sys_ok (set_ctr (w_ctr w') w)).
  { assert (Hvc : view (set_ctr (w_ctr w') w) = view w) by by destruct w.
    assert (Hcc : counters (set_ctr (w_ctr w') w) = counters w') by by destruct w.
    eapply (sys_counter relayer Hrel registry w); [done|by rewrite Hcc|lia| |done].
    intros k Hk. pose proof (sys_in_use relayer Hrel w k Hw Hk). unfold c. lia. }
  destruct Hw1 as [Hr1 [_ Hm1]].
  replace (counters (set_ctr (w_ctr w') w)) with (counters w') in Hr1, Hm1 by by destruct w.
  replace (view (set_ctr (w_ctr w') w)) with (view w) in Hm1 by by destruct w.
  split; [done|]. split; [done|]. rewrite Hv'. apply map_Forall_insert_2; [|done].
  split; [done|]. split; [done|]. intros r n Hr Hnn.
  assert (r = relayer) as -> by congruence. rewrite Hc, counter_of_insert.
  destruct Hn; [congruence|]. assert (n = c) by congruence. lia.
Qed.

Lemma sys_handler h (w : W S C) :
  view w !! tx_id tx = Some tx -> room w -> sys_ok w ->
  sys_ok (snd (run_handler relayer h tx w)).
Proof.
  intros Hv Hroom Hw. destruct (sys_store_ok w Hw _ _ Hv) as [_ Htx].
  destruct (run_handler_owned relayer h tx w Hv Htx) as [(t & Hv' & HE) _].
  pose proof (ev_relayer _ _ _ _ HE) as Hrid. pose proof (ev_id _ _ _ _ HE) as Hid.
  assert (Hok : tx_ok t) by by eapply evolves_ok.
  destruct (assigns h) eqn:Ha.
  - destruct h; try done. simpl in *.
    destruct (prepare_prepared relayer (view w) tx (counters w) w) as [Hp|[Hnone Hp]].
    { split; [done|]. exists tx. split; [by rewrite insert_id | done]. }
    all: destruct Hp as (Hc & t' & Hv'' & _ & Hn); rewrite Hv' in Hv'';
      apply (f_equal (lookup (tx_id tx))) in Hv''; rewrite !lookup_insert_eq in Hv'';
      injection Hv'' as <-.
    + by eapply sys_same_nonce.
    + pose proof (Hroom _ _ owner). pose proof (proj1 Hw _ _ owner).
      rewrite wrapu_small in Hc by (unfold in_u, u64_max in *; lia).
      by eapply sys_new_nonce.
  - eapply sys_same_nonce; try done.
    + by apply same_slot_false_nonce, (ev_data _ _ _ _ HE).
    + pose proof (ctr_handler relayer h tx Ha w) as Hc. unfold same_ctr in Hc.
      unfold counters. by rewrite Hc.
Qed.
End Run.

(** ** Workers *)

Section Workers.
Context (other_network :
  RelayerRepoModel -> handler -> TransactionRepoModel -> T S C TransactionRepoModel).
Hypothesis registry : forall rid r, relayers rid = Some r -> rel_id r = rid.
Hypothesis known_relayers : forall t rid r, relayers_by_id t rid = Ok r ->
  relayers rid = Some r /\ rel_network_type r = NtEvm.
Hypothesis chain_nonce_u64 :
  forall t a n, rpc_get_transaction_count t a = Ok n -> 0 <= n <= u64_max.

(** A job names the relayer of its transaction. *)
Definition addressed (id rid : string) (w : W S C) : Prop :=
  forall t, view w !! id = Some t -> tx_relayer_id t = rid.

(** States that only differ from [w] by what reads and queueing change. *)
Lemma same_both_trans (w w1 w2 : W S C) : same_both w1 w2 -> same_both w w1 -> same_both w w2.
Proof. intros H12 H01. exact (transitivity H01 H12). Qed.

Lemma sys_ok_same_both (w w' : W S C) : same_both w w' -> sys_ok w -> sys_ok w'.
Proof. intros Hs. apply sys_ok_same; [apply Hs | by apply same_both_counters]. Qed.

(** Running a handler on the stored version, from such a state. *)
Lemma sys_run_network relayer h tx rid (w w1 : W S C) k :
  sys_ok w -> room w -> addressed (tx_id tx) rid w -> relayers_by_id k rid = Ok relayer ->
  same_both w w1 -> view w !! tx_id tx = Some tx ->
  sys_ok (snd (run_network other_network relayer h tx w1)).
Proof.
  intros Hw Hroom Hadd Hk Hs Hv. destruct (known_relayers k rid relayer Hk) as [Hrel Hevm].
  unfold run_network. rewrite Hevm. apply sys_handler.
  - done.
  - by rewrite (Hadd tx Hv).
  - by rewrite (proj1 Hs).
  - intros rid' r Hr. rewrite (same_both_counters _ _ Hs). by eapply Hroom.
  - by eapply sys_ok_same_both.
Qed.

Lemma stored_id (w : W S C) id t : sys_ok w -> view w !! id = Some t -> tx_id t = id.
Proof. intros [_ [_ Hm]] Hl. apply (Hm id t Hl). Qed.

(** The request and submission workers: look up the relayer and the transaction, run the
    handler. *)
Lemma sys_simple_job rid id h (w : W S C) :
  sys_ok w -> room w -> addressed id rid w ->
  sys_ok (snd ((let* relayer := map_errM RApi (get_relayer_transaction rid) in
                let* transaction := map_errM RApi (get_transaction_by_id id) in
                do* map_errM RTransaction (run_network other_network relayer h transaction) in
                retM tt) w)).
Proof.
  intros Hw Hroom Hadd. refine (_ : wp _ (fun _ w' => sys_ok w') w).
  eapply (wp_bind_keeps (same_both w)).
  { apply keeps_map_err, (get_relayer_keeps same_both). intros w1 w2. apply same_both_trans. }
  { done. } { intros _ w1 Hs. by eapply sys_ok_same_both. }
  intros relayer w1 [k Hk] Hs1. apply wp_bind, wp_map_err.
  eapply wp_mono; [|apply (get_transaction_spec same_both)]. intros [t|e] w2 [Hs2 Ht].
  2: { eapply sys_ok_same_both; [exact Hs2|]. by eapply sys_ok_same_both. }
  specialize (Ht t eq_refl). rewrite (proj1 Hs1) in Ht. pose proof (stored_id w id t Hw Ht) as Hid.
  cbn [result_map_err]. apply wp_bind, wp_map_err. unfold wp. rewrite <- Hid in Ht, Hadd.
  pose proof (sys_run_network relayer h t rid w w2 k Hw Hroom Hadd Hk
    (same_both_trans _ _ _ Hs2 Hs1) Ht) as Hrun.
  by destruct (run_network other_network relayer h t w2) as [[] ?].
Qed.

Lemma sys_request job attempt (w : W S C) :
  sys_ok w -> room w -> addressed (jr_transaction_id job) (jr_relayer_id job) w ->
  sys_ok (snd (transaction_request_handler other_network job attempt w)).
Proof.
  intros Hw Hroom Hadd. unfold transaction_request_handler, bindM, try_.
  pose proof (sys_simple_job _ _ HPrepare w Hw Hroom Hadd) as Hj. fold (request_handle_request other_network job) in Hj.
  by destruct (request_handle_request other_network job w) as [[] ?].
Qed.

Lemma sys_submission job attempt (w : W S C) :
  sys_ok w -> room w -> addressed (js_transaction_id job) (js_relayer_id job) w ->
  sys_ok (snd (transaction_submission_handler other_network job attempt w)).
Proof.
  intros Hw Hroom Hadd. unfold transaction_submission_handler, bindM, try_.
  assert (Hj : sys_ok (snd (submission_handle_request other_network job w))).
  { unfold submission_handle_request. destruct (js_command job); by apply sys_simple_job. }
  by destruct (submission_handle_request other_network job w) as [[] ?].
Qed.

Lemma sys_status job attempt (w : W S C) :
  sys_ok w -> room w -> addressed (jc_transaction_id job) (jc_relayer_id job) w ->
  sys_ok (snd (transaction_status_handler other_network job attempt w)).
Proof.
  intros Hw Hroom Hadd. refine (_ : wp _ (fun _ w' => sys_ok w') w).
  unfold transaction_status_handler. apply wp_bind.
  eapply (wp_mono _ (fun _ w' => sys_ok w')).
  { intros [res|e] w' Hw'; [|done].
    apply (sys_of_sound (status_handle_result (jc_transaction_id job) res) (fun _ => True)); [|done].
    intros cv. apply status_result_keeps. intros w1 w2. apply sound_counts. }
  unfold status_handle_request. apply wp_bind, wp_try.
  eapply wp_mono; [|apply (get_transaction_spec same_both)]. intros r w1 [Hs1 Ht].
  assert (Hw1 : sys_ok w1) by by eapply sys_ok_same_both.
  destruct r as [t|e]; [|by destruct e]. specialize (Ht t eq_refl).
  eapply (wp_bind_keeps (same_both w)).
  { apply keeps_try, (get_relayer_keeps same_both). intros w2 w3. apply same_both_trans. }
  { done. } { intros _ w2 Hs. by eapply sys_ok_same_both. }
  intros r w2 Hr Hs2. assert (Hw2 : sys_ok w2) by by eapply sys_ok_same_both.
  destruct r as [relayer|e]; [|by destruct e]. destruct (Hr relayer eq_refl) as [k Hk].
  pose proof (stored_id w _ t Hw Ht) as Hid. rewrite <- Hid in Ht, Hadd.
  apply wp_bind, wp_try. unfold wp. set (h := HStatus _).
  pose proof (sys_run_network relayer h t _ w w2 k Hw Hroom Hadd Hk Hs2 Ht) as Hrun.
  by destruct (run_network other_network relayer h t w2) as [? ?].
Qed.

(** ** The system *)

(** One run of an entry point of the service. *)
Inductive sys_step (w : W S C) : W S C -> Prop :=
| sys_intake relayer network request id :
    relayers (rel_id relayer) = Some relayer ->
    sys_step w (snd (process_transaction_request_with_id relayer network request id w))
| sys_request_job job attempt :
    addressed (jr_transaction_id job) (jr_relayer_id job) w ->
    sys_step w (snd (transaction_request_handler other_network job attempt w))
| sys_send_job job attempt :
    addressed (js_transaction_id job) (js_relayer_id job) w ->
    sys_step w (snd (transaction_submission_handler other_network job attempt w))
| sys_status_job job attempt :
    addressed (jc_transaction_id job) (jc_relayer_id job) w ->
    sys_step w (snd (transaction_status_handler other_network job attempt w))
| sys_cancel relayer tx :
    view w !! tx_id tx = Some tx -> relayers (tx_relayer_id tx) = Some relayer ->
    sys_step w (snd (cancel_transaction relayer tx w))
| sys_replace relayer tx request :
    view w !! tx_id tx = Some tx -> relayers (tx_relayer_id tx) = Some relayer ->
    sys_step w (snd (replace_transaction relayer tx request w))
| sys_health relayer acquired metadata :
    relayers (rel_id relayer) = Some relayer ->
    sys_step w (snd (handle_health_action relayer acquired metadata w))
| sys_check relayer health_check :
    relayers (rel_id relayer) = Some relayer ->
    sys_step w (snd (check_health relayer health_check w))
| sys_delete relayer :
    relayers (rel_id relayer) = Some relayer ->
    sys_step w (snd (delete_pending_transactions relayer w)).

Lemma sys_step_ok (w w' : W S C) : sys_step w w' -> room w -> sys_ok w -> sys_ok w'.
Proof.
  intros Hs Hroom Hw. destruct Hs.
  - by apply (sys_of_sound _ _ (fun cv => sound_intake cv relayer network request id)).
  - by apply sys_request.
  - by apply sys_submission.
  - by apply sys_status.
  - by apply (sys_handler relayer tx registry ltac:(done) HCancel w).
  - by apply (sys_handler relayer tx registry ltac:(done) (HReplace request) w).
  - by apply sys_health_action.
  - by apply sys_check_health.
  - by apply (sys_of_sound _ _ (fun cv => sound_delete cv relayer)).
Qed.

End Workers.
End System.

(** ** Instances *)

Section Witnesses.
#[local] Existing Instances sample_chrono sample_config sample_order sample_calculator hole_env.

Definition one_relayer (rid : string) : option RelayerRepoModel :=
  if String.eqb rid "relayer" then Some sample_relayer else None.

Definition one_relayer_jobs : JobEnv :=
  {| relayers_by_id := fun _ rid => ok_or (one_relayer rid) (RepositoryError.NotFound rid);
     signers_by_id := fun _ _ => Ok tt;
     service_fault := fun _ _ => None |}.
#[local] Existing Instance one_relayer_jobs.

(** Nonce 5 is on its way, 7 has failed, the counter has run ahead to 12, and a transaction
    waits for its nonce. *)
Definition waiting_tx : TransactionRepoModel := sample_tx "tx3" Pending [] (sample_data None None None).

Definition busy_world : World InMemory.state (gmap CounterKey Z) :=
  sample_world [sample_tx "tx1" Submitted ["0xh1"%string] (sample_data (Some 5) None None);
                sample_tx "tx2" Failed [] (sample_data (Some 7) None None); waiting_tx]
    {[("relayer", "0xa1")%string := 12]}.

Lemma busy_ok : sys_ok one_relayer busy_world.
Proof.
  split.
  - intros rid r. unfold one_relayer. destruct (String.eqb rid "relayer"); [|done].
    intros [= <-]. vm_compute. by split.
  - split; [done|].
    change (view busy_world) with
      (<["tx1"%string := sample_tx "tx1" Submitted ["0xh1"%string] (sample_data (Some 5) None None)]>
       (<["tx2"%string := sample_tx "tx2" Failed [] (sample_data (Some 7) None None)]>
        (<["tx3"%string := waiting_tx]> (∅ : gmap string TransactionRepoModel)))).
    repeat apply map_Forall_insert_2; [..|apply map_Forall_empty].
    all: split; [done|]; split; [by split|]; intros r n [= <-] [= <-]; reflexivity.
Qed.

Definition health_metadata : gmap string string :=
  {[HEALTH_CHECK_ACTION_KEY := HEALTH_CHECK_ACTION_NONCE_HEALTH]}.

Lemma one_relayer_spec rid r : one_relayer rid = Some r -> rid = "relayer"%string /\ r = sample_relayer.
Proof.
  unfold one_relayer. destruct (String.eqb_spec rid "relayer"); [|done]. by intros [= <-].
Qed.

Lemma one_relayer_known k rid r :
  relayers_by_id k rid = Ok r -> one_relayer rid = Some r /\ rel_network_type r = NtEvm.
Proof. simpl. unfold one_relayer. destruct (String.eqb rid "relayer"); [|done]. by intros [= <-]. Qed.

Lemma busy_room : room one_relayer busy_world.
Proof. by intros rid r [_ ->]%one_relayer_spec. Qed.

End Witnesses.
